(* ===== verification/_CoqProject ===== *)
-Q . S2P
Prelude.v
Bytes.v
SparseFormat.v
LpFormat.v
LpUtility.v
Device.v
LpReader.v
LpWriter.v
LpImage.v
LpCrash.v
LpExtent.v
LpBuilder.v
LpAlloc.v
LpFree.v
LpGrow.v
LpInvariant.v
LpResize.v
LpExport.v
LpRoundtrip.v
BackedBlock.v
BlockList.v
SparseOutput.v
SparseFile.v
SparseImage.v
SparseRead.v
SparseRoundtrip.v
SparseWrite.v
DmTarget.v
DeviceMapper.v
DmLife.v
MemKernel.v
DmLinear.v
CowFormat.v
CowReader.v
CowWriter.v
CowLog.v
CowParse.v
CowAppend.v
CowRequest.v
CowImage.v
CowMerge.v
CowMeaning.v
CowSession.v
CowProps.v
SparseProps.v
LpProps.v
BuilderProps.v
DmMap.v
DmProps.v
LpLayout.v
SuperFlash.v
LayoutTiles.v
LayoutSuper.v
LpReach.v
LayoutSession.v
LayoutSparse.v
LayoutHelper.v
LayoutStore.v
LayoutBoot.v
LayoutProps.v
SnapUpdate.v
SnapTables.v
SnapCow.v
SnapSpace.v
SnapProps.v
SnapWorld.v
SnapState.v
SnapDevices.v
SnapManager.v
SnapMerge.v
SnapMap.v
SnapRecovery.v
SnapCreate.v
SnapFrame.v
SnapMapped.v
SnapSpec.v
SnapEffects.v
SnapSafe.v
MemUpdate.v
SnapManagerProps.v
