(* ===== verification/Prelude.v ===== *)
(** * Android's dynamic-partition storage stack: a verification library

    This library models and verifies the part of the Android platform under
    [src/AOSP/core] that stores and maps logical partitions:

    - [fs_mgr/liblp]: the partition table of a "super" block device, in memory
      ([builder.cpp]) and on disk ([reader.cpp], [writer.cpp], [metadata_format.h]);
    - [libsparse]: sparse images, the format in which such devices are flashed;
    - [fs_mgr/libdm]: device-mapper tables and the [ioctl]s that load them;
    - [fs_mgr/fs_mgr_dm_linear.cpp]: the step from a table of partitions to devices;
    - [liblp/images.cpp], [liblp/super_layout_builder.cpp] and
      [fastboot/super_flash_helper.cpp]: the image of a whole super partition;
    - [fs_mgr/libsnapshot]: what an update of a Virtual A/B device does to the tables, the
      room for copy-on-write data, the copy-on-write (COW) images themselves, and the
      manager that takes an update from its beginning to the end of the merge.

    They compose.  A [MetadataBuilder] allocates extents to partitions and [Export]s an
    [LpMetadata]; [writer.cpp] stores two copies of it for each slot; at boot
    [reader.cpp] reads one of them and [CreateLogicalPartitions] turns every partition
    into a linear device.  libsparse carries the images: the flash helper lays the tables
    and the images of the partitions out in one sparse file.  An update changes the tables
    of the other slot ([SnapshotMetadataUpdater]), takes COW partitions from what both
    tables leave free ([PartitionCowCreator]), and writes the new content of a partition
    into a COW image ([CowWriter]) that is read and merged later ([CowReader]).
    [SnapshotManager] keeps the state of all this in files and devices: it begins an update,
    creates its snapshots and finishes it, and after the reboot maps the partitions with
    their snapshots and merges them, in two phases, or cancels the update.

    ** Conventions

    C++ integers are in [Z]; every wrap-around is written out ([u32], [u64], [i64]).
    A call returns an [outcome]: [Ret], [Reject] (failure reported to the caller) or
    [Crash] (a failed [CHECK] or [assert], an access outside an object).  A call with
    state is an [IO S] (file Device): it gives an outcome and the state it leaves, also
    when it fails.  Strings and buffers are [bytes]; a packed struct is a record with a
    [codec], its memory image (file Bytes).  The definitions are executable.  A comment
    above a definition names the lines of the source it translates.

    What is not part of the repository is a parameter with its documented behaviour as
    laws: the operating system's block devices ([BlockIO], [BlockIOLaws]) and files
    ([Posix], [Gz], [CowFile], [CowFileLaws]), the device-mapper driver ([DmKernel],
    [DmKernelLaws], [DmStatusLaws]) and the layout of its structs ([DmAbi]), SHA-256, the
    compression libraries, the files, images, daemon and boot HAL of the snapshot manager
    ([SnapWorld], [SnapWorldLaws]), the super partition and the COW files it writes
    ([ISuperDevice], [ICowStore], [StoreLaws]), the devices and images it maps
    ([DeviceLaws]), the encoding of its messages ([SnapProto]), when the kernel or the
    daemon says that a snapshot is merged ([MergeLaws]), [realpath], opening and [fstat] of
    image files, and whether an allocation succeeds.  Implementations in memory discharge the laws ([MemDisk],
    [MemFile], [MemKernel], [MemUpdate]) and serve in the instances.  Protobuf messages are
    generated code; they are records of the fields that the code reads.

    ** Files

    Prelude, Bytes: outcomes, machine integers, byte strings, codecs; automation.
    Device: the interfaces to devices and files.

    liblp.
    - LpFormat: [metadata_format.h]; LpUtility: [utility.cpp], names of [reader.cpp].
    - LpReader, LpWriter: [reader.cpp], [writer.cpp].  LpImage: what a serialised table
      reads back as.  LpCrash: what a power loss during [UpdatePartitionTable] leaves.
    - LpExtent: extents, partitions and [resolve], the meaning of a list of extents.
      LpBuilder: the builder's state, construction and queries.  LpAlloc: free regions,
      growing, shrinking, resizing.  LpExport: [Export], import, comparison of slots.
    - LpFree, LpGrow: free regions and the choices made from them.  LpInvariant,
      LpResize: [builder_ok] and the operations that keep it.  LpRoundtrip: a builder
      after [Export] and [New].  LpReach: [New] and sequences of operations ([run_ops]).

    libsparse.
    - SparseFormat: [sparse_format.h], [sparse_crc32.cpp].
    - BackedBlock: [backed_block.cpp] on a heap of nodes that lists share; BlockList:
      chains of the heap as lists of chunks, and what insertion and splitting do.
    - SparseOutput, SparseFile, SparseRead: [output_file.cpp], [sparse.cpp],
      [sparse_read.cpp].  SparseImage: the content of an image; SparseRoundtrip,
      SparseWrite: writing an image and importing it again.

    Device mapper.
    - DmTarget: [dm_target.cpp], [dm_table.cpp], and [table_map], the meaning of a table.
    - DeviceMapper: [dm.cpp], [utility.cpp].  DmLife: devices over a call, for the kernel's
      laws, and tables read back.  MemKernel: a kernel in memory.
    - DmLinear: [fs_mgr_dm_linear.cpp].  DmMap: what the tables of partitions map
      and the devices made for all partitions.

    COW images.
    - CowFormat: [cow_format.h], [cow_format.cpp], the descriptor.  CowReader:
      [cow_reader.cpp], [cow_decompress.cpp]; CowWriter: [cow_writer.cpp],
      [cow_compress.cpp].
    - CowLog: an image as a log of entries; CowAppend, CowRequest, CowImage: the writer
      adds to that log; CowParse, CowMerge: the reader finds the entries, their
      data and the order of the merge.  CowMeaning, CowSession: what a reader sees of a
      writer's session, and images on which the reader goes wrong.

    Whole super partitions.
    - LpLayout: [super_layout_builder.cpp] and the files of tables of [images.cpp];
      SuperFlash: [super_flash_helper.cpp].
    - LayoutTiles, LayoutSuper, LayoutStore: what a layout is and what a device holds on
      which it was stored.  LayoutSession, LayoutHelper: sessions of the layout
      builder and the helper.  LayoutSparse: the sparse file of a layout.  LayoutBoot: from
      the helper to the devices of the partitions.

    Updates.
    - SnapUpdate: [snapshot_metadata_updater.cpp]; SnapTables: what an update makes of a
      table.
    - SnapCow: [partition_cow_creator.cpp], [dm_snapshot_internals.h], and the COW
      partition of [snapshot.cpp].  SnapSpace: source copies that are left out, the size
      of a COW and the regions it takes.
    - SnapWorld: the messages and what the manager works on.  SnapState: its files.
      SnapDevices: the devices of a snapshot and how they are removed.  SnapManager: up to
      the reboot, and cancelling.  SnapMerge: after the reboot.  SnapMap: the devices of a
      partition with a snapshot, and the list of what is taken away on failure.
      SnapRecovery: the change of daemons during init, and the calls of recovery.
      SnapCreate: the snapshots of an update (all [snapshot.cpp]).
    - SnapFrame: what each call leaves alone.  SnapMapped: the same for mapping and
      creating, and what a failed mapping leaves.  SnapSpec: the states of an update, a machine
      that every call follows.  SnapEffects: what calls achieve.  SnapSafe: what is not
      deleted.  MemUpdate: a device in memory.

    LpProps, BuilderProps, SparseProps, DmProps, CowProps, LayoutProps, SnapProps,
    SnapManagerProps: the properties, each with an instance.

    ** What is shown

    - The format: tables, geometries and names read back as they were written; what the
      reader accepts is well formed; an accepted slot is the first good copy; copies do
      not overlap.  The one way in which parsing reads out of bounds is characterised.
    - Power loss: after one at any byte of [UpdatePartitionTable], one of the two copies
      parses to the old tables or to the new.
    - The builder: [New] establishes and every operation keeps [builder_ok] (no sector has
      two owners, extents are inside the area for partitions, sizes are those of the
      extents); resizing keeps what is stored and fails only without space; free regions
      are exactly the free sectors up to alignment; export succeeds exactly under its
      stated conditions, and the builder survives the disk.
    - Devices: the table of a partition maps each logical sector as the builder says;
      tables of an exported builder share no sector and cannot reach the metadata;
      the records given to the kernel read back; a device is created with its table or
      not at all, unless the kernel refuses to remove what was begun; reading tables back ends and stays inside its buffer.
    - Sparse images: the list of blocks refines a function from positions to chunks; the
      table-driven CRC is the bit-serial one; a written image is imported as the same
      bytes; the loop that splits chunks ends.
    - COW images: what a session asked for, a reader sees, also when a later session went
      on from a label; the order of the merge; verified merges work in place.
    - Whole partitions: a layout covers the super partition without overlap; the sparse
      file says what the layout says; the flashed partition boots.
    - Updates: the target slot gets what the manifest says and the other slot keeps what
      it has; COW partitions take no sector of either slot, always fit on aligned devices,
      and hold every chunk the update writes; copies left out make no difference.
    - The manager: as long as a file that is there can be read, every call, whatever else
      fails, moves the state of the update along a machine, and so does every sequence of
      calls; once the device booted into the update it is not cancelled by a call, and
      dropped before the merge only when it was given up; while the partition table can
      be read, no status file of a partition that was not flashed is removed by
      the merge before the partition is merged; partitions of the second phase wait for
      those of the first; the indicator, the state and the removal of the old indicators
      reach the disk in an order that any loss of power leaves meaningful; a cancelled
      update leaves no snapshot; the removal of a device ends within its timeout; a mapping
      that fails leaves nothing mapped but possibly a device of the daemon.

    Some theorems state defects: [parse_overread], [total_size_wraps], [grow_past_end],
    [grow_aborts], [empty_chunks_abort], [unaligned_length_unreadable],
    [fill_checksum_mismatch], [table_always_valid], [parse_never_ends],
    [sequence_overflow], [sequence_lost], [sparse_layout_misplaced],
    [interrupted_start_is_stuck] (an instance, for snapshots of the daemon).

    ** Bounds and fuel

    Loops over data are structural.  Fuel occurs where a loop follows links or waits:
    chains of backed blocks (the number of nodes of the heap), splitting
    (the length divided by the largest chunk, [split_loop_terminates]), the buffer of
    [GetTable] (twenty doublings reach 2 GiB, [get_table_ends]), the lists of targets and
    devices (the buffer's length), and waiting for a file (every turn sleeps 20 ms, so
    [timeout / 20 + 1] turns, [wait_ends]).  The number of files of a resparse and of
    short writes in a row are arguments.  [ParseOps] has the length of the file as fuel,
    which is enough for every image whose clusters go forward; reading a stream has its
    length; [WriteOperation] calls itself for the end of a cluster and of a label, three
    deep; blocks and sequence data are emitted in as many turns as there are blocks or
    words.  The loop over copies passes one extent at least in every turn ([copy_loop_ok]).
    Out of fuel is a [Crash]; the theorems exclude it.  [ProcessUpdateState] polls until
    the merge ends, which is up to the kernel: its fuel is the number of polls, and it
    returns nothing when they are used up.  [DeleteDeviceIfExists] sleeps 400 ms in every
    turn, so [timeout / 400 + 2] turns are enough ([device_deletion_ends]).

    ** Not modelled

    Log messages and printing; the system calls behind the interfaces
    ([partition_opener.cpp], loop devices, scans of sysfs); [ImageBuilder] in
    [images.cpp]; [MergePercent] (floating point) in [dm_target.cpp]; the command line tools of libsparse and libsnapshot; the gzip
    stream itself; the threads that compress COW blocks (their results are joined in
    order); of libsnapshot the writers that [OpenSnapshotWriter] returns, the progress and the
    statistics, and the daemon snapuserd; of fastboot everything
    but the super flash helper.  fs_mgr's mounting, init, and the native services are
    outside this stack. *)
From Stdlib Require Export ZArith Lia.
From stdpp Require Export base gmap sets strings sorting numbers list.
From coqutil Require Import Byte Word.LittleEndianList.

#[global] Open Scope Z_scope.

(** ** Outcomes of a C++ call

    [Ret a]: the call returned [a].  [Reject]: it reported failure ([false],
    [nullptr] or an error code) and left nothing behind that its caller keeps.
    [Crash]: a failed [CHECK]/[assert], or an access the language leaves
    undefined (out-of-bounds indexing, a null or dangling pointer). *)

Inductive outcome (A : Type) :=
| Ret (a : A)
| Reject
| Crash.
Arguments Ret {A} a.
Arguments Reject {A}.
Arguments Crash {A}.

#[export] Instance outcome_mret : MRet outcome := @Ret.
#[export] Instance outcome_mbind : MBind outcome := λ A B f m,
  match m with Ret a => f a | Reject => Reject | Crash => Crash end.
#[export] Instance outcome_fmap : FMap outcome := λ A B f m,
  match m with Ret a => Ret (f a) | Reject => Reject | Crash => Crash end.

(** [require b]: the early return on a failed test; [CHECK b]: the abort. *)
Definition require (P : Prop) `{Decision P} : outcome unit :=
  if decide P then Ret () else Reject.
Definition CHECK (P : Prop) `{Decision P} : outcome unit :=
  if decide P then Ret () else Crash.

(** An unchecked access ([v[i]], [v.back()], [*p]). *)
Definition access {A} (o : option A) : outcome A :=
  match o with Some a => Ret a | None => Crash end.
(** A lookup whose failure is reported by the caller. *)
Definition found {A} (o : option A) : outcome A :=
  match o with Some a => Ret a | None => Reject end.

Definition returned {A} (m : outcome A) : option A :=
  match m with Ret a => Some a | _ => None end.

Lemma Ret_inj {A} (a b : A) : Ret a = Ret b → a = b.
Proof. congruence. Qed.
Lemma bind_Ret {A B} (m : outcome A) (f : A → outcome B) b :
  (m ≫= f) = Ret b ↔ ∃ a, m = Ret a ∧ f a = Ret b.
Proof. split; [destruct m; eauto; done|by intros (?&->&?)]. Qed.
Lemma require_Ret P `{Decision P} u : require P = Ret u ↔ P.
Proof. unfold require. destruct u. case_decide; naive_solver. Qed.
Lemma CHECK_Ret P `{Decision P} u : CHECK P = Ret u ↔ P.
Proof. unfold CHECK. destruct u. case_decide; naive_solver. Qed.
Lemma require_True P `{Decision P} : P → require P = Ret ().
Proof. intros. unfold require. by rewrite decide_True. Qed.
Lemma require_False P `{Decision P} : ¬ P → require P = Reject.
Proof. intros. unfold require. by rewrite decide_False. Qed.
Lemma CHECK_True P `{Decision P} : P → CHECK P = Ret ().
Proof. intros. unfold CHECK. by rewrite decide_True. Qed.
Lemma access_Ret {A} (o : option A) a : access o = Ret a ↔ o = Some a.
Proof. destruct o; naive_solver. Qed.
Lemma found_Ret {A} (o : option A) a : found o = Ret a ↔ o = Some a.
Proof. destruct o; naive_solver. Qed.

(** ** Machine integers: values are in [Z], wrap-around is explicit *)

Definition u8 (x : Z) : Z := x mod 2 ^ 8.
Definition u16 (x : Z) : Z := x mod 2 ^ 16.
Definition u32 (x : Z) : Z := x mod 2 ^ 32.
Definition u64 (x : Z) : Z := x mod 2 ^ 64.
(** Conversion to a signed type keeps the two's complement representative. *)
Definition i32 (x : Z) : Z := (x + 2 ^ 31) mod 2 ^ 32 - 2 ^ 31.
Definition i64 (x : Z) : Z := (x + 2 ^ 63) mod 2 ^ 64 - 2 ^ 63.

Abbreviation is_u8 x := (0 ≤ x < 2 ^ 8).
Abbreviation is_u16 x := (0 ≤ x < 2 ^ 16).
Abbreviation is_u32 x := (0 ≤ x < 2 ^ 32).
Abbreviation is_u64 x := (0 ≤ x < 2 ^ 64).

Lemma u16_small x : is_u16 x → u16 x = x.
Proof. intros. by apply Z.mod_small. Qed.
Lemma u32_small x : is_u32 x → u32 x = x.
Proof. intros. by apply Z.mod_small. Qed.
Lemma u64_small x : is_u64 x → u64 x = x.
Proof. intros. by apply Z.mod_small. Qed.
Lemma i64_small x : - 2 ^ 63 ≤ x < 2 ^ 63 → i64 x = x.
Proof. intros. unfold i64. rewrite Z.mod_small; lia. Qed.
Lemma i32_small x : - 2 ^ 31 ≤ x < 2 ^ 31 → i32 x = x.
Proof. intros. unfold i32. rewrite Z.mod_small; lia. Qed.
Lemma u32_i32 x : u32 (i32 x) = u32 x.
Proof. unfold u32, i32. rewrite Zminus_mod_idemp_l. f_equal. lia. Qed.
Lemma u16_range x : is_u16 (u16 x).
Proof. by apply Z.mod_pos_bound. Qed.
Lemma u32_range x : is_u32 (u32 x).
Proof. by apply Z.mod_pos_bound. Qed.
Lemma u64_range x : is_u64 (u64 x).
Proof. by apply Z.mod_pos_bound. Qed.

Create Rewrite HintDb words.
Create HintDb words_range.
#[export] Hint Rewrite u16_small u32_small u64_small i64_small i32_small using lia : words.
#[export] Hint Resolve u16_range u32_range u64_range : words_range.
(** Drop the wrap-arounds that the hypotheses show to be no-ops. *)
Ltac words := autorewrite with words in *.

(** ** Inverting a computation that returned *)

Ltac inv_ret_step :=
  match goal with
  | H : (_ ≫= _) = Ret _ |- _ =>
      let a := fresh "r" in let E := fresh "E" in
      apply bind_Ret in H; destruct H as (a & E & H)
  | H : require _ = Ret ?u |- _ => apply require_Ret in H; try clear u
  | H : CHECK _ = Ret ?u |- _ => apply CHECK_Ret in H; try clear u
  | H : access _ = Ret _ |- _ => apply access_Ret in H
  | H : found _ = Ret _ |- _ => apply found_Ret in H
  | H : Ret _ = Ret _ |- _ => apply Ret_inj in H; first [subst | idtac]
  | H : Reject = Ret _ |- _ => discriminate H
  | H : Crash = Ret _ |- _ => discriminate H
  end.
(** Expose every step of a computation that is known to return. *)
Ltac inv_ret := repeat inv_ret_step.

(** A computation crashes only where one of its steps does. *)
Lemma bind_Crash {A B} (m : outcome A) (f : A → outcome B) :
  (m ≫= f) = Crash ↔ m = Crash ∨ ∃ a, m = Ret a ∧ f a = Crash.
Proof.
  split.
  - destruct m; simpl; [intros; eauto|done|auto].
  - by intros [->|(a & -> & ?)].
Qed.
Lemma require_no_Crash P `{Decision P} : require P ≠ Crash.
Proof. unfold require. by case_decide. Qed.
Lemma found_no_Crash {A} (o : option A) : found o ≠ Crash.
Proof. by destruct o. Qed.
#[export] Hint Resolve require_no_Crash found_no_Crash : core.
