(* ===== verification/Bytes.v ===== *)
(** * Bytes: byte strings, C strings in fixed arrays, packed-struct codecs

    [bytes] is the model of [std::string], [uint8_t[]] and raw buffers.  A
    [codec] is the memory image of a C type: its size, the bytes of a value
    and the value of some bytes ([memcpy] into the struct), with the laws
    [CodecOk] that the struct codecs of [LpFormat] and [SparseFormat] get by
    composition. *)
From S2P Require Import Prelude.
From coqutil Require Import Byte Word.LittleEndianList.

Abbreviation bytes := (list byte).

#[export] Instance byte_eq_dec : EqDecision byte := Byte.byte_eq_dec.
#[export] Program Instance byte_countable : Countable byte :=
  inj_countable' Byte.to_nat (λ n, default Byte.x00 (Byte.of_nat n)) _.
Next Obligation. intros b. by destruct b. Qed.
#[export] Instance byte_inhabited : Inhabited byte := populate Byte.x00.

Definition str (s : string) : bytes := String.list_byte_of_string s.
Definition zeroes (n : nat) : bytes := replicate n Byte.x00.

(** [android::base::StartsWith] and [EndsWith]. *)
Definition StartsWith (s prefix : bytes) : bool := bool_decide (take (length prefix) s = prefix).
Definition EndsWith (s suffix : bytes) : bool :=
  bool_decide (length suffix ≤ length s)%nat &&
  bool_decide (drop (length s - length suffix) s = suffix).

(** Size of a byte string as the code's [size_t]. *)
Definition zlen {A} (l : list A) : Z := Z.of_nat (length l).

Lemma zlen_app {A} (l k : list A) : zlen (l ++ k) = zlen l + zlen k.
Proof. unfold zlen. rewrite length_app. lia. Qed.
Lemma to_nat_zlen {A} (l : list A) : Z.to_nat (zlen l) = length l.
Proof. unfold zlen. lia. Qed.
Lemma zlen_nonneg {A} (l : list A) : 0 ≤ zlen l.
Proof. unfold zlen. lia. Qed.
Lemma length_zeroes n : length (zeroes n) = n.
Proof. apply length_replicate. Qed.

(** ** [memcpy] out of a buffer of known extent *)

(** The [len] bytes of [buf] at [off]; reading past its end is undefined. *)
Definition slice (buf : bytes) (off len : Z) : outcome bytes :=
  if decide (0 ≤ off ∧ 0 ≤ len ∧ off + len ≤ zlen buf)
  then Ret (take (Z.to_nat len) (drop (Z.to_nat off) buf))
  else Crash.

Lemma slice_app_mid a b c :
  slice (a ++ b ++ c) (zlen a) (zlen b) = Ret b.
Proof.
  unfold slice. rewrite decide_True.
  2:{ rewrite !zlen_app. pose proof (zlen_nonneg a). pose proof (zlen_nonneg b).
      pose proof (zlen_nonneg c). lia. }
  f_equal. unfold zlen. rewrite !Nat2Z.id, drop_app_length. by rewrite take_app_length.
Qed.

(** ** C strings *)

(** The characters before the first NUL: what [strncpy] and
    [std::string(const char* )] see of a buffer. *)
Fixpoint cstr (s : bytes) : bytes :=
  match s with
  | [] => []
  | c :: s' => if decide (c = Byte.x00) then [] else c :: cstr s'
  end.

(** [strncpy(dst, src, n)]: [n] bytes, NUL padded, cut without a NUL. *)
Definition strncpy (n : nat) (src : bytes) : bytes :=
  let s := take n (cstr src) in s ++ zeroes (n - length s).

Definition no_nul (s : bytes) : Prop := Byte.x00 ∉ s.
#[export] Instance no_nul_dec s : Decision (no_nul s).
Proof. unfold no_nul. apply _. Defined.

Lemma cstr_no_nul s : no_nul (cstr s).
Proof.
  induction s as [|c s IH]; simpl; [apply not_elem_of_nil|].
  case_decide; [apply not_elem_of_nil|]. apply not_elem_of_cons; naive_solver.
Qed.
Lemma cstr_id s : no_nul s → cstr s = s.
Proof.
  induction s as [|c s IH]; intros Hs; simpl; [done|].
  apply not_elem_of_cons in Hs as [??]. rewrite decide_False by done. by rewrite IH.
Qed.
Lemma cstr_app_zeroes s n : no_nul s → cstr (s ++ zeroes (S n)) = s.
Proof.
  induction s as [|c s IH]; intros Hs; simpl.
  - done.
  - apply not_elem_of_cons in Hs as [??]. rewrite decide_False by done. by rewrite IH.
Qed.
Lemma length_cstr_le s : (length (cstr s) ≤ length s)%nat.
Proof. induction s; simpl; [lia|]. case_decide; simpl; lia. Qed.
Lemma length_strncpy n s : length (strncpy n s) = n.
Proof. unfold strncpy. rewrite length_app, length_zeroes, length_take. lia. Qed.

(** ** Codecs: the memory image of a packed little-endian C type *)

Record codec (A : Type) := Codec {
  c_size : nat;
  c_enc : A → bytes;
  c_dec : bytes → A;
  c_wf : A → Prop;
}.
Arguments Codec {A}.
Arguments c_size {A}.
Arguments c_enc {A}.
Arguments c_dec {A}.
Arguments c_wf {A}.

Class CodecOk {A} (c : codec A) : Prop := {
  enc_length a : c_wf c a → length (c_enc c a) = c_size c;
  dec_enc a rest : c_wf c a → c_dec c (c_enc c a ++ rest) = a;
  dec_wf bs : (c_size c ≤ length bs)%nat → c_wf c (c_dec c bs);
  enc_dec bs : (c_size c ≤ length bs)%nat →
    c_enc c (c_dec c bs) = take (c_size c) bs;
}.

Definition sizeof {A} (c : codec A) : Z := Z.of_nat (c_size c).

Definition c_int (n : nat) : codec Z :=
  Codec n (λ z, le_split n z) (λ bs, le_combine (take n bs))
    (λ z, 0 ≤ z < 2 ^ (8 * Z.of_nat n)).
Definition c_u16 : codec Z := c_int 2.
Definition c_u32 : codec Z := c_int 4.
Definition c_u64 : codec Z := c_int 8.
(** A [char x[n]] or [uint8_t x[n]] member. *)
Definition c_bytes (n : nat) : codec bytes :=
  Codec n (λ b, b) (λ bs, take n bs) (λ b, length b = n).
(** Two consecutive members of a packed struct. *)
Definition c_pair {A B} (c : codec A) (d : codec B) : codec (A * B) :=
  Codec (c_size c + c_size d) (λ p, c_enc c p.1 ++ c_enc d p.2)
    (λ bs, (c_dec c bs, c_dec d (drop (c_size c) bs)))
    (λ p, c_wf c p.1 ∧ c_wf d p.2).
(** A struct is the tuple of its members. *)
Definition c_struct {A B} (of_tuple : A → B) (tuple : B → A) (c : codec A) : codec B :=
  Codec (c_size c) (λ b, c_enc c (tuple b)) (λ bs, of_tuple (c_dec c bs))
    (λ b, c_wf c (tuple b)).

#[export] Instance c_int_ok n : CodecOk (c_int n).
Proof.
  split; simpl.
  - intros a _. apply length_le_split.
  - intros a rest Ha. rewrite take_app_length' by by rewrite length_le_split.
    rewrite le_combine_split. apply Z.mod_small. by rewrite Z.mul_comm.
  - intros bs Hbs. pose proof (le_combine_bound (take n bs)) as Hb.
    rewrite length_take, Nat.min_l in Hb by lia. done.
  - intros bs Hbs. apply split_le_combine'. rewrite length_take. lia.
Qed.
#[export] Instance c_u16_ok : CodecOk c_u16 := c_int_ok 2.
#[export] Instance c_u32_ok : CodecOk c_u32 := c_int_ok 4.
#[export] Instance c_u64_ok : CodecOk c_u64 := c_int_ok 8.
#[export] Instance c_bytes_ok n : CodecOk (c_bytes n).
Proof.
  split; simpl; intros; auto.
  - by apply take_app_length'.
  - rewrite length_take. lia.
Qed.
#[export] Instance c_pair_ok {A B} (c : codec A) (d : codec B) :
  CodecOk c → CodecOk d → CodecOk (c_pair c d).
Proof.
  intros Hc Hd. split; simpl.
  - intros [a b] [Ha Hb]; simpl in *. rewrite length_app, !enc_length by done. done.
  - intros [a b] rest [Ha Hb]; simpl in *. rewrite <- (assoc_L (++)).
    rewrite (dec_enc a) by done. rewrite drop_app_length' by by rewrite enc_length.
    by rewrite dec_enc.
  - intros bs Hbs. split; apply dec_wf; [lia|]. rewrite length_drop. lia.
  - intros bs Hbs. rewrite !enc_dec by (rewrite ?length_drop; lia).
    by rewrite take_take_drop.
Qed.
Lemma c_struct_ok {A B} (f : A → B) (g : B → A) (c : codec A) :
  CodecOk c → (∀ b, f (g b) = b) → (∀ a, g (f a) = a) → CodecOk (c_struct f g c).
Proof.
  intros Hc Hfg Hgf. split; simpl.
  - intros b Hb. by apply enc_length.
  - intros b rest Hb. by rewrite dec_enc, Hfg.
  - intros bs Hbs. rewrite Hgf. by apply dec_wf.
  - intros bs Hbs. rewrite Hgf. by apply enc_dec.
Qed.

Lemma dec_enc_nil {A} (c : codec A) `{!CodecOk c} a : c_wf c a → c_dec c (c_enc c a) = a.
Proof. intros Ha. rewrite <- (app_nil_r (c_enc c a)). by apply dec_enc. Qed.
Lemma enc_inj {A} (c : codec A) `{!CodecOk c} a b :
  c_wf c a → c_wf c b → c_enc c a = c_enc c b → a = b.
Proof. intros Ha Hb E. rewrite <- (dec_enc_nil c a), E by done. by apply dec_enc_nil. Qed.

(** The image of an array of structs. *)
Definition c_array {A} (c : codec A) (l : list A) : bytes := concat (c_enc c <$> l).
Lemma length_c_array {A} (c : codec A) `{!CodecOk c} (l : list A) :
  Forall (c_wf c) l → length (c_array c l) = (length l * c_size c)%nat.
Proof.
  unfold c_array. induction 1 as [|a l Ha _ IH]; [done|].
  rewrite fmap_cons, concat_cons, length_app, IH. rewrite enc_length by done. simpl. lia.
Qed.
Lemma zlen_c_array {A} (c : codec A) `{!CodecOk c} (l : list A) :
  Forall (c_wf c) l → zlen (c_array c l) = zlen l * sizeof c.
Proof. intros. unfold zlen, sizeof. rewrite (length_c_array c) by done. lia. Qed.

Lemma last_take_zeroes s n : (length s < n)%nat → list.last (s ++ zeroes (n - length s)) = Some Byte.x00.
Proof.
  intros Hn. destruct (n - length s)%nat as [|k] eqn:E; [lia|].
  unfold zeroes. rewrite replicate_S_end, (assoc_L (++)). apply last_snoc.
Qed.
Lemma no_nul_app s t : no_nul (s ++ t) ↔ no_nul s ∧ no_nul t.
Proof. unfold no_nul. rewrite elem_of_app. tauto. Qed.
Lemma no_nul_take n s : no_nul s → no_nul (take n s).
Proof. unfold no_nul. rewrite <- (take_drop n s) at 1. rewrite elem_of_app. tauto. Qed.
