(* ===== verification/SparseFormat.v ===== *)
(** * The sparse image format ([libsparse/sparse_format.h], [sparse_crc32.cpp])

    The headers with their codecs, and the checksum: the table-driven CRC is the
    bit-serial one. *)
From S2P Require Import Prelude Bytes.
From coqutil Require Import Byte.

(** [libsparse/sparse_format.h:25-37 sparse_header_t] *)
Record sparse_header_t := mkSparseHeader {
  sh_magic : Z;
  sh_major_version : Z;
  sh_minor_version : Z;
  file_hdr_sz : Z;
  chunk_hdr_sz : Z;
  blk_sz : Z;
  total_blks : Z;
  total_chunks : Z;
  image_checksum : Z;
}.

(** [libsparse/sparse_format.h:46-51 chunk_header_t] *)
Record chunk_header_t := mkChunkHeader {
  chunk_type : Z;
  ch_reserved1 : Z;
  chunk_sz : Z;
  total_sz : Z;
}.

(** [libsparse/sparse_format.h:39-39 SPARSE_HEADER_MAGIC] *)
Definition SPARSE_HEADER_MAGIC : Z := 0xed26ff3a.
(** [libsparse/sparse_format.h:41-41 CHUNK_TYPE_RAW] *)
Definition CHUNK_TYPE_RAW : Z := 0xCAC1.
(** [libsparse/sparse_format.h:42-42 CHUNK_TYPE_FILL] *)
Definition CHUNK_TYPE_FILL : Z := 0xCAC2.
(** [libsparse/sparse_format.h:43-43 CHUNK_TYPE_DONT_CARE] *)
Definition CHUNK_TYPE_DONT_CARE : Z := 0xCAC3.
(** [libsparse/sparse_format.h:44-44 CHUNK_TYPE_CRC32] *)
Definition CHUNK_TYPE_CRC32 : Z := 0xCAC4.

(** [libsparse/sparse_format.h:25-37 sparse_header_t layout] *)
Definition sparse_header_codec : codec sparse_header_t :=
  c_struct (λ '(a, (b, (c, (d, (e, (f, (g, (h, i)))))))), mkSparseHeader a b c d e f g h i)
    (λ s, (sh_magic s, (sh_major_version s, (sh_minor_version s, (file_hdr_sz s,
          (chunk_hdr_sz s, (blk_sz s, (total_blks s, (total_chunks s, image_checksum s)))))))))
    (c_pair c_u32 (c_pair c_u16 (c_pair c_u16 (c_pair c_u16 (c_pair c_u16
    (c_pair c_u32 (c_pair c_u32 (c_pair c_u32 c_u32)))))))).
(** [libsparse/sparse_format.h:46-51 chunk_header_t layout] *)
Definition chunk_header_codec : codec chunk_header_t :=
  c_struct (λ '(a, (b, (c, d))), mkChunkHeader a b c d)
    (λ s, (chunk_type s, (ch_reserved1 s, (chunk_sz s, total_sz s))))
    (c_pair c_u16 (c_pair c_u16 (c_pair c_u32 c_u32))).

#[export] Instance sparse_header_codec_ok : CodecOk sparse_header_codec.
Proof. apply c_struct_ok; [apply _|by intros []|]. by intros (?&?&?&?&?&?&?&?&?). Qed.
#[export] Instance chunk_header_codec_ok : CodecOk chunk_header_codec.
Proof. apply c_struct_ok; [apply _|by intros []|]. by intros (?&?&?&?). Qed.

(** [libsparse/output_file.cpp:54-54 SPARSE_HEADER_LEN] *)
Definition SPARSE_HEADER_LEN : Z := sizeof sparse_header_codec.
(** [libsparse/output_file.cpp:55-55 CHUNK_HEADER_LEN] *)
Definition CHUNK_HEADER_LEN : Z := sizeof chunk_header_codec.
Lemma sparse_sizes : SPARSE_HEADER_LEN = 28 ∧ CHUNK_HEADER_LEN = 12.
Proof. done. Qed.

(** ** The rounding macros, in the arithmetic of their operands *)

(** [DIV_ROUND_UP] on [uint64_t].
    [libsparse/sparse_defs.h:42-42 DIV_ROUND_UP] *)
Definition DIV_ROUND_UP (x y : Z) : Z := u64 (x + y - 1) / y.
(** [libsparse/sparse_defs.h:43-43 ALIGN] *)
Definition ALIGN (x y : Z) : Z := u64 (y * DIV_ROUND_UP x y).
(** [libsparse/sparse_defs.h:44-44 ALIGN_DOWN] *)
Definition ALIGN_DOWN (x y : Z) : Z := y * (x / y).

(** ** CRC-32 of sparse images ([libsparse/sparse_crc32.cpp])

    The table-driven CRC the writer and the reader compute, and the bit-serial
    definition of CRC-32 (polynomial [0xedb88320], reflected) it implements. *)

(** [libsparse/sparse_crc32.cpp:49-81 crc32_tab] *)
Definition crc32_tab : list Z :=
  [
   0x00000000; 0x77073096; 0xee0e612c; 0x990951ba; 0x076dc419; 0x706af48f; 0xe963a535;
   0x9e6495a3; 0x0edb8832; 0x79dcb8a4; 0xe0d5e91e; 0x97d2d988; 0x09b64c2b; 0x7eb17cbd;
   0xe7b82d07; 0x90bf1d91; 0x1db71064; 0x6ab020f2; 0xf3b97148; 0x84be41de; 0x1adad47d;
   0x6ddde4eb; 0xf4d4b551; 0x83d385c7; 0x136c9856; 0x646ba8c0; 0xfd62f97a; 0x8a65c9ec;
   0x14015c4f; 0x63066cd9; 0xfa0f3d63; 0x8d080df5; 0x3b6e20c8; 0x4c69105e; 0xd56041e4;
   0xa2677172; 0x3c03e4d1; 0x4b04d447; 0xd20d85fd; 0xa50ab56b; 0x35b5a8fa; 0x42b2986c;
   0xdbbbc9d6; 0xacbcf940; 0x32d86ce3; 0x45df5c75; 0xdcd60dcf; 0xabd13d59; 0x26d930ac;
   0x51de003a; 0xc8d75180; 0xbfd06116; 0x21b4f4b5; 0x56b3c423; 0xcfba9599; 0xb8bda50f;
   0x2802b89e; 0x5f058808; 0xc60cd9b2; 0xb10be924; 0x2f6f7c87; 0x58684c11; 0xc1611dab;
   0xb6662d3d; 0x76dc4190; 0x01db7106; 0x98d220bc; 0xefd5102a; 0x71b18589; 0x06b6b51f;
   0x9fbfe4a5; 0xe8b8d433; 0x7807c9a2; 0x0f00f934; 0x9609a88e; 0xe10e9818; 0x7f6a0dbb;
   0x086d3d2d; 0x91646c97; 0xe6635c01; 0x6b6b51f4; 0x1c6c6162; 0x856530d8; 0xf262004e;
   0x6c0695ed; 0x1b01a57b; 0x8208f4c1; 0xf50fc457; 0x65b0d9c6; 0x12b7e950; 0x8bbeb8ea;
   0xfcb9887c; 0x62dd1ddf; 0x15da2d49; 0x8cd37cf3; 0xfbd44c65; 0x4db26158; 0x3ab551ce;
   0xa3bc0074; 0xd4bb30e2; 0x4adfa541; 0x3dd895d7; 0xa4d1c46d; 0xd3d6f4fb; 0x4369e96a;
   0x346ed9fc; 0xad678846; 0xda60b8d0; 0x44042d73; 0x33031de5; 0xaa0a4c5f; 0xdd0d7cc9;
   0x5005713c; 0x270241aa; 0xbe0b1010; 0xc90c2086; 0x5768b525; 0x206f85b3; 0xb966d409;
   0xce61e49f; 0x5edef90e; 0x29d9c998; 0xb0d09822; 0xc7d7a8b4; 0x59b33d17; 0x2eb40d81;
   0xb7bd5c3b; 0xc0ba6cad; 0xedb88320; 0x9abfb3b6; 0x03b6e20c; 0x74b1d29a; 0xead54739;
   0x9dd277af; 0x04db2615; 0x73dc1683; 0xe3630b12; 0x94643b84; 0x0d6d6a3e; 0x7a6a5aa8;
   0xe40ecf0b; 0x9309ff9d; 0x0a00ae27; 0x7d079eb1; 0xf00f9344; 0x8708a3d2; 0x1e01f268;
   0x6906c2fe; 0xf762575d; 0x806567cb; 0x196c3671; 0x6e6b06e7; 0xfed41b76; 0x89d32be0;
   0x10da7a5a; 0x67dd4acc; 0xf9b9df6f; 0x8ebeeff9; 0x17b7be43; 0x60b08ed5; 0xd6d6a3e8;
   0xa1d1937e; 0x38d8c2c4; 0x4fdff252; 0xd1bb67f1; 0xa6bc5767; 0x3fb506dd; 0x48b2364b;
   0xd80d2bda; 0xaf0a1b4c; 0x36034af6; 0x41047a60; 0xdf60efc3; 0xa867df55; 0x316e8eef;
   0x4669be79; 0xcb61b38c; 0xbc66831a; 0x256fd2a0; 0x5268e236; 0xcc0c7795; 0xbb0b4703;
   0x220216b9; 0x5505262f; 0xc5ba3bbe; 0xb2bd0b28; 0x2bb45a92; 0x5cb36a04; 0xc2d7ffa7;
   0xb5d0cf31; 0x2cd99e8b; 0x5bdeae1d; 0x9b64c2b0; 0xec63f226; 0x756aa39c; 0x026d930a;
   0x9c0906a9; 0xeb0e363f; 0x72076785; 0x05005713; 0x95bf4a82; 0xe2b87a14; 0x7bb12bae;
   0x0cb61b38; 0x92d28e9b; 0xe5d5be0d; 0x7cdcefb7; 0x0bdbdf21; 0x86d3d2d4; 0xf1d4e242;
   0x68ddb3f8; 0x1fda836e; 0x81be16cd; 0xf6b9265b; 0x6fb077e1; 0x18b74777; 0x88085ae6;
   0xff0f6a70; 0x66063bca; 0x11010b5c; 0x8f659eff; 0xf862ae69; 0x616bffd3; 0x166ccf45;
   0xa00ae278; 0xd70dd2ee; 0x4e048354; 0x3903b3c2; 0xa7672661; 0xd06016f7; 0x4969474d;
   0x3e6e77db; 0xaed16a4a; 0xd9d65adc; 0x40df0b66; 0x37d83bf0; 0xa9bcae53; 0xdebb9ec5;
   0x47b2cf7f; 0x30b5ffe9; 0xbdbdf21c; 0xcabac28a; 0x53b39330; 0x24b4a3a6; 0xbad03605;
   0xcdd70693; 0x54de5729; 0x23d967bf; 0xb3667a2e; 0xc4614ab8; 0x5d681b02; 0x2a6f2b94;
   0xb40bbe37; 0xc30c8ea1; 0x5a05df1b; 0x2d02ef8d].

(** One byte: [crc32_tab[(crc ^ *p++) & 0xFF] ^ (crc >> 8)]; the index is below 256.
    [libsparse/sparse_crc32.cpp:95-95 sparse_crc32, loop] *)
Definition crc_byte (crc : Z) (p : byte) : Z :=
  Z.lxor (default 0 (crc32_tab !! Z.to_nat (Z.land (Z.lxor crc (byte.unsigned p)) 0xFF)))
    (Z.shiftr crc 8).

(** [libsparse/sparse_crc32.cpp:90-97 sparse_crc32] *)
Definition sparse_crc32 (crc_in : Z) (buf : bytes) : Z :=
  Z.lxor (foldl crc_byte (Z.lxor crc_in 0xFFFFFFFF) buf) 0xFFFFFFFF.

(** ** The bit-serial definition *)

(** One step of the shift register. *)
Definition crc_bit (crc : Z) : Z :=
  if Z.testbit crc 0 then Z.lxor (Z.shiftr crc 1) 0xEDB88320 else Z.shiftr crc 1.
Definition crc_byte_spec (crc : Z) (p : byte) : Z :=
  Nat.iter 8 crc_bit (Z.lxor crc (byte.unsigned p)).
Definition crc32_spec (buf : bytes) : Z :=
  Z.lxor (foldl crc_byte_spec 0xFFFFFFFF buf) 0xFFFFFFFF.

(** ** The table agrees with the bit-serial definition *)

Lemma crc_bit_lxor a b : crc_bit (Z.lxor a b) = Z.lxor (crc_bit a) (crc_bit b).
Proof.
  unfold crc_bit. rewrite Z.lxor_spec, Z.shiftr_lxor.
  destruct (Z.testbit a 0), (Z.testbit b 0); simpl; Z.bitwise; by repeat destruct (Z.testbit _ _).
Qed.
Lemma crc_bits_lxor n a b :
  Nat.iter n crc_bit (Z.lxor a b) = Z.lxor (Nat.iter n crc_bit a) (Nat.iter n crc_bit b).
Proof. induction n as [|n IH]; simpl; [done|]. by rewrite IH, crc_bit_lxor. Qed.
(** Bits above the ones shifted out only move. *)
Lemma crc_bits_shiftl n a : Nat.iter n crc_bit (Z.shiftl a (Z.of_nat n)) = a.
Proof.
  revert a. induction n as [|n IH]; intros a; [apply Z.shiftl_0_r|].
  rewrite Nat.iter_succ_r. unfold crc_bit at 2.
  rewrite Z.shiftl_spec_low, Z.shiftr_shiftl_l by lia.
  by replace (Z.of_nat (S n) - 1) with (Z.of_nat n) by lia.
Qed.

Lemma crc_table_entries :
  forallb (λ i, bool_decide (crc32_tab !! i = Some (Nat.iter 8 crc_bit (Z.of_nat i)))) (seq 0 256)
  = true.
Proof. by vm_compute. Qed.
Lemma crc_table_entry i :
  0 ≤ i < 256 → crc32_tab !! Z.to_nat i = Some (Nat.iter 8 crc_bit i).
Proof.
  intros Hi. pose proof (proj1 (forallb_forall _ _) crc_table_entries (Z.to_nat i)) as H.
  rewrite bool_decide_eq_true, Z2Nat.id in H by lia. apply H, in_seq. lia.
Qed.

(** The low byte is looked up, the others are shifted. *)
Lemma split_low_byte x : x = Z.lxor (Z.land x 0xFF) (Z.shiftl (Z.shiftr x 8) 8).
Proof.
  apply Z.bits_inj'. intros n Hn. rewrite Z.lxor_spec, Z.land_spec.
  change 0xFF with (Z.ones 8). destruct (decide (n < 8)) as [H|H].
  - by rewrite Z.ones_spec_low, Z.shiftl_spec_low, andb_true_r, xorb_false_r by lia.
  - rewrite Z.ones_spec_high, Z.shiftl_spec, Z.shiftr_spec, andb_false_r, xorb_false_l by lia.
    by replace (n - 8 + 8) with n by lia.
Qed.
Lemma byte_range p : 0 ≤ byte.unsigned p < 256.
Proof. apply byte.unsigned_range. Qed.

Lemma crc_byte_correct crc p : 0 ≤ crc → crc_byte crc p = crc_byte_spec crc p.
Proof.
  intros Hc. unfold crc_byte, crc_byte_spec. set (x := Z.lxor crc (byte.unsigned p)).
  assert (Hlow : 0 ≤ Z.land x 0xFF < 256).
  { change 0xFF with (Z.ones 8). rewrite Z.land_ones by lia. by apply Z.mod_pos_bound. }
  rewrite (crc_table_entry _ Hlow). simpl default. rewrite (split_low_byte x) at 2.
  rewrite crc_bits_lxor, (crc_bits_shiftl 8). f_equal. unfold x. rewrite Z.shiftr_lxor.
  assert (Z.shiftr (byte.unsigned p) 8 = 0) as ->; [|by rewrite Z.lxor_0_r].
  pose proof (byte_range p). rewrite Z.shiftr_div_pow2 by lia. apply Z.div_small. lia.
Qed.

Lemma crc_byte_nonneg crc p : 0 ≤ crc → 0 ≤ crc_byte crc p.
Proof.
  intros Hc. unfold crc_byte. apply Z.lxor_nonneg. rewrite Z.shiftr_nonneg.
  split; [done|]. intros _.
  assert (Hall : Forall (λ x, 0 ≤ x) crc32_tab).
  { apply Forall_forall. intros x Hx. apply (bool_decide_unpack (0 ≤ x)).
    revert x Hx. apply Forall_forall. unfold crc32_tab. repeat (constructor; [done|]). constructor. }
  destruct (crc32_tab !! _) as [x|] eqn:E; [|done]. by apply (Forall_lookup_1 _ _ _ _ Hall E).
Qed.

Lemma sparse_crc32_correct buf : sparse_crc32 0 buf = crc32_spec buf.
Proof.
  unfold sparse_crc32, crc32_spec. rewrite Z.lxor_0_l. f_equal.
  assert (H : 0 ≤ 0xFFFFFFFF) by done. revert H. generalize 0xFFFFFFFF.
  induction buf as [|p buf IH]; intros crc Hc; simpl; [done|].
  rewrite <- crc_byte_correct by done. apply IH. by apply crc_byte_nonneg.
Qed.
(** A checksum can be continued. *)
Lemma sparse_crc32_app crc a b : sparse_crc32 crc (a ++ b) = sparse_crc32 (sparse_crc32 crc a) b.
Proof.
  unfold sparse_crc32. rewrite foldl_app, Z.lxor_assoc, Z.lxor_nilpotent. by rewrite Z.lxor_0_r.
Qed.
