(* ===== verification/LpFormat.v ===== *)
(** * liblp on-disk format ([liblp/include/liblp/metadata_format.h])

    One record per packed struct, in the order of its members, with the codec
    that gives its memory image; the constants of the format; [LpMetadata], the
    deserialised form ([liblp.h]).  A comment [[file:first-last symbol]] on a
    definition names the lines it models. *)
From S2P Require Import Prelude Bytes.

(** [liblp/include/liblp/metadata_format.h:32-32 LP_METADATA_GEOMETRY_MAGIC] *)
Definition LP_METADATA_GEOMETRY_MAGIC : Z := 0x616c4467.
(** [liblp/include/liblp/metadata_format.h:35-35 LP_METADATA_GEOMETRY_SIZE] *)
Definition LP_METADATA_GEOMETRY_SIZE : Z := 4096.
(** [liblp/include/liblp/metadata_format.h:38-38 LP_METADATA_HEADER_MAGIC] *)
Definition LP_METADATA_HEADER_MAGIC : Z := 0x414C5030.
(** [liblp/include/liblp/metadata_format.h:41-41 LP_METADATA_MAJOR_VERSION] *)
Definition LP_METADATA_MAJOR_VERSION : Z := 10.
(** [liblp/include/liblp/metadata_format.h:42-42 LP_METADATA_MINOR_VERSION_MIN] *)
Definition LP_METADATA_MINOR_VERSION_MIN : Z := 0.
(** [liblp/include/liblp/metadata_format.h:43-43 LP_METADATA_MINOR_VERSION_MAX] *)
Definition LP_METADATA_MINOR_VERSION_MAX : Z := 2.
(** [liblp/include/liblp/metadata_format.h:46-46 LP_METADATA_VERSION_FOR_UPDATED_ATTR] *)
Definition LP_METADATA_VERSION_FOR_UPDATED_ATTR : Z := 1.
(** [liblp/include/liblp/metadata_format.h:49-49 LP_METADATA_VERSION_FOR_EXPANDED_HEADER] *)
Definition LP_METADATA_VERSION_FOR_EXPANDED_HEADER : Z := 2.
(** [liblp/include/liblp/metadata_format.h:57-57 LP_PARTITION_ATTR_READONLY] *)
Definition LP_PARTITION_ATTR_READONLY : Z := 1.
(** [liblp/include/liblp/metadata_format.h:66-66 LP_PARTITION_ATTR_SLOT_SUFFIXED] *)
Definition LP_PARTITION_ATTR_SLOT_SUFFIXED : Z := 2.
(** [liblp/include/liblp/metadata_format.h:73-73 LP_PARTITION_ATTR_UPDATED] *)
Definition LP_PARTITION_ATTR_UPDATED : Z := 4.
(** [liblp/include/liblp/metadata_format.h:76-76 LP_PARTITION_ATTR_DISABLED] *)
Definition LP_PARTITION_ATTR_DISABLED : Z := 8.
(** [liblp/include/liblp/metadata_format.h:81-82 LP_PARTITION_ATTRIBUTE_MASK_V0] *)
Definition LP_PARTITION_ATTRIBUTE_MASK_V0 : Z :=
  Z.lor LP_PARTITION_ATTR_READONLY LP_PARTITION_ATTR_SLOT_SUFFIXED.
(** [liblp/include/liblp/metadata_format.h:83-83 LP_PARTITION_ATTRIBUTE_MASK_V1] *)
Definition LP_PARTITION_ATTRIBUTE_MASK_V1 : Z :=
  Z.lor LP_PARTITION_ATTR_UPDATED LP_PARTITION_ATTR_DISABLED.
(** [liblp/include/liblp/metadata_format.h:84-85 LP_PARTITION_ATTRIBUTE_MASK] *)
Definition LP_PARTITION_ATTRIBUTE_MASK : Z :=
  Z.lor LP_PARTITION_ATTRIBUTE_MASK_V0 LP_PARTITION_ATTRIBUTE_MASK_V1.
(** [liblp/include/liblp/metadata_format.h:102-102 LP_METADATA_DEFAULT_PARTITION_NAME] *)
Definition LP_METADATA_DEFAULT_PARTITION_NAME : bytes := str "super".
(** [liblp/include/liblp/metadata_format.h:105-105 LP_SECTOR_SIZE] *)
Definition LP_SECTOR_SIZE : Z := 512.
(** [liblp/include/liblp/metadata_format.h:110-110 LP_PARTITION_RESERVED_BYTES] *)
Definition LP_PARTITION_RESERVED_BYTES : Z := 4096.
(** [liblp/include/liblp/metadata_format.h:241-241 LP_HEADER_FLAG_VIRTUAL_AB_DEVICE] *)
Definition LP_HEADER_FLAG_VIRTUAL_AB_DEVICE : Z := 1.
(** [liblp/include/liblp/metadata_format.h:275-275 LP_TARGET_TYPE_LINEAR] *)
Definition LP_TARGET_TYPE_LINEAR : Z := 0.
(** [liblp/include/liblp/metadata_format.h:278-278 LP_TARGET_TYPE_ZERO] *)
Definition LP_TARGET_TYPE_ZERO : Z := 1.
(** [liblp/include/liblp/metadata_format.h:323-323 LP_GROUP_SLOT_SUFFIXED] *)
Definition LP_GROUP_SLOT_SUFFIXED : Z := 1.
(** [liblp/include/liblp/metadata_format.h:378-378 LP_BLOCK_DEVICE_SLOT_SUFFIXED] *)
Definition LP_BLOCK_DEVICE_SLOT_SUFFIXED : Z := 1.

(** ** Structs *)

(** [liblp/include/liblp/metadata_format.h:116-144 LpMetadataGeometry] *)
Record LpMetadataGeometry := mkGeometry {
  g_magic : Z;
  g_struct_size : Z;
  g_checksum : bytes;
  metadata_max_size : Z;
  metadata_slot_count : Z;
  logical_block_size : Z;
}.

(** [liblp/include/liblp/metadata_format.h:152-159 LpMetadataTableDescriptor] *)
Record LpMetadataTableDescriptor := mkTable {
  t_offset : Z;
  t_num_entries : Z;
  t_entry_size : Z;
}.

(** [liblp/include/liblp/metadata_format.h:182-236 LpMetadataHeader] *)
Record LpMetadataHeader := mkHeader {
  h_magic : Z;
  h_major_version : Z;
  h_minor_version : Z;
  header_size : Z;
  header_checksum : bytes;
  tables_size : Z;
  tables_checksum : bytes;
  h_partitions : LpMetadataTableDescriptor;
  h_extents : LpMetadataTableDescriptor;
  h_groups : LpMetadataTableDescriptor;
  h_block_devices : LpMetadataTableDescriptor;
  h_flags : Z;
  h_reserved : bytes;
}.

(** [liblp/include/liblp/metadata_format.h:246-270 LpMetadataPartition] *)
Record LpMetadataPartition := mkPartition {
  p_name : bytes;
  p_attributes : Z;
  p_first_extent_index : Z;
  p_num_extents : Z;
  p_group_index : Z;
}.

(** [liblp/include/liblp/metadata_format.h:281-301 LpMetadataExtent] *)
Record LpMetadataExtent := mkExtent {
  e_num_sectors : Z;
  e_target_type : Z;
  e_target_data : Z;
  e_target_source : Z;
}.

(** [liblp/include/liblp/metadata_format.h:308-317 LpMetadataPartitionGroup] *)
Record LpMetadataPartitionGroup := mkGroup {
  gr_name : bytes;
  gr_flags : Z;
  gr_maximum_size : Z;
}.

(** [liblp/include/liblp/metadata_format.h:329-368 LpMetadataBlockDevice] *)
Record LpMetadataBlockDevice := mkBlockDevice {
  first_logical_sector : Z;
  bd_alignment : Z;
  bd_alignment_offset : Z;
  bd_size : Z;
  bd_partition_name : bytes;
  bd_flags : Z;
}.

(** [liblp/include/liblp/liblp.h:37-44 LpMetadata] *)
Record LpMetadata := mkMetadata {
  m_geometry : LpMetadataGeometry;
  m_header : LpMetadataHeader;
  m_partitions : list LpMetadataPartition;
  m_extents : list LpMetadataExtent;
  m_groups : list LpMetadataPartitionGroup;
  m_block_devices : list LpMetadataBlockDevice;
}.

(** [liblp/include/liblp/partition_opener.h:28-51 BlockDeviceInfo] *)
Record BlockDeviceInfo := mkInfo {
  i_size : Z;
  i_alignment : Z;
  i_alignment_offset : Z;
  i_logical_block_size : Z;
  i_partition_name : bytes;
}.

#[export] Instance geometry_eq_dec : EqDecision LpMetadataGeometry.
Proof. solve_decision. Defined.
#[export] Instance table_eq_dec : EqDecision LpMetadataTableDescriptor.
Proof. solve_decision. Defined.
#[export] Instance header_eq_dec : EqDecision LpMetadataHeader.
Proof. solve_decision. Defined.
#[export] Instance partition_eq_dec : EqDecision LpMetadataPartition.
Proof. solve_decision. Defined.
#[export] Instance extent_eq_dec : EqDecision LpMetadataExtent.
Proof. solve_decision. Defined.
#[export] Instance group_eq_dec : EqDecision LpMetadataPartitionGroup.
Proof. solve_decision. Defined.
#[export] Instance block_device_eq_dec : EqDecision LpMetadataBlockDevice.
Proof. solve_decision. Defined.
#[export] Instance metadata_eq_dec : EqDecision LpMetadata.
Proof. solve_decision. Defined.

(** ** Memory images *)

(** [liblp/include/liblp/metadata_format.h:116-144 LpMetadataGeometry layout] *)
Definition geometry_codec : codec LpMetadataGeometry :=
  c_struct (λ '(a, (b, (c, (d, (e, f))))), mkGeometry a b c d e f)
    (λ g, (g_magic g, (g_struct_size g, (g_checksum g, (metadata_max_size g,
          (metadata_slot_count g, logical_block_size g))))))
    (c_pair c_u32 (c_pair c_u32 (c_pair (c_bytes 32) (c_pair c_u32 (c_pair c_u32 c_u32))))).

(** [liblp/include/liblp/metadata_format.h:152-159 LpMetadataTableDescriptor layout] *)
Definition table_codec : codec LpMetadataTableDescriptor :=
  c_struct (λ '(a, (b, c)), mkTable a b c)
    (λ t, (t_offset t, (t_num_entries t, t_entry_size t)))
    (c_pair c_u32 (c_pair c_u32 c_u32)).

(** The members of a header of minor version 0 or 1, a prefix of the current one.
    [liblp/include/liblp/metadata_format.h:383-395 LpMetadataHeaderV1_0] *)
Definition header_v1_0_codec :=
  c_pair c_u32 (c_pair c_u16 (c_pair c_u16 (c_pair c_u32 (c_pair (c_bytes 32)
  (c_pair c_u32 (c_pair (c_bytes 32) (c_pair table_codec (c_pair table_codec
  (c_pair table_codec table_codec))))))))).

Definition header_of_tuple :=
  λ '((a, (b, (c, (d, (e, (f, (g, (h, (i, (j, k)))))))))), (l, m)),
    mkHeader a b c d e f g h i j k l m.
Definition header_tuple (h : LpMetadataHeader) :=
  ((h_magic h, (h_major_version h, (h_minor_version h, (header_size h,
   (header_checksum h, (tables_size h, (tables_checksum h, (h_partitions h,
   (h_extents h, (h_groups h, h_block_devices h)))))))))),
   (h_flags h, h_reserved h)).

(** [liblp/include/liblp/metadata_format.h:182-236 LpMetadataHeader layout] *)
Definition header_codec : codec LpMetadataHeader :=
  c_struct header_of_tuple header_tuple
    (c_pair header_v1_0_codec (c_pair c_u32 (c_bytes 124))).

(** [liblp/include/liblp/metadata_format.h:246-270 LpMetadataPartition layout] *)
Definition partition_codec : codec LpMetadataPartition :=
  c_struct (λ '(a, (b, (c, (d, e)))), mkPartition a b c d e)
    (λ p, (p_name p, (p_attributes p, (p_first_extent_index p, (p_num_extents p,
           p_group_index p)))))
    (c_pair (c_bytes 36) (c_pair c_u32 (c_pair c_u32 (c_pair c_u32 c_u32)))).

(** [liblp/include/liblp/metadata_format.h:281-301 LpMetadataExtent layout] *)
Definition extent_codec : codec LpMetadataExtent :=
  c_struct (λ '(a, (b, (c, d))), mkExtent a b c d)
    (λ e, (e_num_sectors e, (e_target_type e, (e_target_data e, e_target_source e))))
    (c_pair c_u64 (c_pair c_u32 (c_pair c_u64 c_u32))).

(** [liblp/include/liblp/metadata_format.h:308-317 LpMetadataPartitionGroup layout] *)
Definition group_codec : codec LpMetadataPartitionGroup :=
  c_struct (λ '(a, (b, c)), mkGroup a b c)
    (λ g, (gr_name g, (gr_flags g, gr_maximum_size g)))
    (c_pair (c_bytes 36) (c_pair c_u32 c_u64)).

(** [liblp/include/liblp/metadata_format.h:329-368 LpMetadataBlockDevice layout] *)
Definition block_device_codec : codec LpMetadataBlockDevice :=
  c_struct (λ '(a, (b, (c, (d, (e, f))))), mkBlockDevice a b c d e f)
    (λ b, (first_logical_sector b, (bd_alignment b, (bd_alignment_offset b, (bd_size b,
           (bd_partition_name b, bd_flags b))))))
    (c_pair c_u64 (c_pair c_u32 (c_pair c_u32 (c_pair c_u64 (c_pair (c_bytes 36) c_u32))))).

Ltac solve_struct_ok :=
  apply c_struct_ok; [apply _ | by intros [] | intros; by destruct_and?; repeat case_match].

#[export] Instance geometry_codec_ok : CodecOk geometry_codec.
Proof. solve_struct_ok. Qed.
#[export] Instance table_codec_ok : CodecOk table_codec.
Proof. solve_struct_ok. Qed.
#[export] Instance header_v1_0_codec_ok : CodecOk header_v1_0_codec.
Proof. unfold header_v1_0_codec. apply _. Qed.
#[export] Instance header_codec_ok : CodecOk header_codec.
Proof. apply c_struct_ok; [apply _|by intros []|]. by intros [(?&?&?&?&?&?&?&?&?&?&?) [??]]. Qed.
#[export] Instance partition_codec_ok : CodecOk partition_codec.
Proof. solve_struct_ok. Qed.
#[export] Instance extent_codec_ok : CodecOk extent_codec.
Proof. solve_struct_ok. Qed.
#[export] Instance group_codec_ok : CodecOk group_codec.
Proof. solve_struct_ok. Qed.
#[export] Instance block_device_codec_ok : CodecOk block_device_codec.
Proof. solve_struct_ok. Qed.

(** The sizes the code's [sizeof]s stand for. *)
Lemma sizeof_structs :
  sizeof geometry_codec = 52 ∧ sizeof header_v1_0_codec = 128 ∧
  sizeof header_codec = 256 ∧
  sizeof partition_codec = 52 ∧ sizeof extent_codec = 24 ∧
  sizeof group_codec = 48 ∧ sizeof block_device_codec = 64.
Proof. done. Qed.

(** A header is its version 1.0 prefix and the members of version 1.2. *)
Lemma header_dec_split v1_0 rest :
  length v1_0 = 128%nat →
  c_dec header_codec (v1_0 ++ rest) =
  header_of_tuple (c_dec header_v1_0_codec v1_0, (c_dec c_u32 rest, take 124 (drop 4 rest))).
Proof.
  intros Hlen. change (c_dec header_codec ?bs) with
    (header_of_tuple (c_dec header_v1_0_codec bs,
       (c_dec c_u32 (drop 128 bs), take 124 (drop 4 (drop 128 bs))))).
  rewrite drop_app_length' by done. do 2 f_equal.
  assert (v1_0 = c_enc header_v1_0_codec (c_dec header_v1_0_codec v1_0)) as E.
  { rewrite (enc_dec (c:=header_v1_0_codec)) by (simpl; lia). by rewrite take_ge by (simpl; lia). }
  rewrite E at 1. apply dec_enc, dec_wf. simpl. lia.
Qed.
Lemma header_enc_split h :
  c_enc header_codec h =
  c_enc header_v1_0_codec (header_tuple h).1 ++ c_enc c_u32 (h_flags h) ++ h_reserved h.
Proof. done. Qed.
