(* ===== verification/LpUtility.v ===== *)
(** * liblp helpers ([liblp/utility.h], [liblp/utility.cpp]) and names
    ([liblp/reader.cpp]'s fixed-array strings): alignment, the offsets of the
    geometry and metadata copies, slot suffixes, in-place snapshot renaming. *)
From S2P Require Import Prelude Bytes LpFormat.

(** ** Names in fixed arrays *)

(** [liblp/reader.cpp:481-489 NameFromFixedArray] *)
Definition NameFromFixedArray (name : bytes) : bytes :=
  if decide (list.last name = Some Byte.x00) then cstr name else name.
(** [liblp/reader.cpp:491-493 GetPartitionName] *)
Definition GetPartitionName (p : LpMetadataPartition) : bytes :=
  NameFromFixedArray (p_name p).
(** [liblp/reader.cpp:495-497 GetPartitionGroupName] *)
Definition GetPartitionGroupName (g : LpMetadataPartitionGroup) : bytes :=
  NameFromFixedArray (gr_name g).
(** [liblp/reader.cpp:499-501 GetBlockDevicePartitionName] *)
Definition GetBlockDevicePartitionName (b : LpMetadataBlockDevice) : bytes :=
  NameFromFixedArray (bd_partition_name b).

(** [liblp/utility.cpp:175-181 UpdateBlockDevicePartitionName] *)
Definition UpdateBlockDevicePartitionName (d : LpMetadataBlockDevice) (name : bytes)
    : outcome LpMetadataBlockDevice :=
  _ ← require (length name ≤ 36)%nat;
  Ret (mkBlockDevice (first_logical_sector d) (bd_alignment d) (bd_alignment_offset d)
         (bd_size d) (strncpy 36 name) (bd_flags d)).
(** [liblp/utility.cpp:183-189 UpdatePartitionGroupName] *)
Definition UpdatePartitionGroupName (g : LpMetadataPartitionGroup) (name : bytes)
    : outcome LpMetadataPartitionGroup :=
  _ ← require (length name ≤ 36)%nat;
  Ret (mkGroup (strncpy 36 name) (gr_flags g) (gr_maximum_size g)).
(** [liblp/utility.cpp:191-197 UpdatePartitionName] *)
Definition UpdatePartitionName (p : LpMetadataPartition) (name : bytes)
    : outcome LpMetadataPartition :=
  _ ← require (length name ≤ 36)%nat;
  Ret (mkPartition (strncpy 36 name) (p_attributes p) (p_first_extent_index p)
         (p_num_extents p) (p_group_index p)).

(** ** Alignment and offsets *)

(** [AlignTo<T>] for an unsigned [T] of [w] bits.
    [liblp/utility.h:72-90 AlignTo] *)
Definition AlignTo (w : Z) (base alignment : Z) : option Z :=
  if decide (alignment = 0) then Some base
  else
    let remainder := base mod alignment in
    if decide (remainder = 0) then Some base
    else
      let to_add := alignment - remainder in
      if decide (2 ^ w - 1 - base < to_add) then None else Some (base + to_add).

(** [liblp/utility.cpp:75-77 GetPrimaryGeometryOffset] *)
Definition GetPrimaryGeometryOffset : Z := LP_PARTITION_RESERVED_BYTES.
(** [liblp/utility.cpp:79-81 GetBackupGeometryOffset] *)
Definition GetBackupGeometryOffset : Z :=
  GetPrimaryGeometryOffset + LP_METADATA_GEOMETRY_SIZE.
(** The product and the sum are [uint32_t] arithmetic.
    [liblp/utility.cpp:83-88 GetPrimaryMetadataOffset] *)
Definition GetPrimaryMetadataOffset (g : LpMetadataGeometry) (slot_number : Z) : outcome Z :=
  _ ← CHECK (slot_number < metadata_slot_count g);
  Ret (u32 (LP_PARTITION_RESERVED_BYTES + LP_METADATA_GEOMETRY_SIZE * 2 +
            u32 (metadata_max_size g * slot_number))).
(** [start] is [int64_t] arithmetic, the slot's displacement [uint32_t].
    [liblp/utility.cpp:90-95 GetBackupMetadataOffset] *)
Definition GetBackupMetadataOffset (g : LpMetadataGeometry) (slot_number : Z) : outcome Z :=
  _ ← CHECK (slot_number < metadata_slot_count g);
  let start := i64 (LP_PARTITION_RESERVED_BYTES + LP_METADATA_GEOMETRY_SIZE * 2 +
                    i64 (metadata_max_size g * metadata_slot_count g)) in
  Ret (i64 (start + u32 (metadata_max_size g * slot_number))).
(** [uint32_t] arithmetic throughout, widened on return.
    [liblp/utility.cpp:97-100 GetTotalMetadataSize] *)
Definition GetTotalMetadataSize (max_size max_slots : Z) : Z :=
  u32 (LP_PARTITION_RESERVED_BYTES +
       u32 (u32 (LP_METADATA_GEOMETRY_SIZE + u32 (max_size * max_slots)) * 2)).

(** ** Queries on metadata *)

(** [liblp/utility.cpp:102-107 GetMetadataSuperBlockDevice] *)
Definition GetMetadataSuperBlockDevice (m : LpMetadata) : option LpMetadataBlockDevice :=
  m_block_devices m !! 0%nat.
(** [liblp/utility.cpp:128-134 GetTotalSuperPartitionSize] *)
Definition GetTotalSuperPartitionSize (m : LpMetadata) : Z :=
  foldl (λ size b, u64 (size + bd_size b)) 0 (m_block_devices m).
(** [liblp/utility.cpp:136-142 GetBlockDevicePartitionNames] *)
Definition GetBlockDevicePartitionNames (m : LpMetadata) : list bytes :=
  GetBlockDevicePartitionName <$> m_block_devices m.
(** [liblp/utility.cpp:144-151 FindPartition] *)
Definition FindLpPartition (m : LpMetadata) (name : bytes) : option LpMetadataPartition :=
  snd <$> list_find (λ p, GetPartitionName p = name) (m_partitions m).

(** The loop of [GetPartitionSize]: extents [first + i] for [n] values of [i]. *)
Fixpoint sum_extents (es : list LpMetadataExtent) (first i : Z) (n : nat) (total : Z)
    : outcome Z :=
  match n with
  | O => Ret total
  | S n =>
      e ← access (es !! Z.to_nat (u32 (first + i)));
      sum_extents es first (i + 1) n
        (u64 (total + u64 (e_num_sectors e * LP_SECTOR_SIZE)))
  end.
(** [liblp/utility.cpp:153-160 GetPartitionSize] *)
Definition GetPartitionSize (m : LpMetadata) (p : LpMetadataPartition) : outcome Z :=
  sum_extents (m_extents m) (p_first_extent_index p) 0 (Z.to_nat (p_num_extents p)) 0.

(** ** Slot suffixes *)

(** [liblp/utility.cpp:116-126 SlotNumberForSlotSuffix] *)
Definition SlotNumberForSlotSuffix (suffix : bytes) : Z :=
  if decide (suffix = [] ∨ suffix = str "a" ∨ suffix = str "_a") then 0
  else if decide (suffix = str "b" ∨ suffix = str "_b") then 1
  else 0.
(** [liblp/utility.cpp:162-168 GetPartitionSlotSuffix] *)
Definition GetPartitionSlotSuffix (partition_name : bytes) : bytes :=
  if decide (length partition_name ≤ 2)%nat then []
  else
    let suffix := drop (length partition_name - 2) partition_name in
    if decide (suffix = str "_a" ∨ suffix = str "_b") then suffix else [].
(** [liblp/utility.cpp:170-173 SlotSuffixForSlotNumber] *)
Definition SlotSuffixForSlotNumber (slot_number : Z) : outcome bytes :=
  _ ← CHECK (slot_number = 0 ∨ slot_number = 1);
  Ret (if decide (slot_number = 0) then str "_a" else str "_b").

(** ** Rewriting metadata for another slot *)

(** [name] with its [suffix] replaced by [target]. *)
Definition replace_suffix (name suffix target : bytes) : bytes :=
  take (length name - length suffix) name ++ target.

(** The first loop: renames the groups in place and collects the indices of
    those that stay ([new_group_ptrs], the groups being at fixed addresses).
    [liblp/utility.cpp:231-247 UpdateMetadataForInPlaceSnapshot, groups] *)
Fixpoint snapshot_groups (source target : bytes) (i : nat) (gs : list LpMetadataPartitionGroup)
    : outcome (list LpMetadataPartitionGroup * list nat) :=
  match gs with
  | [] => Ret ([], [])
  | g :: gs =>
      let group_name := GetPartitionGroupName g in
      let slot_suffix := GetPartitionSlotSuffix group_name in
      if decide (slot_suffix = target) then
        '(gs', ptrs) ← snapshot_groups source target (S i) gs;
        Ret (g :: gs', ptrs)
      else
        g' ← (if decide (slot_suffix = source)
              then UpdatePartitionGroupName g (replace_suffix group_name slot_suffix target)
              else Ret g);
        '(gs', ptrs) ← snapshot_groups source target (S i) gs;
        Ret (g' :: gs', i :: ptrs)
  end.

(** The second loop: the partitions that stay, renamed, flagged as updated and
    with the position of their group in [ptrs].
    [liblp/utility.cpp:249-277 UpdateMetadataForInPlaceSnapshot, partitions] *)
Fixpoint snapshot_partitions (source target : bytes) (n_groups : nat) (ptrs : list nat)
    (ps : list LpMetadataPartition) : outcome (list LpMetadataPartition) :=
  match ps with
  | [] => Ret []
  | p :: ps =>
      let partition_name := GetPartitionName p in
      let slot_suffix := GetPartitionSlotSuffix partition_name in
      if decide (slot_suffix = target) then snapshot_partitions source target n_groups ptrs ps
      else
        p' ← (if decide (slot_suffix = source)
              then UpdatePartitionName p (replace_suffix partition_name slot_suffix target)
              else Ret p);
        _ ← CHECK (Z.to_nat (p_group_index p) < n_groups)%nat;
        match list_find (λ i, i = Z.to_nat (p_group_index p)) ptrs with
        | None => snapshot_partitions source target n_groups ptrs ps
        | Some (it, _) =>
            ps' ← snapshot_partitions source target n_groups ptrs ps;
            Ret (mkPartition (p_name p') (Z.lor (p_attributes p') LP_PARTITION_ATTR_UPDATED)
                   (p_first_extent_index p') (p_num_extents p') (Z.of_nat it) :: ps')
        end
  end.

(** [liblp/utility.cpp:224-288 UpdateMetadataForInPlaceSnapshot] *)
Definition UpdateMetadataForInPlaceSnapshot (m : LpMetadata)
    (source_slot_number target_slot_number : Z) : outcome LpMetadata :=
  source_slot_suffix ← SlotSuffixForSlotNumber source_slot_number;
  target_slot_suffix ← SlotSuffixForSlotNumber target_slot_number;
  '(groups, new_group_ptrs) ←
    snapshot_groups source_slot_suffix target_slot_suffix 0 (m_groups m);
  new_partitions ←
    snapshot_partitions source_slot_suffix target_slot_suffix (length groups) new_group_ptrs
      (m_partitions m);
  Ret (mkMetadata (m_geometry m) (m_header m) new_partitions (m_extents m)
         (omap (λ i, groups !! i) new_group_ptrs) (m_block_devices m)).

(** [liblp/utility.cpp:294-325 SetMetadataHeaderV0] *)
Definition SetMetadataHeaderV0 (m : LpMetadata) : LpMetadata :=
  let h := m_header m in
  if decide (h_minor_version h ≤ LP_METADATA_MINOR_VERSION_MIN) then m
  else
    let h' := mkHeader (h_magic h) (h_major_version h) LP_METADATA_MINOR_VERSION_MIN
                (sizeof header_v1_0_codec) (header_checksum h) (tables_size h)
                (tables_checksum h) (h_partitions h) (h_extents h) (h_groups h)
                (h_block_devices h) 0 (zeroes 124) in
    mkMetadata (m_geometry m) h'
      ((λ p, mkPartition (p_name p) (Z.land (p_attributes p) LP_PARTITION_ATTRIBUTE_MASK_V0)
               (p_first_extent_index p) (p_num_extents p) (p_group_index p)) <$> m_partitions m)
      (m_extents m) (m_groups m) (m_block_devices m).

(** ** Names: what is stored is what is read back *)

Lemma name_roundtrip n s :
  no_nul s → (length s ≤ n)%nat → NameFromFixedArray (strncpy n s) = s.
Proof.
  intros Hs Hn. unfold NameFromFixedArray, strncpy. rewrite cstr_id by done.
  rewrite (take_ge s) by lia. destruct (decide (length s = n)) as [E|E].
  - rewrite E, Nat.sub_diag. simpl. rewrite app_nil_r. rewrite decide_False; [done|].
    intros [k ->]%last_Some. apply Hs. set_solver.
  - rewrite last_take_zeroes, decide_True by (done || lia).
    destruct (n - length s)%nat as [|k] eqn:Ek; [lia|]. by apply cstr_app_zeroes.
Qed.
Lemma length_NameFromFixedArray b : (length (NameFromFixedArray b) ≤ length b)%nat.
Proof. unfold NameFromFixedArray. case_decide; [apply length_cstr_le|lia]. Qed.

(** ** Alignment *)

Lemma AlignTo_0 w base : AlignTo w base 0 = Some base.
Proof. unfold AlignTo. by rewrite decide_True. Qed.

Lemma AlignTo_Some w base al r :
  0 ≤ al → AlignTo w base al = Some r → 0 ≤ base < 2 ^ w →
  base ≤ r < 2 ^ w ∧ (al = 0 → r = base) ∧ (al ≠ 0 → (al | r) ∧ r < base + al).
Proof.
  unfold AlignTo. intros Hal. case_decide as H0; [intros [= ->] ?; split_and!; [lia..|intros; exfalso; lia]|].
  pose proof (Z.mod_pos_bound base al ltac:(lia)) as Hm.
  pose proof (Z.div_mod base al ltac:(lia)) as Hd.
  case_decide as Hr; [|case_decide as Ho]; intros [= <-] Hb.
  - split_and!; [lia..|]. intros _. split; [|lia]. by apply Z.mod_divide.
  - split_and!; [lia..|]. intros _. split; [|lia].
    exists (base / al + 1). rewrite Z.mul_add_distr_r. lia.
Qed.
Lemma AlignTo_None w base al :
  0 ≤ al → AlignTo w base al = None → 0 ≤ base < 2 ^ w →
  al ≠ 0 ∧ ∀ r, base ≤ r → (al | r) → 2 ^ w ≤ r.
Proof.
  unfold AlignTo. intros Hal. case_decide as H0; [done|].
  pose proof (Z.mod_pos_bound base al ltac:(lia)) as Hm.
  pose proof (Z.div_mod base al ltac:(lia)) as Hd.
  case_decide as Hr; [done|]. case_decide as Ho; [|done]. intros _ Hb.
  split; [done|]. intros r Hr1 [k ->].
  assert (base / al < k); [|nia]. apply Z.nle_gt. intros Hk. nia.
Qed.
(** A multiple of the alignment is left alone. *)
Lemma AlignTo_aligned w base al : (al | base) → AlignTo w base al = Some base.
Proof.
  intros Hd. unfold AlignTo. case_decide; [done|]. rewrite decide_True; [done|].
  by apply Z.mod_divide.
Qed.
(** The result never passes an aligned bound. *)
Lemma AlignTo_le w base al r bound :
  0 ≤ al → AlignTo w base al = Some r → 0 ≤ base < 2 ^ w → base ≤ bound → (al | bound) →
  r ≤ bound.
Proof.
  intros Hal Hr Hb Hle Hdiv. destruct (AlignTo_Some _ _ _ _ Hal Hr Hb) as (H1 & H2 & H3).
  destruct (decide (al = 0)) as [->|Hne]; [rewrite H2; lia|].
  destruct (H3 Hne) as [[k ->] Hlt]. destruct Hdiv as [j ->].
  assert (k ≤ j); [|nia]. apply Z.nlt_ge. intros Hkj. nia.
Qed.
