(* ===== verification/Device.v ===== *)
(** * Devices and files: the interfaces to the operating system

    liblp reaches a device through [lseek], [android::base::ReadFully] and
    [android::base::WriteFully] on a descriptor.  [BlockIO] names these three
    calls, [BlockIOLaws] states what they do to the contents and the position,
    [BlockIOLive] when reads are sure to succeed.  [MemDisk] is a device that
    can lose power in the middle of a write.  Programs over a device are written
    in [IO D], where the device outlives the failure of a call.  [Posix] and [Gz]
    are the calls of libsparse on files. *)
From S2P Require Import Prelude Bytes.

(** ** A state-and-error monad *)

Definition IO (S A : Type) : Type := S → outcome A * S.

#[export] Instance io_mret {S} : MRet (IO S) := λ A a s, (Ret a, s).
#[export] Instance io_mbind {S} : MBind (IO S) := λ A B f m s,
  match m s with
  | (Ret a, s') => f a s'
  | (Reject, s') => (Reject, s')
  | (Crash, s') => (Crash, s')
  end.

(** A pure computation. *)
Definition lift {S A} (m : outcome A) : IO S A := λ s, (m, s).
(** The caller looks at whether the call failed. *)
Definition try_ {S A} (m : IO S A) : IO S (option A) := λ s,
  match m s with
  | (Ret a, s') => (Ret (Some a), s')
  | (Reject, s') => (Ret None, s')
  | (Crash, s') => (Crash, s')
  end.

Lemma io_bind_Ret {S A B} (m : IO S A) (f : A → IO S B) s b s' :
  (m ≫= f) s = (Ret b, s') ↔ ∃ a s1, m s = (Ret a, s1) ∧ f a s1 = (Ret b, s').
Proof.
  unfold mbind, io_mbind. split.
  - destruct (m s) as [[a| |] s1]; intros H; [eauto|discriminate..].
  - by intros (a & s1 & -> & H).
Qed.
Lemma lift_Ret {S A} (m : outcome A) (s : S) a s' :
  lift m s = (Ret a, s') ↔ m = Ret a ∧ s' = s.
Proof. unfold lift. split; [by intros [= -> ->]|by intros [-> ->]]. Qed.

Lemma io_bind_eq {S A B} (m : IO S A) (f : A → IO S B) s a s1 :
  m s = (Ret a, s1) → (m ≫= f) s = f a s1.
Proof. unfold mbind, io_mbind. by intros ->. Qed.
Lemma io_require {S B} P `{Decision P} (f : unit → IO S B) s :
  P → (lift (require P) ≫= f) s = f () s.
Proof. intros. apply io_bind_eq. unfold lift. by rewrite require_True. Qed.

(** ** Contents *)

(** The [len] bytes of [c] at [off]. *)
Definition sub (c : bytes) (off len : Z) : bytes :=
  take (Z.to_nat len) (drop (Z.to_nat off) c).
(** [c] after [bs] is stored at [off]. *)
Definition overwrite (c : bytes) (off : Z) (bs : bytes) : bytes :=
  take (Z.to_nat off) c ++ bs ++ drop (Z.to_nat off + length bs) c.

Lemma length_sub c off len :
  0 ≤ off → 0 ≤ len → off + len ≤ zlen c → zlen (sub c off len) = len.
Proof. unfold zlen, sub. intros. rewrite length_take, length_drop. lia. Qed.
Lemma length_overwrite c off bs :
  0 ≤ off → off + zlen bs ≤ zlen c → zlen (overwrite c off bs) = zlen c.
Proof.
  unfold zlen, overwrite. intros. rewrite !length_app, length_take, length_drop. lia.
Qed.
Lemma sub_overwrite_same c off bs :
  0 ≤ off → off + zlen bs ≤ zlen c → sub (overwrite c off bs) off (zlen bs) = bs.
Proof.
  unfold zlen, sub, overwrite. intros.
  rewrite drop_app_length' by (rewrite length_take; lia).
  rewrite Nat2Z.id. by rewrite take_app_length.
Qed.
(** Bytes before or after the stored range are unchanged. *)
Lemma sub_overwrite_other c off bs o len :
  0 ≤ off → off + zlen bs ≤ zlen c → 0 ≤ o → 0 ≤ len →
  o + len ≤ off ∨ off + zlen bs ≤ o →
  sub (overwrite c off bs) o len = sub c o len.
Proof.
  unfold zlen, sub, overwrite. intros Hoff Hbs Ho Hlen [Hd|Hd].
  - apply list_eq. intros i. rewrite !lookup_take. case_decide; [|done].
    rewrite !lookup_drop. rewrite lookup_app_l by (rewrite length_take; lia).
    apply lookup_take_lt. lia.
  - f_equal. rewrite (assoc_L (++)), drop_app_ge by (rewrite length_app, length_take; lia).
    rewrite length_app, length_take, drop_drop. f_equal. lia.
Qed.

(** ** The interface *)

Class BlockIO (D : Type) := {
  (** [lseek(fd, off, SEEK_SET)]; [Reject] is a negative result. *)
  dev_seek : Z → IO D unit;
  (** [ReadFully(fd, buf, len)]: the bytes read. *)
  dev_read : Z → IO D bytes;
  (** [WriteFully(fd, data, len)]; [Reject] leaves a partial write. *)
  dev_write : bytes → IO D unit;
}.

(** A call that stores [bs] at the current position, or part of it if it fails. *)
Definition writes {D} (contents : D → bytes) (pos : D → Z) (w : bytes → IO D unit) : Prop :=
  ∀ bs d r d', w bs d = (r, d') → 0 ≤ pos d →
    r ≠ Crash ∧
    ∃ stored, zlen stored ≤ zlen bs ∧
      (stored ≠ [] → pos d + zlen stored ≤ zlen (contents d)) ∧
      contents d' = overwrite (contents d) (pos d) stored ∧
      (r = Ret () → stored = bs).

Class BlockIOLaws (D : Type) `{!BlockIO D} := {
  contents : D → bytes;
  position : D → Z;
  seek_law off d r d' : dev_seek off d = (r, d') →
    contents d' = contents d ∧ r ≠ Crash ∧ (r = Ret () → position d' = off);
  read_law len d r d' : dev_read len d = (r, d') → 0 ≤ position d → 0 ≤ len →
    contents d' = contents d ∧ r ≠ Crash ∧
    (∀ bs, r = Ret bs → bs = sub (contents d) (position d) len ∧ zlen bs = len ∧
       position d' = position d + len);
  write_law : writes contents position dev_write;
}.

Class BlockIOLive (D : Type) `{BlockIOLaws D} : Prop := {
  seek_live off d : 0 ≤ off ≤ zlen (contents d) → ∃ d', dev_seek off d = (Ret (), d');
  read_live len d : 0 ≤ position d → 0 ≤ len → position d + len ≤ zlen (contents d) →
    ∃ bs d', dev_read len d = (Ret bs, d');
}.

(** ** A device in memory that stops accepting bytes after a budget *)

Record MemDisk := mkDisk {
  disk_bytes : bytes;
  disk_pos : Z;
  disk_budget : nat;
}.

#[export] Instance memdisk_io : BlockIO MemDisk := {|
  dev_seek off d :=
    if decide (0 ≤ off) then (Ret (), mkDisk (disk_bytes d) off (disk_budget d))
    else (Reject, d);
  dev_read len d :=
    if decide (disk_pos d + len ≤ zlen (disk_bytes d))
    then (Ret (sub (disk_bytes d) (disk_pos d) len),
          mkDisk (disk_bytes d) (disk_pos d + len) (disk_budget d))
    else (Reject, d);
  dev_write bs d :=
    if decide (disk_pos d + zlen bs ≤ zlen (disk_bytes d)) then
      let stored := take (disk_budget d) bs in
      let d' := mkDisk (overwrite (disk_bytes d) (disk_pos d) stored)
                  (disk_pos d + zlen stored) (disk_budget d - length bs) in
      (if decide (length bs ≤ disk_budget d)%nat then Ret () else Reject, d')
    else (Reject, d)
|}.

#[export] Program Instance memdisk_laws : BlockIOLaws MemDisk := {|
  contents := disk_bytes;
  position := disk_pos;
|}.
Next Obligation.
  simpl. intros off d r d' E. case_decide; simplify_eq/=; naive_solver.
Qed.
Next Obligation.
  simpl. intros len d r d' E ??. case_decide; simplify_eq/=; [|naive_solver].
  split_and!; [done..|]. intros bs [= <-]. split_and!; [done| |done].
  apply length_sub; lia.
Qed.
Next Obligation.
  intros bs d r d' E Hp. simpl in *. case_decide as Hfit; simplify_eq/=.
  - split; [by case_decide|]. exists (take (disk_budget d) bs).
    assert (zlen (take (disk_budget d) bs) ≤ zlen bs).
    { unfold zlen. rewrite length_take. lia. }
    split_and!; [done|intros; lia|done|]. case_decide; [|done]. intros _.
    by apply take_ge.
  - split; [done|]. exists []. split_and!; [unfold zlen; simpl; lia|done| |done].
    unfold overwrite. simpl. by rewrite Nat.add_0_r, take_drop.
Qed.
#[export] Instance memdisk_live : BlockIOLive MemDisk.
Proof.
  split; simpl; intros.
  - rewrite decide_True by lia. eauto.
  - rewrite decide_True by done. eauto.
Qed.

(** Expose every step of an [IO] computation that is known to return. *)
Ltac inv_io_step :=
  match goal with
  | H : (_ ≫= _) _ = (Ret _, _) |- _ =>
      let a := fresh "r" in let s := fresh "s" in let E := fresh "E" in
      apply io_bind_Ret in H; destruct H as (a & s & E & H)
  | H : lift _ _ = (Ret _, _) |- _ => apply lift_Ret in H; destruct H as [H ->]
  | H : mret _ _ = (Ret _, _) |- _ => apply (lift_Ret (Ret _)) in H; destruct H as [H ->]
  end.
Ltac inv_io := repeat (first [inv_io_step | inv_ret_step]).

(** ** File descriptors: the interface between libsparse and the operating system

    libsparse calls [read], [write], [lseek64], [ftruncate64] and zlib
    directly; [Posix] and [Gz] name these calls.  [MemFile] is a file in memory
    with POSIX behaviour: a write past the end fills the gap with zeroes. *)

Inductive write_result := Wrote (n : nat) | WriteInterrupted | WriteFailed.
Inductive seek_result := Sought (off : Z) | SeekNoData | SeekFailed.
Inductive whence := SEEK_SET | SEEK_CUR | SEEK_END | SEEK_DATA | SEEK_HOLE.

Class Posix (D : Type) := {
  (** [read]: at most that many bytes, none at the end; [Reject] is an error. *)
  sys_read : Z → IO D bytes;
  (** [write]: how many bytes were stored. *)
  sys_write : bytes → IO D write_result;
  (** [lseek64]; [SeekNoData] is [ENXIO]. *)
  sys_lseek : Z → whence → IO D seek_result;
  (** [ftruncate64]. *)
  sys_ftruncate : Z → IO D unit;
}.

(** zlib's [gzFile]: [gzwrite] gives the number of bytes taken, 0 on error. *)
Class Gz (D : Type) := {
  gzwrite : bytes → IO D nat;
  gzseek : Z → whence → IO D seek_result;
  gztell : IO D seek_result;
}.

(** ** A file in memory *)

Record MemFile := mkFile {
  mf_bytes : bytes;
  mf_pos : Z;
}.
(** [c] grown with zeroes to [n] bytes at least. *)
Definition zero_extend (c : bytes) (n : Z) : bytes := c ++ zeroes (Z.to_nat n - length c).
Definition file_store (c : bytes) (off : Z) (bs : bytes) : bytes :=
  overwrite (zero_extend c (off + zlen bs)) off bs.

#[export] Instance memfile_posix : Posix MemFile := {|
  sys_read n f :=
    let bs := sub (mf_bytes f) (mf_pos f) n in
    (Ret bs, mkFile (mf_bytes f) (mf_pos f + zlen bs));
  sys_write bs f :=
    (Ret (Wrote (length bs)),
     mkFile (file_store (mf_bytes f) (mf_pos f) bs) (mf_pos f + zlen bs));
  sys_lseek off w f :=
    let to := match w with
              | SEEK_SET | SEEK_DATA => off
              | SEEK_CUR => mf_pos f + off
              | SEEK_END => zlen (mf_bytes f) + off
              | SEEK_HOLE => zlen (mf_bytes f)
              end in
    let no_data := match w with SEEK_DATA => bool_decide (zlen (mf_bytes f) ≤ off) | _ => false end in
    if decide (to < 0) then (Ret SeekFailed, f)
    else if no_data then (Ret SeekNoData, f)
    else (Ret (Sought to), mkFile (mf_bytes f) to);
  sys_ftruncate n f :=
    if decide (n < 0) then (Reject, f)
    else (Ret (), mkFile (take (Z.to_nat n) (zero_extend (mf_bytes f) n)) (mf_pos f));
|}.
