(* ===== verification/LpReader.v ===== *)
(** * Reading partition tables ([liblp/reader.cpp])

    Parsing and validation of the geometry and of a metadata blob, from memory
    or from a device, and [ReadMetadata] with its backup copies.  SHA-256
    (OpenSSL) and the outcome of a large [new (std::nothrow)] are parameters. *)
From S2P Require Import Prelude Bytes LpFormat LpUtility Device.

(** [Reader::ReadFully], implemented by memory buffers and file descriptors.
    [liblp/reader.cpp:38-42 Reader] *)
Class Reader (R : Type) := ReadFully : Z → IO R bytes.

(** [liblp/reader.cpp:44-53 FileReader] *)
#[export] Instance FileReader {D} `{!BlockIO D} : Reader D := dev_read.

(** [liblp/reader.cpp:69-72 MemoryReader] *)
Record MemoryReader := mkMemoryReader {
  mr_buffer : bytes;
  mr_pos : Z;
}.
(** [liblp/reader.cpp:59-67 MemoryReader::ReadFully] *)
Definition MemoryReader_ReadFully (length : Z) : IO MemoryReader bytes := λ r,
  if decide (u64 (zlen (mr_buffer r) - mr_pos r) < length) then (Reject, r)
  else (slice (mr_buffer r) (mr_pos r) length,
        mkMemoryReader (mr_buffer r) (u64 (mr_pos r + length))).
#[export] Instance memory_reader : Reader MemoryReader := MemoryReader_ReadFully.

(** A name is replaced by itself and the suffix, and the flag cleared.  The
    three loops of [AdjustMetadataForSlot].
    [liblp/reader.cpp:400-411 AdjustMetadataForSlot, partitions] *)
Definition adjust_partition (slot_suffix : bytes) (p : LpMetadataPartition)
    : outcome LpMetadataPartition :=
  if decide (Z.land (p_attributes p) LP_PARTITION_ATTR_SLOT_SUFFIXED = 0) then Ret p
  else
    let partition_name := GetPartitionName p ++ slot_suffix in
    _ ← require (length partition_name ≤ 36)%nat;
    Ret (mkPartition (strncpy 36 partition_name)
           (Z.land (p_attributes p) (Z.lnot LP_PARTITION_ATTR_SLOT_SUFFIXED))
           (p_first_extent_index p) (p_num_extents p) (p_group_index p)).
(** [liblp/reader.cpp:412-422 AdjustMetadataForSlot, block devices] *)
Definition adjust_block_device (slot_suffix : bytes) (b : LpMetadataBlockDevice)
    : outcome LpMetadataBlockDevice :=
  if decide (Z.land (bd_flags b) LP_BLOCK_DEVICE_SLOT_SUFFIXED = 0) then Ret b
  else
    b ← UpdateBlockDevicePartitionName b (GetBlockDevicePartitionName b ++ slot_suffix);
    Ret (mkBlockDevice (first_logical_sector b) (bd_alignment b) (bd_alignment_offset b)
           (bd_size b) (bd_partition_name b)
           (Z.land (bd_flags b) (Z.lnot LP_BLOCK_DEVICE_SLOT_SUFFIXED))).
(** [liblp/reader.cpp:423-433 AdjustMetadataForSlot, groups] *)
Definition adjust_group (slot_suffix : bytes) (g : LpMetadataPartitionGroup)
    : outcome LpMetadataPartitionGroup :=
  if decide (Z.land (gr_flags g) LP_GROUP_SLOT_SUFFIXED = 0) then Ret g
  else
    g ← UpdatePartitionGroupName g (GetPartitionGroupName g ++ slot_suffix);
    Ret (mkGroup (gr_name g) (Z.land (gr_flags g) (Z.lnot LP_GROUP_SLOT_SUFFIXED))
           (gr_maximum_size g)).
(** [liblp/reader.cpp:398-435 AdjustMetadataForSlot] *)
Definition AdjustMetadataForSlot (m : LpMetadata) (slot_number : Z) : outcome LpMetadata :=
  slot_suffix ← SlotSuffixForSlotNumber slot_number;
  partitions ← mapM (adjust_partition slot_suffix) (m_partitions m);
  block_devices ← mapM (adjust_block_device slot_suffix) (m_block_devices m);
  groups ← mapM (adjust_group slot_suffix) (m_groups m);
  Ret (mkMetadata (m_geometry m) (m_header m) partitions (m_extents m) groups block_devices).

(** ** Validation of a parsed header and of table entries *)

(** [liblp/reader.cpp:155-165 ValidateTableBounds] *)
Definition ValidateTableBounds (h : LpMetadataHeader) (t : LpMetadataTableDescriptor) : bool :=
  if decide (tables_size h < t_offset t) then false
  else
    let table_size := u64 (t_num_entries t * t_entry_size t) in
    if decide (u32 (tables_size h - t_offset t) < table_size) then false else true.

(** [liblp/reader.cpp:283-286 ParseMetadata, valid_attributes] *)
Definition valid_attributes (h : LpMetadataHeader) : Z :=
  if decide (LP_METADATA_VERSION_FOR_UPDATED_ATTR ≤ h_minor_version h)
  then Z.lor LP_PARTITION_ATTRIBUTE_MASK_V0 LP_PARTITION_ATTRIBUTE_MASK_V1
  else LP_PARTITION_ATTRIBUTE_MASK_V0.

(** [liblp/reader.cpp:296-311 ParseMetadata, partition checks] *)
Definition partition_valid (h : LpMetadataHeader) (p : LpMetadataPartition) : bool :=
  bool_decide (Z.land (p_attributes p) (Z.lnot (valid_attributes h)) = 0) &&
  bool_decide (¬ u32 (p_first_extent_index p + p_num_extents p) < p_first_extent_index p) &&
  bool_decide (u32 (p_first_extent_index p + p_num_extents p) ≤ t_num_entries (h_extents h)) &&
  bool_decide (p_group_index p < t_num_entries (h_groups h)).

(** [liblp/reader.cpp:322-326 ParseMetadata, extent check] *)
Definition extent_valid (h : LpMetadataHeader) (e : LpMetadataExtent) : bool :=
  negb (bool_decide (e_target_type e = LP_TARGET_TYPE_LINEAR) &&
        bool_decide (t_num_entries (h_block_devices h) ≤ e_target_source e)).

(** One of the four table loops: [n] entries of [entry_size] bytes from
    [cursor], each copied out, checked and appended.
    [liblp/reader.cpp:290-314 ParseMetadata, table loop] *)
Fixpoint parse_entries {A} (c : codec A) (valid : A → bool) (buffer : bytes)
    (cursor entry_size : Z) (n : nat) : outcome (list A) :=
  match n with
  | O => Ret []
  | S n =>
      raw ← slice buffer cursor (sizeof c);
      let a := c_dec c raw in
      _ ← require (valid a = true);
      l ← parse_entries c valid buffer (cursor + entry_size) entry_size n;
      Ret (a :: l)
  end.

Definition no_check {A} (_ : A) : bool := true.

Section Reading.
Context (sha256 : bytes → bytes) (nothrow_new : Z → bool).

(** ** Geometry *)

Definition geometry_set_checksum (g : LpMetadataGeometry) (sum : bytes) : LpMetadataGeometry :=
  mkGeometry (g_magic g) (g_struct_size g) sum (metadata_max_size g) (metadata_slot_count g)
    (logical_block_size g).

(** [liblp/reader.cpp:75-116 ParseGeometry] *)
Definition ParseGeometry (buffer : bytes) : outcome LpMetadataGeometry :=
  raw ← slice buffer 0 (sizeof geometry_codec);
  let geometry := c_dec geometry_codec raw in
  _ ← require (g_magic geometry = LP_METADATA_GEOMETRY_MAGIC);
  _ ← require (g_struct_size geometry ≤ sizeof geometry_codec);
  let temp := geometry_set_checksum geometry (zeroes 32) in
  _ ← require (sha256 (sub (c_enc geometry_codec temp) 0 (g_struct_size temp)) =
               g_checksum geometry);
  _ ← require (g_struct_size geometry = sizeof geometry_codec);
  _ ← require (metadata_slot_count geometry ≠ 0);
  _ ← require (metadata_max_size geometry mod LP_SECTOR_SIZE = 0);
  Ret geometry.

(** ** Metadata *)

Definition header_set_checksum (h : LpMetadataHeader) (sum : bytes) : LpMetadataHeader :=
  mkHeader (h_magic h) (h_major_version h) (h_minor_version h) (header_size h) sum
    (tables_size h) (tables_checksum h) (h_partitions h) (h_extents h) (h_groups h)
    (h_block_devices h) (h_flags h) (h_reserved h).

(** The size a header of this version has.
    [liblp/reader.cpp:189-192 ReadMetadataHeader, expected_struct_size] *)
Definition expected_struct_size (h : LpMetadataHeader) : Z :=
  if decide (h_minor_version h < LP_METADATA_VERSION_FOR_EXPANDED_HEADER)
  then sizeof header_v1_0_codec else sizeof header_codec.

(** [liblp/reader.cpp:167-242 ReadMetadataHeader] *)
Definition ReadMetadataHeader {R} `{!Reader R} : IO R LpMetadataHeader :=
  v1_0 ← ReadFully (sizeof header_v1_0_codec);
  (* The struct was zeroed: later members read as 0 for now. *)
  let header := c_dec header_codec
                  (v1_0 ++ zeroes (c_size header_codec - c_size header_v1_0_codec)) in
  _ ← lift (require (h_magic header = LP_METADATA_HEADER_MAGIC));
  _ ← lift (require (h_major_version header = LP_METADATA_MAJOR_VERSION));
  _ ← lift (require (h_minor_version header ≤ LP_METADATA_MINOR_VERSION_MAX));
  _ ← lift (require (header_size header = expected_struct_size header));
  let remaining_bytes := header_size header - sizeof header_v1_0_codec in
  rest ← (if decide (remaining_bytes = 0)
          then mret (zeroes (c_size header_codec - c_size header_v1_0_codec))
          else ReadFully remaining_bytes);
  let header := c_dec header_codec (v1_0 ++ rest) in
  let temp := header_set_checksum header (zeroes 32) in
  _ ← lift (require (sha256 (sub (c_enc header_codec temp) 0 (header_size temp)) =
                     header_checksum header));
  _ ← lift (require (ValidateTableBounds header (h_partitions header) = true ∧
                     ValidateTableBounds header (h_extents header) = true ∧
                     ValidateTableBounds header (h_groups header) = true ∧
                     ValidateTableBounds header (h_block_devices header) = true));
  _ ← lift (require (t_entry_size (h_partitions header) = sizeof partition_codec));
  _ ← lift (require (t_entry_size (h_extents header) = sizeof extent_codec));
  _ ← lift (require (t_entry_size (h_groups header) = sizeof group_codec));
  mret header.

(** The part of [ParseMetadata] that works on the tables in memory.
    [liblp/reader.cpp:276-362 ParseMetadata, tables] *)
Definition parse_tables (geometry : LpMetadataGeometry) (header : LpMetadataHeader)
    (buffer : bytes) : outcome LpMetadata :=
  _ ← require (sha256 buffer = tables_checksum header);
  let table {A} (c : codec A) valid (t : LpMetadataTableDescriptor) :=
    parse_entries c valid buffer (t_offset t) (t_entry_size t) (Z.to_nat (t_num_entries t)) in
  partitions ← table partition_codec (partition_valid header) (h_partitions header);
  extents ← table extent_codec (extent_valid header) (h_extents header);
  groups ← table group_codec no_check (h_groups header);
  block_devices ← table block_device_codec no_check (h_block_devices header);
  let metadata := mkMetadata geometry header partitions extents groups block_devices in
  super_device ← found (GetMetadataSuperBlockDevice metadata);
  let metadata_region :=
    GetTotalMetadataSize (metadata_max_size geometry) (metadata_slot_count geometry) in
  _ ← require (metadata_region ≤ u64 (first_logical_sector super_device * LP_SECTOR_SIZE));
  Ret metadata.

(** [liblp/reader.cpp:246-363 ParseMetadata] *)
Definition ParseMetadata {R} `{!Reader R} (geometry : LpMetadataGeometry) : IO R LpMetadata :=
  header ← ReadMetadataHeader;
  _ ← lift (require (tables_size header ≤ metadata_max_size geometry));
  _ ← lift (require (nothrow_new (tables_size header) = true));
  buffer ← ReadFully (tables_size header);
  lift (parse_tables geometry header buffer).

(** [liblp/reader.cpp:365-369 ParseMetadata, from a buffer] *)
Definition ParseMetadata_buffer (geometry : LpMetadataGeometry) (buffer : bytes)
    : outcome LpMetadata :=
  fst (ParseMetadata geometry (mkMemoryReader buffer 0)).

(** ** Copies on a device *)

Section OnDevice.
Context {D : Type} `{!BlockIO D}.

(** [liblp/reader.cpp:118-129 ReadPrimaryGeometry] *)
Definition ReadPrimaryGeometry : IO D LpMetadataGeometry :=
  _ ← dev_seek GetPrimaryGeometryOffset;
  buffer ← dev_read LP_METADATA_GEOMETRY_SIZE;
  lift (ParseGeometry buffer).
(** [liblp/reader.cpp:131-143 ReadBackupGeometry] *)
Definition ReadBackupGeometry : IO D LpMetadataGeometry :=
  _ ← dev_seek GetBackupGeometryOffset;
  buffer ← dev_read LP_METADATA_GEOMETRY_SIZE;
  lift (ParseGeometry buffer).
(** [liblp/reader.cpp:148-153 ReadLogicalPartitionGeometry] *)
Definition ReadLogicalPartitionGeometry : IO D LpMetadataGeometry :=
  primary ← try_ ReadPrimaryGeometry;
  match primary with
  | Some geometry => mret geometry
  | None => ReadBackupGeometry
  end.

(** [liblp/reader.cpp:376-384 ReadPrimaryMetadata] *)
Definition ReadPrimaryMetadata (geometry : LpMetadataGeometry) (slot_number : Z)
    : IO D LpMetadata :=
  offset ← lift (GetPrimaryMetadataOffset geometry slot_number);
  _ ← dev_seek offset;
  ParseMetadata geometry.
(** [liblp/reader.cpp:386-394 ReadBackupMetadata] *)
Definition ReadBackupMetadata (geometry : LpMetadataGeometry) (slot_number : Z)
    : IO D LpMetadata :=
  offset ← lift (GetBackupMetadataOffset geometry slot_number);
  _ ← dev_seek offset;
  ParseMetadata geometry.

(** The loop over the two copies: a copy that cannot be reached or parsed is
    skipped.
    [liblp/reader.cpp:462-470 ReadMetadata, copies] *)
Fixpoint read_first_copy (geometry : LpMetadataGeometry) (offsets : list Z)
    : IO D LpMetadata :=
  match offsets with
  | [] => lift Reject
  | offset :: offsets =>
      copy ← try_ (_ ← dev_seek offset; ParseMetadata geometry);
      match copy with
      | Some metadata => mret metadata
      | None => read_first_copy geometry offsets
      end
  end.

(** [ReadMetadata] once the super partition is open.
    [liblp/reader.cpp:447-474 ReadMetadata] *)
Definition ReadMetadata_fd (slot_number : Z) : IO D LpMetadata :=
  geometry ← ReadLogicalPartitionGeometry;
  _ ← lift (require (slot_number < metadata_slot_count geometry));
  primary ← lift (GetPrimaryMetadataOffset geometry slot_number);
  backup ← lift (GetBackupMetadataOffset geometry slot_number);
  metadata ← read_first_copy geometry [primary; backup];
  lift (AdjustMetadataForSlot metadata slot_number).

(** [liblp/include/liblp/partition_opener.h:54-70 IPartitionOpener] *)
Record IPartitionOpener := mkOpener {
  opener_Open : bytes → option D;
  opener_GetInfo : bytes → option BlockDeviceInfo;
  (** An absolute path, or a major:minor sequence. *)
  opener_GetDeviceString : bytes → bytes;
}.

(** [liblp/reader.cpp:439-475 ReadMetadata] *)
Definition ReadMetadata (opener : IPartitionOpener) (super_partition : bytes)
    (slot_number : Z) : outcome LpMetadata :=
  match opener_Open opener super_partition with
  | None => Reject
  | Some fd => fst (ReadMetadata_fd slot_number fd)
  end.
End OnDevice.
End Reading.

(** * Properties *)

(** ** Table loops *)

Section Entries.
Context {A : Type} (c : codec A) `{!CodecOk c} (valid : A → bool).

Lemma slice_Ret buf off len bs :
  slice buf off len = Ret bs → zlen bs = len ∧ 0 ≤ off ∧ off + len ≤ zlen buf ∧ bs = sub buf off len.
Proof.
  unfold slice. case_decide; [|done]. intros [= <-]. split_and!; [|lia..|done].
  unfold zlen in *. rewrite length_take, length_drop. lia.
Qed.
Lemma slice_in buf off len :
  0 ≤ off → 0 ≤ len → off + len ≤ zlen buf → slice buf off len = Ret (sub buf off len).
Proof. intros. unfold slice. by rewrite decide_True. Qed.
Lemma slice_no_Reject buf off len : slice buf off len ≠ Reject.
Proof. unfold slice. by case_decide. Qed.

Lemma parse_entries_Ret buf cur es n l :
  parse_entries c valid buf cur es n = Ret l →
  length l = n ∧ Forall (c_wf c) l ∧ Forall (λ a, valid a = true) l.
Proof.
  revert cur l. induction n as [|n IH]; simpl; intros cur l H; inv_ret; [done|].
  apply slice_Ret in E as (Hlen & _).
  destruct (IH _ _ E1) as (?&?&?). split_and!; [simpl; lia|constructor; [|done]..].
  - apply dec_wf. unfold zlen, sizeof in Hlen. lia.
  - done.
Qed.

Lemma parse_entries_safe buf cur es n :
  0 ≤ cur → sizeof c ≤ es → cur + Z.of_nat n * es ≤ zlen buf →
  parse_entries c valid buf cur es n ≠ Crash.
Proof.
  revert cur. induction n as [|n IH]; simpl; intros cur Hcur Hes Hfit; [done|].
  assert (0 ≤ sizeof c) by (unfold sizeof; lia).
  rewrite slice_in by nia. simpl.
  intros [?|(u & _ & HC)]%bind_Crash; [by eapply require_no_Crash|].
  apply bind_Crash in HC as [HC|(? & _ & [=])]. revert HC. apply IH; nia.
Qed.

(** Unchecked entries are copied from outside the buffer exactly when one of them
    reaches beyond its end. *)
Lemma parse_entries_overread buf cur es n :
  0 ≤ cur → 0 ≤ es →
  parse_entries c no_check buf cur es n = Crash ↔
  ∃ i, 0 ≤ i < Z.of_nat n ∧ zlen buf < cur + i * es + sizeof c.
Proof.
  intros Hcur Hes. revert cur Hcur. induction n as [|n IH]; intros cur Hcur; simpl.
  { split; [done|]. intros (i & ? & _). lia. }
  assert (0 ≤ sizeof c) by (unfold sizeof; lia).
  destruct (decide (cur + sizeof c ≤ zlen buf)) as [Hin|Hout].
  - rewrite slice_in by lia. simpl. specialize (IH (cur + es) ltac:(lia)).
    transitivity (parse_entries c no_check buf (cur + es) es n = Crash).
    { by destruct (parse_entries c no_check buf (cur + es) es n). }
    rewrite IH. split; intros (i & Hi & Hov).
    + exists (i + 1). lia.
    + exists (i - 1). assert (i ≠ 0) by (intros ->; lia). lia.
  - unfold slice. rewrite decide_False by lia. split; [|done].
    intros _. exists 0. lia.
Qed.

Lemma parse_entries_array pre l post es :
  Forall (c_wf c) l → Forall (λ a, valid a = true) l → es = sizeof c →
  parse_entries c valid (pre ++ c_array c l ++ post) (zlen pre) es (length l) = Ret l.
Proof.
  intros Hwf Hval ->. revert pre Hwf Hval. induction l as [|a l IH]; intros pre Hwf Hval; [done|].
  inversion_clear Hwf; inversion_clear Hval. simpl. unfold c_array. simpl.
  rewrite <- (assoc_L (++) (c_enc c a)). fold (c_array c l).
  assert (sizeof c = zlen (c_enc c a)) as Hsz.
  { unfold sizeof, zlen. by rewrite enc_length. }
  rewrite Hsz at 1. rewrite slice_app_mid. simpl. rewrite dec_enc_nil by done.
  rewrite require_True by done. simpl.
  rewrite (assoc_L (++) pre), Hsz, <- zlen_app, <- Hsz, IH by done. done.
Qed.
End Entries.

(** ** What a reader promises *)

Class ReaderLaws (R : Type) `{!Reader R} := {
  reader_ok : R → Prop;
  (** The bytes a reader has still to give. *)
  avail : R → bytes;
  read_fully_law n r res r' : 0 ≤ n → reader_ok r → ReadFully n r = (res, r') →
    res ≠ Crash ∧
    ∀ bs, res = Ret bs → reader_ok r' ∧ zlen bs = n ∧ avail r = bs ++ avail r';
}.
Class ReaderLive (R : Type) `{!Reader R, !ReaderLaws R} : Prop :=
  read_fully_live n r : 0 ≤ n ≤ zlen (avail r) → reader_ok r →
    ∃ bs r', ReadFully n r = (Ret bs, r').

#[export] Program Instance memory_reader_laws : ReaderLaws MemoryReader := {|
  reader_ok r := 0 ≤ mr_pos r ≤ zlen (mr_buffer r) ∧ zlen (mr_buffer r) < 2 ^ 64;
  avail r := drop (Z.to_nat (mr_pos r)) (mr_buffer r);
|}.
Next Obligation.
  intros n [buf pos] res r' Hn [Hpos Hlen] E. simpl in *.
  unfold ReadFully, memory_reader, MemoryReader_ReadFully in E. simpl in E.
  rewrite u64_small in E by lia. case_decide; simplify_eq; [done|].
  rewrite slice_in by lia. split; [done|]. intros bs [= <-]. simpl.
  rewrite u64_small by lia. split_and!; [lia..| |].
  - apply length_sub; lia.
  - unfold sub. rewrite Z2Nat.inj_add, <- drop_drop by lia. by rewrite take_drop.
Qed.
#[export] Instance memory_reader_live : ReaderLive MemoryReader.
Proof.
  intros n [buf pos] Hn [Hpos Hlen]. simpl in *.
  unfold ReadFully, memory_reader, MemoryReader_ReadFully. simpl.
  unfold zlen in *. rewrite length_drop in Hn. rewrite u64_small by lia.
  rewrite decide_False by lia. rewrite slice_in by (unfold zlen; lia). eauto.
Qed.

#[export] Program Instance file_reader_laws {D} `{BlockIOLaws D} : ReaderLaws D := {|
  reader_ok d := 0 ≤ position d ≤ zlen (contents d);
  avail d := drop (Z.to_nat (position d)) (contents d);
|}.
Next Obligation.
  intros D ?? n d res d' Hn [Hok Hle] E. destruct (read_law _ _ _ _ E Hok Hn) as (Hc & Hcr & Hret).
  split; [done|]. intros bs ->. destruct (Hret bs eq_refl) as (-> & Hlen & ->).
  assert (position d + n ≤ zlen (contents d)).
  { unfold zlen, sub in *. rewrite length_take, length_drop in Hlen. lia. }
  rewrite Hc. split_and!; [lia|lia|done|]. unfold sub.
  rewrite Z2Nat.inj_add, <- drop_drop by lia. by rewrite take_drop.
Qed.
#[export] Instance file_reader_live {D} `{BlockIOLive D} : ReaderLive D.
Proof.
  intros n d Hn [Hok Hle]. apply read_live; [done|lia|]. simpl in Hn.
  unfold zlen in *. rewrite length_drop in Hn. lia.
Qed.

(** ** The result of parsing depends on the bytes read only *)

Section Locality.
Context {R1 R2 : Type} `{ReaderLaws R1, ReaderLive R2}.

(** When [m1] returns from a reader it has used some first bytes of it, and
    [m2] returns the same from any live reader that starts with these bytes. *)
Definition local {A} (m1 : IO R1 A) (m2 : IO R2 A) : Prop :=
  ∀ r1 a r1', reader_ok r1 → m1 r1 = (Ret a, r1') →
    reader_ok r1' ∧ ∃ used, avail r1 = used ++ avail r1' ∧
    ∀ r2 rest, reader_ok r2 → avail r2 = used ++ rest →
      ∃ r2', m2 r2 = (Ret a, r2') ∧ reader_ok r2' ∧ avail r2' = rest.

Lemma local_bind {A B} (m1 : IO R1 A) (m2 : IO R2 A) (f1 : A → IO R1 B) f2 :
  local m1 m2 → (∀ a, local (f1 a) (f2 a)) → local (m1 ≫= f1) (m2 ≫= f2).
Proof.
  intros Hm Hf r1 b r1' Hr (a & s1 & E1 & E2)%io_bind_Ret.
  destruct (Hm _ _ _ Hr E1) as (Hs & u & Hu & Hm2).
  destruct (Hf _ _ _ _ Hs E2) as (Hr' & v & Hv & Hf2).
  split; [done|]. exists (u ++ v). split; [by rewrite <- (assoc_L (++)), <- Hv|].
  intros r2 rest Hr2 Hav. rewrite <- (assoc_L (++)) in Hav.
  destruct (Hm2 _ _ Hr2 Hav) as (s2 & Em & Hs2 & Hav2).
  destruct (Hf2 _ _ Hs2 Hav2) as (r2' & Ef & ?).
  exists r2'. split; [|done]. apply io_bind_Ret. eauto.
Qed.
Lemma local_lift {A} (m : outcome A) : local (lift m) (lift m).
Proof.
  intros r1 a r1' Hr [-> ->]%lift_Ret. split; [done|]. exists []. split; [done|].
  intros r2 rest Hr2 Hav. exists r2. by split; [apply lift_Ret|].
Qed.
Lemma local_ret {A} (a : A) : local (mret a) (mret a).
Proof. apply (local_lift (Ret a)). Qed.
Lemma local_read n : 0 ≤ n → local (ReadFully n) (ReadFully n).
Proof.
  intros Hn r1 bs r1' Hok1 E. destruct (read_fully_law _ _ _ _ Hn Hok1 E) as [_ Hl].
  destruct (Hl _ eq_refl) as (Hok1' & Hlen & Hav1). split; [done|]. exists bs. split; [done|].
  intros r2 rest Hok2 Hav. destruct (read_fully_live n r2) as (bs2 & r2' & E2); [|done|].
  { rewrite Hav, zlen_app. pose proof (zlen_nonneg rest). pose proof (zlen_nonneg bs). lia. }
  destruct (read_fully_law _ _ _ _ Hn Hok2 E2) as [_ Hl2].
  destruct (Hl2 _ eq_refl) as (Hok2' & Hlen2 & Hav2). rewrite Hav in Hav2.
  apply app_inj_1 in Hav2 as [-> Hav2]; [|unfold zlen in *; lia]. by exists r2'.
Qed.
End Locality.

Create HintDb reading.
#[export] Hint Resolve local_bind local_lift local_ret local_read : reading.

Section ParserLaws.
Context (sha256 : bytes → bytes) (nothrow_new : Z → bool).
Context {R : Type} `{HR : ReaderLaws R}.

(** ** Soundness of the header *)

(** What an accepted header satisfies. *)
Record header_ok (h : LpMetadataHeader) : Prop := {
  hok_wf : c_wf header_codec h;
  hok_magic : h_magic h = LP_METADATA_HEADER_MAGIC;
  hok_major : h_major_version h = LP_METADATA_MAJOR_VERSION;
  hok_minor : h_minor_version h ≤ LP_METADATA_MINOR_VERSION_MAX;
  hok_size : header_size h = expected_struct_size h;
  hok_tail : header_size h = sizeof header_v1_0_codec → h_flags h = 0 ∧ h_reserved h = zeroes 124;
  hok_sum : sha256 (sub (c_enc header_codec (header_set_checksum h (zeroes 32))) 0 (header_size h))
            = header_checksum h;
  hok_bounds : Forall (λ t, t_offset t + t_num_entries t * t_entry_size t ≤ tables_size h)
                 [h_partitions h; h_extents h; h_groups h; h_block_devices h];
  hok_partitions : t_entry_size (h_partitions h) = sizeof partition_codec;
  hok_extents : t_entry_size (h_extents h) = sizeof extent_codec;
  hok_groups : t_entry_size (h_groups h) = sizeof group_codec;
}.

Lemma ValidateTableBounds_true h t :
  is_u32 (tables_size h) → c_wf table_codec t → ValidateTableBounds h t = true →
  t_offset t + t_num_entries t * t_entry_size t ≤ tables_size h.
Proof.
  intros Hs (Ho & Hn & He). simpl in Ho, Hn, He. unfold ValidateTableBounds.
  case_decide; [done|]. rewrite u32_small by lia. rewrite u64_small by nia.
  case_decide; [done|lia].
Qed.

Lemma expected_struct_size_cases h :
  expected_struct_size h = 128 ∨ expected_struct_size h = 256.
Proof. unfold expected_struct_size. case_decide; [left|right]; reflexivity. Qed.

(** The members shared by all header versions are in the first 128 bytes. *)
Lemma header_dec_prefix v1_0 r1 r2 :
  length v1_0 = 128%nat →
  let h1 := c_dec header_codec (v1_0 ++ r1) in let h2 := c_dec header_codec (v1_0 ++ r2) in
  h_magic h1 = h_magic h2 ∧ h_major_version h1 = h_major_version h2 ∧
  h_minor_version h1 = h_minor_version h2 ∧ header_size h1 = header_size h2.
Proof.
  intros Hlen h1 h2. subst h1 h2.
  rewrite !header_dec_split by done.
  by destruct (c_dec header_v1_0_codec v1_0) as (?&?&?&?&?&?&?&?&?&?&?).
Qed.

Lemma ReadMetadataHeader_ok r h r' :
  reader_ok r → ReadMetadataHeader sha256 r = (Ret h, r') →
  header_ok h ∧ reader_ok r' ∧ avail r = sub (c_enc header_codec h) 0 (header_size h) ++ avail r'.
Proof.
  intros Hr H. unfold ReadMetadataHeader in H. inv_io_step.
  destruct (read_fully_law _ _ _ _ (Nat2Z.is_nonneg _) Hr E) as [_ Hl].
  destruct (Hl _ eq_refl) as (Hok & Hlen & ->). clear Hl E.
  assert (length r0 = 128%nat) as Hlen0 by (unfold zlen in Hlen; simpl in Hlen; lia).
  inv_io.
  destruct E5 as (Hb1 & Hb2 & Hb3 & Hb4).
  set (n := (c_size header_codec - c_size header_v1_0_codec)%nat) in *.
  destruct (header_dec_prefix r0 (zeroes n) r5 Hlen0) as (Em & EM & Ev & Es).
  assert (Hexp : expected_struct_size (c_dec header_codec (r0 ++ zeroes n)) =
                 expected_struct_size (c_dec header_codec (r0 ++ r5))).
  { unfold expected_struct_size. by rewrite Ev. }
  rewrite Em in E. rewrite EM in E0. rewrite Ev in E1. rewrite Es, Hexp in E2. rewrite Es in E3.
  set (h := c_dec header_codec (r0 ++ r5)) in *.
  assert (header_size h = 128 ∨ header_size h = 256) as Hsize.
  { rewrite E2. apply expected_struct_size_cases. }
  assert (reader_ok s4 ∧ length r5 = 128%nat ∧ (header_size h = 128 → r5 = zeroes 128) ∧
    r0 ++ avail s = take (Z.to_nat (header_size h)) (r0 ++ r5) ++ avail s4) as (Hok' & Hlen5 & Hz & Hav).
  { case_decide as Hc.
    - inv_io. change (sizeof header_v1_0_codec) with 128 in Hc. split_and!; [done..|].
      rewrite (proj1 (Z.sub_move_0_r _ _) Hc), take_app_length'; done.
    - assert (header_size h = 256) as Eh by (unfold sizeof in *; simpl in *; lia).
      rewrite Eh in E3. destruct (read_fully_law _ _ _ _ (Nat2Z.is_nonneg 128) Hok E3) as [_ Hl].
      destruct (Hl _ eq_refl) as (? & Hl5 & ->). unfold zlen in Hl5.
      split_and!; [done|lia|lia|]. rewrite Eh, take_ge, <- (assoc_L (++)); [done|rewrite length_app; lia]. }
  assert (c_wf header_codec h) as Hwf.
  { apply dec_wf. rewrite length_app, Hlen5, Hlen0. simpl. lia. }
  assert (c_enc header_codec h = r0 ++ r5) as Henc.
  { unfold h. rewrite enc_dec by (rewrite length_app, Hlen5, Hlen0; simpl; lia).
    apply take_ge. rewrite length_app, Hlen5, Hlen0. simpl. lia. }
  pose proof (header_dec_split r0 r5 Hlen0) as Hsplit. fold h in Hsplit. clearbody h.
  split; [|split; [done|unfold sub; by rewrite Henc, drop_0]]. split; try done.
  - intros Eh. rewrite (Hz Eh) in Hsplit. rewrite Hsplit.
    by destruct (c_dec header_v1_0_codec r0) as (?&?&?&?&?&?&?&?&?&?&?).
  - destruct Hwf as [(_&_&_&_&_&Hts&_&Hp&He&Hg&Hb) _].
    rewrite !Forall_cons. split_and!; [by apply ValidateTableBounds_true..|done].
Qed.

Lemma zlen_header_bytes h :
  header_ok h → zlen (sub (c_enc header_codec h) 0 (header_size h)) = header_size h.
Proof.
  intros Hh. unfold sub, zlen. rewrite Z2Nat.inj_0, drop_0, length_take, enc_length by apply Hh.
  change (c_size header_codec) with 256%nat.
  rewrite (hok_size _ Hh). destruct (expected_struct_size_cases h) as [-> | ->]; lia.
Qed.

(** ** Soundness of the tables *)

(** The references between tables and the attributes are those the format allows. *)
Record metadata_ok (m : LpMetadata) : Prop := {
  mok_partitions : Forall (λ p,
    Z.land (p_attributes p) (Z.lnot (valid_attributes (m_header m))) = 0 ∧
    p_first_extent_index p + p_num_extents p ≤ zlen (m_extents m) ∧
    p_group_index p < zlen (m_groups m)) (m_partitions m);
  mok_extents : Forall (λ e,
    e_target_type e = LP_TARGET_TYPE_LINEAR → e_target_source e < zlen (m_block_devices m))
    (m_extents m);
  mok_lengths :
    zlen (m_partitions m) = t_num_entries (h_partitions (m_header m)) ∧
    zlen (m_extents m) = t_num_entries (h_extents (m_header m)) ∧
    zlen (m_groups m) = t_num_entries (h_groups (m_header m)) ∧
    zlen (m_block_devices m) = t_num_entries (h_block_devices (m_header m));
  mok_wf :
    Forall (c_wf partition_codec) (m_partitions m) ∧ Forall (c_wf extent_codec) (m_extents m) ∧
    Forall (c_wf group_codec) (m_groups m) ∧ Forall (c_wf block_device_codec) (m_block_devices m);
  mok_super : ∃ super, GetMetadataSuperBlockDevice m = Some super ∧
    GetTotalMetadataSize (metadata_max_size (m_geometry m)) (metadata_slot_count (m_geometry m))
    ≤ u64 (first_logical_sector super * LP_SECTOR_SIZE);
}.

Lemma partition_valid_true h p :
  c_wf partition_codec p → partition_valid h p = true ↔
  c_wf partition_codec p ∧
  Z.land (p_attributes p) (Z.lnot (valid_attributes h)) = 0 ∧
  p_first_extent_index p + p_num_extents p < 2 ^ 32 ∧
  p_first_extent_index p + p_num_extents p ≤ t_num_entries (h_extents h) ∧
  p_group_index p < t_num_entries (h_groups h).
Proof.
  intros Hwf. pose proof Hwf as (_ & _ & Hf & Hn & _). simpl in Hf, Hn. unfold partition_valid.
  rewrite !andb_true_iff, !bool_decide_eq_true.
  destruct (decide (p_first_extent_index p + p_num_extents p < 2 ^ 32)).
  - rewrite u32_small by lia. intuition lia.
  - unfold u32. rewrite <- (Z_mod_plus_full _ (-1)). rewrite Z.mod_small by lia. intuition lia.
Qed.
Lemma extent_valid_true h e :
  extent_valid h e = true ↔
  (e_target_type e = LP_TARGET_TYPE_LINEAR → e_target_source e < t_num_entries (h_block_devices h)).
Proof.
  unfold extent_valid. rewrite negb_true_iff, andb_false_iff, !bool_decide_eq_false.
  destruct (decide (e_target_type e = LP_TARGET_TYPE_LINEAR)); intuition lia.
Qed.

Lemma parse_tables_ok geometry h buffer m :
  c_wf header_codec h → parse_tables sha256 geometry h buffer = Ret m →
  metadata_ok m ∧ m_header m = h ∧ m_geometry m = geometry ∧ sha256 buffer = tables_checksum h.
Proof.
  intros [(_&_&_&_&_&_&_&Hp&He&Hg&Hb) _] H. unfold parse_tables in H. inv_ret.
  destruct (parse_entries_Ret _ _ _ _ _ _ _ E0) as (Lp & Wp & Vp).
  destruct (parse_entries_Ret _ _ _ _ _ _ _ E1) as (Le & We & Ve).
  destruct (parse_entries_Ret _ _ _ _ _ _ _ E2) as (Lg & Wg & _).
  destruct (parse_entries_Ret _ _ _ _ _ _ _ E3) as (Lb & Wb & _).
  destruct Hp as (_&Hp&_), He as (_&He&_), Hg as (_&Hg&_), Hb as (_&Hb&_). simpl in *.
  assert (zlen r1 = t_num_entries (h_extents h)) as Ze by (unfold zlen; lia).
  assert (zlen r2 = t_num_entries (h_groups h)) as Zg by (unfold zlen; lia).
  assert (zlen r3 = t_num_entries (h_block_devices h)) as Zb by (unfold zlen; lia).
  split_and!; [|done..]. split; simpl; rewrite ?Ze, ?Zg, ?Zb; [| |unfold zlen; lia|done|eauto].
  - rewrite Forall_forall in *. intros p Hin.
    specialize (Vp p Hin). apply partition_valid_true in Vp as (_&?&_&?&?); [done|by apply Wp].
  - rewrite Forall_forall in *. intros e Hin. by apply extent_valid_true, Ve.
Qed.

(** The loop over one table goes through. *)
Definition accepts {A} (c : codec A) (valid : A → bool) (buffer : bytes)
    (t : LpMetadataTableDescriptor) : Prop :=
  ∃ l, parse_entries c valid buffer (t_offset t) (t_entry_size t) (Z.to_nat (t_num_entries t)) = Ret l.

Lemma parse_tables_overread geometry h buffer :
  c_wf header_codec h → zlen buffer = tables_size h → sha256 buffer = tables_checksum h →
  accepts partition_codec (partition_valid h) buffer (h_partitions h) →
  accepts extent_codec (extent_valid h) buffer (h_extents h) →
  accepts group_codec no_check buffer (h_groups h) →
  parse_tables sha256 geometry h buffer = Crash ↔
  ∃ i, 0 ≤ i < t_num_entries (h_block_devices h) ∧
    tables_size h < t_offset (h_block_devices h) + i * t_entry_size (h_block_devices h) +
                    sizeof block_device_codec.
Proof.
  intros [(_&_&_&_&_&_&_&_&_&_&(Ho&Hn&He)) _] Hlen Hsum [ps Hps] [es Hes] [gs Hgs].
  simpl in Ho, Hn, He. unfold parse_tables. rewrite require_True by done. simpl.
  rewrite Hps, Hes, Hgs. simpl. rewrite <- Hlen, <- (Z2Nat.id (t_num_entries _)) by lia.
  rewrite <- parse_entries_overread by (done || lia). rewrite Z2Nat.id by lia.
  destruct (parse_entries block_device_codec _ _ _ _ _); simpl; [|done..]. split; [|done].
  intros [HC|(? & _ & [HC|(? & _ & [=])]%bind_Crash)]%bind_Crash.
  - by apply found_no_Crash in HC.
  - by apply require_no_Crash in HC.
Qed.

(** [tables] is what the header says of the tables: their size and checksum. *)
Definition tables_of (h : LpMetadataHeader) (tables : bytes) : Prop :=
  zlen tables = tables_size h ∧ sha256 tables = tables_checksum h.

(** What was read is the header, its own size of it, and tables it describes. *)
Lemma ParseMetadata_bytes geometry r m r' :
  reader_ok r → ParseMetadata sha256 nothrow_new geometry r = (Ret m, r') →
  metadata_ok m ∧ header_ok (m_header m) ∧ m_geometry m = geometry ∧ reader_ok r' ∧
  ∃ tables, tables_of (m_header m) tables ∧
    parse_tables sha256 geometry (m_header m) tables = Ret m ∧
    avail r = sub (c_enc header_codec (m_header m)) 0 (header_size (m_header m)) ++
              tables ++ avail r'.
Proof.
  intros Hr H. unfold ParseMetadata in H. inv_io.
  destruct (ReadMetadataHeader_ok _ _ _ Hr E) as (Hh & Hs & Hav). pose proof (hok_wf _ Hh) as Hwf.
  destruct (parse_tables_ok _ _ _ _ Hwf H) as (?&?&?&?). subst.
  pose proof Hwf as [(_&_&_&_&_&Hsz&_) _].
  destruct (read_fully_law _ _ _ _ (proj1 Hsz) Hs E2) as [_ Hl].
  destruct (Hl _ eq_refl) as (?&Hbuf&Hav2). rewrite Hav2 in Hav.
  split_and!; [done..|]. eexists. split_and!; [by split|done|done].
Qed.

Lemma ParseMetadata_ok geometry r m r' :
  reader_ok r → ParseMetadata sha256 nothrow_new geometry r = (Ret m, r') →
  metadata_ok m ∧ header_ok (m_header m) ∧ m_geometry m = geometry ∧ reader_ok r' ∧
  zlen (avail r) = header_size (m_header m) + tables_size (m_header m) + zlen (avail r').
Proof.
  intros Hr H. destruct (ParseMetadata_bytes _ _ _ _ Hr H) as (?&?&?&?&tables&[Ht _]&_&E).
  split_and!; [done..|]. rewrite E, !zlen_app, zlen_header_bytes, Ht by done. lia.
Qed.

(** ** Memory safety *)

(** A call from a usable reader neither crashes nor breaks the reader. *)
Definition safe {A} (m : IO R A) : Prop := ∀ r res r',
  reader_ok r → m r = (res, r') → res ≠ Crash ∧ ∀ a, res = Ret a → reader_ok r'.

Lemma safe_bind {A B} (m : IO R A) (f : A → IO R B) :
  safe m → (∀ a, safe (f a)) → safe (m ≫= f).
Proof.
  intros Hm Hf r res r' Hr H. unfold mbind, io_mbind in H.
  destruct (m r) as [[a| |] r1] eqn:E; destruct (Hm _ _ _ Hr E) as [Hc Ha].
  - apply (Hf a r1); [by apply (Ha a)|done].
  - by injection H as <- <-.
  - done.
Qed.
Lemma safe_lift {A} (m : outcome A) : m ≠ Crash → safe (lift m).
Proof. intros Hm r res r' Hr [= <- <-]. done. Qed.
Lemma safe_ret {A} (a : A) : safe (mret a).
Proof. by apply (safe_lift (Ret a)). Qed.
Lemma safe_read n : 0 ≤ n → safe (ReadFully n).
Proof.
  intros Hn r res r' Hr E. destruct (read_fully_law _ _ _ _ Hn Hr E) as [? Hl].
  split; [done|]. intros a ->. by destruct (Hl a eq_refl).
Qed.

Lemma ReadMetadataHeader_safe : safe (ReadMetadataHeader sha256).
Proof.
  unfold ReadMetadataHeader.
  apply safe_bind; [apply safe_read; unfold sizeof; lia|]. intros v1_0.
  do 3 (apply safe_bind; [by apply safe_lift|]; intros _).
  set (h0 := c_dec header_codec _).
  destruct (decide (header_size h0 = expected_struct_size h0)) as [Es|Es].
  2:{ rewrite require_False by done. by apply (safe_lift Reject). }
  rewrite require_True by done. apply safe_bind; [by apply safe_lift|]; intros _.
  apply safe_bind.
  - case_decide; [apply safe_ret|]. apply safe_read. rewrite Es.
    change (sizeof header_v1_0_codec) with 128.
    destruct (expected_struct_size_cases h0) as [-> | ->]; lia.
  - intros rest. do 5 (apply safe_bind; [by apply safe_lift|]; intros _). apply safe_ret.
Qed.

(** The table loops stay inside the buffer when the entries of the block device
    table have the size of the struct. *)
Lemma parse_tables_safe geometry h buffer :
  header_ok h → t_entry_size (h_block_devices h) = sizeof block_device_codec →
  zlen buffer = tables_size h → parse_tables sha256 geometry h buffer ≠ Crash.
Proof.
  intros Hh Hes Hlen. pose proof (hok_wf _ Hh) as [(_&_&_&_&_&_&_&Hp&He&Hg&Hb) _].
  pose proof (hok_bounds _ Hh) as Hbd. rewrite !Forall_cons in Hbd. destruct Hbd as (B1&B2&B3&B4&_).
  assert (Hsafe : ∀ A (c : codec A) (v : A → bool) t, c_wf table_codec t →
    t_offset t + t_num_entries t * t_entry_size t ≤ tables_size h → t_entry_size t = sizeof c →
    parse_entries c v buffer (t_offset t) (t_entry_size t) (Z.to_nat (t_num_entries t)) ≠ Crash).
  { intros A c v t (Ho&Hn&_) Hbt Het. simpl in Ho, Hn.
    apply parse_entries_safe; [lia|lia|]. by rewrite Z2Nat.id, Hlen by lia. }
  unfold parse_tables. destruct Hh. intros HC.
  repeat (apply bind_Crash in HC as [HC|(? & _ & HC)]);
    first [ done | by apply require_no_Crash in HC | by apply found_no_Crash in HC
          | by apply Hsafe in HC ].
Qed.

Lemma ParseMetadata_safe geometry r r' :
  reader_ok r → ParseMetadata sha256 nothrow_new geometry r = (Crash, r') →
  ∃ h r1, ReadMetadataHeader sha256 r = (Ret h, r1) ∧ header_ok h ∧
    t_entry_size (h_block_devices h) ≠ sizeof block_device_codec.
Proof.
  intros Hr H. unfold ParseMetadata, mbind, io_mbind in H.
  destruct (ReadMetadataHeader sha256 r) as [[h| |] r1] eqn:E; [|done|].
  2:{ by destruct (ReadMetadataHeader_safe _ _ _ Hr E). }
  destruct (ReadMetadataHeader_ok _ _ _ Hr E) as (Hh & Hr1 & _).
  exists h, r1. split_and!; [done..|]. intros Hes. unfold lift in H.
  unfold require in H. case_decide; [|done]. case_decide; [|done].
  pose proof (hok_wf _ Hh) as [(_&_&_&_&_&[Hsz _]&_) _].
  destruct (ReadFully (tables_size h) r1) as [[buf| |] r2] eqn:E2;
    destruct (read_fully_law _ _ _ _ Hsz Hr1 E2) as [Hnc Hl]; [|done|done].
  destruct (Hl buf eq_refl) as (_ & Hlen & _). injection H as H _.
  by eapply parse_tables_safe in H.
Qed.
End ParserLaws.

(** ** Parsing is a function of the bytes *)

Section Deterministic.
Context (sha256 : bytes → bytes) (nothrow_new : Z → bool).
Context {R1 R2 : Type} `{H1 : ReaderLaws R1, H2 : ReaderLaws R2, !ReaderLive R2}.

Lemma ReadMetadataHeader_local :
  local (R1:=R1) (R2:=R2) (ReadMetadataHeader sha256) (ReadMetadataHeader sha256).
Proof.
  unfold ReadMetadataHeader.
  apply local_bind; [by apply local_read; unfold sizeof; lia|]. intros v1_0.
  do 3 (apply local_bind; [apply local_lift|]; intros _).
  set (h0 := c_dec header_codec _).
  destruct (decide (header_size h0 = expected_struct_size h0)) as [Es|Es].
  2:{ rewrite require_False by done. intros r1 a r1' _ H. inv_io. }
  apply local_bind; [apply local_lift|]; intros _.
  apply local_bind.
  - case_decide; [apply local_ret|]. apply local_read. rewrite Es.
    change (sizeof header_v1_0_codec) with 128.
    destruct (expected_struct_size_cases h0) as [-> | ->]; lia.
  - intros rest. do 5 (apply local_bind; [apply local_lift|]; intros _). apply local_ret.
Qed.

Lemma ParseMetadata_local geometry :
  local (R1:=R1) (R2:=R2) (ParseMetadata sha256 nothrow_new geometry)
    (ParseMetadata sha256 nothrow_new geometry).
Proof.
  intros r1 m r1' Hr H. unfold ParseMetadata in H. apply io_bind_Ret in H as (h & s & E & H).
  destruct (ReadMetadataHeader_ok _ _ _ _ Hr E) as [Hh _].
  destruct (ReadMetadataHeader_local _ _ _ Hr E) as (Hs & u & Hu & Hm2).
  pose proof (hok_wf _ _ Hh) as [(_&_&_&_&_&[Hsz _]&_) _].
  assert (local (R1:=R1) (R2:=R2)
    (_ ← lift (require (tables_size h ≤ metadata_max_size geometry));
     _ ← lift (require (nothrow_new (tables_size h) = true));
     buffer ← ReadFully (tables_size h); lift (parse_tables sha256 geometry h buffer))
    (_ ← lift (require (tables_size h ≤ metadata_max_size geometry));
     _ ← lift (require (nothrow_new (tables_size h) = true));
     buffer ← ReadFully (tables_size h); lift (parse_tables sha256 geometry h buffer)))
    as Hloc by auto with reading.
  destruct (Hloc _ _ _ Hs H) as (Hr' & v & Hv & Hf2).
  split; [done|]. exists (u ++ v). split; [by rewrite <- (assoc_L (++)), <- Hv|].
  intros r2 rest Hr2 Hav. rewrite <- (assoc_L (++)) in Hav.
  destruct (Hm2 _ _ Hr2 Hav) as (s2 & Em & Hs2 & Hav2).
  destruct (Hf2 _ _ Hs2 Hav2) as (r2' & Ef & ?).
  exists r2'. split; [|done]. unfold ParseMetadata. apply io_bind_Ret. eauto.
Qed.
End Deterministic.
