(* ===== verification/LpWriter.v ===== *)
(** * Writing partition tables ([liblp/writer.cpp])

    Serialisation, the checks before a write, and the two update protocols:
    [FlashPartitionTable] (geometry and every slot) and [UpdatePartitionTable]
    (one slot, both copies, repairing a lone copy first). *)
From S2P Require Import Prelude Bytes LpFormat LpUtility Device LpReader.

(** [liblp/writer.cpp:44-48 CompareGeometry] *)
Definition CompareGeometry (g1 g2 : LpMetadataGeometry) : bool :=
  bool_decide (metadata_max_size g1 = metadata_max_size g2) &&
  bool_decide (metadata_slot_count g1 = metadata_slot_count g2) &&
  bool_decide (logical_block_size g1 = logical_block_size g2).

(** [liblp/writer.cpp:318-321 CompareMetadata] *)
Definition CompareMetadata (a b : LpMetadata) : bool :=
  bool_decide (header_checksum (m_header a) = header_checksum (m_header b)).

(** [liblp/writer.cpp:173-185 ValidateMetadataRegion] *)
Definition ValidateMetadataRegion (m : LpMetadata) (start size : Z) : bool :=
  match GetMetadataSuperBlockDevice m with
  | None => false
  | Some super_device =>
      negb (bool_decide
        (u64 (first_logical_sector super_device * LP_SECTOR_SIZE) ≤ u64 (start + size)))
  end.

Definition table_set_offset (t : LpMetadataTableDescriptor) (offset : Z)
    : LpMetadataTableDescriptor :=
  mkTable offset (t_num_entries t) (t_entry_size t).

(** [liblp/writer.cpp:54-62 SerializeMetadata, tables] *)
Definition serialize_tables (m : LpMetadata) : bytes :=
  c_array partition_codec (m_partitions m) ++ c_array extent_codec (m_extents m) ++
  c_array group_codec (m_groups m) ++ c_array block_device_codec (m_block_devices m).

(** The header with the positions of the tables; offsets are stored in
    [uint32_t] members.
    [liblp/writer.cpp:64-69 SerializeMetadata, positions] *)
Definition place_tables (m : LpMetadata) : LpMetadataHeader :=
  let h := m_header m in
  let extents := u32 (zlen (c_array partition_codec (m_partitions m))) in
  let groups := u32 (extents + zlen (c_array extent_codec (m_extents m))) in
  let block_devices := u32 (groups + zlen (c_array group_codec (m_groups m))) in
  let size := u32 (block_devices + zlen (c_array block_device_codec (m_block_devices m))) in
  mkHeader (h_magic h) (h_major_version h) (h_minor_version h) (header_size h)
    (header_checksum h) size (tables_checksum h)
    (table_set_offset (h_partitions h) 0) (table_set_offset (h_extents h) extents)
    (table_set_offset (h_groups h) groups) (table_set_offset (h_block_devices h) block_devices)
    (h_flags h) (h_reserved h).

Definition header_set_tables_checksum (h : LpMetadataHeader) (sum : bytes) : LpMetadataHeader :=
  mkHeader (h_magic h) (h_major_version h) (h_minor_version h) (header_size h)
    (header_checksum h) (tables_size h) sum (h_partitions h) (h_extents h) (h_groups h)
    (h_block_devices h) (h_flags h) (h_reserved h).

Section Writing.
Context (sha256 : bytes → bytes) (nothrow_new : Z → bool).
(** Whether [__ANDROID__] is defined. *)
Context (android : bool).

(** [liblp/writer.cpp:34-42 SerializeGeometry] *)
Definition SerializeGeometry (input : LpMetadataGeometry) : bytes :=
  let geometry := geometry_set_checksum input (zeroes 32) in
  let geometry := geometry_set_checksum geometry (sha256 (c_enc geometry_codec geometry)) in
  let blob := c_enc geometry_codec geometry in
  blob ++ zeroes (Z.to_nat LP_METADATA_GEOMETRY_SIZE - length blob).

(** The header as it is written: tables placed, both checksums computed.
    [liblp/writer.cpp:64-77 SerializeMetadata, checksums] *)
Definition finish_header (m : LpMetadata) : LpMetadataHeader :=
  let header := header_set_tables_checksum (place_tables m) (sha256 (serialize_tables m)) in
  let header := header_set_checksum header (zeroes 32) in
  header_set_checksum header (sha256 (sub (c_enc header_codec header) 0 (header_size header))).

(** [header_size] bytes are read from the header struct.
    [liblp/writer.cpp:50-82 SerializeMetadata] *)
Definition SerializeMetadata (input : LpMetadata) : outcome bytes :=
  let header := finish_header input in
  header_blob ← slice (c_enc header_codec header) 0 (header_size header);
  Ret (header_blob ++ serialize_tables input).

Section OnDevice.
Context {D : Type} `{!BlockIO D}.

(** The loop over the block devices.
    [liblp/writer.cpp:116-147 ValidateAndSerializeMetadata, block devices] *)
Fixpoint validate_block_devices (opener : @IPartitionOpener D) (slot_suffix : bytes)
    (bds : list LpMetadataBlockDevice) : outcome unit :=
  match bds with
  | [] => Ret ()
  | b :: bds =>
      let name := GetBlockDevicePartitionName b in
      let suffixed := bool_decide (Z.land (bd_flags b) LP_BLOCK_DEVICE_SLOT_SUFFIXED ≠ 0) in
      _ ← require (¬ (suffixed = true ∧ slot_suffix = []));
      let name := if suffixed then name ++ slot_suffix else name in
      _ ← require (u64 (u64 (first_logical_sector b + 1) * LP_SECTOR_SIZE) ≤ bd_size b);
      _ ← (if android then
             info ← found (opener_GetInfo opener name);
             require (i_size info = bd_size b)
           else Ret ());
      validate_block_devices opener slot_suffix bds
  end.

(** [liblp/writer.cpp:149-155 ValidateAndSerializeMetadata, partitions] *)
Definition partition_extents_valid (m : LpMetadata) (p : LpMetadataPartition) : bool :=
  bool_decide (u32 (p_first_extent_index p + p_num_extents p) ≤ zlen (m_extents m)).

(** [liblp/writer.cpp:157-168 ValidateAndSerializeMetadata, extents] *)
Definition extent_in_super (super_device : LpMetadataBlockDevice) (e : LpMetadataExtent) : bool :=
  let last_sector := bd_size super_device / LP_SECTOR_SIZE in
  if decide (e_target_type e = LP_TARGET_TYPE_LINEAR) then
    negb (bool_decide (e_target_data e < first_logical_sector super_device) ||
          bool_decide (last_sector < u64 (e_target_data e + e_num_sectors e)))
  else true.

(** [liblp/writer.cpp:86-170 ValidateAndSerializeMetadata] *)
Definition ValidateAndSerializeMetadata (opener : @IPartitionOpener D) (m : LpMetadata)
    (slot_suffix : bytes) : outcome bytes :=
  let geometry := m_geometry m in
  blob ← SerializeMetadata m;
  _ ← require (zlen blob ≤ metadata_max_size geometry);
  let reserved_size := u64 (LP_METADATA_GEOMETRY_SIZE +
        u64 (metadata_max_size geometry * metadata_slot_count geometry)) in
  let total_reserved := u64 (LP_PARTITION_RESERVED_BYTES + u64 (reserved_size * 2)) in
  super_device ← found (GetMetadataSuperBlockDevice m);
  _ ← require (total_reserved ≤ u64 (first_logical_sector super_device * LP_SECTOR_SIZE));
  _ ← validate_block_devices opener slot_suffix (m_block_devices m);
  _ ← require (forallb (partition_extents_valid m) (m_partitions m) = true);
  _ ← require (forallb (extent_in_super super_device) (m_extents m) = true);
  Ret blob.

(** [liblp/writer.cpp:187-203 WritePrimaryMetadata] *)
Definition WritePrimaryMetadata (m : LpMetadata) (slot_number : Z) (blob : bytes)
    (writer : bytes → IO D unit) : IO D unit :=
  primary_offset ← lift (GetPrimaryMetadataOffset (m_geometry m) slot_number);
  _ ← lift (require (ValidateMetadataRegion m primary_offset (zlen blob) = true));
  _ ← dev_seek primary_offset;
  writer blob.

(** [liblp/writer.cpp:205-221 WriteBackupMetadata] *)
Definition WriteBackupMetadata (m : LpMetadata) (slot_number : Z) (blob : bytes)
    (writer : bytes → IO D unit) : IO D unit :=
  backup_offset ← lift (GetBackupMetadataOffset (m_geometry m) slot_number);
  _ ← lift (require (ValidateMetadataRegion m backup_offset (zlen blob) = true));
  _ ← dev_seek backup_offset;
  writer blob.

(** [liblp/writer.cpp:223-238 WriteMetadata] *)
Definition WriteMetadata (m : LpMetadata) (slot_number : Z) (blob : bytes)
    (writer : bytes → IO D unit) : IO D unit :=
  _ ← lift (require (slot_number < metadata_slot_count (m_geometry m)));
  _ ← WritePrimaryMetadata m slot_number blob writer;
  WriteBackupMetadata m slot_number blob writer.

(** [liblp/writer.cpp:240-242 DefaultWriter] *)
Definition DefaultWriter : bytes → IO D unit := dev_write.

(** Every slot is attempted; the result is whether all succeeded.
    [liblp/writer.cpp:307-311 FlashPartitionTable, slots] *)
Fixpoint flash_slots (m : LpMetadata) (blob : bytes) (i : Z) (n : nat) : IO D bool :=
  match n with
  | O => mret true
  | S n =>
      r ← try_ (WriteMetadata m i blob DefaultWriter);
      ok ← flash_slots m blob (i + 1) n;
      mret (bool_decide (r = Some ()) && ok)
  end.

(** [FlashPartitionTable] on the opened device ([SetBlockReadonly] only warns).
    [liblp/writer.cpp:256-312 FlashPartitionTable] *)
Definition FlashPartitionTable_fd (opener : @IPartitionOpener D) (super_partition : bytes)
    (m : LpMetadata) : IO D unit :=
  let slot_suffix := GetPartitionSlotSuffix super_partition in
  metadata_blob ← lift (ValidateAndSerializeMetadata opener m slot_suffix);
  _ ← dev_seek 0;
  _ ← dev_write (zeroes (Z.to_nat LP_PARTITION_RESERVED_BYTES));
  let blob := SerializeGeometry (m_geometry m) in
  _ ← dev_seek GetPrimaryGeometryOffset;
  _ ← dev_write blob;
  _ ← dev_seek GetBackupGeometryOffset;
  _ ← dev_write blob;
  ok ← flash_slots m metadata_blob 0 (Z.to_nat (metadata_slot_count (m_geometry m)));
  lift (require (ok = true)).

(** [liblp/writer.cpp:248-312 FlashPartitionTable] *)
Definition FlashPartitionTable (opener : @IPartitionOpener D) (super_partition : bytes)
    (m : LpMetadata) : outcome unit * option D :=
  match opener_Open opener super_partition with
  | None => (Reject, None)
  | Some fd => prod_map id Some (FlashPartitionTable_fd opener super_partition m fd)
  end.

(** The repair step: a lone or differing copy is made the other one.
    [liblp/writer.cpp:365-390 UpdatePartitionTable, repair] *)
Definition sync_copies (opener : @IPartitionOpener D) (m : LpMetadata) (slot_number : Z)
    (slot_suffix : bytes) (writer : bytes → IO D unit)
    (primary backup : option LpMetadata) : IO D unit :=
  match primary, backup with
  | Some p, Some b =>
      if CompareMetadata p b then mret ()
      else
        old_blob ← lift (ValidateAndSerializeMetadata opener p slot_suffix);
        WriteBackupMetadata m slot_number old_blob writer
  | Some p, None =>
      old_blob ← lift (ValidateAndSerializeMetadata opener p slot_suffix);
      WriteBackupMetadata m slot_number old_blob writer
  | None, Some b =>
      old_blob ← lift (ValidateAndSerializeMetadata opener b slot_suffix);
      WritePrimaryMetadata m slot_number old_blob writer
  | None, None => mret ()
  end.

(** [UpdatePartitionTable] on the opened device.
    [liblp/writer.cpp:332-400 UpdatePartitionTable] *)
Definition UpdatePartitionTable_fd (opener : @IPartitionOpener D) (m : LpMetadata)
    (slot_number : Z) (writer : bytes → IO D unit) : IO D unit :=
  slot_suffix ← lift (SlotSuffixForSlotNumber slot_number);
  blob ← lift (ValidateAndSerializeMetadata opener m slot_suffix);
  let geometry := m_geometry m in
  old_geometry ← ReadLogicalPartitionGeometry sha256;
  _ ← lift (require (CompareGeometry geometry old_geometry = true));
  _ ← lift (require (slot_number < metadata_slot_count geometry));
  primary ← try_ (ReadPrimaryMetadata sha256 nothrow_new geometry slot_number);
  backup ← try_ (ReadBackupMetadata sha256 nothrow_new geometry slot_number);
  _ ← sync_copies opener m slot_number slot_suffix writer primary backup;
  WriteMetadata m slot_number blob writer.

(** [liblp/writer.cpp:323-400 UpdatePartitionTable] *)
Definition UpdatePartitionTable (opener : @IPartitionOpener D) (super_partition : bytes)
    (m : LpMetadata) (slot_number : Z) (writer : bytes → IO D unit)
    : outcome unit * option D :=
  match opener_Open opener super_partition with
  | None => (Reject, None)
  | Some fd => prod_map id Some (UpdatePartitionTable_fd opener m slot_number writer fd)
  end.
End OnDevice.
End Writing.
