(* ===== verification/LpImage.v ===== *)
(** * What a serialised partition table reads back as

    [SerializeMetadata] ([liblp/writer.cpp]) against [ParseMetadata]
    ([liblp/reader.cpp]), and [SerializeGeometry] against [ParseGeometry]: the
    reader accepts exactly the headers that [header_ok] describes, and a
    serialised table is read back unchanged, whatever bytes follow it. *)
From S2P Require Import Prelude Bytes LpFormat LpUtility Device LpReader LpWriter.

Section Image.
Context (sha256 : bytes → bytes) (nothrow_new : Z → bool).
Context {R : Type} `{HR : ReaderLaws R, !ReaderLive R}.

Lemma read_avail (r : R) a b :
  reader_ok r → avail r = a ++ b →
  ∃ r', ReadFully (zlen a) r = (Ret a, r') ∧ reader_ok r' ∧ avail r' = b.
Proof.
  intros Hr Ha. destruct (read_fully_live (zlen a) r) as (bs & r' & E); [|done|].
  { rewrite Ha, zlen_app. pose proof (zlen_nonneg a). pose proof (zlen_nonneg b). lia. }
  destruct (read_fully_law _ _ _ _ (zlen_nonneg a) Hr E) as [_ Hl].
  destruct (Hl _ eq_refl) as (Hr' & Hlen & Hav). rewrite Ha in Hav.
  apply app_inj_1 in Hav as [-> ->]; [eauto|]. unfold zlen in Hlen. lia.
Qed.

(** ** Completeness of the header reader *)

Lemma ValidateTableBounds_ok h t :
  is_u32 (tables_size h) → c_wf table_codec t →
  t_offset t + t_num_entries t * t_entry_size t ≤ tables_size h → ValidateTableBounds h t = true.
Proof.
  intros Hs (Ho & Hn & He) Hb. simpl in Ho, Hn, He. unfold ValidateTableBounds.
  rewrite decide_False by nia. rewrite u32_small by nia. rewrite u64_small by nia.
  by rewrite decide_False by lia.
Qed.

(** The first [header_size] bytes of a header, split where the reader splits them. *)
Lemma header_bytes h :
  header_ok sha256 h →
  ∃ v1_0 rest, length v1_0 = 128%nat ∧ length rest = 128%nat ∧
    c_dec header_codec (v1_0 ++ rest) = h ∧
    (header_size h = 128 ∧ rest = zeroes 128 ∧
       sub (c_enc header_codec h) 0 (header_size h) = v1_0 ∨
     header_size h = 256 ∧ sub (c_enc header_codec h) 0 (header_size h) = v1_0 ++ rest).
Proof.
  intros Hh. pose proof (hok_wf _ _ Hh) as Hwf.
  exists (c_enc header_v1_0_codec (header_tuple h).1), (c_enc c_u32 (h_flags h) ++ h_reserved h).
  assert (length (c_enc header_v1_0_codec (header_tuple h).1) = 128%nat) as Hl1.
  { apply (enc_length (c:=header_v1_0_codec)). by destruct Hwf. }
  assert (length (h_reserved h) = 124%nat) as Hl2 by by destruct Hwf as [_ [_ ?]].
  assert (length (c_enc c_u32 (h_flags h) ++ h_reserved h) = 128%nat) as Hl3.
  { rewrite length_app, Hl2, (enc_length (c:=c_u32)); [done|]. by destruct Hwf as [_ [? _]]. }
  split_and!; [done|done|by rewrite <- header_enc_split; apply (dec_enc_nil header_codec)|].
  rewrite header_enc_split.
  rewrite (hok_size _ _ Hh). unfold sub. rewrite Z2Nat.inj_0, drop_0.
  destruct (expected_struct_size_cases h) as [Ee|Ee]; rewrite Ee; [left|right].
  - destruct (hok_tail _ _ Hh) as [-> ->]; [by rewrite (hok_size _ _ Hh), Ee|].
    split_and!; [done|done|]. by rewrite take_app_length' by by rewrite Hl1.
  - split; [done|]. apply take_ge. rewrite length_app, Hl1, Hl3. lia.
Qed.

Lemma ReadMetadataHeader_complete h (r : R) more :
  header_ok sha256 h → reader_ok r →
  avail r = sub (c_enc header_codec h) 0 (header_size h) ++ more →
  ∃ r', ReadMetadataHeader sha256 r = (Ret h, r') ∧ reader_ok r' ∧ avail r' = more.
Proof.
  intros Hh Hr Hav. destruct (header_bytes h Hh) as (v1_0 & rest & Hl1 & Hl2 & Hdec & Hcase).
  assert (∃ r1 r2, ReadFully (sizeof header_v1_0_codec) r = (Ret v1_0, r1) ∧
    (if decide (header_size h - sizeof header_v1_0_codec = 0)
     then mret (zeroes (c_size header_codec - c_size header_v1_0_codec))
     else ReadFully (header_size h - sizeof header_v1_0_codec)) r1 = (Ret rest, r2) ∧
    reader_ok r2 ∧ avail r2 = more) as (r1 & r2 & E1 & E2 & Hr2 & Hav2).
  { change (sizeof header_v1_0_codec) with 128.
    replace 128 with (zlen v1_0) by (unfold zlen; lia).
    destruct Hcase as [(Hsz & -> & Hs)|(Hsz & Hs)]; rewrite Hs, <- ?(assoc_L (++)) in Hav;
      destruct (read_avail r _ _ Hr Hav) as (r1 & E1 & Hr1 & Hav1); exists r1;
      rewrite Hsz.
    - exists r1. rewrite decide_True by (unfold zlen; lia). by rewrite E1.
    - destruct (read_avail r1 _ _ Hr1 Hav1) as (r2 & E2 & Hr2 & Hav2). exists r2.
      rewrite decide_False by (unfold zlen; lia).
      replace (256 - zlen v1_0) with (zlen rest) by (unfold zlen; lia). done. }
  exists r2. split; [|done]. unfold ReadMetadataHeader.
  rewrite (io_bind_eq _ _ _ _ _ E1). cbv zeta.
  set (n := (c_size header_codec - c_size header_v1_0_codec)%nat) in *.
  destruct (header_dec_prefix v1_0 (zeroes n) rest Hl1) as (Em & EM & Ev & Es).
  assert (Hexp : expected_struct_size (c_dec header_codec (v1_0 ++ zeroes n)) =
                 expected_struct_size (c_dec header_codec (v1_0 ++ rest))).
  { unfold expected_struct_size. by rewrite Ev. }
  pose proof Hdec as Hdec'. rewrite Em, EM, Ev, Es, Hexp, Hdec. clear Em EM Ev Es Hexp Hdec.
  pose proof (hok_wf _ _ Hh) as [(_&_&_&_&_&Hts&_&Hp&He&Hg&Hb) _].
  pose proof (hok_bounds _ _ Hh) as Hbd. rewrite !Forall_cons in Hbd. destruct Hbd as (B1&B2&B3&B4&_).
  destruct Hh as [_ Hm HM Hv Hs Ht Hc _ HP HE HG].
  do 4 (rewrite io_require; [|done]).
  rewrite (io_bind_eq _ _ _ _ _ E2). rewrite Hdec'.
  do 5 (rewrite io_require; [|by try (split_and!; apply ValidateTableBounds_ok)]). done.
Qed.
End Image.

(** ** What the writer stores *)

Section Stored.
Context (sha256 : bytes → bytes) (nothrow_new : Z → bool).
(** SHA-256 digests have 32 bytes. *)
Context (sha256_length : ∀ bs, length (sha256 bs) = 32%nat).

(** The metadata a serialised copy of [m] denotes: [m] with its header completed. *)
Definition written (m : LpMetadata) : LpMetadata :=
  mkMetadata (m_geometry m) (finish_header sha256 m) (m_partitions m) (m_extents m)
    (m_groups m) (m_block_devices m).

(** A table set that the format can hold: what [New] and the other constructors
    of the header establish, and what a parsed table set satisfies. *)
Record serializable (m : LpMetadata) : Prop := {
  ser_wf : c_wf header_codec (m_header m);
  ser_magic : h_magic (m_header m) = LP_METADATA_HEADER_MAGIC;
  ser_major : h_major_version (m_header m) = LP_METADATA_MAJOR_VERSION;
  ser_minor : h_minor_version (m_header m) ≤ LP_METADATA_MINOR_VERSION_MAX;
  ser_size : header_size (m_header m) = expected_struct_size (m_header m);
  ser_tail : header_size (m_header m) = sizeof header_v1_0_codec →
    h_flags (m_header m) = 0 ∧ h_reserved (m_header m) = zeroes 124;
  ser_entries :
    t_entry_size (h_partitions (m_header m)) = sizeof partition_codec ∧
    t_entry_size (h_extents (m_header m)) = sizeof extent_codec ∧
    t_entry_size (h_groups (m_header m)) = sizeof group_codec ∧
    t_entry_size (h_block_devices (m_header m)) = sizeof block_device_codec;
  ser_tables : metadata_ok m;
  ser_fits : zlen (serialize_tables m) ≤ metadata_max_size (m_geometry m) < 2 ^ 32;
}.

(** Where each table ends up. *)
Lemma placed m :
  serializable m →
  let a := zlen (m_partitions m) * 52 in let b := a + zlen (m_extents m) * 24 in
  let c := b + zlen (m_groups m) * 48 in let d := c + zlen (m_block_devices m) * 64 in
  zlen (c_array partition_codec (m_partitions m)) = a ∧
  zlen (c_array extent_codec (m_extents m)) = b - a ∧
  zlen (c_array group_codec (m_groups m)) = c - b ∧
  zlen (c_array block_device_codec (m_block_devices m)) = d - c ∧
  zlen (serialize_tables m) = d ∧ is_u32 d ∧
  t_offset (h_partitions (finish_header sha256 m)) = 0 ∧
  t_offset (h_extents (finish_header sha256 m)) = a ∧
  t_offset (h_groups (finish_header sha256 m)) = b ∧
  t_offset (h_block_devices (finish_header sha256 m)) = c ∧
  tables_size (finish_header sha256 m) = d.
Proof.
  intros Hs a b c d.
  assert (a = zlen (m_partitions m) * 52 ∧ b = a + zlen (m_extents m) * 24 ∧
    c = b + zlen (m_groups m) * 48 ∧ d = c + zlen (m_block_devices m) * 64) as (Da&Db&Dc&Dd) by done.
  clearbody a b c d. destruct (mok_wf _ (ser_tables _ Hs)) as (Wp & We & Wg & Wb).
  assert (zlen (c_array partition_codec (m_partitions m)) = a) as Ea.
  { rewrite (zlen_c_array partition_codec) by done. unfold sizeof. simpl. lia. }
  assert (zlen (c_array extent_codec (m_extents m)) = b - a) as Eb.
  { rewrite (zlen_c_array extent_codec) by done. unfold sizeof. simpl. lia. }
  assert (zlen (c_array group_codec (m_groups m)) = c - b) as Ec.
  { rewrite (zlen_c_array group_codec) by done. unfold sizeof. simpl. lia. }
  assert (zlen (c_array block_device_codec (m_block_devices m)) = d - c) as Ed.
  { rewrite (zlen_c_array block_device_codec) by done. unfold sizeof. simpl. lia. }
  assert (zlen (serialize_tables m) = d) as E.
  { unfold serialize_tables. rewrite !zlen_app, Ea, Eb, Ec, Ed. lia. }
  pose proof (ser_fits _ Hs) as Hfit. rewrite E in Hfit.
  pose proof (zlen_nonneg (m_partitions m)). pose proof (zlen_nonneg (m_extents m)).
  pose proof (zlen_nonneg (m_groups m)). pose proof (zlen_nonneg (m_block_devices m)).
  split_and!; try (done || lia); unfold finish_header, place_tables; simpl;
    rewrite ?Ea, ?Eb, ?Ec, ?Ed; 
    rewrite ?(u32_small a), ?Zplus_minus, ?(u32_small b), ?Zplus_minus, ?(u32_small c),
      ?Zplus_minus, ?(u32_small d) by lia; done.
Qed.

Lemma table_moved t t' off :
  c_wf table_codec t → t_offset t' = off → is_u32 off → t_num_entries t' = t_num_entries t →
  t_entry_size t' = t_entry_size t → c_wf table_codec t'.
Proof.
  intros (_&Hn&He) <- Ho En Ee. destruct t', t; simpl in *; subst.
  split; [done|]. by split.
Qed.

Lemma finish_header_ok m : serializable m → header_ok sha256 (finish_header sha256 m).
Proof.
  intros Hs. destruct (placed m Hs) as (Ea&Eb&Ec&Ed&E&Hd&Op&Oe&Og&Ob&Hsz).
  destruct (mok_lengths _ (ser_tables _ Hs)) as (Lp & Le & Lg & Lb).
  pose proof (ser_fits _ Hs) as Hfit. rewrite E in Hfit.
  pose proof (zlen_nonneg (m_partitions m)). pose proof (zlen_nonneg (m_extents m)).
  pose proof (zlen_nonneg (m_groups m)). pose proof (zlen_nonneg (m_block_devices m)).
  destruct (ser_wf _ Hs) as [(W1&W2&W3&W4&W5&W6&W7&W8&W9&W10&W11) [W12 W13]].
  destruct (ser_entries _ Hs) as (Sp&Se&Sg&Sb).
  assert (0 ≤ tables_size (finish_header sha256 m) < 2 ^ (8 * Z.of_nat 4)) by (rewrite Hsz; simpl; lia).
  split; try apply Hs.
  - split; [|by split]. do 4 (split; [done|]). split; [apply sha256_length|].
    split; [done|]. split; [apply sha256_length|].
    split; [apply (table_moved _ _ _ W8 Op); [lia|done..]|].
    split; [apply (table_moved _ _ _ W9 Oe); [lia|done..]|].
    split; [apply (table_moved _ _ _ W10 Og); [lia|done..]|].
    apply (table_moved _ _ _ W11 Ob); [lia|done..].
  - done.
  - rewrite !Forall_cons, Op, Oe, Og, Ob, Hsz.
    rewrite (eq_sym Lp : t_num_entries (h_partitions (finish_header sha256 m)) = _),
      (eq_sym Le : t_num_entries (h_extents (finish_header sha256 m)) = _),
      (eq_sym Lg : t_num_entries (h_groups (finish_header sha256 m)) = _),
      (eq_sym Lb : t_num_entries (h_block_devices (finish_header sha256 m)) = _),
      (Sp : t_entry_size (h_partitions (finish_header sha256 m)) = 52),
      (Se : t_entry_size (h_extents (finish_header sha256 m)) = 24),
      (Sg : t_entry_size (h_groups (finish_header sha256 m)) = 48),
      (Sb : t_entry_size (h_block_devices (finish_header sha256 m)) = 64).
    split_and!; [lia..|done].
Qed.

(** A table loop finds the table where the writer placed it. *)
Lemma parse_placed {A} (c : codec A) `{!CodecOk c} v t buf pre post l :
  Forall (c_wf c) l → Forall (λ a, v a = true) l → buf = pre ++ c_array c l ++ post →
  t_offset t = zlen pre → t_num_entries t = zlen l → t_entry_size t = sizeof c →
  parse_entries c v buf (t_offset t) (t_entry_size t) (Z.to_nat (t_num_entries t)) = Ret l.
Proof.
  intros Hwf Hv -> -> -> He. unfold zlen at 2. rewrite Nat2Z.id. by apply parse_entries_array.
Qed.

Lemma parse_tables_written m :
  serializable m →
  parse_tables sha256 (m_geometry m) (finish_header sha256 m) (serialize_tables m) =
  Ret (written m).
Proof.
  intros Hs. destruct (placed m Hs) as (Ea&Eb&Ec&Ed&E&Hd&Op&Oe&Og&Ob&Hsz).
  destruct (mok_lengths _ (ser_tables _ Hs)) as (Lp & Le & Lg & Lb).
  destruct (mok_wf _ (ser_tables _ Hs)) as (Wp & We & Wg & Wb).
  destruct (ser_entries _ Hs) as (Sp&Se&Sg&Sb).
  destruct (mok_super _ (ser_tables _ Hs)) as (super & Hsuper & Hregion).
  set (P := c_array partition_codec (m_partitions m)) in *.
  set (X := c_array extent_codec (m_extents m)) in *.
  set (G := c_array group_codec (m_groups m)) in *.
  set (B := c_array block_device_codec (m_block_devices m)) in *.
  assert (Hb : serialize_tables m = P ++ X ++ G ++ B) by done. rewrite Hb.
  unfold parse_tables. apply bind_Ret. exists (). split.
  { apply require_Ret. by rewrite <- Hb. }
  apply bind_Ret. exists (m_partitions m). split.
  { apply (parse_placed partition_codec _ _ _ [] (X ++ G ++ B)); try done.
    rewrite !Forall_forall in *. intros p Hp.
    destruct (proj1 (Forall_forall _ _) (mok_partitions _ (ser_tables _ Hs)) p Hp) as (?&?&?).
    pose proof (Wp p Hp). apply partition_valid_true; [done|].
    pose proof (ser_fits _ Hs). pose proof (zlen_nonneg (m_partitions m)).
    pose proof (zlen_nonneg (m_groups m)). pose proof (zlen_nonneg (m_block_devices m)).
    pose proof (zlen_nonneg (m_extents m)).
    split_and!; try done; [lia|..].
    - by rewrite <- (Le : _ = t_num_entries (h_extents (finish_header sha256 m))).
    - by rewrite <- (Lg : _ = t_num_entries (h_groups (finish_header sha256 m))). }
  apply bind_Ret. exists (m_extents m). split.
  { apply (parse_placed extent_codec _ _ _ P (G ++ B)); try done; [|by rewrite Oe].
    eapply Forall_impl; [apply (mok_extents _ (ser_tables _ Hs))|].
    intros e He. apply extent_valid_true.
    by rewrite <- (Lb : _ = t_num_entries (h_block_devices (finish_header sha256 m))). }
  apply bind_Ret. exists (m_groups m). split.
  { apply (parse_placed group_codec _ _ _ (P ++ X) B); try done.
    - by apply Forall_true.
    - by rewrite <- (assoc_L (++)).
    - rewrite Og, zlen_app. lia. }
  apply bind_Ret. exists (m_block_devices m). split.
  { apply (parse_placed block_device_codec _ _ _ (P ++ X ++ G) []); try done.
    - by apply Forall_true.
    - by rewrite app_nil_r, <- !(assoc_L (++)).
    - rewrite Ob, !zlen_app. lia. }
  apply bind_Ret. exists super. split; [by apply found_Ret|].
  by rewrite require_True by done.
Qed.

Context {R : Type} `{HR : ReaderLaws R, !ReaderLive R}.

Lemma SerializeMetadata_blob m :
  serializable m →
  SerializeMetadata sha256 m =
  Ret (sub (c_enc header_codec (finish_header sha256 m)) 0 (header_size (m_header m)) ++
       serialize_tables m).
Proof.
  intros Hs. unfold SerializeMetadata. apply bind_Ret. eexists. split; [|done].
  pose proof (hok_wf _ _ (finish_header_ok m Hs)) as Hwf.
  assert (zlen (c_enc header_codec (finish_header sha256 m)) = 256) as Hl.
  { unfold zlen. by rewrite (enc_length (c:=header_codec)). }
  change (header_size (finish_header sha256 m)) with (header_size (m_header m)).
  destruct (expected_struct_size_cases (m_header m)) as [E|E];
    rewrite (ser_size _ Hs), E; apply slice_in; lia.
Qed.

Lemma length_SerializeMetadata m blob :
  SerializeMetadata sha256 m = Ret blob →
  zlen blob = header_size (m_header m) + zlen (serialize_tables m).
Proof.
  unfold SerializeMetadata. intros (hd & Hs & <-%Ret_inj)%bind_Ret.
  apply slice_Ret in Hs as (Hl & _). by rewrite zlen_app, Hl.
Qed.

Lemma ParseMetadata_written m blob (r : R) more :
  serializable m → nothrow_new (zlen (serialize_tables m)) = true →
  SerializeMetadata sha256 m = Ret blob → reader_ok r → avail r = blob ++ more →
  ∃ r', ParseMetadata sha256 nothrow_new (m_geometry m) r = (Ret (written m), r') ∧
        reader_ok r' ∧ avail r' = more.
Proof.
  intros Hs Hnew Hblob Hr Hav. rewrite SerializeMetadata_blob in Hblob by done.
  apply Ret_inj in Hblob as <-. rewrite <- (assoc_L (++)) in Hav.
  destruct (placed m Hs) as (_&_&_&_&E&_&_&_&_&_&Hsz).
  destruct (ReadMetadataHeader_complete sha256 (finish_header sha256 m) r _
              (finish_header_ok m Hs) Hr Hav) as (r1 & E1 & Hr1 & Hav1).
  destruct (read_avail r1 _ _ Hr1 Hav1) as (r2 & E2 & Hr2 & Hav2).
  exists r2. split; [|done]. unfold ParseMetadata.
  rewrite (io_bind_eq _ _ _ _ _ E1). rewrite Hsz, <- E.
  rewrite io_require by apply (ser_fits _ Hs). rewrite io_require by done.
  rewrite (io_bind_eq _ _ _ _ _ E2). unfold lift. by rewrite parse_tables_written.
Qed.

(** What [ParseMetadata] makes of a good header and tables of its size. *)
Lemma ParseMetadata_from geometry h tables more (r : R) :
  header_ok sha256 h → reader_ok r →
  avail r = sub (c_enc header_codec h) 0 (header_size h) ++ tables ++ more →
  zlen tables = tables_size h → tables_size h ≤ metadata_max_size geometry →
  nothrow_new (tables_size h) = true →
  (ParseMetadata sha256 nothrow_new geometry r).1 = parse_tables sha256 geometry h tables.
Proof.
  intros Hh Hr Hav Hlen Hfit Hnew.
  destruct (ReadMetadataHeader_complete sha256 h r _ Hh Hr Hav) as (r1 & E1 & Hr1 & Hav1).
  destruct (read_avail r1 _ _ Hr1 Hav1) as (r2 & E2 & _).
  unfold ParseMetadata. rewrite (io_bind_eq _ _ _ _ _ E1).
  rewrite io_require, io_require by done. rewrite <- Hlen, (io_bind_eq _ _ _ _ _ E2). done.
Qed.

(** A parsed table set can be serialised again, if the entries of its block
    device table have the size of the struct. *)
Lemma parsed_serializable geometry (r r' : R) m :
  reader_ok r → ParseMetadata sha256 nothrow_new geometry r = (Ret m, r') →
  t_entry_size (h_block_devices (m_header m)) = sizeof block_device_codec →
  zlen (serialize_tables m) ≤ metadata_max_size geometry < 2 ^ 32 → serializable m.
Proof.
  intros Hr H Hes Hfit. destruct (ParseMetadata_ok _ _ _ _ _ _ Hr H) as (Hm & Hh & Hg & _).
  rewrite <- Hg in Hfit. by destruct Hh; split.
Qed.
End Stored.

(** ** The geometry *)

Section Geometry.
Context (sha256 : bytes → bytes) (sha256_length : ∀ bs, length (sha256 bs) = 32%nat).

(** [g] with its checksum computed. *)
Definition sealed (g : LpMetadataGeometry) : LpMetadataGeometry :=
  geometry_set_checksum g (sha256 (c_enc geometry_codec (geometry_set_checksum g (zeroes 32)))).

Record geometry_ok (g : LpMetadataGeometry) : Prop := {
  gok_wf : c_wf geometry_codec g;
  gok_magic : g_magic g = LP_METADATA_GEOMETRY_MAGIC;
  gok_size : g_struct_size g = sizeof geometry_codec;
  gok_slots : metadata_slot_count g ≠ 0;
  gok_max : metadata_max_size g mod LP_SECTOR_SIZE = 0;
}.

Lemma sealed_wf g : c_wf geometry_codec g → c_wf geometry_codec (sealed g).
Proof. intros (?&?&?&?&?&?). repeat (split; [done || apply sha256_length|]). done. Qed.

Lemma length_sealed g :
  c_wf geometry_codec g → length (c_enc geometry_codec (sealed g)) = 52%nat.
Proof. intros Hg. by apply (enc_length (c:=geometry_codec)), sealed_wf. Qed.
Lemma SerializeGeometry_sealed g :
  c_wf geometry_codec g →
  SerializeGeometry sha256 g = c_enc geometry_codec (sealed g) ++ zeroes 4044.
Proof.
  intros Hg. pose proof (length_sealed g Hg) as Hl.
  assert (SerializeGeometry sha256 g =
          c_enc geometry_codec (sealed g) ++ zeroes (4096 - length (c_enc geometry_codec (sealed g))))
    as -> by done. by rewrite Hl.
Qed.
Lemma length_SerializeGeometry g :
  c_wf geometry_codec g → zlen (SerializeGeometry sha256 g) = LP_METADATA_GEOMETRY_SIZE.
Proof.
  intros Hg. rewrite SerializeGeometry_sealed, zlen_app by done. unfold zlen.
  by rewrite (length_sealed g Hg).
Qed.

Lemma set_checksum_wf g sum :
  c_wf geometry_codec g → length sum = 32%nat → c_wf geometry_codec (geometry_set_checksum g sum).
Proof. intros (?&?&?&?&?&?) ?. by repeat (split; [done|]). Qed.
Lemma whole_geometry g :
  c_wf geometry_codec g → g_struct_size g = sizeof geometry_codec →
  sub (c_enc geometry_codec g) 0 (g_struct_size g) = c_enc geometry_codec g.
Proof.
  intros Hg ->. unfold sub. rewrite Z2Nat.inj_0, drop_0. apply take_ge.
  rewrite (enc_length (c:=geometry_codec)) by done. unfold sizeof. lia.
Qed.

Lemma ParseGeometry_stored g more :
  geometry_ok g → ParseGeometry sha256 (SerializeGeometry sha256 g ++ more) = Ret (sealed g).
Proof.
  intros Hg. pose proof (sealed_wf g (gok_wf _ Hg)) as Hwf.
  rewrite SerializeGeometry_sealed, <- (assoc_L (++)) by apply Hg. unfold ParseGeometry. apply bind_Ret.
  exists (c_enc geometry_codec (sealed g)). split.
  { assert (sizeof geometry_codec = zlen (c_enc geometry_codec (sealed g))) as ->.
    { unfold zlen. by rewrite (length_sealed g (gok_wf _ Hg)). }
    apply (slice_app_mid []). }
  cbv zeta. rewrite (dec_enc_nil geometry_codec) by done. destruct Hg as [_ Hm Hs Hn Hx].
  set (sg := sealed g) in *.
  assert (g_magic sg = g_magic g ∧ g_struct_size sg = g_struct_size g ∧
    metadata_slot_count sg = metadata_slot_count g ∧ metadata_max_size sg = metadata_max_size g)
    as (E1&E2&E3&E4) by done.
  rewrite E1, E2, E3, E4, Hs.
  do 2 (apply bind_Ret; exists (); split; [by apply require_Ret|]).
  apply bind_Ret; exists (); split; [|by do 3 (apply bind_Ret; exists (); split; [by apply require_Ret|])].
  apply require_Ret. rewrite whole_geometry; [done|by apply set_checksum_wf|by rewrite <- Hs].
Qed.

(** What is accepted as a geometry. *)
Lemma ParseGeometry_ok buffer g :
  ParseGeometry sha256 buffer = Ret g → geometry_ok g ∧ sealed g = g.
Proof.
  intros H. unfold ParseGeometry in H. inv_ret. apply slice_Ret in E as (Hl&_&_&_).
  assert (c_wf geometry_codec (c_dec geometry_codec r)) as Hwf.
  { apply dec_wf. unfold zlen, sizeof in Hl. lia. }
  set (g := c_dec geometry_codec r) in *. clearbody g.
  rewrite whole_geometry in E2 by (done || by apply set_checksum_wf).
  split; [by split|]. unfold sealed. rewrite E2. by destruct g.
Qed.
End Geometry.
