(* ===== verification/LpCrash.v ===== *)
(** * Power loss during [UpdatePartitionTable] ([liblp/writer.cpp])

    Every slot has a primary and a backup copy.  Whatever the call returns, and
    wherever a write stops, one of the two still parses, to the old tables or to
    the new ones; nothing outside the two copies of the slot changes. *)
From S2P Require Import Prelude Bytes LpFormat LpUtility Device LpReader LpWriter LpImage.

(** ** What a write leaves behind *)

(** [c'] is [c] after an attempt to store [blob] at [off] that ended with [r]. *)
Record wrote (off : Z) (blob c c' : bytes) (r : outcome unit) : Prop := {
  wr_len : zlen c' = zlen c;
  wr_other : ∀ o len, 0 ≤ o → 0 ≤ len → o + len ≤ off ∨ off + zlen blob ≤ o →
    sub c' o len = sub c o len;
  wr_done : r = Ret () → sub c' off (zlen blob) = blob;
}.

Lemma wrote_nothing off blob c r : r ≠ Ret () → wrote off blob c c r.
Proof. by split. Qed.

Section Quiet.
Context {D : Type} `{BlockIOLive D}.

(** A call that leaves the contents alone and, if it returns, a position that
    can be read from. *)
Definition quiet {A} (m : IO D A) : Prop := ∀ d r d',
  0 ≤ position d → m d = (r, d') →
  contents d' = contents d ∧ ∀ a, r = Ret a → 0 ≤ position d'.

Lemma quiet_bind {A B} (m : IO D A) (f : A → IO D B) :
  quiet m → (∀ a, quiet (f a)) → quiet (m ≫= f).
Proof.
  intros Hm Hf d r d' Hp E. unfold mbind, io_mbind in E.
  destruct (m d) as [[a| |] d1] eqn:E1; destruct (Hm _ _ _ Hp E1) as [Hc Hr].
  - destruct (Hf a _ _ _ (Hr a eq_refl) E) as [Hc' Hr']. split; [congruence|done].
  - injection E as <- <-. by split.
  - injection E as <- <-. by split.
Qed.
Lemma quiet_lift {A} (m : outcome A) : quiet (lift m).
Proof. intros d r d' Hp [= <- <-]. done. Qed.
Lemma quiet_ret {A} (a : A) : quiet (mret a).
Proof. apply (quiet_lift (Ret a)). Qed.
Lemma quiet_read n : 0 ≤ n → quiet (ReadFully n).
Proof.
  intros Hn d r d' Hp E. destruct (read_law _ _ _ _ E Hp Hn) as (? & _ & Hret).
  split; [done|]. intros bs ->. destruct (Hret bs eq_refl) as (_ & _ & ->). lia.
Qed.

Lemma ReadMetadataHeader_quiet sha256 : quiet (ReadMetadataHeader sha256).
Proof.
  unfold ReadMetadataHeader.
  apply quiet_bind; [apply quiet_read; unfold sizeof; lia|]. intros v1_0.
  do 3 (apply quiet_bind; [apply quiet_lift|]; intros _).
  set (h0 := c_dec header_codec _).
  destruct (decide (header_size h0 = expected_struct_size h0)) as [Es|Es].
  2:{ rewrite require_False by done. apply (quiet_lift Reject). }
  apply quiet_bind; [apply quiet_lift|]; intros _. apply quiet_bind.
  - case_decide; [apply quiet_ret|]. apply quiet_read. rewrite Es.
    change (sizeof header_v1_0_codec) with 128.
    destruct (expected_struct_size_cases h0) as [-> | ->]; lia.
  - intros rest. do 5 (apply quiet_bind; [apply quiet_lift|]; intros _). apply quiet_ret.
Qed.

Lemma ParseMetadata_contents sha256 nothrow_new g d r d' :
  0 ≤ position d ≤ zlen (contents d) → ParseMetadata sha256 nothrow_new g d = (r, d') →
  contents d' = contents d.
Proof.
  intros Hp E. unfold ParseMetadata, mbind at 1, io_mbind at 1 in E.
  destruct (ReadMetadataHeader sha256 d) as [[h| |] d1] eqn:E1;
    destruct (ReadMetadataHeader_quiet _ _ _ _ (proj1 Hp) E1) as [Hc Hr]; [|by simplify_eq..].
  assert (reader_ok d) as Hrd by exact Hp.
  destruct (ReadMetadataHeader_ok sha256 (R:=D) d h d1 Hrd E1) as (Hh & Hok & _).
  pose proof (hok_wf _ _ Hh) as [(_&_&_&_&_&[Hsz _]&_) _].
  assert (quiet (_ ← lift (require (tables_size h ≤ metadata_max_size g));
     _ ← lift (require (nothrow_new (tables_size h) = true));
     buffer ← ReadFully (tables_size h); lift (parse_tables sha256 g h buffer))) as Hq.
  { do 2 (apply quiet_bind; [apply quiet_lift|]; intros _).
    apply quiet_bind; [by apply quiet_read|]. intros. apply quiet_lift. }
  rewrite <- Hc. by apply (Hq d1 r d' (Hr _ eq_refl)).
Qed.

(** A read after a seek. *)
Lemma seek_contents {A} off (m : IO D A) d r d' :
  (∀ d1 r d2, contents d1 = contents d → position d1 = off → m d1 = (r, d2) →
     contents d2 = contents d) →
  (_ ← dev_seek off; m) d = (r, d') → contents d' = contents d.
Proof.
  intros Hm E. unfold mbind, io_mbind in E.
  destruct (dev_seek off d) as [[[]| |] d1] eqn:E1;
    destruct (seek_law _ _ _ _ E1) as (Hc & _ & Hp); [|by simplify_eq..].
  eapply Hm; eauto.
Qed.

Lemma read_contents {A} off n (f : bytes → outcome A) d r d' :
  0 ≤ off → 0 ≤ n → (_ ← dev_seek off; buffer ← dev_read n; lift (f buffer)) d = (r, d') →
  contents d' = contents d.
Proof.
  intros Ho Hn. apply seek_contents. intros d1 r1 d2 <- <- E. unfold mbind, io_mbind in E.
  destruct (dev_read n d1) as [[bs| |] d3] eqn:E1;
    destruct (read_law _ _ _ _ E1 Ho Hn) as (Hc & _ & _);
    unfold lift in E; simplify_eq/=; congruence.
Qed.

Lemma ReadLogicalPartitionGeometry_contents sha256 d r d' :
  ReadLogicalPartitionGeometry sha256 d = (r, d') → contents d' = contents d.
Proof.
  unfold ReadLogicalPartitionGeometry, mbind at 1, io_mbind at 1, try_ at 1.
  destruct (ReadPrimaryGeometry sha256 d) as [[g| |] d1] eqn:E1;
    (apply read_contents in E1; [|done..]); intros E;
    [by injection E as <- <-| |by injection E as <- <-].
  apply read_contents in E; [congruence|done..].
Qed.

Lemma write_at w off blob d r d' :
  writes contents position w → 0 ≤ off → (_ ← dev_seek off; w blob) d = (r, d') →
  r ≠ Crash ∧ wrote off blob (contents d) (contents d') r.
Proof.
  intros Hw Ho E. unfold mbind, io_mbind in E.
  destruct (dev_seek off d) as [[[]| |] d1] eqn:E1;
    destruct (seek_law _ _ _ _ E1) as (Hc & Hnc & Hp).
  - specialize (Hp eq_refl). subst off. destruct (Hw _ _ _ _ E Ho) as (Hcr & st & Hl & Hfit & -> & Hd).
    rewrite Hc in *. split; [done|]. destruct (decide (st = [])) as [->|Hne].
    + unfold overwrite. simpl. rewrite Nat.add_0_r, take_drop. split; [done..|].
      intros Hr. rewrite <- (Hd Hr). done.
    + specialize (Hfit Hne). pose proof (zlen_nonneg st). split.
      * by apply length_overwrite.
      * intros. apply sub_overwrite_other; lia.
      * intros Hr. rewrite (Hd Hr) in *. by apply sub_overwrite_same.
  - simplify_eq. split; [done|]. rewrite Hc. by apply wrote_nothing.
  - done.
Qed.
End Quiet.

(** ** Copies *)

Section Copies.
Context (sha256 : bytes → bytes) (nothrow_new : Z → bool).
Context (sha256_length : ∀ bs, length (sha256 bs) = 32%nat).
Context {D : Type} `{BlockIOLive D}.
Context (g : LpMetadataGeometry).

Abbreviation stored c off m :=
  (ParseMetadata_buffer sha256 nothrow_new g (drop (Z.to_nat off) c) = Ret m).
(** Header and tables of a copy do not reach the next slot. *)
Definition fits_slot (m : LpMetadata) : Prop :=
  header_size (m_header m) + tables_size (m_header m) ≤ metadata_max_size g.

Lemma buffer_reader_ok (buf : bytes) :
  zlen buf < 2 ^ 64 → reader_ok (mkMemoryReader buf 0).
Proof. intros. simpl. pose proof (zlen_nonneg buf). lia. Qed.

Lemma zlen_drop_le {A} n (l : list A) : zlen (drop n l) ≤ zlen l.
Proof. unfold zlen. rewrite length_drop. lia. Qed.

(** What a copy parses to depends on the bytes of its slot. *)
Lemma stored_local c c' off m :
  zlen c < 2 ^ 63 → zlen c' = zlen c → fits_slot m →
  sub c' off (metadata_max_size g) = sub c off (metadata_max_size g) →
  stored c off m → stored c' off m.
Proof.
  intros Hc Hlen Hfit Hsub. unfold ParseMetadata_buffer.
  set (n := metadata_max_size g) in *.
  set (b := drop (Z.to_nat off) c) in *. set (b' := drop (Z.to_nat off) c').
  assert (Hb : reader_ok (mkMemoryReader b 0)).
  { apply buffer_reader_ok. pose proof (zlen_drop_le (Z.to_nat off) c). subst b. lia. }
  assert (Hb' : reader_ok (mkMemoryReader b' 0)).
  { apply buffer_reader_ok. pose proof (zlen_drop_le (Z.to_nat off) c'). subst b'. lia. }
  destruct (ParseMetadata sha256 nothrow_new g (mkMemoryReader b 0)) as [r r1] eqn:E.
  simpl. intros ->.
  destruct (ParseMetadata_ok _ _ _ _ _ _ Hb E) as (_ & _ & _ & _ & Hlen1).
  destruct (ParseMetadata_local (R1:=MemoryReader) (R2:=MemoryReader) _ _ _ _ _ _ Hb E)
    as (_ & used & Hav & Hall).
  rewrite Hav, zlen_app in Hlen1.
  assert (Hb2 : b' = used ++ drop (length used) b').
  { rewrite <- (take_drop (length used) b') at 1. f_equal.
    assert (Hu : (length used ≤ Z.to_nat n)%nat) by (unfold fits_slot, zlen in *; lia).
    assert (Hs : take (Z.to_nat n) b' = take (Z.to_nat n) b) by exact Hsub.
    apply (f_equal (take (length used))) in Hs. rewrite !take_take, !Nat.min_l in Hs by lia.
    rewrite Hs. change b with (drop 0 b). change (drop 0 b) with (avail (mkMemoryReader b 0)).
    rewrite Hav. apply take_app_length. }
  destruct (Hall (mkMemoryReader b' 0) _ Hb' Hb2) as (r2 & -> & _). done.
Qed.

Lemma buffer_returned buf m :
  ParseMetadata_buffer sha256 nothrow_new g buf = Ret m →
  ∃ r1, ParseMetadata sha256 nothrow_new g (mkMemoryReader buf 0) = (Ret m, r1).
Proof.
  unfold ParseMetadata_buffer. destruct (ParseMetadata _ _ _ _) as [r r1]. simpl. intros ->. eauto.
Qed.

(** Reading a copy from the device. *)
Lemma read_copy_spec off d r d' :
  0 ≤ off ≤ zlen (contents d) → zlen (contents d) < 2 ^ 63 →
  (_ ← dev_seek off; ParseMetadata sha256 nothrow_new g) d = (r, d') →
  contents d' = contents d ∧ ∀ m, r = Ret m ↔ stored (contents d) off m.
Proof.
  intros Hoff Hlen E.
  destruct (seek_live off d Hoff) as (d1 & E1).
  destruct (seek_law _ _ _ _ E1) as (Hc & _ & Hp). specialize (Hp eq_refl).
  rewrite (io_bind_eq _ _ _ _ _ E1) in E.
  assert (reader_ok d1) as Hok by (simpl; rewrite Hc, Hp; lia).
  assert (Hb : reader_ok (mkMemoryReader (drop (Z.to_nat off) (contents d)) 0)).
  { apply buffer_reader_ok. pose proof (zlen_drop_le (Z.to_nat off) (contents d)). lia. }
  split.
  { rewrite <- Hc. eapply ParseMetadata_contents; [|done]. rewrite Hc, Hp. lia. }
  intros m. split.
  - intros ->. destruct (ParseMetadata_local (R1:=D) (R2:=MemoryReader) _ _ _ _ _ _ Hok E)
      as (_ & used & Hav & Hall).
    destruct (Hall (mkMemoryReader (drop (Z.to_nat off) (contents d)) 0) (avail d') Hb)
      as (r2 & Er & _); [|by apply (f_equal fst) in Er].
    rewrite <- Hav. simpl. by rewrite Hc, Hp.
  - intros Hst. destruct (buffer_returned _ _ Hst) as [r1 Em].
    destruct (ParseMetadata_local (R1:=MemoryReader) (R2:=D) _ _ _ _ _ _ Hb Em)
      as (_ & used & Hav & Hall).
    destruct (Hall d1 (avail r1) Hok) as (r2 & Er & _); [|congruence].
    rewrite <- Hav. simpl. by rewrite Hc, Hp.
Qed.

(** A complete write of a serialised table set can be parsed. *)
Lemma stored_written m blob c c' off :
  serializable m → m_geometry m = g → nothrow_new (zlen (serialize_tables m)) = true →
  SerializeMetadata sha256 m = Ret blob → zlen c < 2 ^ 63 → wrote off blob c c' (Ret ()) →
  stored c' off (written sha256 m).
Proof.
  intros Hs Hg Hnew Hblob Hc [Hlen _ Hd]. specialize (Hd eq_refl). unfold ParseMetadata_buffer.
  assert (Hb : reader_ok (mkMemoryReader (drop (Z.to_nat off) c') 0)).
  { apply buffer_reader_ok. pose proof (zlen_drop_le (Z.to_nat off) c'). lia. }
  destruct (ParseMetadata_written sha256 nothrow_new sha256_length m blob
    (mkMemoryReader (drop (Z.to_nat off) c') 0) (drop (length blob) (drop (Z.to_nat off) c')))
    as (r' & E & _); [done..| |subst g; by rewrite E].
  change (drop (Z.to_nat off) c' = blob ++ drop (length blob) (drop (Z.to_nat off) c')).
  rewrite <- (take_drop (length blob) (drop (Z.to_nat off) c')) at 1. f_equal.
  rewrite <- Hd at 2. unfold sub, zlen. by rewrite Nat2Z.id.
Qed.

(** A stored copy can be serialised again. *)
Lemma stored_serializable c off m blob :
  zlen c < 2 ^ 63 → metadata_max_size g < 2 ^ 32 →
  stored c off m → t_entry_size (h_block_devices (m_header m)) = sizeof block_device_codec →
  SerializeMetadata sha256 m = Ret blob → zlen blob ≤ metadata_max_size g →
  serializable m ∧ m_geometry m = g.
Proof.
  intros Hc Hmax. unfold ParseMetadata_buffer.
  destruct (ParseMetadata sha256 nothrow_new g _) as [r r1] eqn:E. simpl. intros -> He Hblob Hfit.
  assert (Hb : reader_ok (mkMemoryReader (drop (Z.to_nat off) c) 0)).
  { apply buffer_reader_ok. pose proof (zlen_drop_le (Z.to_nat off) c). lia. }
  destruct (ParseMetadata_ok _ _ _ _ _ _ Hb E) as (_ & Hh & Hg & _ & _).
  split; [|done]. eapply (parsed_serializable sha256 nothrow_new g); [exact Hb|exact E|done|].
  rewrite (length_SerializeMetadata _ _ _ Hblob) in Hfit.
  pose proof (hok_size _ _ Hh) as Hsz.
  destruct (expected_struct_size_cases (m_header m)); lia.
Qed.
End Copies.

(** ** Updating a slot *)

Section Update.
Context (sha256 : bytes → bytes) (nothrow_new : Z → bool) (android : bool).
Context (sha256_length : ∀ bs, length (sha256 bs) = 32%nat).
Context {D : Type} `{BlockIOLive D}.
Context (opener : @IPartitionOpener D) (writer : bytes → IO D unit).
Context (writer_ok : writes contents position writer).
Context (m : LpMetadata) (slot_number : Z).

Abbreviation g := (m_geometry m).
Abbreviation max_size := (metadata_max_size g).
Abbreviation stored c off m := 
  (ParseMetadata_buffer sha256 nothrow_new g (drop (Z.to_nat off) c) = Ret m).

(** The metadata region, whose offsets do not wrap around. *)
Definition region_end : Z := 12288 + 2 * (max_size * metadata_slot_count g).
Context (slot_ok : 0 ≤ slot_number < metadata_slot_count g).
Context (max_size_ok : 0 ≤ max_size) (region_ok : region_end < 2 ^ 32).
Context (nothrow_ok : ∀ n, n ≤ max_size → nothrow_new n = true).
Context (m_ok : serializable m).

Definition primary_at : Z := 12288 + max_size * slot_number.
Definition backup_at : Z := 12288 + max_size * metadata_slot_count g + max_size * slot_number.

Lemma slots_bounds :
  12288 ≤ primary_at ∧ primary_at + max_size ≤ backup_at ∧ backup_at + max_size ≤ region_end.
Proof. unfold primary_at, backup_at, region_end. nia. Qed.

Lemma GetPrimaryMetadataOffset_at : GetPrimaryMetadataOffset g slot_number = Ret primary_at.
Proof.
  pose proof slots_bounds as (?&?&?). unfold GetPrimaryMetadataOffset.
  rewrite CHECK_True by lia. simpl. f_equal.
  rewrite (u32_small (max_size * slot_number)) by (unfold primary_at in *; nia).
  change (LP_PARTITION_RESERVED_BYTES + LP_METADATA_GEOMETRY_SIZE * 2) with 12288.
  by apply u32_small; fold primary_at; lia.
Qed.
Lemma GetBackupMetadataOffset_at : GetBackupMetadataOffset g slot_number = Ret backup_at.
Proof.
  pose proof slots_bounds as (?&?&?). unfold GetBackupMetadataOffset.
  rewrite CHECK_True by lia. simpl. f_equal.
  change (LP_PARTITION_RESERVED_BYTES + LP_METADATA_GEOMETRY_SIZE * 2) with 12288.
  unfold primary_at, backup_at, region_end in *.
  rewrite (u32_small (max_size * slot_number)) by nia.
  rewrite (i64_small (max_size * _)) by nia. rewrite (i64_small (12288 + _)) by nia.
  rewrite i64_small by nia. done.
Qed.

(** A write of a blob to one of the two copies. *)
Lemma write_copy at_ (check : bool) blob d r d' :
  0 ≤ at_ →
  (offset ← lift (Ret at_); _ ← lift (require (check = true)); _ ← dev_seek offset; writer blob) d
    = (r, d') →
  r ≠ Crash ∧ wrote at_ blob (contents d) (contents d') r.
Proof.
  intros Hat E. rewrite (io_bind_eq _ _ _ at_ d) in E by done.
  destruct (decide (check = true)) as [Hc|Hc].
  - rewrite io_require in E by done. by apply write_at in E.
  - unfold mbind, io_mbind, lift in E. rewrite require_False in E by done. simplify_eq.
    split; [done|by apply wrote_nothing].
Qed.
Lemma WritePrimaryMetadata_wrote blob d r d' :
  WritePrimaryMetadata m slot_number blob writer d = (r, d') →
  r ≠ Crash ∧ wrote primary_at blob (contents d) (contents d') r.
Proof.
  unfold WritePrimaryMetadata. rewrite GetPrimaryMetadataOffset_at.
  apply write_copy. pose proof slots_bounds. lia.
Qed.
Lemma WriteBackupMetadata_wrote blob d r d' :
  WriteBackupMetadata m slot_number blob writer d = (r, d') →
  r ≠ Crash ∧ wrote backup_at blob (contents d) (contents d') r.
Proof.
  unfold WriteBackupMetadata. rewrite GetBackupMetadataOffset_at.
  apply write_copy. pose proof slots_bounds. lia.
Qed.

(** The device before the update. *)
Context (c0 : bytes) (c0_len : region_end ≤ zlen c0 < 2 ^ 63).

Definition same_tables (a b : LpMetadata) : Prop :=
  m_partitions a = m_partitions b ∧ m_extents a = m_extents b ∧ m_groups a = m_groups b ∧
  m_block_devices a = m_block_devices b.
(** A copy that holds the old or the new tables. *)
Definition good (c : bytes) (off : Z) : Prop :=
  ∃ m' m1, stored c off m' ∧ fits_slot g m' ∧ same_tables m' m1 ∧
    (m1 = m ∨ stored c0 primary_at m1 ∨ stored c0 backup_at m1).
(** The copies that were there stay in their slots and have block device
    entries of the size this version writes. *)
Definition old_ok (off : Z) : Prop := ∀ mo, stored c0 off mo →
  fits_slot g mo ∧ t_entry_size (h_block_devices (m_header mo)) = sizeof block_device_codec.
Context (old_primary_ok : old_ok primary_at) (old_backup_ok : old_ok backup_at).

(** [c] differs from [c0] inside the two copies only. *)
Record within (c : bytes) : Prop := {
  wi_len : zlen c = zlen c0;
  wi_other : ∀ o len, 0 ≤ o → 0 ≤ len →
    o + len ≤ primary_at ∨ primary_at + max_size ≤ o →
    o + len ≤ backup_at ∨ backup_at + max_size ≤ o → sub c o len = sub c0 o len;
}.

Lemma within_wrote off blob c c' r :
  off = primary_at ∨ off = backup_at → zlen blob ≤ max_size →
  within c → wrote off blob c c' r → within c'.
Proof.
  intros Hoff Hb [Hlen Ho] [Hlen' Ho' _]. split; [congruence|].
  intros o len ????. rewrite Ho' by lia. by apply Ho.
Qed.

(** A write to one copy leaves the other alone. *)
Lemma good_other off other blob c c' r :
  (off = primary_at ∧ other = backup_at ∨ off = backup_at ∧ other = primary_at) →
  zlen blob ≤ max_size → within c → wrote off blob c c' r → good c other → good c' other.
Proof.
  intros Hoff Hb [Hlen _] [Hlen' Ho _] (m' & m1 & Hst & Hfit & Hrest).
  exists m', m1. split; [|done]. pose proof slots_bounds.
  eapply (stored_local sha256 nothrow_new g c); [lia|done|done| |done].
  apply Ho; lia.
Qed.

Lemma written_fits m1 blob :
  serializable m1 → SerializeMetadata sha256 m1 = Ret blob → zlen blob ≤ max_size →
  fits_slot g (written sha256 m1) ∧ zlen (serialize_tables m1) ≤ max_size.
Proof.
  intros Hs Hblob Hfit. pose proof (length_SerializeMetadata _ _ _ Hblob) as Hl.
  assert (0 ≤ header_size (m_header m1)).
  { rewrite (ser_size _ Hs). destruct (expected_struct_size_cases (m_header m1)); lia. }
  split; [|lia]. unfold fits_slot.
  destruct (placed sha256 m1 Hs) as (_&_&_&_&E&_&_&_&_&_&Hsz).
  rewrite (Hsz : tables_size (m_header (written sha256 m1)) = _), <- E.
  change (header_size (m_header (written sha256 m1))) with (header_size (m_header m1)). lia.
Qed.

(** Where a valid table set was stored there is a good copy. *)
Lemma good_stored m1 blob off c c' :
  serializable m1 → m_geometry m1 = g →
  (m1 = m ∨ stored c0 primary_at m1 ∨ stored c0 backup_at m1) →
  SerializeMetadata sha256 m1 = Ret blob → zlen blob ≤ max_size →
  within c → wrote off blob c c' (Ret ()) →
  good c' off ∧ stored c' off (written sha256 m1).
Proof.
  intros Hs Hg Hm1 Hblob Hfit Hc Hw.
  destruct (written_fits m1 blob Hs Hblob Hfit) as [Hslot Htab].
  assert (stored c' off (written sha256 m1)) as Hst.
  { eapply (stored_written sha256 nothrow_new sha256_length g m1); try done.
    - by apply nothrow_ok.
    - rewrite (wi_len _ Hc). lia. }
  split; [|done]. by exists (written sha256 m1), m1.
Qed.

Lemma ValidateAndSerializeMetadata_blob m1 suffix blob :
  ValidateAndSerializeMetadata sha256 android opener m1 suffix = Ret blob →
  SerializeMetadata sha256 m1 = Ret blob ∧ zlen blob ≤ metadata_max_size (m_geometry m1).
Proof. intros H'. unfold ValidateAndSerializeMetadata in H'. inv_ret. done. Qed.

Lemma within_refl : within c0.
Proof. by split. Qed.

Lemma good_old off m1 :
  off = primary_at ∨ off = backup_at → stored c0 off m1 → good c0 off.
Proof.
  intros Hoff Hst. exists m1, m1. split_and!; [done| |done|destruct Hoff as [-> | ->]; auto].
  destruct Hoff as [-> | ->]; [by apply old_primary_ok|by apply old_backup_ok].
Qed.

(** The write of one copy's tables over the other. *)
Lemma resync m1 suffix off other (write : bytes → IO D unit) d r d' :
  (off = primary_at ∧ other = backup_at ∨ off = backup_at ∧ other = primary_at) →
  (∀ blob d r d', write blob d = (r, d') → r ≠ Crash ∧ wrote off blob (contents d) (contents d') r) →
  contents d = c0 → stored c0 other m1 →
  (old_blob ← lift (ValidateAndSerializeMetadata sha256 android opener m1 suffix);
   write old_blob) d = (r, d') →
  within (contents d') ∧ good (contents d') other ∧ (r = Ret () → good (contents d') off).
Proof.
  intros Hoff Hw Hd Hst E.
  assert (good c0 other) as Hgood by (apply (good_old other m1); [tauto|done]).
  unfold mbind, io_mbind, lift in E.
  destruct (ValidateAndSerializeMetadata _ _ _ _ _) as [blob| |] eqn:Ev;
    [|by injection E as <- <-; rewrite Hd; split_and!; [apply within_refl| |]..].
  destruct (Hw _ _ _ _ E) as [_ Hwr]. rewrite Hd in Hwr.
  destruct (ValidateAndSerializeMetadata_blob _ _ _ Ev) as [Hblob Hfit].
  assert (old_ok other) as Hold by (destruct Hoff as [[_ ->]|[_ ->]]; done).
  destruct (Hold _ Hst) as [Hslot Hes].
  pose proof slots_bounds as (?&?&?).
  assert (m_geometry m1 = g) as Hgeo.
  { destruct (buffer_returned _ _ _ _ _ Hst) as [r1 Em].
    eapply (ParseMetadata_ok sha256 nothrow_new) in Em; [by destruct Em as (_&_&?&_)|].
    apply buffer_reader_ok. pose proof (zlen_drop_le (Z.to_nat other) c0). lia. }
  rewrite Hgeo in Hfit.
  destruct (stored_serializable sha256 nothrow_new g c0 other m1 blob) as [Hs _];
    [lia|unfold region_end in *; nia|done..|].
  split_and!.
  - apply (within_wrote off blob c0 _ r); [tauto|done|apply within_refl|done].
  - apply (good_other off other blob c0 _ r); [done|done|apply within_refl|done|done].
  - intros ->. eapply (good_stored m1 blob off c0); try done.
    destruct Hoff as [[_ ->]|[_ ->]]; auto.
Qed.

Lemma sync_good suffix p b d r d' :
  contents d = c0 →
  (∀ mo, p = Some mo ↔ stored c0 primary_at mo) →
  (∀ mo, b = Some mo ↔ stored c0 backup_at mo) →
  p ≠ None ∨ b ≠ None →
  sync_copies sha256 android opener m slot_number suffix writer p b d = (r, d') →
  within (contents d') ∧ (good (contents d') primary_at ∨ good (contents d') backup_at) ∧
  (r = Ret () → good (contents d') primary_at ∧ good (contents d') backup_at).
Proof.
  intros Hd Hp Hb Hany E. unfold sync_copies in E.
  destruct p as [p|], b as [b|]; [case_match| | |by destruct Hany].
  - injection E as <- <-. rewrite Hd. pose proof (proj1 (Hp _) eq_refl) as Hp1.
    pose proof (proj1 (Hb _) eq_refl) as Hb1.
    assert (good c0 primary_at) by (apply (good_old _ p); auto).
    assert (good c0 backup_at) by (apply (good_old _ b); auto).
    split_and!; [apply within_refl|auto..].
  - eapply (resync p suffix backup_at primary_at) in E as (?&?&?);
      [auto|auto|apply WriteBackupMetadata_wrote|done|by apply Hp].
  - eapply (resync p suffix backup_at primary_at) in E as (?&?&?);
      [auto|auto|apply WriteBackupMetadata_wrote|done|by apply Hp].
  - eapply (resync b suffix primary_at backup_at) in E as (?&?&?);
      [auto|auto|apply WritePrimaryMetadata_wrote|done|by apply Hb].
Qed.

Lemma WriteMetadata_good blob d r d' :
  SerializeMetadata sha256 m = Ret blob → zlen blob ≤ max_size → within (contents d) →
  good (contents d) primary_at → good (contents d) backup_at →
  WriteMetadata m slot_number blob writer d = (r, d') →
  r ≠ Crash ∧ within (contents d') ∧
  (good (contents d') primary_at ∨ good (contents d') backup_at) ∧
  (r = Ret () → stored (contents d') primary_at (written sha256 m) ∧
                stored (contents d') backup_at (written sha256 m)).
Proof.
  intros Hblob Hfit Hin Hp Hb E. unfold WriteMetadata in E.
  rewrite io_require in E by lia. unfold mbind, io_mbind in E.
  destruct (WritePrimaryMetadata m slot_number blob writer d) as [r1 d1] eqn:E1.
  destruct (WritePrimaryMetadata_wrote _ _ _ _ E1) as [Hc1 W1].
  assert (within (contents d1)) as Hin1 by (apply (within_wrote primary_at blob (contents d) _ r1); auto).
  assert (good (contents d1) backup_at) as Hb1.
  { apply (good_other primary_at backup_at blob (contents d) _ r1); auto. }
  destruct r1 as [[]| |]; [|injection E as <- <-; split_and!; first [done|by auto]|done].
  destruct (WriteBackupMetadata_wrote _ _ _ _ E) as [Hc2 W2].
  assert (within (contents d')) as Hin2 by (apply (within_wrote backup_at blob (contents d1) _ r); auto).
  destruct (good_stored m blob primary_at _ _ m_ok eq_refl (or_introl eq_refl) Hblob Hfit Hin W1)
    as [Hp1 Hst1].
  split_and!; [done|done|left; apply (good_other backup_at primary_at blob (contents d1) _ r); auto|].
  intros ->.
  destruct (good_stored m blob backup_at _ _ m_ok eq_refl (or_introl eq_refl) Hblob Hfit Hin1 W2)
    as [_ Hst2].
  split; [|done].
  pose proof slots_bounds as (?&?&?). destruct (written_fits m blob) as (Hslot & _); [done..|].
  eapply (stored_local sha256 nothrow_new g (contents d1)); [|apply W2|done| |exact Hst1].
  - rewrite (wi_len _ Hin1). lia.
  - apply (wr_other _ _ _ _ _ W2); lia.
Qed.

(** A call that stopped before its first write. *)
Lemma untouched :
  (∃ mo, stored c0 primary_at mo ∨ stored c0 backup_at mo) →
  within c0 ∧ (good c0 primary_at ∨ good c0 backup_at).
Proof.
  intros [mo Hmo]. split; [apply within_refl|].
  destruct Hmo; [left|right]; apply (good_old _ mo); auto.
Qed.

(** What the update sees of a copy. *)
Lemma try_copy at_ d r d' :
  0 ≤ at_ ≤ region_end → contents d = c0 →
  try_ (offset ← lift (Ret at_); _ ← dev_seek offset; ParseMetadata sha256 nothrow_new g) d
    = (r, d') →
  contents d' = c0 ∧ (r = Crash ∨ ∃ o, r = Ret o ∧ ∀ mo, o = Some mo ↔ stored c0 at_ mo).
Proof.
  intros Hat Hd. unfold try_.
  match goal with |- context [match ?m d with _ => _ end] => destruct (m d) as [r1 d1] eqn:E1 end.
  intros E.
  rewrite (io_bind_eq _ _ _ at_ d) in E1 by done.
  eapply (read_copy_spec sha256 nothrow_new) in E1 as [Hc Hm]; [|rewrite Hd; lia..].
  rewrite Hd in Hc, Hm.
  destruct r1 as [m1| |]; injection E as <- <-; (split; [done|]); [right|right|by left].
  - exists (Some m1). split; [done|]. intros mo. rewrite <- Hm. split; congruence.
  - exists None. split; [done|]. intros mo. by rewrite <- Hm.
Qed.

Lemma UpdatePartitionTable_good d r d' :
  contents d = c0 → (∃ mo, stored c0 primary_at mo ∨ stored c0 backup_at mo) →
  UpdatePartitionTable_fd sha256 nothrow_new android opener m slot_number writer d = (r, d') →
  within (contents d') ∧ (good (contents d') primary_at ∨ good (contents d') backup_at) ∧
  (r = Ret () → stored (contents d') primary_at (written sha256 m) ∧
                stored (contents d') backup_at (written sha256 m)).
Proof.
  intros Hd Hany E. pose proof slots_bounds as (?&?&?). 
  destruct (untouched Hany) as [Hin0 Hg0].
  unfold UpdatePartitionTable_fd in E.
  unfold mbind at 1, io_mbind at 1, lift at 1 in E.
  destruct (SlotSuffixForSlotNumber slot_number) as [suffix| |];
    [|injection E as <- <-; rewrite Hd; by split_and!..].
  unfold mbind at 1, io_mbind at 1, lift at 1 in E.
  destruct (ValidateAndSerializeMetadata _ _ _ _ _) as [blob| |] eqn:Ev;
    [|injection E as <- <-; rewrite Hd; by split_and!..].
  destruct (ValidateAndSerializeMetadata_blob _ _ _ Ev) as [Hblob Hfit].
  unfold mbind at 1, io_mbind at 1 in E.
  destruct (ReadLogicalPartitionGeometry sha256 d) as [rg d1] eqn:Eg.
  apply ReadLogicalPartitionGeometry_contents in Eg. rewrite Hd in Eg.
  destruct rg as [old_geometry| |]; [|injection E as <- <-; rewrite Eg; by split_and!..].
  unfold mbind at 1, io_mbind at 1, lift at 1 in E. unfold require at 1 in E.
  case_decide; [|injection E as <- <-; rewrite Eg; by split_and!].
  rewrite io_require in E by lia.
  unfold ReadPrimaryMetadata, ReadBackupMetadata in E.
  rewrite GetPrimaryMetadataOffset_at, GetBackupMetadataOffset_at in E.
  unfold mbind at 1, io_mbind at 1 in E.
  destruct (try_ _ d1) as [r1 d2] eqn:E1.
  apply try_copy in E1 as [Ed2 [-> | (p & -> & Hp)]];
    [injection E as <- <-; rewrite Ed2; by split_and!| |lia|done].
  unfold mbind at 1, io_mbind at 1 in E.
  destruct (try_ _ d2) as [r2 d3] eqn:E2.
  apply try_copy in E2 as [Ed3 [-> | (b & -> & Hb)]];
    [injection E as <- <-; rewrite Ed3; by split_and!| |lia|done].
  unfold mbind at 1, io_mbind at 1 in E.
  destruct (sync_copies _ _ _ _ _ _ _ _ _ d3) as [r3 d4] eqn:E3.
  apply sync_good in E3 as (Hin & Hone & Hboth); [|done..|].
  - destruct r3 as [[]| |]; [|injection E as <- <-; by split_and!..].
    destruct (Hboth eq_refl). by eapply WriteMetadata_good in E as (_&?&?&?).
  - destruct Hany as [mo [Hmo|Hmo]]; [left|right].
    + apply Hp in Hmo. congruence.
    + apply Hb in Hmo. congruence.
Qed.
End Update.

(** ** Reading a slot back *)

Section ReadBack.
Context (sha256 : bytes → bytes) (nothrow_new : Z → bool).
Context {D : Type} `{BlockIOLive D}.

(** What the copy at [off] of the contents [c] parses to. *)
Definition copy_at (g : LpMetadataGeometry) (c : bytes) (off : Z) : outcome LpMetadata :=
  ParseMetadata_buffer sha256 nothrow_new g (drop (Z.to_nat off) c).

(** The first copy that parses is the result. *)
Lemma read_first_copy_spec g offs d r d' :
  Forall (λ off, 0 ≤ off ≤ zlen (contents d)) offs → zlen (contents d) < 2 ^ 63 →
  read_first_copy sha256 nothrow_new g offs d = (r, d') → r ≠ Crash →
  ∀ pre off post m, offs = pre ++ off :: post →
  Forall (λ o, ∀ m, copy_at g (contents d) o ≠ Ret m) pre →
  copy_at g (contents d) off = Ret m → r = Ret m.
Proof.
  intros Hin Hlen E Hr pre. revert offs d Hin Hlen E.
  induction pre as [|o pre IH]; intros offs d Hin Hlen E off post m -> Hpre Hm;
    simpl in *; inversion_clear Hin; unfold mbind at 1, io_mbind at 1, try_ at 1 in E.
  - match type of E with context [match ?x d with _ => _ end] =>
      destruct (x d) as [r1 d1] eqn:E1 end.
    eapply read_copy_spec in E1 as [Hc Hr1]; [|done..].
    apply Hr1 in Hm as ->. by injection E as <- _.
  - match type of E with context [match ?x d with _ => _ end] =>
      destruct (x d) as [r1 d1] eqn:E1 end.
    eapply read_copy_spec in E1 as [Hc Hr1]; [|done..].
    inversion_clear Hpre as [|? ? Ho Hpre'].
    destruct r1 as [m1| |].
    + destruct (Ho m1). by apply Hr1.
    + rewrite <- Hc in *. by eapply IH.
    + by injection E as <- _.
Qed.
End ReadBack.
