(* ===== verification/LpExtent.v ===== *)
(** * Extents, intervals and partitions ([liblp/builder.h], [liblp/builder.cpp])

    The target of a run of sectors, a region of a device, and a partition as a
    list of extents with its size in bytes.  [resolve] is the meaning of an
    extent list: the sector of a device that holds a logical sector. *)
From S2P Require Import Prelude Bytes LpFormat LpUtility Device.

(** ** Data *)

(** [liblp/include/liblp/builder.h:51-107 Extent, LinearExtent, ZeroExtent] *)
Inductive Extent :=
| LinearExtent (num_sectors device_index physical_sector : Z)
| ZeroExtent (num_sectors : Z).

(** [liblp/include/liblp/builder.h:63-63 Extent::num_sectors] *)
Definition num_sectors (e : Extent) : Z :=
  match e with LinearExtent n _ _ => n | ZeroExtent n => n end.
(** [liblp/include/liblp/builder.h:64-64 Extent::set_num_sectors] *)
Definition set_num_sectors (e : Extent) (n : Z) : Extent :=
  match e with LinearExtent _ d s => LinearExtent n d s | ZeroExtent _ => ZeroExtent n end.
(** [liblp/include/liblp/builder.h:85-85 LinearExtent::end_sector] *)
Definition end_sector (num physical_sector : Z) : Z := u64 (physical_sector + num).

(** [liblp/include/liblp/builder.h:169-193 Interval] *)
Record Interval := mkInterval {
  device_index : Z;
  iv_start : Z;
  iv_end : Z;
}.
(** [liblp/include/liblp/builder.h:176-176 Interval::length] *)
Definition iv_length (i : Interval) : Z := u64 (iv_end i - iv_start i).
(** [liblp/include/liblp/builder.h:180-182 Interval::operator<] *)
Definition iv_lt (a b : Interval) : bool :=
  if decide (iv_start a = iv_start b) then bool_decide (iv_end a < iv_end b)
  else bool_decide (iv_start a < iv_start b).

(** [liblp/include/liblp/builder.h:109-124 PartitionGroup] *)
Record PartitionGroup := mkPartitionGroup {
  pg_name : bytes;
  pg_maximum_size : Z;
}.

(** [liblp/include/liblp/builder.h:126-164 Partition] *)
Record Partition := mkLpPartition {
  pt_name : bytes;
  pt_group_name : bytes;
  pt_extents : list Extent;
  pt_attributes : Z;
  pt_size : Z;
}.

#[export] Instance Extent_eq_dec : EqDecision Extent.
Proof. solve_decision. Defined.
#[export] Instance Interval_eq_dec : EqDecision Interval.
Proof. solve_decision. Defined.
#[export] Instance PartitionGroup_eq_dec : EqDecision PartitionGroup.
Proof. solve_decision. Defined.
#[export] Instance Partition_eq_dec : EqDecision Partition.
Proof. solve_decision. Defined.

(** ** Extents *)

(** The entry an extent becomes in a table over [n] block devices.
    [liblp/builder.cpp:50-58 LinearExtent::AddTo] *)
Definition AddTo (n : Z) (e : Extent) : outcome LpMetadataExtent :=
  match e with
  | LinearExtent num d s =>
      if decide (n ≤ d) then Reject else Ret (mkExtent num LP_TARGET_TYPE_LINEAR s d)
  | ZeroExtent num => Ret (mkExtent num LP_TARGET_TYPE_ZERO 0 0)
  end.
(** [liblp/builder.cpp:60-69 LinearExtent::operator==] *)
Definition extent_eqb (a b : Extent) : bool :=
  match a, b with
  | LinearExtent n d s, LinearExtent n' d' s' =>
      bool_decide (n = n') && bool_decide (s = s') && bool_decide (d = d')
  | ZeroExtent n, ZeroExtent n' => bool_decide (n = n')
  | _, _ => false
  end.
(** Two linear extents.
    [liblp/builder.cpp:71-76 LinearExtent::OverlapsWith(LinearExtent)] *)
Definition OverlapsWith (a b : Extent) : bool :=
  match a, b with
  | LinearExtent n d s, LinearExtent n' d' s' =>
      bool_decide (d = d') && bool_decide (s < end_sector n' s') &&
      bool_decide (s' < end_sector n s)
  | _, _ => false
  end.
(** [liblp/builder.cpp:78-83 LinearExtent::OverlapsWith(Interval)] *)
Definition OverlapsWith_interval (a : Extent) (i : Interval) : bool :=
  match a with
  | LinearExtent n d s =>
      bool_decide (d = device_index i) && bool_decide (s < iv_end i) &&
      bool_decide (iv_start i < end_sector n s)
  | _ => false
  end.
(** [liblp/builder.cpp:85-87 LinearExtent::AsInterval] *)
Definition AsInterval (e : Extent) : option Interval :=
  match e with
  | LinearExtent n d s => Some (mkInterval d s (end_sector n s))
  | ZeroExtent _ => None
  end.
(** [liblp/builder.cpp:696-698 Interval::AsExtent] *)
Definition AsExtent (i : Interval) : Extent :=
  LinearExtent (iv_length i) (device_index i) (iv_start i).

(** [liblp/builder.cpp:673-682 Interval::Intersect(Interval, Interval)] *)
Definition Intersect (a b : Interval) : Interval :=
  if decide (device_index a = device_index b) then
    let start := iv_start a `max` iv_start b in
    mkInterval (device_index a) start (start `max` (iv_end a `min` iv_end b))
  else mkInterval (device_index a) (iv_start a) (iv_start a).
(** [liblp/builder.cpp:684-694 Interval::Intersect(vector, vector)] *)
Definition Intersect_list (a b : list Interval) : list Interval :=
  a ≫= λ x, b ≫= λ y,
    let i := Intersect x y in if decide (0 < iv_length i) then [i] else [].

(** ** Partitions *)

Definition pt_with (p : Partition) (es : list Extent) (size : Z) : Partition :=
  mkLpPartition (pt_name p) (pt_group_name p) es (pt_attributes p) size.

(** [liblp/builder.cpp:98-99 Partition::Partition, constructor] *)
Definition NewPartition (name group_name : bytes) (attributes : Z) : Partition :=
  mkLpPartition name group_name [] attributes 0.

(** The list after [e] is appended, merged with the last extent if it follows
    it on the same device.
    [liblp/builder.cpp:104-118 Partition::AddExtent, merging] *)
Definition push_extent (es : list Extent) (e : Extent) : list Extent :=
  match e, list.last es with
  | LinearExtent n d s, Some (LinearExtent n' d' s') =>
      if decide (end_sector n' s' = s ∧ d' = d)
      then removelast es ++ [LinearExtent (u64 (n' + n)) d' s']
      else es ++ [e]
  | _, _ => es ++ [e]
  end.
(** [liblp/builder.cpp:101-119 Partition::AddExtent] *)
Definition AddExtent (p : Partition) (e : Extent) : Partition :=
  pt_with p (push_extent (pt_extents p) e)
    (u64 (pt_size p + u64 (num_sectors e * LP_SECTOR_SIZE))).
(** [liblp/builder.cpp:121-124 Partition::RemoveExtents] *)
Definition RemoveExtents (p : Partition) : Partition := pt_with p [] 0.

(** The loop of [ShrinkTo], over the extents from the last to the first.
    [liblp/builder.cpp:135-145 Partition::ShrinkTo, loop] *)
Fixpoint shrink_loop (es : list Extent) (size sectors_to_remove : Z)
    : outcome (list Extent * Z) :=
  if decide (sectors_to_remove = 0) then Ret (es, size)
  else
    match es with
    | [] => Crash
    | e :: es =>
        if decide (sectors_to_remove < num_sectors e) then
          Ret (set_num_sectors e (u64 (num_sectors e - sectors_to_remove)) :: es,
               u64 (size - u64 (sectors_to_remove * LP_SECTOR_SIZE)))
        else
          shrink_loop es (u64 (size - u64 (num_sectors e * LP_SECTOR_SIZE)))
            (u64 (sectors_to_remove - num_sectors e))
    end.
(** The final [DCHECK] is compiled out.
    [liblp/builder.cpp:126-147 Partition::ShrinkTo] *)
Definition ShrinkTo (p : Partition) (aligned_size : Z) : outcome Partition :=
  if decide (aligned_size = 0) then Ret (RemoveExtents p)
  else
    '(es, size) ← shrink_loop (reverse (pt_extents p)) (pt_size p)
                    (u64 (pt_size p - aligned_size) / LP_SECTOR_SIZE);
    Ret (pt_with p (reverse es) size).
(** [liblp/builder.cpp:149-161 Partition::GetBeginningExtents] *)
Definition GetBeginningExtents (p : Partition) (aligned_size : Z) : outcome Partition :=
  ShrinkTo (foldl AddExtent (NewPartition (pt_name p) (pt_group_name p) (pt_attributes p))
              (pt_extents p)) aligned_size.
(** [liblp/builder.cpp:163-172 Partition::BytesOnDisk] *)
Definition BytesOnDisk (p : Partition) : Z :=
  u64 (foldl (λ sectors e, match e with
                           | LinearExtent n _ _ => u64 (sectors + n)
                           | ZeroExtent _ => sectors
                           end) 0 (pt_extents p) * LP_SECTOR_SIZE).

(** ** The meaning of an extent list *)

Inductive Target :=
| Zeroed
| OnDevice (device sector : Z).

(** Where logical sector [i] is. *)
Fixpoint resolve (es : list Extent) (i : Z) : option Target :=
  match es with
  | [] => None
  | e :: es =>
      if decide (i < num_sectors e) then
        Some match e with LinearExtent _ d s => OnDevice d (s + i) | ZeroExtent _ => Zeroed end
      else resolve es (i - num_sectors e)
  end.
(** The number of logical sectors. *)
Fixpoint total (es : list Extent) : Z :=
  match es with [] => 0 | e :: es => num_sectors e + total es end.

(** How many extents of the list own sector [s] of device [d]. *)
Definition owns (e : Extent) (d s : Z) : Z :=
  match e with
  | LinearExtent n d' s' => if decide (d' = d ∧ s' ≤ s < s' + n) then 1 else 0
  | ZeroExtent _ => 0
  end.
Fixpoint cover (es : list Extent) (d s : Z) : Z :=
  match es with [] => 0 | e :: es => owns e d s + cover es d s end.
(** The same for intervals. *)
Definition iv_owns (i : Interval) (d s : Z) : Z :=
  if decide (device_index i = d ∧ iv_start i ≤ s < iv_end i) then 1 else 0.
Fixpoint iv_cover (l : list Interval) (d s : Z) : Z :=
  match l with [] => 0 | i :: l => iv_owns i d s + iv_cover l d s end.

(** An extent whose sectors have 64-bit numbers. *)
Definition extent_ok (e : Extent) : Prop :=
  0 ≤ num_sectors e ∧
  match e with LinearExtent n d s => 0 ≤ d ∧ 0 ≤ s ∧ s + n < 2 ^ 64 | ZeroExtent _ => True end.
(** A partition whose size is the size of its extents. *)
Record partition_ok (p : Partition) : Prop := {
  pok_extents : Forall extent_ok (pt_extents p);
  pok_size : pt_size p = total (pt_extents p) * LP_SECTOR_SIZE;
  pok_bound : total (pt_extents p) * LP_SECTOR_SIZE < 2 ^ 64;
}.

(** *** Lists *)

Lemma total_app l k : total (l ++ k) = total l + total k.
Proof. induction l as [|e l IH]; simpl; lia. Qed.
Lemma total_nonneg l : Forall extent_ok l → 0 ≤ total l.
Proof. induction 1 as [|e l [He _] _ IH]; simpl; lia. Qed.
(** Extents of any number of sectors. *)
Definition positive (es : list Extent) : Prop := Forall (λ e, 0 ≤ num_sectors e) es.

Lemma positive_total es : positive es → 0 ≤ total es.
Proof. induction 1 as [|e es He _ IH]; simpl; lia. Qed.
Lemma total_elem e es : positive es → e ∈ es → num_sectors e ≤ total es.
Proof.
  induction 1 as [|x es Hx Hes IH]; [by intros ?%not_elem_of_nil|].
  pose proof (positive_total _ Hes). intros [->|Hin]%elem_of_cons; simpl; [lia|].
  specialize (IH Hin). lia.
Qed.
Lemma extent_ok_positive es : Forall extent_ok es → positive es.
Proof. intros H. eapply Forall_impl; [exact H|]. by intros e [He _]. Qed.

Lemma cover_app l k d s : cover (l ++ k) d s = cover l d s + cover k d s.
Proof. induction l as [|e l IH]; simpl; lia. Qed.
Lemma owns_range e d s : 0 ≤ owns e d s ≤ 1.
Proof. unfold owns. destruct e; [case_decide|]; lia. Qed.
Lemma cover_nonneg l d s : 0 ≤ cover l d s.
Proof. induction l as [|e l IH]; simpl; [lia|]. pose proof (owns_range e d s). lia. Qed.
Lemma total_reverse l : total (reverse l) = total l.
Proof. induction l as [|e l IH]; [done|]. rewrite reverse_cons, total_app, IH. simpl. lia. Qed.
Lemma cover_reverse l d s : cover (reverse l) d s = cover l d s.
Proof. induction l as [|e l IH]; [done|]. rewrite reverse_cons, cover_app, IH. simpl. lia. Qed.
Lemma iv_owns_range i d s : 0 ≤ iv_owns i d s ≤ 1.
Proof. unfold iv_owns. case_decide; lia. Qed.
Lemma iv_cover_nonneg l d s : 0 ≤ iv_cover l d s.
Proof. induction l as [|e l IH]; simpl; [lia|]. pose proof (iv_owns_range e d s). lia. Qed.
Lemma iv_cover_app l k d s : iv_cover (l ++ k) d s = iv_cover l d s + iv_cover k d s.
Proof. induction l as [|e l IH]; simpl; lia. Qed.
Lemma iv_cover_perm l k d s : l ≡ₚ k → iv_cover l d s = iv_cover k d s.
Proof. induction 1; simpl; lia. Qed.
Lemma iv_cover_elem i l d s :
  i ∈ l → device_index i = d → iv_start i ≤ s < iv_end i → 1 ≤ iv_cover l d s.
Proof.
  intros Hi Hd Hs. induction l as [|j l IH]; simpl; [by apply not_elem_of_nil in Hi|].
  apply elem_of_cons in Hi as [<-|Hi].
  - unfold iv_owns. rewrite decide_True by done. pose proof (iv_cover_nonneg l d s). lia.
  - pose proof (iv_owns_range j d s). specialize (IH Hi). lia.
Qed.

Lemma resolve_app l k i :
  Forall extent_ok l → 0 ≤ i →
  resolve (l ++ k) i = if decide (i < total l) then resolve l i else resolve k (i - total l).
Proof.
  intros Hl. revert i. induction Hl as [|e l [He _] Hl IH]; intros i Hi; simpl.
  - rewrite decide_False by lia. f_equal. lia.
  - pose proof (total_nonneg l Hl). case_decide as H1.
    + by rewrite decide_True by lia.
    + rewrite IH by lia. destruct (decide (i - num_sectors e < total l)).
      * by rewrite decide_True by lia.
      * rewrite decide_False by lia. f_equal. lia.
Qed.

(** *** Appending an extent *)

Lemma push_extent_cases es e :
  push_extent es e = es ++ [e] ∨
  ∃ pre n' n d s', es = pre ++ [LinearExtent n' d s'] ∧ e = LinearExtent n d (end_sector n' s') ∧
    push_extent es e = pre ++ [LinearExtent (u64 (n' + n)) d s'].
Proof.
  unfold push_extent. destruct e as [n d s|n]; [|by left].
  destruct (list.last es) as [[n' d' s'|n']|] eqn:El; [|by left..].
  case_decide as Hm; [|by left]. destruct Hm as [<- ->]. right.
  apply last_Some in El as [pre ->]. exists pre, n', n, d, s'.
  split_and!; [done..|]. by rewrite removelast_last.
Qed.

(** [AddExtent] means to append, merged or not. *)
Lemma push_extent_ok es e :
  Forall extent_ok es → extent_ok e → total es + num_sectors e < 2 ^ 64 →
  Forall extent_ok (push_extent es e) ∧ total (push_extent es e) = total es + num_sectors e ∧
  (∀ d s, cover (push_extent es e) d s = cover es d s + owns e d s) ∧
  (∀ i, 0 ≤ i → resolve (push_extent es e) i = resolve (es ++ [e]) i).
Proof.
  intros Hes He Ht.
  destruct (push_extent_cases es e) as [->|(pre & n' & n & d & s' & -> & -> & ->)].
  - split_and!; [by apply Forall_app; split; [|constructor]|rewrite total_app; simpl; lia| |done].
    intros d s. rewrite cover_app. simpl. lia.
  - apply Forall_app in Hes as [Hpre [Hl _]%Forall_cons]. rewrite total_app in *.
    pose proof (total_nonneg _ Hpre). destruct Hl as (Hn' & Hd & Hs' & Hb'), He as (Hn & _ & Hs & Hb).
    simpl in *. unfold end_sector in *.
    rewrite (u64_small (s' + n')) in * by lia. rewrite (u64_small (n' + n)) by lia.
    assert (extent_ok (LinearExtent (n' + n) d s')) by (split; simpl; lia).
    assert (extent_ok (LinearExtent n' d s')) by (split; simpl; lia).
    split_and!.
    + by apply Forall_app; split; [|constructor].
    + rewrite total_app. simpl. lia.
    + intros d0 s. rewrite !cover_app. simpl. repeat case_decide; lia.
    + intros i Hi. rewrite <- (assoc_L (++)). rewrite !resolve_app by done.
      case_decide; [done|]. simpl. repeat case_decide; try done; try lia. do 2 f_equal. lia.
Qed.

Lemma AddExtent_ok p e :
  partition_ok p → extent_ok e → (total (pt_extents p) + num_sectors e) * LP_SECTOR_SIZE < 2 ^ 64 →
  partition_ok (AddExtent p e) ∧ pt_size (AddExtent p e) = pt_size p + num_sectors e * LP_SECTOR_SIZE.
Proof.
  intros [Hes Hsz Hb] He Ht. unfold LP_SECTOR_SIZE in *.
  pose proof (total_nonneg _ Hes). destruct He as [Hn He].
  destruct (push_extent_ok (pt_extents p) e) as (H1 & H2 & _); [done|by split|lia|].
  unfold AddExtent. simpl. rewrite (u64_small (num_sectors e * _)) by (unfold LP_SECTOR_SIZE; lia).
  unfold LP_SECTOR_SIZE. rewrite u64_small by lia. split; [|done].
  split; simpl; [done|unfold LP_SECTOR_SIZE; lia..].
Qed.

(** Several extents appended. *)
Lemma AddExtents_ok p l :
  partition_ok p → Forall extent_ok l →
  (total (pt_extents p) + total l) * LP_SECTOR_SIZE < 2 ^ 64 →
  let q := foldl AddExtent p l in
  partition_ok q ∧ total (pt_extents q) = total (pt_extents p) + total l ∧
  (∀ d s, cover (pt_extents q) d s = cover (pt_extents p) d s + cover l d s) ∧
  (∀ i, 0 ≤ i → resolve (pt_extents q) i = resolve (pt_extents p ++ l) i) ∧
  pt_name q = pt_name p ∧ pt_group_name q = pt_group_name p ∧ pt_attributes q = pt_attributes p.
Proof.
  intros Hp Hl. revert p Hp. induction Hl as [|e l He Hl IH]; intros p Hp Ht; simpl.
  - split_and!; try done; intros; rewrite ?app_nil_r; simpl; lia || done.
  - simpl in Ht. pose proof (total_nonneg _ Hl). unfold LP_SECTOR_SIZE in *.
    pose proof (total_nonneg _ (pok_extents _ Hp)). pose proof (proj1 He).
    destruct (AddExtent_ok p e) as [Hp' _]; [done|done|unfold LP_SECTOR_SIZE; lia|].
    destruct (push_extent_ok (pt_extents p) e) as (P1 & P2 & P3 & P4); [apply Hp|done|lia|].
    destruct (IH (AddExtent p e) Hp') as (Hq & Ht' & Hc & Hr & ?&?&?); [simpl; lia|].
    split_and!; [done|rewrite Ht'; simpl; lia| | |done..].
    + intros d s. rewrite Hc. simpl. rewrite P3. lia.
    + intros i Hi. rewrite Hr by done.
      change (pt_extents (AddExtent p e)) with (push_extent (pt_extents p) e).
      rewrite (resolve_app (push_extent _ _)) by done. rewrite P2, P4 by done.
      change (e :: l) with ([e] ++ l). rewrite (assoc_L (++)).
      rewrite (resolve_app (pt_extents p ++ [e]) l); [|by apply Forall_app; split; [apply Hp|constructor]|done].
      rewrite total_app. simpl. by rewrite Z.add_0_r.
Qed.

(** *** Shrinking *)

(** What is left of a list that is shortened at its front. *)
Inductive shortened (l : list Extent) : list Extent → Prop :=
| shortened_suffix pre l' : l = pre ++ l' → shortened l l'
| shortened_cut pre e m k : l = pre ++ e :: k → 0 < m < num_sectors e →
    shortened l (set_num_sectors e m :: k).

Lemma shortened_cons e l l' : shortened l l' → shortened (e :: l) l'.
Proof.
  intros [pre k ->|pre e' m k -> Hm]; [by apply (shortened_suffix _ (e :: pre))|].
  by apply (shortened_cut _ (e :: pre)).
Qed.
Lemma extent_ok_cut e m : extent_ok e → 0 < m < num_sectors e → extent_ok (set_num_sectors e m).
Proof. intros [Hn He] Hm. destruct e; simpl in *; split; simpl; lia. Qed.
Lemma num_set_num e m : num_sectors (set_num_sectors e m) = m.
Proof. by destruct e. Qed.

Lemma shortened_ok l l' : Forall extent_ok l → shortened l l' → Forall extent_ok l'.
Proof.
  intros Hl [pre k ->|pre e m k -> Hm]; apply Forall_app in Hl as [_ Hl]; [done|].
  apply Forall_cons in Hl as [He Hk]. constructor; [by apply extent_ok_cut|done].
Qed.
Lemma shortened_cover l l' d s : shortened l l' → cover l' d s ≤ cover l d s.
Proof.
  intros [pre k ->|pre e m k -> Hm]; rewrite cover_app; pose proof (cover_nonneg pre d s); [lia|].
  simpl. destruct e; simpl in *; repeat case_decide; lia.
Qed.
Lemma shortened_resolve l l' i :
  Forall extent_ok l → shortened l l' → 0 ≤ i < total l' →
  resolve (reverse l') i = resolve (reverse l) i.
Proof.
  intros Hl Hsh Hi. pose proof (shortened_ok _ _ Hl Hsh) as Hl'.
  pose proof total_reverse as Hrev.
  destruct Hsh as [pre k ->|pre e m k -> Hm]; apply Forall_app in Hl as [Hpre Hl].
  - rewrite reverse_app, resolve_app by (done || lia || by apply Forall_reverse).
    rewrite Hrev. by rewrite decide_True by lia.
  - simpl in Hi. rewrite num_set_num in Hi.
    apply Forall_cons in Hl as [He Hk]. pose proof (total_nonneg _ Hk).
    rewrite reverse_app, !reverse_cons, <- (assoc_L (++)).
    rewrite !resolve_app by (done || lia || by apply Forall_reverse). rewrite Hrev.
    case_decide; [done|]. simpl. rewrite num_set_num.
    rewrite !decide_True by lia. by destruct e.
Qed.

Lemma shrink_loop_ok l size n :
  Forall extent_ok l → 0 ≤ n ≤ total l → size = total l * LP_SECTOR_SIZE → size < 2 ^ 64 →
  ∃ l', shrink_loop l size n = Ret (l', (total l - n) * LP_SECTOR_SIZE) ∧
    shortened l l' ∧ total l' = total l - n.
Proof.
  unfold LP_SECTOR_SIZE. intros Hl. revert size n.
  induction Hl as [|e l He Hl IH]; intros size n Hn -> Hb; simpl in *.
  - assert (n = 0) as -> by lia. exists []. split_and!; [done|by apply (shortened_suffix _ [])|done].
  - pose proof (total_nonneg _ Hl). pose proof (proj1 He). unfold LP_SECTOR_SIZE.
    case_decide as Hz; [|case_decide as Hlt].
    + subst n. exists (e :: l). rewrite Z.sub_0_r.
      split_and!; [done|by apply (shortened_suffix _ [])|done].
    + rewrite (u64_small (num_sectors e - n)) by lia. rewrite (u64_small (n * 512)) by lia.
      rewrite u64_small by lia. exists (set_num_sectors e (num_sectors e - n) :: l).
      split_and!; [do 2 f_equal; lia|apply (shortened_cut _ [] e); [done|lia]|].
      simpl. rewrite num_set_num. lia.
    + rewrite (u64_small (num_sectors e * 512)) by lia. rewrite (u64_small (n - _)) by lia.
      rewrite (u64_small (_ - _)) by lia.
      destruct (IH (total l * 512) (n - num_sectors e)) as (l' & E & Hsh & Ht); [lia..|].
      replace ((num_sectors e + total l) * 512 - num_sectors e * 512) with (total l * 512) by lia.
      exists l'. rewrite E. split_and!; [do 2 f_equal; lia|by apply shortened_cons|lia].
Qed.

(** [ShrinkTo] keeps the first [size] bytes: it removes extents and shortens one,
    from the end, and gives no sector a new owner. *)
Lemma ShrinkTo_ok p size :
  partition_ok p → 0 ≤ size ≤ pt_size p → (LP_SECTOR_SIZE | size) →
  ∃ q, ShrinkTo p size = Ret q ∧ partition_ok q ∧ pt_size q = size ∧
    pt_name q = pt_name p ∧ pt_group_name q = pt_group_name p ∧
    pt_attributes q = pt_attributes p ∧
    shortened (reverse (pt_extents p)) (reverse (pt_extents q)) ∧
    (∀ d s, cover (pt_extents q) d s ≤ cover (pt_extents p) d s) ∧
    (∀ i, 0 ≤ i < size / LP_SECTOR_SIZE → resolve (pt_extents q) i = resolve (pt_extents p) i).
Proof.
  intros [Hes Hsz Hb] Hs [n Hn].
  pose proof total_reverse as Hrev.
  pose proof cover_reverse as Hcov.
  unfold LP_SECTOR_SIZE in *. unfold ShrinkTo, LP_SECTOR_SIZE. case_decide as H0.
  { subst size. exists (RemoveExtents p). simpl. split_and!; try done.
    - apply (shortened_suffix _ (reverse (pt_extents p))). by rewrite app_nil_r.
    - intros. apply cover_nonneg.
    - intros i Hi. rewrite Z.div_mul in Hi by done. lia. }
  pose proof (total_nonneg _ Hes).
  destruct (shrink_loop_ok (reverse (pt_extents p)) (pt_size p) (total (pt_extents p) - n))
    as (l' & E & Hsh & Ht); [by apply Forall_reverse|rewrite Hrev; lia|by rewrite Hrev|lia|].
  rewrite Hrev in E, Ht.
  replace (u64 (pt_size p - size) / 512) with (total (pt_extents p) - n).
  2:{ rewrite u64_small by lia. rewrite Hsz, Hn, <- Z.mul_sub_distr_r. by rewrite Z.div_mul. }
  rewrite E. simpl. eexists. split; [done|].
  pose proof (shortened_ok _ _ (proj2 (Forall_reverse _ _) Hes) Hsh) as Hl'. simpl.
  unfold LP_SECTOR_SIZE. split_and!; try done.
  - split; simpl; rewrite ?Hrev; unfold LP_SECTOR_SIZE; [by apply Forall_reverse|lia..].
  - lia.
  - by rewrite reverse_involutive.
  - intros d s. rewrite Hcov. etrans; [by apply shortened_cover|]. by rewrite Hcov.
  - intros i Hi. rewrite Hn, Z.div_mul in Hi by lia.
    rewrite (shortened_resolve _ _ i (proj2 (Forall_reverse _ _) Hes) Hsh) by lia.
    by rewrite reverse_involutive.
Qed.
