(* ===== verification/LpBuilder.v ===== *)
(** * The metadata builder ([liblp/builder.cpp]): state, construction, queries

    [MetadataBuilder] is the state of a builder object; an operation that can
    fail is an [IO MetadataBuilder], so what a failed call leaves behind is in
    the model.  A [Partition*] handle is the name of the partition, which
    [AddPartition] keeps unique and nothing changes; using a handle whose
    partition was removed is a [Crash]. *)
From S2P Require Import Prelude Bytes LpFormat LpUtility Device LpReader LpExtent.

(** [liblp/include/liblp/builder.h:43-43 kDefaultGroup] *)
Definition kDefaultGroup : bytes := str "default".

(** [liblp/include/liblp/builder.h:419-424 MetadataBuilder, members] *)
Record MetadataBuilder := mkBuilder {
  b_geometry : LpMetadataGeometry;
  b_header : LpMetadataHeader;
  b_partitions : list Partition;
  b_groups : list PartitionGroup;
  b_block_devices : list LpMetadataBlockDevice;
  b_auto_slot_suffixing : bool;
}.

(** System properties.
    [liblp/include/liblp/property_fetcher.h:24-32 IPropertyFetcher] *)
Record IPropertyFetcher := mkFetcher {
  GetProperty : bytes → bytes → bytes;
  GetBoolProperty : bytes → bool → bool;
}.

Definition get {S} : IO S S := λ s, (Ret s, s).
Definition modify {S} (f : S → S) : IO S unit := λ s, (Ret (), f s).

Definition set_partitions (b : MetadataBuilder) (ps : list Partition) : MetadataBuilder :=
  mkBuilder (b_geometry b) (b_header b) ps (b_groups b) (b_block_devices b)
    (b_auto_slot_suffixing b).
Definition set_groups (b : MetadataBuilder) (gs : list PartitionGroup) : MetadataBuilder :=
  mkBuilder (b_geometry b) (b_header b) (b_partitions b) gs (b_block_devices b)
    (b_auto_slot_suffixing b).
Definition set_header (b : MetadataBuilder) (h : LpMetadataHeader) : MetadataBuilder :=
  mkBuilder (b_geometry b) h (b_partitions b) (b_groups b) (b_block_devices b)
    (b_auto_slot_suffixing b).
Definition set_block_devices (b : MetadataBuilder) (ds : list LpMetadataBlockDevice)
    : MetadataBuilder :=
  mkBuilder (b_geometry b) (b_header b) (b_partitions b) (b_groups b) ds
    (b_auto_slot_suffixing b).

(** ** Lookup *)

(** [liblp/builder.cpp:547-554 MetadataBuilder::FindPartition] *)
Definition FindPartition (b : MetadataBuilder) (name : bytes) : option Partition :=
  snd <$> list_find (λ p, pt_name p = name) (b_partitions b).
(** [liblp/builder.cpp:556-563 MetadataBuilder::FindGroup] *)
Definition FindGroup (b : MetadataBuilder) (name : bytes) : option PartitionGroup :=
  snd <$> list_find (λ g, pg_name g = name) (b_groups b).

(** What a write through the handle [name] does to the table. *)
Fixpoint update_named (f : Partition → Partition) (name : bytes) (ps : list Partition)
    : list Partition :=
  match ps with
  | [] => []
  | p :: ps => if decide (pt_name p = name) then f p :: ps else p :: update_named f name ps
  end.
Definition update_partition (name : bytes) (f : Partition → Partition) (b : MetadataBuilder)
    : MetadataBuilder :=
  set_partitions b (update_named f name (b_partitions b)).
(** Dereferencing a handle. *)
Definition deref (name : bytes) : IO MetadataBuilder Partition :=
  b ← get; lift (access (FindPartition b name)).

(** [liblp/builder.cpp:565-574 MetadataBuilder::TotalSizeOfGroup] *)
Definition TotalSizeOfGroup (b : MetadataBuilder) (group : PartitionGroup) : Z :=
  foldl (λ total p, if decide (pt_group_name p = pg_name group)
                    then u64 (total + BytesOnDisk p) else total) 0 (b_partitions b).
(** [liblp/builder.cpp:978-984 MetadataBuilder::UsedSpace] *)
Definition UsedSpace (b : MetadataBuilder) : Z :=
  foldl (λ size p, u64 (size + pt_size p)) 0 (b_partitions b).
(** [liblp/builder.cpp:970-976 MetadataBuilder::AllocatableSpace] *)
Definition AllocatableSpace (b : MetadataBuilder) : Z :=
  foldl (λ total d, u64 (total + u64 (bd_size d - u64 (first_logical_sector d * LP_SECTOR_SIZE))))
    0 (b_block_devices b).
(** [liblp/builder.cpp:1099-1105 MetadataBuilder::ListGroups] *)
Definition ListGroups (b : MetadataBuilder) : list bytes := pg_name <$> b_groups b.
(** [liblp/builder.cpp:1241-1249 MetadataBuilder::ListPartitionsInGroup] *)
Definition ListPartitionsInGroup (b : MetadataBuilder) (group_name : bytes) : list bytes :=
  pt_name <$> filter (λ p, pt_group_name p = group_name) (b_partitions b).

(** ** Partitions and groups *)

(** [liblp/builder.cpp:516-523 MetadataBuilder::AddGroup] *)
Definition AddGroup (group_name : bytes) (maximum_size : Z) : IO MetadataBuilder unit :=
  b ← get;
  _ ← lift (require (FindGroup b group_name = None));
  modify (λ b, set_groups b (b_groups b ++ [mkPartitionGroup group_name maximum_size])).

(** [liblp/builder.cpp:529-545 MetadataBuilder::AddPartition] *)
Definition AddPartition (name group_name : bytes) (attributes : Z) : IO MetadataBuilder unit :=
  b ← get;
  _ ← lift (require (name ≠ []));
  _ ← lift (require (FindPartition b name = None));
  _ ← lift (require (FindGroup b group_name ≠ None));
  modify (λ b, set_partitions b (b_partitions b ++ [NewPartition name group_name attributes])).
(** [liblp/builder.cpp:525-527 MetadataBuilder::AddPartition, default group] *)
Definition AddPartition_default (name : bytes) (attributes : Z) : IO MetadataBuilder unit :=
  AddPartition name kDefaultGroup attributes.

Fixpoint erase_partition (name : bytes) (ps : list Partition) : list Partition :=
  match ps with
  | [] => []
  | p :: ps => if decide (pt_name p = name) then ps else p :: erase_partition name ps
  end.
(** [liblp/builder.cpp:576-583 MetadataBuilder::RemovePartition] *)
Definition RemovePartition (name : bytes) (b : MetadataBuilder) : MetadataBuilder :=
  set_partitions b (erase_partition name (b_partitions b)).

Fixpoint erase_group (name : bytes) (gs : list PartitionGroup) : list PartitionGroup :=
  match gs with
  | [] => []
  | g :: gs => if decide (pg_name g = name) then gs else g :: erase_group name gs
  end.
(** [liblp/builder.cpp:1107-1128 MetadataBuilder::RemoveGroupAndPartitions] *)
Definition RemoveGroupAndPartitions (group_name : bytes) (b : MetadataBuilder) : MetadataBuilder :=
  if decide (group_name = kDefaultGroup) then b
  else
    let partition_names := ListPartitionsInGroup b group_name in
    let b := foldl (λ b name, RemovePartition name b) b partition_names in
    set_groups b (erase_group group_name (b_groups b)).

(** [liblp/builder.cpp:1251-1258 MetadataBuilder::ChangePartitionGroup] *)
Definition ChangePartitionGroup (name group_name : bytes) : IO MetadataBuilder unit :=
  b ← get;
  _ ← lift (require (FindGroup b group_name ≠ None));
  _ ← deref name;
  modify (update_partition name
    (λ p, mkLpPartition (pt_name p) group_name (pt_extents p) (pt_attributes p) (pt_size p))).

Fixpoint set_group_size (name : bytes) (size : Z) (gs : list PartitionGroup)
    : list PartitionGroup :=
  match gs with
  | [] => []
  | g :: gs => if decide (pg_name g = name) then mkPartitionGroup name size :: gs
               else g :: set_group_size name size gs
  end.
(** [liblp/builder.cpp:1275-1287 MetadataBuilder::ChangeGroupSize] *)
Definition ChangeGroupSize (group_name : bytes) (maximum_size : Z) : IO MetadataBuilder unit :=
  _ ← lift (require (group_name ≠ kDefaultGroup));
  b ← get;
  _ ← lift (require (FindGroup b group_name ≠ None));
  modify (λ b, set_groups b (set_group_size group_name maximum_size (b_groups b))).

(** [liblp/builder.cpp:1260-1273 MetadataBuilder::ValidatePartitionGroups] *)
Definition ValidatePartitionGroups (b : MetadataBuilder) : bool :=
  forallb (λ g, bool_decide (pg_maximum_size g = 0) ||
                negb (bool_decide (pg_maximum_size g < TotalSizeOfGroup b g))) (b_groups b).

(** [liblp/builder.cpp:648-671 MetadataBuilder::ValidatePartitionSizeChange] *)
Definition ValidatePartitionSizeChange (b : MetadataBuilder) (p : Partition)
    (old_size new_size : Z) (force_check : bool) : outcome unit :=
  match FindGroup b (pt_group_name p) with
  | None => Crash
  | Some group =>
      if decide (force_check = false ∧ new_size ≤ old_size) then Ret ()
      else
        let space_needed := u64 (new_size - old_size) in
        if decide (0 < pg_maximum_size group) then
          let group_size := TotalSizeOfGroup b group in
          require (¬ (pg_maximum_size group ≤ group_size ∨
                      u64 (pg_maximum_size group - group_size) < space_needed))
        else Ret ()
  end.

(** ** Header *)

Definition header_set_version (h : LpMetadataHeader) (minor size : Z) : LpMetadataHeader :=
  mkHeader (h_magic h) (h_major_version h) minor size (header_checksum h) (tables_size h)
    (tables_checksum h) (h_partitions h) (h_extents h) (h_groups h) (h_block_devices h)
    (h_flags h) (h_reserved h).
Definition header_set_flags (h : LpMetadataHeader) (flags : Z) : LpMetadataHeader :=
  mkHeader (h_magic h) (h_major_version h) (h_minor_version h) (header_size h)
    (header_checksum h) (tables_size h) (tables_checksum h) (h_partitions h) (h_extents h)
    (h_groups h) (h_block_devices h) flags (h_reserved h).

(** [liblp/builder.cpp:962-968 MetadataBuilder::RequireExpandedMetadataHeader] *)
Definition RequireExpandedMetadataHeader (b : MetadataBuilder) : MetadataBuilder :=
  if decide (LP_METADATA_VERSION_FOR_EXPANDED_HEADER ≤ h_minor_version (b_header b)) then b
  else set_header b (header_set_version (b_header b) LP_METADATA_VERSION_FOR_EXPANDED_HEADER
                       (sizeof header_codec)).
(** [liblp/builder.cpp:1209-1212 MetadataBuilder::SetVirtualABDeviceFlag] *)
Definition SetVirtualABDeviceFlag (b : MetadataBuilder) : MetadataBuilder :=
  let b := RequireExpandedMetadataHeader b in
  set_header b (header_set_flags (b_header b)
                  (Z.lor (h_flags (b_header b)) LP_HEADER_FLAG_VIRTUAL_AB_DEVICE)).
(** [liblp/builder.cpp:1205-1207 MetadataBuilder::SetAutoSlotSuffixing] *)
Definition SetAutoSlotSuffixing (b : MetadataBuilder) : MetadataBuilder :=
  mkBuilder (b_geometry b) (b_header b) (b_partitions b) (b_groups b) (b_block_devices b) true.

(** ** Block devices *)

(** [liblp/builder.cpp:1289-1293 MetadataBuilder::GetBlockDevicePartitionName] *)
Definition builder_device_name (b : MetadataBuilder) (index : nat) : bytes :=
  match b_block_devices b !! index with
  | Some d => GetBlockDevicePartitionName d
  | None => []
  end.
(** [liblp/builder.cpp:1001-1010 MetadataBuilder::FindBlockDeviceByName] *)
Definition FindBlockDeviceByName (b : MetadataBuilder) (name : bytes) : option nat :=
  fst <$> list_find (λ d, GetBlockDevicePartitionName d = name) (b_block_devices b).
(** [liblp/builder.cpp:1012-1015 MetadataBuilder::HasBlockDevice] *)
Definition HasBlockDevice (b : MetadataBuilder) (name : bytes) : bool :=
  match FindBlockDeviceByName b name with Some _ => true | None => false end.
(** [liblp/builder.cpp:1017-1030 MetadataBuilder::GetBlockDeviceInfo] *)
Definition GetBlockDeviceInfo (b : MetadataBuilder) (name : bytes) : outcome BlockDeviceInfo :=
  index ← found (FindBlockDeviceByName b name);
  d ← access (b_block_devices b !! index);
  Ret (mkInfo (bd_size d) (bd_alignment d) (bd_alignment_offset d)
         (logical_block_size (b_geometry b)) name).

Definition device_set_alignment (d : LpMetadataBlockDevice) (al off : Z) : LpMetadataBlockDevice :=
  mkBlockDevice (first_logical_sector d) al off (bd_size d) (bd_partition_name d) (bd_flags d).
(** A modulus of 0 is undefined.
    [liblp/builder.cpp:1042-1067 MetadataBuilder::UpdateBlockDeviceInfo(index)] *)
Definition UpdateBlockDeviceInfo_at (index : nat) (info : BlockDeviceInfo)
    : IO MetadataBuilder unit :=
  b ← get;
  _ ← lift (CHECK (index < length (b_block_devices b))%nat);
  d ← lift (access (b_block_devices b !! index));
  _ ← lift (require (i_size info = bd_size d));
  _ ← lift (CHECK (i_logical_block_size info ≠ 0));
  _ ← lift (require (logical_block_size (b_geometry b) mod i_logical_block_size info = 0));
  let al := if decide (i_alignment info = 0) then bd_alignment d else i_alignment info in
  let off := if decide (i_alignment_offset info = 0) then bd_alignment_offset d
             else i_alignment_offset info in
  modify (λ b, set_block_devices b (<[index := device_set_alignment d al off]> (b_block_devices b))).
(** [liblp/builder.cpp:1032-1040 MetadataBuilder::UpdateBlockDeviceInfo(name)] *)
Definition UpdateBlockDeviceInfo (name : bytes) (info : BlockDeviceInfo)
    : IO MetadataBuilder unit :=
  b ← get;
  index ← lift (found (FindBlockDeviceByName b name));
  UpdateBlockDeviceInfo_at index info.

(** [liblp/builder.cpp:1228-1239 MetadataBuilder::AddLinearExtent] *)
Definition AddLinearExtent (name block_device : bytes) (num_sectors physical_sector : Z)
    : IO MetadataBuilder unit :=
  b ← get;
  device_index ← lift (found (FindBlockDeviceByName b block_device));
  _ ← deref name;
  modify (update_partition name
    (λ p, AddExtent p (LinearExtent num_sectors (Z.of_nat device_index) physical_sector))).

Section Properties.
Context (fetcher : IPropertyFetcher).
(** [liblp/builder.cpp:1214-1216 MetadataBuilder::IsABDevice] *)
Definition IsABDevice : bool :=
  bool_decide (GetProperty fetcher (str "ro.boot.slot_suffix") [] ≠ []).
(** [liblp/builder.cpp:1218-1221 MetadataBuilder::IsRetrofitDynamicPartitionsDevice] *)
Definition IsRetrofitDynamicPartitionsDevice : bool :=
  GetBoolProperty fetcher (str "ro.boot.dynamic_partitions_retrofit") false.
(** [liblp/builder.cpp:1223-1226 MetadataBuilder::ShouldHalveSuper] *)
Definition ShouldHalveSuper (b : MetadataBuilder) : bool :=
  bool_decide (builder_device_name b 0 = LP_METADATA_DEFAULT_PARTITION_NAME) &&
  negb (GetBoolProperty fetcher (str "ro.virtual_ab.enabled") false).
End Properties.

(** ** A builder for a new table *)

Definition zero_table (entry_size : Z) : LpMetadataTableDescriptor := mkTable 0 0 entry_size.
(** [liblp/builder.cpp:300-314 MetadataBuilder::MetadataBuilder] *)
Definition EmptyBuilder : MetadataBuilder :=
  mkBuilder
    (mkGeometry LP_METADATA_GEOMETRY_MAGIC (sizeof geometry_codec) (zeroes 32) 0 0 0)
    (mkHeader LP_METADATA_HEADER_MAGIC LP_METADATA_MAJOR_VERSION LP_METADATA_MINOR_VERSION_MIN
       (sizeof header_v1_0_codec) (zeroes 32) 0 (zeroes 32)
       (zero_table (sizeof partition_codec)) (zero_table (sizeof extent_codec))
       (zero_table (sizeof group_codec)) (zero_table (sizeof block_device_codec))
       0 (zeroes 124))
    [] [] [] false.

(** [liblp/builder.cpp:360-387 VerifyDeviceProperties] *)
Definition VerifyDeviceProperties (info : BlockDeviceInfo) : bool :=
  if decide (i_logical_block_size info = 0) then false
  else if decide (i_logical_block_size info mod LP_SECTOR_SIZE ≠ 0) then false
  else if decide (i_size info mod i_logical_block_size info ≠ 0) then false
  else if decide (i_alignment_offset info mod LP_SECTOR_SIZE ≠ 0) then false
  else if decide (i_alignment info mod LP_SECTOR_SIZE ≠ 0) then false
  else true.

(** The start of the free area of a device, from the bytes reserved at its front.
    [liblp/builder.cpp:440-451 MetadataBuilder::Init, free area] *)
Definition free_area (alignment logical_block_size reserved : Z) : option Z :=
  if decide (alignment = 0) then AlignTo 64 reserved logical_block_size
  else AlignTo 64 reserved alignment.

Definition device_set_first (d : LpMetadataBlockDevice) (first : Z) : LpMetadataBlockDevice :=
  mkBlockDevice first (bd_alignment d) (bd_alignment_offset d) (bd_size d)
    (bd_partition_name d) (bd_flags d).

(** The loop over the devices; [block_size] is 0 until the first one.
    [liblp/builder.cpp:413-467 MetadataBuilder::Init, devices] *)
Fixpoint init_devices (super_partition : bytes) (infos : list BlockDeviceInfo)
    (block_size : Z) (out : list LpMetadataBlockDevice)
    : outcome (Z * list LpMetadataBlockDevice) :=
  match infos with
  | [] => Ret (block_size, out)
  | info :: infos =>
      _ ← require (VerifyDeviceProperties info = true);
      let block_size := if decide (block_size = 0) then i_logical_block_size info
                        else block_size in
      _ ← require (block_size = i_logical_block_size info);
      _ ← require (length (i_partition_name info) ≤ 36)%nat;
      free_area_start ← found (free_area (i_alignment info) block_size LP_SECTOR_SIZE);
      let d := mkBlockDevice (free_area_start / LP_SECTOR_SIZE) (i_alignment info)
                 (i_alignment_offset info) (i_size info)
                 (strncpy 36 (i_partition_name info)) 0 in
      let minimum_size := u64 (u64 (first_logical_sector d * LP_SECTOR_SIZE) + block_size) in
      _ ← require (minimum_size ≤ i_size info);
      init_devices super_partition infos block_size
        (if decide (i_partition_name info = super_partition) then d :: out else out ++ [d])
  end.

(** [liblp/builder.cpp:389-514 MetadataBuilder::Init(devices)] *)
Definition Init_devices (infos : list BlockDeviceInfo) (super_partition : bytes)
    (metadata_max_size metadata_slot_count : Z) : IO MetadataBuilder unit :=
  _ ← lift (require (sizeof header_codec ≤ metadata_max_size));
  _ ← lift (require (metadata_slot_count ≠ 0));
  _ ← lift (require (infos ≠ []));
  max_size ← lift (found (AlignTo 32 metadata_max_size LP_SECTOR_SIZE));
  '(block_size, devices) ← lift (init_devices super_partition infos 0 []);
  _ ← modify (λ b, set_block_devices b devices);
  b ← get;
  _ ← lift (require (builder_device_name b 0 = super_partition));
  super ← lift (access (b_block_devices b !! 0%nat));
  let total_reserved := GetTotalMetadataSize max_size metadata_slot_count in
  _ ← lift (require (total_reserved ≤ bd_size super));
  free_area_start ← lift (found (free_area (bd_alignment super) block_size total_reserved));
  let super := device_set_first super (free_area_start / LP_SECTOR_SIZE) in
  _ ← modify (λ b, set_block_devices b (<[0%nat := super]> (b_block_devices b)));
  let minimum_disk_size := u64 (u64 (first_logical_sector super * LP_SECTOR_SIZE) + block_size) in
  _ ← lift (require (minimum_disk_size ≤ bd_size super));
  _ ← modify (λ b, mkBuilder
        (mkGeometry (g_magic (b_geometry b)) (g_struct_size (b_geometry b))
           (g_checksum (b_geometry b)) max_size metadata_slot_count block_size)
        (b_header b) (b_partitions b) (b_groups b) (b_block_devices b) (b_auto_slot_suffixing b));
  AddGroup kDefaultGroup 0.

(** [liblp/builder.cpp:189-197 MetadataBuilder::New(devices)] *)
Definition New_devices (infos : list BlockDeviceInfo) (super_partition : bytes)
    (metadata_max_size metadata_slot_count : Z) : outcome MetadataBuilder :=
  match Init_devices infos super_partition metadata_max_size metadata_slot_count EmptyBuilder with
  | (Ret _, b) => Ret b
  | (Reject, _) => Reject
  | (Crash, _) => Crash
  end.

(** ** A builder for an existing table *)

(** [liblp/builder.cpp:345-358 MetadataBuilder::ImportExtents] *)
Fixpoint import_extents (es : list LpMetadataExtent) (first i : Z) (n : nat) (p : Partition)
    : outcome Partition :=
  match n with
  | O => Ret p
  | S n =>
      e ← access (es !! Z.to_nat (first + i));
      import_extents es first (i + 1) n
        (if decide (e_target_type e = LP_TARGET_TYPE_LINEAR)
         then AddExtent p (LinearExtent (e_num_sectors e) (e_target_source e) (e_target_data e))
         else if decide (e_target_type e = LP_TARGET_TYPE_ZERO)
         then AddExtent p (ZeroExtent (e_num_sectors e))
         else p)
  end.
Definition ImportExtents (name : bytes) (m : LpMetadata) (source : LpMetadataPartition)
    : IO MetadataBuilder unit :=
  p ← deref name;
  p' ← lift (import_extents (m_extents m) (p_first_extent_index source) 0
               (Z.to_nat (p_num_extents source)) p);
  modify (update_partition name (λ _, p')).

Fixpoint for_each {S A} (f : A → IO S unit) (l : list A) : IO S unit :=
  match l with
  | [] => mret ()
  | a :: l => _ ← f a; for_each f l
  end.

(** [liblp/builder.cpp:316-343 MetadataBuilder::Init(metadata)] *)
Definition Init_metadata (m : LpMetadata) : IO MetadataBuilder unit :=
  _ ← modify (λ b, mkBuilder (m_geometry m) (b_header b) (b_partitions b) (b_groups b)
                     (m_block_devices m) (b_auto_slot_suffixing b));
  _ ← (if decide (LP_METADATA_VERSION_FOR_EXPANDED_HEADER ≤ h_minor_version (m_header m))
       then modify (λ b, let b := RequireExpandedMetadataHeader b in
                         set_header b (header_set_flags (b_header b) (h_flags (m_header m))))
       else mret ());
  _ ← for_each (λ g, AddGroup (GetPartitionGroupName g) (gr_maximum_size g)) (m_groups m);
  for_each (λ p,
    g ← lift (access (m_groups m !! Z.to_nat (p_group_index p)));
    _ ← AddPartition (GetPartitionName p) (GetPartitionGroupName g) (p_attributes p);
    ImportExtents (GetPartitionName p) m p) (m_partitions m).

(** [liblp/builder.cpp:205-213 MetadataBuilder::New(metadata), device info] *)
Definition update_device_infos (GetInfo : bytes → option BlockDeviceInfo) (indices : list nat)
    : IO MetadataBuilder unit :=
  for_each (λ i,
    b ← get;
    match GetInfo (builder_device_name b i) with
    | Some info => _ ← try_ (UpdateBlockDeviceInfo_at i info); mret ()
    | None => mret ()
    end) indices.
(** [liblp/builder.cpp:199-215 MetadataBuilder::New(metadata)] *)
Definition New_metadata (m : LpMetadata) (opener : option (bytes → option BlockDeviceInfo))
    : outcome MetadataBuilder :=
  match (_ ← Init_metadata m;
         match opener with
         | Some GetInfo => update_device_infos GetInfo (seq 0 (length (m_block_devices m)))
         | None => mret ()
         end) EmptyBuilder with
  | (Ret _, b) => Ret b
  | (Reject, _) => Reject
  | (Crash, _) => Crash
  end.

(** The renaming of the block devices of a retrofit device.
    [liblp/builder.cpp:274-295 UpdateMetadataForOtherSuper, block devices] *)
Definition rename_device (source_slot_suffix target_slot_suffix : bytes)
    (d : LpMetadataBlockDevice) : outcome LpMetadataBlockDevice :=
  let partition_name := GetBlockDevicePartitionName d in
  let slot_suffix := GetPartitionSlotSuffix partition_name in
  _ ← require (slot_suffix ≠ [] ∧ slot_suffix = source_slot_suffix);
  UpdateBlockDevicePartitionName d (replace_suffix partition_name slot_suffix target_slot_suffix).
(** [liblp/builder.cpp:261-298 MetadataBuilder::UpdateMetadataForOtherSuper] *)
Definition UpdateMetadataForOtherSuper (m : LpMetadata)
    (source_slot_number target_slot_number : Z) : outcome LpMetadata :=
  source_slot_suffix ← SlotSuffixForSlotNumber source_slot_number;
  target_slot_suffix ← SlotSuffixForSlotNumber target_slot_number;
  devices ← mapM (rename_device source_slot_suffix target_slot_suffix) (m_block_devices m);
  Ret (mkMetadata (m_geometry m) (m_header m) [] [] [] devices).

Section FromDevice.
Context (sha256 : bytes → bytes) (nothrow_new : Z → bool) (fetcher : IPropertyFetcher).
Context {D : Type} `{!BlockIO D} (opener : @IPartitionOpener D).

(** [liblp/builder.cpp:174-182 MetadataBuilder::New(opener)] *)
Definition New_opener (super_partition : bytes) (slot_number : Z) : outcome MetadataBuilder :=
  m ← ReadMetadata sha256 nothrow_new opener super_partition slot_number;
  New_metadata m (Some (opener_GetInfo opener)).

(** [liblp/builder.cpp:217-255 MetadataBuilder::NewForUpdate] *)
Definition NewForUpdate (source_partition : bytes) (source_slot_number target_slot_number : Z)
    (always_keep_source_slot : bool) : outcome MetadataBuilder :=
  m ← ReadMetadata sha256 nothrow_new opener source_partition source_slot_number;
  super_device ← access (GetMetadataSuperBlockDevice m);
  m ← (if decide (GetBlockDevicePartitionName super_device ≠ str "super" ∧
                  IsRetrofitDynamicPartitionsDevice fetcher = true)
       then UpdateMetadataForOtherSuper m source_slot_number target_slot_number
       else Ret m);
  m ← (if GetBoolProperty fetcher (str "ro.virtual_ab.enabled") false then
         if always_keep_source_slot then Ret (SetMetadataHeaderV0 m)
         else UpdateMetadataForInPlaceSnapshot m source_slot_number target_slot_number
       else Ret m);
  New_metadata m (Some (opener_GetInfo opener)).
End FromDevice.
