(* ===== verification/LpAlloc.v ===== *)
(** * Space allocation ([liblp/builder.cpp])

    The free regions of the devices, and growing, shrinking and resizing a
    partition.  Intervals of one device are sorted with [merge_sort], whose
    result is the one [std::sort] has, the order being total on them. *)
From S2P Require Import Prelude Bytes LpFormat LpUtility Device LpReader LpExtent LpBuilder.

(** ** Alignment of a sector *)

(** [liblp/builder.cpp:986-999 MetadataBuilder::AlignSector] *)
Definition AlignSector (d : LpMetadataBlockDevice) (sector : Z) : option Z :=
  let lba := u64 (sector * LP_SECTOR_SIZE) in
  out ← AlignTo 64 lba (bd_alignment d);
  out ← AlignTo 64 out LP_SECTOR_SIZE;
  Some (out / LP_SECTOR_SIZE).

(** ** Free regions *)

(** The order of [std::sort]: not [operator<] the other way round.
    [liblp/include/liblp/builder.h:178-182 Interval::operator<] *)
Definition iv_le (a b : Interval) : Prop := iv_lt b a = false.
#[export] Instance iv_le_dec : RelDecision iv_le.
Proof. intros a b. unfold iv_le. apply _. Defined.

(** The linear extents of a partition as intervals; the check is on the number
    of devices.
    [liblp/builder.cpp:618-630 MetadataBuilder::GetFreeRegions, collection] *)
Fixpoint collect_extents (n_devices : nat) (es : list Extent) : outcome (list Interval) :=
  match es with
  | [] => Ret []
  | LinearExtent n d s :: es =>
      _ ← CHECK (d < Z.of_nat n_devices);
      l ← collect_extents n_devices es;
      Ret (mkInterval d s (u64 (s + n)) :: l)
  | ZeroExtent _ :: es => collect_extents n_devices es
  end.
Definition all_extents (ps : list Partition) : list Extent := ps ≫= pt_extents.

(** The gaps between consecutive intervals of a device.
    [liblp/builder.cpp:585-610 MetadataBuilder::ExtentsToFreeList] *)
Fixpoint ExtentsToFreeList (d : LpMetadataBlockDevice) (extents : list Interval)
    : list Interval :=
  match extents with
  | previous :: ((current :: _) as rest) =>
      match AlignSector d (iv_end previous) with
      | Some aligned =>
          if decide (iv_start current ≤ aligned) then ExtentsToFreeList d rest
          else mkInterval (device_index current) aligned (iv_start current)
               :: ExtentsToFreeList d rest
      | None => ExtentsToFreeList d rest
      end
  | _ => []
  end.

(** The intervals of device [i] with its two sentinels, sorted.
    [liblp/builder.cpp:633-644 MetadataBuilder::GetFreeRegions, per device] *)
Definition device_intervals (used : list Interval) (i : nat) (d : LpMetadataBlockDevice)
    : list Interval :=
  let i := Z.of_nat i in
  let first_sector := first_logical_sector d in
  let last_sector := bd_size d / LP_SECTOR_SIZE in
  merge_sort iv_le
    (filter (λ x, device_index x = i) used ++
     [mkInterval i first_sector first_sector; mkInterval i last_sector last_sector]).

(** [liblp/builder.cpp:612-646 MetadataBuilder::GetFreeRegions] *)
Definition GetFreeRegions (b : MetadataBuilder) : outcome (list Interval) :=
  used ← collect_extents (length (b_block_devices b)) (all_extents (b_partitions b));
  Ret (concat (imap (λ i d, ExtentsToFreeList d (device_intervals used i d))
                 (b_block_devices b))).

(** ** Choosing regions *)

(** The split of one region at the midpoint: what goes to the first and to the
    second half.
    [liblp/builder.cpp:791-806 PrioritizeSecondHalfOfSuper, loop] *)
Fixpoint split_halves (midpoint : Z) (free_list : list Interval)
    : list Interval * list Interval :=
  match free_list with
  | [] => ([], [])
  | region :: free_list =>
      let '(first_half, second_half) := split_halves midpoint free_list in
      if decide (device_index region ≠ 0 ∨ iv_end region ≤ midpoint)
      then (region :: first_half, second_half)
      else if decide (iv_start region < midpoint ∧ midpoint < iv_end region)
      then (mkInterval (device_index region) (iv_start region) midpoint :: first_half,
            mkInterval (device_index region) midpoint (iv_end region) :: second_half)
      else (first_half, region :: second_half)
  end.
(** [liblp/builder.cpp:774-809 MetadataBuilder::PrioritizeSecondHalfOfSuper] *)
Definition PrioritizeSecondHalfOfSuper (b : MetadataBuilder) (free_list : list Interval)
    : outcome (list Interval) :=
  super ← access (b_block_devices b !! 0%nat);
  let first_sector := first_logical_sector super in
  let last_sector := bd_size super / LP_SECTOR_SIZE in
  let midpoint := u64 (first_sector + u64 (last_sector - first_sector) / 2) in
  match AlignSector super midpoint with
  | None => Ret free_list
  | Some midpoint =>
      let '(first_half, second_half) := split_halves midpoint free_list in
      Ret (second_half ++ first_half)
  end.

(** [liblp/builder.cpp:846-854 MetadataBuilder::IsAnyRegionCovered] *)
Definition IsAnyRegionCovered (regions : list Interval) (candidate : Extent) : bool :=
  existsb (OverlapsWith_interval candidate) regions.
(** [liblp/builder.cpp:856-869 MetadataBuilder::IsAnyRegionAllocated] *)
Definition IsAnyRegionAllocated (b : MetadataBuilder) (candidate : Extent) : bool :=
  existsb (λ e, OverlapsWith e candidate) (all_extents (b_partitions b)).

(** The extent that fills the unaligned rest after the last one, if it is free.
    [liblp/builder.cpp:811-844 MetadataBuilder::ExtendFinalExtent] *)
Definition ExtendFinalExtent (b : MetadataBuilder) (p : Partition) (free_list : list Interval)
    (sectors_needed : Z) : outcome (option Extent) :=
  match list.last (pt_extents p) with
  | Some (LinearExtent n i s) =>
      d ← access (b_block_devices b !! Z.to_nat i);
      match AlignSector d (end_sector n s) with
      | None => Ret None
      | Some next_aligned_sector =>
          if decide (end_sector n s = next_aligned_sector) then Ret None
          else
            let num := u64 (next_aligned_sector - end_sector n s) `min` sectors_needed in
            let new_extent := LinearExtent num i (end_sector n s) in
            if IsAnyRegionAllocated b new_extent || IsAnyRegionCovered free_list new_extent
            then Ret None else Ret (Some new_extent)
      end
  | _ => Ret None
  end.

(** A region rounded down to whole blocks; [None] skips it.
    [liblp/builder.cpp:739-753 MetadataBuilder::GrowPartition, rounding] *)
Definition block_region (sectors_per_block : Z) (region : Interval) : option Interval :=
  if decide (iv_length region mod sectors_per_block = 0) then Some region
  else
    let region := mkInterval (device_index region) (iv_start region)
          (u64 (iv_start region +
                u64 (iv_length region / sectors_per_block * sectors_per_block))) in
    if decide (iv_length region = 0) then None else Some region.

(** The loop over the free regions: the extents taken and the sectors still needed.
    [liblp/builder.cpp:731-761 MetadataBuilder::GrowPartition, loop] *)
Fixpoint take_regions (sectors_per_block : Z) (regions : list Interval) (sectors_needed : Z)
    : outcome (list Extent * Z) :=
  match regions with
  | [] => Ret ([], sectors_needed)
  | region :: regions =>
      if decide (sectors_needed = 0) then Ret ([], 0)
      else
        match block_region sectors_per_block region with
        | None => take_regions sectors_per_block regions sectors_needed
        | Some region =>
            let sectors := sectors_needed `min` iv_length region in
            _ ← CHECK (sectors mod sectors_per_block = 0);
            '(es, rest) ←
              take_regions sectors_per_block regions (u64 (sectors_needed - sectors));
            Ret (LinearExtent sectors (device_index region) (iv_start region) :: es, rest)
        end
  end.

Section Grow.
Context (fetcher : IPropertyFetcher).

(** [liblp/builder.cpp:700-772 MetadataBuilder::GrowPartition] *)
Definition GrowPartition (name : bytes) (aligned_size : Z) (free_region_hint : list Interval)
    : IO MetadataBuilder unit :=
  b ← get;
  p ← deref name;
  let sectors_needed := u64 (aligned_size - pt_size p) / LP_SECTOR_SIZE in
  free_regions ← lift (GetFreeRegions b);
  let free_regions := if decide (free_region_hint = []) then free_regions
                      else Intersect_list free_regions free_region_hint in
  let sectors_per_block := logical_block_size (b_geometry b) / LP_SECTOR_SIZE in
  _ ← lift (CHECK (sectors_per_block ≠ 0));
  _ ← lift (CHECK (sectors_needed mod sectors_per_block = 0));
  free_regions ← lift (
    if IsABDevice fetcher && ShouldHalveSuper fetcher b &&
       bool_decide (GetPartitionSlotSuffix (pt_name p) = str "_b")
    then PrioritizeSecondHalfOfSuper b free_regions
    else Ret free_regions);
  extent ← lift (ExtendFinalExtent b p free_regions sectors_needed);
  let '(first_extents, sectors_needed) :=
    match extent with
    | Some e => ([e], u64 (sectors_needed - num_sectors e))
    | None => ([], sectors_needed)
    end in
  '(new_extents, rest) ← lift (take_regions sectors_per_block free_regions sectors_needed);
  _ ← lift (require (rest = 0));
  modify (update_partition name (λ p, foldl AddExtent p (first_extents ++ new_extents))).

(** [liblp/builder.cpp:871-873 MetadataBuilder::ShrinkPartition] *)
Definition ShrinkPartition (name : bytes) (aligned_size : Z) : IO MetadataBuilder unit :=
  p ← deref name;
  p' ← lift (ShrinkTo p aligned_size);
  modify (update_partition name (λ _, p')).

(** [liblp/builder.cpp:1069-1097 MetadataBuilder::ResizePartition] *)
Definition ResizePartition (name : bytes) (requested_size : Z)
    (free_region_hint : list Interval) : IO MetadataBuilder unit :=
  b ← get;
  p ← deref name;
  aligned_size ← lift (found (AlignTo 64 requested_size (logical_block_size (b_geometry b))));
  let old_size := pt_size p in
  _ ← lift (ValidatePartitionSizeChange b p old_size aligned_size false);
  if decide (old_size < aligned_size) then GrowPartition name aligned_size free_region_hint
  else if decide (aligned_size < old_size) then ShrinkPartition name aligned_size
  else mret ().
End Grow.
