(* ===== verification/LpFree.v ===== *)
(** * The free regions of a builder's devices

    What [GetFreeRegions] promises to the allocator: regions that are not empty,
    lie inside their device, and share no sector with an extent or with each
    other; and what the choices made from them keep of it. *)
From S2P Require Import Prelude Bytes LpFormat LpUtility Device LpReader LpExtent LpBuilder LpAlloc.

(** The number of sectors of a device. *)
Definition sectors (d : LpMetadataBlockDevice) : Z := bd_size d / LP_SECTOR_SIZE.

(** A device whose area for partitions starts inside it. *)
Record device_ok (d : LpMetadataBlockDevice) : Prop := {
  dok_first : 0 ≤ first_logical_sector d ≤ sectors d;
  dok_size : is_u64 (bd_size d);
  dok_alignment : is_u32 (bd_alignment d);
}.

(** Sectors [start, end) of device [i] are a part of its area. *)
Definition inside (devices : list LpMetadataBlockDevice) (i start end_ : Z) : Prop :=
  0 ≤ i ∧ ∃ dv, devices !! Z.to_nat i = Some dv ∧
    first_logical_sector dv ≤ start ∧ start < end_ ≤ sectors dv.
Definition extent_inside (devices : list LpMetadataBlockDevice) (e : Extent) : Prop :=
  match e with LinearExtent n d s => inside devices d s (s + n) | ZeroExtent n => 0 ≤ n end.
Definition region_inside (devices : list LpMetadataBlockDevice) (r : Interval) : Prop :=
  inside devices (device_index r) (iv_start r) (iv_end r).

(** No sector has two owners, and every owned sector is inside its device. *)
Record layout_ok (devices : list LpMetadataBlockDevice) (es : list Extent) : Prop := {
  lay_devices : Forall device_ok devices;
  lay_inside : Forall (extent_inside devices) es;
  lay_disjoint d s : cover es d s ≤ 1;
}.

(** Regions that may be allocated beside the extents [es]. *)
Record free_list_ok (devices : list LpMetadataBlockDevice) (es : list Extent)
    (free : list Interval) : Prop := {
  fl_inside : Forall (region_inside devices) free;
  fl_disjoint d s : iv_cover free d s + cover es d s ≤ 1;
}.

Lemma sectors_u64 d : device_ok d → is_u64 (sectors d * LP_SECTOR_SIZE) ∧
  sectors d * LP_SECTOR_SIZE ≤ bd_size d.
Proof.
  intros [H1 H2 _]. unfold sectors, LP_SECTOR_SIZE in *.
  pose proof (Z.mul_div_le (bd_size d) 512). lia.
Qed.

(** ** Alignment *)

Lemma AlignSector_ge d s a :
  device_ok d → 0 ≤ s ≤ sectors d → AlignSector d s = Some a → s ≤ a < 2 ^ 64.
Proof.
  intros Hd Hs E. pose proof (sectors_u64 _ Hd) as [Hu _]. destruct Hd as [_ _ Hal].
  unfold AlignSector, LP_SECTOR_SIZE in *. rewrite u64_small in E by lia.
  destruct (AlignTo 64 (s * 512) _) as [o|] eqn:E1; [|done].
  apply AlignTo_Some in E1 as [H1 _]; [|lia|lia]. simpl in E.
  destruct (AlignTo 64 o 512) as [o'|] eqn:E2; [|done].
  apply AlignTo_Some in E2 as [H2 _]; [|lia|lia]. simpl in E. injection E as <-.
  split; [apply Z.div_le_lower_bound; lia|apply Z.div_lt_upper_bound; lia].
Qed.

(** The aligned sector is one of the device's if the size is aligned. *)
Lemma AlignSector_le d s a :
  device_ok d → 0 ≤ s ≤ sectors d → AlignSector d s = Some a →
  (LP_SECTOR_SIZE | bd_size d) → (bd_alignment d ≠ 0 → (bd_alignment d | bd_size d)) →
  a ≤ sectors d.
Proof.
  intros Hd Hs E [k Hk] Hdiv. pose proof (sectors_u64 _ Hd) as [Hu Hle]. destruct Hd as [_ Hb Hal].
  unfold AlignSector, sectors, LP_SECTOR_SIZE in *. rewrite u64_small in E by lia.
  destruct (AlignTo 64 (s * 512) _) as [o|] eqn:E1; [|done]. simpl in E.
  destruct (AlignTo 64 o 512) as [o'|] eqn:E2; [|done]. simpl in E. injection E as <-.
  assert (o ≤ bd_size d).
  { destruct (decide (bd_alignment d = 0)) as [Hz|Hz].
    - rewrite Hz, AlignTo_0 in E1. injection E1 as <-. lia.
    - eapply AlignTo_le; [|exact E1|lia|lia|by apply Hdiv]. lia. }
  apply AlignTo_Some in E1 as [H1 _]; [|lia|lia].
  assert (o' ≤ bd_size d) by (eapply AlignTo_le; [|exact E2|lia|lia|by exists k]; lia).
  apply Z.div_le_mono; lia.
Qed.

(** A sector is aligned already on a device without coarser alignment. *)
Lemma AlignSector_fine d s :
  device_ok d → 0 ≤ s ≤ sectors d → bd_alignment d = 0 ∨ (bd_alignment d | LP_SECTOR_SIZE) →
  AlignSector d s = Some s.
Proof.
  intros Hd Hs Hf. pose proof (sectors_u64 _ Hd) as [Hu _]. unfold AlignSector, LP_SECTOR_SIZE in *.
  rewrite u64_small by lia.
  assert (AlignTo 64 (s * 512) (bd_alignment d) = Some (s * 512)) as ->.
  { destruct Hf as [->|Hf]; [apply AlignTo_0|]. apply AlignTo_aligned.
    by apply Z.divide_mul_r. }
  simpl. rewrite AlignTo_aligned by (by exists s). simpl. by rewrite Z.div_mul.
Qed.

(** ** Sorted intervals and their gaps *)

(** Intervals of one device, between two bounds; empty ones only at the bounds. *)
Record bounded (i first last : Z) (l : list Interval) : Prop := {
  bnd_device : Forall (λ x, device_index x = i) l;
  bnd_range : Forall (λ x, first ≤ iv_start x ≤ iv_end x ∧ iv_end x ≤ last) l;
  bnd_empty : Forall (λ x, iv_start x = iv_end x → iv_start x = first ∨ iv_start x = last) l;
  bnd_cover : ∀ s, iv_cover l i s ≤ 1;
}.
(** [a] ends before [b] starts. *)
Definition before (a b : Interval) : Prop := iv_end a ≤ iv_start b.

Lemma iv_le_start a b : iv_le a b →
  iv_start a < iv_start b ∨ iv_start a = iv_start b ∧ iv_end a ≤ iv_end b.
Proof. unfold iv_le, iv_lt. repeat case_decide; rewrite bool_decide_eq_false; lia. Qed.

#[export] Instance iv_le_total : Total iv_le.
Proof.
  intros a b. unfold iv_le, iv_lt. repeat case_decide; rewrite !bool_decide_eq_false; lia.
Qed.
#[export] Instance iv_le_trans : Transitive iv_le.
Proof.
  intros a b c. unfold iv_le, iv_lt. repeat case_decide; rewrite !bool_decide_eq_false; lia.
Qed.

Lemma iv_cover_cons a l d s : iv_cover (a :: l) d s = iv_owns a d s + iv_cover l d s.
Proof. done. Qed.
Lemma iv_owns_1 a d s : device_index a = d → iv_start a ≤ s < iv_end a → iv_owns a d s = 1.
Proof. intros. unfold iv_owns. by rewrite decide_True. Qed.
Lemma iv_owns_0 a d s : ¬ (device_index a = d ∧ iv_start a ≤ s < iv_end a) → iv_owns a d s = 0.
Proof. intros. unfold iv_owns. by rewrite decide_False. Qed.
Lemma iv_cover_0 l d s :
  Forall (λ a, ¬ (device_index a = d ∧ iv_start a ≤ s < iv_end a)) l → iv_cover l d s = 0.
Proof. induction 1 as [|a l Ha _ IH]; [done|]. by rewrite iv_cover_cons, iv_owns_0, IH. Qed.

Lemma bounded_cons i first last a l : bounded i first last (a :: l) → bounded i first last l.
Proof.
  intros [H1%Forall_cons H2%Forall_cons H3%Forall_cons H4].
  split; [apply H1|apply H2|apply H3|]. intros s. specialize (H4 s).
  rewrite iv_cover_cons in H4. pose proof (iv_owns_range a i s). lia.
Qed.

Lemma sorted_before i first last l :
  StronglySorted iv_le l → bounded i first last l → StronglySorted before l.
Proof.
  induction 1 as [|a l Hs IH Ha]; intros Hb; [constructor|].
  constructor; [by apply IH, (bounded_cons _ _ _ a)|].
  destruct Hb as [[Da Dl]%Forall_cons [Ra Rl]%Forall_cons [Ea El]%Forall_cons Hc].
  rewrite !Forall_forall in *. intros b Hbl. unfold before.
  pose proof (iv_le_start _ _ (Ha b Hbl)) as Hle.
  specialize (Dl b Hbl). specialize (Rl b Hbl). specialize (El b Hbl).
  destruct (decide (iv_end a ≤ iv_start b)) as [|Hgt]; [done|].
  destruct (decide (iv_start b = iv_end b)) as [Heq|Hne]; [lia|].
  specialize (Hc (iv_start b)). rewrite iv_cover_cons, iv_owns_1 in Hc by (done || lia).
  pose proof (iv_cover_elem b l i (iv_start b) Hbl Dl). lia.
Qed.

Lemma gaps_cons dv a b l :
  ExtentsToFreeList dv (a :: b :: l) =
  match AlignSector dv (iv_end a) with
  | Some aligned =>
      if decide (iv_start b ≤ aligned) then ExtentsToFreeList dv (b :: l)
      else mkInterval (device_index b) aligned (iv_start b) :: ExtentsToFreeList dv (b :: l)
  | None => ExtentsToFreeList dv (b :: l)
  end.
Proof. done. Qed.

(** What the gaps of a sorted list are: between the end of its first interval and
    [last], never empty, and disjoint from the list and from each other. *)
Lemma gaps_ok dv i first a l :
  device_ok dv → 0 ≤ first → StronglySorted before (a :: l) →
  bounded i first (sectors dv) (a :: l) →
  let gaps := ExtentsToFreeList dv (a :: l) in
  Forall (λ g, device_index g = i ∧ iv_end a ≤ iv_start g < iv_end g ∧ iv_end g ≤ sectors dv ∧
               ∃ s, 0 ≤ s ≤ sectors dv ∧ AlignSector dv s = Some (iv_start g)) gaps ∧
  (∀ s, iv_cover gaps i s + iv_cover (a :: l) i s ≤ 1).
Proof.
  intros Hd Hf. revert a. induction l as [|b l IH]; intros a Hs Hb gaps; subst gaps.
  { simpl. split; [done|]. intros s. pose proof (iv_owns_range a i s). lia. }
  pose proof (bounded_cons _ _ _ _ _ Hb) as Hb'.
  apply StronglySorted_inv in Hs as [Hs Ha].
  destruct (IH b Hs Hb') as [Hg Hc]. clear IH.
  destruct Hb as [[Da [Db _]%Forall_cons]%Forall_cons [Ra [Rb _]%Forall_cons]%Forall_cons _ _].
  assert (Hab : iv_end a ≤ iv_start b) by (by apply Forall_cons in Ha as [? _]).
  cbv beta in *.
  assert (Hg' : Forall (λ g, device_index g = i ∧ iv_end a ≤ iv_start g < iv_end g ∧
     iv_end g ≤ sectors dv ∧ ∃ s, 0 ≤ s ≤ sectors dv ∧ AlignSector dv s = Some (iv_start g))
     (ExtentsToFreeList dv (b :: l))).
  { eapply Forall_impl; [exact Hg|]. intros g (?&?&?&?). split_and!; try done; lia. }
  assert (Hzero : ∀ s, s < iv_end b → iv_cover (ExtentsToFreeList dv (b :: l)) i s = 0).
  { intros s Hlt. apply iv_cover_0. eapply Forall_impl; [exact Hg|]. intros g. simpl. lia. }
  assert (Hlow : ∀ s, s < iv_start b → iv_cover (b :: l) i s = 0).
  { intros s Hlt. apply iv_cover_0. constructor; [lia|].
    apply StronglySorted_inv in Hs as [_ Hbl]. eapply Forall_impl; [exact Hbl|].
    unfold before. intros c. simpl. lia. }
  assert (Hsum : ∀ s, iv_cover (ExtentsToFreeList dv (b :: l)) i s +
                      (iv_owns a i s + iv_cover (b :: l) i s) ≤ 1).
  { intros s. pose proof (iv_owns_range a i s). destruct (decide (s < iv_end a)).
    - rewrite Hzero, Hlow by lia. lia.
    - rewrite (iv_owns_0 a) by lia. specialize (Hc s). lia. }
  rewrite gaps_cons. destruct (AlignSector dv (iv_end a)) as [s0|] eqn:E; [|by split].
  case_decide as Hle; [by split|].
  pose proof (AlignSector_ge dv (iv_end a) s0 Hd ltac:(lia) E). split.
  - constructor; [|done]. simpl. split_and!; try lia. exists (iv_end a). split; [lia|done].
  - intros s. specialize (Hsum s). rewrite !(iv_cover_cons _ _ i s) in *.
    destruct (decide (s0 ≤ s < iv_start b)).
    + specialize (Hzero s). specialize (Hlow s). rewrite iv_cover_cons in Hlow.
      rewrite (iv_owns_1 (mkInterval _ _ _)), (iv_owns_0 a) by (done || lia). lia.
    + rewrite (iv_owns_0 (mkInterval _ _ _)) by (simpl; lia). lia.
Qed.

(** ** The intervals of one device *)

Lemma bounded_perm i first last l k : l ≡ₚ k → bounded i first last l → bounded i first last k.
Proof.
  intros Hp [H1 H2 H3 H4]. split; [by rewrite <- Hp..|].
  intros s. by rewrite <- (iv_cover_perm _ _ i s Hp).
Qed.

Lemma collect_extents_ok devices es :
  Forall device_ok devices → Forall (extent_inside devices) es →
  ∃ used, collect_extents (length devices) es = Ret used ∧
    Forall (region_inside devices) used ∧ ∀ d s, iv_cover used d s = cover es d s.
Proof.
  intros Hd. induction 1 as [|e es He Hes (used & IH & Hu & Hc)]; [by exists []|].
  destruct e as [n d s|n]; simpl.
  - pose proof He as (Hd0 & dv & Hl & Hf & Hlt). pose proof (lookup_lt_Some _ _ _ Hl).
    rewrite Forall_forall in Hd. pose proof (Hd dv (list_elem_of_lookup_2 _ _ _ Hl)) as Hdv.
    pose proof (sectors_u64 _ Hdv). pose proof (dok_first _ Hdv). unfold LP_SECTOR_SIZE in *.
    rewrite CHECK_True, IH, u64_small by lia. simpl.
    exists (mkInterval d s (s + n) :: used). split_and!; [done|by constructor|].
    intros d' s'. simpl. by rewrite Hc.
  - exists used. by split_and!.
Qed.

Lemma iv_cover_filter (l : list Interval) d s :
  iv_cover (filter (λ x, device_index x = d) l) d s = iv_cover l d s.
Proof.
  induction l as [|a l IH]; [done|]. rewrite filter_cons. case_decide; simpl; [lia|].
  rewrite iv_owns_0 by (by intros [? _]). lia.
Qed.

Lemma device_intervals_ok devices used j dv :
  device_ok dv → devices !! j = Some dv → Forall (region_inside devices) used →
  (∀ s, iv_cover used (Z.of_nat j) s ≤ 1) →
  let l := device_intervals used j dv in
  StronglySorted before l ∧ bounded (Z.of_nat j) (first_logical_sector dv) (sectors dv) l ∧
  l ≠ [] ∧ ∀ s, iv_cover l (Z.of_nat j) s = iv_cover used (Z.of_nat j) s.
Proof.
  intros Hd Hj Hu Hc. pose proof (dok_first _ Hd) as Hf. intros l. subst l.
  unfold device_intervals. set (pre := _ ++ _).
  assert (Hcov : ∀ s, iv_cover pre (Z.of_nat j) s = iv_cover used (Z.of_nat j) s).
  { intros s. subst pre. rewrite iv_cover_app, iv_cover_filter. simpl.
    rewrite !iv_owns_0 by (simpl; lia). lia. }
  assert (Hb : bounded (Z.of_nat j) (first_logical_sector dv) (sectors dv) pre).
  { assert (Hin : Forall (λ x, device_index x = Z.of_nat j ∧ first_logical_sector dv ≤ iv_start x
      ∧ iv_start x < iv_end x ≤ sectors dv) (filter (λ x, device_index x = Z.of_nat j) used)).
    { rewrite Forall_forall in *. intros x [Hx Hux]%list_elem_of_filter.
      destruct (Hu x Hux) as (_ & dv' & Hl & Hr). rewrite Hx, Nat2Z.id, Hj in Hl.
      by simplify_eq. }
    split; [..|by intros s; rewrite Hcov];
      (apply Forall_app; split;
       [eapply Forall_impl; [exact Hin|]; simpl; lia
       |repeat constructor; simpl; unfold sectors in *; lia]). }
  assert (Hp : merge_sort iv_le pre ≡ₚ pre) by apply merge_sort_Permutation.
  pose proof (bounded_perm _ _ _ _ _ (symmetry Hp) Hb) as Hb'. split_and!.
  - eapply sorted_before; [apply StronglySorted_merge_sort; apply _|done].
  - done.
  - intros Hn. rewrite Hn in Hp. apply Permutation_nil_l in Hp. subst pre.
    by destruct (filter _ _).
  - intros s. by rewrite (iv_cover_perm _ _ _ _ Hp).
Qed.

(** ** All devices *)

Lemma iv_cover_imap (f : nat → LpMetadataBlockDevice → list Interval) (l : list LpMetadataBlockDevice) k d s :
  (∀ j dv, l !! j = Some dv → Forall (λ x, device_index x = Z.of_nat (k + j)) (f (k + j)%nat dv)) →
  iv_cover (concat (imap (λ j, f (k + j)%nat) l)) d s =
  match l !! (Z.to_nat d - k)%nat with
  | Some dv => if decide (Z.of_nat k ≤ d) then iv_cover (f (Z.to_nat d) dv) d s else 0
  | None => 0
  end.
Proof.
  revert f k. induction l as [|dv l IH]; intros f k Hf; [done|]. simpl.
  rewrite iv_cover_app. pose proof (Hf 0%nat dv eq_refl) as H0. rewrite Nat.add_0_r in *.
  assert (Hother : Z.of_nat k ≠ d → iv_cover (f k dv) d s = 0).
  { intros Hne. apply iv_cover_0. eapply Forall_impl; [exact H0|]. simpl. lia. }
  rewrite (imap_ext _ (λ j, f (S k + j)%nat)) by (intros; simpl; do 2 f_equal; lia).
  rewrite IH.
  2:{ intros j dv' Hj. specialize (Hf (S j) dv' Hj).
      by replace (S k + j)%nat with (k + S j)%nat by lia. }
  destruct (decide (Z.of_nat k = d)) as [Heq|Hne].
  - replace (Z.to_nat d - k)%nat with 0%nat by lia. simpl. rewrite decide_True by lia.
    replace (Z.to_nat d) with k by lia. destruct (l !! _); [|lia].
    rewrite decide_False by lia. lia.
  - rewrite Hother by done. destruct (decide (Z.of_nat k ≤ d)) as [Hle|Hgt].
    + replace (Z.to_nat d - k)%nat with (S (Z.to_nat d - S k)) by lia. simpl.
      destruct (l !! _); [|done]. by rewrite decide_True by lia.
    + destruct (l !! _) as [x|]; destruct ((dv :: l) !! _) as [y|]; try done;
        rewrite ?(decide_False (P := Z.of_nat (S k) ≤ d)) by lia; done.
Qed.

(** A region of the free list starts at an aligned sector. *)
Definition aligned_start (devices : list LpMetadataBlockDevice) (r : Interval) : Prop :=
  ∃ dv s, devices !! Z.to_nat (device_index r) = Some dv ∧ 0 ≤ s ≤ sectors dv ∧
          AlignSector dv s = Some (iv_start r).

(** The free regions of one device. *)
Definition device_gaps (used : list Interval) (j : nat) (dv : LpMetadataBlockDevice)
    : list Interval :=
  ExtentsToFreeList dv (device_intervals used j dv).

Lemma device_gaps_ok devices used j dv :
  device_ok dv → devices !! j = Some dv → Forall (region_inside devices) used →
  (∀ s, iv_cover used (Z.of_nat j) s ≤ 1) →
  Forall (λ g, device_index g = Z.of_nat j ∧ region_inside devices g ∧ aligned_start devices g)
    (device_gaps used j dv) ∧
  ∀ s, iv_cover (device_gaps used j dv) (Z.of_nat j) s + iv_cover used (Z.of_nat j) s ≤ 1.
Proof.
  intros Hdv Hj Hu Hc. pose proof (dok_first _ Hdv).
  destruct (device_intervals_ok devices used j dv Hdv Hj Hu Hc) as (Hs & Hb & Hne & Hl).
  unfold device_gaps. destruct (device_intervals used j dv) as [|a l]; [done|].
  destruct (gaps_ok dv (Z.of_nat j) (first_logical_sector dv) a l Hdv ltac:(lia) Hs Hb)
    as [Hg Hsum]. split; [|intros s; by rewrite <- Hl].
  destruct Hb as [_ [Hr _]%Forall_cons _ _].
  eapply Forall_impl; [exact Hg|]. intros g (Hgi & H1 & H2 & s & H3 & H4).
  split; [done|]. unfold region_inside, aligned_start, inside. rewrite Hgi, Nat2Z.id.
  split; [split; [lia|]; exists dv; split_and!; try done; simpl in Hr; lia|].
  by exists dv, s.
Qed.

(** The free list of a builder is that of its devices. *)
Lemma GetFreeRegions_devices b :
  layout_ok (b_block_devices b) (all_extents (b_partitions b)) →
  let devs := b_block_devices b in let es := all_extents (b_partitions b) in
  ∃ used, GetFreeRegions b = Ret (concat (imap (device_gaps used) devs)) ∧
    Forall (region_inside devs) used ∧ (∀ d s, iv_cover used d s = cover es d s) ∧
    ∀ d s, iv_cover (concat (imap (device_gaps used) devs)) d s =
      match devs !! Z.to_nat d with
      | Some dv => if decide (0 ≤ d) then iv_cover (device_gaps used (Z.to_nat d) dv) d s else 0
      | None => 0
      end.
Proof.
  intros [Hd Hi Hc] devs es. unfold GetFreeRegions.
  destruct (collect_extents_ok _ _ Hd Hi) as (used & -> & Hu & Hcov). simpl.
  exists used. split_and!; [done..|]. intros d s.
  change (concat (imap (device_gaps used) devs))
    with (concat (imap (λ j, device_gaps used (0 + j)%nat) devs)).
  rewrite (iv_cover_imap (device_gaps used) devs 0 d s); [by rewrite Nat.sub_0_r|].
  intros j dv Hj. pose proof (Forall_lookup_1 _ _ _ _ Hd Hj) as Hdv.
  eapply Forall_impl; [apply (device_gaps_ok devs used j dv Hdv Hj Hu)|by intros ? [? _]].
  intros t. by rewrite Hcov.
Qed.

Lemma GetFreeRegions_ok b :
  layout_ok (b_block_devices b) (all_extents (b_partitions b)) →
  ∃ free, GetFreeRegions b = Ret free ∧
    free_list_ok (b_block_devices b) (all_extents (b_partitions b)) free ∧
    Forall (aligned_start (b_block_devices b)) free.
Proof.
  intros Hlay. destruct (GetFreeRegions_devices b Hlay) as (used & -> & Hu & Hcov & Hdec).
  destruct Hlay as [Hd Hi Hc]. eexists. split; [done|].
  assert (Hdev : ∀ j dv, b_block_devices b !! j = Some dv → _) by (
    intros j dv Hj; refine (device_gaps_ok _ used j dv (Forall_lookup_1 _ _ _ _ Hd Hj) Hj Hu _);
    intros s; by rewrite Hcov).
  assert (Hall : Forall (λ g, region_inside (b_block_devices b) g ∧
    aligned_start (b_block_devices b) g) (concat (imap (device_gaps used) (b_block_devices b)))).
  { apply Forall_concat, Forall_lookup_2. intros j l Hj.
    rewrite list_lookup_imap in Hj. apply fmap_Some in Hj as (dv & Hj & ->).
    eapply Forall_impl; [apply (Hdev j dv Hj)|]. by intros ? [_ ?]. }
  rewrite Forall_and in Hall. destruct Hall as [Hin Hal]. split; [|done].
  split; [done|]. intros d s. rewrite Hdec. specialize (Hc d s).
  destruct (b_block_devices b !! Z.to_nat d) as [dv|] eqn:Hj; [|lia]. case_decide; [|lia].
  pose proof (proj2 (Hdev _ _ Hj) s) as Hs. by rewrite Z2Nat.id, Hcov in Hs.
Qed.

(** *** Without coarse alignment nothing is lost *)

Definition fine (d : LpMetadataBlockDevice) : Prop :=
  bd_alignment d = 0 ∨ (bd_alignment d | LP_SECTOR_SIZE).

Lemma gaps_complete dv i first a l x s :
  device_ok dv → fine dv → 0 ≤ first →
  bounded i first (sectors dv) (a :: l) → x ∈ a :: l → iv_start a ≤ s < iv_end x →
  1 ≤ iv_cover (ExtentsToFreeList dv (a :: l)) i s + iv_cover (a :: l) i s.
Proof.
  intros Hd Hfine Hf. revert a. induction l as [|b l IH]; intros a Hb Hx Hs.
  { apply list_elem_of_singleton in Hx as ->. destruct Hb as [[Da _]%Forall_cons _ _ _].
    rewrite iv_cover_cons, iv_owns_1 by done. simpl. lia. }
  pose proof (bounded_cons _ _ _ _ _ Hb) as Hb'.
  destruct Hb as [[Da [Db _]%Forall_cons]%Forall_cons [Ra [Rb _]%Forall_cons]%Forall_cons _ _].
  cbv beta in *. rewrite gaps_cons, (iv_cover_cons a).
  pose proof (iv_cover_nonneg (b :: l) i s).
  pose proof (iv_cover_nonneg (ExtentsToFreeList dv (b :: l)) i s).
  pose proof (iv_owns_range a i s).
  rewrite AlignSector_fine by (done || lia).
  set (gap := mkInterval _ (iv_end a) (iv_start b)). pose proof (iv_owns_range gap i s).
  destruct (decide (s < iv_end a)).
  { rewrite (iv_owns_1 a) by (done || lia). case_decide; rewrite ?(iv_cover_cons gap); lia. }
  apply elem_of_cons in Hx as [->|Hx]; [lia|].
  destruct (decide (s < iv_start b)).
  - rewrite decide_False, (iv_cover_cons gap), (iv_owns_1 gap) by (done || (simpl; lia)). lia.
  - specialize (IH b Hb' Hx ltac:(lia)). case_decide; rewrite ?(iv_cover_cons gap); lia.
Qed.

Lemma device_gaps_complete devices used j dv s :
  device_ok dv → fine dv → devices !! j = Some dv → Forall (region_inside devices) used →
  (∀ s, iv_cover used (Z.of_nat j) s ≤ 1) → first_logical_sector dv ≤ s < sectors dv →
  1 ≤ iv_cover (device_gaps used j dv) (Z.of_nat j) s + iv_cover used (Z.of_nat j) s.
Proof.
  intros Hok Hfine Hj Hu Hc Hs. pose proof (dok_first _ Hok).
  destruct (device_intervals_ok devices used _ dv Hok Hj Hu Hc) as (H1 & H2 & H3 & H4).
  rewrite <- H4. unfold device_gaps. set (i := Z.of_nat j) in *.
  assert (Hin : mkInterval i (first_logical_sector dv) (first_logical_sector dv)
                  ∈ device_intervals used j dv ∧
                mkInterval i (sectors dv) (sectors dv) ∈ device_intervals used j dv).
  { unfold device_intervals. rewrite !merge_sort_Permutation, !elem_of_app.
    split; right; [left|right; left]. }
  assert (Hss : StronglySorted iv_le (device_intervals used j dv)).
  { apply StronglySorted_merge_sort; apply _. }
  destruct (device_intervals used j dv) as [|a l]; [done|].
  apply (gaps_complete dv i (first_logical_sector dv) a l (mkInterval i (sectors dv) (sectors dv)));
    try done; [lia|apply Hin|].
  simpl. split; [|lia]. apply StronglySorted_inv in Hss as [_ Ha].
  destruct Hin as [[<-|Hin]%elem_of_cons _]; [simpl; lia|].
  rewrite Forall_forall in Ha. pose proof (iv_le_start _ _ (Ha _ Hin)). simpl in *. lia.
Qed.

Lemma GetFreeRegions_complete b free d dv s :
  layout_ok (b_block_devices b) (all_extents (b_partitions b)) →
  GetFreeRegions b = Ret free → 0 ≤ d → b_block_devices b !! Z.to_nat d = Some dv → fine dv →
  first_logical_sector dv ≤ s < sectors dv →
  iv_cover free d s + cover (all_extents (b_partitions b)) d s = 1.
Proof.
  intros Hlay E Hd0 Hj Hfine Hs. destruct (GetFreeRegions_ok b Hlay) as (free' & E' & [_ Hle] & _).
  rewrite E in E'. apply Ret_inj in E' as <-. specialize (Hle d s).
  destruct (GetFreeRegions_devices b Hlay) as (used & E' & Hu & Hcov & Hdec).
  rewrite E in E'. apply Ret_inj in E' as ->. destruct Hlay as [Hd Hi Hc].
  rewrite Hdec, Hj, decide_True in * by done. rewrite <- Hcov in *.
  pose proof (device_gaps_complete (b_block_devices b) used (Z.to_nat d) dv s
    (Forall_lookup_1 _ _ _ _ Hd Hj) Hfine Hj Hu) as Hge.
  rewrite Z2Nat.id in Hge by done. apply Z.le_antisymm; [done|]. apply Hge; [|done].
  intros t. by rewrite Hcov.
Qed.
