(* ===== verification/LpGrow.v ===== *)
(** * Growing and shrinking partitions

    The regions chosen for a partition are free, also after the intersection with
    a hint and the preference for the second half of the super device; and what
    [GrowPartition], [ShrinkPartition] and [ResizePartition] leave behind. *)
From S2P Require Import Prelude Bytes LpFormat LpUtility Device LpReader LpExtent LpBuilder LpAlloc LpFree.

(** ** Intersection with a hint *)

Lemma Intersect_owns a b d s : iv_owns (Intersect a b) d s = iv_owns a d s * iv_owns b d s.
Proof.
  unfold iv_owns, Intersect. destruct (decide (device_index a = device_index b)); simpl.
  - repeat case_decide; lia.
  - rewrite decide_False by lia. repeat case_decide; lia.
Qed.

(** The region starts at a block of [lbs] bytes, if its device is aligned. *)
Definition starts_on_block (devices : list LpMetadataBlockDevice) (lbs : Z) (r : Interval) : Prop :=
  ∀ dv, devices !! Z.to_nat (device_index r) = Some dv → bd_alignment dv ≠ 0 →
    (lbs | iv_start r * LP_SECTOR_SIZE).

(** An alignment is one to whole blocks. *)
Definition device_blocks (devices : list LpMetadataBlockDevice) (lbs : Z) : Prop :=
  Forall (λ d, bd_alignment d ≠ 0 → (lbs | bd_alignment d)) devices.

(** The extent has whole blocks, and ends at one if its device is aligned. *)
Definition on_blocks (devices : list LpMetadataBlockDevice) (lbs : Z) (e : Extent) : Prop :=
  (lbs | num_sectors e * LP_SECTOR_SIZE) ∧
  match e with
  | LinearExtent n d s => ∀ dv, devices !! Z.to_nat d = Some dv → bd_alignment dv ≠ 0 →
      (lbs | (s + n) * LP_SECTOR_SIZE)
  | ZeroExtent _ => True
  end.

(** Regions of 64-bit sectors that share none and start on blocks. *)
Record hint_ok (devices : list LpMetadataBlockDevice) (lbs : Z) (hint : list Interval) : Prop := {
  hint_bounds : Forall (λ r, is_u64 (iv_start r) ∧ is_u64 (iv_end r)) hint;
  hint_disjoint d s : iv_cover hint d s ≤ 1;
  hint_blocks : Forall (starts_on_block devices lbs) hint;
}.

Lemma Intersect_length a b :
  is_u64 (iv_start a) → is_u64 (iv_end a) → is_u64 (iv_start b) → is_u64 (iv_end b) →
  0 < iv_length (Intersect a b) ↔ iv_start (Intersect a b) < iv_end (Intersect a b).
Proof.
  intros. unfold iv_length, Intersect. case_decide; simpl; rewrite u64_small; lia.
Qed.

(** A sector is in the intersection if it is in both lists. *)
Lemma Intersect_list_cover a b d s :
  Forall (λ r, is_u64 (iv_start r) ∧ is_u64 (iv_end r)) a →
  Forall (λ r, is_u64 (iv_start r) ∧ is_u64 (iv_end r)) b →
  iv_cover (Intersect_list a b) d s = iv_cover a d s * iv_cover b d s.
Proof.
  intros Ha Hb. unfold Intersect_list. induction Ha as [|x a [Hx1 Hx2] Ha IH]; [done|].
  csimpl. rewrite iv_cover_app, IH, Z.mul_add_distr_r. f_equal. clear IH.
  induction Hb as [|y b [Hy1 Hy2] Hb IH]; csimpl; [lia|].
  rewrite iv_cover_app, IH, Z.mul_add_distr_l, <- Intersect_owns. f_equal.
  pose proof (Intersect_length x y Hx1 Hx2 Hy1 Hy2). case_decide; simpl; [lia|].
  rewrite iv_owns_0; lia.
Qed.

Lemma Intersect_list_inside devices a b :
  Forall (λ r, is_u64 (iv_start r) ∧ is_u64 (iv_end r)) a →
  Forall (λ r, is_u64 (iv_start r) ∧ is_u64 (iv_end r)) b →
  Forall (region_inside devices) a → Forall (region_inside devices) (Intersect_list a b).
Proof.
  rewrite !Forall_forall. intros Ha Hb Hin z Hz.
  unfold Intersect_list in Hz. apply list_elem_of_bind in Hz as (x & Hz & Hx).
  apply list_elem_of_bind in Hz as (y & Hz & Hy). case_decide as Hl; [|by apply not_elem_of_nil in Hz].
  apply list_elem_of_singleton in Hz as ->.
  destruct (Ha x Hx) as [Hx1 Hx2], (Hb y Hy) as [Hy1 Hy2]. apply Intersect_length in Hl; [|done..].
  destruct (Hin x Hx) as (Hd & dv & Hdv & H1 & H2). unfold region_inside, inside, Intersect in *.
  case_decide; simpl in *; [|lia]. split; [done|]. exists dv. split_and!; [done|lia..].
Qed.

Lemma region_u64 devices es r :
  Forall device_ok devices → Forall (extent_inside devices) es → region_inside devices r →
  is_u64 (iv_start r) ∧ is_u64 (iv_end r).
Proof.
  intros Hd _ (Hi & dv & Hdv & H1 & H2). pose proof (Forall_lookup_1 _ _ _ _ Hd Hdv) as Hok.
  pose proof (sectors_u64 _ Hok). pose proof (dok_first _ Hok). unfold LP_SECTOR_SIZE in *. lia.
Qed.

Lemma free_list_u64 devices es free :
  layout_ok devices es → free_list_ok devices es free →
  Forall (λ r, is_u64 (iv_start r) ∧ is_u64 (iv_end r)) free.
Proof.
  intros [Hd Hi _] [Hf _]. eapply Forall_impl; [exact Hf|]. intros r. by eapply region_u64.
Qed.

Lemma Intersect_list_blocks devices lbs a b :
  Forall (starts_on_block devices lbs) a → Forall (starts_on_block devices lbs) b →
  Forall (starts_on_block devices lbs) (Intersect_list a b).
Proof.
  rewrite !Forall_forall. intros Ha Hb z Hz.
  unfold Intersect_list in Hz. apply list_elem_of_bind in Hz as (x & Hz & Hx).
  apply list_elem_of_bind in Hz as (y & Hz & Hy). case_decide as Hl; [|by apply not_elem_of_nil in Hz].
  apply list_elem_of_singleton in Hz as ->. specialize (Ha x Hx). specialize (Hb y Hy).
  unfold starts_on_block, Intersect in *. case_decide as Hd; [|done]. rewrite <- Hd in Hb.
  simpl. intros dv Hdv Hal. specialize (Ha dv Hdv Hal). specialize (Hb dv Hdv Hal).
  by destruct (Z.max_spec (iv_start x) (iv_start y)) as [[_ ->]|[_ ->]].
Qed.

Lemma Intersect_list_free devices lbs es free hint :
  layout_ok devices es → free_list_ok devices es free → hint_ok devices lbs hint →
  free_list_ok devices es (Intersect_list free hint).
Proof.
  intros Hlay Hfree [Hb Hc _]. pose proof (free_list_u64 _ _ _ Hlay Hfree) as Hu.
  destruct Hfree as [Hin Hdis]. split; [by apply Intersect_list_inside|]. intros d s.
  rewrite Intersect_list_cover by done. specialize (Hc d s). specialize (Hdis d s).
  pose proof (iv_cover_nonneg hint d s). pose proof (iv_cover_nonneg free d s). nia.
Qed.

(** ** The second half first *)

Lemma split_halves_ok devices midpoint free :
  let '(l, r) := split_halves midpoint free in
  (∀ d s, iv_cover (r ++ l) d s = iv_cover free d s) ∧
  (Forall (region_inside devices) free → Forall (region_inside devices) (r ++ l)).
Proof.
  induction free as [|x free IH]; simpl; [done|].
  destruct (split_halves midpoint free) as [l r]. destruct IH as [Hc Hin].
  assert (Hc' : ∀ d s, iv_cover r d s + iv_cover l d s = iv_cover free d s).
  { intros. by rewrite <- Hc, iv_cover_app. }
  assert (Hin' : Forall (region_inside devices) free →
    Forall (region_inside devices) r ∧ Forall (region_inside devices) l).
  { intros H. by apply Forall_app, Hin. }
  repeat case_decide; (split; [intros d s; rewrite iv_cover_app; simpl; rewrite <- (Hc' d s)
                              |intros [Hx Hf]%Forall_cons; destruct (Hin' Hf) as [Hr Hl]]).
  - lia.
  - apply Forall_app. split; [done|by constructor].
  - unfold iv_owns. simpl. repeat case_decide; lia.
  - destruct Hx as (Hi & dv & Hdv & H1 & H2). simpl.
    constructor; [|apply Forall_app; split; [done|constructor; [|done]]];
      (split; [done|]; exists dv; simpl; split_and!; (done || lia)).
  - lia.
  - apply Forall_app. split; [by constructor|done].
Qed.

(** An aligned sector is at a block. *)
Lemma AlignSector_on_block dv lbs s a :
  0 ≤ bd_alignment dv → AlignSector dv s = Some a → bd_alignment dv ≠ 0 →
  (lbs | bd_alignment dv) → (LP_SECTOR_SIZE | lbs) → (lbs | a * LP_SECTOR_SIZE).
Proof.
  intros Hal E Hz Ha H512. unfold AlignSector in E. cbv zeta in E.
  destruct (AlignTo 64 (u64 _) _) as [o|] eqn:E1; [|done].
  apply AlignTo_Some in E1 as (_ & _ & Hdiv); [|lia|apply u64_range].
  destruct (Hdiv Hz) as [Ho _]. assert (Hlo : (lbs | o)) by (by apply (Z.divide_trans _ _ _ Ha)).
  assert (H5o : (LP_SECTOR_SIZE | o)) by (by apply (Z.divide_trans _ _ _ H512)). simpl in E.
  rewrite AlignTo_aligned in E by done. simpl in E. injection E as <-.
  destruct H5o as [k ->]. by rewrite Z.div_mul.
Qed.

Lemma split_halves_blocks devices lbs midpoint free :
  (∀ dv, devices !! 0%nat = Some dv → bd_alignment dv ≠ 0 → (lbs | midpoint * LP_SECTOR_SIZE)) →
  Forall (starts_on_block devices lbs) free →
  let '(l, r) := split_halves midpoint free in
  Forall (starts_on_block devices lbs) l ∧ Forall (starts_on_block devices lbs) r.
Proof.
  intros Hm. induction 1 as [|x free Hx Hf IH]; simpl; [done|].
  destruct (split_halves midpoint free) as [l r]. destruct IH as [Hl Hr].
  case_decide as H0; [|case_decide as H1]; split; try (by constructor); try done.
  constructor; [|done]. intros dv Hdv. apply Hm. simpl in Hdv.
  by replace (device_index x) with 0 in Hdv by lia.
Qed.

Lemma PrioritizeSecondHalf_free b es free lbs :
  b_block_devices b ≠ [] → Forall device_ok (b_block_devices b) → (LP_SECTOR_SIZE | lbs) →
  device_blocks (b_block_devices b) lbs → free_list_ok (b_block_devices b) es free →
  Forall (starts_on_block (b_block_devices b) lbs) free →
  ∃ free', PrioritizeSecondHalfOfSuper b free = Ret free' ∧
    free_list_ok (b_block_devices b) es free' ∧
    (∀ d s, iv_cover free' d s = iv_cover free d s) ∧
    Forall (starts_on_block (b_block_devices b) lbs) free'.
Proof.
  intros Hne Hok H512 Hdb [Hin Hc] Hst. unfold PrioritizeSecondHalfOfSuper.
  destruct (b_block_devices b) as [|dv devs] eqn:E; [done|]. simpl.
  destruct (AlignSector _ _) as [m|] eqn:Em; [|by exists free].
  pose proof (split_halves_ok (dv :: devs) m free) as H.
  pose proof (split_halves_blocks (dv :: devs) lbs m free) as Hb.
  destruct (split_halves m free) as [l r]. destruct H as [H1 H2], Hb as [Hb1 Hb2]; [|done|].
  { intros dv' [= <-] Hal. apply Forall_cons in Hok as [Hok _], Hdb as [Hdb _].
    pose proof (dok_alignment _ Hok). eapply AlignSector_on_block; [|exact Em|done|by apply Hdb|done].
    lia. }
  exists (r ++ l). split_and!; [done|split|done|by apply Forall_app]; [by apply H2|].
  intros. by rewrite H1.
Qed.

(** ** Regions taken in order *)

(** The sectors of whole blocks in a list of regions. *)
Fixpoint usable (spb : Z) (l : list Interval) : Z :=
  match l with
  | [] => 0
  | r :: l => (iv_end r - iv_start r) / spb * spb + usable spb l
  end.

Lemma block_region_ok devices spb r :
  Forall device_ok devices → 0 < spb → region_inside devices r →
  match block_region spb r with
  | Some r' => region_inside devices r' ∧ (∀ d s, iv_owns r' d s ≤ iv_owns r d s) ∧
      iv_length r' = (iv_end r - iv_start r) / spb * spb ∧ 0 < iv_length r' ∧
      iv_end r' = iv_start r' + iv_length r' ∧
      device_index r' = device_index r ∧ iv_start r' = iv_start r
  | None => (iv_end r - iv_start r) / spb * spb = 0
  end.
Proof.
  intros Hd Hspb Hr. pose proof (region_u64 _ [] _ Hd (List.Forall_nil _) Hr) as [Hs He].
  destruct Hr as (Hi & dv & Hdv & H1 & H2). unfold block_region.
  assert (Hl : iv_length r = iv_end r - iv_start r) by (unfold iv_length; by rewrite u64_small by lia).
  rewrite Hl. pose proof (Z.div_mod (iv_end r - iv_start r) spb ltac:(lia)).
  pose proof (Z.mod_pos_bound (iv_end r - iv_start r) spb Hspb).
  pose proof (Z.div_pos (iv_end r - iv_start r) spb ltac:(lia) Hspb).
  set (k := _ / spb) in *. assert (0 ≤ k * spb ≤ iv_end r - iv_start r) by nia.
  case_decide as Hm.
  - rewrite Hl. split_and!; [split; [done|by exists dv]|done|lia || done..].
  - rewrite (u64_small (k * spb)), (u64_small (_ + _)) by lia. set (r' := mkInterval _ _ _).
    assert (Hl' : iv_length r' = k * spb) by (unfold iv_length; simpl; rewrite u64_small; lia).
    rewrite Hl'. case_decide as Hz; [lia|]. rewrite Hl'.
    split_and!; [|intros d s; unfold iv_owns; simpl; repeat case_decide; lia|simpl; lia || done..].
    split; [done|]. exists dv. simpl. split_and!; [done|lia..].
Qed.

Lemma usable_nonneg devices spb l : 0 < spb → Forall (region_inside devices) l → 0 ≤ usable spb l.
Proof.
  intros Hspb. induction 1 as [|x l Hx _ IH]; simpl; [lia|].
  destruct Hx as (_ & dv & _ & _ & Hx).
  pose proof (Z.div_pos (iv_end x - iv_start x) spb ltac:(lia) Hspb). nia.
Qed.

Lemma take_regions_ok devices spb regions needed :
  Forall device_ok devices → 0 < spb → Forall (region_inside devices) regions →
  Forall (starts_on_block devices (spb * LP_SECTOR_SIZE)) regions →
  is_u64 needed → (spb | needed) →
  ∃ es rest, take_regions spb regions needed = Ret (es, rest) ∧
    Forall (extent_inside devices) es ∧
    Forall (on_blocks devices (spb * LP_SECTOR_SIZE)) es ∧
    (∀ d s, cover es d s ≤ iv_cover regions d s) ∧ total es + rest = needed ∧ rest = 0 `max` (needed - usable spb regions).
Proof.
  intros Hd Hspb Hr Hst. revert needed.
  induction Hr as [|r regions Hr Hrs IH]; intros needed Hn Hdiv.
  { exists [], needed. simpl. split_and!; [done..|lia|lia]. }
  apply Forall_cons in Hst as [Hst Hst']. specialize (IH Hst').
  pose proof (usable_nonneg devices spb regions Hspb Hrs) as Hus.
  pose proof (usable_nonneg devices spb [r] Hspb (Forall_cons_2 _ _ _ Hr (List.Forall_nil _))) as Hlen.
  pose proof (block_region_ok _ spb r Hd Hspb Hr) as Hb. simpl in Hlen |- *. case_decide as Hz.
  { subst needed. exists [], 0. simpl. split_and!; [done..| |lia|lia]. intros d s.
    pose proof (iv_cover_nonneg regions d s). pose proof (iv_owns_range r d s). lia. }
  destruct (block_region spb r) as [r'|].
  - destruct Hb as ((Hi & dv & Hdv & H1 & H2) & Hown & Hl & Hpos & Hend & Hdi & Hsi).
    assert (Hm : (spb | needed `min` iv_length r')).
    { destruct (Z.min_spec needed (iv_length r')) as [[_ ->]|[_ ->]]; [done|].
      rewrite Hl. apply Z.divide_factor_r. }
    rewrite CHECK_True by (apply Z.mod_divide; [lia|done]). simpl. rewrite u64_small by lia.
    destruct (IH (needed - needed `min` iv_length r'))
      as (es & rest & E & Hin & Hbl & Hc & Ht & Hrest); [lia|by apply Z.divide_sub_r|].
    rewrite E. simpl. eexists _, _. split; [done|]. split_and!.
    + constructor; [|done]. split; [done|]. exists dv. split_and!; [done|lia..].
    + constructor; [|done]. split; [by apply Z.mul_divide_mono_r|]. rewrite Hdi, Hsi.
      intros dv' Hdv' Hal. rewrite Z.mul_add_distr_r. apply Z.divide_add_r; [by eapply Hst|].
      by apply Z.mul_divide_mono_r.
    + intros d s. specialize (Hc d s). specialize (Hown d s).
      assert (owns (LinearExtent (needed `min` iv_length r') (device_index r') (iv_start r')) d s
              ≤ iv_owns r' d s); [|simpl in *; lia].
      unfold iv_owns. simpl. repeat case_decide; lia.
    + simpl. lia.
    + lia.
  - destruct (IH needed Hn Hdiv) as (es & rest & E & Hin & Hbl & Hc & Ht & Hrest).
    exists es, rest. split_and!; [done..| |done|lia].
    intros d s. specialize (Hc d s). pose proof (iv_owns_range r d s). lia.
Qed.

(** ** The rest of an unaligned block *)

(** Sizes that are whole sectors and whole multiples of the alignment. *)
Definition whole_device (d : LpMetadataBlockDevice) : Prop :=
  (LP_SECTOR_SIZE | bd_size d) ∧ (bd_alignment d ≠ 0 → (bd_alignment d | bd_size d)).

Lemma overlap_owns a b d s :
  OverlapsWith a b = false → owns b d s = 1 →
  match a with LinearExtent n _ p => is_u64 (p + n) | _ => True end →
  match b with LinearExtent n _ p => is_u64 (p + n) | _ => True end →
  owns a d s = 0.
Proof.
  destruct a as [n d' p|]; [|done]. destruct b as [n' d'' p'|]; simpl; [|by intros].
  intros Ho Hb Ha1 Hb1. unfold end_sector in Ho. rewrite !u64_small in Ho by done.
  case_decide; [|done]. rewrite decide_False; [done|]. intros [-> Hs].
  rewrite !andb_false_iff, !bool_decide_eq_false in Ho. lia.
Qed.

Lemma covered_owns i e d s :
  OverlapsWith_interval e i = false → owns e d s = 1 →
  match e with LinearExtent n _ p => is_u64 (p + n) | _ => True end →
  iv_owns i d s = 0.
Proof.
  destruct e as [n d' p|]; simpl; [|by intros].
  intros Ho He Hu. unfold end_sector in Ho. rewrite u64_small in Ho by done.
  case_decide; [|done]. apply iv_owns_0.
  rewrite !andb_false_iff, !bool_decide_eq_false in Ho. lia.
Qed.

Lemma inside_u64 devices e :
  Forall device_ok devices → extent_inside devices e →
  match e with LinearExtent n d s => 0 ≤ d ∧ 0 ≤ s ∧ 0 < n ∧ (s + n) * LP_SECTOR_SIZE < 2 ^ 64
  | ZeroExtent n => 0 ≤ n end.
Proof.
  destruct e as [n d s|]; [|done]. intros Hd (Hi & dv & Hdv & H1 & H2).
  pose proof (Forall_lookup_1 _ _ _ _ Hd Hdv) as Hok.
  pose proof (sectors_u64 _ Hok). pose proof (dok_first _ Hok). unfold LP_SECTOR_SIZE in *. lia.
Qed.

Lemma not_allocated devices es e d s :
  layout_ok devices es → existsb (λ a, OverlapsWith a e) es = false → owns e d s = 1 →
  extent_inside devices e → cover es d s = 0.
Proof.
  intros [Hd Hi _] Ho He Hin. pose proof (inside_u64 _ _ Hd Hin) as Hu.
  induction Hi as [|a es Ha _ IH]; [done|]. simpl in *. apply orb_false_iff in Ho as [Ho1 Ho2].
  pose proof (inside_u64 _ _ Hd Ha) as Hua. rewrite (IH Ho2), (overlap_owns a e d s Ho1 He); [done|..];
    unfold LP_SECTOR_SIZE in *; [destruct a; lia|destruct e; lia].
Qed.
Lemma not_covered regions e d s :
  IsAnyRegionCovered regions e = false → owns e d s = 1 →
  match e with LinearExtent n _ p => is_u64 (p + n) | _ => True end → iv_cover regions d s = 0.
Proof.
  intros Ho He Hu. unfold IsAnyRegionCovered in Ho. induction regions as [|i l IH]; [done|].
  simpl in *. apply orb_false_iff in Ho as [Ho1 Ho2].
  by rewrite IH, (covered_owns i e d s Ho1 He Hu).
Qed.

Lemma ExtendFinalExtent_ok b p free needed lbs :
  let devs := b_block_devices b in let es := all_extents (b_partitions b) in
  layout_ok devs es → Forall whole_device devs → p ∈ b_partitions b → 0 < needed →
  free_list_ok devs es free → (LP_SECTOR_SIZE | lbs) → (lbs | needed * LP_SECTOR_SIZE) →
  Forall (on_blocks devs lbs) (pt_extents p) → device_blocks devs lbs →
  ∃ o, ExtendFinalExtent b p free needed = Ret o ∧
    match o with
    | None => True
    | Some e => extent_inside devs e ∧ 0 < num_sectors e ≤ needed ∧
        on_blocks devs lbs e ∧
        ∀ d s, owns e d s + iv_cover free d s + cover es d s ≤ 1
    end.
Proof.
  intros devs es Hlay Hwhole Hp Hn Hfree H512 Hblk Hends Hdb. unfold ExtendFinalExtent.
  destruct (list.last (pt_extents p)) as [[n i s|]|] eqn:El; [|by exists None..].
  assert (Hin : LinearExtent n i s ∈ pt_extents p) by (by apply last_Some_elem_of).
  destruct (proj1 (Forall_forall _ _) Hends _ Hin) as [_ Hend].
  pose proof (lay_devices _ _ Hlay) as Hd.
  assert (Hein : extent_inside devs (LinearExtent n i s)).
  { eapply (proj1 (Forall_forall _ _) (lay_inside _ _ Hlay)). apply list_elem_of_bind. by exists p. }
  pose proof (inside_u64 _ _ Hd Hein) as (_ & Hs0 & Hn0 & Hu).
  destruct Hein as (Hi & dv & Hdv & H1 & H2). fold devs. rewrite Hdv. simpl.
  pose proof (Forall_lookup_1 _ _ _ _ Hd Hdv) as Hok.
  unfold end_sector. rewrite (u64_small (s + n)) by (unfold LP_SECTOR_SIZE in *; lia).
  destruct (AlignSector dv (s + n)) as [a|] eqn:Ea; [|by exists None].
  destruct (AlignSector_ge dv (s + n) a Hok ltac:(lia) Ea) as [Hge Hlt].
  destruct (Forall_lookup_1 _ _ _ _ Hwhole Hdv) as [W1 W2].
  pose proof (AlignSector_le dv (s + n) a Hok ltac:(lia) Ea W1 W2) as Hle.
  case_decide as Heq; [by exists None|]. rewrite u64_small by lia.
  set (e := LinearExtent _ i (s + n)). destruct (_ || _) eqn:Eo; [by exists None|].
  apply orb_false_iff in Eo as [Eo1 Eo2]. exists (Some e).
  assert (He : extent_inside devs e) by (split; [done|]; exists dv; split_and!; [done|lia..]).
  split_and!; [done..|simpl; lia|simpl; lia| |].
  - assert (Hal : bd_alignment dv ≠ 0).
    { intros Hz. rewrite AlignSector_fine in Ea by (done || lia || by left). by simplify_eq. }
    pose proof (dok_alignment _ Hok).
    pose proof (Forall_lookup_1 _ _ _ _ Hdb Hdv Hal) as Hla. pose proof (Hend dv Hdv Hal) as Hb1.
    pose proof (AlignSector_on_block dv lbs (s + n) a ltac:(lia) Ea Hal Hla H512) as Hb2.
    assert (Hnum : (lbs | (a - (s + n)) `min` needed * LP_SECTOR_SIZE)).
    { destruct (Z.min_spec (a - (s + n)) needed) as [[_ ->]|[_ ->]]; [|done].
      rewrite Z.mul_sub_distr_r. by apply Z.divide_sub_r. }
    split; [done|]. intros dv' Hdv' _. rewrite Z.mul_add_distr_r. by apply Z.divide_add_r.
  - intros d t. pose proof (owns_range e d t). destruct (decide (owns e d t = 1)) as [Ho|Ho].
    + rewrite (not_covered free e d t Eo2 Ho), (not_allocated devs es e d t Hlay Eo1 Ho He); [lia|].
      pose proof (inside_u64 _ _ Hd He). simpl in *. unfold LP_SECTOR_SIZE in *. lia.
    + pose proof (fl_disjoint _ _ _ Hfree d t). lia.
Qed.
