(* ===== verification/LpInvariant.v ===== *)
(** * The invariant of a metadata builder

    Names are unique, sizes are those of the extents, no sector has two owners,
    and extents are made of whole blocks.  The operations that change partitions
    keep it; growing, shrinking and resizing also keep what is stored. *)
From S2P Require Import Prelude Bytes LpFormat LpUtility Device LpReader LpExtent LpBuilder LpAlloc LpFree.
From S2P Require Import LpGrow.

(** The logical block size. *)
Definition lbs (b : MetadataBuilder) : Z := logical_block_size (b_geometry b).
Definition owners (b : MetadataBuilder) : list Extent := all_extents (b_partitions b).

Record builder_ok (b : MetadataBuilder) : Prop := {
  bok_layout : layout_ok (b_block_devices b) (owners b);
  bok_names : NoDup (pt_name <$> b_partitions b);
  bok_parts : Forall partition_ok (b_partitions b);
  bok_blocks : Forall (on_blocks (b_block_devices b) (lbs b)) (owners b);
  bok_whole : Forall whole_device (b_block_devices b);
  bok_aligned : device_blocks (b_block_devices b) (lbs b);
  bok_lbs : is_u32 (lbs b) ∧ lbs b ≠ 0 ∧ (LP_SECTOR_SIZE | lbs b);
}.

(** ** Handles *)

Lemma find_cons {A} (P : A → Prop) `{∀ x, Decision (P x)} x l :
  snd <$> list_find P (x :: l) = if decide (P x) then Some x else snd <$> list_find P l.
Proof. simpl. case_decide; [done|]. by destruct (list_find P l) as [[??]|]. Qed.
Lemma find_app {A} (P : A → Prop) `{∀ x, Decision (P x)} l k :
  snd <$> list_find P (l ++ k) =
  match snd <$> list_find P l with Some x => Some x | None => snd <$> list_find P k end.
Proof.
  induction l as [|x l IH]; [done|]. rewrite <- app_comm_cons, !find_cons. by case_decide.
Qed.
Lemma FindPartition_split b name p :
  FindPartition b name = Some p →
  ∃ pre post, b_partitions b = pre ++ p :: post ∧ pt_name p = name ∧
    Forall (λ x, pt_name x ≠ name) pre.
Proof.
  unfold FindPartition. intros (i & Hi)%fmap_Some. destruct Hi as [Hi ->].
  destruct i as [i q]. apply list_find_Some in Hi as (Hl & Hn & Hpre). simpl.
  exists (take i (b_partitions b)), (drop (S i) (b_partitions b)).
  split_and!; [by rewrite take_drop_middle|done|].
  apply Forall_forall. intros x Hx. apply elem_of_take in Hx as (j & Hj & Hlt). by eapply Hpre.
Qed.
Lemma update_named_split f name pre p post :
  pt_name p = name → Forall (λ x, pt_name x ≠ name) pre →
  update_named f name (pre ++ p :: post) = pre ++ f p :: post.
Proof.
  intros Hp. induction 1 as [|x pre Hx _ IH]; simpl; [by rewrite decide_True|].
  by rewrite decide_False, IH.
Qed.
Lemma erase_partition_split name pre p post :
  pt_name p = name → Forall (λ x, pt_name x ≠ name) pre →
  erase_partition name (pre ++ p :: post) = pre ++ post.
Proof.
  intros Hp. induction 1 as [|x pre Hx _ IH]; simpl; [by rewrite decide_True|].
  by rewrite decide_False, IH.
Qed.
Lemma FindPartition_found b pre p post :
  b_partitions b = pre ++ p :: post → Forall (λ x, pt_name x ≠ pt_name p) pre →
  FindPartition b (pt_name p) = Some p.
Proof.
  unfold FindPartition. intros -> Hpre. rewrite list_find_app_r.
  - simpl. by rewrite decide_True.
  - apply list_find_None. eapply Forall_impl; [exact Hpre|]. by simpl.
Qed.
Lemma all_extents_split pre p post :
  all_extents (pre ++ p :: post) = all_extents pre ++ pt_extents p ++ all_extents post.
Proof. unfold all_extents. by rewrite bind_app, bind_cons. Qed.

(** Writing through a handle replaces the partition. *)
Definition replaced (name : bytes) (q : Partition) (b : MetadataBuilder) : MetadataBuilder :=
  update_partition name (λ _, q) b.
Lemma replaced_eq b name p f :
  FindPartition b name = Some p → update_partition name f b = replaced name (f p) b.
Proof.
  intros (pre & post & E & Hn & Hpre)%FindPartition_split. unfold replaced, update_partition.
  by rewrite E, !update_named_split by done.
Qed.
Lemma FindPartition_replaced b name p q :
  FindPartition b name = Some p → pt_name q = name → FindPartition (replaced name q b) name = Some q.
Proof.
  intros (pre & post & E & Hn & Hpre)%FindPartition_split <-.
  apply (FindPartition_found _ pre q post); [|done].
  unfold replaced, update_partition, set_partitions. simpl. by rewrite E, update_named_split.
Qed.
Lemma FindPartition_other b name name' q :
  name' ≠ name → pt_name q = name →
  FindPartition (replaced name q b) name' = FindPartition b name'.
Proof.
  intros Hne Hq. unfold FindPartition, replaced, update_partition, set_partitions. simpl.
  induction (b_partitions b) as [|x l IH]; [done|]. simpl update_named.
  destruct (decide (pt_name x = name)) as [Hx|Hx]; rewrite !find_cons.
  - by rewrite !decide_False by congruence.
  - by case_decide.
Qed.

(** ** Blocks and lists of extents *)

Lemma push_extent_inside devices es e :
  Forall device_ok devices → Forall (extent_inside devices) es → extent_inside devices e →
  Forall (extent_inside devices) (push_extent es e).
Proof.
  intros Hd Hes He. destruct (push_extent_cases es e) as [->|(pre & n' & n & d & s' & -> & -> & ->)].
  - apply Forall_app. split; [done|by constructor].
  - apply Forall_app in Hes as [Hpre [Hl _]%Forall_cons]. apply Forall_app. split; [done|].
    constructor; [|done].
    pose proof (inside_u64 _ _ Hd Hl) as Hlu. pose proof (inside_u64 _ _ Hd He) as Heu. simpl in *.
    unfold LP_SECTOR_SIZE, end_sector in *. rewrite (u64_small (s' + n')) in * by lia.
    rewrite u64_small by lia. destruct He as (Hi & dv & Hdv & H1 & H2), Hl as (_ & dv' & Hdv' & H3 & H4).
    split; [done|]. exists dv. rewrite Hdv in Hdv'. simplify_eq. split_and!; [done|lia..].
Qed.
Lemma push_extent_blocks devices k es e :
  Forall device_ok devices → Forall (extent_inside devices) es → extent_inside devices e →
  Forall (on_blocks devices k) es → on_blocks devices k e →
  Forall (on_blocks devices k) (push_extent es e).
Proof.
  intros Hd Hes Hei Hbs Hb.
  destruct (push_extent_cases es e) as [->|(pre & n' & n & d & s' & -> & -> & ->)].
  - apply Forall_app. split; [done|by constructor].
  - apply Forall_app in Hbs as [Hpre [[Hl1 Hl2] _]%Forall_cons].
    apply Forall_app in Hes as [_ [Hl _]%Forall_cons].
    apply Forall_app. split; [done|]. constructor; [|done].
    pose proof (inside_u64 _ _ Hd Hl) as Hlu. pose proof (inside_u64 _ _ Hd Hei) as Heu.
    destruct Hb as [Hb1 Hb2]. unfold on_blocks. simpl in *.
    unfold LP_SECTOR_SIZE, end_sector in *. rewrite (u64_small (s' + n')) in * by lia.
    rewrite u64_small by lia. split; [rewrite Z.mul_add_distr_r; by apply Z.divide_add_r|].
    intros dv Hdv Hal. specialize (Hb2 dv Hdv Hal).
    by replace (s' + (n' + n)) with (s' + n' + n) by lia.
Qed.

Lemma AddExtents_layout devices k p l :
  Forall device_ok devices → Forall (extent_inside devices) l → Forall (on_blocks devices k) l →
  Forall (extent_inside devices) (pt_extents p) → Forall (on_blocks devices k) (pt_extents p) →
  Forall (extent_inside devices) (pt_extents (foldl AddExtent p l)) ∧
  Forall (on_blocks devices k) (pt_extents (foldl AddExtent p l)).
Proof.
  intros Hd Hl. revert p. induction Hl as [|e l He Hl IH]; intros p Hb Hi Hbs; simpl; [done|].
  apply Forall_cons in Hb as [Hb Hb']. apply IH; [done|..]; simpl.
  - by apply push_extent_inside.
  - by apply push_extent_blocks.
Qed.

Lemma shortened_blocks devices k l l' :
  Forall (on_blocks devices k) l → shortened l l' → (k | total l' * LP_SECTOR_SIZE) →
  Forall (on_blocks devices k) l'.
Proof.
  intros Hl [pre l2 ->|pre e m l2 -> Hm] Hk; apply Forall_app in Hl as [_ Hl]; [done|].
  apply Forall_cons in Hl as [[He1 He2] Hl]. constructor; [|done].
  assert (Ht : ∀ l, Forall (on_blocks devices k) l → (k | total l * LP_SECTOR_SIZE)).
  { induction 1 as [|x l [Hx _] _ IH]; simpl; [apply Z.divide_0_r|].
    rewrite Z.mul_add_distr_r. by apply Z.divide_add_r. }
  specialize (Ht l2 Hl). simpl in Hk. rewrite num_set_num, Z.mul_add_distr_r in Hk.
  assert (Hm' : (k | m * LP_SECTOR_SIZE)).
  { replace (m * LP_SECTOR_SIZE) with (m * LP_SECTOR_SIZE + total l2 * LP_SECTOR_SIZE
      - total l2 * LP_SECTOR_SIZE) by lia. by apply Z.divide_sub_r. }
  split; [by rewrite num_set_num|]. destruct e as [n d s|n]; [|done]. simpl in *.
  intros dv Hdv Hal. specialize (He2 dv Hdv Hal).
  replace ((s + m) * LP_SECTOR_SIZE)
    with ((s + n) * LP_SECTOR_SIZE - n * LP_SECTOR_SIZE + m * LP_SECTOR_SIZE) by lia.
  apply Z.divide_add_r; [by apply Z.divide_sub_r|done].
Qed.
Lemma shortened_inside devices l l' :
  Forall (extent_inside devices) l → shortened l l' → Forall (extent_inside devices) l'.
Proof.
  intros Hl [pre l2 ->|pre e m l2 -> Hm]; apply Forall_app in Hl as [_ Hl]; [done|].
  apply Forall_cons in Hl as [He Hl]. constructor; [|done]. destruct e as [n d s|n]; simpl in *; [|lia].
  destruct He as (Hi & dv & Hdv & H1 & H2). split; [done|]. exists dv. split_and!; [done|lia..].
Qed.

(** Extents on a device. *)
Definition is_linear (e : Extent) : bool :=
  match e with LinearExtent _ _ _ => true | _ => false end.
Definition linear (es : list Extent) : Prop := Forall (λ e, is_linear e = true) es.
Lemma shortened_linear l l' : linear l → shortened l l' → linear l'.
Proof.
  intros Hl [pre l2 ->|pre e m l2 -> Hm]; apply Forall_app in Hl as [_ Hl]; [done|].
  apply Forall_cons in Hl as [He Hl]. constructor; [|done]. by destruct e.
Qed.
Lemma AddExtents_linear p l : linear (pt_extents p) → linear l → linear (pt_extents (foldl AddExtent p l)).
Proof.
  intros Hp Hl. revert p Hp. induction Hl as [|e l He _ IH]; intros p Hp; simpl; [done|]. apply IH. simpl.
  destruct (push_extent_cases (pt_extents p) e) as [->|(pre & n' & n & d & s' & E & -> & ->)].
  - apply Forall_app. split; [done|by constructor].
  - rewrite E in Hp. apply Forall_app in Hp as [Hp _]. apply Forall_app. split; [done|by constructor].
Qed.

(** ** Replacing a partition *)

Lemma owners_split b name p :
  FindPartition b name = Some p → ∃ rest, owners b ≡ₚ pt_extents p ++ rest ∧
    ∀ q, owners (replaced name q b) ≡ₚ pt_extents q ++ rest.
Proof.
  intros (pre & post & E & Hn & Hpre)%FindPartition_split.
  exists (all_extents pre ++ all_extents post). unfold owners, replaced, update_partition. simpl.
  rewrite E. split; [|intros q; rewrite update_named_split by done];
    rewrite all_extents_split; by rewrite Permutation_app_swap_app.
Qed.
Lemma cover_perm l k d s : l ≡ₚ k → cover l d s = cover k d s.
Proof. induction 1; simpl; lia. Qed.

Lemma names_replaced b name q :
  pt_name q = name → pt_name <$> b_partitions (replaced name q b) = pt_name <$> b_partitions b.
Proof.
  intros Hq. unfold replaced, update_partition. simpl.
  induction (b_partitions b) as [|x l IH]; [done|]. simpl. case_decide; csimpl; congruence.
Qed.

Lemma replaced_ok b name p q :
  builder_ok b → FindPartition b name = Some p → pt_name q = name → partition_ok q →
  Forall (extent_inside (b_block_devices b)) (pt_extents q) →
  Forall (on_blocks (b_block_devices b) (lbs b)) (pt_extents q) →
  (∀ d s, cover (pt_extents q) d s + cover (owners b) d s ≤ 1 + cover (pt_extents p) d s) →
  builder_ok (replaced name q b).
Proof.
  intros [[Hd Hi Hc] Hn Hp Hb Hw Ha Hl] Hfind Hq Hqok Hqi Hqb Hqc.
  destruct (owners_split b name p Hfind) as (rest & Ho & Ho'). specialize (Ho' q).
  rewrite Ho in Hi, Hb. apply Forall_app in Hi as [_ Hi], Hb as [_ Hb].
  split; [split|..]; try done; simpl.
  - rewrite Ho'. by apply Forall_app.
  - intros d s. specialize (Hqc d s). rewrite (cover_perm _ _ _ _ Ho'), cover_app.
    rewrite (cover_perm _ _ _ _ Ho), cover_app in Hqc. lia.
  - by apply (eq_ind_r NoDup Hn (names_replaced b name q Hq)).
  - destruct (FindPartition_split _ _ _ Hfind) as (pre & post & E & Hpn & Hpre).
    rewrite E, update_named_split by done. rewrite E in Hp.
    apply Forall_app in Hp as [H1 [_ H2]%Forall_cons]. apply Forall_app. by split; [|constructor].
  - rewrite Ho'. by apply Forall_app.
Qed.

Lemma find_ok b name p :
  builder_ok b → FindPartition b name = Some p →
  partition_ok p ∧ pt_name p = name ∧ p ∈ b_partitions b ∧
  Forall (extent_inside (b_block_devices b)) (pt_extents p) ∧
  Forall (on_blocks (b_block_devices b) (lbs b)) (pt_extents p) ∧
  (∀ d s, cover (pt_extents p) d s ≤ cover (owners b) d s) ∧ (lbs b | pt_size p).
Proof.
  intros Hok Hfind. destruct (owners_split b name p Hfind) as (rest & Ho & _).
  destruct (FindPartition_split _ _ _ Hfind) as (pre & post & E & Hpn & Hpre).
  destruct Hok as [[_ Hi _] _ Hp Hb _ _ _]. rewrite Ho in Hi, Hb.
  apply Forall_app in Hi as [Hi _], Hb as [Hb _].
  assert (Hin : p ∈ b_partitions b) by (rewrite E; apply elem_of_app; right; left).
  pose proof (proj1 (Forall_forall _ _) Hp p Hin) as Hpok. split_and!; try done.
  - intros d s. rewrite (cover_perm _ _ _ _ Ho), cover_app. pose proof (cover_nonneg rest d s). lia.
  - rewrite (pok_size _ Hpok). clear -Hb. induction Hb as [|e l [He _] _ IH]; simpl;
      [apply Z.divide_0_r|]. rewrite Z.mul_add_distr_r. by apply Z.divide_add_r.
Qed.

(** ** Shrinking *)

Lemma ShrinkPartition_ok b name p size :
  builder_ok b → FindPartition b name = Some p → 0 ≤ size ≤ pt_size p → (lbs b | size) →
  ∃ q, ShrinkPartition name size b = (Ret (), replaced name q b) ∧
    builder_ok (replaced name q b) ∧ pt_size q = size ∧ pt_name q = name ∧
    pt_group_name q = pt_group_name p ∧ pt_attributes q = pt_attributes p ∧
    (∀ d s, cover (pt_extents q) d s ≤ cover (pt_extents p) d s) ∧
    (∀ i, 0 ≤ i < size / LP_SECTOR_SIZE → resolve (pt_extents q) i = resolve (pt_extents p) i) ∧
    (linear (pt_extents p) → linear (pt_extents q)).
Proof.
  intros Hok Hfind Hs Hdiv. pose proof (find_ok _ _ _ Hok Hfind) as (Hp & Hn & _ & Hpi & Hpb & Hpc & _).
  destruct (bok_lbs _ Hok) as (_ & _ & H512).
  destruct (ShrinkTo_ok p size Hp Hs (Z.divide_trans _ _ _ H512 Hdiv))
    as (q & E & Hq & Hsz & Hqn & Hqg & Hqa & Hsh & Hqc & Hqr).
  exists q. unfold ShrinkPartition, deref.
  erewrite io_bind_eq by (unfold mbind, io_mbind, get, lift; by rewrite Hfind).
  erewrite io_bind_eq by (unfold lift; by rewrite E). split; [done|].
  assert (Hlin : linear (pt_extents p) → linear (pt_extents q)).
  { intros Hl. rewrite <- (reverse_involutive (pt_extents q)). apply Forall_reverse.
    eapply shortened_linear; [|exact Hsh]. by apply Forall_reverse. }
  split_and!; try done; [|congruence].
  apply (replaced_ok b name p q); try done; [congruence|..].
  - rewrite <- (reverse_involutive (pt_extents q)). apply Forall_reverse.
    eapply shortened_inside; [|exact Hsh]. by apply Forall_reverse.
  - rewrite <- (reverse_involutive (pt_extents q)). apply Forall_reverse.
    eapply shortened_blocks; [|exact Hsh|]; [by apply Forall_reverse|].
    by rewrite total_reverse, <- (pok_size _ Hq), Hsz.
  - intros d s. specialize (Hqc d s). pose proof (lay_disjoint _ _ (bok_layout _ Hok) d s). lia.
Qed.

(** ** Growing *)

(** The regions [GrowPartition] takes from, in order. *)
Definition candidates (fetcher : IPropertyFetcher) (b : MetadataBuilder) (p : Partition)
    (hint : list Interval) : outcome (list Interval) :=
  free ← GetFreeRegions b;
  let free := if decide (hint = []) then free else Intersect_list free hint in
  if IsABDevice fetcher && ShouldHalveSuper fetcher b &&
     bool_decide (GetPartitionSlotSuffix (pt_name p) = str "_b")
  then PrioritizeSecondHalfOfSuper b free else Ret free.

(** Free regions start on blocks. *)
Lemma free_starts_on_block b free : builder_ok b → GetFreeRegions b = Ret free →
  Forall (starts_on_block (b_block_devices b) (lbs b)) free.
Proof.
  intros [Hlay _ _ _ _ Hal (_ & _ & H512)] Hg.
  destruct (GetFreeRegions_ok b Hlay) as (free' & E & _ & Hst). rewrite Hg in E. injection E as <-.
  eapply Forall_impl; [exact Hst|]. intros r (dv & s & Hdv & Hs & Ha) dv' Hdv' Hne.
  rewrite Hdv in Hdv'. injection Hdv' as <-.
  pose proof (dok_alignment _ (Forall_lookup_1 _ _ _ _ (lay_devices _ _ Hlay) Hdv)).
  eapply AlignSector_on_block; [|exact Ha|done| |done]; [lia|].
  by apply (Forall_lookup_1 _ _ _ _ Hal Hdv).
Qed.
Lemma candidates_ok fetcher b p hint :
  builder_ok b → hint_ok (b_block_devices b) (lbs b) hint →
  ∃ free0 free, GetFreeRegions b = Ret free0 ∧ candidates fetcher b p hint = Ret free ∧
    free_list_ok (b_block_devices b) (owners b) free ∧
    Forall (starts_on_block (b_block_devices b) (lbs b)) free ∧
    ∀ d s, iv_cover free d s =
      if decide (hint = []) then iv_cover free0 d s else iv_cover free0 d s * iv_cover hint d s.
Proof.
  intros Hok Hhint. pose proof (λ free, free_starts_on_block b free Hok) as Hb0.
  destruct Hok as [Hlay _ _ _ _ Hal (_ & _ & H512)]. unfold owners, candidates in *.
  destruct (GetFreeRegions_ok b Hlay) as (free0 & Hg & Hfree & _). specialize (Hb0 free0 Hg). rewrite Hg. exists free0. simpl.
  set (free1 := if decide (hint = []) then free0 else _).
  assert (H1 : free_list_ok (b_block_devices b) (all_extents (b_partitions b)) free1 ∧
     Forall (starts_on_block (b_block_devices b) (lbs b)) free1 ∧
     ∀ d s, iv_cover free1 d s =
      if decide (hint = []) then iv_cover free0 d s else iv_cover free0 d s * iv_cover hint d s).
  { subst free1. case_decide as Hh; [done|]. split_and!.
    - by eapply Intersect_list_free.
    - apply Intersect_list_blocks; [done|apply Hhint].
    - intros d s. apply Intersect_list_cover; [by eapply free_list_u64|apply Hhint]. }
  clearbody free1. destruct H1 as (Hf1 & Hb1 & Hc1).
  destruct (_ && _) eqn:Eab; [|by exists free1].
  destruct (PrioritizeSecondHalf_free b (all_extents (b_partitions b)) free1 (lbs b))
    as (free2 & -> & Hf2 & Hc2 & Hb2); try done; [|by apply Hlay|].
  { intros Hne. unfold ShouldHalveSuper, builder_device_name in Eab. rewrite Hne in Eab.
    rewrite !andb_true_iff in Eab. destruct Eab as [[_ Eab] _].
    destruct Eab as [Eab _]. by apply bool_decide_eq_true in Eab. }
  exists free2. split_and!; try done. intros d s. by rewrite Hc2.
Qed.

(** What [GrowPartition] computes before it changes the builder: the extents to add. *)
Lemma GrowPartition_unfold fetcher b name p size hint free :
  FindPartition b name = Some p → candidates fetcher b p hint = Ret free →
  let spb := lbs b / LP_SECTOR_SIZE in
  let needed := u64 (size - pt_size p) / LP_SECTOR_SIZE in
  spb ≠ 0 → needed mod spb = 0 →
  GrowPartition fetcher name size hint b =
  (extent ← lift (ExtendFinalExtent b p free needed);
   let '(first_extents, sectors_needed) :=
     match extent with
     | Some e => ([e], u64 (needed - num_sectors e))
     | None => ([], needed)
     end in
   '(new_extents, rest) ← lift (take_regions spb free sectors_needed);
   _ ← lift (require (rest = 0));
   modify (update_partition name (λ p, foldl AddExtent p (first_extents ++ new_extents)))) b.
Proof.
  intros Hfind Hc spb needed Hspb Hm. unfold candidates in Hc.
  apply bind_Ret in Hc as (free0 & Hg & Hc). unfold GrowPartition, deref.
  erewrite io_bind_eq by done.
  erewrite io_bind_eq by (unfold mbind, io_mbind, get, lift; by rewrite Hfind).
  erewrite io_bind_eq by (unfold lift; by rewrite Hg).
  erewrite io_bind_eq by (unfold lift; by rewrite CHECK_True).
  erewrite io_bind_eq by (unfold lift; by rewrite CHECK_True).
  erewrite io_bind_eq by (unfold lift; by rewrite Hc). done.
Qed.

(** *** New extents are on a device *)


Lemma take_regions_linear spb regions needed es rest :
  take_regions spb regions needed = Ret (es, rest) → Forall (λ e, is_linear e = true) es.
Proof.
  revert needed es rest. induction regions as [|r l IH]; intros needed es rest; simpl.
  { by intros [= <- <-]. }
  case_decide; [by intros [= <- <-]|]. destruct (block_region spb r) as [r'|]; [|apply IH].
  intros ([] & _ & Hr)%bind_Ret. apply bind_Ret in Hr as ([es' rest'] & E & Hr).
  injection Hr as <- <-. constructor; [done|by eapply IH].
Qed.
Lemma ExtendFinalExtent_linear b p free needed e :
  ExtendFinalExtent b p free needed = Ret (Some e) → is_linear e = true.
Proof.
  unfold ExtendFinalExtent. destruct (list.last _) as [[n i s|]|]; [|done..].
  intros (dv & _ & Hr)%bind_Ret. destruct (AlignSector _ _); [|done].
  case_decide; [done|]. destruct (_ || _); [done|]. by injection Hr as <-.
Qed.

(** Extents that may be added to a partition. *)
Record addition (b : MetadataBuilder) (p : Partition) (size : Z) (new : list Extent) : Prop := {
  add_inside : Forall (extent_inside (b_block_devices b)) new;
  add_blocks : Forall (on_blocks (b_block_devices b) (lbs b)) new;
  add_fresh d s : cover new d s + cover (owners b) d s ≤ 1;
  add_size : total new * LP_SECTOR_SIZE = size - pt_size p;
  add_linear : Forall (λ e, is_linear e = true) new;
}.

(** The extents taken before the loop over the regions. *)
Lemma first_extents_ok b p free k spb :
  builder_ok b → p ∈ b_partitions b → Forall (on_blocks (b_block_devices b) (lbs b)) (pt_extents p) →
  free_list_ok (b_block_devices b) (owners b) free → lbs b = spb * LP_SECTOR_SIZE →
  0 < k * spb < 2 ^ 64 →
  ∃ o first, ExtendFinalExtent b p free (k * spb) = Ret o ∧
    match o with
    | Some e => ([e], u64 (k * spb - num_sectors e))
    | None => ([], k * spb)
    end = (first, k * spb - total first) ∧
    Forall (extent_inside (b_block_devices b)) first ∧
    Forall (on_blocks (b_block_devices b) (lbs b)) first ∧ 0 ≤ total first ≤ k * spb ∧
    (spb | total first) ∧ Forall (λ e, is_linear e = true) first ∧
    ∀ d s, cover first d s + iv_cover free d s + cover (owners b) d s ≤ 1.
Proof.
  intros Hok Hpin Hpb Hfree Hspb Hk. destruct (bok_lbs _ Hok) as (_ & _ & H512).
  destruct (ExtendFinalExtent_ok b p free (k * spb) (lbs b)) as (o & Eo & Ho);
    [apply Hok|apply Hok|done|lia|done|done| |done|apply Hok|].
  { rewrite Hspb. apply Z.mul_divide_mono_r, Z.divide_factor_r. }
  exists o, (match o with Some e => [e] | None => [] end). split; [done|].
  destruct o as [e|]; simpl.
  - pose proof (ExtendFinalExtent_linear _ _ _ _ _ Eo).
    destruct Ho as (H1 & H2 & H3 & H4). rewrite Z.add_0_r, u64_small by lia.
    split_and!; try (by constructor); try lia.
    + destruct H3 as [H3 _]. rewrite Hspb in H3. by apply Z.mul_divide_cancel_r in H3.
    + intros d s. rewrite Z.add_0_r. apply H4.
  - split_and!; try done; [f_equal; lia|lia|apply Z.divide_0_r|]. intros d s.
    apply (fl_disjoint _ _ _ Hfree d s).
Qed.

(** The request in blocks. *)
Lemma blocks_needed b size old :
  is_u32 (lbs b) → lbs b ≠ 0 → (LP_SECTOR_SIZE | lbs b) → (lbs b | size) → (lbs b | old) →
  0 ≤ old < size → size < 2 ^ 64 →
  ∃ k spb, lbs b = spb * LP_SECTOR_SIZE ∧ lbs b / LP_SECTOR_SIZE = spb ∧ 0 < spb ∧
    size - old = k * spb * LP_SECTOR_SIZE ∧ 0 < k * spb < 2 ^ 64 ∧
    u64 (size - old) / LP_SECTOR_SIZE = k * spb.
Proof.
  intros Hl Hl0 [spb Hspb] Hs Ho Hlt Hb.
  destruct (Z.divide_sub_r _ _ _ Hs Ho) as [k Hk]. exists k, spb.
  rewrite u64_small by lia. rewrite Hk, Hspb, Z.mul_assoc, !Z.div_mul by done.
  unfold LP_SECTOR_SIZE in *. split_and!; try done; nia.
Qed.

Lemma pt_size_nonneg p : partition_ok p → 0 ≤ pt_size p.
Proof.
  intros [He -> _]. pose proof (total_nonneg _ He). unfold LP_SECTOR_SIZE. lia.
Qed.

(** The extents that are added; those of an empty partition are in the regions. *)
Lemma GrowPartition_regions fetcher b name p size hint :
  builder_ok b → FindPartition b name = Some p → pt_size p < size < 2 ^ 64 → (lbs b | size) →
  hint_ok (b_block_devices b) (lbs b) hint →
  ∃ free, candidates fetcher b p hint = Ret free ∧
    ((∃ new, addition b p size new ∧
      (pt_extents p = [] → ∀ d s, cover new d s ≤ iv_cover free d s) ∧
      GrowPartition fetcher name size hint b = (Ret (), replaced name (foldl AddExtent p new) b)) ∨
     (GrowPartition fetcher name size hint b = (Reject, b) ∧
      usable (lbs b / LP_SECTOR_SIZE) free * LP_SECTOR_SIZE < size - pt_size p)).
Proof.
  intros Hok Hfind Hs Hdiv Hhint.
  destruct (find_ok _ _ _ Hok Hfind) as (Hp & _ & Hpin & _ & Hpb & _ & Hpdiv).
  destruct (candidates_ok fetcher b p hint Hok Hhint) as (_ & free & _ & Hcand & Hfree & Hst & _).
  exists free. split; [done|]. pose proof (pt_size_nonneg _ Hp).
  pose proof (lay_devices _ _ (bok_layout _ Hok)) as Hd.
  destruct (bok_lbs _ Hok) as (Hl32 & Hl0 & H512).
  destruct (blocks_needed b size (pt_size p)) as (k & spb & Hspb & Hsp & Hpos & Hk & Hkb & Hn);
    [done..|lia|lia|].
  rewrite (GrowPartition_unfold fetcher b name p size hint free Hfind Hcand);
    [|lia|rewrite Hn, Hsp; apply Z.mod_mul; lia].
  rewrite Hn, Hsp in *. rewrite Hspb in Hst.
  destruct (first_extents_ok b p free k spb) as (o & first & Eo & Ef & F1 & F2 & F3 & F4 & F5 & F6);
    [done..|].
  erewrite io_bind_eq by (unfold lift; by rewrite Eo). rewrite Ef.
  destruct (take_regions_ok (b_block_devices b) spb free (k * spb - total first))
    as (es & rest & Et & Hin & Hbl & Hc & Ht & Hrest); [done|lia|apply Hfree|done|lia| |].
  { apply Z.divide_sub_r; [apply Z.divide_factor_r|done]. }
  erewrite io_bind_eq by (unfold lift; by rewrite Et).
  destruct (decide (rest = 0)) as [Hz|Hnz].
  - left. exists (first ++ es). rewrite io_require by done. split.
    + split; [by apply Forall_app|apply Forall_app; split; [done|by rewrite Hspb]| | |].
      * intros d s. rewrite cover_app. specialize (Hc d s). specialize (F6 d s). lia.
      * rewrite total_app, Hk. f_equal. lia.
      * apply Forall_app. split; [done|]. by eapply take_regions_linear.
    + split; [|unfold modify; by rewrite (replaced_eq b name p)].
      intros Hnil d s. unfold ExtendFinalExtent in Eo. rewrite Hnil in Eo. injection Eo as <-.
      injection Ef as <- _. exact (Hc d s).
  - right. unfold mbind, io_mbind, lift. rewrite require_False by done. split; [done|].
    unfold LP_SECTOR_SIZE in *. lia.
Qed.

Lemma GrowPartition_extents fetcher b name p size hint :
  builder_ok b → FindPartition b name = Some p → pt_size p < size < 2 ^ 64 → (lbs b | size) →
  hint_ok (b_block_devices b) (lbs b) hint →
  ∃ free, candidates fetcher b p hint = Ret free ∧
    ((∃ new, addition b p size new ∧
      GrowPartition fetcher name size hint b = (Ret (), replaced name (foldl AddExtent p new) b)) ∨
     (GrowPartition fetcher name size hint b = (Reject, b) ∧
      usable (lbs b / LP_SECTOR_SIZE) free * LP_SECTOR_SIZE < size - pt_size p)).
Proof.
  intros Hok Hfind Hs Hdiv Hhint.
  destruct (GrowPartition_regions fetcher b name p size hint Hok Hfind Hs Hdiv Hhint) as (free & Hc & [(new & Ha & _ & E)|H]);
    exists free; (split; [done|]); [left; by exists new|by right].
Qed.

(** The partition with the extents added. *)
Lemma grown_ok b name p size new :
  builder_ok b → FindPartition b name = Some p → addition b p size new → size < 2 ^ 64 →
  let q := foldl AddExtent p new in
  builder_ok (replaced name q b) ∧ pt_size q = size ∧ pt_name q = name ∧
  pt_group_name q = pt_group_name p ∧ pt_attributes q = pt_attributes p ∧
  (∀ d s, cover (pt_extents q) d s = cover (pt_extents p) d s + cover new d s) ∧
  ∀ i, 0 ≤ i → resolve (pt_extents q) i = resolve (pt_extents p ++ new) i.
Proof.
  intros Hok Hfind [A1 A2 A3 A4 _] Hs q.
  destruct (find_ok _ _ _ Hok Hfind) as (Hp & Hn & _ & Hpi & Hpb & Hpc & _).
  pose proof (lay_devices _ _ (bok_layout _ Hok)) as Hd.
  assert (Hnew : Forall extent_ok new).
  { eapply Forall_impl; [exact A1|]. intros e He. pose proof (inside_u64 _ _ Hd He) as Hu.
    destruct e; split; simpl in *; unfold LP_SECTOR_SIZE in *; lia. }
  destruct (AddExtents_ok p new Hp Hnew) as (Hq & Ht & Hc & Hr & Hqn & Hqg & Hqa).
  { rewrite Z.mul_add_distr_r, A4, (pok_size _ Hp). lia. }
  destruct (AddExtents_layout _ (lbs b) p new Hd A1 A2 Hpi Hpb) as [Hqi Hqb].
  fold q in Hq, Ht, Hc, Hr, Hqn, Hqg, Hqa, Hqi, Hqb.
  split_and!; try done; [|rewrite (pok_size _ Hq), Ht, Z.mul_add_distr_r, A4, (pok_size _ Hp); lia
                         |congruence].
  apply (replaced_ok b name p); try done; [congruence|].
  intros d s. rewrite Hc. specialize (A3 d s). lia.
Qed.
