(* ===== verification/LpResize.v ===== *)
(** * Resizing and the limits of groups

    [ResizePartition] against its contract, the size of a group as the sum of
    its partitions' sectors on disk, and the other operations on partitions. *)
From S2P Require Import Prelude Bytes LpFormat LpUtility Device LpReader LpExtent LpBuilder LpAlloc LpFree.
From S2P Require Import LpGrow LpInvariant.

(** ** Bytes on disk *)

(** The sectors of an extent list that are stored on a device. *)
Fixpoint stored_sectors (es : list Extent) : Z :=
  match es with
  | [] => 0
  | LinearExtent n _ _ :: es => n + stored_sectors es
  | ZeroExtent _ :: es => stored_sectors es
  end.

Lemma stored_app l k : stored_sectors (l ++ k) = stored_sectors l + stored_sectors k.
Proof. induction l as [|[n d s|n] l IH]; simpl; lia. Qed.
Lemma stored_le l : Forall extent_ok l → 0 ≤ stored_sectors l ≤ total l.
Proof. induction 1 as [|[n d s|n] l [He _] _ IH]; simpl in *; lia. Qed.
Lemma stored_linear l : Forall (λ e, is_linear e = true) l → stored_sectors l = total l.
Proof. induction 1 as [|[n d s|n] l He _ IH]; simpl in *; [done|lia|done]. Qed.

Lemma BytesOnDisk_stored p :
  partition_ok p → BytesOnDisk p = stored_sectors (pt_extents p) * LP_SECTOR_SIZE.
Proof.
  intros [Hes Hsz Hb]. pose proof (stored_le _ Hes) as Hle. unfold BytesOnDisk.
  assert (H : ∀ a, 0 ≤ a → a + stored_sectors (pt_extents p) < 2 ^ 64 →
    foldl (λ sectors e, match e with LinearExtent n _ _ => u64 (sectors + n)
                        | ZeroExtent _ => sectors end) a (pt_extents p) =
    a + stored_sectors (pt_extents p)).
  { clear Hle Hb Hsz. induction Hes as [|[n d s|n] l [He _] Hl IH]; intros a Ha Hlt; simpl in *.
    - lia.
    - pose proof (stored_le l Hl). rewrite u64_small by lia. rewrite IH by lia. lia.
    - by rewrite IH. }
  unfold LP_SECTOR_SIZE in *. rewrite H by lia. rewrite u64_small by lia. lia.
Qed.

Lemma push_extent_stored es e :
  Forall extent_ok es → extent_ok e →
  stored_sectors (push_extent es e) = stored_sectors es + stored_sectors [e].
Proof.
  intros Hes He. destruct (push_extent_cases es e) as [->|(pre & n' & n & d & s' & -> & -> & ->)].
  - apply stored_app.
  - apply Forall_app in Hes as [_ [Hl _]%Forall_cons]. destruct Hl as (H1 & H2 & H3 & H4).
    destruct He as (H5 & H6 & H7 & H8). rewrite !stored_app. simpl in *. unfold end_sector in *.
    rewrite (u64_small (s' + n')) in * by lia. rewrite u64_small by lia. lia.
Qed.
Lemma AddExtents_stored p l :
  partition_ok p → Forall extent_ok l →
  (total (pt_extents p) + total l) * LP_SECTOR_SIZE < 2 ^ 64 →
  stored_sectors (pt_extents (foldl AddExtent p l)) =
  stored_sectors (pt_extents p) + stored_sectors l.
Proof.
  intros Hp Hl. revert p Hp. induction Hl as [|e l He Hl IH]; intros p Hp Ht; simpl; [lia|].
  pose proof (total_nonneg _ Hl). pose proof (total_nonneg _ (pok_extents _ Hp)).
  pose proof (proj1 He). simpl in Ht.
  destruct (AddExtent_ok p e Hp He) as [Hq Hsz]; [unfold LP_SECTOR_SIZE in *; lia|].
  destruct (push_extent_ok (pt_extents p) e) as (_ & Htot & _);
    [apply Hp|done|unfold LP_SECTOR_SIZE in *; lia|].
  rewrite IH; [|done|simpl; rewrite Htot; lia]. simpl.
  rewrite push_extent_stored by (done || apply Hp). destruct e; simpl; lia.
Qed.

(** ** The size of a group *)

Fixpoint group_bytes (name : bytes) (ps : list Partition) : Z :=
  match ps with
  | [] => 0
  | p :: ps => (if decide (pt_group_name p = name) then BytesOnDisk p else 0) + group_bytes name ps
  end.
Lemma group_bytes_app name l k : group_bytes name (l ++ k) = group_bytes name l + group_bytes name k.
Proof. induction l as [|p l IH]; simpl; lia. Qed.

(** [TotalSizeOfGroup] is the sum, in 64 bits. *)
Lemma TotalSizeOfGroup_eq b g : TotalSizeOfGroup b g = u64 (group_bytes (pg_name g) (b_partitions b)).
Proof.
  unfold TotalSizeOfGroup.
  assert (H : ∀ l a, u64 a = a → foldl (λ total p, if decide (pt_group_name p = pg_name g)
      then u64 (total + BytesOnDisk p) else total) a l = u64 (a + group_bytes (pg_name g) l)).
  { induction l as [|p l IH]; intros a Ha; simpl; [by rewrite Z.add_0_r|].
    case_decide as Hg; simpl; [|by rewrite IH].
    rewrite IH by (unfold u64; by rewrite Z.mod_mod). unfold u64.
    rewrite Zplus_mod_idemp_l. f_equal. lia. }
  by rewrite H.
Qed.

Lemma group_bytes_replaced b name p q g :
  FindPartition b name = Some p → pt_group_name q = pt_group_name p →
  group_bytes g (b_partitions (replaced name q b)) =
  group_bytes g (b_partitions b) +
  if decide (pt_group_name p = g) then BytesOnDisk q - BytesOnDisk p else 0.
Proof.
  intros (pre & post & E & Hn & Hpre)%FindPartition_split Hg.
  unfold replaced, update_partition. simpl. rewrite E, update_named_split by done.
  rewrite !group_bytes_app. simpl. rewrite Hg. case_decide; lia.
Qed.

(** The total of a group after one of its partitions was replaced. *)
Lemma TotalSizeOfGroup_replaced b name p q g :
  FindPartition b name = Some p → pt_group_name q = pt_group_name p → pt_group_name p = pg_name g →
  let delta := BytesOnDisk q - BytesOnDisk p in
  is_u64 (TotalSizeOfGroup b g + delta) →
  TotalSizeOfGroup (replaced name q b) g = TotalSizeOfGroup b g + delta.
Proof.
  intros Hfind Hg Hpg delta. rewrite !TotalSizeOfGroup_eq.
  rewrite (group_bytes_replaced b name p q _ Hfind Hg), decide_True by done. fold delta.
  intros Hu. rewrite <- (u64_small _ Hu). unfold u64. by rewrite Zplus_mod_idemp_l.
Qed.

(** A grown partition has grown on disk by what was added. *)
Lemma grown_bytes b name p size new :
  builder_ok b → FindPartition b name = Some p → addition b p size new → size < 2 ^ 64 →
  BytesOnDisk (foldl AddExtent p new) - BytesOnDisk p = size - pt_size p.
Proof.
  intros Hok Hfind Hadd Hs. pose proof (grown_ok b name p size new Hok Hfind Hadd Hs) as Hg.
  destruct (find_ok _ _ _ Hok Hfind) as (Hp & _). destruct Hg as (Hok' & _ & Hn & _).
  pose proof (FindPartition_replaced b name p _ Hfind Hn) as Hf'.
  destruct (find_ok _ _ _ Hok' Hf') as (Hq & _). destruct Hadd as [A1 A2 A3 A4 A5].
  pose proof (lay_devices _ _ (bok_layout _ Hok)) as Hd.
  assert (Hnew : Forall extent_ok new).
  { eapply Forall_impl; [exact A1|]. intros e He. pose proof (inside_u64 _ _ Hd He) as Hu.
    destruct e; split; simpl in *; unfold LP_SECTOR_SIZE in *; lia. }
  rewrite !BytesOnDisk_stored by done. rewrite AddExtents_stored; [|done..|].
  - rewrite (stored_linear new) by done. lia.
  - rewrite Z.mul_add_distr_r, A4, (pok_size _ Hp). lia.
Qed.

(** ** ResizePartition *)

Lemma FindGroup_name b name g : FindGroup b name = Some g → pg_name g = name.
Proof.
  unfold FindGroup. intros ([i x] & Hx & ->)%fmap_Some.
  by apply list_find_Some in Hx as (_ & ? & _).
Qed.

(** What a successful call leaves: partition [p] became [q], of the requested size
    rounded up to blocks; the bytes both have are where they were; a partition
    that grew is within the limit of its group. *)
Record resized (b : MetadataBuilder) (name : bytes) (p : Partition) (g : PartitionGroup)
    (size : Z) (q : Partition) (b' : MetadataBuilder) : Prop := {
  rs_builder : b' = replaced name q b;
  rs_ok : builder_ok b';
  rs_find : FindPartition b' name = Some q;
  rs_size : pt_size q = size;
  rs_attributes : pt_attributes q = pt_attributes p ∧ pt_group_name q = pt_group_name p;
  rs_kept i : 0 ≤ i < pt_size p `min` size / LP_SECTOR_SIZE →
    resolve (pt_extents q) i = resolve (pt_extents p) i;
  rs_limit : pt_size p < size → 0 < pg_maximum_size g → TotalSizeOfGroup b' g ≤ pg_maximum_size g;
  rs_linear : linear (pt_extents p) → linear (pt_extents q);
}.

Lemma ValidatePartitionSizeChange_grow b p g old size :
  FindGroup b (pt_group_name p) = Some g → is_u64 (pg_maximum_size g) → 0 ≤ old < size →
  size < 2 ^ 64 → ∀ u, ValidatePartitionSizeChange b p old size false = Ret u →
  0 < pg_maximum_size g → TotalSizeOfGroup b g + (size - old) ≤ pg_maximum_size g.
Proof.
  intros Hg Hmax Hold Hs u. unfold ValidatePartitionSizeChange. rewrite Hg.
  rewrite decide_False by (intros [_ ?]; lia). intros E Hpos. rewrite decide_True in E by done.
  apply require_Ret in E. rewrite (u64_small (size - old)) in E by lia.
  pose proof (TotalSizeOfGroup_eq b g). pose proof (u64_range (group_bytes (pg_name g) (b_partitions b))).
  assert (TotalSizeOfGroup b g < pg_maximum_size g) by (apply Z.nle_gt; intros ?; apply E; by left).
  rewrite u64_small in E by lia. lia.
Qed.

Lemma grow_resized fetcher b name p g size hint :
  builder_ok b → FindPartition b name = Some p → FindGroup b (pt_group_name p) = Some g →
  is_u64 (pg_maximum_size g) → pt_size p < size < 2 ^ 64 → (lbs b | size) →
  hint_ok (b_block_devices b) (lbs b) hint →
  (0 < pg_maximum_size g → TotalSizeOfGroup b g + (size - pt_size p) ≤ pg_maximum_size g) →
  match GrowPartition fetcher name size hint b with
  | (Ret _, b') => ∃ q, resized b name p g size q b'
  | (Reject, b') => b' = b
  | (Crash, _) => False
  end.
Proof.
  intros Hok Hfind Hg Hmax Hs Hdiv Hhint Hlim.
  destruct (find_ok _ _ _ Hok Hfind) as (Hp & Hn & _).
  destruct (GrowPartition_extents fetcher b name p size hint Hok Hfind Hs Hdiv Hhint)
    as (free & _ & [(new & Hadd & ->)|[-> _]]); [|done].
  destruct (grown_ok b name p size new Hok Hfind Hadd ltac:(lia))
    as (Hok' & Hsz & Hqn & Hqg & Hqa & _ & Hr).
  exists (foldl AddExtent p new). split; try done.
  - by eapply FindPartition_replaced.
  - intros i Hi. rewrite Hr by lia. rewrite Z.min_l, (pok_size _ Hp) in Hi by lia.
    rewrite Z.div_mul in Hi by done. rewrite resolve_app by (apply Hp || lia).
    by rewrite decide_True by lia.
  - intros _ Hpos. specialize (Hlim Hpos). pose proof (grown_bytes b name p size new Hok Hfind Hadd ltac:(lia)) as Hb.
    pose proof (TotalSizeOfGroup_eq b g). pose proof (u64_range (group_bytes (pg_name g) (b_partitions b))).
    rewrite (TotalSizeOfGroup_replaced b name p); [lia|done|done| |lia].
    symmetry. by eapply FindGroup_name.
  - intros Hl. apply AddExtents_linear; [done|]. by destruct Hadd.
Qed.

Lemma ResizePartition_ok fetcher b name p g requested hint :
  builder_ok b → FindPartition b name = Some p → FindGroup b (pt_group_name p) = Some g →
  is_u64 (pg_maximum_size g) → is_u64 requested → hint_ok (b_block_devices b) (lbs b) hint →
  match ResizePartition fetcher name requested hint b with
  | (Ret _, b') => ∃ size q, AlignTo 64 requested (lbs b) = Some size ∧ resized b name p g size q b'
  | (Reject, b') => b' = b
  | (Crash, _) => False
  end.
Proof.
  intros Hok Hfind Hg Hmax Hreq Hhint. unfold ResizePartition, deref.
  destruct (find_ok _ _ _ Hok Hfind) as (Hp & Hn & _). pose proof (pt_size_nonneg _ Hp).
  erewrite io_bind_eq by done.
  erewrite io_bind_eq by (unfold mbind, io_mbind, get, lift; by rewrite Hfind).
  fold (lbs b). destruct (AlignTo 64 requested (lbs b)) as [size|] eqn:Ea; [|done].
  destruct (bok_lbs _ Hok) as (Hl & Hl0 & _).
  destruct (AlignTo_Some 64 requested (lbs b) size ltac:(lia) Ea ltac:(lia)) as (Hsz & _ & Hdiv).
  destruct (Hdiv Hl0) as [Hd _]. erewrite io_bind_eq by done.
  destruct (ValidatePartitionSizeChange b p (pt_size p) size false) as [u| |] eqn:Ev.
  - erewrite io_bind_eq by done. case_decide as H1; [|case_decide as H2].
    + pose proof (grow_resized fetcher b name p g size hint Hok Hfind Hg Hmax ltac:(lia) Hd Hhint
        (ValidatePartitionSizeChange_grow b p g (pt_size p) size Hg Hmax ltac:(lia) ltac:(lia) u Ev))
        as Hgr.
      destruct (GrowPartition _ _ _ _ b) as [[v| |] b']; [|done..].
      destruct Hgr as [q Hq]. by exists size, q.
    + destruct (ShrinkPartition_ok b name p size Hok Hfind ltac:(lia) Hd)
        as (q & -> & Hok' & Hs & Hqn & Hqg & Hqa & _ & Hr & Hlin).
      exists size, q. split; [done|]. split; try done; [by eapply FindPartition_replaced|].
      intros i Hi. rewrite Z.min_r in Hi by lia. by apply Hr.
    + exists size, p. split; [done|]. assert (size = pt_size p) as -> by lia.
      assert (Heq : replaced name p b = b).
      { destruct (FindPartition_split _ _ _ Hfind) as (pre & post & E & Hpn & Hpre).
        unfold replaced, update_partition. rewrite E, update_named_split, <- E by done. by destruct b. }
      split; try done; lia.
  - unfold mbind, io_mbind, lift. done.
  - unfold ValidatePartitionSizeChange in Ev. rewrite Hg in Ev. repeat case_decide; done.
Qed.

(** ** Adding, removing and moving partitions *)

Lemma AddPartition_ok name group attributes b :
  builder_ok b →
  match AddPartition name group attributes b with
  | (Ret _, b') => name ≠ [] ∧ FindPartition b name = None ∧ FindGroup b group ≠ None ∧
      builder_ok b' ∧ owners b' = owners b ∧
      FindPartition b' name = Some (NewPartition name group attributes) ∧
      ∀ n, n ≠ name → FindPartition b' n = FindPartition b n
  | (Reject, b') => b' = b ∧
      (name = [] ∨ FindPartition b name ≠ None ∨ FindGroup b group = None)
  | (Crash, _) => False
  end.
Proof.
  intros [Hlay Hn Hp Hb Hw Ha Hl]. unfold AddPartition, lift, get, modify, mbind, io_mbind, require.
  case_decide as H1; [|split; [done|by left]].
  case_decide as H2; [|by split; [done|right; left]].
  case_decide as H3; [|by split; [done|by do 2 right]].
  assert (Ho : owners (set_partitions b (b_partitions b ++ [NewPartition name group attributes]))
               = owners b).
  { unfold owners, all_extents. simpl. rewrite bind_app. simpl. by rewrite !app_nil_r. }
  assert (Hnone : ∀ p, p ∈ b_partitions b → pt_name p ≠ name).
  { unfold FindPartition in H2. apply fmap_None, list_find_None in H2.
    by apply Forall_forall. }
  split_and!; try done.
  - split; try done; rewrite ?Ho; try done; simpl.
    + rewrite fmap_app, NoDup_app. split_and!; [done| |apply NoDup_singleton].
      intros x (p & -> & Hin)%list_elem_of_fmap Hx%list_elem_of_singleton. by apply (Hnone p).
    + apply Forall_app. split; [done|]. by repeat constructor.
  - apply (FindPartition_found _ (b_partitions b) (NewPartition name group attributes) []); [done|].
    by apply Forall_forall.
  - intros n Hne. unfold FindPartition. simpl. rewrite find_app, find_cons, decide_False by done.
    by destruct (snd <$> _).
Qed.

Lemma RemovePartition_ok name b :
  builder_ok b →
  let b' := RemovePartition name b in
  builder_ok b' ∧ FindPartition b' name = None ∧
  (∀ n, n ≠ name → FindPartition b' n = FindPartition b n) ∧
  ∀ d s, cover (owners b') d s = cover (owners b) d s -
    match FindPartition b name with Some p => cover (pt_extents p) d s | None => 0 end.
Proof.
  intros Hok b'. destruct (FindPartition b name) as [p|] eqn:Hfind.
  - destruct (owners_split b name p Hfind) as (rest & Ho & _).
    destruct (FindPartition_split _ _ _ Hfind) as (pre & post & E & Hpn & Hpre).
    assert (Eb : b_partitions b' = pre ++ post).
    { unfold b', RemovePartition. simpl. by rewrite E, erase_partition_split. }
    assert (Hor : owners b' ≡ₚ rest).
    { unfold owners in *. rewrite Eb. rewrite E, all_extents_split, Permutation_app_swap_app in Ho.
      apply Permutation_app_inv_l in Ho. unfold all_extents in *. by rewrite bind_app. }
    destruct Hok as [[Hd Hi Hc] Hn Hp Hb Hw Ha Hl]. rewrite Ho in Hi, Hb.
    apply Forall_app in Hi as [_ Hi], Hb as [_ Hb].
    rewrite E, fmap_app, fmap_cons in Hn. rewrite E in Hp.
    assert (Hnd : NoDup ((pt_name <$> pre) ++ (pt_name <$> post)) ∧
      pt_name p ∉ (pt_name <$> pre) ++ (pt_name <$> post)).
    { rewrite <- Permutation_middle in Hn. by apply NoDup_cons in Hn as [??]. }
    destruct Hnd as [Hnd Hnotin]. rewrite <- fmap_app, <- Eb in Hnd, Hnotin. split_and!.
    + split; [split|..]; try done; rewrite ?Hor; try done.
      * intros d s. specialize (Hc d s). rewrite (cover_perm _ _ _ _ Hor).
        rewrite (cover_perm _ _ _ _ Ho), cover_app in Hc.
        pose proof (cover_nonneg (pt_extents p) d s). lia.
      * rewrite Eb. apply Forall_app in Hp as [Hp1 [_ Hp2]%Forall_cons]. by apply Forall_app.
    + unfold FindPartition. apply fmap_None, list_find_None, Forall_forall.
      intros x Hx Hxn. apply Hnotin. rewrite Hpn, <- Hxn. by apply list_elem_of_fmap_2.
    + intros n Hne. unfold FindPartition. rewrite Eb, E, !find_app, find_cons.
      by rewrite decide_False by congruence.
    + intros d s. rewrite (cover_perm _ _ _ _ Hor), (cover_perm _ _ _ _ Ho), cover_app. lia.
  - assert (b' = b) as ->; [|split_and!; try done; intros; lia].
    unfold b', RemovePartition. unfold FindPartition in Hfind. apply fmap_None, list_find_None in Hfind.
    assert (erase_partition name (b_partitions b) = b_partitions b) as ->; [|by destruct b].
    induction Hfind as [|x l Hx _ IH]; simpl; [done|]. by rewrite decide_False, IH.
Qed.
