(* ===== verification/LpExport.v ===== *)
(** * Between builders and metadata ([liblp/builder.cpp])

    [Export] flattens a builder into the tables that are written;
    [ImportPartitions] takes partitions over from an older table;
    [VerifyExtentsAgainstSourceMetadata] compares two builders. *)
From S2P Require Import Prelude Bytes LpFormat LpUtility Device LpReader LpExtent LpBuilder.

(** ** Export *)

(** [liblp/builder.cpp:885-890 MetadataBuilder::Export, block devices] *)
Definition export_device (auto : bool) (d : LpMetadataBlockDevice) : LpMetadataBlockDevice :=
  if auto then
    mkBlockDevice (first_logical_sector d) (bd_alignment d) (bd_alignment_offset d) (bd_size d)
      (bd_partition_name d) (Z.lor (bd_flags d) LP_BLOCK_DEVICE_SLOT_SUFFIXED)
  else d.

(** [liblp/builder.cpp:893-908 MetadataBuilder::Export, groups] *)
Definition export_group (auto : bool) (g : PartitionGroup) : outcome LpMetadataPartitionGroup :=
  _ ← require (length (pg_name g) ≤ 36)%nat;
  let flags := if auto && bool_decide (pg_name g ≠ kDefaultGroup)
               then LP_GROUP_SLOT_SUFFIXED else 0 in
  Ret (mkGroup (strncpy 36 (pg_name g)) flags (pg_maximum_size g)).
(** [group_indices]: a later group of the same name replaces an earlier one.
    [liblp/builder.cpp:892-909 MetadataBuilder::Export, group_indices] *)
Definition group_indices (gs : list PartitionGroup) : gmap bytes nat :=
  fst (foldl (λ '(indices, i) g, (<[pg_name g := i]> indices, S i)) (∅, O) gs).

(** One partition: the entry and extents added, and the minor version of the
    header so far.
    [liblp/builder.cpp:912-952 MetadataBuilder::Export, partitions] *)
Definition export_partition (auto : bool) (n_devices : Z) (indices : gmap bytes nat)
    (n_extents : nat) (minor : Z) (p : Partition)
    : outcome (LpMetadataPartition * list LpMetadataExtent * Z) :=
  _ ← require (length (pt_name p) ≤ 36)%nat;
  _ ← require (Z.land (pt_attributes p) (Z.lnot LP_PARTITION_ATTRIBUTE_MASK) = 0);
  let minor := if decide (Z.land (pt_attributes p) LP_PARTITION_ATTRIBUTE_MASK_V1 = 0)
               then minor else minor `max` LP_METADATA_VERSION_FOR_UPDATED_ATTR in
  let attributes := if auto then Z.lor (pt_attributes p) LP_PARTITION_ATTR_SLOT_SUFFIXED
                    else pt_attributes p in
  group_index ← found (indices !! pt_group_name p);
  extents ← mapM (AddTo n_devices) (pt_extents p);
  Ret (mkPartition (strncpy 36 (pt_name p)) attributes (u32 (Z.of_nat n_extents))
         (u32 (zlen (pt_extents p))) (u32 (Z.of_nat group_index)), extents, minor).
Fixpoint export_partitions (auto : bool) (n_devices : Z) (indices : gmap bytes nat)
    (n_extents : nat) (minor : Z) (ps : list Partition)
    : outcome (list LpMetadataPartition * list LpMetadataExtent * Z) :=
  match ps with
  | [] => Ret ([], [], minor)
  | p :: ps =>
      '(part, es, minor) ← export_partition auto n_devices indices n_extents minor p;
      '(parts, es', minor) ←
        export_partitions auto n_devices indices (n_extents + length es) minor ps;
      Ret (part :: parts, es ++ es', minor)
  end.

Definition table_set_entries (t : LpMetadataTableDescriptor) (n : nat) : LpMetadataTableDescriptor :=
  mkTable (t_offset t) (u32 (Z.of_nat n)) (t_entry_size t).
(** [liblp/builder.cpp:954-959 MetadataBuilder::Export, table sizes] *)
Definition header_set_entries (h : LpMetadataHeader) (minor : Z) (np ne ng nb : nat)
    : LpMetadataHeader :=
  mkHeader (h_magic h) (h_major_version h) minor (header_size h) (header_checksum h)
    (tables_size h) (tables_checksum h) (table_set_entries (h_partitions h) np)
    (table_set_entries (h_extents h) ne) (table_set_entries (h_groups h) ng)
    (table_set_entries (h_block_devices h) nb) (h_flags h) (h_reserved h).

(** [liblp/builder.cpp:875-960 MetadataBuilder::Export] *)
Definition Export (b : MetadataBuilder) : outcome LpMetadata :=
  _ ← require (ValidatePartitionGroups b = true);
  let auto := b_auto_slot_suffixing b in
  let devices := export_device auto <$> b_block_devices b in
  groups ← mapM (export_group auto) (b_groups b);
  '(parts, extents, minor) ←
    export_partitions auto (zlen devices) (group_indices (b_groups b)) 0
      (h_minor_version (b_header b)) (b_partitions b);
  Ret (mkMetadata (b_geometry b)
         (header_set_entries (b_header b) minor (length parts) (length extents) (length groups)
            (length devices))
         parts extents groups devices).

(** ** Import *)

(** [liblp/builder.cpp:1130-1137 CompareBlockDevices] *)
Definition CompareBlockDevices (first second : LpMetadataBlockDevice) : bool :=
  bool_decide (first_logical_sector first = first_logical_sector second) &&
  bool_decide (bd_size first = bd_size second) &&
  bool_decide (GetBlockDevicePartitionName first = GetBlockDevicePartitionName second).

(** [liblp/builder.cpp:1174-1203 MetadataBuilder::ImportPartition] *)
Definition ImportPartition (m : LpMetadata) (source : LpMetadataPartition)
    : IO MetadataBuilder unit :=
  let partition_name := GetPartitionName source in
  b ← get;
  _ ← (if decide (FindPartition b partition_name = None) then
         g ← lift (access (m_groups m !! Z.to_nat (p_group_index source)));
         AddPartition partition_name (GetPartitionGroupName g) (p_attributes source)
       else mret ());
  p ← deref partition_name;
  _ ← lift (require (¬ 0 < pt_size p));
  _ ← ImportExtents partition_name m source;
  b ← get;
  p ← deref partition_name;
  valid ← try_ (lift (ValidatePartitionSizeChange b p (pt_size p) (pt_size p) true));
  match valid with
  | Some _ => mret ()
  | None => _ ← modify (update_partition partition_name RemoveExtents); lift Reject
  end.
(** [liblp/builder.cpp:1139-1172 MetadataBuilder::ImportPartitions] *)
Definition ImportPartitions (m : LpMetadata) (partition_names : gset bytes)
    : IO MetadataBuilder unit :=
  b ← get;
  _ ← lift (require (length (m_block_devices m) = length (b_block_devices b)));
  _ ← lift (require (Forall2 (λ d1 d2, CompareBlockDevices d1 d2 = true)
                       (m_block_devices m) (b_block_devices b)));
  for_each (λ p, if decide (GetPartitionName p ∈ partition_names) then ImportPartition m p
                 else mret ()) (m_partitions m).

(** ** Comparison of two slots *)

(** [liblp/builder.cpp:1330-1338 VerifyExtentsAgainstSourceMetadata, extents] *)
Fixpoint extents_eqb (target source : list Extent) : bool :=
  match target, source with
  | t :: target, s :: source => extent_eqb t s && extents_eqb target source
  | _, _ => true
  end.
(** [liblp/builder.cpp:1299-1342 MetadataBuilder::VerifyExtentsAgainstSourceMetadata] *)
Fixpoint VerifyExtentsAgainstSourceMetadata (source : MetadataBuilder) (source_slot_number : Z)
    (target : MetadataBuilder) (target_slot_number : Z) (partitions : list bytes)
    : outcome unit :=
  match partitions with
  | [] => Ret ()
  | base_name :: partitions =>
      target_suffix ← SlotSuffixForSlotNumber target_slot_number;
      target_partition ← found (FindPartition target (base_name ++ target_suffix));
      source_suffix ← SlotSuffixForSlotNumber source_slot_number;
      source_partition ← found (FindPartition source (base_name ++ source_suffix));
      _ ← require (length (pt_extents target_partition) = length (pt_extents source_partition));
      _ ← require (extents_eqb (pt_extents target_partition) (pt_extents source_partition) = true);
      VerifyExtentsAgainstSourceMetadata source source_slot_number target target_slot_number
        partitions
  end.
