(* ===== verification/LpRoundtrip.v ===== *)
(** * Exporting a builder and building from the result

    The tables [Export] writes for a builder, and the builder that
    [New(metadata)] makes of them: the same groups, devices and partitions, with
    adjacent extents merged. *)
From S2P Require Import Prelude Bytes LpFormat LpUtility Device LpReader LpExtent LpBuilder LpAlloc LpFree.
From S2P Require Import LpGrow LpInvariant LpExport.

(** A partition as it comes back: its extents added one by one. *)
Definition reimported (p : Partition) : Partition :=
  foldl AddExtent (NewPartition (pt_name p) (pt_group_name p) (pt_attributes p)) (pt_extents p).

Lemma reimported_ok p :
  partition_ok p →
  let q := reimported p in
  partition_ok q ∧ pt_size q = pt_size p ∧ pt_name q = pt_name p ∧
  pt_group_name q = pt_group_name p ∧ pt_attributes q = pt_attributes p ∧
  (∀ d s, cover (pt_extents q) d s = cover (pt_extents p) d s) ∧
  (∀ i, 0 ≤ i → resolve (pt_extents q) i = resolve (pt_extents p) i).
Proof.
  intros [He Hs Hb].
  set (p0 := NewPartition (pt_name p) (pt_group_name p) (pt_attributes p)).
  assert (Hp0 : partition_ok p0) by (split; done).
  destruct (AddExtents_ok p0 (pt_extents p) Hp0 He Hb) as (H1 & H2 & H3 & H4 & H5 & H6 & H7).
  intros q. subst q. split_and!; try done.
  rewrite Hs. etrans; [exact (pok_size _ H1)|]. by f_equal.
Qed.

Lemma reimported_name p : pt_name (reimported p) = pt_name p.
Proof.
  unfold reimported. set (p0 := NewPartition _ _ _). change (pt_name p) with (pt_name p0).
  generalize p0. induction (pt_extents p) as [|e l IH]; intros q; simpl; [done|]. by rewrite IH.
Qed.

(** ** Export *)

Lemma mapM_Ret {A B} (f : A → outcome B) l k : mapM f l = Ret k ↔ Forall2 (λ x y, f x = Ret y) l k.
Proof.
  revert k. induction l as [|x l IH]; intros k; simpl.
  - split; [by intros [= <-]; constructor|]. by inversion 1.
  - rewrite bind_Ret. split.
    + intros (y & Hy & H). apply bind_Ret in H as (ys & Hys & H). injection H as <-.
      constructor; [done|]. by apply IH.
    + intros (y & ys & Hy & Hys & ->)%Forall2_cons_inv_l. exists y. split; [done|].
      apply IH in Hys. by rewrite Hys.
Qed.

(** [group_indices] finds a group of that name. *)
Lemma group_indices_lookup gs name i :
  group_indices gs !! name = Some i → ∃ g, gs !! i = Some g ∧ pg_name g = name.
Proof.
  unfold group_indices. set (step := λ '(indices, i) g, (<[pg_name g := i]> indices, S i)).
  assert (H : ∀ l n (m : gmap bytes nat), (fst (foldl step (m, n) l)) !! name = Some i →
     m !! name = Some i ∨ ∃ j g, i = (n + j)%nat ∧ l !! j = Some g ∧ pg_name g = name).
  { induction l as [|g l IH]; intros n m Hl; simpl in *; [by left|].
    destruct (IH _ _ Hl) as [Hm|(j & g' & -> & Hj & Hn)].
    - destruct (decide (pg_name g = name)) as [<-|Hne].
      + rewrite lookup_insert_eq in Hm. simplify_eq. right. exists 0%nat, g. by split_and!; [lia|..].
      + rewrite lookup_insert_ne in Hm by done. by left.
    - right. exists (S j), g'. by split_and!; [lia|..]. }
  intros Hl. destruct (H _ _ _ Hl) as [Hm|(j & g & -> & Hj & Hn)]; [done|]. by exists g.
Qed.

(** The tables of a list of partitions, from extent [k] on. *)
Inductive flattened (auto : bool) (n : Z) (indices : gmap bytes nat)
    : nat → list Partition → list LpMetadataPartition → list LpMetadataExtent → Prop :=
| flattened_nil k : flattened auto n indices k [] [] []
| flattened_cons k p ps xs parts es i :
    (length (pt_name p) ≤ 36)%nat →
    Z.land (pt_attributes p) (Z.lnot LP_PARTITION_ATTRIBUTE_MASK) = 0 →
    Forall2 (λ e x, AddTo n e = Ret x) (pt_extents p) xs →
    indices !! pt_group_name p = Some i →
    flattened auto n indices (k + length xs) ps parts es →
    flattened auto n indices k (p :: ps)
      (mkPartition (strncpy 36 (pt_name p))
         (if auto then Z.lor (pt_attributes p) LP_PARTITION_ATTR_SLOT_SUFFIXED else pt_attributes p)
         (u32 (Z.of_nat k)) (u32 (zlen (pt_extents p))) (u32 (Z.of_nat i)) :: parts)
      (xs ++ es).

Lemma export_partitions_flattened auto n indices k minor ps parts es minor' :
  export_partitions auto n indices k minor ps = Ret (parts, es, minor') →
  flattened auto n indices k ps parts es.
Proof.
  revert k minor parts es. induction ps as [|p ps IH]; intros k minor parts es; simpl.
  { intros [= <- <- _]. constructor. }
  intros ([[part xs] minor1] & Hp & H)%bind_Ret.
  apply bind_Ret in H as ([[parts1 es1] minor2] & Hps & H). injection H as <- <- <-.
  unfold export_partition in Hp. inv_ret. injection Hp as <- <- <-.
  econstructor; try done; [by apply mapM_Ret|]. by eapply IH.
Qed.

(** The parts of the exported metadata. *)
Lemma Export_inv b m :
  Export b = Ret m →
  let auto := b_auto_slot_suffixing b in
  ValidatePartitionGroups b = true ∧ m_geometry m = b_geometry b ∧
  m_block_devices m = export_device auto <$> b_block_devices b ∧
  Forall2 (λ g x, export_group auto g = Ret x) (b_groups b) (m_groups m) ∧
  flattened auto (zlen (m_block_devices m)) (group_indices (b_groups b)) 0 (b_partitions b)
    (m_partitions m) (m_extents m) ∧
  ∃ minor, m_header m = header_set_entries (b_header b) minor (length (m_partitions m))
    (length (m_extents m)) (length (m_groups m)) (length (m_block_devices m)).
Proof.
  unfold Export. intros ([] & Hv%require_Ret & Hx)%bind_Ret.
  apply bind_Ret in Hx as (groups & Hg & Hx).
  apply bind_Ret in Hx as ([[parts es] minor] & Hp & Hx). apply Ret_inj in Hx as <-.
  simpl. split_and!; try done.
  - by apply mapM_Ret.
  - by eapply export_partitions_flattened.
  - by exists minor.
Qed.

(** ** Import *)

Lemma import_extents_added n l xs pre post k p :
  Forall2 (λ e x, AddTo n e = Ret x) l xs → 0 ≤ k ≤ zlen pre →
  import_extents (pre ++ xs ++ post) k (zlen pre - k) (length xs) p = Ret (foldl AddExtent p l).
Proof.
  intros H. revert pre p. induction H as [|e x l xs He H IH]; intros pre p Hk; [done|].
  simpl. replace (k + (zlen pre - k)) with (zlen pre) by lia. rewrite to_nat_zlen.
  rewrite list_lookup_middle by done. simpl.
  assert (Hx : (if decide (e_target_type x = LP_TARGET_TYPE_LINEAR)
    then AddExtent p (LinearExtent (e_num_sectors x) (e_target_source x) (e_target_data x))
    else if decide (e_target_type x = LP_TARGET_TYPE_ZERO)
         then AddExtent p (ZeroExtent (e_num_sectors x)) else p) = AddExtent p e).
  { destruct e as [num d s|num]; simpl in He; [case_decide; [done|]|]; by injection He as <-. }
  rewrite Hx. specialize (IH (pre ++ [x]) (AddExtent p e)).
  rewrite zlen_app in IH. replace (zlen [x]) with 1 in IH by done.
  rewrite <- (assoc_L (++)) in IH. simpl in IH.
  replace (zlen pre + 1 - k) with (zlen pre - k + 1) in IH by lia. apply IH. lia.
Qed.

(** The step of [Init] for one partition. *)
Definition init_partition (m : LpMetadata) (p : LpMetadataPartition) : IO MetadataBuilder unit :=
  g ← lift (access (m_groups m !! Z.to_nat (p_group_index p)));
  _ ← AddPartition (GetPartitionName p) (GetPartitionGroupName g) (p_attributes p);
  ImportExtents (GetPartitionName p) m p.

Lemma init_partition_ok m b done p part g xs pre post n :
  m_extents m = pre ++ xs ++ post → Forall2 (λ e x, AddTo n e = Ret x) (pt_extents p) xs →
  b_partitions b = done → pt_name p ∉ pt_name <$> done → pt_name p ≠ [] →
  FindGroup b (pt_group_name p) ≠ None →
  m_groups m !! Z.to_nat (p_group_index part) = Some g → GetPartitionGroupName g = pt_group_name p →
  GetPartitionName part = pt_name p → p_attributes part = pt_attributes p →
  p_first_extent_index part = zlen pre → p_num_extents part = zlen xs →
  init_partition m part b = (Ret (), set_partitions b (done ++ [reimported p])).
Proof.
  intros Hes Hxs Hdone Hnew Hne Hgrp Hg Hgn Hn Ha Hf Hc.
  assert (Hpre : Forall (λ x, pt_name x ≠ pt_name p) done).
  { apply Forall_forall. intros x Hx Heq. apply Hnew. rewrite <- Heq. by apply list_elem_of_fmap_2. }
  unfold init_partition. erewrite io_bind_eq by (unfold lift; by rewrite Hg).
  rewrite Hgn, Hn, Ha.
  set (p0 := NewPartition (pt_name p) (pt_group_name p) (pt_attributes p)).
  assert (Hnone : FindPartition b (pt_name p) = None).
  { unfold FindPartition. apply fmap_None, list_find_None. by rewrite Hdone. }
  rewrite (io_bind_eq _ _ _ () (set_partitions b (done ++ [p0]))).
  2:{ unfold AddPartition, get, modify. erewrite io_bind_eq by done.
      rewrite !io_require by done. by rewrite Hdone. }
  assert (Hfind : FindPartition (set_partitions b (done ++ [p0])) (pt_name p) = Some p0).
  { by apply (FindPartition_found _ done p0 []). }
  unfold ImportExtents, deref.
  erewrite io_bind_eq by (unfold mbind, io_mbind, get, lift; by rewrite Hfind).
  pose proof (import_extents_added n (pt_extents p) xs pre post (zlen pre) p0 Hxs) as Him.
  rewrite Z.sub_diag in Him. rewrite Hes, Hf, Hc, to_nat_zlen.
  erewrite io_bind_eq by (unfold lift; rewrite Him; [done|pose proof (zlen_nonneg pre); lia]).
  unfold modify, update_partition. f_equal. unfold set_partitions at 1. simpl.
  by rewrite update_named_split.
Qed.

Lemma init_partitions_ok m n indices k ps parts es :
  flattened false n indices k ps parts es → zlen (m_extents m) < 2 ^ 32 →
  ∀ pre b done, m_extents m = pre ++ es → length pre = k → b_partitions b = done →
  NoDup ((pt_name <$> done) ++ (pt_name <$> ps)) →
  Forall (λ p, pt_name p ≠ [] ∧ no_nul (pt_name p) ∧ FindGroup b (pt_group_name p) ≠ None) ps →
  (∀ name i, indices !! name = Some i → Z.of_nat i < 2 ^ 32 ∧
     ∃ g, m_groups m !! i = Some g ∧ GetPartitionGroupName g = name) →
  for_each (init_partition m) parts b = (Ret (), set_partitions b (done ++ (reimported <$> ps))).
Proof.
  intros H Hsz. induction H as [k|k p ps xs parts es i Hlen Hat Hxs Hi H IH];
    intros pre b done Hes Hk Hdone Hnd Hps Hidx; simpl.
  { rewrite app_nil_r, <- Hdone. by destruct b. }
  apply Forall_cons in Hps as [(Hne & Hnul & Hg) Hps].
  destruct (Hidx _ _ Hi) as (Hib & g & Hgi & Hgn).
  rewrite Hes, !zlen_app in Hsz. pose proof (zlen_nonneg xs). pose proof (zlen_nonneg es).
  pose proof (zlen_nonneg pre). assert (Hkz : Z.of_nat k = zlen pre) by (unfold zlen; lia).
  assert (Hxl : zlen (pt_extents p) = zlen xs) by (unfold zlen; by rewrite (Forall2_length _ _ _ Hxs)).
  csimpl in Hnd. rewrite <- Permutation_middle in Hnd. apply NoDup_cons in Hnd as [Hnotin Hnd].
  erewrite io_bind_eq.
  2:{ eapply (init_partition_ok m b done p _ g xs pre es n); try done; simpl.
      - intros Hin. apply Hnotin, elem_of_app. by left.
      - by rewrite u32_small, Nat2Z.id by lia.
      - unfold GetPartitionName. simpl. by apply name_roundtrip.
      - rewrite u32_small; lia.
      - rewrite u32_small; lia. }
  rewrite (IH (pre ++ xs) _ (done ++ [reimported p])); try done.
  - unfold set_partitions. simpl. by rewrite <- (assoc_L (++)).
  - by rewrite <- (assoc_L (++)).
  - rewrite length_app. lia.
  - rewrite fmap_app. csimpl. rewrite <- (assoc_L (++)). simpl.
    rewrite reimported_name, <- Permutation_middle. by constructor.
Qed.

(** The groups come back. *)
Lemma init_groups_ok gs xs b done :
  Forall2 (λ g x, export_group false g = Ret x) gs xs → b_groups b = done →
  NoDup ((pg_name <$> done) ++ (pg_name <$> gs)) → Forall (λ g, no_nul (pg_name g)) gs →
  for_each (λ g, AddGroup (GetPartitionGroupName g) (gr_maximum_size g)) xs b =
  (Ret (), set_groups b (done ++ gs)).
Proof.
  intros H. revert b done. induction H as [|g x gs xs Hx H IH]; intros b done Hb Hnd Hnul; simpl.
  { rewrite app_nil_r, <- Hb. by destruct b. }
  apply Forall_cons in Hnul as [Hn Hnul]. unfold export_group in Hx.
  apply bind_Ret in Hx as ([] & Hlen%require_Ret & Hx). apply Ret_inj in Hx as <-.
  assert (Hname : GetPartitionGroupName (mkGroup (strncpy 36 (pg_name g)) 0 (pg_maximum_size g))
    = pg_name g) by (by apply name_roundtrip).
  simpl in *. rewrite Hname. csimpl in Hnd.
  rewrite <- Permutation_middle in Hnd. apply NoDup_cons in Hnd as [Hnotin Hnd].
  rewrite (io_bind_eq _ _ _ () (set_groups b (done ++ [g]))).
  2:{ unfold AddGroup, get, modify. erewrite io_bind_eq by done. rewrite io_require.
      - rewrite Hb. by destruct g.
      - unfold FindGroup. apply fmap_None, list_find_None, Forall_forall. rewrite Hb.
        intros y Hy Heq. apply Hnotin, elem_of_app. left. rewrite <- Heq. by apply list_elem_of_fmap_2. }
  rewrite (IH _ (done ++ [g])); try done.
  - unfold set_groups. simpl. by rewrite <- (assoc_L (++)).
  - rewrite fmap_app, <- (assoc_L (++)). csimpl. rewrite <- Permutation_middle. by constructor.
Qed.

(** What a builder must satisfy to be written and read back. *)
Record exportable (b : MetadataBuilder) : Prop := {
  xp_suffixing : b_auto_slot_suffixing b = false;
  xp_partitions : NoDup (pt_name <$> b_partitions b);
  xp_groups : NoDup (pg_name <$> b_groups b);
  xp_partition_names : Forall (λ p, pt_name p ≠ [] ∧ no_nul (pt_name p)) (b_partitions b);
  xp_group_names : Forall (λ g, no_nul (pg_name g)) (b_groups b);
  xp_counts : zlen (owners b) < 2 ^ 32 ∧ zlen (b_groups b) < 2 ^ 32;
}.

Lemma flattened_extents auto n indices k ps parts es :
  flattened auto n indices k ps parts es → length es = length (all_extents ps) ∧
  Forall (λ p, ∃ i, indices !! pt_group_name p = Some i) ps.
Proof.
  induction 1 as [|k p ps xs parts es i Hlen Hat Hxs Hi H [IH IH']]; [done|].
  unfold all_extents in *. csimpl. rewrite !length_app, IH, (Forall2_length _ _ _ Hxs).
  split; [done|]. constructor; [by exists i|done].
Qed.

(** The tables under another header. *)
Definition with_header (m : LpMetadata) (h : LpMetadataHeader) : LpMetadata :=
  mkMetadata (m_geometry m) h (m_partitions m) (m_extents m) (m_groups m) (m_block_devices m).
(** The header of the builder that is made from metadata with header [h]. *)
Definition rebuilt_header (h : LpMetadataHeader) : LpMetadataHeader :=
  if decide (LP_METADATA_VERSION_FOR_EXPANDED_HEADER ≤ h_minor_version h)
  then header_set_flags (b_header (RequireExpandedMetadataHeader EmptyBuilder)) (h_flags h)
  else b_header EmptyBuilder.
Definition rebuilt (b : MetadataBuilder) (h : LpMetadataHeader) : MetadataBuilder :=
  mkBuilder (b_geometry b) (rebuilt_header h) (reimported <$> b_partitions b) (b_groups b)
    (b_block_devices b) false.

Lemma export_import b m h :
  exportable b → Export b = Ret m → New_metadata (with_header m h) None = Ret (rebuilt b h).
Proof.
  intros [Hauto Hnp Hng Hp Hgn [Hne Hngr]] Hx.
  destruct (Export_inv b m Hx) as (_ & Hgeo & Hdev & Hgs & Hflat & _).
  rewrite Hauto in *. assert (Hdev' : m_block_devices m = b_block_devices b).
  { rewrite Hdev. apply list_fmap_id. }
  destruct (flattened_extents _ _ _ _ _ _ _ Hflat) as [Hlen Hidx].
  assert (Hns : zlen (m_extents m) < 2 ^ 32) by (unfold owners in Hne; unfold zlen in *; lia).
  set (b0 := mkBuilder (m_geometry m) (rebuilt_header h) [] [] (m_block_devices m) false).
  unfold New_metadata. rewrite (io_bind_eq (Init_metadata (with_header m h)) _ EmptyBuilder ()
    (set_partitions (set_groups b0 (b_groups b)) (reimported <$> b_partitions b)));
    [unfold rebuilt; by rewrite <- Hgeo, <- Hdev'|].
  unfold Init_metadata. erewrite io_bind_eq by done.
  rewrite (io_bind_eq _ _ _ () b0) by (unfold b0, rebuilt_header; simpl; by case_decide).
  rewrite (io_bind_eq _ _ _ () (set_groups b0 (b_groups b))).
  2:{ by apply (init_groups_ok (b_groups b) (m_groups m) b0 []). }
  apply (init_partitions_ok (with_header m h) _ _ _ _ _ _ Hflat Hns [] (set_groups b0 (b_groups b)) []); try done.
  - apply Forall_forall. intros p Hpin.
    destruct (proj1 (Forall_forall _ _) Hp p Hpin) as [Hp1 Hp2]. split_and!; [done..|].
    destruct (proj1 (Forall_forall _ _) Hidx p Hpin) as [i Hi].
    destruct (group_indices_lookup _ _ _ Hi) as (g & Hg & Hgn').
    unfold FindGroup. simpl. intros Hnone. apply fmap_None, list_find_None in Hnone.
    by apply (Forall_lookup_1 _ _ _ _ Hnone Hg).
  - intros name i Hi. destruct (group_indices_lookup _ _ _ Hi) as (g & Hg & Hgn').
    pose proof (lookup_lt_Some _ _ _ Hg). split; [unfold zlen in *; lia|].
    destruct (Forall2_lookup_l _ _ _ _ _ Hgs Hg) as (x & Hx1 & Hx2). exists x. split; [done|].
    unfold export_group in Hx2. apply bind_Ret in Hx2 as ([] & Hl%require_Ret & Hx2).
    apply Ret_inj in Hx2 as <-. unfold GetPartitionGroupName. simpl.
    rewrite name_roundtrip; [done| |done]. by apply (Forall_lookup_1 _ _ _ _ Hgn Hg).
Qed.

(** ** When [Export] succeeds *)

Lemma mapM_total {A B} (f : A → outcome B) l :
  (∀ x, f x ≠ Crash) → mapM f l ≠ Crash ∧ ((∃ k, mapM f l = Ret k) ↔ Forall (λ x, ∃ y, f x = Ret y) l).
Proof.
  intros Hf. split.
  - induction l as [|x l IH]; simpl; [done|]. specialize (Hf x).
    destruct (f x); simpl; [|done..]. by destruct (mapM f l).
  - setoid_rewrite mapM_Ret. split.
    + intros [k H]. induction H; constructor; eauto.
    + induction 1 as [|x l [y Hy] _ [k IH]]; [by exists []|]. exists (y :: k). by constructor.
Qed.

Lemma group_indices_total gs g : g ∈ gs → is_Some (group_indices gs !! pg_name g).
Proof.
  unfold group_indices. set (step := λ '(indices, i) g, (<[pg_name g := i]> indices, S i)).
  assert (H : ∀ l n (m : gmap bytes nat), g ∈ l ∨ is_Some (m !! pg_name g) →
    is_Some (fst (foldl step (m, n) l) !! pg_name g)).
  { induction l as [|x l IH]; intros n m; simpl.
    - intros [Hin|?]; [by apply not_elem_of_nil in Hin|done].
    - intros Hor. apply IH. rewrite elem_of_cons in Hor.
      destruct (decide (pg_name x = pg_name g)) as [->|Hne].
      + right. rewrite lookup_insert_eq. by eexists.
      + rewrite lookup_insert_ne by done. destruct Hor as [[->|?]|?]; [done|by left|by right]. }
  intros Hin. apply H. by left.
Qed.

(** A group that can be written. *)
Definition group_writable (g : PartitionGroup) : Prop := (length (pg_name g) ≤ 36)%nat.
(** A partition that can be written beside groups [gs] and [n] devices. *)
Definition partition_writable (gs : list PartitionGroup) (n : nat) (p : Partition) : Prop :=
  (length (pt_name p) ≤ 36)%nat ∧
  Z.land (pt_attributes p) (Z.lnot LP_PARTITION_ATTRIBUTE_MASK) = 0 ∧
  pt_group_name p ∈ pg_name <$> gs ∧
  Forall (λ e, match e with LinearExtent _ d _ => d < Z.of_nat n | ZeroExtent _ => True end)
    (pt_extents p).

Lemma AddTo_cases n e :
  AddTo n e ≠ Crash ∧
  ((∃ x, AddTo n e = Ret x) ↔ match e with LinearExtent _ d _ => d < n | ZeroExtent _ => True end).
Proof.
  destruct e as [k d s|k]; simpl; [case_decide|]; split; try done.
  - split; [by intros [? ?]|lia].
  - split; [lia|]. intros _. by eexists.
  - split; [done|]. intros _. by eexists.
Qed.

Lemma export_partition_cases auto gs n k minor p :
  export_partition auto (Z.of_nat n) (group_indices gs) k minor p ≠ Crash ∧
  ((∃ x, export_partition auto (Z.of_nat n) (group_indices gs) k minor p = Ret x) ↔
   partition_writable gs n p).
Proof.
  unfold export_partition, partition_writable.
  destruct (mapM_total (AddTo (Z.of_nat n)) (pt_extents p)) as [Hnc Htot]; [apply AddTo_cases|].
  assert (Hf : Forall (λ x, ∃ y, AddTo (Z.of_nat n) x = Ret y) (pt_extents p) ↔
     Forall (λ e, match e with LinearExtent _ d _ => d < Z.of_nat n | ZeroExtent _ => True end)
       (pt_extents p)) by (apply Forall_proper; [intros e; apply AddTo_cases|done]).
  rewrite <- Hf, <- Htot. clear Hf Htot.
  destruct (decide (length (pt_name p) ≤ 36)%nat) as [H1|H1];
    [rewrite (require_True (length (pt_name p) ≤ 36)%nat) by done
    |rewrite (require_False (length (pt_name p) ≤ 36)%nat) by done; split; [done|]].
  2:{ split; [by intros [? ?]|tauto]. }
  simpl. destruct (decide (Z.land (pt_attributes p) (Z.lnot LP_PARTITION_ATTRIBUTE_MASK) = 0))
    as [H2|H2]; [rewrite (require_True (Z.land _ _ = 0)) by done
                |rewrite (require_False (Z.land _ _ = 0)) by done; split; [done|]].
  2:{ split; [by intros [? ?]|tauto]. }
  simpl. assert (Hg : is_Some (group_indices gs !! pt_group_name p) ↔
    pt_group_name p ∈ pg_name <$> gs).
  { split.
    - intros [i (g & Hg & <-)%group_indices_lookup]. apply list_elem_of_fmap_2.
      by eapply list_elem_of_lookup_2.
    - intros (g & -> & Hg)%list_elem_of_fmap. by apply group_indices_total. }
  rewrite <- Hg. destruct (group_indices gs !! pt_group_name p) as [i|]; simpl.
  - destruct (mapM _ _) as [xs| |]; simpl; [|split; [done|]|done].
    + split; [done|]. split; [|by eexists]. intros _. by split_and!; eauto.
    + split; [by intros [? ?]|]. by intros (_ & _ & _ & [? ?]).
  - split; [done|]. split; [by intros [? ?]|]. by intros (_ & _ & [? ?] & _).
Qed.

Lemma export_partitions_cases auto gs n k minor ps :
  export_partitions auto (Z.of_nat n) (group_indices gs) k minor ps ≠ Crash ∧
  ((∃ x, export_partitions auto (Z.of_nat n) (group_indices gs) k minor ps = Ret x) ↔
   Forall (partition_writable gs n) ps).
Proof.
  revert k minor. induction ps as [|p ps IH]; intros k minor; simpl.
  { split; [done|]. split; [done|]. by eexists. }
  destruct (export_partition_cases auto gs n k minor p) as [Hnc Hex]. rewrite Forall_cons, <- Hex.
  destruct (export_partition _ _ _ _ _ p) as [[[part es] minor1]| |]; simpl; [|split; [done|]|done].
  2:{ split; [by intros [? ?]|]. by intros [[? ?] _]. }
  destruct (IH (k + length es)%nat minor1) as [Hnc' Hex']. rewrite <- Hex'.
  destruct (export_partitions _ _ _ _ _ ps) as [[[parts es'] minor2]| |]; simpl; [|split; [done|]|done].
  - split; [done|]. split; [by eauto|]. intros _. by eexists.
  - split; [by intros [? ?]|]. by intros [_ [? ?]].
Qed.

Lemma Export_cases b :
  Export b ≠ Crash ∧
  ((∃ m, Export b = Ret m) ↔
   ValidatePartitionGroups b = true ∧ Forall group_writable (b_groups b) ∧
   Forall (partition_writable (b_groups b) (length (b_block_devices b))) (b_partitions b)).
Proof.
  unfold Export. destruct (decide (ValidatePartitionGroups b = true)) as [Hv|Hv];
    [rewrite require_True by done|rewrite require_False by done; split; [done|]].
  2:{ split; [by intros [? ?]|tauto]. }
  simpl. set (auto := b_auto_slot_suffixing b).
  destruct (mapM_total (export_group auto) (b_groups b)) as [Hnc Htot].
  { intros g. unfold export_group, require. by case_decide. }
  assert (Hg : Forall (λ x, ∃ y, export_group auto x = Ret y) (b_groups b) ↔
               Forall group_writable (b_groups b)).
  { apply Forall_proper; [|done]. intros g. unfold export_group, group_writable, require.
    case_decide; simpl; split; try done; [by eexists|by intros [? ?]]. }
  rewrite <- Hg, <- Htot. destruct (mapM (export_group auto) _) as [gs| |]; simpl; [|split; [done|]|done].
  2:{ split; [by intros [? ?]|]. by intros (_ & [? ?] & _). }
  unfold zlen. rewrite length_fmap.
  destruct (export_partitions_cases auto (b_groups b) (length (b_block_devices b)) 0
    (h_minor_version (b_header b)) (b_partitions b)) as [Hnc' Hex]. rewrite <- Hex.
  destruct (export_partitions _ _ _ _ _ _) as [[[parts es] minor]| |]; simpl; [|split; [done|]|done].
  - split; [done|]. split; [by eauto|]. intros _. by eexists.
  - split; [by intros [? ?]|]. by intros (_ & _ & [? ?]).
Qed.
