(* ===== verification/BackedBlock.v ===== *)
(** * Lists of backed blocks ([libsparse/backed_block.cpp])

    A list is a chain of nodes in a heap, shared by the lists that exchange
    nodes ([backed_block_list_move]); a list value holds the head, the node
    added last and the block size.  Following a freed or missing pointer is a
    [Crash], a failed allocation a [Reject].  Loops over a chain take fuel; a
    chain of distinct nodes is not longer than the heap. *)
From S2P Require Import Prelude Bytes SparseFormat.

Abbreviation loc := positive.

(** What holds the bytes of a block: the union of [struct backed_block].
    [libsparse/backed_block.cpp:30-45 backed_block, union] *)
Inductive backing :=
| BACKED_BLOCK_DATA (data : Z)
| BACKED_BLOCK_FILE (filename : bytes) (offset : Z)
| BACKED_BLOCK_FD (fd offset : Z)
| BACKED_BLOCK_FILL (val : Z).

(** [libsparse/backed_block.cpp:26-47 backed_block] *)
Record backed_block := mkBlock {
  bb_block : Z;
  bb_len : Z;
  bb_backing : backing;
  bb_next : option loc;
}.
(** [libsparse/backed_block.cpp:49-53 backed_block_list] *)
Record backed_block_list := mkList {
  data_blocks : option loc;
  last_used : option loc;
  bbl_block_size : Z;
}.
Abbreviation heap := (gmap loc backed_block).

#[export] Instance backing_eq_dec : EqDecision backing.
Proof. solve_decision. Defined.
#[export] Instance backed_block_eq_dec : EqDecision backed_block.
Proof. solve_decision. Defined.

Definition bb_set_next (b : backed_block) (n : option loc) : backed_block :=
  mkBlock (bb_block b) (bb_len b) (bb_backing b) n.
Definition bb_set_len (b : backed_block) (len : Z) : backed_block :=
  mkBlock (bb_block b) len (bb_backing b) (bb_next b).

(** [libsparse/backed_block.cpp:112-117 backed_block_list_new] *)
Definition backed_block_list_new (block_size : Z) : backed_block_list :=
  mkList None None block_size.

(** The blocks of a chain in order: iteration with [backed_block_iter_new] and
    [backed_block_iter_next].
    [libsparse/backed_block.cpp:55-61 backed_block_iter_new, backed_block_iter_next] *)
Fixpoint chain_blocks (h : heap) (fuel : nat) (p : option loc) : outcome (list backed_block) :=
  match p, fuel with
  | None, _ => Ret []
  | Some l, S fuel =>
      b ← access (h !! l);
      bs ← chain_blocks h fuel (bb_next b);
      Ret (b :: bs)
  | Some _, O => Crash
  end.
Definition list_blocks (h : heap) (bbl : backed_block_list) : outcome (list backed_block) :=
  chain_blocks h (S (size h)) (data_blocks bbl).

(** [libsparse/backed_block.cpp:119-130 backed_block_list_destroy] *)
Fixpoint destroy_chain (fuel : nat) (p : option loc) (h : heap) : outcome heap :=
  match p, fuel with
  | None, _ => Ret h
  | Some l, S fuel => b ← access (h !! l); destroy_chain fuel (bb_next b) (delete l h)
  | Some _, O => Crash
  end.
Definition backed_block_list_destroy (bbl : backed_block_list) (h : heap) : outcome heap :=
  destroy_chain (S (size h)) (data_blocks bbl) h.

(** ** Merging *)

(** Whether two adjacent blocks of the same list hold one run of bytes.
    [libsparse/backed_block.cpp:198-220 merge_bb, switch] *)
Definition backing_continues (a b : backed_block) : bool :=
  match bb_backing a, bb_backing b with
  | BACKED_BLOCK_FILL v, BACKED_BLOCK_FILL v' => bool_decide (v = v')
  | BACKED_BLOCK_FILE f o, BACKED_BLOCK_FILE f' o' =>
      bool_decide (f = f') && bool_decide (u64 (o + bb_len a) = u64 o')
  | BACKED_BLOCK_FD fd o, BACKED_BLOCK_FD fd' o' =>
      bool_decide (fd = fd') && bool_decide (u64 (o + bb_len a) = u64 o')
  | _, _ => false
  end.
Definition same_type (a b : backing) : bool :=
  match a, b with
  | BACKED_BLOCK_DATA _, BACKED_BLOCK_DATA _ | BACKED_BLOCK_FILE _ _, BACKED_BLOCK_FILE _ _
  | BACKED_BLOCK_FD _ _, BACKED_BLOCK_FD _ _ | BACKED_BLOCK_FILL _, BACKED_BLOCK_FILL _ => true
  | _, _ => false
  end.
(** The value of [a] after [b] is merged into it, if they are compatible; the
    [assert] is on the block numbers.
    [libsparse/backed_block.cpp:177-228 merge_bb] *)
Definition merge_blocks (block_size : Z) (a b : backed_block) : outcome (option backed_block) :=
  _ ← CHECK (bb_block a < bb_block b);
  _ ← CHECK (block_size ≠ 0);
  let block_len := u32 (bb_len a / block_size) in
  if same_type (bb_backing a) (bb_backing b) &&
     bool_decide (u32 (bb_block a + block_len) = bb_block b) && backing_continues a b
  then Ret (Some (mkBlock (bb_block a) (u64 (bb_len a + bb_len b)) (bb_backing a) (bb_next b)))
  else Ret None.
(** [merge_bb] on the heap: whether the blocks were merged, [b] being freed then.
    [libsparse/backed_block.cpp:177-228 merge_bb] *)
Definition merge_bb (bbl : backed_block_list) (a b : option loc) (h : heap)
    : outcome (bool * heap) :=
  match a, b with
  | Some la, Some lb =>
      na ← access (h !! la);
      nb ← access (h !! lb);
      m ← merge_blocks (bbl_block_size bbl) na nb;
      match m with
      | Some n => Ret (true, delete lb (<[la := n]> h))
      | None => Ret (false, h)
      end
  | _, _ => Ret (false, h)
  end.

(** ** Queueing *)

(** The search of [queue_bb]: the last node before [block], from [l] on.
    [libsparse/backed_block.cpp:253-254 queue_bb, search] *)
Fixpoint find_before (h : heap) (fuel : nat) (block : Z) (l : loc) : outcome loc :=
  match fuel with
  | O => Crash
  | S fuel =>
      b ← access (h !! l);
      match bb_next b with
      | None => Ret l
      | Some n =>
          nb ← access (h !! n);
          if decide (bb_block nb < block) then find_before h fuel block n else Ret l
      end
  end.

(** Where the search starts: at the node added last, if it is before [block].
    [libsparse/backed_block.cpp:244-250 queue_bb, last_used] *)
Definition search_start (h : heap) (bbl : backed_block_list) (head : loc) (block : Z)
    : outcome loc :=
  match last_used bbl with
  | Some lu =>
      ub ← access (h !! lu);
      Ret (if decide (bb_block ub < block) then lu else head)
  | None => Ret head
  end.

(** [new_bb] is in the heap, with no successor.
    [libsparse/backed_block.cpp:230-270 queue_bb] *)
Definition queue_bb (bbl : backed_block_list) (new_bb : loc) (h : heap)
    : outcome (backed_block_list * heap) :=
  nb ← access (h !! new_bb);
  match data_blocks bbl with
  | None => Ret (mkList (Some new_bb) (last_used bbl) (bbl_block_size bbl), h)
  | Some head =>
      hb ← access (h !! head);
      if decide (bb_block nb < bb_block hb) then
        Ret (mkList (Some new_bb) (last_used bbl) (bbl_block_size bbl),
             <[new_bb := bb_set_next nb (Some head)]> h)
      else
        start ← search_start h bbl head (bb_block nb);
        let bbl := mkList (Some head) (Some new_bb) (bbl_block_size bbl) in
        l ← find_before h (size h) (bb_block nb) start;
        b ← access (h !! l);
        let h := <[l := bb_set_next b (Some new_bb)]>
                   (<[new_bb := bb_set_next nb (bb_next b)]> h) in
        '(_, h) ← merge_bb bbl (Some new_bb) (bb_next b) h;
        '(merged, h) ← merge_bb bbl (Some l) (Some new_bb) h;
        Ret (if (merged : bool) then mkList (Some head) (Some l) (bbl_block_size bbl) else bbl, h)
  end.

Section Allocation.
(** Whether the allocation of a node succeeds. *)
Context (calloc_ok : heap → bool).

Definition alloc (b : backed_block) (h : heap) : outcome (loc * heap) :=
  _ ← require (calloc_ok h = true);
  let l := fresh (dom h) in Ret (l, <[l := b]> h).

(** What [backed_block_add_fill], [_data], [_file] and [_fd] share.
    [libsparse/backed_block.cpp:273-344 backed_block_add_fill, _data, _file, _fd] *)
Definition backed_block_add (bbl : backed_block_list) (data : backing) (len block : Z) (h : heap)
    : outcome (backed_block_list * heap) :=
  '(l, h) ← alloc (mkBlock block len data None) h;
  queue_bb bbl l h.

(** [libsparse/backed_block.cpp:273-287 backed_block_add_fill] *)
Definition backed_block_add_fill bbl (fill_val len block : Z) (h : heap) :=
  backed_block_add bbl (BACKED_BLOCK_FILL fill_val) len block h.
(** [libsparse/backed_block.cpp:290-304 backed_block_add_data] *)
Definition backed_block_add_data bbl (data len block : Z) (h : heap) :=
  backed_block_add bbl (BACKED_BLOCK_DATA data) len block h.
(** [libsparse/backed_block.cpp:307-326 backed_block_add_file] *)
Definition backed_block_add_file bbl (filename : bytes) (offset len block : Z) (h : heap) :=
  backed_block_add bbl (BACKED_BLOCK_FILE filename offset) len block h.
(** [libsparse/backed_block.cpp:329-344 backed_block_add_fd] *)
Definition backed_block_add_fd bbl (fd offset len block : Z) (h : heap) :=
  backed_block_add bbl (BACKED_BLOCK_FD fd offset) len block h.

(** The backing of the second half of a split block.
    [libsparse/backed_block.cpp:367-383 backed_block_split, switch] *)
Definition backing_advance (b : backing) (n : Z) : backing :=
  match b with
  | BACKED_BLOCK_DATA a => BACKED_BLOCK_DATA (a + n)
  | BACKED_BLOCK_FILE f o => BACKED_BLOCK_FILE f (i64 (o + n))
  | BACKED_BLOCK_FD fd o => BACKED_BLOCK_FD fd (i64 (o + n))
  | BACKED_BLOCK_FILL v => BACKED_BLOCK_FILL v
  end.
(** [libsparse/backed_block.cpp:346-389 backed_block_split] *)
Definition backed_block_split (bbl : backed_block_list) (bb : loc) (max_len : Z) (h : heap)
    : outcome heap :=
  _ ← CHECK (bbl_block_size bbl ≠ 0);
  let max_len := ALIGN_DOWN max_len (bbl_block_size bbl) in
  b ← access (h !! bb);
  if decide (bb_len b ≤ max_len) then Ret h
  else
    '(new_bb, h) ← alloc (mkBlock (u32 (bb_block b + max_len / bbl_block_size bbl))
                            (u64 (bb_len b - max_len)) (backing_advance (bb_backing b) max_len)
                            (bb_next b)) h;
    Ret (<[bb := mkBlock (bb_block b) max_len (bb_backing b) (Some new_bb)]> h).
End Allocation.

(** ** Moving a run of nodes to another list *)

(** [libsparse/backed_block.cpp:140-143 backed_block_list_move, end] *)
Fixpoint chain_end (h : heap) (fuel : nat) (l : loc) : outcome loc :=
  match fuel with
  | O => Crash
  | S fuel =>
      b ← access (h !! l);
      match bb_next b with None => Ret l | Some n => chain_end h fuel n end
  end.
(** The node before [start], if there is one.
    [libsparse/backed_block.cpp:151-160 backed_block_list_move, unlink] *)
Fixpoint find_pred (h : heap) (fuel : nat) (start : loc) (p : option loc)
    : outcome (option loc) :=
  match p, fuel with
  | None, _ => Ret None
  | Some l, S fuel =>
      b ← access (h !! l);
      if decide (bb_next b = Some start) then Ret (Some l)
      else find_pred h fuel start (bb_next b)
  | Some _, O => Crash
  end.
(** The node of the target list after which the run goes: the first whose
    successor is missing or beyond the run.
    [libsparse/backed_block.cpp:162-173 backed_block_list_move, link] *)
Fixpoint find_link (h : heap) (fuel : nat) (block : Z) (l : loc) : outcome loc :=
  match fuel with
  | O => Crash
  | S fuel =>
      b ← access (h !! l);
      match bb_next b with
      | None => Ret l
      | Some n =>
          nb ← access (h !! n);
          if decide (block < bb_block nb) then Ret l else find_link h fuel block n
      end
  end.

(** [libsparse/backed_block.cpp:132-174 backed_block_list_move] *)
Definition backed_block_list_move (from to : backed_block_list) (start end_ : option loc)
    (h : heap) : outcome (backed_block_list * backed_block_list * heap) :=
  let start := match start with None => data_blocks from | Some _ => start end in
  end_ ← match end_, start with
         | Some e, _ => Ret (Some e)
         | None, Some s => e ← chain_end h (size h) s; Ret (Some e)
         | None, None => Ret None
         end;
  match start, end_ with
  | Some s, Some e =>
      eb ← access (h !! e);
      '(from, h) ←
        (if decide (data_blocks from = Some s)
         then Ret (mkList (bb_next eb) None (bbl_block_size from), h)
         else
           pred ← find_pred h (S (size h)) s (data_blocks from);
           h ← match pred with
               | Some l => b ← access (h !! l); Ret (<[l := bb_set_next b (bb_next eb)]> h)
               | None => Ret h
               end;
           Ret (mkList (data_blocks from) None (bbl_block_size from), h));
      match data_blocks to with
      | None =>
          eb ← access (h !! e);
          Ret (from, mkList (Some s) None (bbl_block_size to), <[e := bb_set_next eb None]> h)
      | Some head =>
          sb ← access (h !! s);
          l ← find_link h (size h) (bb_block sb) head;
          b ← access (h !! l);
          eb ← access (h !! e);
          let h := <[e := bb_set_next eb (bb_next b)]> h in
          b ← access (h !! l);
          Ret (from, mkList (Some head) None (bbl_block_size to),
               <[l := bb_set_next b (Some s)]> h)
      end
  | _, _ => Ret (from, to, h)
  end.
