(* ===== verification/BlockList.v ===== *)
(** * What the operations on backed block lists mean

    A chain of the heap is a list of chunks: a position in the image, a length and
    where the bytes are.  [queue_bb], which starts its search at the node added
    last and merges neighbours in place, inserts into that list; what the list says
    about every byte of the image is what it said before and the new chunk. *)
From S2P Require Import Prelude Bytes SparseFormat BackedBlock.

(** ** Chunks *)

Record chunk := mkChunk {
  ck_block : Z;
  ck_len : Z;
  ck_from : backing;
}.
Definition val (b : backed_block) : chunk := mkChunk (bb_block b) (bb_len b) (bb_backing b).

(** The same as [backing_continues] and [merge_blocks], on chunks. *)
Definition continues (a b : chunk) : bool :=
  match ck_from a, ck_from b with
  | BACKED_BLOCK_FILL v, BACKED_BLOCK_FILL v' => bool_decide (v = v')
  | BACKED_BLOCK_FILE f o, BACKED_BLOCK_FILE f' o' =>
      bool_decide (f = f') && bool_decide (u64 (o + ck_len a) = u64 o')
  | BACKED_BLOCK_FD fd o, BACKED_BLOCK_FD fd' o' =>
      bool_decide (fd = fd') && bool_decide (u64 (o + ck_len a) = u64 o')
  | _, _ => false
  end.
Definition merge_val (bs : Z) (a b : chunk) : option chunk :=
  if bool_decide (u32 (ck_block a + u32 (ck_len a / bs)) = ck_block b) && continues a b
  then Some (mkChunk (ck_block a) (u64 (ck_len a + ck_len b)) (ck_from a)) else None.

(** [a] in front of a list, merged with the first chunk if they fit. *)
Definition glue (bs : Z) (a : chunk) (l : list chunk) : list chunk :=
  match l with
  | [] => [a]
  | b :: l' => match merge_val bs a b with Some c => c :: l' | None => a :: l end
  end.
(** The insertion of [v] after [x], which is before it. *)
Fixpoint insert_after (bs : Z) (v x : chunk) (l : list chunk) : list chunk :=
  match l with
  | y :: l' =>
      if decide (ck_block y < ck_block v) then x :: insert_after bs v y l'
      else glue bs x (glue bs v l)
  | [] => glue bs x (glue bs v [])
  end.
(** At the front of the list no merge is tried. *)
Definition insert_chunk (bs : Z) (v : chunk) (l : list chunk) : list chunk :=
  match l with
  | [] => [v]
  | x :: l' => if decide (ck_block v < ck_block x) then v :: l else insert_after bs v x l'
  end.

(** ** Chains *)

Inductive chain (h : heap) : option loc → list loc → list backed_block → Prop :=
| chain_nil : chain h None [] []
| chain_cons l b ls bs :
    h !! l = Some b → chain h (bb_next b) ls bs → chain h (Some l) (l :: ls) (b :: bs).

Lemma chain_inv h p l ls b bs :
  chain h p (l :: ls) (b :: bs) → p = Some l ∧ h !! l = Some b ∧ chain h (bb_next b) ls bs.
Proof. by inversion 1. Qed.
Lemma chain_length h p ls bs : chain h p ls bs → length ls = length bs.
Proof. induction 1; simpl; lia. Qed.

(** A node outside the chain may change. *)
Lemma chain_insert h p ls bs l b : chain h p ls bs → l ∉ ls → chain (<[l := b]> h) p ls bs.
Proof.
  induction 1 as [|l' b' ls bs Hl Hc IH]; intros Hn; [constructor|].
  apply not_elem_of_cons in Hn as [Hne Hn]. constructor; [by rewrite lookup_insert_ne|by apply IH].
Qed.
Lemma chain_delete h p ls bs l : chain h p ls bs → l ∉ ls → chain (delete l h) p ls bs.
Proof.
  induction 1 as [|l' b' ls bs Hl Hc IH]; intros Hn; [constructor|].
  apply not_elem_of_cons in Hn as [Hne Hn]. constructor; [by rewrite lookup_delete_ne|by apply IH].
Qed.

(** The part of a chain from a node on, and back. *)
Lemma chain_split h p ls1 ls2 bs :
  chain h p (ls1 ++ ls2) bs → ∃ bs1 bs2 q, bs = bs1 ++ bs2 ∧ length ls1 = length bs1 ∧
    chain h q ls2 bs2 ∧ (ls1 = [] → q = p) ∧
    ∀ ls2' bs2' h', chain h' q ls2' bs2' → (∀ l, l ∈ ls1 → h' !! l = h !! l) →
                    chain h' p (ls1 ++ ls2') (bs1 ++ bs2').
Proof.
  revert p bs. induction ls1 as [|l ls1 IH]; intros p bs Hc.
  - exists [], bs, p. by split_and!.
  - inversion Hc as [|l' b ls' bs' Hl Hc']; subst.
    destruct (IH _ _ Hc') as (bs1 & bs2 & q & -> & Hlen & Hc2 & _ & Hback).
    exists (b :: bs1), bs2, q. split_and!; [done|simpl; lia|done|done|].
    intros ls2' bs2' h' Hq Hsame. simpl. constructor; [rewrite Hsame by left; done|].
    apply Hback; [done|]. intros l0 H0. apply Hsame. by right.
Qed.

Lemma chain_nodes h p ls bs : chain h p ls bs → ∀ l, l ∈ ls → l ∈ dom h.
Proof.
  induction 1 as [|l b ls bs Hl _ IH]; intros l0 H0; [by apply not_elem_of_nil in H0|].
  apply elem_of_cons in H0 as [->|H0]; [by apply elem_of_dom_2 in Hl|by apply IH].
Qed.
Lemma chain_size h p ls bs : chain h p ls bs → NoDup ls → (length ls ≤ size h)%nat.
Proof.
  intros Hc Hnd. rewrite <- (size_list_to_set (C := gset loc)) by done.
  rewrite <- size_dom. apply subseteq_size. intros l Hl%elem_of_list_to_set.
  by eapply chain_nodes.
Qed.

(** [list_blocks] gives the blocks of the chain. *)
Lemma chain_blocks_eq h p ls bs fuel :
  chain h p ls bs → (length ls < fuel)%nat → chain_blocks h fuel p = Ret bs.
Proof.
  intros Hc. revert fuel. induction Hc as [|l b ls bs Hl Hc IH]; intros fuel Hf.
  - by destruct fuel.
  - destruct fuel as [|fuel]; [lia|]. simpl. rewrite Hl. simpl. rewrite IH; [done|]. simpl in Hf. lia.
Qed.

(** ** The state of a list *)

(** Ascending block numbers. *)
Definition ascending : list chunk → Prop := StronglySorted (λ a b, ck_block a < ck_block b).

Record list_state (h : heap) (bbl : backed_block_list) (ls : list loc) (l : list chunk) : Prop := {
  ls_chain : ∃ bs, chain h (data_blocks bbl) ls bs ∧ val <$> bs = l;
  ls_nodup : NoDup ls;
  ls_sorted : ascending l;
  ls_last : match last_used bbl with Some lu => lu ∈ ls | None => True end;
  ls_block_size : bbl_block_size bbl ≠ 0;
}.

Lemma list_state_blocks h bbl ls l :
  list_state h bbl ls l → ∃ bs, list_blocks h bbl = Ret bs ∧ val <$> bs = l.
Proof.
  intros [(bs & Hc & Hv) Hnd _ _ _]. exists bs. split; [|done]. unfold list_blocks.
  eapply chain_blocks_eq; [done|]. pose proof (chain_size _ _ _ _ Hc Hnd). lia.
Qed.

(** ** The search *)

Lemma find_before_ok h s ls b bs block fuel :
  chain h (Some s) (s :: ls) (b :: bs) → ascending (val <$> b :: bs) →
  bb_block b < block → (length ls < fuel)%nat →
  ∃ l ls1 ls2 bs1 x bs2, find_before h fuel block s = Ret l ∧
    s :: ls = ls1 ++ l :: ls2 ∧ b :: bs = bs1 ++ x :: bs2 ∧ length ls1 = length bs1 ∧
    bb_block x < block ∧ match bs2 with y :: _ => block ≤ bb_block y | [] => True end.
Proof.
  revert s ls b fuel. induction bs as [|y bs IH]; intros s ls b fuel Hc Hs Hb Hf;
    inversion Hc as [|s' b' ls' bs' Hl Hc']; subst; destruct fuel as [|fuel]; try lia; simpl;
    rewrite Hl; simpl.
  - inversion Hc' as [Hn|]; subst. exists s, [], [], [], b, []. by split_and!.
  - inversion Hc' as [|n y' ls' bs' Hn Hc'' Hnext]; subst. simpl in *. rewrite Hn. simpl.
    case_decide as Hlt.
    + destruct (IH n ls' y fuel) as (l & ls1 & ls2 & bs1 & x & bs2 & E & Els & Ebs & Hlen & H1 & H2);
        [by rewrite Hnext|by apply StronglySorted_inv in Hs as [? _]|done|lia|].
      exists l, (s :: ls1), ls2, (b :: bs1), x, bs2. split_and!; simpl; try done; congruence.
    + exists s, [], (n :: ls'), [], b, (y :: bs). split_and!; try done. lia.
Qed.

(** ** Merging in place *)

Lemma merge_blocks_val bsz a b :
  bb_block a < bb_block b → bsz ≠ 0 →
  merge_blocks bsz a b = Ret (
    match merge_val bsz (val a) (val b) with
    | Some c => Some (mkBlock (ck_block c) (ck_len c) (ck_from c) (bb_next b))
    | None => None
    end).
Proof.
  intros Hlt Hbs. unfold merge_blocks, merge_val, continues, backing_continues.
  rewrite !CHECK_True by done. simpl.
  destruct (bb_backing a), (bb_backing b); simpl; rewrite ?andb_false_r; try done;
    by destruct (_ && _).
Qed.

Lemma merge_val_block bsz a b c : merge_val bsz a b = Some c → ck_block c = ck_block a.
Proof. unfold merge_val. destruct (_ && _); [|done]. by intros [= <-]. Qed.

(** Merging a node with its successor, if there is one. *)
Lemma merge_bb_ok h bbl la a ls bs :
  chain h (Some la) (la :: ls) (a :: bs) → NoDup (la :: ls) → ascending (val <$> a :: bs) →
  bbl_block_size bbl ≠ 0 →
  ∃ (merged : bool) h' a' ls' bs', merge_bb bbl (Some la) (bb_next a) h = Ret (merged, h') ∧
    chain h' (Some la) (la :: ls') (a' :: bs') ∧
    val <$> (a' :: bs') = glue (bbl_block_size bbl) (val a) (val <$> bs) ∧
    (if merged then ∃ lb, ls = lb :: ls' else ls' = ls) ∧
    ∀ l, l ∉ la :: ls → h' !! l = h !! l.
Proof.
  intros Hc Hnd Hs Hbs. inversion Hc as [|l0 b0 ls0 bs0 Hla Hc']; subst.
  destruct Hc' as [|lb b ls bs Hlb Hc'].
  { exists false, h, a, [], []. by split_and!. }
  apply StronglySorted_inv in Hs as [_ [Hlt _]%Forall_cons]. simpl in Hlt.
  apply NoDup_cons in Hnd as [Hna [Hnb Hnd]%NoDup_cons].
  apply not_elem_of_cons in Hna as [Hne Hna].
  unfold merge_bb. rewrite Hla, Hlb. simpl. rewrite merge_blocks_val by done. simpl.
  destruct (merge_val _ (val a) (val b)) as [c|] eqn:Em.
  - set (n := mkBlock _ _ _ _). exists true, (delete lb (<[la := n]> h)), n, ls, bs.
    split_and!; [done| | |by eexists|].
    + constructor; [rewrite lookup_delete_ne by done; apply lookup_insert_eq|].
      apply chain_delete; [|done]. by apply chain_insert.
    + csimpl. f_equal. by destruct c.
    + intros l [H1 [H2 H3]%not_elem_of_cons]%not_elem_of_cons.
      by rewrite lookup_delete_ne, lookup_insert_ne.
  - exists false, h, a, (lb :: ls), (b :: bs). by split_and!.
Qed.

Lemma glue_ascending bsz a l : ascending (a :: l) → ascending (glue bsz a l).
Proof.
  intros Hs. destruct l as [|b l]; simpl; [done|].
  destruct (merge_val bsz a b) as [c|] eqn:E; [|done]. apply merge_val_block in E.
  apply StronglySorted_inv in Hs as [Hs Ha]. apply StronglySorted_inv in Hs as [Hs _].
  apply Forall_cons in Ha as [_ Ha]. constructor; [done|].
  eapply Forall_impl; [exact Ha|]. simpl. lia.
Qed.
Lemma glue_blocks bsz a l (P : Z → Prop) :
  Forall (λ c, P (ck_block c)) (a :: l) → Forall (λ c, P (ck_block c)) (glue bsz a l).
Proof.
  intros [Ha Hl]%Forall_cons. destruct l as [|b l]; simpl; [by constructor|].
  destruct (merge_val bsz a b) as [c|] eqn:E; [|by constructor]. apply merge_val_block in E.
  apply Forall_cons in Hl as [_ Hl]. constructor; [by rewrite E|done].
Qed.

(** ** Insertion *)

Lemma insert_chunk_split bsz v pre x post :
  Forall (λ c, ck_block c < ck_block v) (pre ++ [x]) →
  match post with y :: _ => ck_block v ≤ ck_block y | [] => True end →
  insert_chunk bsz v (pre ++ x :: post) = pre ++ glue bsz x (glue bsz v post).
Proof.
  intros Hpre Hpost.
  assert (Hafter : ∀ pre z, Forall (λ c, ck_block c < ck_block v) (pre ++ [x]) →
     insert_after bsz v z (pre ++ x :: post) = z :: pre ++ glue bsz x (glue bsz v post)).
  { clear Hpre pre. induction pre as [|y pre IH]; intros z Hpre; simpl in *.
    - apply Forall_cons in Hpre as [Hx _]. rewrite decide_True by done. f_equal.
      destruct post as [|w post]; simpl; [done|]. by rewrite decide_False by lia.
    - apply Forall_cons in Hpre as [Hy Hpre]. rewrite decide_True by done. by rewrite IH. }
  destruct pre as [|y pre]; simpl in *; apply Forall_cons in Hpre as [Hy Hpre];
    rewrite decide_False by lia; [|by apply Hafter].
  destruct post as [|w post]; simpl; [done|]. by rewrite decide_False by lia.
Qed.

Lemma ascending_app l k :
  ascending (l ++ k) ↔ ascending l ∧ ascending k ∧
    ∀ a b, a ∈ l → b ∈ k → ck_block a < ck_block b.
Proof.
  unfold ascending. induction l as [|x l IH]; simpl.
  - split; [intros H; split_and!; [constructor|done|]|tauto]. by intros a b ?%not_elem_of_nil.
  - split.
    + intros [Hs Hx]%StronglySorted_inv. apply IH in Hs as (H1 & H2 & H3).
      rewrite Forall_app in Hx. destruct Hx as [Hxl Hxk].
      split_and!; [by constructor|done|]. intros a b [->|Ha]%elem_of_cons Hb; [|by apply H3].
      rewrite Forall_forall in Hxk. by apply Hxk.
    + intros ([H1 Hx]%StronglySorted_inv & H2 & H3). constructor.
      * apply IH. split_and!; [done..|]. intros a b Ha Hb. apply H3; [by right|done].
      * apply Forall_app. split; [done|]. apply Forall_forall. intros b Hb. apply H3; [by left|done].
Qed.

Lemma insert_ascending bsz v pre x post :
  ascending (pre ++ x :: post) → ck_block x < ck_block v →
  Forall (λ c, ck_block v < ck_block c) post →
  ascending (pre ++ glue bsz x (glue bsz v post)).
Proof.
  intros (H1 & [H2 Hx]%StronglySorted_inv & H3)%ascending_app Hxv Hpost.
  assert (Hv : ascending (glue bsz v post)) by (apply glue_ascending; by constructor).
  assert (Hxg : Forall (λ c, ck_block x < ck_block c) (glue bsz v post)).
  { apply (glue_blocks bsz v post (λ b, ck_block x < b)). constructor; [done|].
    eapply Forall_impl; [exact Hpost|]. simpl. lia. }
  apply ascending_app. split_and!; [done|by apply glue_ascending; constructor|].
  intros a b Ha Hb. assert (Hax : ck_block a < ck_block x) by (apply H3; [done|left]).
  assert (Hall : Forall (λ c, ck_block a < ck_block c) (glue bsz x (glue bsz v post))).
  { apply (glue_blocks bsz x _ (λ b, ck_block a < b)). constructor; [done|].
    eapply Forall_impl; [exact Hxg|]. simpl. lia. }
  rewrite Forall_forall in Hall. by apply Hall.
Qed.

(** ** Queueing *)

#[local] Arguments merge_bb : simpl never.
#[local] Arguments find_before : simpl never.

(** The node linked in after [la], merged with what follows and into [la]. *)
Lemma link_ok h bbl la a ls bs new nb :
  chain h (Some la) (la :: ls) (a :: bs) → NoDup (new :: la :: ls) → h !! new = Some nb →
  ascending (val a :: val nb :: (val <$> bs)) → bbl_block_size bbl ≠ 0 →
  let bsz := bbl_block_size bbl in
  let h1 := <[la := bb_set_next a (Some new)]> (<[new := bb_set_next nb (bb_next a)]> h) in
  ∃ m1 (merged : bool) h2 h' a' ls' bs',
    merge_bb bbl (Some new) (bb_next a) h1 = Ret (m1, h2) ∧
    merge_bb bbl (Some la) (Some new) h2 = Ret (merged, h') ∧
    chain h' (Some la) (la :: ls') (a' :: bs') ∧ NoDup (la :: ls') ∧
    val <$> a' :: bs' = glue bsz (val a) (glue bsz (val nb) (val <$> bs)) ∧
    (merged = false → new ∈ ls') ∧
    (∀ l, l ∈ ls' → l ∈ new :: ls) ∧ ∀ l, l ∉ new :: la :: ls → h' !! l = h !! l.
Proof.
  intros Hc Hnd Hnew Hs Hbs bsz h1. inversion Hc as [|l0 b0 ls0 bs0 Hla Hcn]; subst.
  assert (Hnd' := Hnd). apply NoDup_cons in Hnd as [Hn1 [Hl1 Hnd]%NoDup_cons].
  apply not_elem_of_cons in Hn1 as [Hnl Hn1].
  set (n1 := bb_set_next nb (bb_next a)) in *.
  assert (Hc1 : chain h1 (Some new) (new :: ls) (n1 :: bs)).
  { constructor; [unfold h1; rewrite lookup_insert_ne by done; apply lookup_insert_eq|].
    apply chain_insert; [|done]. by apply chain_insert. }
  apply StronglySorted_inv in Hs as [Hs Ha].
  destruct (merge_bb_ok h1 bbl new n1 ls bs Hc1) as (m1 & h2 & n2 & ls2 & bs2 & E1 & Hc2 & Hv2 & Hm1 & Hf2);
    [by constructor|done|done|].
  assert (Hsub2 : ∀ l, l ∈ ls2 → l ∈ ls).
  { destruct m1; [destruct Hm1 as [lb ->]; by right|by subst]. }
  assert (Hnd2 : NoDup (new :: ls2)).
  { constructor; [by intros ?%Hsub2|]. destruct m1; [|by subst].
    destruct Hm1 as [lb ->]. by apply NoDup_cons in Hnd as [_ ?]. }
  assert (Hla2 : la ∉ new :: ls2).
  { apply not_elem_of_cons. split; [done|]. by intros ?%Hsub2. }
  set (a1 := bb_set_next a (Some new)).
  assert (Hc3 : chain h2 (Some la) (la :: new :: ls2) (a1 :: n2 :: bs2)).
  { constructor; [|done]. rewrite Hf2; [apply lookup_insert_eq|].
    apply not_elem_of_cons. split; [done|]. done. }
  assert (Hva : val a1 :: (val <$> n2 :: bs2) = val a :: glue bsz (val nb) (val <$> bs)).
  { rewrite Hv2. done. }
  destruct (merge_bb_ok h2 bbl la a1 (new :: ls2) (n2 :: bs2) Hc3)
    as (m2 & h' & a' & ls' & bs' & E2 & Hc' & Hv' & Hm2 & Hf');
    [by constructor|rewrite fmap_cons, Hva|done|].
  { constructor; [by apply glue_ascending|].
    apply (glue_blocks bsz (val nb) _ (λ b, ck_block (val a) < b)). done. }
  exists m1, m2, h2, h', a', ls', bs'. rewrite Hv2 in Hv'.
  split_and!; try done.
  - destruct m2; [destruct Hm2 as [lb [= -> ->]]|subst ls'; by constructor].
    apply not_elem_of_cons in Hla2 as [_ Hla2]. apply NoDup_cons in Hnd2 as [_ Hnd2]. by constructor.
  - intros ->. rewrite Hm2. left.
  - intros l Hl. destruct m2; [destruct Hm2 as [lb [= -> ->]]; right; by apply Hsub2|].
    rewrite Hm2 in Hl. apply elem_of_cons in Hl as [->|Hl]; [left|right; by apply Hsub2].
  - intros l [H1 [H2 H3]%not_elem_of_cons]%not_elem_of_cons. rewrite Hf'.
    + rewrite Hf2 by (by apply not_elem_of_cons). unfold h1. by rewrite !lookup_insert_ne by done.
    + rewrite !not_elem_of_cons. split_and!; [done..|]. by intros ?%Hsub2.
Qed.

(** The start of the search is a node of the list before the new block. *)
Lemma search_start_ok h bbl ls bs hd hb block :
  chain h (data_blocks bbl) ls bs → data_blocks bbl = Some hd → h !! hd = Some hb →
  bb_block hb < block →
  match last_used bbl with Some lu => lu ∈ ls | None => True end →
  ∃ s sb pre post bs1 bs2, search_start h bbl hd block = Ret s ∧ ls = pre ++ s :: post ∧
    bs = bs1 ++ sb :: bs2 ∧ length pre = length bs1 ∧ bb_block sb < block ∧
    chain h (Some s) (s :: post) (sb :: bs2).
Proof.
  intros Hc Hd Hhd Hb Hlu.
  assert (Hhead : ∃ post bs2, ls = hd :: post ∧ bs = hb :: bs2).
  { rewrite Hd in Hc. inversion Hc; subst. simplify_eq. by do 2 eexists. }
  assert (Hdef : ∃ post bs2, ls = [] ++ hd :: post ∧ bs = [] ++ hb :: bs2 ∧
     chain h (Some hd) (hd :: post) (hb :: bs2)).
  { destruct Hhead as (post & bs2 & -> & ->). rewrite Hd in Hc. by exists post, bs2. }
  unfold search_start. destruct (last_used bbl) as [lu|].
  - apply list_elem_of_split in Hlu as (pre & post & ->).
    destruct (chain_split _ _ _ _ _ Hc) as (bs1 & bs2 & q & -> & Hlen & Hc2 & _).
    inversion Hc2 as [|l b ls0 bs0 Hl Hc3]; subst. rewrite Hl. simpl. case_decide as Hlt.
    + exists lu, b, pre, post, bs1, bs0. by split_and!.
    + destruct Hdef as (post' & bs2 & Ep & Eb & Hch).
      exists hd, hb, [], post', [], bs2. by split_and!.
  - destruct Hdef as (post' & bs2 & Ep & Eb & Hch).
    exists hd, hb, [], post', [], bs2. by split_and!.
Qed.

Lemma fmap_ascending_lt (bs1 : list backed_block) x bs2 b :
  ascending (val <$> bs1 ++ x :: bs2) → bb_block x < b →
  Forall (λ c, ck_block c < b) ((val <$> bs1) ++ [val x]).
Proof.
  rewrite fmap_app. intros (H1 & H2 & H3)%ascending_app Hx. apply Forall_app. split.
  - apply Forall_forall. intros c Hc. specialize (H3 c (val x) Hc). csimpl in H3.
    specialize (H3 ltac:(left)). simpl in H3. lia.
  - by constructor.
Qed.

Lemma queue_bb_ok h bbl ls l new nb :
  list_state h bbl ls l → h !! new = Some nb → bb_next nb = None → new ∉ ls →
  bb_block nb ∉ ck_block <$> l →
  ∃ bbl' h' ls', queue_bb bbl new h = Ret (bbl', h') ∧
    list_state h' bbl' ls' (insert_chunk (bbl_block_size bbl) (val nb) l) ∧
    bbl_block_size bbl' = bbl_block_size bbl ∧
    (∀ x, x ∈ ls' → x ∈ new :: ls) ∧ ∀ x, x ∉ new :: ls → h' !! x = h !! x.
Proof.
  intros [(bs & Hc & <-) Hnd Hs Hlu Hbs] Hnew Hnext Hnotin Hfree. unfold queue_bb.
  remember (insert_chunk _ _ _) as res eqn:Hres. revert res Hres.
  rewrite Hnew. cbn [access mbind outcome_mbind]. destruct (data_blocks bbl) as [hd|] eqn:Ed.
  2:{ inversion Hc; subst. intros res ->. do 2 eexists. exists [new]. split; [done|].
      split_and!; try done. split; simpl; try done.
      - exists [nb]. split; [|done]. constructor; [done|]. rewrite Hnext. constructor.
      - apply NoDup_singleton.
      - repeat constructor.
      - by destruct (last_used bbl) as [lu|]; [apply not_elem_of_nil in Hlu|]. }
  inversion Hc as [|l0 hb ls0 bs0 Hhd Hc0]; subst. intros res Hres. rewrite Hhd. simpl.
  case_decide as Hfront.
  { do 2 eexists. exists (new :: hd :: ls0). split; [done|].
    rewrite fmap_cons in Hres. simpl in Hres. rewrite decide_True in Hres by done. subst res.
    split_and!; try done; [|by intros x [? ?]%not_elem_of_cons; rewrite lookup_insert_ne].
    split; simpl; [|by constructor| | |done].
    - exists (bb_set_next nb (Some hd) :: hb :: bs0). split; [|done].
      constructor; [apply lookup_insert_eq|]. apply chain_insert; [done|done].
    - constructor; [done|]. constructor; [done|]. apply StronglySorted_inv in Hs as [_ Hall].
      eapply Forall_impl; [exact Hall|]. simpl. lia.
    - destruct (last_used bbl); [by right|done]. }
  assert (Hne : bb_block nb ≠ bb_block hb).
  { csimpl in Hfree. by apply not_elem_of_cons in Hfree as [? _]. }
  destruct (search_start_ok h bbl (hd :: ls0) (hb :: bs0) hd hb (bb_block nb))
    as (s & sb & pre & post & bs1 & bs2 & Es & Els & Ebs & Hlen & Hsb & Hcs);
    [by rewrite Ed|done|done|lia|done|].
  rewrite Es. simpl.
  assert (Hssb : ascending (val <$> sb :: bs2)).
  { rewrite Ebs, fmap_app in Hs. by apply ascending_app in Hs as (_ & ? & _). }
  pose proof (chain_size _ _ _ _ Hc Hnd) as Hsz. rewrite Els, length_app in Hsz. simpl in Hsz.
  destruct (find_before_ok h s post sb bs2 (bb_block nb) (size h) Hcs Hssb Hsb ltac:(lia))
    as (la & p1 & p2 & q1 & x & q2 & Ef & Ep & Eq & Hlen2 & Hx & Hy).
  rewrite Ef. simpl.
  set (P := pre ++ p1). set (Q := bs1 ++ q1).
  assert (El : hd :: ls0 = P ++ la :: p2) by (unfold P; by rewrite Els, Ep, (assoc_L (++))).
  assert (Eb : hb :: bs0 = Q ++ x :: q2) by (unfold Q; by rewrite Ebs, Eq, (assoc_L (++))).
  clear Els Ebs Ep Eq Es Ef Hcs Hssb Hsz. rewrite El, Eb in *.
  destruct (chain_split _ _ _ _ _ Hc) as (Q' & R & q & EQ & HlenQ & Hcq & _ & Hback).
  assert (HPQ : length P = length Q) by (unfold P, Q; rewrite !length_app; lia).
  apply app_inj_1 in EQ as [<- <-]; [|lia].
  destruct (chain_inv _ _ _ _ _ _ Hcq) as (-> & Hla & _). rewrite Hla. simpl.
  apply NoDup_app in Hnd as (HndP & HPla & Hnd2).
  apply not_elem_of_app in Hnotin as [HnP Hnl].
  rewrite fmap_app in Hs, Hfree. pose proof Hs as (HsQ & Hsx & HsQx)%ascending_app.
  assert (Hpost : Forall (λ c, bb_block nb < ck_block c) (val <$> q2)).
  { apply StronglySorted_inv in Hsx as [Hsx _]. destruct q2 as [|y q2]; [constructor|].
    rewrite fmap_app in Hfree. csimpl in Hfree. rewrite not_elem_of_app, !not_elem_of_cons in Hfree.
    destruct Hfree as (_ & _ & Hny & _). csimpl in Hsx. apply StronglySorted_inv in Hsx as [_ Hall].
    simpl in Hny. constructor; [simpl; lia|]. eapply Forall_impl; [exact Hall|]. simpl. lia. }
  destruct (link_ok h (mkList (Some hd) (Some new) (bbl_block_size bbl)) la x p2 q2 new nb)
    as (m1 & merged & h2 & h' & a' & ls' & bs' & E1 & E2 & Hc' & Hnd' & Hv' & Hmg & Hsub & Hframe);
    [done|by constructor|done| |done|].
  { csimpl in Hsx. apply StronglySorted_inv in Hsx as [Hsx Hxa]. constructor.
    - by constructor.
    - constructor; [done|done]. }
  rewrite E1. simpl. rewrite E2. simpl.
  eexists _, h', (P ++ la :: ls'). split; [done|].
  rewrite fmap_app, fmap_cons, insert_chunk_split in Hres;
    [|by apply (fmap_ascending_lt Q x q2); [rewrite fmap_app|]|].
  2:{ destruct q2; [done|]. apply Forall_cons in Hpost as [? _]. simpl in *. lia. }
  subst res. split_and!; try (by destruct merged).
  - split; try (by destruct merged).
    + exists (Q ++ a' :: bs'). split; [|by rewrite fmap_app, Hv'].
      assert (data_blocks (if merged then mkList (Some hd) (Some la) (bbl_block_size bbl)
        else mkList (Some hd) (Some new) (bbl_block_size bbl)) = Some hd) as -> by (by destruct merged).
      rewrite <- Ed. rewrite Ed. apply Hback; [done|]. intros l Hl. apply Hframe.
      rewrite !not_elem_of_cons. split_and!; [by intros ->|intros ->|intros Hin].
      * apply (HPla la Hl). left.
      * apply (HPla l Hl). by right.
    + apply NoDup_app. split_and!; [done| |done]. intros l Hl Hin.
      apply elem_of_cons in Hin as [->|Hin]; [apply (HPla la Hl); left|].
      apply Hsub, elem_of_cons in Hin as [->|Hin]; [done|]. apply (HPla l Hl). by right.
    + by apply insert_ascending.
    + destruct merged; apply elem_of_app; right; [left|right; by apply Hmg].
  - intros l [Hl|[->|Hl]%elem_of_cons]%elem_of_app.
    + right. apply elem_of_app. by left.
    + right. apply elem_of_app. right. left.
    + apply Hsub, elem_of_cons in Hl as [->|Hl]; [left|]. right. apply elem_of_app. right. by right.
  - intros l [H1 [H2 H3]%not_elem_of_app]%not_elem_of_cons. apply Hframe.
    apply not_elem_of_cons in H3 as [H3 H4]. by rewrite !not_elem_of_cons.
Qed.

(** ** The bytes of the image *)

(** Where one byte comes from; a fill value repeats every four bytes. *)
Inductive source :=
| FromMemory (address : Z)
| FromFile (filename : bytes) (offset : Z)
| FromFd (fd offset : Z)
| FromFill (value phase : Z).
(** Byte [i] of a chunk. *)
Definition source_at (c : chunk) (i : Z) : source :=
  match ck_from c with
  | BACKED_BLOCK_DATA a => FromMemory (a + i)
  | BACKED_BLOCK_FILE f o => FromFile f (o + i)
  | BACKED_BLOCK_FD fd o => FromFd fd (o + i)
  | BACKED_BLOCK_FILL v => FromFill v (i mod 4)
  end.

Section Content.
Context (bsz : Z).

Definition ck_start (c : chunk) : Z := ck_block c * bsz.
Definition ck_end (c : chunk) : Z := ck_start c + ck_len c.
(** Byte [pos] of the image; [None] is a hole. *)
Fixpoint content (l : list chunk) (pos : Z) : option source :=
  match l with
  | [] => None
  | c :: l => if decide (ck_start c ≤ pos < ck_end c) then Some (source_at c (pos - ck_start c))
              else content l pos
  end.

(** A chunk of at least one byte whose blocks have 32-bit numbers and whose bytes
    have 63-bit offsets. *)
Record chunk_ok (c : chunk) : Prop := {
  cok_len : 0 < ck_len c < 2 ^ 63;
  cok_block : 0 ≤ ck_block c ∧ ck_block c + ck_len c / bsz < 2 ^ 32;
  cok_offset : match ck_from c with
    | BACKED_BLOCK_FILE _ o | BACKED_BLOCK_FD _ o => 0 ≤ o ∧ o + ck_len c < 2 ^ 63
    | _ => True
    end;
}.
(** Chunks in the order of the image, none overlapping the next. *)
Record laid_out (l : list chunk) : Prop := {
  lo_chunks : Forall chunk_ok l;
  lo_order : StronglySorted (λ a b, ck_end a ≤ ck_start b) l;
}.

Context (bsz_ok : 0 < bsz) (bsz_4 : (4 | bsz)).

Lemma laid_out_cons a l :
  laid_out (a :: l) ↔ chunk_ok a ∧ laid_out l ∧ Forall (λ b, ck_end a ≤ ck_start b) l.
Proof using Type.
  split.
  - intros [[H1 H2]%Forall_cons [H3 H4]%StronglySorted_inv]. by split_and!.
  - intros (H1 & [H2 H3] & H4). split; [by constructor|by constructor].
Qed.
Lemma laid_out_ascending l : laid_out l → ascending l.
Proof using bsz_ok.
  induction l as [|a l IH]; [by constructor|]. intros (Ha & Hl & Hal)%laid_out_cons.
  constructor; [by apply IH|]. eapply Forall_impl; [exact Hal|]. intros b Hb.
  pose proof (cok_len _ Ha). unfold ck_end, ck_start in Hb. nia.
Qed.
Lemma content_before l pos : Forall (λ b, pos < ck_start b) l → content l pos = None.
Proof using Type. induction 1 as [|b l Hb _ IH]; simpl; [done|]. by rewrite decide_False by lia. Qed.

(** Two chunks that merge are adjacent, and the merged chunk has the bytes of both. *)
Lemma merge_val_ok a b c :
  chunk_ok a → chunk_ok b → ck_end a ≤ ck_start b → ck_end b < 2 ^ 63 →
  merge_val bsz a b = Some c →
  chunk_ok c ∧ ck_start c = ck_start a ∧ ck_end a = ck_start b ∧ ck_end c = ck_end b ∧
  ∀ i, 0 ≤ i < ck_len c →
    source_at c i = if decide (i < ck_len a) then source_at a i else source_at b (i - ck_len a).
Proof using bsz_ok bsz_4.
  intros [La Ba Oa] [Lb Bb Ob] Hab Hend. unfold merge_val.
  destruct (bool_decide _ && _) eqn:E; [|done]. intros [= <-].
  apply andb_true_iff in E as [Eb%bool_decide_eq_true Ec].
  pose proof (Z.div_mod (ck_len a) bsz ltac:(lia)) as Hdm.
  pose proof (Z.mod_pos_bound (ck_len a) bsz ltac:(lia)) as Hm.
  pose proof (Z.div_pos (ck_len a) bsz ltac:(lia) bsz_ok).
  pose proof (Z.div_pos (ck_len b) bsz ltac:(lia) bsz_ok).
  rewrite (u32_small (_ / _)), u32_small in Eb by lia.
  unfold ck_end, ck_start in *. rewrite <- Eb in *.
  set (k := ck_len a / bsz) in *. assert (Hk : ck_len a = k * bsz) by nia.
  assert (ck_len a + ck_len b < 2 ^ 63) by nia.
  rewrite (u64_small (ck_len a + ck_len b)) by lia. simpl.
  assert (Hdiv : (ck_len a + ck_len b) / bsz = k + ck_len b / bsz).
  { rewrite Hk, Z.add_comm, Z.div_add by lia. lia. }
  assert (Hcont : match ck_from a, ck_from b with
    | BACKED_BLOCK_FILL v, BACKED_BLOCK_FILL v' => v = v'
    | BACKED_BLOCK_FILE f o, BACKED_BLOCK_FILE f' o' => f = f' ∧ o + ck_len a = o'
    | BACKED_BLOCK_FD f o, BACKED_BLOCK_FD f' o' => f = f' ∧ o + ck_len a = o'
    | _, _ => False end).
  { unfold continues in Ec. destruct (ck_from a), (ck_from b); try done;
      rewrite ?andb_true_iff, ?bool_decide_eq_true in Ec; try done;
      destruct Ec as [-> Ec]; split; try done; by rewrite !u64_small in Ec by lia. }
  split_and!; [|done|nia|nia|].
  - split; simpl; [lia|rewrite Hdiv; lia|].
    destruct (ck_from a), (ck_from b); try done; destruct Hcont as [_ <-]; lia.
  - intros i Hi. unfold source_at. simpl. case_decide; [done|].
    destruct (ck_from a), (ck_from b); try done.
    + destruct Hcont as [-> <-]. f_equal. lia.
    + destruct Hcont as [-> <-]. f_equal. lia.
    + subst. f_equal. destruct bsz_4 as [q Hq]. rewrite Hk, Hq.
      replace (i - k * (q * 4)) with (i + (- (k * q)) * 4) by lia. by rewrite Z.mod_add.
Qed.

Lemma glue_content a l :
  laid_out (a :: l) → Forall (λ c, ck_end c < 2 ^ 63) l →
  laid_out (glue bsz a l) ∧ (∀ pos, content (glue bsz a l) pos = content (a :: l) pos) ∧
  (∀ P, Forall (λ c, P (ck_start c)) (a :: l) → Forall (λ c, P (ck_start c)) (glue bsz a l)) ∧
  (∀ P, Forall (λ c, P (ck_end c)) (a :: l) → Forall (λ c, P (ck_end c)) (glue bsz a l)).
Proof using bsz_ok bsz_4.
  intros Hl Hend. destruct l as [|b l]; simpl; [by split_and!|].
  destruct (merge_val bsz a b) as [c|] eqn:E; [|by split_and!].
  apply laid_out_cons in Hl as (Ha & (Hb & Hl & Hbl)%laid_out_cons & [Hab Hal]%Forall_cons).
  apply Forall_cons in Hend as [Hbe _].
  destruct (merge_val_ok a b c Ha Hb Hab Hbe E) as (Hc & Hcs & Hadj & Hce & Hsrc). split_and!.
  - apply laid_out_cons. split_and!; [done..|]. by rewrite Hce.
  - intros pos. simpl. rewrite Hcs, Hce.
    assert (ck_start a < ck_end a) by (unfold ck_end; pose proof (cok_len _ Ha); lia).
    assert (ck_start b < ck_end b) by (unfold ck_end; pose proof (cok_len _ Hb); lia).
    destruct (decide (ck_start a ≤ pos < ck_end b)) as [Hin|Hout].
    + rewrite Hsrc by (unfold ck_end in *; lia).
      destruct (decide (ck_start a ≤ pos < ck_end a)) as [H1|H1].
      * by rewrite decide_True by (unfold ck_end in *; lia).
      * rewrite decide_False by (unfold ck_end in *; lia).
        rewrite decide_True by lia. do 2 f_equal. unfold ck_end in *. lia.
    + by rewrite !decide_False by lia.
  - intros P [H1 [_ H2]%Forall_cons]%Forall_cons. constructor; [by rewrite Hcs|done].
  - intros P [_ [H1 H2]%Forall_cons]%Forall_cons. constructor; [by rewrite Hce|done].
Qed.

Lemma content_app l k pos :
  content (l ++ k) pos = match content l pos with Some s => Some s | None => content k pos end.
Proof using Type. induction l as [|c l IH]; simpl; [done|]. by case_decide. Qed.
Lemma laid_out_app l k :
  laid_out (l ++ k) ↔ laid_out l ∧ laid_out k ∧
    Forall (λ a, Forall (λ b, ck_end a ≤ ck_start b) k) l.
Proof using Type.
  induction l as [|a l IH]; simpl.
  - split; [|tauto]. intros H. split_and!; [split; constructor|done|constructor].
  - rewrite !laid_out_cons, IH, Forall_app, Forall_cons. tauto.
Qed.
Lemma content_outside l pos :
  Forall (λ c, ¬ (ck_start c ≤ pos < ck_end c)) l → content l pos = None.
Proof using Type. induction 1 as [|b l Hb _ IH]; simpl; [done|]. by rewrite decide_False. Qed.

(** Where a block goes in a list that does not start after it. *)
Lemma insertion_point v x l :
  ck_block x < ck_block v → ∃ pre y post, x :: l = pre ++ y :: post ∧
    Forall (λ c, ck_block c < ck_block v) (pre ++ [y]) ∧
    match post with z :: _ => ck_block v ≤ ck_block z | [] => True end.
Proof using Type.
  revert x. induction l as [|z l IH]; intros x Hx.
  - exists [], x, []. split_and!; [done|by constructor|done].
  - destruct (decide (ck_block z < ck_block v)) as [Hz|Hz].
    + destruct (IH z Hz) as (pre & y & post & -> & H1 & H2).
      exists (x :: pre), y, post. split_and!; [done|by constructor|done].
    + exists [], x, (z :: l). split_and!; [done|by constructor|lia].
Qed.

(** [v] shares no byte with the chunks of [l]. *)
Definition apart (v : chunk) (l : list chunk) : Prop :=
  Forall (λ c, ck_end c ≤ ck_start v ∨ ck_end v ≤ ck_start c) l.

Lemma apart_sides v pre post :
  chunk_ok v → Forall chunk_ok (pre ++ post) → apart v (pre ++ post) →
  Forall (λ c, ck_block c < ck_block v) pre → Forall (λ c, ck_block v ≤ ck_block c) post →
  Forall (λ c, ck_end c ≤ ck_start v) pre ∧ Forall (λ c, ck_end v ≤ ck_start c) post.
Proof using bsz_ok.
  intros Hv Hok Hap Hpre Hpost. unfold apart in Hap. pose proof (cok_len _ Hv).
  apply Forall_app in Hok as [Hok1 Hok2], Hap as [Hap1 Hap2].
  rewrite !Forall_forall in *. split; intros c Hc.
  - destruct (Hap1 c Hc) as [?|Hle]; [done|]. specialize (Hpre c Hc).
    unfold ck_end, ck_start in Hle. nia.
  - destruct (Hap2 c Hc) as [Hle|?]; [|done]. specialize (Hpost c Hc).
    pose proof (cok_len _ (Hok2 c Hc)). unfold ck_end, ck_start in Hle. nia.
Qed.

(** The bytes of a list with a chunk put between two parts of it. *)
Lemma content_between v pre post pos :
  Forall (λ c, ck_end c ≤ ck_start v) pre →
  content (pre ++ v :: post) pos =
  if decide (ck_start v ≤ pos < ck_end v) then Some (source_at v (pos - ck_start v))
  else content (pre ++ post) pos.
Proof using Type.
  intros Hpre. rewrite !content_app. simpl. case_decide as Hin; [|done].
  rewrite (content_outside pre); [done|]. eapply Forall_impl; [exact Hpre|]. simpl. lia.
Qed.

Lemma laid_out_between v pre post :
  laid_out (pre ++ post) → chunk_ok v → Forall (λ c, ck_end c ≤ ck_start v) pre →
  Forall (λ c, ck_end v ≤ ck_start c) post → laid_out (pre ++ v :: post).
Proof using Type.
  intros (H1 & H2 & H3)%laid_out_app Hv S1 S2. apply laid_out_app. split_and!; [done| |].
  - by apply laid_out_cons.
  - rewrite Forall_forall in *. intros a Ha. constructor; [by apply S1|by apply H3].
Qed.

(** Merging somewhere in a list. *)
Lemma glue_app pre a l :
  laid_out (pre ++ a :: l) → Forall (λ c, ck_end c < 2 ^ 63) l → ck_end a < 2 ^ 63 →
  laid_out (pre ++ glue bsz a l) ∧
  (∀ pos, content (pre ++ glue bsz a l) pos = content (pre ++ a :: l) pos) ∧
  Forall (λ c, ck_end c < 2 ^ 63) (glue bsz a l).
Proof using bsz_ok bsz_4.
  intros (H1 & H2 & H3)%laid_out_app Hend Ha.
  destruct (glue_content a l H2 Hend) as (G1 & G2 & G3 & G4). split_and!.
  - apply laid_out_app. split_and!; [done..|]. eapply Forall_impl; [exact H3|].
    intros c Hc. apply (G3 (λ s, ck_end c ≤ s) Hc).
  - intros pos. by rewrite !content_app, G2.
  - apply (G4 (λ e, e < 2 ^ 63)). by constructor.
Qed.

Lemma insert_content v l :
  laid_out l → chunk_ok v → apart v l → Forall (λ c, ck_end c < 2 ^ 63) (v :: l) →
  laid_out (insert_chunk bsz v l) ∧
  Forall (λ c, ck_end c < 2 ^ 63) (insert_chunk bsz v l) ∧
  ∀ pos, content (insert_chunk bsz v l) pos =
    if decide (ck_start v ≤ pos < ck_end v) then Some (source_at v (pos - ck_start v))
    else content l pos.
Proof using bsz_ok bsz_4.
  intros Hl Hv Hap Hend. destruct l as [|x l].
  { split_and!; [|done|done]. apply laid_out_cons. split_and!; [done|split; constructor|constructor]. }
  pose proof (laid_out_ascending _ Hl) as Has. unfold insert_chunk. case_decide as Hfront.
  - destruct (apart_sides v [] (x :: l) Hv (lo_chunks _ Hl) Hap) as [_ Hpost]; [constructor|..].
    { apply StronglySorted_inv in Has as [_ Has]. constructor; [lia|].
      eapply Forall_impl; [exact Has|]. simpl. lia. }
    split_and!; [by apply laid_out_cons|done|]. intros pos. by apply (content_between v [] (x :: l)).
  - assert (Hne : ck_block x ≠ ck_block v).
    { apply Forall_cons in Hap as [Hx _]. intros Heq. pose proof (cok_len _ Hv).
      apply laid_out_cons in Hl as (Hxok & _). pose proof (cok_len _ Hxok).
      unfold ck_end, ck_start in Hx. rewrite Heq in Hx. lia. }
    destruct (insertion_point v x l) as (pre & y & post & E & Hpre & Hpost); [lia|].
    assert (Ei : insert_after bsz v x l = pre ++ glue bsz y (glue bsz v post)).
    { rewrite <- insert_chunk_split by done. rewrite <- E. simpl. by rewrite decide_False. }
    rewrite Ei, E in *. clear Ei E Hfront.
    apply ascending_app in Has as (_ & Hasy & _).
    assert (Hpost' : Forall (λ c, ck_block v ≤ ck_block c) post).
    { destruct post as [|z post]; [constructor|]. apply StronglySorted_inv in Hasy as [Hasy _].
      apply StronglySorted_inv in Hasy as [_ Hz]. constructor; [done|].
      eapply Forall_impl; [exact Hz|]. simpl. lia. }
    change (y :: post) with ([y] ++ post) in *. rewrite (assoc_L (++)) in *.
    destruct (apart_sides v (pre ++ [y]) post Hv (lo_chunks _ Hl) Hap Hpre Hpost') as [S1 S2].
    apply Forall_cons in Hend as [Hve Hend]. pose proof Hend as [He1 He2]%Forall_app.
    pose proof (laid_out_between v (pre ++ [y]) post Hl Hv S1 S2) as Hin.
    destruct (glue_app (pre ++ [y]) v post Hin He2 Hve) as (G1 & G2 & G3).
    rewrite <- (assoc_L (++)) in G1. simpl in G1.
    apply Forall_app in He1 as [He1 Hey].
    destruct (glue_app pre y (glue bsz v post) G1 G3) as (G4 & G5 & G6);
      [by apply Forall_cons in Hey as [? _]|].
    split_and!; [done|by apply Forall_app|]. intros pos.
    rewrite G5, <- content_between by done. rewrite <- G2. by rewrite <- (assoc_L (++)).
Qed.
End Content.

(** ** Adding and splitting on the heap *)

(** A list, its block size and its bytes are fit for use. *)
Record list_ok (h : heap) (bbl : backed_block_list) (ls : list loc) (l : list chunk) : Prop := {
  lk_state : list_state h bbl ls l;
  lk_size : 0 < bbl_block_size bbl;
  lk_words : (4 | bbl_block_size bbl);
  lk_laid_out : laid_out (bbl_block_size bbl) l;
  lk_ends : Forall (λ c, ck_end (bbl_block_size bbl) c < 2 ^ 63) l;
}.

Lemma apart_blocks bsz v l :
  0 < bsz → chunk_ok bsz v → Forall (chunk_ok bsz) l → apart bsz v l →
  ck_block v ∉ ck_block <$> l.
Proof.
  intros Hb Hv Hl Hap (c & Heq & Hc)%list_elem_of_fmap. unfold apart in Hap.
  rewrite Forall_forall in *. pose proof (cok_len _ _ (Hl c Hc)). pose proof (cok_len _ _ Hv).
  destruct (Hap c Hc) as [Hx|Hx]; unfold ck_end, ck_start in Hx; rewrite Heq in Hx; lia.
Qed.

Lemma backed_block_add_ok calloc_ok h bbl ls l data len block :
  list_ok h bbl ls l → calloc_ok h = true →
  let bsz := bbl_block_size bbl in let v := mkChunk block len data in
  chunk_ok bsz v → apart bsz v l → ck_end bsz v < 2 ^ 63 →
  ∃ bbl' h' ls', backed_block_add calloc_ok bbl data len block h = Ret (bbl', h') ∧
    list_ok h' bbl' ls' (insert_chunk bsz v l) ∧ bbl_block_size bbl' = bsz ∧
    (∀ pos, content bsz (insert_chunk bsz v l) pos =
       if decide (ck_start bsz v ≤ pos < ck_end bsz v) then Some (source_at v (pos - ck_start bsz v))
       else content bsz l pos) ∧
    ∀ x, x ∈ dom h → x ∉ ls → h' !! x = h !! x.
Proof.
  intros [Hst Hsz Hw Hlo Hend] Hcal bsz v Hv Hap Hve.
  unfold backed_block_add, alloc. rewrite require_True by done. simpl.
  set (new := fresh (dom h)). assert (Hnew : new ∉ dom h) by apply is_fresh.
  set (nb := mkBlock block len data None).
  destruct Hst as [(bs & Hc & Hv') Hnd Hs Hlu Hbs].
  assert (Hnot : new ∉ ls) by (intros Hin; by apply Hnew, (chain_nodes _ _ _ _ Hc)).
  assert (Hst' : list_state (<[new := nb]> h) bbl ls l).
  { split; try done. exists bs. split; [by apply chain_insert|done]. }
  destruct (queue_bb_ok (<[new := nb]> h) bbl ls l new nb Hst')
    as (bbl' & h' & ls' & E & Hst2 & Hbb & Hsub & Hframe); [apply lookup_insert_eq|done|done|..].
  { by apply (apart_blocks bsz v l Hsz Hv (lo_chunks _ _ Hlo)). }
  destruct (insert_content bsz Hsz Hw v l Hlo Hv Hap) as (L1 & L2 & L3); [by constructor|].
  exists bbl', h', ls'. split; [done|]. split_and!; [|done|done|].
  - split; rewrite ?Hbb; done.
  - intros x Hx Hxl. assert (x ≠ new) by (by intros ->).
    rewrite Hframe by (by apply not_elem_of_cons). by rewrite lookup_insert_ne.
Qed.

(** *** Splitting *)

(** The two parts of a chunk cut after [n] bytes. *)
Definition cut_chunk (bsz n : Z) (c : chunk) : list chunk :=
  [mkChunk (ck_block c) n (ck_from c);
   mkChunk (ck_block c + n / bsz) (ck_len c - n) (backing_advance (ck_from c) n)].

Lemma cut_chunk_ok bsz n c :
  0 < bsz → (4 | bsz) → chunk_ok bsz c → (bsz | n) → 0 < n < ck_len c → ck_end bsz c < 2 ^ 63 →
  Forall (chunk_ok bsz) (cut_chunk bsz n c) ∧
  ck_start bsz (mkChunk (ck_block c + n / bsz) (ck_len c - n) (backing_advance (ck_from c) n)) =
    ck_start bsz c + n ∧
  ∀ pos, content bsz (cut_chunk bsz n c) pos = content bsz [c] pos.
Proof.
  intros Hb [w Hw] [Hlen Hblk Hoff] [k Hk] Hn Hend.
  assert (Hnk : n / bsz = k) by (rewrite Hk; apply Z.div_mul; lia).
  assert (Hdiv : (ck_len c - n) / bsz = ck_len c / bsz - k).
  { rewrite Hk. replace (ck_len c - k * bsz) with (ck_len c + (- k) * bsz) by lia.
    rewrite Z.div_add by lia. lia. }
  assert (Hkpos : 0 < k) by nia.
  assert (Hle : k ≤ ck_len c / bsz) by (apply Z.div_le_lower_bound; nia).
  unfold cut_chunk. rewrite Hnk. split_and!.
  - constructor; [|constructor; [|done]]; split; simpl; rewrite ?Hnk, ?Hdiv; try lia.
    + destruct (ck_from c); lia || done.
    + destruct (ck_from c); simpl; rewrite ?i64_small; lia || done.
  - unfold ck_start. simpl. lia.
  - intros pos. simpl. unfold ck_end, ck_start. simpl.
    destruct (decide (ck_block c * bsz ≤ pos < ck_block c * bsz + n)) as [H1|H1].
    + by rewrite decide_True by lia.
    + destruct (decide ((ck_block c + k) * bsz ≤ pos < (ck_block c + k) * bsz + (ck_len c - n))) as [H2|H2].
      * rewrite decide_True by nia. f_equal. unfold source_at. simpl.
        destruct (ck_from c); simpl; rewrite ?i64_small by lia; f_equal; try nia.
        rewrite Hw in *. replace (pos - (ck_block c + k) * (w * 4))
          with (pos - ck_block c * (w * 4) + (- (k * w)) * 4) by lia.
        by rewrite Z.mod_add.
      * by rewrite decide_False by nia.
Qed.

Lemma cut_laid_out bsz n l1 c l2 :
  0 < bsz → (4 | bsz) → laid_out bsz (l1 ++ c :: l2) → (bsz | n) → 0 < n < ck_len c →
  Forall (λ c, ck_end bsz c < 2 ^ 63) (l1 ++ c :: l2) →
  laid_out bsz (l1 ++ cut_chunk bsz n c ++ l2) ∧
  Forall (λ c, ck_end bsz c < 2 ^ 63) (l1 ++ cut_chunk bsz n c ++ l2) ∧
  ∀ pos, content bsz (l1 ++ cut_chunk bsz n c ++ l2) pos = content bsz (l1 ++ c :: l2) pos.
Proof.
  intros Hb Hw (L1 & (Hc & L2 & L3)%laid_out_cons & L4)%laid_out_app Hdiv Hn
    [E1 [Ec E2]%Forall_cons]%Forall_app.
  destruct (cut_chunk_ok bsz n c Hb Hw Hc Hdiv Hn Ec) as ([C1 [C2 _]%Forall_cons]%Forall_cons & Hst & Hcont).
  assert (Hcut : Forall (λ x, ck_start bsz c ≤ ck_start bsz x ∧ ck_end bsz x ≤ ck_end bsz c)
                   (cut_chunk bsz n c)).
  { constructor; [|constructor; [|done]]; unfold ck_end in *; rewrite ?Hst; unfold ck_start; simpl; lia. }
  split_and!.
  - apply laid_out_app. split_and!; [done| |].
    + simpl. apply laid_out_cons. split_and!; [done|apply laid_out_cons; split_and!; [done|done|]|].
      * eapply Forall_impl; [exact L3|]. intros x Hx. unfold ck_end in *. rewrite Hst. simpl. lia.
      * constructor; [unfold ck_end; rewrite Hst; unfold ck_start; simpl; lia|].
        eapply Forall_impl; [exact L3|]. intros x Hx. unfold ck_end, ck_start in *. simpl. lia.
    + eapply Forall_impl; [exact L4|]. intros x [Hxc Hx]%Forall_cons. apply Forall_app.
      split; [|done]. eapply Forall_impl; [exact Hcut|]. simpl. lia.
  - rewrite !Forall_app. split_and!; [done| |done].
    eapply Forall_impl; [exact Hcut|]. simpl. lia.
  - intros pos. change (c :: l2) with ([c] ++ l2). by rewrite !content_app, Hcont.
Qed.

Lemma backed_block_split_ok calloc_ok h bbl ls1 bb ls2 l1 c l2 max_len :
  list_ok h bbl (ls1 ++ bb :: ls2) (l1 ++ c :: l2) → length ls1 = length l1 →
  let bsz := bbl_block_size bbl in let n := ALIGN_DOWN max_len bsz in
  0 < n → calloc_ok h = true →
  if decide (ck_len c ≤ n) then backed_block_split calloc_ok bbl bb max_len h = Ret h
  else ∃ h' new, backed_block_split calloc_ok bbl bb max_len h = Ret h' ∧
    list_ok h' bbl (ls1 ++ bb :: new :: ls2) (l1 ++ cut_chunk bsz n c ++ l2) ∧
    ∀ pos, content bsz (l1 ++ cut_chunk bsz n c ++ l2) pos = content bsz (l1 ++ c :: l2) pos.
Proof.
  intros [[(bs & Hc & Hv) Hnd Hs Hlu Hbs] Hsz Hw Hlo Hend] Hlen bsz n Hn Hcal.
  destruct (chain_split _ _ _ _ _ Hc) as (bs1 & R & q & -> & Hlen1 & Hcq & _ & Hback).
  rewrite fmap_app in Hv. apply app_inj_1 in Hv as [<- Hv]; [|rewrite length_fmap; lia].
  destruct R as [|b bs2]; [done|]. csimpl in Hv. injection Hv as <- <-.
  destruct (chain_inv _ _ _ _ _ _ Hcq) as (-> & Hbb & Hc2).
  unfold backed_block_split. rewrite CHECK_True by done. simpl. rewrite Hbb. simpl. fold bsz n.
  assert (Hdiv : (bsz | n)) by apply Z.divide_factor_l.
  case_decide as Hle; [done|]. simpl in Hle. unfold alloc. rewrite require_True by done. simpl.
  set (new := fresh (dom h)). assert (Hnew : new ∉ dom h) by apply is_fresh.
  assert (Hnl : new ∉ ls1 ++ bb :: ls2) by (intros Hin; by apply Hnew, (chain_nodes _ _ _ _ Hc)).
  apply not_elem_of_app in Hnl as [Hn1 [Hnb Hn2]%not_elem_of_cons].
  destruct (cut_laid_out bsz n (val <$> bs1) (val b) (val <$> bs2)) as (G1 & G2 & G3);
    try done; [simpl; lia|].
  apply laid_out_app in Hlo as (_ & (Hcok & _)%laid_out_cons & _).
  destruct Hcok as [Hl0 Hb0 _]. simpl in Hl0, Hb0. fold bsz in Hb0, Hsz.
  assert (Hnk : 0 < n / bsz ≤ bb_len b / bsz).
  { destruct Hdiv as [k Hk]. rewrite Hk, Z.div_mul by done. split; [nia|].
    apply Z.div_le_lower_bound; nia. }
  assert (Hnle : n < bb_len b) by lia. clear Hle.
  assert (Hu : u32 (bb_block b + n / bsz) = bb_block b + n / bsz) by (apply u32_small; lia).
  assert (Hul : u64 (bb_len b - n) = bb_len b - n) by (apply u64_small; lia).
  set (nb := mkBlock _ _ _ (bb_next b)). set (b' := mkBlock (bb_block b) n (bb_backing b) (Some new)).
  eexists _, new. split; [done|]. split; [|exact G3]. split; try done.
  apply NoDup_app in Hnd as (Hnd1 & Hdis & [Hbn Hnd2]%NoDup_cons). split; try done.
  - exists (bs1 ++ b' :: nb :: bs2). split.
    + apply Hback.
      * constructor; [apply lookup_insert_eq|]. simpl.
        constructor; [rewrite lookup_insert_ne by done; apply lookup_insert_eq|].
        apply chain_insert; [|done]. by apply chain_insert.
      * intros l Hl. rewrite !lookup_insert_ne; [done|by intros <-|].
        intros <-. apply (Hdis bb Hl). left.
    + rewrite fmap_app. csimpl. do 2 f_equal. f_equal. unfold val. simpl.
      by rewrite Hu, Hul.
  - apply NoDup_app. split_and!; [done| |].
    + intros x Hx. rewrite !not_elem_of_cons. specialize (Hdis x Hx).
      rewrite not_elem_of_cons in Hdis. split_and!; [apply Hdis|by intros ->|apply Hdis].
    + constructor; [by apply not_elem_of_cons|]. by constructor.
  - by apply (laid_out_ascending bsz).
  - destruct (last_used bbl) as [lu|]; [|done]. rewrite !elem_of_app, !elem_of_cons in *. tauto.
Qed.
