(* ===== verification/SparseOutput.v ===== *)
(** * Writing images ([libsparse/output_file.cpp])

    An [output_file] writes chunks either in the sparse format or as a plain
    image, through one of three back ends ([output_file_ops]): a descriptor, a
    gzip stream, a callback.  Memory behind [void*] and mapped or opened files
    are parameters.  Negative results are [Reject]; a callback is taken to return
    0 on success. *)
From S2P Require Import Prelude Bytes Device SparseFormat.

(** [libsparse/output_file.cpp:57-57 FILL_ZERO_BUFSIZE] *)
Definition FILL_ZERO_BUFSIZE : Z := 2 * 1024 * 1024.
(** [libsparse/output_file.cpp:61-61 kMaxMmapSize] *)
Definition kMaxMmapSize : Z := 256 * 1024 * 1024.
Definition INT_MAX : Z := 2 ^ 31 - 1.

(** The loop [while (len) { n = min(len, size); body(n); len -= n; }]. *)
Fixpoint for_pieces {S} (fuel : nat) (size len : Z) (body : Z → IO S unit) : IO S unit :=
  if decide (len = 0) then mret ()
  else
    match fuel with
    | O => lift Crash
    | Datatypes.S fuel =>
        let n := len `min` size in
        _ ← body n;
        for_pieces fuel size (len - n) body
    end.
(** Enough iterations for the loop over [len] in pieces of [size]. *)
Definition pieces_fuel (size len : Z) : nat := Datatypes.S (Z.to_nat (len / size)).
Definition in_pieces {S} (size len : Z) (body : Z → IO S unit) : IO S unit :=
  for_pieces (pieces_fuel size len) size len body.

(** ** Back ends *)

(** [libsparse/output_file.cpp:63-69 output_file_ops] *)
Record output_file_ops (W : Type) := mkOps {
  op_skip : Z → IO W unit;
  op_pad : Z → IO W unit;
  op_write : bytes → IO W unit;
}.
Arguments mkOps {W}.
Arguments op_skip {W}.
Arguments op_pad {W}.
Arguments op_write {W}.

Section FileOps.
Context {D : Type} `{!Posix D}.
(** How many [write] calls the loop makes at most; a longer loop does not return. *)
Context (patience : nat).

(** [libsparse/output_file.cpp:122-132 file_skip] *)
Definition file_skip (cnt : Z) : IO D unit :=
  r ← sys_lseek cnt SEEK_CUR;
  match r with Sought _ => mret () | _ => lift Reject end.
(** [libsparse/output_file.cpp:134-144 file_pad] *)
Definition file_pad (len : Z) : IO D unit := sys_ftruncate len.
(** [libsparse/output_file.cpp:150-162 file_write, loop] *)
Fixpoint file_write_loop (fuel : nat) (data : bytes) : IO D unit :=
  match data, fuel with
  | [], _ => mret ()
  | _ :: _, O => lift Crash
  | _ :: _, S fuel =>
      r ← sys_write data;
      match r with
      | Wrote n => file_write_loop fuel (drop n data)
      | WriteInterrupted => file_write_loop fuel data
      | WriteFailed => lift Reject
      end
  end.
(** [libsparse/output_file.cpp:146-165 file_write] *)
Definition file_write (data : bytes) : IO D unit := file_write_loop patience data.
(** [libsparse/output_file.cpp:173-179 file_ops] *)
Definition file_ops : output_file_ops D := mkOps file_skip file_pad file_write.
End FileOps.

Section GzOps.
Context {D : Type} `{!Gz D}.
Context (patience : nat).

(** [libsparse/output_file.cpp:193-203 gz_file_skip] *)
Definition gz_file_skip (cnt : Z) : IO D unit :=
  r ← gzseek cnt SEEK_CUR;
  match r with Sought _ => mret () | _ => lift Reject end.
(** The result of the final [gzwrite] is not looked at.
    [libsparse/output_file.cpp:205-226 gz_file_pad] *)
Definition gz_file_pad (len : Z) : IO D unit :=
  r ← gztell;
  match r with
  | Sought at_ =>
      if decide (len ≤ at_) then mret ()
      else
        r ← gzseek (len - 1) SEEK_SET;
        match r with
        | Sought _ => _ ← try_ (gzwrite (zeroes 1)); mret ()
        | _ => lift Reject
        end
  | _ => lift Reject
  end.
(** [libsparse/output_file.cpp:232-240 gz_file_write, loop] *)
Fixpoint gz_file_write_loop (fuel : nat) (data : bytes) : IO D unit :=
  match data, fuel with
  | [], _ => mret ()
  | _ :: _, O => lift Crash
  | _ :: _, S fuel =>
      n ← gzwrite (take (Z.to_nat INT_MAX) data);
      if decide (n = 0%nat) then lift Reject else gz_file_write_loop fuel (drop n data)
  end.
(** [libsparse/output_file.cpp:228-243 gz_file_write] *)
Definition gz_file_write (data : bytes) : IO D unit := gz_file_write_loop patience data.
(** [libsparse/output_file.cpp:252-258 gz_file_ops] *)
Definition gz_file_ops : output_file_ops D := mkOps gz_file_skip gz_file_pad gz_file_write.
End GzOps.

Section CallbackOps.
Context {W : Type}.
(** [write(priv, data, len)]; [None] is a null [data]. *)
Context (callback : option bytes → Z → IO W unit).

(** [libsparse/output_file.cpp:264-279 callback_file_skip] *)
Definition callback_file_skip (off : Z) : IO W unit :=
  if decide (0 < off) then in_pieces INT_MAX off (λ n, callback None n) else mret ().
(** [libsparse/output_file.cpp:281-283 callback_file_pad] *)
Definition callback_file_pad (len : Z) : IO W unit := lift Reject.
(** [libsparse/output_file.cpp:285-289 callback_file_write] *)
Definition callback_file_write (data : bytes) : IO W unit := callback (Some data) (zlen data).
(** [libsparse/output_file.cpp:297-303 callback_file_ops] *)
Definition callback_file_ops : output_file_ops W :=
  mkOps callback_file_skip callback_file_pad callback_file_write.
End CallbackOps.

(** ** Output files *)

(** The chunk functions installed: [sparse_file_ops] or [normal_file_ops].
    [libsparse/output_file.cpp:79-91 output_file] *)
Record output_file (W : Type) := mkOut {
  cur_out_ptr : Z;
  chunk_cnt : Z;
  crc32 : Z;
  of_sparse : bool;
  use_crc : bool;
  of_block_size : Z;
  of_len : Z;
  of_dest : W;
}.
Arguments mkOut {W}.
Arguments cur_out_ptr {W}.
Arguments chunk_cnt {W}.
Arguments crc32 {W}.
Arguments of_sparse {W}.
Arguments use_crc {W}.
Arguments of_block_size {W}.
Arguments of_len {W}.
Arguments of_dest {W}.

(** Memory and files outside the process image of the library. *)
Record Env := mkEnv {
  (** The bytes at an address. *)
  mem : Z → Z → bytes;
  (** [MappedFile::FromFd(fd, offset, len)]. *)
  map_fd : Z → Z → Z → option bytes;
  (** [open(name, O_RDONLY)]. *)
  open_file : bytes → option Z;
}.

Section Output.
Context {W : Type} (ops : output_file_ops W) (env : Env).

Definition on_dest {A} (m : IO W A) : IO (output_file W) A := λ o,
  let '(r, w) := m (of_dest o) in
  (r, mkOut (cur_out_ptr o) (chunk_cnt o) (crc32 o) (of_sparse o) (use_crc o)
        (of_block_size o) (of_len o) w).
Definition emit (data : bytes) : IO (output_file W) unit := on_dest (op_write ops data).
Definition the_file : IO (output_file W) (output_file W) := λ o, (Ret o, o).
Definition set_crc (f : Z → Z) : IO (output_file W) unit := λ o,
  (Ret (), mkOut (cur_out_ptr o) (chunk_cnt o) (f (crc32 o)) (of_sparse o) (use_crc o)
             (of_block_size o) (of_len o) (of_dest o)).
(** The counters after a chunk of [len] bytes of the image. *)
Definition advance (len : Z) : IO (output_file W) unit := λ o,
  (Ret (), mkOut (i64 (cur_out_ptr o + len)) (u32 (chunk_cnt o + 1)) (crc32 o) (of_sparse o)
             (use_crc o) (of_block_size o) (of_len o) (of_dest o)).

(** The loop over the pieces of a mapped file: whether all went well, and the
    result of the last write ([None] before the first).
    [libsparse/output_file.cpp:325-342 write_fd_chunk_range] *)
Fixpoint write_fd_chunk_range (fuel : nat) (fd offset len : Z)
    (write : bytes → IO (output_file W) unit) (ret : option bool)
    : IO (output_file W) (bool * option bool) :=
  if decide (len = 0) then mret (true, ret)
  else
    match fuel with
    | O => lift Crash
    | S fuel =>
        let mmap_size := kMaxMmapSize `min` len in
        match map_fd env fd offset mmap_size with
        | None => mret (false, ret)
        | Some data =>
            r ← try_ (write data);
            match r with
            | None => mret (false, Some false)
            | Some _ =>
                write_fd_chunk_range fuel fd (i64 (offset + mmap_size)) (len - mmap_size) write
                  (Some true)
            end
        end
    end.

(** *** Sparse format *)

Definition chunk_header (type blocks total : Z) : bytes :=
  c_enc chunk_header_codec (mkChunkHeader type 0 (u32 blocks) (u32 total)).

(** [libsparse/output_file.cpp:344-366 write_sparse_skip_chunk] *)
Definition write_sparse_skip_chunk (skip_len : Z) : IO (output_file W) unit :=
  o ← the_file;
  _ ← lift (CHECK (of_block_size o ≠ 0));
  _ ← lift (require (skip_len mod of_block_size o = 0));
  _ ← emit (chunk_header CHUNK_TYPE_DONT_CARE (skip_len / of_block_size o) CHUNK_HEADER_LEN);
  advance skip_len.

(** [libsparse/output_file.cpp:368-397 write_sparse_fill_chunk] *)
Definition write_sparse_fill_chunk (len fill_val : Z) : IO (output_file W) unit :=
  o ← the_file;
  _ ← lift (CHECK (of_block_size o ≠ 0));
  let rnd_up_len := ALIGN len (of_block_size o) in
  _ ← emit (chunk_header CHUNK_TYPE_FILL (rnd_up_len / of_block_size o) (CHUNK_HEADER_LEN + 4));
  _ ← emit (c_enc c_u32 fill_val);
  _ ← (if use_crc o then
         set_crc (λ crc, Nat.iter (Z.to_nat (of_block_size o / 4))
                           (λ crc, sparse_crc32 crc (c_enc c_u32 fill_val)) crc)
       else mret ());
  advance rnd_up_len.

(** The zeroes after the data of a chunk, in pieces of the zero buffer.
    [libsparse/output_file.cpp:418-429 write_sparse_data_chunk, padding] *)
Definition emit_zeroes (zero_len : Z) : IO (output_file W) unit :=
  in_pieces FILL_ZERO_BUFSIZE zero_len (λ n, emit (zeroes (Z.to_nat n))).
(** [libsparse/output_file.cpp:433-441 write_sparse_data_chunk, padding checksum] *)
Definition crc_zeroes (zero_len : Z) : IO (output_file W) unit :=
  in_pieces FILL_ZERO_BUFSIZE zero_len
    (λ n, set_crc (λ crc, sparse_crc32 crc (zeroes (Z.to_nat n)))).

(** [libsparse/output_file.cpp:399-448 write_sparse_data_chunk] *)
Definition write_sparse_data_chunk (len : Z) (data : Z) : IO (output_file W) unit :=
  o ← the_file;
  _ ← lift (CHECK (of_block_size o ≠ 0));
  let rnd_up_len := ALIGN len (of_block_size o) in
  let zero_len := u64 (rnd_up_len - len) in
  _ ← emit (chunk_header CHUNK_TYPE_RAW (rnd_up_len / of_block_size o)
              (CHUNK_HEADER_LEN + rnd_up_len));
  _ ← emit (mem env data len);
  _ ← emit_zeroes zero_len;
  _ ← (if use_crc o then
         _ ← set_crc (λ crc, sparse_crc32 crc (mem env data len));
         crc_zeroes zero_len
       else mret ());
  advance rnd_up_len.

(** [libsparse/output_file.cpp:450-503 write_sparse_fd_chunk] *)
Definition write_sparse_fd_chunk (len fd offset : Z) : IO (output_file W) unit :=
  o ← the_file;
  _ ← lift (CHECK (of_block_size o ≠ 0));
  let rnd_up_len := ALIGN len (of_block_size o) in
  let zero_len := u64 (rnd_up_len - len) in
  _ ← emit (chunk_header CHUNK_TYPE_RAW (rnd_up_len / of_block_size o)
              (CHUNK_HEADER_LEN + rnd_up_len));
  '(ok, _) ← write_fd_chunk_range (pieces_fuel kMaxMmapSize len) fd offset len
    (λ data, _ ← emit data;
             if use_crc o then set_crc (λ crc, sparse_crc32 crc data) else mret ()) None;
  _ ← lift (require (ok = true));
  _ ← emit_zeroes zero_len;
  _ ← (if use_crc o then crc_zeroes zero_len else mret ());
  advance rnd_up_len.

(** The result of the second write is not looked at.
    [libsparse/output_file.cpp:505-528 write_sparse_end_chunk] *)
Definition write_sparse_end_chunk : IO (output_file W) unit :=
  o ← the_file;
  if use_crc o then
    _ ← emit (chunk_header CHUNK_TYPE_CRC32 0 (CHUNK_HEADER_LEN + 4));
    _ ← try_ (emit (c_enc c_u32 (crc32 o)));
    advance 0
  else mret ().

(** *** Plain images *)

Definition pad_chunk (o : output_file W) (len : Z) : IO (output_file W) unit :=
  let rnd_up_len := ALIGN len (of_block_size o) in
  if decide (len < rnd_up_len) then on_dest (op_skip ops (i64 (rnd_up_len - len))) else mret ().

(** [libsparse/output_file.cpp:538-552 write_normal_data_chunk] *)
Definition write_normal_data_chunk (len data : Z) : IO (output_file W) unit :=
  o ← the_file;
  _ ← lift (CHECK (of_block_size o ≠ 0));
  _ ← emit (mem env data len);
  pad_chunk o len.

(** The first [n] bytes of the buffer filled with the value. *)
Definition fill_bytes (fill_val n : Z) : bytes :=
  take (Z.to_nat n) (concat (replicate (Z.to_nat (n / 4 + 1)) (c_enc c_u32 fill_val))).
(** [libsparse/output_file.cpp:554-575 write_normal_fill_chunk] *)
Definition write_normal_fill_chunk (len fill_val : Z) : IO (output_file W) unit :=
  in_pieces FILL_ZERO_BUFSIZE len (λ n, emit (fill_bytes fill_val n)).

(** When a piece cannot be mapped the result is that of the write before it, and
    not initialised if there was none.
    [libsparse/output_file.cpp:577-592 write_normal_fd_chunk] *)
Definition write_normal_fd_chunk (len fd offset : Z) : IO (output_file W) unit :=
  o ← the_file;
  _ ← lift (CHECK (of_block_size o ≠ 0));
  '(ok, ret) ← write_fd_chunk_range (pieces_fuel kMaxMmapSize len) fd offset len emit None;
  match ok, ret with
  | false, Some true => mret ()
  | false, Some false => lift Reject
  | false, None => lift Crash
  | true, None =>
      (* No piece was written and none skipped: the result is not initialised. *)
      if decide (len < ALIGN len (of_block_size o)) then pad_chunk o len else lift Crash
  | true, Some _ => pad_chunk o len
  end.

(** [libsparse/output_file.cpp:594-596 write_normal_skip_chunk] *)
Definition write_normal_skip_chunk (len : Z) : IO (output_file W) unit :=
  on_dest (op_skip ops (i64 len)).
(** [libsparse/output_file.cpp:598-600 write_normal_end_chunk] *)
Definition write_normal_end_chunk : IO (output_file W) unit :=
  o ← the_file; on_dest (op_pad ops (of_len o)).

(** *** Dispatch *)

(** [libsparse/output_file.cpp:760-762 write_data_chunk] *)
Definition write_data_chunk (len data : Z) : IO (output_file W) unit :=
  o ← the_file;
  if of_sparse o then write_sparse_data_chunk len data else write_normal_data_chunk len data.
(** [libsparse/output_file.cpp:765-767 write_fill_chunk] *)
Definition write_fill_chunk (len fill_val : Z) : IO (output_file W) unit :=
  o ← the_file;
  if of_sparse o then write_sparse_fill_chunk len fill_val
  else write_normal_fill_chunk len fill_val.
(** [libsparse/output_file.cpp:769-771 write_fd_chunk] *)
Definition write_fd_chunk (len fd offset : Z) : IO (output_file W) unit :=
  o ← the_file;
  if of_sparse o then write_sparse_fd_chunk len fd offset
  else write_normal_fd_chunk len fd offset.
(** [libsparse/output_file.cpp:774-787 write_file_chunk] *)
Definition write_file_chunk (len : Z) (file : bytes) (offset : Z) : IO (output_file W) unit :=
  fd ← lift (found (open_file env file));
  write_fd_chunk len fd offset.
(** [libsparse/output_file.cpp:789-791 write_skip_chunk] *)
Definition write_skip_chunk (len : Z) : IO (output_file W) unit :=
  o ← the_file;
  if of_sparse o then write_sparse_skip_chunk len else write_normal_skip_chunk len.

(** [libsparse/output_file.cpp:610-617 output_file_close] *)
Definition output_file_close : IO (output_file W) unit :=
  o ← the_file;
  if of_sparse o then write_sparse_end_chunk else write_normal_end_chunk.

(** The header of a sparse image.
    [libsparse/output_file.cpp:651-665 output_file_init, header] *)
Definition image_header (block_size len chunks : Z) (crc : bool) : sparse_header_t :=
  mkSparseHeader SPARSE_HEADER_MAGIC 1 0 SPARSE_HEADER_LEN CHUNK_HEADER_LEN block_size
    (u32 (i64 (len + block_size - 1) `quot` block_size))
    (if crc then u32 (u32 chunks + 1) else u32 chunks) 0.
(** The buffers are taken to be allocated.
    [libsparse/output_file.cpp:619-680 output_file_init] *)
Definition output_file_init (block_size len : Z) (sparse : bool) (chunks : Z) (crc : bool)
    (w : W) : outcome unit * output_file W :=
  (if sparse then
     _ ← lift (CHECK (block_size ≠ 0));
     emit (c_enc sparse_header_codec (image_header block_size len chunks crc))
   else mret ()) (mkOut 0 0 0 sparse crc block_size len w).
End Output.

(** The back end of a descriptor.
    [libsparse/output_file.cpp:734-757 output_file_open_fd] *)
Definition output_file_open_fd {D} `{!Posix D, !Gz D} (patience : nat) (gz : bool)
    (block_size len : Z) (sparse : bool) (chunks : Z) (crc : bool) (fd : D)
    : output_file_ops D * (outcome unit * output_file D) :=
  let ops := if gz then gz_file_ops patience else file_ops patience in
  (ops, output_file_init ops block_size len sparse chunks crc fd).
(** [libsparse/output_file.cpp:708-732 output_file_open_callback] *)
Definition output_file_open_callback {P} (write : option bytes → Z → IO P unit) (priv : P)
    (block_size len : Z) (sparse : bool) (chunks : Z) (crc : bool)
    : output_file_ops P * (outcome unit * output_file P) :=
  let ops := callback_file_ops write in
  (ops, output_file_init ops block_size len sparse chunks crc priv).

(** [libsparse/output_file.cpp:305-322 read_all] *)
Fixpoint read_all {D} `{!Posix D} (fuel : nat) (len : Z) : IO D bytes :=
  if decide (len = 0) then mret []
  else
    match fuel with
    | O => lift Crash
    | S fuel =>
        bs ← sys_read len;
        if decide (bs = []) then lift Reject
        else rest ← read_all fuel (len - zlen bs); mret (bs ++ rest)
    end.
