(* ===== verification/SparseFile.v ===== *)
(** * Sparse files ([libsparse/sparse.cpp])

    A sparse file is a block size, a length and a list of backed blocks; the
    nodes are in a heap that several sparse files share.  Writing reads the list
    and drives an [output_file]; [sparse_file_resparse] distributes the nodes
    over files of bounded size. *)
From S2P Require Import Prelude Bytes Device SparseFormat BackedBlock SparseOutput.

(** [libsparse/sparse_file.h:26-33 sparse_file] *)
Record sparse_file := mkSparseFile {
  sf_block_size : Z;
  sf_len : Z;
  sf_verbose : bool;
  sf_list : backed_block_list;
}.
Definition sf_set_list (s : sparse_file) (l : backed_block_list) : sparse_file :=
  mkSparseFile (sf_block_size s) (sf_len s) (sf_verbose s) l.

(** [libsparse/sparse.cpp:30-46 sparse_file_new] *)
Definition sparse_file_new (block_size len : Z) : sparse_file :=
  mkSparseFile block_size len false (backed_block_list_new block_size).
(** [libsparse/sparse.cpp:48-51 sparse_file_destroy] *)
Definition sparse_file_destroy (s : sparse_file) (h : heap) : outcome heap :=
  backed_block_list_destroy (sf_list s) h.
(** [libsparse/sparse.cpp:367-369 sparse_file_verbose] *)
Definition sparse_file_verbose (s : sparse_file) : sparse_file :=
  mkSparseFile (sf_block_size s) (sf_len s) true (sf_list s).
(** [libsparse/sparse.cpp:259-261 sparse_file_block_size] *)
Definition sparse_file_block_size (s : sparse_file) : Z := sf_block_size s.

(** The blocks of the list, in order. *)
Definition sf_blocks (h : heap) (s : sparse_file) : outcome (list backed_block) :=
  list_blocks h (sf_list s).

Section Adding.
Context (calloc_ok : heap → bool).

Definition with_list (s : sparse_file)
    (f : backed_block_list → outcome (backed_block_list * heap)) : outcome (sparse_file * heap) :=
  '(l, h) ← f (sf_list s); Ret (sf_set_list s l, h).

(** [libsparse/sparse.cpp:53-55 sparse_file_add_data] *)
Definition sparse_file_add_data (s : sparse_file) (data len block : Z) (h : heap) :=
  with_list s (λ l, backed_block_add_data calloc_ok l data len block h).
(** [libsparse/sparse.cpp:57-60 sparse_file_add_fill] *)
Definition sparse_file_add_fill (s : sparse_file) (fill_val len block : Z) (h : heap) :=
  with_list s (λ l, backed_block_add_fill calloc_ok l fill_val len block h).
(** [libsparse/sparse.cpp:62-65 sparse_file_add_file] *)
Definition sparse_file_add_file (s : sparse_file) (filename : bytes)
    (file_offset len block : Z) (h : heap) :=
  with_list s (λ l, backed_block_add_file calloc_ok l filename file_offset len block h).
(** [libsparse/sparse.cpp:67-70 sparse_file_add_fd] *)
Definition sparse_file_add_fd (s : sparse_file) (fd file_offset len block : Z) (h : heap) :=
  with_list s (λ l, backed_block_add_fd calloc_ok l fd file_offset len block h).
End Adding.

(** ** Counting and writing chunks *)

(** The block after [b]: a sum in [uint64_t] stored in an [unsigned int]. *)
Definition block_end (block_size : Z) (b : backed_block) : Z :=
  u32 (bb_block b + DIV_ROUND_UP (bb_len b) block_size).

Fixpoint count_chunks (block_size : Z) (bs : list backed_block) (last_block chunks : Z)
    : Z * Z :=
  match bs with
  | [] => (last_block, chunks)
  | b :: bs =>
      let chunks := if decide (last_block < bb_block b) then u32 (chunks + 1) else chunks in
      count_chunks block_size bs (block_end block_size b) (u32 (chunks + 1))
  end.
(** [DIV_ROUND_UP] on the [int64_t] length. *)
Definition len_blocks (block_size len : Z) : Z := i64 (len + block_size - 1) `quot` block_size.
(** [libsparse/sparse.cpp:71-89 sparse_count_chunks] *)
Definition sparse_count_chunks (s : sparse_file) (bs : list backed_block) : outcome Z :=
  _ ← CHECK (sf_block_size s ≠ 0);
  let '(last_block, chunks) := count_chunks (sf_block_size s) bs 0 0 in
  Ret (if decide (last_block < len_blocks (sf_block_size s) (sf_len s)) then u32 (chunks + 1)
       else chunks).

Section Writing.
Context {W : Type} (ops : output_file_ops W) (env : Env).

(** [libsparse/sparse.cpp:91-112 sparse_file_write_block] *)
Definition sparse_file_write_block (b : backed_block) : IO (output_file W) unit :=
  match bb_backing b with
  | BACKED_BLOCK_DATA data => write_data_chunk ops env (bb_len b) data
  | BACKED_BLOCK_FILE f off => write_file_chunk ops env (bb_len b) f off
  | BACKED_BLOCK_FD fd off => write_fd_chunk ops env (bb_len b) fd off
  | BACKED_BLOCK_FILL v => write_fill_chunk ops (bb_len b) v
  end.

(** The results of the skips are not looked at.
    [libsparse/sparse.cpp:120-128 write_all_blocks, loop] *)
Fixpoint write_blocks (block_size : Z) (bs : list backed_block) (last_block : Z)
    : IO (output_file W) Z :=
  match bs with
  | [] => mret last_block
  | b :: bs =>
      _ ← (if decide (last_block < bb_block b)
           then try_ (write_skip_chunk ops (u64 ((bb_block b - last_block) * block_size)))
           else mret None);
      _ ← sparse_file_write_block b;
      write_blocks block_size bs (block_end block_size b)
  end.
(** [libsparse/sparse.cpp:114-137 write_all_blocks] *)
Definition write_all_blocks (s : sparse_file) (bs : list backed_block)
    : IO (output_file W) unit :=
  last_block ← write_blocks (sf_block_size s) bs 0;
  let pad := i64 (sf_len s - last_block * sf_block_size s) in
  _ ← lift (CHECK (0 ≤ pad));
  if decide (0 < pad) then _ ← try_ (write_skip_chunk ops pad); mret () else mret ().

(** What follows the opening of the output in [sparse_file_write],
    [sparse_file_callback] and [sparse_file_len]; a failed open is a failure.
    [libsparse/sparse.cpp:159-165 sparse_file_write, output] *)
Definition write_opened (s : sparse_file) (bs : list backed_block)
    (opened : outcome unit * output_file W) : outcome unit * W :=
  match opened with
  | (Ret _, out) =>
      match write_all_blocks s bs out with
      | (Crash, out) => (Crash, of_dest out)
      | (ret, out) =>
          match output_file_close ops out with
          | (Crash, out) => (Crash, of_dest out)
          | (_, out) => (ret, of_dest out)
          end
      end
  | (r, out) => (r, of_dest out)
  end.
End Writing.

(** [libsparse/sparse.cpp:143-143 MAX_BACKED_BLOCK_SIZE] *)
Definition MAX_BACKED_BLOCK_SIZE : Z := 64 * 2 ^ 20.

(** The loop that splits every block; a split adds the node visited next.
    [libsparse/sparse.cpp:151-154 sparse_file_write, split] *)
Fixpoint split_blocks (calloc_ok : heap → bool) (fuel : nat) (l : backed_block_list)
    (p : option loc) (h : heap) : outcome unit * heap :=
  match p, fuel with
  | None, _ => (Ret (), h)
  | Some bb, S fuel =>
      match (h ← backed_block_split calloc_ok l bb MAX_BACKED_BLOCK_SIZE h;
             b ← access (h !! bb);
             Ret (bb_next b, h)) with
      | Ret (next, h) => split_blocks calloc_ok fuel l next h
      | Reject => (Reject, h)
      | Crash => (Crash, h)
      end
  | Some _, O => (Crash, h)
  end.

(** Nodes the splits can leave: one for every whole [MAX_BACKED_BLOCK_SIZE]. *)
Definition split_fuel (bs : list backed_block) (block_size : Z) : nat :=
  foldr (λ b n, S (Z.to_nat (bb_len b / ALIGN_DOWN MAX_BACKED_BLOCK_SIZE block_size) + n))%nat
    1%nat bs.

Section Entry.
Context (env : Env) (calloc_ok : heap → bool).

(** The heap has the blocks split afterwards.
    [libsparse/sparse.cpp:145-166 sparse_file_write] *)
Definition sparse_file_write {D} `{!Posix D, !Gz D} (patience : nat) (s : sparse_file)
    (gz sparse crc : bool) (h : heap) (fd : D) : outcome unit * heap * D :=
  match sf_blocks h s with
  | Ret bs =>
      match split_blocks calloc_ok (split_fuel bs (sf_block_size s)) (sf_list s)
              (data_blocks (sf_list s)) h with
      | (Ret _, h) =>
          match (bs ← sf_blocks h s; chunks ← sparse_count_chunks s bs; Ret (bs, chunks)) with
          | Ret (bs, chunks) =>
              let '(ops, out) := output_file_open_fd patience gz (sf_block_size s) (sf_len s)
                                   sparse (i32 chunks) crc fd in
              let '(r, fd) := write_opened ops env s bs out in (r, h, fd)
          | _ => (Crash, h, fd)
          end
      | (r, h) => (r, h, fd)
      end
  | _ => (Crash, h, fd)
  end.

(** [libsparse/sparse.cpp:168-184 sparse_file_callback] *)
Definition sparse_file_callback {P} (write : option bytes → Z → IO P unit) (s : sparse_file)
    (sparse crc : bool) (h : heap) (priv : P) : outcome unit * P :=
  match (bs ← sf_blocks h s; chunks ← sparse_count_chunks s bs; Ret (bs, chunks)) with
  | Ret (bs, chunks) =>
      let '(ops, out) := output_file_open_callback write priv (sf_block_size s) (sf_len s)
                           sparse (i32 chunks) crc in
      write_opened ops env s bs out
  | _ => (Crash, priv)
  end.

(** The callback of [sparse_file_foreach_chunk] is told the blocks a write is for.
    [libsparse/sparse.cpp:186-197 chunk_data, foreach_chunk_write] *)
Record chunk_data (P : Type) := mkChunkData {
  cd_priv : P;
  cd_block : Z;
  cd_nr_blocks : Z;
}.
Arguments mkChunkData {P}.
Arguments cd_priv {P}.
Arguments cd_block {P}.
Arguments cd_nr_blocks {P}.
Definition foreach_chunk_write {P} (write : option bytes → Z → Z → Z → IO P unit)
    (data : option bytes) (len : Z) : IO (chunk_data P) unit := λ c,
  let '(r, p) := write data len (cd_block c) (cd_nr_blocks c) (cd_priv c) in
  (r, mkChunkData p (cd_block c) (cd_nr_blocks c)).
Fixpoint foreach_blocks {P} (ops : output_file_ops (chunk_data P)) (block_size : Z)
    (bs : list backed_block) : IO (output_file (chunk_data P)) unit :=
  match bs with
  | [] => mret ()
  | b :: bs =>
      _ ← on_dest (λ c, (Ret (), mkChunkData (cd_priv c) (bb_block b)
                                   (u32 (u64 (bb_len b - 1) / block_size + 1))));
      _ ← sparse_file_write_block ops env b;
      foreach_blocks ops block_size bs
  end.
(** A failed write returns without closing the output.
    [libsparse/sparse.cpp:199-228 sparse_file_foreach_chunk] *)
Definition sparse_file_foreach_chunk {P} (write : option bytes → Z → Z → Z → IO P unit)
    (s : sparse_file) (sparse crc : bool) (h : heap) (priv : P) : outcome unit * P :=
  match (bs ← sf_blocks h s; chunks ← sparse_count_chunks s bs; Ret (bs, chunks)) with
  | Ret (bs, chunks) =>
      match output_file_open_callback (foreach_chunk_write write) (mkChunkData priv 0 0)
              (sf_block_size s) (sf_len s) sparse (i32 chunks) crc with
      | (ops, (Ret _, out)) =>
          let '(r, out) := (_ ← foreach_blocks ops (sf_block_size s) bs;
                            _ ← try_ (output_file_close ops); mret ()) out in
          (r, cd_priv (of_dest out))
      | (_, (r, out)) => (r, cd_priv (of_dest out))
      end
  | _ => (Crash, priv)
  end.

(** [libsparse/sparse.cpp:230-234 out_counter_write] *)
Definition out_counter_write (data : option bytes) (len : Z) : IO Z unit :=
  λ count, (Ret (), i64 (count + len)).
(** [libsparse/sparse.cpp:236-257 sparse_file_len] *)
Definition sparse_file_len (s : sparse_file) (sparse crc : bool) (h : heap) : outcome Z :=
  match sparse_file_callback out_counter_write s sparse crc h 0 with
  | (Ret _, count) => Ret count
  | (Reject, _) => Reject
  | (Crash, _) => Crash
  end.

(** ** Distributing the blocks over smaller files *)

(** The size of a block in the counting output, without the error that
    [sparse_file_write_block] may report. *)
Definition counted_size (out : output_file Z) (last_block : Z) (b : backed_block)
    : outcome (output_file Z) :=
  let count := if decide (last_block < bb_block b) then CHUNK_HEADER_LEN else 0 in
  let out := mkOut (cur_out_ptr out) (chunk_cnt out) (crc32 out) (of_sparse out) (use_crc out)
               (of_block_size out) (of_len out) count in
  match sparse_file_write_block (callback_file_ops out_counter_write) env b out with
  | (Ret _, out) => Ret out
  | (Reject, _) => Reject
  | (Crash, _) => Crash
  end.

(** Where the loop of [move_chunks_up_to_len] stops: the node after which the
    list is cut, and the node at which the next call resumes; [None] as result
    is the failure of a write. *)
Fixpoint count_up_to (fuel : nat) (from : backed_block_list) (block_size len : Z)
    (out : output_file Z) (p last_bb : option loc) (last_block file_len : Z) (h : heap)
    : outcome (option (option loc) * option loc * heap) :=
  match p, fuel with
  | None, _ => Ret (Some last_bb, None, h)
  | Some bb, S fuel =>
      b ← access (h !! bb);
      match counted_size out last_block b with
      | Crash => Crash
      | Reject => Ret (None, None, h)
      | Ret out =>
          let count := of_dest out in
          if decide (len < i64 (file_len + count)) then
            let file_len := i64 (file_len + CHUNK_HEADER_LEN) in
            if decide (last_bb = None ∨ len / 8 < i64 (len - file_len)) then
              match backed_block_split calloc_ok from bb (u32 (len - file_len)) h with
              | Ret h => Ret (Some (Some bb), Some bb, h)
              | Reject => Ret (Some (Some bb), Some bb, h)
              | Crash => Crash
              end
            else Ret (Some last_bb, Some bb, h)
          else
            count_up_to fuel from block_size len out (bb_next b) (Some bb)
              (block_end block_size b) (i64 (file_len + count)) h
      end
  | Some _, O => Crash
  end.

(** The space a file needs besides its chunks.
    [libsparse/sparse.cpp:278-278 move_chunks_up_to_len, overhead] *)
Definition overhead : Z := SPARSE_HEADER_LEN + 2 * CHUNK_HEADER_LEN + 4.

(** [len] is an [unsigned int], compared with [int64_t] sizes.
    [libsparse/sparse.cpp:263-324 move_chunks_up_to_len] *)
Definition move_chunks_up_to_len (from to : sparse_file) (len : Z) (h : heap)
    : outcome (sparse_file * sparse_file * option loc * heap) :=
  let len := u32 (len - overhead) in
  let start := data_blocks (sf_list from) in
  match output_file_open_callback out_counter_write 0 (sf_block_size to) (sf_len to)
          true 0 false with
  | (_, (Crash, _)) => Crash
  | (_, (Reject, _)) => Reject
  | (_, (Ret _, out)) =>
      '(cut, bb, h) ← count_up_to (S (size h)) (sf_list from) (sf_block_size to) len out
                        start None 0 0 h;
      match cut with
      | None => Ret (from, to, None, h)
      | Some last_bb =>
          '(lf, lt, h) ← backed_block_list_move (sf_list from) (sf_list to) start last_bb h;
          Ret (sf_set_list from lf, sf_set_list to lt, bb, h)
      end
  end.

(** The loop of [sparse_file_resparse]: the files so far, their number, and the
    file that collects what has no place in [out_s].
    [libsparse/sparse.cpp:338-358 sparse_file_resparse, loop] *)
Fixpoint resparse_loop (fuel : nat) (in_s tmp : sparse_file) (max_len : Z)
    (out_s : list sparse_file) (c out_s_count : Z) (h : heap)
    : outcome (sparse_file * sparse_file * list sparse_file * Z * heap) :=
  match fuel with
  | O => Crash
  | S fuel =>
      let s := sparse_file_new (sf_block_size in_s) (sf_len in_s) in
      '(in_s, s, bb, h) ← move_chunks_up_to_len in_s s max_len h;
      '(tmp, out_s, h) ←
        (if decide (c < out_s_count) then Ret (tmp, out_s ++ [s], h)
         else
           '(ls, lt, h) ← backed_block_list_move (sf_list s) (sf_list tmp) None None h;
           h ← sparse_file_destroy (sf_set_list s ls) h;
           Ret (sf_set_list tmp lt, out_s, h));
      match bb with
      | Some _ => resparse_loop fuel in_s tmp max_len out_s (c + 1) out_s_count h
      | None => Ret (in_s, tmp, out_s, c + 1, h)
      end
  end.
(** The result is the number of files needed; those beyond [out_s_count] go back
    into [in_s].
    [libsparse/sparse.cpp:326-365 sparse_file_resparse] *)
Definition sparse_file_resparse (fuel : nat) (in_s : sparse_file) (max_len out_s_count : Z)
    (h : heap) : outcome (sparse_file * list sparse_file * Z * heap) :=
  let tmp := sparse_file_new (sf_block_size in_s) (sf_len in_s) in
  '(in_s, tmp, out_s, c, h) ← resparse_loop fuel in_s tmp max_len [] 0 out_s_count h;
  '(lt, li, h) ← backed_block_list_move (sf_list tmp) (sf_list in_s) None None h;
  h ← sparse_file_destroy (sf_set_list tmp lt) h;
  Ret (sf_set_list in_s li, out_s, c, h).
End Entry.
