(* ===== verification/SparseImage.v ===== *)
(** * What a sparse image contains

    The bytes that [sparse_file_write] and [sparse_file_callback] put out for a list
    of chunks, in the sparse format and without a checksum: a header, then for every
    chunk the hole before it and the chunk itself. *)
From S2P Require Import Prelude Bytes Device SparseFormat BackedBlock BlockList SparseOutput SparseFile.
From coqutil Require Import Byte.

(** ** Bytes behind a chunk *)

(** Byte [i] of a little-endian word. *)
Definition word_byte (v i : Z) : byte := default Byte.x00 (c_enc c_u32 v !! Z.to_nat i).

(** [byte_of] says what is in memory and in the files the environment gives access
    to. *)
Record env_ok (env : Env) (byte_of : source → byte) : Prop := {
  ev_mem a n : mem env a n = (λ i, byte_of (FromMemory (a + i))) <$> seqZ 0 n;
  ev_map fd off n : 0 ≤ off → 0 < n → off + n < 2 ^ 63 →
    map_fd env fd off n = Some ((λ i, byte_of (FromFd fd (off + i))) <$> seqZ 0 n);
  ev_open f : ∃ fd, open_file env f = Some fd ∧ ∀ o, byte_of (FromFile f o) = byte_of (FromFd fd o);
  ev_fill v i : byte_of (FromFill v i) = word_byte v i;
}.

Section Image.
Context (byte_of : source → byte) (bsz : Z).

Definition chunk_bytes (c : chunk) : bytes := (λ i, byte_of (source_at c i)) <$> seqZ 0 (ck_len c).
(** The blocks a chunk takes. *)
Definition ck_blocks (c : chunk) : Z := (ck_len c + bsz - 1) / bsz.
Definition padding (c : chunk) : Z := ck_blocks c * bsz - ck_len c.

(** A chunk of the image. *)
Definition hole (blocks : Z) : bytes := chunk_header CHUNK_TYPE_DONT_CARE blocks CHUNK_HEADER_LEN.
Definition image_chunk (c : chunk) : bytes :=
  match ck_from c with
  | BACKED_BLOCK_FILL v =>
      chunk_header CHUNK_TYPE_FILL (ck_blocks c) (CHUNK_HEADER_LEN + 4) ++ c_enc c_u32 v
  | _ =>
      chunk_header CHUNK_TYPE_RAW (ck_blocks c) (CHUNK_HEADER_LEN + ck_blocks c * bsz) ++
      chunk_bytes c ++ zeroes (Z.to_nat (padding c))
  end.
(** The chunks of a list that starts at block [last], up to block [end_]; with the
    number of chunks. *)
Definition gap (from to : Z) : bytes := if decide (from < to) then hole (to - from) else [].
Fixpoint image_body (l : list chunk) (last end_ : Z) : bytes :=
  match l with
  | [] => gap last end_
  | c :: l => gap last (ck_block c) ++ image_chunk c ++ image_body l (ck_block c + ck_blocks c) end_
  end.
Definition gaps (from to : Z) : Z := if decide (from < to) then 1 else 0.
Fixpoint image_chunks (l : list chunk) (last end_ : Z) : Z :=
  match l with
  | [] => gaps last end_
  | c :: l => gaps last (ck_block c) + 1 + image_chunks l (ck_block c + ck_blocks c) end_
  end.

(** ** Output that appends *)

Context {W : Type} (ready : W → Prop) (written : W → bytes) (ops : output_file_ops W).
(** A back end whose [write] stores everything behind what it stored before. *)
Definition appends : Prop := ∀ data w, ready w → ∃ w',
  op_write ops data w = (Ret (), w') ∧ ready w' ∧ written w' = written w ++ data.
Context (write_law : appends).

(** An output file in the sparse format without a checksum. *)
Definition plain_sparse (o : output_file W) : Prop :=
  of_sparse o = true ∧ use_crc o = false ∧ of_block_size o = bsz ∧ ready (of_dest o).

(** [m] puts out [data] and returns [a]. *)
Definition outputs {A} (m : IO (output_file W) A) (data : bytes) (a : A) : Prop :=
  ∀ o, plain_sparse o → ∃ o', m o = (Ret a, o') ∧ plain_sparse o' ∧
    written (of_dest o') = written (of_dest o) ++ data.

Lemma outputs_bind {A B} (m : IO _ A) (f : A → IO _ B) d1 d2 a b :
  outputs m d1 a → outputs (f a) d2 b → outputs (m ≫= f) (d1 ++ d2) b.
Proof using Type.
  intros Hm Hf o Ho. destruct (Hm o Ho) as (o1 & E1 & Ho1 & W1).
  destruct (Hf o1 Ho1) as (o2 & E2 & Ho2 & W2). exists o2.
  rewrite (io_bind_eq _ _ _ _ _ E1). split_and!; [done|done|]. by rewrite W2, W1, (assoc_L (++)).
Qed.
Lemma outputs_ret {A} (a : A) : outputs (mret a) [] a.
Proof using Type. intros o Ho. exists o. by rewrite app_nil_r. Qed.
(** A first step that puts out nothing. *)
Lemma outputs_silent {A B} (m : IO _ A) (f : A → IO _ B) d a b :
  outputs m [] a → outputs (f a) d b → outputs (m ≫= f) d b.
Proof using Type. intros Hm Hf. by apply (outputs_bind m f [] d a b). Qed.
Lemma outputs_file {B} (f : output_file W → IO _ B) d b :
  (∀ o, plain_sparse o → outputs (f o) d b) → outputs (o ← the_file; f o) d b.
Proof using Type. intros Hf o Ho. exact (Hf o Ho o Ho). Qed.
Lemma outputs_lift {A} (m : outcome A) a : m = Ret a → outputs (lift m) [] a.
Proof using Type. intros -> o Ho. exists o. by rewrite app_nil_r. Qed.
Lemma outputs_try {A} (m : IO _ A) d a : outputs m d a → outputs (try_ m) d (Some a).
Proof using Type.
  intros Hm o Ho. destruct (Hm o Ho) as (o' & E & Ho' & Hw). exists o'. unfold try_. by rewrite E.
Qed.
Lemma outputs_emit data : outputs (emit ops data) data ().
Proof using write_law.
  intros o (?&?&?&Hr). unfold emit, on_dest.
  destruct (write_law data (of_dest o) Hr) as (w' & -> & Hr' & Hw). eexists. by split_and!.
Qed.
Lemma outputs_advance n : outputs (advance n) [] ().
Proof using Type.
  intros o Ho. eexists. split; [done|]. split; [done|]. by rewrite app_nil_r.
Qed.
Lemma outputs_last {A} (m : IO _ A) d a n :
  outputs m d a → outputs (_ ← m; advance n) d ().
Proof using Type.
  intros Hm. rewrite <- (app_nil_r d). by eapply outputs_bind, outputs_advance.
Qed.

(** ** Loops *)

Lemma zeroes_add n m : zeroes (n + m) = zeroes n ++ zeroes m.
Proof using Type. apply replicate_add. Qed.

(** One turn of a loop in pieces: the fuel left is enough. *)
Lemma pieces_step size len fuel :
  0 < size → size < len → (Z.to_nat (len / size) < S fuel)%nat →
  (Z.to_nat ((len - size) / size) < fuel)%nat.
Proof using Type.
  intros Hs Hl Hf. replace (len - size) with (len + (-1) * size) by lia.
  rewrite Z.div_add by lia. assert (1 ≤ len / size) by (apply Z.div_le_lower_bound; lia). lia.
Qed.

Lemma for_pieces_zeroes fuel size len :
  0 < size → 0 ≤ len → (Z.to_nat (len / size) < fuel)%nat →
  outputs (for_pieces fuel size len (λ n, emit ops (zeroes (Z.to_nat n)))) (zeroes (Z.to_nat len)) ().
Proof using write_law.
  intros Hs. revert len. induction fuel as [|fuel IH]; intros len Hl Hf; [lia|]. simpl.
  case_decide as Hz; [subst; apply outputs_ret|].
  replace (zeroes (Z.to_nat len)) with
    (zeroes (Z.to_nat (len `min` size)) ++ zeroes (Z.to_nat (len - len `min` size))).
  2:{ rewrite <- zeroes_add. f_equal. lia. }
  apply outputs_bind with (); [apply outputs_emit|].
  destruct (decide (len ≤ size)) as [Hle|Hgt].
  - rewrite Z.min_l by lia. rewrite Z.sub_diag. destruct fuel; apply outputs_ret.
  - rewrite Z.min_r by lia. apply IH; [lia|]. apply pieces_step; lia.
Qed.
Lemma outputs_zeroes n : 0 ≤ n → outputs (emit_zeroes ops n) (zeroes (Z.to_nat n)) ().
Proof using write_law.
  intros Hn. apply for_pieces_zeroes; [done|done|]. unfold pieces_fuel. lia.
Qed.

Context (env : Env) (memory : env_ok env byte_of).

(** The bytes of an open file. *)
Abbreviation fd_bytes fd off n := ((λ i, byte_of (FromFd fd (off + i))) <$> seqZ 0 n).

Lemma fd_bytes_split fd off n m : 0 ≤ n → 0 ≤ m →
  fd_bytes fd off (n + m) = fd_bytes fd off n ++ fd_bytes fd (off + n) m.
Proof using Type.
  intros Hn Hm. rewrite seqZ_app, fmap_app by lia. f_equal. simpl.
  replace (seqZ (0 + n) m) with (Z.add n <$> seqZ 0 m) by (rewrite fmap_add_seqZ; f_equal; lia).
  rewrite <- list_fmap_compose.
  apply list_fmap_ext. intros _ i _. simpl. by rewrite (assoc_L Z.add).
Qed.

Lemma outputs_fd_range (write : bytes → IO (output_file W) unit) fuel fd off len ret :
  (∀ d, outputs (write d) d ()) →
  0 ≤ len → 0 ≤ off → off + len < 2 ^ 63 → (Z.to_nat (len / kMaxMmapSize) < fuel)%nat →
  ∃ ret', outputs (write_fd_chunk_range env fuel fd off len write ret)
    (fd_bytes fd off len) (true, ret').
Proof using memory.
  intros Hwrite. revert off len ret. set (M := kMaxMmapSize).
  assert (HM : 0 < M < 2 ^ 63) by done.
  induction fuel as [|fuel IH]; intros off len ret Hl Ho Hb Hf; [lia|]. simpl. fold M.
  case_decide as Hz; [subst; eexists; apply outputs_ret|].
  rewrite (ev_map _ _ memory) by lia.
  assert (Hrest : ∃ ret', outputs
    (write_fd_chunk_range env fuel fd (i64 (off + M `min` len)) (len - M `min` len) write (Some true))
    (fd_bytes fd (off + M `min` len) (len - M `min` len)) (true, ret')).
  { destruct (decide (len ≤ M)) as [Hle|Hgt].
    - rewrite Z.min_r, Z.sub_diag by lia. exists (Some true). destruct fuel; apply outputs_ret.
    - rewrite Z.min_l, i64_small by lia. apply IH; try lia. apply pieces_step; lia. }
  destruct Hrest as [ret' Hrest]. exists ret'.
  assert (Hcut : fd_bytes fd off len =
    fd_bytes fd off (M `min` len) ++ fd_bytes fd (off + M `min` len) (len - M `min` len)).
  { rewrite <- fd_bytes_split by lia. do 2 f_equal. lia. }
  rewrite Hcut. eapply outputs_bind; [apply outputs_try, Hwrite|exact Hrest].
Qed.

(** ** Chunks *)

Context (bsz_ok : 0 < bsz < 2 ^ 32).

Lemma padding_bounds c : 0 < ck_len c → 0 ≤ padding c < bsz ∧ 0 < ck_blocks c.
Proof using bsz_ok.
  intros Hl. unfold padding, ck_blocks.
  pose proof (Z.div_mod (ck_len c + bsz - 1) bsz ltac:(lia)).
  pose proof (Z.mod_pos_bound (ck_len c + bsz - 1) bsz ltac:(lia)).
  split; [lia|]. apply Z.div_str_pos. lia.
Qed.
Lemma rounded c : 0 < ck_len c < 2 ^ 63 → ck_blocks c * bsz < 2 ^ 63 →
  DIV_ROUND_UP (ck_len c) bsz = ck_blocks c ∧ ALIGN (ck_len c) bsz = ck_blocks c * bsz ∧
  ALIGN (ck_len c) bsz / bsz = ck_blocks c ∧
  u64 (ALIGN (ck_len c) bsz - ck_len c) = padding c.
Proof using bsz_ok.
  intros Hl Hb. destruct (padding_bounds c) as [Hp Hc]; [lia|].
  assert (E : DIV_ROUND_UP (ck_len c) bsz = ck_blocks c).
  { unfold DIV_ROUND_UP. by rewrite u64_small by lia. }
  assert (E' : ALIGN (ck_len c) bsz = ck_blocks c * bsz).
  { unfold ALIGN. rewrite E, u64_small by lia. lia. }
  rewrite E'. split_and!; [done|done|by rewrite Z.div_mul by lia|].
  rewrite u64_small; unfold padding in *; lia.
Qed.

Lemma outputs_check P `{Decision P} {B} (f : unit → IO _ B) d b :
  P → outputs (f ()) d b → outputs (lift (CHECK P) ≫= f) d b.
Proof using Type. intros HP. apply outputs_silent. apply outputs_lift. by apply CHECK_True. Qed.

(** A chunk small enough that its end has a 63-bit offset. *)
Record bounded (c : chunk) : Prop := {
  bd_len : 0 < ck_len c < 2 ^ 63;
  bd_end : ck_blocks c * bsz < 2 ^ 63;
  bd_offset : match ck_from c with
    | BACKED_BLOCK_FILE _ o | BACKED_BLOCK_FD _ o => 0 ≤ o ∧ o + ck_len c < 2 ^ 63
    | _ => True
    end;
}.

Lemma image_raw c : (∀ v, ck_from c ≠ BACKED_BLOCK_FILL v) →
  image_chunk c = chunk_header CHUNK_TYPE_RAW (ck_blocks c) (CHUNK_HEADER_LEN + ck_blocks c * bsz) ++
    chunk_bytes c ++ zeroes (Z.to_nat (padding c)).
Proof using Type. unfold image_chunk. intros Hc. by destruct (ck_from c) as [| | |v]; [..|destruct (Hc v)]. Qed.

(** What follows the data of a raw chunk. *)
Lemma outputs_tail c : bounded c →
  outputs (_ ← emit_zeroes ops (padding c); _ ← mret (); advance (ck_blocks c * bsz))
    (zeroes (Z.to_nat (padding c))) ().
Proof using bsz_ok write_law.
  intros Hc. destruct (padding_bounds c) as [Hp _]; [by destruct (bd_len _ Hc)|].
  rewrite <- (app_nil_r (zeroes _)). eapply outputs_bind; [apply outputs_zeroes; lia|].
  eapply outputs_silent; [apply outputs_ret|apply outputs_advance].
Qed.

Lemma outputs_data c addr : ck_from c = BACKED_BLOCK_DATA addr → bounded c →
  outputs (write_sparse_data_chunk ops env (ck_len c) addr) (image_chunk c) ().
Proof using bsz_ok write_law memory.
  intros Hf Hc. destruct (rounded c) as (_ & E2 & E3 & E4); [by destruct Hc..|].
  apply outputs_file. intros o (_ & Hcrc & -> & _). rewrite Hcrc.
  apply outputs_check; [lia|]. cbv zeta. rewrite E4, E3, E2.
  rewrite image_raw by (intros; by rewrite Hf).
  eapply outputs_bind; [apply outputs_emit|].
  eapply outputs_bind; [|by apply outputs_tail].
  replace (chunk_bytes c) with (mem env addr (ck_len c)); [apply outputs_emit|].
  rewrite (ev_mem _ _ memory). unfold chunk_bytes, source_at. by rewrite Hf.
Qed.

Lemma outputs_fd c fd off : bounded c →
  chunk_bytes c = fd_bytes fd off (ck_len c) → (∀ v, ck_from c ≠ BACKED_BLOCK_FILL v) →
  0 ≤ off ∧ off + ck_len c < 2 ^ 63 →
  outputs (write_sparse_fd_chunk ops env (ck_len c) fd off) (image_chunk c) ().
Proof using bsz_ok write_law memory.
  intros Hc Hd Hf [Ho Hb]. destruct (rounded c) as (_ & E2 & E3 & E4); [by destruct Hc..|].
  pose proof (bd_len _ Hc).
  apply outputs_file. intros o (_ & Hcrc & -> & _). rewrite Hcrc.
  apply outputs_check; [lia|]. cbv zeta. rewrite E4, E3, E2.
  rewrite image_raw by done. eapply outputs_bind; [apply outputs_emit|].
  destruct (outputs_fd_range (λ d, _ ← emit ops d; mret ())
    (pieces_fuel kMaxMmapSize (ck_len c)) fd off (ck_len c) None) as [ret Hr]; [|lia..| |].
  { intros d. rewrite <- (app_nil_r d) at 2. eapply outputs_bind, outputs_ret. apply outputs_emit. }
  { unfold pieces_fuel. lia. }
  eapply outputs_bind; [rewrite Hd; exact Hr|]. simpl.
  eapply outputs_silent; [by apply outputs_lift, require_True|]. by apply outputs_tail.
Qed.

Lemma outputs_fill c v : ck_from c = BACKED_BLOCK_FILL v → bounded c →
  outputs (write_sparse_fill_chunk ops (ck_len c) v) (image_chunk c) ().
Proof using bsz_ok write_law.
  intros Hf Hc. destruct (rounded c) as (_ & E2 & E3 & E4); [by destruct Hc..|].
  apply outputs_file. intros o (_ & Hcrc & -> & _). rewrite Hcrc.
  apply outputs_check; [lia|]. cbv zeta. rewrite E3, E2.
  unfold image_chunk. rewrite Hf. eapply outputs_bind; [apply outputs_emit|].
  rewrite <- (app_nil_r (c_enc _ _)). eapply outputs_bind; [apply outputs_emit|].
  eapply outputs_silent; [apply outputs_ret|apply outputs_advance].
Qed.

(** A hole of whole blocks. *)
Lemma outputs_skip n : 0 ≤ n →
  outputs (write_skip_chunk ops (n * bsz)) (hole n) ().
Proof using bsz_ok write_law.
  intros Hn. apply outputs_file. intros o (-> & _ & _ & _).
  apply outputs_file. intros o' (_ & _ & -> & _).
  apply outputs_check; [lia|].
  eapply outputs_silent; [apply outputs_lift, require_True, Z.mod_mul; lia|].
  rewrite Z.div_mul by lia. eapply outputs_last, outputs_emit.
Qed.

(** [sparse_file_write_block] puts out the chunk its block stands for. *)
Lemma outputs_block b : bounded (val b) →
  outputs (sparse_file_write_block ops env b) (image_chunk (val b)) ().
Proof using bsz_ok write_law memory.
  intros Hc. unfold sparse_file_write_block. pose proof (bd_offset _ Hc) as Ho. simpl in Ho.
  change (bb_len b) with (ck_len (val b)). change (bb_backing b) with (ck_from (val b)) in *.
  destruct (ck_from (val b)) as [addr|f off|fd off|v] eqn:Ef.
  - apply outputs_file. intros o (-> & _). by apply outputs_data.
  - destruct (ev_open _ _ memory f) as (fd & Eo & Hsame).
    eapply outputs_silent; [apply outputs_lift; by rewrite Eo|].
    apply outputs_file. intros o (-> & _). apply outputs_fd; [done| |by rewrite Ef|done].
    unfold chunk_bytes, source_at. rewrite Ef. by setoid_rewrite Hsame.
  - apply outputs_file. intros o (-> & _). apply outputs_fd; [done| |by rewrite Ef|done].
    unfold chunk_bytes, source_at. by rewrite Ef.
  - apply outputs_file. intros o (-> & _). by apply outputs_fill.
Qed.

(** ** A whole list *)

(** Chunks in order between the blocks [last] and [n]. *)
Fixpoint fits (l : list chunk) (last n : Z) : Prop :=
  match l with
  | [] => last ≤ n
  | c :: l => last ≤ ck_block c ∧ bounded c ∧ fits l (ck_block c + ck_blocks c) n
  end.

Lemma fits_le l last n : fits l last n → last ≤ n.
Proof using bsz_ok.
  revert last. induction l as [|c l IH]; intros last; simpl; [done|].
  intros (H1 & Hc & H2%IH). destruct (padding_bounds c); [by destruct (bd_len _ Hc)|]. lia.
Qed.
Lemma image_chunks_bound l last n : fits l last n → 0 ≤ image_chunks l last n ≤ n - last.
Proof using bsz_ok.
  revert last. induction l as [|c l IH]; intros last; simpl.
  - intros. unfold gaps. case_decide; lia.
  - intros (H1 & Hc & H2%IH). destruct (padding_bounds c); [by destruct (bd_len _ Hc)|].
    unfold gaps. case_decide; lia.
Qed.

(** The chunks of a well-formed list fit in the blocks their ends stay within. *)
Lemma laid_out_fits l last n :
  laid_out bsz l → Forall (λ c, last ≤ ck_block c) l → Forall (λ c, ck_end bsz c ≤ n * bsz) l →
  last ≤ n → n * bsz < 2 ^ 63 → fits l last n.
Proof using bsz_ok.
  revert last. induction l as [|c l IH]; intros last; simpl; [done|].
  intros (Hc & Hl & Ho)%laid_out_cons [H1 _]%Forall_cons [H2 H3]%Forall_cons Hle Hn.
  destruct (padding_bounds c) as [Hp Hb]; [by destruct (cok_len _ _ Hc)|].
  pose proof (cok_block _ _ Hc). unfold padding in Hp. unfold ck_end, ck_start in *.
  assert (Hcn : ck_block c + ck_blocks c ≤ n) by nia.
  split_and!; [done|split; [apply Hc|nia|apply Hc]|].
  apply IH; [done| |done|done|done]. eapply Forall_impl; [exact Ho|]. simpl. intros. nia.
Qed.

Lemma block_end_val b : bounded (val b) → 0 ≤ bb_block b →
  bb_block b + ck_blocks (val b) < 2 ^ 32 →
  block_end bsz b = bb_block b + ck_blocks (val b).
Proof using bsz_ok.
  intros Hb H0 Hr. destruct (rounded (val b)) as [E _]; [by destruct Hb..|].
  destruct (padding_bounds (val b)) as [_ Hp]; [by destruct (bd_len _ Hb)|].
  unfold block_end. change (bb_len b) with (ck_len (val b)). rewrite E. apply u32_small. lia.
Qed.

Lemma outputs_blocks bs last n :
  fits (val <$> bs) last n → 0 ≤ last → n < 2 ^ 32 → n * bsz < 2 ^ 63 →
  ∃ d lb, outputs (write_blocks ops env bsz bs last) d lb ∧ 0 ≤ lb ≤ n ∧
    image_body (val <$> bs) last n = d ++ gap lb n.
Proof using bsz_ok write_law memory.
  intros Hf Hl Hn Hs. revert last Hf Hl. induction bs as [|b bs IH]; intros last; csimpl.
  { intros. exists [], last. split; [apply outputs_ret|]. done. }
  intros (H1 & Hb & Hf) Hl. pose proof (fits_le _ _ _ Hf) as Hle.
  destruct (padding_bounds (val b)) as [_ Hp]; [by destruct (bd_len _ Hb)|].
  simpl in Hle. destruct (IH _ Hf ltac:(simpl; lia)) as (d & lb & Ho & Hlb & E).
  exists (gap last (bb_block b) ++ image_chunk (val b) ++ d), lb.
  split_and!; [|lia|lia|by rewrite E, <- !(assoc_L (++))].
  eapply outputs_bind with (a := if decide (last < bb_block b) then Some () else None).
  { unfold gap. case_decide; [|apply outputs_ret].
    rewrite u64_small by nia. apply outputs_try, outputs_skip. lia. }
  eapply outputs_bind; [by apply outputs_block|].
  rewrite block_end_val; [exact Ho|done|lia|simpl in *; lia].
Qed.

Lemma count_chunks_ok bs last n k :
  fits (val <$> bs) last n → 0 ≤ last → n < 2 ^ 32 → 0 ≤ k ≤ last →
  ∃ lb k', count_chunks bsz bs last k = (lb, k') ∧ 0 ≤ k' ∧
    k' + gaps lb n = k + image_chunks (val <$> bs) last n.
Proof using bsz_ok.
  intros Hf Hl Hn. revert last k Hf Hl. induction bs as [|b bs IH]; intros last k; csimpl.
  { intros. exists last, k. split_and!; [done|lia|done]. }
  intros (H1 & Hb & Hf) Hl Hk. pose proof (fits_le _ _ _ Hf) as Hle.
  destruct (padding_bounds (val b)) as [_ Hp]; [by destruct (bd_len _ Hb)|]. simpl in Hle, H1.
  rewrite block_end_val by (done || lia).
  set (k1 := u32 ((if decide (last < bb_block b) then u32 (k + 1) else k) + 1)).
  assert (Hk1 : k1 = k + gaps last (bb_block b) + 1 ∧ k1 ≤ bb_block b + ck_blocks (val b)).
  { unfold k1, gaps. case_decide; rewrite ?(u32_small (k + 1)), ?u32_small by lia; lia. }
  destruct (IH (bb_block b + ck_blocks (val b)) k1 Hf) as (lb & k' & E & H0 & Ek); [lia| |].
  { unfold gaps in *. case_decide; lia. }
  exists lb, k'. split_and!; [done|done|]. simpl in *. lia.
Qed.

(** The image of [n] blocks. *)
Definition image_file (l : list chunk) (n : Z) : bytes :=
  c_enc sparse_header_codec (image_header bsz (n * bsz) (image_chunks l 0 n) false) ++
  image_body l 0 n.

Context (s : sparse_file) (bs : list backed_block) (n : Z).
Context (s_bsz : sf_block_size s = bsz) (s_len : sf_len s = n * bsz).
Context (s_fits : fits (val <$> bs) 0 n) (n_ok : 0 ≤ n < 2 ^ 32) (len_ok : n * bsz + bsz < 2 ^ 63).
Abbreviation l := (val <$> bs).

Lemma len_in_blocks : i64 (n * bsz + bsz - 1) `quot` bsz = n.
Proof using bsz_ok n_ok len_ok.
  rewrite i64_small by nia. rewrite Z.quot_div_nonneg by nia.
  replace (n * bsz + bsz - 1) with (bsz - 1 + n * bsz) by lia.
  rewrite Z.div_add by lia. rewrite Z.div_small by lia. lia.
Qed.

Lemma sparse_count_chunks_ok : sparse_count_chunks s bs = Ret (image_chunks l 0 n).
Proof using bsz_ok n_ok len_ok s_bsz s_len s_fits.
  unfold sparse_count_chunks. rewrite s_bsz, CHECK_True by lia. simpl.
  destruct (count_chunks_ok bs 0 n 0 s_fits) as (lb & k & -> & Hk & E); [lia..|].
  unfold len_blocks. rewrite s_len, len_in_blocks. f_equal.
  pose proof (image_chunks_bound _ _ _ s_fits). unfold gaps in E.
  case_decide; [rewrite u32_small by lia|]; lia.
Qed.

Lemma outputs_all_blocks : outputs (write_all_blocks ops env s bs) (image_body l 0 n) ().
Proof using bsz_ok n_ok len_ok s_bsz s_len s_fits write_law memory.
  destruct (outputs_blocks bs 0 n s_fits) as (d & lb & Ho & Hlb & E); [lia..|]. rewrite E.
  unfold write_all_blocks. rewrite s_bsz. eapply outputs_bind; [exact Ho|].
  replace (sf_len s - lb * bsz) with ((n - lb) * bsz) by (rewrite s_len; lia).
  cbv zeta. rewrite i64_small by nia. apply outputs_check; [nia|].
  unfold gap. case_decide as Hd; [rewrite decide_True by nia|rewrite decide_False by nia; apply outputs_ret].
  rewrite <- (app_nil_r (hole _)). eapply outputs_bind; [apply outputs_try, outputs_skip; lia|].
  apply outputs_ret.
Qed.

Lemma write_opened_ok w chunks : ready w → chunks = i32 (image_chunks l 0 n) →
  ∃ w', write_opened ops env s bs (output_file_init ops bsz (n * bsz) true chunks false w)
    = (Ret (), w') ∧ ready w' ∧ written w' = written w ++ image_file l n.
Proof using bsz_ok n_ok len_ok s_bsz s_len s_fits write_law memory.
  intros Hw ->. pose proof (image_chunks_bound _ _ _ s_fits) as Hc.
  assert (Eh : image_header bsz (n * bsz) (i32 (image_chunks l 0 n)) false =
               image_header bsz (n * bsz) (image_chunks l 0 n) false).
  { unfold image_header. by rewrite u32_i32. }
  set (o := mkOut 0 0 0 true false bsz (n * bsz) w).
  assert (Ho : plain_sparse o) by done.
  assert (Hinit : outputs (_ ← lift (CHECK (bsz ≠ 0));
    emit ops (c_enc sparse_header_codec (image_header bsz (n * bsz) (i32 (image_chunks l 0 n)) false)))
    (c_enc sparse_header_codec (image_header bsz (n * bsz) (image_chunks l 0 n) false)) ()).
  { rewrite Eh. apply outputs_check; [lia|apply outputs_emit]. }
  unfold output_file_init, write_opened. fold o.
  destruct (Hinit o Ho) as (o1 & -> & Ho1 & W1).
  destruct (outputs_all_blocks o1 Ho1) as (o2 & -> & Ho2 & W2).
  assert (Hclose : outputs (output_file_close ops) [] ()).
  { apply outputs_file. intros ? (-> & _). apply outputs_file. intros ? (_ & -> & _). apply outputs_ret. }
  destruct (Hclose o2 Ho2) as (o3 & -> & Ho3 & W3).
  exists (of_dest o3). split_and!; [done|apply Ho3|].
  rewrite W3, W2, W1, app_nil_r. by rewrite <- (assoc_L (++)).
Qed.
End Image.
