(* ===== verification/SparseRead.v ===== *)
(** * Reading images ([libsparse/sparse_read.cpp])

    Sparse images are read from a source (a descriptor or a memory buffer) chunk
    by chunk into the list of a sparse file; plain files block by block, or by
    their data ranges.  A failed read keeps the state it left.  The copy buffer
    is taken to be allocated. *)
From S2P Require Import Prelude Bytes Device SparseFormat BackedBlock SparseOutput SparseFile.
From coqutil Require Import Word.LittleEndianList.

(** [libsparse/sparse_read.cpp:49-49 COPY_BUF_SIZE] *)
Definition COPY_BUF_SIZE : Z := 1024 * 1024.

(** [libsparse/sparse_read.cpp:59-82 SparseFileSource] *)
Class SparseSource (Src : Type) := {
  src_Seek : Z → IO Src unit;
  src_GetOffset : IO Src Z;
  src_Rewind : IO Src unit;
  (** What [AddToSparseFile] adds for that many bytes. *)
  src_backing : Z → IO Src backing;
  src_ReadValue : Z → IO Src bytes;
  src_GetCrc32 : Z → Z → IO Src Z;
}.

(** ** Descriptors *)

Record FdSource (D : Type) := mkFdSource {
  fs_fd : Z;
  fs_file : D;
}.
Arguments mkFdSource {D}.
Arguments fs_fd {D}.
Arguments fs_file {D}.

Section Fd.
Context {D : Type} `{!Posix D}.

Definition on_file {A} (m : IO D A) : IO (FdSource D) A := λ s,
  let '(r, d) := m (fs_file s) in (r, mkFdSource (fs_fd s) d).

Definition fd_number : IO (FdSource D) Z := λ s, (Ret (fs_fd s), s).

(** [libsparse/sparse_read.cpp:92-94 SparseFileFdSource::Seek] *)
Definition fd_Seek (off : Z) : IO (FdSource D) unit :=
  r ← on_file (sys_lseek off SEEK_CUR);
  match r with Sought _ => mret () | _ => lift Reject end.
(** The result of a failed [lseek64] is -1.
    [libsparse/sparse_read.cpp:96-96 SparseFileFdSource::GetOffset] *)
Definition fd_GetOffset : IO (FdSource D) Z :=
  r ← on_file (sys_lseek 0 SEEK_CUR);
  match r with Sought o => mret o | _ => mret (-1) end.
(** [libsparse/sparse_read.cpp:98-100 SparseFileFdSource::Rewind] *)
Definition fd_Rewind : IO (FdSource D) unit :=
  r ← on_file (sys_lseek 0 SEEK_SET);
  match r with Sought o => lift (require (o = 0)) | _ => lift Reject end.
(** [libsparse/sparse_read.cpp:102-104 SparseFileFdSource::AddToSparseFile] *)
Definition fd_backing (len : Z) : IO (FdSource D) backing :=
  offset ← fd_GetOffset;
  fd ← fd_number;
  mret (BACKED_BLOCK_FD fd offset).
(** Every [read] of the loop in [read_all] gives a byte, so [len] calls do.
    [libsparse/sparse_read.cpp:106-106 SparseFileFdSource::ReadValue] *)
Definition fd_ReadValue (len : Z) : IO (FdSource D) bytes :=
  on_file (read_all (Z.to_nat len) len).
Fixpoint fd_crc_loop (fuel : nat) (crc32 len : Z) : IO (FdSource D) Z :=
  if decide (len = 0) then mret crc32
  else
    match fuel with
    | O => lift Crash
    | S fuel =>
        let chunk := len `min` COPY_BUF_SIZE in
        bs ← fd_ReadValue chunk;
        fd_crc_loop fuel (sparse_crc32 crc32 bs) (len - chunk)
    end.
(** [libsparse/sparse_read.cpp:108-122 SparseFileFdSource::GetCrc32] *)
Definition fd_GetCrc32 (crc32 len : Z) : IO (FdSource D) Z :=
  fd_crc_loop (pieces_fuel COPY_BUF_SIZE len) crc32 len.

#[export] Instance fd_source : SparseSource (FdSource D) := {|
  src_Seek := fd_Seek; src_GetOffset := fd_GetOffset; src_Rewind := fd_Rewind;
  src_backing := fd_backing; src_ReadValue := fd_ReadValue; src_GetCrc32 := fd_GetCrc32;
|}.
End Fd.

(** ** Memory buffers *)

(** [buf_start] is an address; [buf] is kept relative to it.
    [libsparse/sparse_read.cpp:126-129 SparseFileBufSource, members] *)
Record BufSource := mkBufSource {
  bf_start : Z;
  bf_bytes : bytes;
  bf_pos : Z;
  bf_offset : Z;
}.

(** [libsparse/sparse_read.cpp:131-138 SparseFileBufSource::AccessOkay] *)
Definition AccessOkay (len : Z) (s : BufSource) : bool :=
  if decide (len ≤ 0) then false
  else if decide (bf_pos s < 0) then false
  else if decide (zlen (bf_bytes s) ≤ bf_pos s) then false
  else if decide (zlen (bf_bytes s) - bf_pos s < len) then false
  else true.
Definition buf_advance (len : Z) (s : BufSource) : BufSource :=
  mkBufSource (bf_start s) (bf_bytes s) (bf_pos s + len) (i64 (bf_offset s + len)).
(** The bytes of an access that passed the check, the position behind them. *)
Definition buf_take (len : Z) : IO BufSource bytes := λ s,
  if AccessOkay len s then (slice (bf_bytes s) (bf_pos s) len, buf_advance len s)
  else (Reject, s).

(** [libsparse/sparse_read.cpp:149-157 SparseFileBufSource::Seek] *)
Definition buf_Seek (off : Z) : IO BufSource unit := λ s,
  if AccessOkay off s then (Ret (), buf_advance off s) else (Reject, s).
(** [libsparse/sparse_read.cpp:159-159 SparseFileBufSource::GetOffset] *)
Definition buf_GetOffset : IO BufSource Z := λ s, (Ret (bf_offset s), s).
(** [libsparse/sparse_read.cpp:161-165 SparseFileBufSource::Rewind] *)
Definition buf_Rewind : IO BufSource unit := λ s,
  (Ret (), mkBufSource (bf_start s) (bf_bytes s) 0 0).
(** [libsparse/sparse_read.cpp:167-173 SparseFileBufSource::AddToSparseFile] *)
Definition buf_backing (len : Z) : IO BufSource backing := λ s,
  if AccessOkay len s then (Ret (BACKED_BLOCK_DATA (bf_start s + bf_pos s)), s) else (Reject, s).
(** [libsparse/sparse_read.cpp:175-184 SparseFileBufSource::ReadValue] *)
Definition buf_ReadValue (len : Z) : IO BufSource bytes := buf_take len.
(** [libsparse/sparse_read.cpp:186-195 SparseFileBufSource::GetCrc32] *)
Definition buf_GetCrc32 (crc32 len : Z) : IO BufSource Z :=
  bs ← buf_take len; mret (sparse_crc32 crc32 bs).

#[export] Instance buf_source : SparseSource BufSource := {|
  src_Seek := buf_Seek; src_GetOffset := buf_GetOffset; src_Rewind := buf_Rewind;
  src_backing := buf_backing; src_ReadValue := buf_ReadValue; src_GetCrc32 := buf_GetCrc32;
|}.

(** ** Chunks *)

(** The source, the sparse file read into, and the heap of its nodes. *)
Record reading (Src : Type) := mkReading {
  rd_source : Src;
  rd_file : sparse_file;
  rd_heap : heap;
}.
Arguments mkReading {Src}.
Arguments rd_source {Src}.
Arguments rd_file {Src}.
Arguments rd_heap {Src}.

Section Reading.
Context (calloc_ok : heap → bool).

Section Chunks.
Context {Src : Type} `{!SparseSource Src}.

Definition on_source {A} (m : IO Src A) : IO (reading Src) A := λ s,
  let '(r, src) := m (rd_source s) in (r, mkReading src (rd_file s) (rd_heap s)).
Definition file_of : IO (reading Src) sparse_file := λ s, (Ret (rd_file s), s).
(** An addition to the sparse file; a failed one leaves it as it was. *)
Definition add_block (f : sparse_file → heap → outcome (sparse_file * heap))
    : IO (reading Src) unit := λ s,
  match f (rd_file s) (rd_heap s) with
  | Ret (file, h) => (Ret (), mkReading (rd_source s) file h)
  | Reject => (Reject, s)
  | Crash => (Crash, s)
  end.
Definition add_backing (data : backing) (len block : Z) : IO (reading Src) unit :=
  add_block (λ s h, with_list s (λ l, backed_block_add calloc_ok l data len block h)).

(** The checksum of pieces of a buffer of repeated bytes. *)
Fixpoint crc_loop (fuel : nat) (buffer : Z → bytes) (crc32 len : Z) : outcome Z :=
  if decide (len = 0) then Ret crc32
  else
    match fuel with
    | O => Crash
    | S fuel =>
        let chunk := len `min` COPY_BUF_SIZE in
        crc_loop fuel buffer (sparse_crc32 crc32 (buffer chunk)) (len - chunk)
    end.

(** [crc32] is [None] when checksums are not verified.
    [libsparse/sparse_read.cpp:212-244 process_raw_chunk] *)
Definition process_raw_chunk (chunk_size blocks block : Z) (crc32 : option Z)
    : IO (reading Src) (option Z) :=
  s ← file_of;
  let len := i64 (blocks * sf_block_size s) in
  _ ← lift (CHECK (sf_block_size s ≠ 0));
  _ ← lift (require (chunk_size mod sf_block_size s = 0));
  _ ← lift (require (chunk_size / sf_block_size s = blocks));
  data ← on_source (src_backing len);
  _ ← add_backing data (u64 len) block;
  match crc32 with
  | Some crc => crc ← on_source (src_GetCrc32 crc len); mret (Some crc)
  | None => _ ← on_source (src_Seek len); mret None
  end.

(** [libsparse/sparse_read.cpp:246-285 process_fill_chunk] *)
Definition process_fill_chunk (chunk_size blocks block : Z) (crc32 : option Z)
    : IO (reading Src) (option Z) :=
  s ← file_of;
  let len := i64 (blocks * sf_block_size s) in
  _ ← lift (require (chunk_size = 4));
  raw ← on_source (src_ReadValue 4);
  let fill_val := c_dec c_u32 raw in
  _ ← add_block (λ s, sparse_file_add_fill calloc_ok s fill_val (u64 len) block);
  match crc32 with
  | Some crc =>
      crc ← lift (crc_loop (pieces_fuel COPY_BUF_SIZE len) (fill_bytes fill_val) crc len);
      mret (Some crc)
  | None => mret None
  end.

(** [libsparse/sparse_read.cpp:287-306 process_skip_chunk] *)
Definition process_skip_chunk (chunk_size blocks : Z) (crc32 : option Z)
    : IO (reading Src) (option Z) :=
  s ← file_of;
  _ ← lift (require (chunk_size = 0));
  match crc32 with
  | Some crc =>
      let len := i64 (blocks * sf_block_size s) in
      crc ← lift (crc_loop (pieces_fuel COPY_BUF_SIZE len) (λ n, zeroes (Z.to_nat n)) crc len);
      mret (Some crc)
  | None => mret None
  end.

(** [libsparse/sparse_read.cpp:308-325 process_crc32_chunk] *)
Definition process_crc32_chunk (chunk_size : Z) (crc32 : option Z) : IO (reading Src) unit :=
  _ ← lift (require (chunk_size = 4));
  raw ← on_source (src_ReadValue 4);
  let file_crc32 := c_dec c_u32 raw in
  match crc32 with
  | Some crc => lift (require (file_crc32 = crc))
  | None => mret ()
  end.

(** The number of blocks of the chunk, an [int]: a negative one is an error.  An
    unknown chunk is reported and counts as empty.
    [libsparse/sparse_read.cpp:327-375 process_chunk] *)
Definition process_chunk (chunk_hdr_sz : Z) (ch : chunk_header_t) (cur_block : Z)
    (crc32 : option Z) : IO (reading Src) (Z * option Z) :=
  _ ← on_source src_GetOffset;
  let chunk_data_size := u32 (total_sz ch - chunk_hdr_sz) in
  if decide (chunk_type ch = CHUNK_TYPE_RAW) then
    crc ← process_raw_chunk chunk_data_size (chunk_sz ch) cur_block crc32;
    mret (i32 (chunk_sz ch), crc)
  else if decide (chunk_type ch = CHUNK_TYPE_FILL) then
    crc ← process_fill_chunk chunk_data_size (chunk_sz ch) cur_block crc32;
    mret (i32 (chunk_sz ch), crc)
  else if decide (chunk_type ch = CHUNK_TYPE_DONT_CARE) then
    crc ← process_skip_chunk chunk_data_size (chunk_sz ch) crc32;
    mret (i32 (chunk_sz ch), crc)
  else if decide (chunk_type ch = CHUNK_TYPE_CRC32) then
    _ ← process_crc32_chunk chunk_data_size crc32;
    mret (0, crc32)
  else mret (0, crc32).

(** [libsparse/sparse_read.cpp:429-451 sparse_file_read_sparse, chunks] *)
Fixpoint read_chunks (chunk_hdr_sz : Z) (n : nat) (cur_block : Z) (crc32 : option Z)
    : IO (reading Src) Z :=
  match n with
  | O => mret cur_block
  | S n =>
      raw ← on_source (src_ReadValue CHUNK_HEADER_LEN);
      _ ← (if decide (CHUNK_HEADER_LEN < chunk_hdr_sz)
           then on_source (src_Seek (chunk_hdr_sz - CHUNK_HEADER_LEN)) else mret ());
      '(ret, crc32) ← process_chunk chunk_hdr_sz (c_dec chunk_header_codec raw) cur_block crc32;
      _ ← lift (require (0 ≤ ret));
      read_chunks chunk_hdr_sz n (u32 (cur_block + ret)) crc32
  end.

(** The checks on a header that both readers make.
    [libsparse/sparse_read.cpp:403-417 sparse_file_read_sparse, header] *)
Definition header_accepted (sh : sparse_header_t) : Prop :=
  sh_magic sh = SPARSE_HEADER_MAGIC ∧ sh_major_version sh = 1 ∧
  SPARSE_HEADER_LEN ≤ file_hdr_sz sh ∧ CHUNK_HEADER_LEN ≤ chunk_hdr_sz sh.
#[export] Instance header_accepted_dec sh : Decision (header_accepted sh).
Proof. unfold header_accepted. apply _. Defined.

(** [libsparse/sparse_read.cpp:377-458 sparse_file_read_sparse] *)
Definition sparse_file_read_sparse (crc : bool) : IO (reading Src) unit :=
  raw ← on_source (src_ReadValue SPARSE_HEADER_LEN);
  let sh := c_dec sparse_header_codec raw in
  _ ← lift (require (header_accepted sh));
  _ ← (if decide (SPARSE_HEADER_LEN < file_hdr_sz sh)
       then on_source (src_Seek (file_hdr_sz sh - SPARSE_HEADER_LEN)) else mret ());
  cur_block ← read_chunks (chunk_hdr_sz sh) (Z.to_nat (total_chunks sh)) 0
                (if crc then Some 0 else None);
  lift (require (total_blks sh = cur_block)).

(** The new file is destroyed when the read fails.
    [libsparse/sparse_read.cpp:594-656 sparse_file_import_source] *)
Definition sparse_file_import_source (verbose crc : bool) : IO (Src * heap) sparse_file :=
  λ '(src, h),
  match (raw ← src_ReadValue SPARSE_HEADER_LEN;
         let sh := c_dec sparse_header_codec raw in
         _ ← lift (require (header_accepted sh));
         _ ← lift (require (blk_sz sh ≠ 0 ∧ blk_sz sh mod 4 = 0));
         _ ← lift (require (total_blks sh ≠ 0));
         _ ← src_Rewind;
         mret sh) src with
  | (Ret sh, src) =>
      let s := sparse_file_new (blk_sz sh) (i64 (total_blks sh * blk_sz sh)) in
      let s := if verbose then sparse_file_verbose s else s in
      match sparse_file_read_sparse crc (mkReading src s h) with
      | (Ret _, rd) => (Ret (rd_file rd), (rd_source rd, rd_heap rd))
      | (Reject, rd) =>
          match sparse_file_destroy (rd_file rd) (rd_heap rd) with
          | Ret h => (Reject, (rd_source rd, h))
          | _ => (Crash, (rd_source rd, rd_heap rd))
          end
      | (Crash, rd) => (Crash, (rd_source rd, rd_heap rd))
      end
  | (Reject, src) => (Reject, (src, h))
  | (Crash, src) => (Crash, (src, h))
  end.
End Chunks.

(** ** Plain files *)

Section Plain.
Context {D : Type} `{!Posix D}.
Abbreviation Src := (FdSource D).

(** The [i]th [uint32_t] of a buffer. *)
Definition word32 (buf : bytes) (i : nat) : Z := le_combine (take 4 (drop (4 * i) buf)).
(** Whether a whole block repeats its first word.
    [libsparse/sparse_read.cpp:480-490 do_sparse_file_read_normal, sparse_block] *)
Definition sparse_block (block_size : Z) (buf : bytes) : bool :=
  if decide (zlen buf = block_size) then
    forallb (λ i, bool_decide (word32 buf 0 = word32 buf i))
      (seq 1 (Z.to_nat (block_size / 4) - 1))
  else false.

(** The results of the additions are not looked at.
    [libsparse/sparse_read.cpp:460-505 do_sparse_file_read_normal] *)
Fixpoint read_normal_loop (fuel : nat) (offset remain block : Z) : IO (reading Src) unit :=
  if decide (0 < remain) then
    match fuel with
    | O => lift Crash
    | S fuel =>
        s ← file_of;
        let to_read := remain `min` sf_block_size s in
        buf ← on_source (fd_ReadValue to_read);
        fd ← on_source fd_number;
        _ ← try_ (if sparse_block (sf_block_size s) buf
                  then add_block (λ s, sparse_file_add_fill calloc_ok s (word32 buf 0) to_read block)
                  else add_block (λ s, sparse_file_add_fd calloc_ok s fd offset to_read block));
        read_normal_loop fuel (offset + to_read) (remain - to_read) (u32 (block + 1))
    end
  else mret ().
(** [libsparse/sparse_read.cpp:460-505 do_sparse_file_read_normal] *)
Definition do_sparse_file_read_normal (offset remain : Z) : IO (reading Src) unit :=
  s ← file_of;
  _ ← lift (CHECK (sf_block_size s ≠ 0));
  read_normal_loop (S (Z.to_nat (remain / sf_block_size s))) offset remain
    (u32 (offset `quot` sf_block_size s)).
(** [libsparse/sparse_read.cpp:507-517 sparse_file_read_normal] *)
Definition sparse_file_read_normal : IO (reading Src) unit :=
  s ← file_of; do_sparse_file_read_normal 0 (sf_len s).

(** The loop over the data ranges of a file.
    [libsparse/sparse_read.cpp:520-568 sparse_file_read_hole] *)
Fixpoint sparse_file_read_hole (fuel : nat) (end_ : Z) : IO (reading Src) unit :=
  match fuel with
  | O => lift Crash
  | S fuel =>
      s ← file_of;
      _ ← lift (CHECK (sf_block_size s ≠ 0));
      start ← on_source (on_file (sys_lseek end_ SEEK_DATA));
      match start with
      | SeekNoData => mret ()
      | SeekFailed => lift Reject
      | Sought start =>
          if decide (sf_len s < start) then mret ()
          else
            stop ← on_source (on_file (sys_lseek start SEEK_HOLE));
            match stop with
            | Sought stop =>
                let bs := sf_block_size s in
                let start := bs * (start `quot` bs) in
                let stop := i64 (bs * ((stop `min` sf_len s + bs - 1) `quot` bs)) in
                r ← on_source (on_file (sys_lseek start SEEK_SET));
                match r with
                | Sought _ =>
                    _ ← do_sparse_file_read_normal start (stop - start);
                    if decide (stop < sf_len s) then sparse_file_read_hole fuel stop else mret ()
                | _ => lift Reject
                end
            | _ => lift Reject
            end
      end
  end.

(** [libsparse/include/sparse/sparse.h:239-243 sparse_read_mode] *)
Inductive sparse_read_mode :=
| SPARSE_READ_MODE_NORMAL
| SPARSE_READ_MODE_SPARSE
| SPARSE_READ_MODE_HOLE.
#[export] Instance sparse_read_mode_eq_dec : EqDecision sparse_read_mode.
Proof. solve_decision. Defined.

(** [fuel] bounds the data ranges of a file read by its holes.
    [libsparse/sparse_read.cpp:575-592 sparse_file_read] *)
Definition sparse_file_read (fuel : nat) (mode : sparse_read_mode) (crc : bool)
    : IO (reading Src) unit :=
  _ ← lift (require (¬ (crc = true ∧ mode ≠ SPARSE_READ_MODE_SPARSE)));
  match mode with
  | SPARSE_READ_MODE_SPARSE => sparse_file_read_sparse crc
  | SPARSE_READ_MODE_NORMAL => sparse_file_read_normal
  | SPARSE_READ_MODE_HOLE => sparse_file_read_hole fuel 0
  end.

(** [libsparse/sparse_read.cpp:658-661 sparse_file_import] *)
Definition sparse_file_import (verbose crc : bool) : IO (Src * heap) sparse_file :=
  sparse_file_import_source verbose crc.

(** A file that is not a sparse image is read as a plain one; failed seeks to its
    start are not looked at.
    [libsparse/sparse_read.cpp:668-700 sparse_file_import_auto] *)
Definition sparse_file_import_auto (crc verbose : bool) : IO (Src * heap) sparse_file :=
  λ st,
  match sparse_file_import false crc st with
  | (Ret s, st) => (Ret s, st)
  | (Crash, st) => (Crash, st)
  | (Reject, (src, h)) =>
      match on_file (sys_lseek 0 SEEK_END) src with
      | (Ret (Sought len), src) =>
          let '(_, src) := try_ (on_file (sys_lseek 0 SEEK_SET)) src in
          let s := sparse_file_new 4096 len in
          let s := if verbose then sparse_file_verbose s else s in
          match sparse_file_read_normal (mkReading src s h) with
          | (Ret _, rd) => (Ret (rd_file rd), (rd_source rd, rd_heap rd))
          | (Reject, rd) =>
              match sparse_file_destroy (rd_file rd) (rd_heap rd) with
              | Ret h => (Reject, (rd_source rd, h))
              | _ => (Crash, (rd_source rd, rd_heap rd))
              end
          | (Crash, rd) => (Crash, (rd_source rd, rd_heap rd))
          end
      | (_, src) => (Reject, (src, h))
      end
  end.
End Plain.

(** The buffer of [len] bytes at [start].
    [libsparse/sparse_read.cpp:663-666 sparse_file_import_buf] *)
Definition sparse_file_import_buf (start : Z) (buf : bytes) (verbose crc : bool) (h : heap)
    : outcome sparse_file * (BufSource * heap) :=
  sparse_file_import_source verbose crc (mkBufSource start buf 0 0, h).
End Reading.
