(* ===== verification/SparseRoundtrip.v ===== *)
(** * Reading back the image that was written

    [sparse_file_import_buf] on the bytes of [image_file] builds a list of chunks that
    says of every byte of the image what the list that was written said, with the
    rest of the last block of every raw chunk filled with zeroes. *)
From S2P Require Import Prelude Bytes Device SparseFormat BackedBlock BlockList SparseOutput SparseFile.
From S2P Require Import SparseImage SparseRead.
From coqutil Require Import Byte.

(** ** Reading from a buffer *)

(** [m] takes [data] from the front of what is left of the buffer and returns [a]. *)
Definition takes {A} (start : Z) (img : bytes) (m : IO BufSource A) (pos : Z) (a : A) (to : Z) : Prop :=
  ∀ off, ∃ off', m (mkBufSource start img pos off) = (Ret a, mkBufSource start img to off').

Lemma access_ok start pre d rest off :
  d ≠ [] → AccessOkay (zlen d) (mkBufSource start (pre ++ d ++ rest) (zlen pre) off) = true.
Proof.
  intros Hd. unfold AccessOkay. simpl.
  assert (0 < zlen d) by (unfold zlen; destruct d; [done|simpl; lia]).
  pose proof (zlen_nonneg pre). pose proof (zlen_nonneg rest).
  by rewrite !zlen_app, !decide_False by lia.
Qed.
Lemma takes_read start pre d rest :
  d ≠ [] →
  takes start (pre ++ d ++ rest) (src_ReadValue (zlen d)) (zlen pre) d (zlen pre + zlen d).
Proof.
  intros Hd off. exists (i64 (off + zlen d)). simpl. unfold buf_ReadValue, buf_take.
  rewrite access_ok by done. simpl. by rewrite slice_app_mid.
Qed.

Lemma takes_seek start pre d rest :
  d ≠ [] →
  takes start (pre ++ d ++ rest) (src_Seek (zlen d)) (zlen pre) () (zlen pre + zlen d).
Proof.
  intros Hd off. exists (i64 (off + zlen d)). simpl. unfold buf_Seek. by rewrite access_ok.
Qed.
Lemma takes_backing start pre d rest :
  d ≠ [] →
  takes start (pre ++ d ++ rest) (src_backing (zlen d)) (zlen pre)
    (BACKED_BLOCK_DATA (start + zlen pre)) (zlen pre).
Proof.
  intros Hd off. exists off. simpl. unfold buf_backing. by rewrite access_ok.
Qed.
Lemma takes_offset start img pos : ∀ off,
  src_GetOffset (mkBufSource start img pos off) = (Ret off, mkBufSource start img pos off).
Proof. done. Qed.

(** ** Content *)

Section Content.
Context (bsz : Z) (bsz_ok : 0 < bsz) (bsz_4 : (4 | bsz)).

Lemma content_Some l pos :
  is_Some (content bsz l pos) ↔ Exists (λ c, ck_start bsz c ≤ pos < ck_end bsz c) l.
Proof using Type.
  induction l as [|c l IH]; simpl.
  - split; [by intros []|by intros []%Exists_nil].
  - rewrite Exists_cons, <- IH. case_decide; [split; eauto|tauto].
Qed.

(** A new chunk behind all others: the ends stay within it. *)
Lemma insert_ends v l B :
  laid_out bsz l → chunk_ok bsz v → apart bsz v l →
  Forall (λ c, ck_end bsz c < 2 ^ 63) (v :: l) → Forall (λ c, ck_end bsz c ≤ B) (v :: l) →
  Forall (λ c, ck_end bsz c ≤ B) (insert_chunk bsz v l).
Proof using bsz_ok bsz_4.
  intros Hl Hv Hap Hend [HB1 HB2]%Forall_cons.
  destruct (insert_content bsz bsz_ok bsz_4 v l Hl Hv Hap Hend) as ([Hok _] & _ & Hc).
  apply Forall_forall. intros c Hin.
  assert (Hlen : 0 < ck_len c) by (rewrite Forall_forall in Hok; apply (cok_len _ _ (Hok c Hin))).
  assert (Hs : is_Some (content bsz (insert_chunk bsz v l) (ck_end bsz c - 1))).
  { apply content_Some, Exists_exists. exists c. split; [done|]. unfold ck_end. lia. }
  rewrite Hc in Hs. case_decide as Hd; [lia|].
  apply content_Some, Exists_exists in Hs as (d & Hd1 & Hd2).
  rewrite Forall_forall in HB2. pose proof (HB2 d Hd1). lia.
Qed.
Lemma apart_behind v l B : Forall (λ c, ck_end bsz c ≤ B) l → B ≤ ck_start bsz v → apart bsz v l.
Proof using Type. intros Hl Hv. eapply Forall_impl; [exact Hl|]. simpl. intros. left. lia. Qed.
End Content.

(** ** Chunks of an image *)

(** What the bytes of the buffer at address [start], and fill values, are. *)
Definition buffer_byte (start : Z) (img : bytes) (s : source) : byte :=
  match s with
  | FromMemory a => default Byte.x00 (img !! Z.to_nat (a - start))
  | FromFill v i => word_byte v i
  | _ => Byte.x00
  end.

Section Decode.
Context (byte_of : source → byte) (bsz : Z).

(** Byte [i] of a chunk in an image: zero behind the end of raw data. *)
Definition padded_byte (c : chunk) (i : Z) : byte :=
  match ck_from c with
  | BACKED_BLOCK_FILL v => byte_of (source_at c i)
  | _ => if decide (i < ck_len c) then byte_of (source_at c i) else Byte.x00
  end.
Definition covers (c : chunk) (pos : Z) : Prop :=
  ck_start bsz c ≤ pos < ck_start bsz c + ck_blocks bsz c * bsz.
#[export] Instance covers_dec c pos : Decision (covers c pos).
Proof. unfold covers. apply _. Defined.
(** Byte [pos] of the image of a list; [None] is a hole. *)
Fixpoint image_content (l : list chunk) (pos : Z) : option byte :=
  match l with
  | [] => None
  | c :: l => if decide (covers c pos) then Some (padded_byte c (pos - ck_start bsz c))
              else image_content l pos
  end.
End Decode.

Section Read.
Context (byte_of : source → byte) (bsz : Z) (bsz_ok : 0 < bsz < 2 ^ 32) (bsz_4 : (4 | bsz)).
Context (calloc_ok : heap → bool) (memory_left : ∀ h, calloc_ok h = true).
Context (start : Z) (img : bytes) (n : Z).

(** The reader stands at [pos] of the buffer and at block [cur] of the image; its list
    says [f] of the bytes before. *)
Definition stands (st : reading BufSource) (pos cur : Z) (f : Z → option byte) : Prop :=
  (∃ off, rd_source st = mkBufSource start img pos off) ∧
  (sf_block_size (rd_file st) = bsz ∧ sf_len (rd_file st) = n * bsz) ∧ bbl_block_size (sf_list (rd_file st)) = bsz ∧
  ∃ ls l, list_ok (rd_heap st) (sf_list (rd_file st)) ls l ∧
    Forall (λ c, ck_end bsz c ≤ cur * bsz) l ∧
    ∀ p, buffer_byte start img <$> content bsz l p = f p.

Lemma stands_take {A} (m : IO BufSource A) pos a to st cur f :
  takes start img m pos a to → stands st pos cur f →
  ∃ st', on_source m st = (Ret a, st') ∧ stands st' to cur f ∧
    rd_file st' = rd_file st ∧ rd_heap st' = rd_heap st.
Proof using Type.
  intros Hm ((off & Es) & Hrest). destruct (Hm off) as (off' & E).
  unfold on_source. rewrite Es, E. eexists. split; [done|]. split; [|done]. split; [by eexists|done].
Qed.

(** Adding a chunk of [blocks] blocks at the current block. *)
Lemma stands_add st pos cur f data blocks :
  stands st pos cur f → 0 ≤ cur → 0 < blocks → cur + blocks < 2 ^ 32 →
  (cur + blocks) * bsz < 2 ^ 63 →
  (match data with BACKED_BLOCK_DATA _ | BACKED_BLOCK_FILL _ => True | _ => False end) →
  let v := mkChunk cur (blocks * bsz) data in
  ∃ st', add_backing calloc_ok data (blocks * bsz) cur st = (Ret (), st') ∧
    stands st' pos (cur + blocks) (λ p,
      if decide (cur * bsz ≤ p < (cur + blocks) * bsz)
      then Some (buffer_byte start img (source_at v (p - cur * bsz))) else f p) ∧
    rd_source st' = rd_source st.
Proof using bsz_ok bsz_4 memory_left.
  intros (Hsrc & Hsz & Hlsz & ls & l & Hl & Hends & Hf) Hcur Hb Hlt Hend Hdata v.
  assert (Hv : chunk_ok bsz v).
  { split; simpl; [nia| |by destruct data]. rewrite Z.div_mul by lia. lia. }
  assert (Hve : ck_end bsz v = (cur + blocks) * bsz) by (unfold ck_end, ck_start; simpl; lia).
  assert (Hap : apart bsz v l) by (eapply apart_behind; [exact Hends|done]).
  pose proof Hl as [_ _ _ Hlo Hl63].
  rewrite <- Hlsz in Hv, Hap, Hve.
  destruct (backed_block_add_ok calloc_ok (rd_heap st) (sf_list (rd_file st)) ls l data (blocks * bsz) cur
    Hl (memory_left _)) as (bbl' & h' & ls' & E & Hl' & Hb' & Hc & _); [done|done|by fold v; lia|].
  rewrite Hlsz in *. fold v in Hl', Hc.
  exists (mkReading (rd_source st) (sf_set_list (rd_file st) bbl') h'). split_and!; [| |done].
  - unfold add_backing, add_block, with_list. rewrite E. done.
  - split; [done|]. split; [done|]. split; [done|]. exists ls', (insert_chunk bsz v l). split; [done|].
    split.
    + apply insert_ends; [lia|done|done|done|done|constructor; [lia|done]|].
      constructor; [lia|]. eapply Forall_impl; [exact Hends|]. simpl. intros. nia.
    + intros p. rewrite Hc, Hve. unfold ck_start. simpl. case_decide; [done|apply Hf].
Qed.

(** *** Chunk headers *)

Lemma zlen_chunk_header type blocks total : zlen (chunk_header type blocks total) = CHUNK_HEADER_LEN.
Proof using Type. done. Qed.
Lemma dec_chunk_header type blocks total :
  0 ≤ type < 2 ^ 16 → 0 ≤ blocks < 2 ^ 32 → 0 ≤ total < 2 ^ 32 →
  c_dec chunk_header_codec (chunk_header type blocks total) = mkChunkHeader type 0 blocks total.
Proof using Type.
  intros Ht Hb Htot. unfold chunk_header. rewrite !u32_small by done.
  apply (dec_enc_nil chunk_header_codec). simpl. split_and!; lia.
Qed.

(** One turn of the loop over the chunks. *)
Lemma read_chunk k st pre type blocks total d rest cur f f' :
  img = pre ++ (chunk_header type blocks total ++ d) ++ rest →
  0 ≤ type < 2 ^ 16 → 0 ≤ blocks < 2 ^ 31 → 0 ≤ total < 2 ^ 32 → 0 ≤ cur → cur + blocks < 2 ^ 32 →
  stands st (zlen pre) cur f →
  (∀ st, stands st (zlen (pre ++ chunk_header type blocks total)) cur f → ∃ st',
    process_chunk calloc_ok CHUNK_HEADER_LEN (mkChunkHeader type 0 blocks total) cur None st
      = (Ret (blocks, None), st') ∧
    stands st' (zlen (pre ++ chunk_header type blocks total ++ d)) (cur + blocks) f') →
  ∃ st', read_chunks calloc_ok CHUNK_HEADER_LEN (S k) cur None st
      = read_chunks calloc_ok CHUNK_HEADER_LEN k (cur + blocks) None st' ∧
    stands st' (zlen (pre ++ chunk_header type blocks total ++ d)) (cur + blocks) f'.
Proof using Type.
  intros Himg Ht Hb Htot Hc Hcb Hst Hproc.
  destruct (stands_take (src_ReadValue CHUNK_HEADER_LEN) (zlen pre) (chunk_header type blocks total)
    (zlen (pre ++ chunk_header type blocks total)) st cur f) as (st1 & E1 & Hst1 & _); [|done|].
  { rewrite Himg, <- (assoc_L (++)), zlen_app, <- (zlen_chunk_header type blocks total).
    by apply takes_read. }
  destruct (Hproc st1 Hst1) as (st2 & E2 & Hst2). exists st2. split; [|done].
  cbn [read_chunks]. rewrite (io_bind_eq _ _ _ _ _ E1). rewrite decide_False by done.
  rewrite dec_chunk_header by lia.
  rewrite (io_bind_eq (mret ()) _ st1 () st1) by done.
  rewrite (io_bind_eq _ _ _ _ _ E2). cbv beta iota.
  rewrite (io_require (0 ≤ blocks)) by lia. by rewrite u32_small by lia.
Qed.

(** *** The three kinds of chunks *)

Lemma stands_offset st pos cur f : stands st pos cur f →
  ∃ off st', on_source src_GetOffset st = (Ret off, st') ∧ stands st' pos cur f.
Proof using Type.
  intros ((off & Es) & Hrest). exists off. unfold on_source. rewrite Es. simpl.
  eexists. split; [done|]. split; [by eexists|done].
Qed.
Lemma stands_file st pos cur f {B} (k : sparse_file → IO (reading BufSource) B) :
  stands st pos cur f → (s ← file_of; k s) st = k (rd_file st) st ∧ sf_block_size (rd_file st) = bsz.
Proof using Type. intros (_ & [Hs _] & _). done. Qed.

(** A skipped chunk. *)
Lemma read_hole st pos cur f blocks :
  stands st pos cur f → 0 ≤ cur → 0 ≤ blocks < 2 ^ 31 →
  ∃ st', process_chunk calloc_ok CHUNK_HEADER_LEN
      (mkChunkHeader CHUNK_TYPE_DONT_CARE 0 blocks CHUNK_HEADER_LEN) cur None st
      = (Ret (blocks, None), st') ∧ stands st' pos (cur + blocks) f.
Proof using bsz_ok.
  intros Hst Hc Hb. destruct (stands_offset _ _ _ _ Hst) as (off & st1 & E1 & Hst1).
  exists st1. unfold process_chunk. rewrite (io_bind_eq _ _ _ _ _ E1). cbn -[process_skip_chunk].
  split.
  - unfold process_skip_chunk. simpl. rewrite i32_small by lia. done.
  - destruct Hst1 as (H1 & H2 & H3 & ls & l & H4 & H5 & H6).
    split; [done|]. split; [done|]. split; [done|]. exists ls, l. split; [done|]. split; [|done].
    eapply Forall_impl; [exact H5|]. simpl. intros. nia.
Qed.

(** A fill chunk: the value is behind the header. *)
Lemma read_fill st pre v rest cur f blocks :
  img = pre ++ c_enc c_u32 v ++ rest → 0 ≤ v < 2 ^ 32 →
  stands st (zlen pre) cur f → 0 ≤ cur → 0 < blocks < 2 ^ 31 → cur + blocks < 2 ^ 32 →
  (cur + blocks) * bsz < 2 ^ 63 →
  ∃ st', process_chunk calloc_ok CHUNK_HEADER_LEN
      (mkChunkHeader CHUNK_TYPE_FILL 0 blocks (CHUNK_HEADER_LEN + 4)) cur None st
      = (Ret (blocks, None), st') ∧
    stands st' (zlen (pre ++ c_enc c_u32 v)) (cur + blocks) (λ p,
      if decide (cur * bsz ≤ p < (cur + blocks) * bsz)
      then Some (word_byte v ((p - cur * bsz) mod 4)) else f p).
Proof using bsz_ok bsz_4 memory_left.
  intros Himg Hv Hst Hc Hb Hcb Hend.
  destruct (stands_offset _ _ _ _ Hst) as (off & st1 & E1 & Hst1).
  destruct (stands_take (src_ReadValue 4) (zlen pre) (c_enc c_u32 v) (zlen (pre ++ c_enc c_u32 v))
    st1 cur f) as (st2 & E2 & Hst2 & Ef & Eh); [|done|].
  { rewrite Himg, zlen_app. apply (takes_read start pre (c_enc c_u32 v) rest). done. }
  destruct (stands_add st2 _ cur f (BACKED_BLOCK_FILL v) blocks Hst2) as (st3 & E3 & Hst3 & _);
    [lia..|done|].
  exists st3. split; [|exact Hst3].
  unfold process_chunk. rewrite (io_bind_eq _ _ _ _ _ E1).
  change (u32 (total_sz _ - CHUNK_HEADER_LEN)) with 4.
  rewrite decide_False, decide_True by done. unfold process_fill_chunk.
  unfold chunk_sz.
  erewrite (io_bind_eq _ _ st1 None st3). { by rewrite i32_small by lia. }
  destruct (stands_file st1 _ _ _ (λ _, mret ()) Hst1) as [_ Hs1].
  rewrite (io_bind_eq file_of _ st1 (rd_file st1) st1) by done. rewrite Hs1.
  rewrite (io_require (4 = 4)) by done. rewrite (io_bind_eq _ _ _ _ _ E2).
  change (c_dec c_u32 (c_enc c_u32 v)) with (c_dec (c_int 4) (c_enc (c_int 4) v)).
  rewrite (dec_enc_nil (c_int 4)) by (simpl; lia).
  rewrite i64_small, u64_small by nia. by rewrite (io_bind_eq _ _ _ _ _ E3).
Qed.

(** A raw chunk: the bytes of its blocks are behind the header. *)
Lemma read_raw st pre d rest cur f blocks :
  img = pre ++ d ++ rest → zlen d = blocks * bsz → CHUNK_HEADER_LEN + blocks * bsz < 2 ^ 32 →
  stands st (zlen pre) cur f → 0 ≤ cur → 0 < blocks < 2 ^ 31 → cur + blocks < 2 ^ 32 →
  (cur + blocks) * bsz < 2 ^ 63 →
  ∃ st', process_chunk calloc_ok CHUNK_HEADER_LEN
      (mkChunkHeader CHUNK_TYPE_RAW 0 blocks (CHUNK_HEADER_LEN + blocks * bsz)) cur None st
      = (Ret (blocks, None), st') ∧
    stands st' (zlen (pre ++ d)) (cur + blocks) (λ p,
      if decide (cur * bsz ≤ p < (cur + blocks) * bsz)
      then Some (default Byte.x00 (d !! Z.to_nat (p - cur * bsz))) else f p).
Proof using bsz_ok bsz_4 memory_left.
  intros Himg Hd Htot Hst Hc Hb Hcb Hend.
  assert (Hne : d ≠ []) by (intros ->; unfold zlen in Hd; simpl in Hd; nia).
  assert (Hlen : CHUNK_HEADER_LEN = 12) by done.
  destruct (stands_offset _ _ _ _ Hst) as (off & st1 & E1 & Hst1).
  destruct (stands_take (src_backing (blocks * bsz)) (zlen pre) (BACKED_BLOCK_DATA (start + zlen pre))
    (zlen pre) st1 cur f) as (st2 & E2 & Hst2 & Ef2 & _); [|done|].
  { rewrite <- Hd, Himg. by apply takes_backing. }
  destruct (stands_add st2 _ cur f (BACKED_BLOCK_DATA (start + zlen pre)) blocks Hst2)
    as (st3 & E3 & Hst3 & _); [lia..|done|].
  destruct (stands_take (src_Seek (blocks * bsz)) (zlen pre) () (zlen (pre ++ d)) st3 (cur + blocks)
    _ ltac:(rewrite <- Hd, Himg, zlen_app; by apply takes_seek) Hst3)
    as (st4 & E4 & Hst4 & _).
  exists st4. split.
  - unfold process_chunk. rewrite (io_bind_eq _ _ _ _ _ E1). unfold total_sz.
    replace (CHUNK_HEADER_LEN + blocks * bsz - CHUNK_HEADER_LEN) with (blocks * bsz) by lia.
    rewrite u32_small by nia. rewrite decide_True by done. unfold process_raw_chunk, chunk_sz.
    erewrite (io_bind_eq _ _ st1 None st4). { by rewrite i32_small by lia. }
    destruct (stands_file st1 _ _ _ (λ _, mret ()) Hst1) as [_ Hs1].
    rewrite (io_bind_eq file_of _ st1 (rd_file st1) st1) by done. rewrite Hs1.
    rewrite (io_bind_eq _ _ st1 () st1) by (unfold lift; by rewrite CHECK_True by lia).
    rewrite (io_require (_ `mod` _ = 0)) by (by rewrite Z.mod_mul by lia).
    rewrite (io_require (_ `div` _ = blocks)) by (by rewrite Z.div_mul by lia).
    rewrite i64_small, u64_small by nia. rewrite (io_bind_eq _ _ _ _ _ E2).
    rewrite (io_bind_eq _ _ _ _ _ E3). by rewrite (io_bind_eq _ _ _ _ _ E4).
  - destruct Hst4 as (H1 & H2 & H3 & ls & l & H4 & H5 & H6).
    split; [done|]. split; [done|]. split; [done|]. exists ls, l. split; [done|]. split; [done|].
    intros p. rewrite H6. case_decide as Hp; [|done]. do 2 f_equal. unfold source_at. simpl.
    rewrite Himg, lookup_app_r by (unfold zlen; lia).
    rewrite lookup_app_l by (unfold zlen in *; lia). do 2 f_equal. unfold zlen. lia.
Qed.

(** *** The body of an image *)

Lemma stands_ext st pos cur f g : stands st pos cur f → (∀ p, f p = g p) → stands st pos cur g.
Proof using Type.
  intros (H1 & H2 & H3 & ls & l & H4 & H5 & H6) Hfg. split; [done|]. split; [done|]. split; [done|].
  exists ls, l. split; [done|]. split; [done|]. intros p. by rewrite H6.
Qed.

Lemma read_gap k st pre rest last to f :
  img = pre ++ gap last to ++ rest → 0 ≤ last ≤ to → to < 2 ^ 31 → stands st (zlen pre) last f →
  ∃ st', read_chunks calloc_ok CHUNK_HEADER_LEN (Z.to_nat (gaps last to) + k) last None st
      = read_chunks calloc_ok CHUNK_HEADER_LEN k to None st' ∧
    stands st' (zlen (pre ++ gap last to)) to f.
Proof using bsz_ok.
  unfold gap, gaps. intros Himg Hl Hto Hst. case_decide as Hd.
  2:{ exists st. rewrite app_nil_r. by replace last with to in * by lia. }
  destruct (read_chunk k st pre CHUNK_TYPE_DONT_CARE (to - last) CHUNK_HEADER_LEN [] rest last f f)
    as (st' & E & Hst'); [by rewrite app_nil_r|done|lia|done|lia|lia|done|..].
  { intros st1 Hst1. rewrite app_nil_r. apply read_hole; [done|lia|lia]. }
  exists st'. replace (last + (to - last)) with to in * by lia. rewrite app_nil_r in Hst'. by split.
Qed.

Context (fills : ∀ v i, byte_of (FromFill v i) = word_byte v i).

(** A chunk whose size, or fill value, the format has room for. *)
Definition representable (c : chunk) : Prop :=
  match ck_from c with
  | BACKED_BLOCK_FILL v => 0 ≤ v < 2 ^ 32
  | _ => CHUNK_HEADER_LEN + ck_blocks bsz c * bsz < 2 ^ 32
  end.

Lemma raw_bytes c i : 0 < ck_len c → (∀ v, ck_from c ≠ BACKED_BLOCK_FILL v) →
  0 ≤ i < ck_blocks bsz c * bsz →
  default Byte.x00 ((chunk_bytes byte_of c ++ zeroes (Z.to_nat (padding bsz c))) !! Z.to_nat i)
    = padded_byte byte_of c i.
Proof using bsz_ok.
  intros Hl Hf Hi. destruct (padding_bounds bsz bsz_ok c Hl) as [Hp _].
  transitivity (if decide (i < ck_len c) then byte_of (source_at c i) else Byte.x00).
  2:{ unfold padded_byte. destruct (ck_from c) as [| | |v]; [done..|by destruct (Hf v)]. }
  assert (Hlen : length (chunk_bytes byte_of c) = Z.to_nat (ck_len c)).
  { unfold chunk_bytes. by rewrite length_fmap, length_seqZ. }
  case_decide as Hd.
  - rewrite lookup_app_l by lia. unfold chunk_bytes. rewrite list_lookup_fmap.
    rewrite lookup_seqZ_lt by lia. simpl. do 2 f_equal. lia.
  - rewrite lookup_app_r by lia. unfold zeroes.
    rewrite lookup_replicate_2; [done|]. unfold padding. lia.
Qed.

Lemma fill_or_raw c :
  (∃ v, ck_from c = BACKED_BLOCK_FILL v) ∨ (∀ v, ck_from c ≠ BACKED_BLOCK_FILL v).
Proof using Type. destruct (ck_from c) as [| | |v]; [by right..|left; by exists v]. Qed.

Lemma read_image_chunk k st pre rest c f :
  img = pre ++ image_chunk byte_of bsz c ++ rest → bounded bsz c → representable c →
  0 ≤ ck_block c → ck_block c + ck_blocks bsz c < 2 ^ 31 →
  stands st (zlen pre) (ck_block c) f →
  ∃ st', read_chunks calloc_ok CHUNK_HEADER_LEN (S k) (ck_block c) None st
      = read_chunks calloc_ok CHUNK_HEADER_LEN k (ck_block c + ck_blocks bsz c) None st' ∧
    stands st' (zlen (pre ++ image_chunk byte_of bsz c)) (ck_block c + ck_blocks bsz c)
      (λ p, if decide (covers bsz c p) then Some (padded_byte byte_of c (p - ck_start bsz c)) else f p).
Proof using bsz_ok bsz_4 memory_left fills.
  intros Himg Hc Hr Hb Hn Hst. pose proof (bd_len _ _ Hc) as Hl.
  destruct (padding_bounds bsz bsz_ok c) as [Hp Hbl]; [lia|].
  assert (Hend : (ck_block c + ck_blocks bsz c) * bsz < 2 ^ 63) by nia.
  set (g := λ p, if decide (covers bsz c p) then Some (padded_byte byte_of c (p - ck_start bsz c)) else f p).
  destruct (fill_or_raw c) as [[v Ev]|Hraw].
  - unfold image_chunk, representable in *. rewrite Ev in *.
    destruct (read_chunk k st pre CHUNK_TYPE_FILL (ck_blocks bsz c) (CHUNK_HEADER_LEN + 4)
      (c_enc c_u32 v) rest (ck_block c) f g) as (st' & E & Hst');
      [exact Himg|done|lia|done|lia|lia|exact Hst| |by exists st'].
    intros st1 Hst1. rewrite (assoc_L (++)).
    destruct (read_fill st1 (pre ++ chunk_header CHUNK_TYPE_FILL (ck_blocks bsz c) (CHUNK_HEADER_LEN + 4))
      v rest (ck_block c) f (ck_blocks bsz c)) as (st2 & E2 & Hst2); [by rewrite Himg, <- !(assoc_L (++))|done|done|lia..|].
    exists st2. split; [exact E2|]. eapply stands_ext; [exact Hst2|]. intros p. unfold g, covers, ck_start.
    rewrite Z.mul_add_distr_r. unfold padded_byte, source_at. rewrite Ev. by rewrite fills.
  - rewrite (image_raw byte_of bsz c Hraw) in *.
    assert (Hr' : CHUNK_HEADER_LEN + ck_blocks bsz c * bsz < 2 ^ 32).
    { unfold representable in Hr. destruct (ck_from c) as [| | |v]; [done..|by destruct (Hraw v)]. }
    destruct (read_chunk k st pre CHUNK_TYPE_RAW (ck_blocks bsz c) (CHUNK_HEADER_LEN + ck_blocks bsz c * bsz)
      (chunk_bytes byte_of c ++ zeroes (Z.to_nat (padding bsz c))) rest (ck_block c) f g) as (st' & E & Hst');
      [exact Himg|done|lia| |lia|lia|exact Hst| |by exists st'].
    { split; [|done]. assert (CHUNK_HEADER_LEN = 12) by done. nia. }
    intros st1 Hst1. rewrite (assoc_L (++)).
    edestruct (read_raw st1 (pre ++ chunk_header CHUNK_TYPE_RAW (ck_blocks bsz c)
      (CHUNK_HEADER_LEN + ck_blocks bsz c * bsz)) (chunk_bytes byte_of c ++ zeroes (Z.to_nat (padding bsz c)))
      rest (ck_block c) f (ck_blocks bsz c)) as (st2 & E2 & Hst2);
      [by rewrite Himg, <- !(assoc_L (++))| |done|done|lia..|].
    { rewrite zlen_app. unfold chunk_bytes, zlen. rewrite length_fmap, length_seqZ, length_zeroes.
      unfold padding in *. lia. }
    exists st2. split; [exact E2|]. eapply stands_ext; [exact Hst2|]. intros p. unfold g, covers, ck_start.
    rewrite Z.mul_add_distr_r. case_decide as H1; case_decide as H2; [|lia|lia|done]. f_equal. apply raw_bytes; [lia|done|lia].
Qed.

Context (n_ok : 0 < n < 2 ^ 31) (len_ok : n * bsz + bsz < 2 ^ 63).

Lemma image_content_before l last p :
  fits bsz l last n → p < last * bsz → image_content byte_of bsz l p = None.
Proof using bsz_ok.
  revert last. induction l as [|c l IH]; intros last; simpl; [done|].
  intros (H1 & Hc & Hl) Hp. destruct (padding_bounds bsz bsz_ok c) as [_ Hb]; [by destruct (bd_len _ _ Hc)|].
  rewrite decide_False by (unfold covers, ck_start; nia). eapply IH; [exact Hl|nia].
Qed.

Lemma read_body l last st pre rest f :
  img = pre ++ image_body byte_of bsz l last n ++ rest → fits bsz l last n →
  Forall representable l → 0 ≤ last → stands st (zlen pre) last f →
  ∃ st', read_chunks calloc_ok CHUNK_HEADER_LEN (Z.to_nat (image_chunks bsz l last n)) last None st
      = (Ret n, st') ∧
    stands st' (zlen (pre ++ image_body byte_of bsz l last n)) n
      (λ p, match image_content byte_of bsz l p with Some b => Some b | None => f p end).
Proof using bsz_ok bsz_4 memory_left fills n_ok len_ok.
  revert last st pre f. induction l as [|c l IH]; intros last st pre f; simpl.
  - intros Himg Hn _ Hl Hst. rewrite <- (Nat.add_0_r (Z.to_nat _)).
    destruct (read_gap 0 st pre rest last n f) as (st' & E & Hst'); [done|lia|lia|done|].
    exists st'. rewrite E. done.
  - intros Himg (H1 & Hc & Hfit) [Hr Hrl]%Forall_cons Hl Hst.
    pose proof (fits_le bsz bsz_ok l _ _ Hfit) as Hle.
    pose proof (image_chunks_bound bsz bsz_ok l _ _ Hfit) as Hcnt.
    destruct (padding_bounds bsz bsz_ok c) as [_ Hb]; [by destruct (bd_len _ _ Hc)|].
    replace (Z.to_nat (gaps last (ck_block c) + 1 + image_chunks bsz l (ck_block c + ck_blocks bsz c) n))
      with (Z.to_nat (gaps last (ck_block c)) +
            S (Z.to_nat (image_chunks bsz l (ck_block c + ck_blocks bsz c) n)))%nat
      by (unfold gaps; case_decide; lia).
    rewrite <- !(assoc_L (++)) in Himg.
    edestruct read_gap as (st1 & -> & Hst1); [exact Himg|lia|lia|exact Hst|].
    rewrite (assoc_L (++)) in Himg.
    edestruct read_image_chunk as (st2 & -> & Hst2); [exact Himg|done|done|lia|lia|exact Hst1|].
    rewrite (assoc_L (++)) in Himg.
    edestruct IH as (st3 & -> & Hst3); [exact Himg|done|done|lia|exact Hst2|].
    exists st3. split; [done|]. rewrite <- !(assoc_L (++)) in Hst3. eapply stands_ext; [exact Hst3|].
    intros p. case_decide as Hp.
    + rewrite (image_content_before l _ p Hfit); [by rewrite decide_True|].
      unfold covers, ck_start in Hp. lia.
    + by rewrite decide_False.
Qed.

(** *** Whole images *)

Lemma empty_list_ok h : list_ok h (backed_block_list_new bsz) [] [].
Proof using bsz_ok bsz_4.
  split; simpl; [|lia|done|split; constructor|constructor].
  split; simpl; [exists []; split; constructor|constructor|constructor|done|lia].
Qed.

Lemma dec_image_header chunks : 0 ≤ chunks < 2 ^ 32 →
  let hd := c_enc sparse_header_codec (image_header bsz (n * bsz) chunks false) in
  zlen hd = SPARSE_HEADER_LEN ∧ c_dec sparse_header_codec hd = image_header bsz (n * bsz) chunks false ∧
  total_blks (image_header bsz (n * bsz) chunks false) = n ∧
  total_chunks (image_header bsz (n * bsz) chunks false) = chunks.
Proof using bsz_ok n_ok len_ok.
  intros Hc hd. split; [done|].
  assert (E : image_header bsz (n * bsz) chunks false =
    mkSparseHeader SPARSE_HEADER_MAGIC 1 0 SPARSE_HEADER_LEN CHUNK_HEADER_LEN bsz n chunks 0).
  { unfold image_header. rewrite len_in_blocks by lia. by rewrite !u32_small by lia. }
  unfold hd. rewrite E. split; [|done]. apply (dec_enc_nil sparse_header_codec).
  simpl. split_and!; first [done|lia].
Qed.

Lemma image_header_accepted a len chunks crc : header_accepted (image_header a len chunks crc).
Proof using Type. unfold header_accepted. simpl. by split_and!. Qed.

(** The reader on the header: both passes read it. *)
Lemma read_image l st off :
  img = image_file byte_of bsz l n → fits bsz l 0 n → Forall representable l →
  rd_source st = mkBufSource start img 0 off → sf_block_size (rd_file st) = bsz →
  sf_len (rd_file st) = n * bsz → sf_list (rd_file st) = backed_block_list_new bsz →
  ∃ st', sparse_file_read_sparse calloc_ok false st = (Ret (), st') ∧
    stands st' (zlen img) n (image_content byte_of bsz l).
Proof using bsz_ok bsz_4 memory_left fills n_ok len_ok.
  intros Himg Hfit Hr Hsrc Hs1 Hs2 Hs3.
  pose proof (image_chunks_bound bsz bsz_ok l 0 n Hfit) as Hcnt.
  unfold image_file in Himg.
  destruct (dec_image_header (image_chunks bsz l 0 n)) as (Hlen & Hdec & Hblk & Hch); [lia|].
  set (hd := c_enc sparse_header_codec _) in *.
  assert (Hst : stands st 0 0 (λ _, None)).
  { split; [by eexists|]. split; [done|]. rewrite Hs3. split; [done|].
    exists [], []. split; [apply empty_list_ok|]. split; [constructor|done]. }
  destruct (stands_take (src_ReadValue SPARSE_HEADER_LEN) 0 hd (zlen hd) st 0 (λ _, None))
    as (st1 & E1 & Hst1 & _); [|done|].
  { rewrite Himg, <- Hlen. apply (takes_read start [] hd). done. }
  destruct (read_body l 0 st1 hd [] (λ _, None)) as (st2 & E2 & Hst2);
    [by rewrite app_nil_r|done|done|lia|done|].
  exists st2. split.
  - unfold sparse_file_read_sparse. rewrite (io_bind_eq _ _ _ _ _ E1). cbv zeta. rewrite Hdec.
    rewrite (io_require (header_accepted _)) by apply image_header_accepted.
    rewrite decide_False by done. rewrite (io_bind_eq (mret ()) _ st1 () st1) by done.
    rewrite Hch. rewrite (io_bind_eq _ _ _ _ _ E2). unfold lift. by rewrite require_True.
  - rewrite <- Himg in Hst2. eapply stands_ext; [exact Hst2|]. intros p. cbv beta. by destruct (image_content byte_of bsz l p).
Qed.

Lemma import_image l verbose h :
  img = image_file byte_of bsz l n → fits bsz l 0 n → Forall representable l →
  ∃ s' src' h' ls' l',
    sparse_file_import_buf calloc_ok start img verbose false h = (Ret s', (src', h')) ∧
    sf_block_size s' = bsz ∧ sf_len s' = n * bsz ∧ list_ok h' (sf_list s') ls' l' ∧
    ∀ p, buffer_byte start img <$> content bsz l' p = image_content byte_of bsz l p.
Proof using bsz_ok bsz_4 memory_left fills n_ok len_ok.
  intros Himg Hfit Hr. pose proof (image_chunks_bound bsz bsz_ok l 0 n Hfit) as Hcnt.
  destruct (dec_image_header (image_chunks bsz l 0 n)) as (Hlen & Hdec & Hblk & Hch); [lia|].
  unfold sparse_file_import_buf, sparse_file_import_source.
  destruct (takes_read start [] (c_enc sparse_header_codec (image_header bsz (n * bsz) (image_chunks bsz l 0 n) false))
    (image_body byte_of bsz l 0 n) ltac:(done) 0) as (off & E).
  unfold image_file in Himg. rewrite <- Himg in E. rewrite Hlen in E.
  set (st0 := mkBufSource start img 0 0) in *.
  change (zlen []) with 0 in E.
  set (hd := image_header _ _ _ _) in *.
  erewrite (io_bind_eq (src_ReadValue SPARSE_HEADER_LEN) _ st0) by exact E.
  cbv zeta. rewrite Hdec.
  rewrite (io_require (header_accepted hd)) by apply image_header_accepted.
  rewrite (io_require (blk_sz hd ≠ 0 ∧ blk_sz hd mod 4 = 0)).
  2:{ split; [simpl; lia|]. by apply Z.mod_divide. }
  rewrite (io_require (total_blks hd ≠ 0)) by lia.
  change ((src_Rewind ≫= _) _) with (Ret hd, st0).
  cbv beta iota. rewrite Hblk. change (blk_sz hd) with bsz. rewrite i64_small by nia.
  set (s0 := if verbose then _ else _).
  destruct (read_image l (mkReading st0 s0 h) 0 Himg Hfit Hr) as (st' & -> & Hst');
    [done|by destruct verbose..|].
  destruct Hst' as (_ & [Hs1 Hs2] & Hs3 & ls & l' & Hl & _ & Hc).
  by exists (rd_file st'), (rd_source st'), (rd_heap st'), ls, l'.
Qed.
End Read.
