(* ===== verification/SparseWrite.v ===== *)
(** * Writing an image to a file

    [sparse_file_write] first cuts every block into pieces of at most
    [MAX_BACKED_BLOCK_SIZE], then writes the pieces.  Cutting moves no byte of the
    image and terminates within [split_fuel]; the pieces fit the format, so the file
    can be read back. *)
From S2P Require Import Prelude Bytes Device SparseFormat BackedBlock BlockList SparseOutput SparseFile.
From S2P Require Import SparseImage SparseRead SparseRoundtrip.
From coqutil Require Import Byte.

(** ** Cuts *)

Inductive cuts (bsz : Z) : list chunk → list chunk → Prop :=
| cuts_refl l : cuts bsz l l
| cuts_step l1 c l2 n l' :
    (bsz | n) → 0 < n < ck_len c → cuts bsz (l1 ++ cut_chunk bsz n c ++ l2) l' →
    cuts bsz (l1 ++ c :: l2) l'.

(** A well-formed list, with ends below 2^63. *)
Record sound (bsz : Z) (l : list chunk) : Prop := {
  sn_laid : laid_out bsz l;
  sn_ends : Forall (λ c, ck_end bsz c < 2 ^ 63) l;
}.

Section Cuts.
Context (byte_of : source → byte) (bsz : Z) (bsz_ok : 0 < bsz) (bsz_4 : (4 | bsz)).

Lemma image_content_app l k p :
  image_content byte_of bsz (l ++ k) p =
  match image_content byte_of bsz l p with Some b => Some b | None => image_content byte_of bsz k p end.
Proof using Type. induction l as [|c l IH]; simpl; [done|]. by case_decide. Qed.

Lemma cut_blocks n c : (bsz | n) → 0 < n →
  n / bsz * bsz = n ∧ ck_blocks bsz (mkChunk (ck_block c) n (ck_from c)) = n / bsz ∧
  ∀ from, ck_blocks bsz (mkChunk (ck_block c + n / bsz) (ck_len c - n) from) = ck_blocks bsz c - n / bsz.
Proof using bsz_ok.
  intros [k ->] Hn. rewrite !Z.div_mul by lia. unfold ck_blocks. simpl. split_and!; [done| |].
  - replace (k * bsz + bsz - 1) with (bsz - 1 + k * bsz) by lia.
    rewrite Z.div_add, Z.div_small by lia. lia.
  - intros _. replace (ck_len c - k * bsz + bsz - 1) with (ck_len c + bsz - 1 + (- k) * bsz) by lia.
    rewrite Z.div_add by lia. lia.
Qed.

Lemma cut_source n c i : chunk_ok bsz c → (bsz | n) → 0 < n → 0 ≤ i → n + i < ck_len c ∨ (∃ v, ck_from c = BACKED_BLOCK_FILL v) →
  source_at (mkChunk (ck_block c + n / bsz) (ck_len c - n) (backing_advance (ck_from c) n)) i
    = source_at c (n + i).
Proof using bsz_ok bsz_4.
  intros [_ _ Ho] [k ->] Hn Hi Hc. unfold source_at. simpl.
  destruct (ck_from c) as [a|f o|fd o|v]; simpl.
  - f_equal. lia.
  - rewrite i64_small; [f_equal; lia|]. destruct Hc as [Hc|[v Hv]]; [lia|done].
  - rewrite i64_small; [f_equal; lia|]. destruct Hc as [Hc|[v Hv]]; [lia|done].
  - destruct bsz_4 as [w ->]. f_equal. rewrite (Z.mul_assoc k w 4), Z.add_comm. by rewrite Z.mod_add.
Qed.

Lemma cut_image_content n c p : chunk_ok bsz c → (bsz | n) → 0 < n < ck_len c →
  image_content byte_of bsz (cut_chunk bsz n c) p = image_content byte_of bsz [c] p.
Proof using bsz_ok bsz_4.
  intros Hok Hdiv Hn. destruct (cut_blocks n c Hdiv ltac:(lia)) as (E0 & E1 & E2).
  assert (Hlen : ck_len c ≤ ck_blocks bsz c * bsz).
  { unfold ck_blocks. pose proof (Z.div_mod (ck_len c + bsz - 1) bsz ltac:(lia)).
    pose proof (Z.mod_pos_bound (ck_len c + bsz - 1) bsz bsz_ok). lia. }
  set (c1 := mkChunk (ck_block c) n (ck_from c)) in *.
  set (c2 := mkChunk (ck_block c + n / bsz) (ck_len c - n) (backing_advance (ck_from c) n)).
  specialize (E2 (backing_advance (ck_from c) n)). fold c2 in E2.
  assert (S1 : covers bsz c1 p ↔ ck_start bsz c ≤ p < ck_start bsz c + n).
  { unfold covers. rewrite E1. unfold ck_start. simpl. lia. }
  assert (S2 : covers bsz c2 p ↔ ck_start bsz c + n ≤ p < ck_start bsz c + ck_blocks bsz c * bsz).
  { unfold covers. rewrite E2. unfold ck_start. simpl. nia. }
  change (image_content byte_of bsz (cut_chunk bsz n c) p) with
    (if decide (covers bsz c1 p) then Some (padded_byte byte_of c1 (p - ck_start bsz c1))
     else if decide (covers bsz c2 p) then Some (padded_byte byte_of c2 (p - ck_start bsz c2)) else None).
  simpl. destruct (decide (covers bsz c p)) as [Hc|Hc].
  - unfold covers in Hc. destruct (decide (covers bsz c1 p)) as [H1%S1|H1];
      [|rewrite S1 in H1; rewrite decide_True by (apply S2; lia)]; f_equal.
    + unfold padded_byte. simpl. change (ck_start bsz c1) with (ck_start bsz c).
      change (source_at c1) with (source_at c).
      destruct (ck_from c); [rewrite !decide_True by lia..|]; done.
    + replace (p - ck_start bsz c2) with (p - ck_start bsz c - n) by (unfold ck_start; simpl; lia).
      set (i := p - ck_start bsz c - n). replace (p - ck_start bsz c) with (n + i) by lia.
      assert (Hi : 0 ≤ i) by lia.
      pose proof (cut_source n c i Hok Hdiv ltac:(lia) Hi) as Hsrc. fold c2 in Hsrc.
      unfold padded_byte. unfold c2 at 1. simpl.
      destruct (ck_from c) eqn:Ef; simpl; [..|apply f_equal, Hsrc; eauto].
      all: destruct (decide (n + i < ck_len c)); [|by rewrite decide_False by lia].
      all: rewrite decide_True by lia; f_equal; apply Hsrc; lia.
  - unfold covers in Hc. rewrite !decide_False; [done|rewrite S2; lia|rewrite S1; lia].
Qed.

(** Cutting keeps the list well formed, its extent, its fill values and its bytes. *)
Lemma cuts_ok l l' : cuts bsz l l' → sound bsz l →
  sound bsz l' ∧ (∀ p, content bsz l' p = content bsz l p) ∧
  (∀ p, image_content byte_of bsz l' p = image_content byte_of bsz l p) ∧
  (∀ B, Forall (λ c, ck_end bsz c ≤ B) l → Forall (λ c, ck_end bsz c ≤ B) l') ∧
  ∀ P, Forall (λ c, ∀ v, ck_from c = BACKED_BLOCK_FILL v → P v) l →
       Forall (λ c, ∀ v, ck_from c = BACKED_BLOCK_FILL v → P v) l'.
Proof using bsz_ok bsz_4.
  induction 1 as [l|l1 c l2 n l' Hdiv Hn Hcuts IH]; [by intros|]. intros [Hlo Hend].
  destruct (cut_laid_out bsz n l1 c l2) as (G1 & G2 & G3); try done.
  destruct (IH ltac:(done)) as (IH1 & IH2 & IH3 & IH4 & IH5). split; [done|].
  pose proof Hlo as (_ & (Hc & _)%laid_out_cons & _)%laid_out_app.
  split_and!.
  - intros p. by rewrite IH2, G3.
  - intros p. rewrite IH3. change (c :: l2) with ([c] ++ l2).
    by rewrite !image_content_app, cut_image_content.
  - intros B [H1 [H2 H3]%Forall_cons]%Forall_app. apply IH4.
    rewrite !Forall_app. split_and!; [done| |done].
    destruct (cut_blocks n c Hdiv ltac:(lia)) as (E0 & _).
    repeat constructor; unfold ck_end, ck_start in *; simpl; nia.
  - intros P [H1 [H2 H3]%Forall_cons]%Forall_app. apply IH5.
    rewrite !Forall_app. split_and!; [done| |done].
    repeat constructor; simpl; [done|]. intros v Hv. apply H2.
    destruct (ck_from c); simplify_eq/=; done.
Qed.
End Cuts.

(** ** The loop that cuts *)

(** The pieces of at most [N] bytes, one more than the whole ones. *)
Definition pieces (N : Z) (l : list chunk) : nat :=
  foldr (λ c n, S (Z.to_nat (ck_len c / N)) + n)%nat 0%nat l.

(** The node behind the first part of a list. *)
Lemma node_at h bbl ls1 bb ls2 l1 c l2 :
  list_state h bbl (ls1 ++ bb :: ls2) (l1 ++ c :: l2) → length ls1 = length l1 →
  ∃ b, h !! bb = Some b ∧ bb_next b = head ls2 ∧ val b = c.
Proof.
  intros [(bs & Hc & Hv) _ _ _ _] Hlen.
  destruct (chain_split _ _ _ _ _ Hc) as (bs1 & R & q & -> & Hlen1 & Hcq & _ & _).
  rewrite fmap_app in Hv. apply app_inj_1 in Hv as [_ Hv]; [|rewrite length_fmap; lia].
  destruct R as [|b bs2]; [done|]. csimpl in Hv. injection Hv as <- _.
  destruct (chain_inv _ _ _ _ _ _ Hcq) as (_ & Hbb & Hc2). exists b. split; [done|]. split; [|done].
  by inversion Hc2.
Qed.

Lemma split_blocks_ok calloc_ok fuel h bbl ls1 ls2 l1 l2 :
  (∀ h, calloc_ok h = true) → list_ok h bbl (ls1 ++ ls2) (l1 ++ l2) → length ls1 = length l1 →
  let bsz := bbl_block_size bbl in let N := ALIGN_DOWN MAX_BACKED_BLOCK_SIZE bsz in
  0 < N → (pieces N l2 ≤ fuel)%nat → Forall (λ c, ck_len c ≤ N) l1 →
  ∃ h' ls' l', split_blocks calloc_ok fuel bbl (head ls2) h = (Ret (), h') ∧
    list_ok h' bbl ls' l' ∧ cuts bsz (l1 ++ l2) l' ∧ Forall (λ c, ck_len c ≤ N) l'.
Proof.
  intros Hcal Hl Hlen bsz N HN. revert h ls1 ls2 l1 l2 Hl Hlen.
  induction fuel as [|fuel IH]; intros h ls1 ls2 l1 l2 Hl Hlen Hfuel Hsmall.
  all: pose proof Hl as [Hst _ _ _ _].
  all: assert (Hls : length ls2 = length l2).
  1,3: destruct Hst as [(bs & Hc & Hv) _ _ _ _]; apply chain_length in Hc;
       apply (f_equal length) in Hv; rewrite length_fmap in Hv; rewrite !length_app in *; lia.
  all: destruct ls2 as [|bb ls2], l2 as [|c l2]; try done.
  1,3: exists h, (ls1 ++ []), (l1 ++ []); split_and!; [done|done|constructor|by rewrite app_nil_r].
  { simpl in Hfuel. lia. }
  simpl in Hfuel. cbn [split_blocks head].
  pose proof (backed_block_split_ok calloc_ok h bbl ls1 bb ls2 l1 c l2 MAX_BACKED_BLOCK_SIZE Hl Hlen
    HN (Hcal h)) as Hsplit. cbv zeta in Hsplit. fold bsz N in Hsplit.
  destruct (decide (ck_len c ≤ N)) as [Hle|Hgt].
  - rewrite Hsplit. simpl. destruct (node_at _ _ _ _ _ _ _ _ Hst Hlen) as (b & -> & Hnext & _).
    simpl. rewrite Hnext.
    destruct (IH h (ls1 ++ [bb]) ls2 (l1 ++ [c]) l2) as (h' & ls' & l' & E & H1 & H2 & H3).
    + by rewrite <- !(assoc_L (++)).
    + rewrite !length_app. simpl. lia.
    + lia.
    + apply Forall_app. split; [done|by constructor].
    + exists h', ls', l'. rewrite <- (assoc_L (++)) in H2. done.
  - destruct Hsplit as (h1 & new & -> & Hl1 & _). simpl. unfold cut_chunk in Hl1. simpl in Hl1.
    destruct (node_at _ _ _ _ _ _ _ _ (lk_state _ _ _ _ Hl1) Hlen) as (b & -> & Hnext & _).
    simpl. rewrite Hnext.
    set (c1 := mkChunk (ck_block c) N (ck_from c)) in *. set (c2 := mkChunk _ _ (backing_advance _ _)) in *.
    destruct (IH h1 (ls1 ++ [bb]) (new :: ls2) (l1 ++ [c1]) (c2 :: l2))
      as (h' & ls' & l' & E & H1 & H2 & H3).
    + by rewrite <- !(assoc_L (++)).
    + rewrite !length_app. simpl. lia.
    + simpl. replace (ck_len c - N) with (ck_len c + (-1) * N) by lia. rewrite Z.div_add by lia.
      assert (1 ≤ ck_len c / N) by (apply Z.div_le_lower_bound; lia). lia.
    + apply Forall_app. split; [done|]. constructor; [simpl; lia|done].
    + exists h', ls', l'. split_and!; [done|done| |done].
      eapply (cuts_step bsz l1 c l2 N); [apply Z.divide_factor_l|lia|].
      rewrite <- (assoc_L (++)) in H2. exact H2.
Qed.

Lemma split_fuel_pieces bs bsz :
  split_fuel bs bsz = S (pieces (ALIGN_DOWN MAX_BACKED_BLOCK_SIZE bsz) (val <$> bs)).
Proof. induction bs as [|b bs IH]; [done|]. unfold split_fuel in *. csimpl. rewrite IH. change (ck_len (val b)) with (bb_len b). lia. Qed.

Lemma align_down_bound bsz : 0 < bsz ≤ MAX_BACKED_BLOCK_SIZE →
  0 < ALIGN_DOWN MAX_BACKED_BLOCK_SIZE bsz ≤ MAX_BACKED_BLOCK_SIZE.
Proof.
  intros Hb. unfold ALIGN_DOWN. pose proof (Z.div_mod MAX_BACKED_BLOCK_SIZE bsz ltac:(lia)).
  pose proof (Z.mod_pos_bound MAX_BACKED_BLOCK_SIZE bsz ltac:(lia)).
  assert (1 ≤ MAX_BACKED_BLOCK_SIZE / bsz) by (apply Z.div_le_lower_bound; lia). nia.
Qed.

(** The loop as [sparse_file_write] calls it. *)
Lemma split_file_ok calloc_ok h s ls l bs :
  (∀ h, calloc_ok h = true) → list_ok h (sf_list s) ls l →
  bbl_block_size (sf_list s) = sf_block_size s →
  0 < sf_block_size s ≤ MAX_BACKED_BLOCK_SIZE → sf_blocks h s = Ret bs →
  let bsz := sf_block_size s in
  ∃ h' ls' l',
    split_blocks calloc_ok (split_fuel bs bsz) (sf_list s) (data_blocks (sf_list s)) h = (Ret (), h') ∧
    list_ok h' (sf_list s) ls' l' ∧ cuts bsz l l' ∧
    Forall (λ c, ck_len c ≤ ALIGN_DOWN MAX_BACKED_BLOCK_SIZE bsz) l' ∧
    ∀ pos, content bsz l' pos = content bsz l pos.
Proof.
  intros Hcal Hl Hsz Hb Hbs bsz. fold bsz in Hsz, Hb. pose proof (align_down_bound bsz Hb) as HN.
  pose proof Hl as [Hst _ Hw4 Hlo He63]. rewrite Hsz in Hw4, Hlo, He63.
  destruct (list_state_blocks _ _ _ _ Hst) as (bs' & Ebs & Hv).
  unfold sf_blocks in Hbs. rewrite Ebs in Hbs. injection Hbs as ->.
  destruct Hst as [(bs0 & Hc0 & _) _ _ _ _].
  assert (Hhead : data_blocks (sf_list s) = head ls) by (by inversion Hc0).
  destruct (split_blocks_ok calloc_ok (split_fuel bs bsz) h (sf_list s) [] ls [] l Hcal Hl eq_refl)
    as (h1 & ls1 & l1 & E1 & Hl1 & Hcuts & Hsmall).
  { rewrite Hsz. lia. }
  { rewrite Hsz, split_fuel_pieces, Hv. lia. }
  { constructor. }
  rewrite Hsz in Hcuts, Hsmall. simpl in Hcuts.
  destruct (cuts_ok (λ _, Byte.x00) bsz ltac:(lia) Hw4 l l1 Hcuts) as (_ & Hc & _); [done|].
  exists h1, ls1, l1. by rewrite Hhead.
Qed.

(** ** Files that grow at their end *)

Lemma file_store_end c bs : file_store c (zlen c) bs = c ++ bs.
Proof.
  unfold file_store, overwrite, zero_extend, zlen.
  rewrite !Nat2Z.id, take_app_length, (drop_ge (c ++ _)), app_nil_r; [done|].
  rewrite length_app, length_zeroes. lia.
Qed.

(** A file in memory, standing at its end, takes everything it is given at once. *)
Lemma memfile_appends patience : (0 < patience)%nat →
  appends (λ f : MemFile, mf_pos f = zlen (mf_bytes f)) mf_bytes (file_ops patience).
Proof.
  intros Hp data f Hf. destruct patience as [|n]; [lia|].
  change (op_write _) with (file_write (D := MemFile) (S n)). unfold file_write.
  destruct data as [|x data]; [by exists f; rewrite app_nil_r|].
  cbn [file_write_loop]. set (d := x :: data) in *.
  exists (mkFile (mf_bytes f ++ d) (mf_pos f + zlen d)). split_and!.
  - rewrite (io_bind_eq (sys_write d) _ f (Wrote (length d)) (mkFile (mf_bytes f ++ d) (mf_pos f + zlen d))).
    + cbv beta iota. rewrite drop_all. by destruct n.
    + simpl. by rewrite Hf, file_store_end.
  - simpl. by rewrite zlen_app, Hf.
  - done.
Qed.

(** ** Writing and reading back *)

Section RoundTrip.
Context (env : Env) (byte_of : source → byte) (memory : env_ok env byte_of).
Context {D : Type} `{!Posix D, !Gz D} (patience : nat) (gz : bool).
Context (ready : D → Prop) (written : D → bytes).
Context (stores : appends ready written (if gz then gz_file_ops patience else file_ops patience)).
Context (calloc_ok : heap → bool) (memory_left : ∀ h, calloc_ok h = true).

(** A sparse file of [n] blocks whose list is [l]. *)
Record file_ok (h : heap) (s : sparse_file) (n : Z) (l : list chunk) : Prop := {
  fo_list : ∃ ls, list_ok h (sf_list s) ls l;
  fo_size : bbl_block_size (sf_list s) = sf_block_size s;
  fo_bound : 0 < sf_block_size s ≤ MAX_BACKED_BLOCK_SIZE;
  fo_len : sf_len s = n * sf_block_size s;
  fo_blocks : 0 < n < 2 ^ 31;
  fo_ends : Forall (λ c, ck_end (sf_block_size s) c ≤ n * sf_block_size s) l;
  fo_fills : Forall (λ c, ∀ v, ck_from c = BACKED_BLOCK_FILL v → 0 ≤ v < 2 ^ 32) l;
}.

(** Pieces of the size [sparse_file_write] cuts fit the format. *)
Lemma pieces_representable bsz l : 0 < bsz ≤ MAX_BACKED_BLOCK_SIZE →
  Forall (chunk_ok bsz) l → Forall (λ c, ck_len c ≤ ALIGN_DOWN MAX_BACKED_BLOCK_SIZE bsz) l →
  Forall (λ c, ∀ v, ck_from c = BACKED_BLOCK_FILL v → 0 ≤ v < 2 ^ 32) l →
  Forall (representable bsz) l.
Proof using Type.
  intros Hb Hok Hlen Hf. pose proof (align_down_bound bsz Hb).
  assert (HM : MAX_BACKED_BLOCK_SIZE = 67108864) by done.
  assert (HC : CHUNK_HEADER_LEN = 12) by done.
  rewrite Forall_forall in *. intros c Hc. specialize (Hok c Hc). specialize (Hlen c Hc).
  destruct (padding_bounds bsz ltac:(lia) c) as [Hp _]; [by destruct (cok_len _ _ Hok)|].
  unfold padding in Hp. unfold representable. destruct (ck_from c) eqn:Ef; [lia..|by apply (Hf c)].
Qed.

Lemma write_read_image h s n l fd :
  file_ok h s n l → ready fd →
  let bsz := sf_block_size s in
  ∃ h1 fd' img, sparse_file_write env calloc_ok patience s gz true false h fd = (Ret (), h1, fd') ∧
    written fd' = written fd ++ img ∧
    ∀ start verbose h2, ∃ s' src h3 ls' l',
      sparse_file_import_buf calloc_ok start img verbose false h2 = (Ret s', (src, h3)) ∧
      sf_block_size s' = bsz ∧ sf_len s' = sf_len s ∧ list_ok h3 (sf_list s') ls' l' ∧
      ∀ pos, buffer_byte start img <$> content bsz l' pos = image_content byte_of bsz l pos.
Proof using memory stores memory_left.
  intros [[ls Hl] Hsz Hb Hlen Hn Hends Hfills] Hrd bsz. fold bsz in Hsz, Hb, Hlen, Hends.
  assert (HM : MAX_BACKED_BLOCK_SIZE = 67108864) by done.
  pose proof Hl as [Hst _ Hw4 Hlo He63]. rewrite Hsz in Hw4, Hlo, He63.
  destruct (list_state_blocks _ _ _ _ Hst) as (bs & Ebs & _).
  destruct (split_file_ok calloc_ok h s ls l bs memory_left Hl Hsz Hb Ebs)
    as (h1 & ls1 & l1 & E1 & Hl1 & Hcuts & Hsmall & _). fold bsz in E1, Hcuts, Hsmall.
  destruct (cuts_ok byte_of bsz ltac:(lia) Hw4 l l1 Hcuts) as ([Hlo1 _] & _ & Himg & He1 & Hf1); [done|].
  specialize (He1 _ Hends). specialize (Hf1 _ Hfills).
  destruct (list_state_blocks _ _ _ _ (lk_state _ _ _ _ Hl1)) as (bs1 & Ebs1 & <-).
  assert (Hbytes : n * bsz + bsz < 2 ^ 63) by nia.
  assert (Hfit : fits bsz (val <$> bs1) 0 n).
  { apply laid_out_fits; [lia|done| |done|lia|lia].
    eapply Forall_impl; [apply (lo_chunks _ _ Hlo1)|]. intros c Hc. by destruct (cok_block _ _ Hc). }
  destruct (write_opened_ok byte_of bsz ready written _ stores env memory ltac:(lia) s bs1 n eq_refl Hlen
    Hfit ltac:(lia) ltac:(lia) fd _ Hrd eq_refl) as (fd' & E2 & _ & Ew).
  exists h1, fd', (image_file byte_of bsz (val <$> bs1) n). split_and!.
  - unfold sparse_file_write, sf_blocks. rewrite Ebs. fold bsz. rewrite E1, Ebs1. cbn [mbind outcome_mbind].
    rewrite (sparse_count_chunks_ok bsz ltac:(lia) s bs1 n eq_refl Hlen Hfit ltac:(lia) ltac:(lia)).
    cbn [mbind outcome_mbind]. unfold output_file_open_fd. cbv beta iota zeta. fold bsz. rewrite Hlen. by rewrite E2.
  - done.
  - intros start verbose h2.
    destruct (import_image byte_of bsz ltac:(lia) Hw4 calloc_ok memory_left start _ n
      (ev_fill _ _ memory) ltac:(lia) ltac:(lia) (val <$> bs1) verbose h2 eq_refl Hfit)
      as (s' & src & h3 & ls' & l' & E3 & Hs1 & Hs2 & Hl' & Hc').
    { apply pieces_representable; [lia|apply (lo_chunks _ _ Hlo1)|done|done]. }
    exists s', src, h3, ls', l'. split_and!; [done|done|by rewrite Hlen|done|].
    intros pos. by rewrite Hc', Himg.
Qed.
End RoundTrip.
