(* ===== verification/DmTarget.v ===== *)
(** * Device-mapper targets and tables ([libdm/dm_target.cpp], [libdm/dm_table.cpp])

    A target maps a range of logical sectors; a table is a list of targets in the
    order they were added.  [Serialize] gives the records that the [DM_TABLE_LOAD]
    ioctl takes.  The layout of the kernel's [struct dm_target_spec] is a parameter
    ([DmFormat]). *)
From stdpp Require Import pretty.
From S2P Require Import Prelude Bytes.

(** [std::to_string] of an unsigned number. *)
Definition to_string (n : Z) : bytes := str (pretty n).
Definition space : bytes := str " ".
(** [android::base::Join]. *)
Fixpoint Join (things : list bytes) (separator : bytes) : bytes :=
  match things with
  | [] => []
  | [x] => x
  | x :: things => x ++ separator ++ Join things separator
  end.

(** ** Targets *)

(** [libdm/include/libdm/dm_target.h:189-197 SnapshotStorageMode] *)
Inductive SnapshotStorageMode := Persistent | Transient | Merge.
#[export] Instance mode_eq_dec : EqDecision SnapshotStorageMode.
Proof. solve_decision. Defined.

(** [libdm/include/libdm/dm_target.h:251-282 DmTargetCrypt] *)
Record CryptOptions := mkCrypt {
  cipher_ : bytes;
  key_ : bytes;
  iv_sector_offset_ : Z;
  device_ : bytes;
  device_sector_ : Z;
  allow_discards_ : bool;
  allow_encrypt_override_ : bool;
  iv_large_sectors_ : bool;
  sector_size_ : Z;
}.
(** [libdm/include/libdm/dm_target.h:284-311 DmTargetDefaultKey] *)
Record DefaultKeyOptions := mkDefaultKey {
  dk_cipher : bytes;
  dk_key : bytes;
  blockdev_ : bytes;
  start_sector_ : Z;
  use_legacy_options_format_ : bool;
  set_dun_ : bool;
  is_hw_wrapped_ : bool;
}.
#[export] Instance crypt_eq_dec : EqDecision CryptOptions.
Proof. solve_decision. Defined.
#[export] Instance default_key_eq_dec : EqDecision DefaultKeyOptions.
Proof. solve_decision. Defined.

(** What the subclasses add to the range.
    [libdm/include/libdm/dm_target.h:96-332 DmTarget subclasses] *)
Inductive TargetKind :=
| DmTargetZero
| DmTargetLinear (block_device : bytes) (physical_sector : Z)
| DmTargetVerity (base_args optional_args : list bytes) (valid : bool)
| DmTargetAndroidVerity (block_device keyid : bytes)
| DmTargetVerityString (target_string : bytes)
| DmTargetBow (target_string : bytes) (block_size : Z)
| DmTargetSnapshot (base_device cow_device : bytes) (mode : SnapshotStorageMode) (chunk_size : Z)
| DmTargetSnapshotOrigin (device : bytes)
| DmTargetCrypt (options : CryptOptions)
| DmTargetDefaultKey (options : DefaultKeyOptions)
| DmTargetUser (control_device : bytes)
| DmTargetError.
(** [libdm/include/libdm/dm_target.h:62-94 DmTarget] *)
Record DmTarget := mkTarget {
  dt_start : Z;
  dt_length : Z;
  dt_kind : TargetKind;
}.
#[export] Instance target_kind_eq_dec : EqDecision TargetKind.
Proof. solve_decision. Defined.
#[export] Instance target_eq_dec : EqDecision DmTarget.
Proof. solve_decision. Defined.

(** [libdm/dm_target.cpp:64-83 DmTargetVerity] *)
Definition new_verity (start length version : Z) (block_device hash_device : bytes)
    (data_block_size hash_block_size num_data_blocks hash_start_block : Z)
    (hash_algorithm root_digest salt : bytes) : DmTarget :=
  mkTarget start length (DmTargetVerity
    [to_string version; block_device; hash_device; to_string data_block_size;
     to_string hash_block_size; to_string num_data_blocks; to_string hash_start_block;
     hash_algorithm; root_digest; salt] [] true).
Definition add_optional (args : list bytes) (k : TargetKind) : TargetKind :=
  match k with DmTargetVerity base opt valid => DmTargetVerity base (opt ++ args) valid | k => k end.
(** [libdm/dm_target.cpp:85-95 DmTargetVerity::UseFec] *)
Definition UseFec (device : bytes) (num_roots num_blocks start : Z) : TargetKind → TargetKind :=
  add_optional [str "use_fec_from_device"; device; str "fec_roots"; to_string num_roots;
    str "fec_blocks"; to_string num_blocks; str "fec_start"; to_string start].
(** [libdm/dm_target.cpp:97-106 DmTargetVerity::SetVerityMode] *)
Definition SetVerityMode (mode : bytes) (k : TargetKind) : TargetKind :=
  if decide (mode ≠ str "panic_on_corruption" ∧ mode ≠ str "restart_on_corruption" ∧
             mode ≠ str "ignore_corruption")
  then match k with DmTargetVerity base opt _ => DmTargetVerity base opt false | k => k end
  else add_optional [mode] k.
(** [libdm/dm_target.cpp:108-110 DmTargetVerity::IgnoreZeroBlocks] *)
Definition IgnoreZeroBlocks : TargetKind → TargetKind := add_optional [str "ignore_zero_blocks"].
(** [libdm/dm_target.cpp:112-114 DmTargetVerity::CheckAtMostOnce] *)
Definition CheckAtMostOnce : TargetKind → TargetKind := add_optional [str "check_at_most_once"].

(** The virtual [name()] of every class; that of a snapshot is
    [libdm/dm_target.cpp:134-139 DmTargetSnapshot::name] *)
Definition target_name (k : TargetKind) : bytes :=
  match k with
  | DmTargetZero => str "zero"
  | DmTargetLinear _ _ => str "linear"
  | DmTargetVerity _ _ _ | DmTargetVerityString _ => str "verity"
  | DmTargetAndroidVerity _ _ => str "android-verity"
  | DmTargetBow _ _ => str "bow"
  | DmTargetSnapshot _ _ Merge _ => str "snapshot-merge"
  | DmTargetSnapshot _ _ _ _ => str "snapshot"
  | DmTargetSnapshotOrigin _ => str "snapshot-origin"
  | DmTargetCrypt _ => str "crypt"
  | DmTargetDefaultKey _ => str "default-key"
  | DmTargetUser _ => str "user"
  | DmTargetError => str "error"
  end.
(** The virtual [Valid()]; that of a default-key target is
    [libdm/dm_target.cpp:257-260 DmTargetDefaultKey::Valid] *)
Definition target_Valid (k : TargetKind) : bool :=
  match k with
  | DmTargetVerity _ _ valid => valid
  | DmTargetDefaultKey o => negb (negb (use_legacy_options_format_ o) && negb (set_dun_ o))
  | _ => true
  end.

(** [libdm/dm_target.cpp:116-123 DmTargetVerity::GetParameterString] *)
Definition verity_parameters (base_args optional_args : list bytes) : bytes :=
  let base := Join base_args space in
  if decide (optional_args = []) then base
  else base ++ space ++ to_string (zlen optional_args) ++ space ++ Join optional_args space.
(** [reports_overflow] is the result of [ReportsOverflow(name())].
    [libdm/dm_target.cpp:141-162 DmTargetSnapshot::GetParameterString] *)
Definition snapshot_parameters (reports_overflow : bool) (base_device cow_device : bytes)
    (mode : SnapshotStorageMode) (chunk_size : Z) : bytes :=
  let mode := match mode with
              | Persistent | Merge => str "P" ++ if reports_overflow then str "O" else []
              | Transient => str "N"
              end in
  base_device ++ space ++ cow_device ++ space ++ mode ++ space ++ to_string chunk_size.
Definition opt_arg (b : bool) (arg : bytes) : list bytes := if b then [arg] else [].
(** [libdm/dm_target.cpp:236-255 DmTargetCrypt::GetParameterString] *)
Definition crypt_parameters (o : CryptOptions) : bytes :=
  let extra := opt_arg (allow_discards_ o) (str "allow_discards") ++
               opt_arg (allow_encrypt_override_ o) (str "allow_encrypt_override") ++
               opt_arg (iv_large_sectors_ o) (str "iv_large_sectors") ++
               opt_arg (bool_decide (sector_size_ o ≠ 0))
                 (str "sector_size:" ++ to_string (sector_size_ o)) in
  Join ([cipher_ o; key_ o; to_string (iv_sector_offset_ o); device_ o; to_string (device_sector_ o)] ++
        (if decide (extra = []) then [] else [to_string (zlen extra)]) ++ extra) space.
(** [libdm/dm_target.cpp:262-287 DmTargetDefaultKey::GetParameterString] *)
Definition default_key_parameters (o : DefaultKeyOptions) : bytes :=
  let legacy := use_legacy_options_format_ o in
  let extra := if legacy then opt_arg (set_dun_ o) (str "set_dun")
               else [str "allow_discards"; str "sector_size:4096"; str "iv_large_sectors"] ++
                    opt_arg (is_hw_wrapped_ o) (str "wrappedkey_v0") in
  Join ([dk_cipher o; dk_key o] ++ opt_arg (negb legacy) (str "0") ++
        [blockdev_ o; to_string (start_sector_ o)] ++
        (if decide (extra = []) then [] else to_string (zlen extra) :: extra)) space.

(** The virtual [GetParameterString()]; that of a linear target is
    [libdm/dm_target.cpp:60-62 DmTargetLinear::GetParameterString] *)
Definition GetParameterString (reports_overflow : bool) (t : DmTarget) : bytes :=
  match dt_kind t with
  | DmTargetZero | DmTargetError => []
  | DmTargetLinear block_device physical_sector => block_device ++ space ++ to_string physical_sector
  | DmTargetVerity base opt _ => verity_parameters base opt
  | DmTargetAndroidVerity block_device keyid => keyid ++ space ++ block_device
  | DmTargetVerityString s => s
  | DmTargetBow s size =>
      if decide (size = 0) then s else s ++ str " 1 block_size:" ++ to_string size
  | DmTargetSnapshot base cow mode chunk => snapshot_parameters reports_overflow base cow mode chunk
  | DmTargetSnapshotOrigin device => device
  | DmTargetCrypt o => crypt_parameters o
  | DmTargetDefaultKey o => default_key_parameters o
  | DmTargetUser control => Join [to_string (dt_start t); to_string (dt_length t); control] space
  end.

(** ** Records for the kernel *)

(** The members of [struct dm_target_spec]. *)
Record dm_target_spec := mkSpec {
  sector_start : Z;
  spec_length : Z;
  spec_status : Z;
  spec_next : Z;
  target_type : bytes;
}.
(** Its layout, and the size of its character array. *)
Class DmFormat := {
  DM_MAX_TYPE_NAME : nat;
  spec_codec : codec dm_target_spec;
  #[global] spec_codec_ok :: CodecOk spec_codec;
  spec_wf s : c_wf spec_codec s ↔
    is_u64 (sector_start s) ∧ is_u64 (spec_length s) ∧ is_u32 (spec_status s) ∧
    is_u32 (spec_next s) ∧ length (target_type s) = DM_MAX_TYPE_NAME;
}.

(** [libdm/include/libdm/dm.h:45-46 DM_ALIGN] *)
Definition DM_ALIGN (x : Z) : Z := Z.land (u64 (x + 7)) (Z.lnot 7).

(** [snprintf(dst, n, "%s", s)] into zeroed memory. *)
Definition snprintf_s (n : nat) (s : bytes) : bytes :=
  let s := take (n - 1) (cstr s) in s ++ zeroes (n - length s).

Section Serialize.
Context `{!DmFormat} (reports_overflow : bytes → bool).

(** [libdm/dm_target.cpp:33-53 DmTarget::Serialize] *)
Definition target_Serialize (t : DmTarget) : bytes :=
  let params := GetParameterString (reports_overflow (target_name (dt_kind t))) t ++ zeroes 1 in
  let size := sizeof spec_codec + zlen params in
  let padding := DM_ALIGN size - size in
  c_enc spec_codec (mkSpec (dt_start t) (dt_length t) 0 (u32 (size + padding))
                      (snprintf_s DM_MAX_TYPE_NAME (target_name (dt_kind t)))) ++
  params ++ zeroes (Z.to_nat padding).
End Serialize.

(** ** Tables *)

(** [libdm/include/libdm/dm_table.h:31-90 DmTable] *)
Record DmTable := mkDmTable {
  targets_ : list DmTarget;
  num_sectors_ : Z;
  readonly_ : bool;
}.
#[export] Instance dm_table_eq_dec : EqDecision DmTable.
Proof. solve_decision. Defined.

(** [libdm/include/libdm/dm_table.h:33-33 DmTable::DmTable] *)
Definition empty_table : DmTable := mkDmTable [] 0 false.
(** [libdm/dm_table.cpp:25-32 DmTable::AddTarget] *)
Definition AddTarget (target : DmTarget) (t : DmTable) : outcome DmTable :=
  _ ← require (target_Valid (dt_kind target) = true);
  Ret (mkDmTable (targets_ t ++ [target]) (u64 (num_sectors_ t + dt_length target)) (readonly_ t)).
(** [libdm/dm_table.cpp:34-36 DmTable::RemoveTarget] *)
Definition RemoveTarget (target : DmTarget) (t : DmTable) : bool * DmTable := (true, t).

(** A [const char*] returned as a [bool]: a string literal is not null. *)
Definition literal_as_bool (s : bytes) : bool := true.
(** [libdm/dm_table.cpp:38-48 DmTable::valid] *)
Definition table_valid (t : DmTable) : bool :=
  match targets_ t with
  | [] => literal_as_bool []
  | target :: _ => if decide (dt_start target ≠ 0) then literal_as_bool [] else true
  end.
(** [libdm/dm_table.cpp:50-52 DmTable::num_sectors] *)
Definition table_num_sectors (t : DmTable) : Z := if table_valid t then num_sectors_ t else 0.
(** [libdm/dm_table.cpp:60-70 DmTable::Serialize] *)
Definition table_Serialize `{!DmFormat} (reports_overflow : bytes → bool) (t : DmTable) : bytes :=
  if table_valid t then concat (target_Serialize reports_overflow <$> targets_ t) else [].
(** [libdm/include/libdm/dm_table.h:71-71 DmTable::set_readonly] *)
Definition set_readonly (readonly : bool) (t : DmTable) : DmTable :=
  mkDmTable (targets_ t) (num_sectors_ t) readonly.

(** ** What a target and a table map *)

(** Where a logical sector leads. *)
Inductive Mapped :=
| ToDevice (device : bytes) (sector : Z)
| ToZeroes
| ToOther (t : DmTarget).
#[export] Instance mapped_eq_dec : EqDecision Mapped.
Proof. solve_decision. Defined.
Definition target_map (t : DmTarget) (s : Z) : Mapped :=
  match dt_kind t with
  | DmTargetLinear device first => ToDevice device (first + (s - dt_start t))
  | DmTargetZero => ToZeroes
  | _ => ToOther t
  end.
(** The first target whose range has the sector. *)
Fixpoint targets_map (ts : list DmTarget) (s : Z) : option Mapped :=
  match ts with
  | [] => None
  | t :: ts => if decide (dt_start t ≤ s < dt_start t + dt_length t) then Some (target_map t s)
               else targets_map ts s
  end.
Definition table_map (t : DmTable) (s : Z) : option Mapped := targets_map (targets_ t) s.

(** Targets that follow each other without gap from sector [first] to [last]. *)
Fixpoint contiguous (ts : list DmTarget) (first last : Z) : Prop :=
  match ts with
  | [] => first = last
  | t :: ts => dt_start t = first ∧ 0 ≤ dt_length t ∧ contiguous ts (first + dt_length t) last
  end.

(** * Properties *)

(** ** Alignment *)

Lemma DM_ALIGN_ok x : 0 ≤ x → x + 7 < 2 ^ 64 → x ≤ DM_ALIGN x < x + 8 ∧ (8 | DM_ALIGN x).
Proof.
  intros H0 H1. unfold DM_ALIGN. rewrite u64_small by lia.
  change (Z.lnot 7) with (Z.lnot (Z.ones 3)).
  rewrite <- Z.ldiff_land, Z.ldiff_ones_r, Z.shiftl_mul_pow2, Z.shiftr_div_pow2 by lia.
  change (2 ^ 3) with 8. pose proof (Z.div_mod (x + 7) 8 ltac:(lia)).
  pose proof (Z.mod_pos_bound (x + 7) 8 ltac:(lia)). split; [lia|]. apply Z.divide_factor_r.
Qed.

Lemma length_snprintf n s : (0 < n)%nat → length (snprintf_s n s) = n.
Proof.
  intros Hn. unfold snprintf_s. rewrite length_app, length_zeroes, length_take. lia.
Qed.
Lemma cstr_snprintf n s : no_nul s → (length s < n)%nat → cstr (snprintf_s n s) = s.
Proof.
  intros Hs Hl. unfold snprintf_s. rewrite (cstr_id s) by done. rewrite take_ge by lia.
  replace (n - length s)%nat with (S (n - length s - 1)) by lia. by apply cstr_app_zeroes.
Qed.

(** The messages of [valid] are true as booleans: no table is ever refused. *)
Lemma table_always_valid t : table_valid t = true.
Proof. unfold table_valid. destruct (targets_ t); [done|by case_decide]. Qed.

(** ** The records of a table can be read back *)

(** The records of a buffer, as the ioctl lays them out: a specification, then the
    parameters up to a NUL, then the next record [spec_next] bytes behind the first. *)
Fixpoint read_records `{!DmFormat} (n : nat) (buf : bytes) : list (dm_target_spec * bytes) :=
  match n with
  | O => []
  | S n =>
      let spec := c_dec spec_codec buf in
      let next := Z.to_nat (spec_next spec) in
      (spec, cstr (drop (c_size spec_codec) (take next buf))) :: read_records n (drop next buf)
  end.

Section Records.
Context `{!DmFormat} (reports_overflow : bytes → bool).
Abbreviation parameters t := (GetParameterString (reports_overflow (target_name (dt_kind t))) t).

(** A target whose numbers and parameters fit its record. *)
Record serialisable (t : DmTarget) : Prop := {
  sz_start : is_u64 (dt_start t);
  sz_length : is_u64 (dt_length t);
  sz_params : no_nul (parameters t);
  sz_size : sizeof spec_codec + zlen (parameters t) + 8 < 2 ^ 32;
}.
(** What the kernel is told of a target. *)
Definition told (t : DmTarget) (r : dm_target_spec * bytes) : Prop :=
  sector_start r.1 = dt_start t ∧ spec_length r.1 = dt_length t ∧
  cstr (target_type r.1) = target_name (dt_kind t) ∧ r.2 = parameters t ∧ (8 | spec_next r.1).

Context (name_size : (16 ≤ DM_MAX_TYPE_NAME)%nat).

Lemma target_name_fits k : no_nul (target_name k) ∧ (length (target_name k) < DM_MAX_TYPE_NAME)%nat.
Proof using name_size.
  assert (Hk : no_nul (target_name k) ∧ (length (target_name k) < 16)%nat).
  { destruct k as [| | | | | |? ? [] ?| | | | |]; by apply (bool_decide_unpack _). }
  split; [apply Hk|lia].
Qed.

Lemma target_Serialize_ok t rest : serialisable t →
  let spec := c_dec spec_codec (target_Serialize reports_overflow t ++ rest) in
  zlen (target_Serialize reports_overflow t) = spec_next spec ∧
  told t (spec, cstr (drop (c_size spec_codec) (target_Serialize reports_overflow t))).
Proof using name_size.
  intros [Hs Hl Hp Hsz]. unfold target_Serialize.
  set (size := sizeof spec_codec + zlen (parameters t ++ zeroes 1)).
  assert (Hsize : size = sizeof spec_codec + zlen (parameters t) + 1).
  { unfold size. rewrite zlen_app. change (zlen (zeroes 1)) with 1. lia. }
  assert (0 ≤ sizeof spec_codec) by (unfold sizeof; lia). pose proof (zlen_nonneg (parameters t)).
  destruct (DM_ALIGN_ok size) as [Hal Hdiv]; [lia|lia|].
  replace (size + (DM_ALIGN size - size)) with (DM_ALIGN size) by lia.
  set (spec := mkSpec _ _ _ _ _). set (pad := DM_ALIGN size - size).
  destruct (target_name_fits (dt_kind t)) as [Hn1 Hn2].
  assert (Hwf : c_wf spec_codec spec).
  { apply spec_wf. simpl. rewrite u32_small by lia. rewrite length_snprintf by lia. split_and!; lia. }
  cbv zeta. set (body := (_ ++ zeroes 1) ++ zeroes (Z.to_nat pad)).
  rewrite <- (assoc_L (++) (c_enc spec_codec spec) body rest), (dec_enc (c := spec_codec)) by done. split.
  - unfold body. rewrite !zlen_app. unfold zlen at 1. rewrite (enc_length (c := spec_codec)) by done.
    unfold spec; simpl. rewrite u32_small by lia. unfold zlen at 3. rewrite length_zeroes.
    unfold sizeof in *. change (zlen (zeroes 1)) with 1. lia.
  - rewrite drop_app_length' by (by rewrite (enc_length (c := spec_codec))).
    unfold told, spec. simpl. split_and!; [done|done|by apply cstr_snprintf| |].
    + unfold body. rewrite <- (assoc_L (++)).
      replace (zeroes 1 ++ zeroes (Z.to_nat pad)) with (zeroes (S (Z.to_nat pad))) by done.
      by apply cstr_app_zeroes.
    + by rewrite u32_small by lia.
Qed.

Lemma read_records_ok ts : Forall serialisable ts →
  Forall2 told ts (read_records (length ts) (concat (target_Serialize reports_overflow <$> ts))).
Proof using name_size.
  induction 1 as [|t ts Ht Hts IH]; [constructor|].
  destruct (target_Serialize_ok t (concat (target_Serialize reports_overflow <$> ts)) Ht) as [Hlen Htold].
  csimpl. cbn [read_records]. set (spec := c_dec spec_codec _) in *.
  unfold zlen in Hlen. rewrite <- Hlen, Nat2Z.id, take_app_length, drop_app_length.
  by constructor.
Qed.
End Records.
