(* ===== verification/DeviceMapper.v ===== *)
(** * Device-mapper devices ([libdm/dm.cpp])

    The library talks to the kernel through [ioctl]s on a buffer that starts with a
    [struct dm_ioctl].  The kernel ([DmKernel]) and the layout of its structs
    ([DmAbi]) are parameters; [DmKernelLaws] states what the [ioctl]s do to the
    devices, by name. *)
From S2P Require Import Prelude Bytes Device DmTarget.

(** ** The interface of the kernel *)

(** The members of [struct dm_ioctl] that the library uses, and the others. *)
Record dm_ioctl := mkIo {
  io_version : Z * Z * Z;
  io_data_size : Z;
  io_data_start : Z;
  io_target_count : Z;
  io_open_count : Z;
  io_flags : Z;
  io_dev : Z;
  io_name : bytes;
  io_uuid : bytes;
  io_other : bytes;
}.
(** The fixed part of [struct dm_target_versions] and of [struct dm_name_list]; a
    name follows. *)
Record dm_target_versions := mkVersions { tv_next : Z; tv_version : Z * Z * Z }.
Record dm_name_list := mkNameList { nl_dev : Z; nl_next : Z }.

Class DmAbi := {
  #[global] abi_format :: DmFormat;
  DM_NAME_LEN : nat;
  DM_UUID_LEN : nat;
  io_codec : codec dm_ioctl;
  #[global] io_codec_ok :: CodecOk io_codec;
  io_other_size : nat;
  io_wf io : c_wf io_codec io ↔
    (let '(a, b, c) := io_version io in is_u32 a ∧ is_u32 b ∧ is_u32 c) ∧
    is_u32 (io_data_size io) ∧ is_u32 (io_data_start io) ∧ is_u32 (io_target_count io) ∧
    is_u32 (io_open_count io) ∧ is_u32 (io_flags io) ∧ is_u64 (io_dev io) ∧
    length (io_name io) = DM_NAME_LEN ∧ length (io_uuid io) = DM_UUID_LEN ∧
    length (io_other io) = io_other_size;
  versions_codec : codec dm_target_versions;
  name_list_codec : codec dm_name_list;
  DM_READONLY_FLAG : Z;
  DM_SUSPEND_FLAG : Z;
  DM_ACTIVE_PRESENT_FLAG : Z;
  DM_STATUS_TABLE_FLAG : Z;
  DM_BUFFER_FULL_FLAG : Z;
  DM_UEVENT_GENERATED_FLAG : Z;
}.

Inductive dm_request :=
| DM_DEV_CREATE | DM_DEV_REMOVE | DM_DEV_STATUS | DM_DEV_SUSPEND
| DM_TABLE_LOAD | DM_TABLE_STATUS | DM_LIST_VERSIONS | DM_LIST_DEVICES.

(** The file is there, [ENOENT], or another error. *)
Inductive FileAccess := F_OK | ENOENT | AccessError.
Class DmKernel (K : Type) := {
  (** [ioctl(fd, request, buffer)]: the buffer afterwards, of the same size. *)
  ioctl : dm_request → bytes → IO K bytes;
  uuid_generate : IO K bytes;
  (** [access(path, F_OK)] with its error. *)
  access_file : bytes → IO K FileAccess;
  (** [std::chrono::steady_clock::now()] in milliseconds, and [std::this_thread::sleep_for]. *)
  steady_clock : IO K Z;
  sleep_for : Z → IO K unit;
}.

(** [libdm/dm.cpp:40-40 DM_DEFERRED_REMOVE] *)
Definition DM_DEFERRED_REMOVE : Z := Z.shiftl 1 17.
(** [libdm/include/libdm/dm.h:51-51 DmDeviceState] *)
Inductive DmDeviceState := INVALID | SUSPENDED | ACTIVE.
#[export] Instance device_state_eq_dec : EqDecision DmDeviceState.
Proof. solve_decision. Defined.

(** [libdm/include/libdm/dm_target.h:29-60 DmTargetTypeInfo] *)
Record DmTargetTypeInfo := mkTypeInfo {
  ti_name : bytes;
  ti_version : Z * Z * Z;
}.
(** [libdm/include/libdm/dm_target.h:47-53 DmTargetTypeInfo::IsAtLeast] *)
Definition IsAtLeast (info : DmTargetTypeInfo) (major minor patch : Z) : bool :=
  let '(major_, minor_, patch_) := ti_version info in
  if decide (major < major_) then true
  else if decide (major_ < major) then false
  else if decide (minor < minor_) then true
  else if decide (minor_ < minor) then false
  else bool_decide (patch ≤ patch_).
(** [libdm/include/libdm/dm.h:64-72 IDeviceMapper::TargetInfo] *)
Record TargetInfo := mkTargetInfo {
  tinfo_spec : dm_target_spec;
  tinfo_data : bytes;
}.

(** The numbers in a [dev_t]. *)
Definition dev_major (dev : Z) : Z :=
  u32 (Z.lor (Z.land (Z.shiftr dev 8) 0xfff) (Z.land (Z.shiftr dev 32) (Z.lnot 0xfff))).
Definition dev_minor (dev : Z) : Z :=
  u32 (Z.lor (Z.land dev 0xff) (Z.land (Z.shiftr dev 12) 0xffffff00)).

Section DeviceMapper.
Context `{!DmAbi} {K : Type} `{!DmKernel K}.

(** [libdm/dm.cpp:568-580 DeviceMapper::InitIo] *)
Definition InitIo (name : bytes) : dm_ioctl :=
  mkIo (4, 0, 0) (sizeof io_codec) 0 0 0 0 0
    (if decide (name = []) then zeroes DM_NAME_LEN else snprintf_s DM_NAME_LEN name)
    (zeroes DM_UUID_LEN) (zeroes io_other_size).
Definition io_set_uuid (uuid : bytes) (io : dm_ioctl) : dm_ioctl :=
  mkIo (io_version io) (io_data_size io) (io_data_start io) (io_target_count io)
    (io_open_count io) (io_flags io) (io_dev io) (io_name io) uuid (io_other io).
Definition io_set_flags (flags : Z) (io : dm_ioctl) : dm_ioctl :=
  mkIo (io_version io) (io_data_size io) (io_data_start io) (io_target_count io)
    (io_open_count io) flags (io_dev io) (io_name io) (io_uuid io) (io_other io).
(** The room for data behind the struct. *)
Definition io_set_data (size start count : Z) (io : dm_ioctl) : dm_ioctl :=
  mkIo (io_version io) size start count
    (io_open_count io) (io_flags io) (io_dev io) (io_name io) (io_uuid io) (io_other io).

(** An [ioctl] on the struct alone. *)
Definition ioctl_io (request : dm_request) (io : dm_ioctl) : IO K dm_ioctl :=
  buffer ← ioctl request (c_enc io_codec io); mret (c_dec io_codec buffer).
(** An [ioctl] whose data follows the struct. *)
Definition ioctl_data (request : dm_request) (io : dm_ioctl) (data : bytes)
    : IO K (dm_ioctl * bytes) :=
  buffer ← ioctl request (c_enc io_codec io ++ data); mret (c_dec io_codec buffer, buffer).

(** ** Waiting *)

(** [libdm/utility.h:22-22 WaitResult] *)
Inductive WaitResult := Wait | Done | Fail.
(** [libdm/utility.cpp:32-42 WaitForCondition, loop] *)
Fixpoint wait_loop (fuel : nat) (condition : IO K WaitResult) (timeout_ms start_time : Z) : IO K bool :=
  match fuel with
  | O => lift Crash
  | S fuel =>
      result ← condition;
      match result with
      | Done => mret true
      | Fail => mret false
      | Wait =>
          _ ← sleep_for 20;
          now ← steady_clock;
          if decide (timeout_ms < now - start_time) then mret false
          else wait_loop fuel condition timeout_ms start_time
      end
  end.
(** Every turn takes 20 milliseconds, which bounds their number.
    [libdm/utility.cpp:29-43 WaitForCondition] *)
Definition WaitForCondition (condition : IO K WaitResult) (timeout_ms : Z) : IO K bool :=
  start_time ← steady_clock;
  wait_loop (S (Z.to_nat (timeout_ms / 20))) condition timeout_ms start_time.
(** [libdm/utility.cpp:45-59 WaitForFile] *)
Definition WaitForFile (path : bytes) : Z → IO K bool :=
  WaitForCondition
    (access ← access_file path;
     mret match access with F_OK => Done | ENOENT => Wait | AccessError => Fail end).
(** [libdm/utility.cpp:61-73 WaitForFileDeleted] *)
Definition WaitForFileDeleted (path : bytes) : Z → IO K bool :=
  WaitForCondition
    (access ← access_file path;
     mret match access with F_OK => Wait | ENOENT => Done | AccessError => Fail end).

(** ** One device *)

(** [libdm/dm.cpp:61-89 DeviceMapper::CreateDevice(name, uuid)] *)
Definition CreateDevice_uuid (name uuid : bytes) : IO K unit :=
  _ ← lift (require (name ≠ []));
  _ ← lift (require (¬ DM_NAME_LEN ≤ length name)%nat);
  let io := InitIo name in
  let io := if decide (uuid = []) then io else io_set_uuid (snprintf_s DM_UUID_LEN uuid) io in
  io ← ioctl_io DM_DEV_CREATE io;
  _ ← lift (CHECK (io_target_count io = 0));
  lift (CHECK (io_open_count io = 0)).

(** [libdm/dm.cpp:230-244 DeviceMapper::GetDeviceUniquePath] *)
Definition GetDeviceUniquePath (name : bytes) : IO K bytes :=
  io ← ioctl_io DM_DEV_STATUS (InitIo name);
  _ ← lift (require (cstr (io_uuid io) ≠ []));
  mret (str "/dev/block/mapper/by-uuid/" ++ cstr (io_uuid io)).
(** [libdm/dm.cpp:246-253 DeviceMapper::GetDetailedInfo] *)
Definition GetDetailedInfo (name : bytes) : IO K Z :=
  io ← ioctl_io DM_DEV_STATUS (InitIo name); mret (io_flags io).
(** [libdm/dm.cpp:255-265 DeviceMapper::GetState] *)
Definition GetState (name : bytes) : IO K DmDeviceState :=
  io ← try_ (ioctl_io DM_DEV_STATUS (InitIo name));
  match io with
  | None => mret INVALID
  | Some io =>
      mret (if decide (Z.land (io_flags io) DM_ACTIVE_PRESENT_FLAG ≠ 0 ∧
                       Z.land (io_flags io) DM_SUSPEND_FLAG = 0)
            then ACTIVE else SUSPENDED)
  end.
(** [libdm/dm.cpp:267-283 DeviceMapper::ChangeState] *)
Definition ChangeState (name : bytes) (state : DmDeviceState) : IO K unit :=
  _ ← lift (require (¬ (state ≠ SUSPENDED ∧ state ≠ ACTIVE)));
  let io := InitIo name in
  let io := if decide (state = SUSPENDED) then io_set_flags DM_SUSPEND_FLAG io else io in
  _ ← ioctl_io DM_DEV_SUSPEND io; mret ().

(** [libdm/dm.cpp:103-135 DeviceMapper::DeleteDevice] *)
Definition DeleteDevice (name : bytes) (timeout_ms : Z) : IO K unit :=
  unique_path ← try_ (GetDeviceUniquePath name);
  io ← ioctl_io DM_DEV_REMOVE (InitIo name);
  _ ← lift (require (Z.land (io_flags io) DM_UEVENT_GENERATED_FLAG ≠ 0));
  if decide (timeout_ms ≤ 0) then mret ()
  else
    match unique_path with
    | None => lift Reject
    | Some unique_path =>
        deleted ← WaitForFileDeleted unique_path timeout_ms;
        lift (require (deleted = true))
    end.
(** [libdm/dm.cpp:91-97 DeviceMapper::DeleteDeviceIfExists] *)
Definition DeleteDeviceIfExists (name : bytes) (timeout_ms : Z) : IO K unit :=
  state ← GetState name;
  if decide (state = INVALID) then mret () else DeleteDevice name timeout_ms.
(** [libdm/dm.cpp:141-151 DeviceMapper::DeleteDeviceDeferred] *)
Definition DeleteDeviceDeferred (name : bytes) : IO K unit :=
  let io := InitIo name in
  _ ← ioctl_io DM_DEV_REMOVE (io_set_flags (Z.lor (io_flags io) DM_DEFERRED_REMOVE) io);
  mret ().
(** [libdm/dm.cpp:153-158 DeviceMapper::DeleteDeviceIfExistsDeferred] *)
Definition DeleteDeviceIfExistsDeferred (name : bytes) : IO K unit :=
  state ← GetState name;
  if decide (state = INVALID) then mret () else DeleteDeviceDeferred name.

(** [libdm/dm.cpp:174-177 DeviceMapper::CreateEmptyDevice] *)
Definition CreateEmptyDevice (name : bytes) : IO K unit :=
  uuid ← uuid_generate; CreateDevice_uuid name uuid.

(** [libdm/dm.cpp:469-480 DeviceMapper::GetDmDevicePathByName] *)
Definition GetDmDevicePathByName (name : bytes) : IO K bytes :=
  io ← ioctl_io DM_DEV_STATUS (InitIo name);
  mret (str "/dev/block/dm-" ++ to_string (dev_minor (io_dev io))).
(** [libdm/dm.cpp:484-494 DeviceMapper::GetDmDeviceUuidByName] *)
Definition GetDmDeviceUuidByName (name : bytes) : IO K bytes :=
  io ← ioctl_io DM_DEV_STATUS (InitIo name); mret (cstr (io_uuid io)).
(** [libdm/dm.cpp:496-505 DeviceMapper::GetDeviceNumber] *)
Definition GetDeviceNumber (name : bytes) : IO K Z :=
  io ← ioctl_io DM_DEV_STATUS (InitIo name); mret (io_dev io).
(** [libdm/dm.cpp:507-514 DeviceMapper::GetDeviceString] *)
Definition GetDeviceString (name : bytes) : IO K bytes :=
  num ← GetDeviceNumber name;
  mret (to_string (dev_major num) ++ str ":" ++ to_string (dev_minor num)).

(** [legacy] is the test for recovery on a non-A/B device with an old SDK.
    [libdm/dm.cpp:179-209 DeviceMapper::WaitForDevice] *)
Definition WaitForDevice (legacy : bool) (name : bytes) (timeout_ms : Z) : IO K bytes :=
  paths ← try_ (unique_path ← GetDeviceUniquePath name;
                path ← GetDmDevicePathByName name;
                mret (unique_path, path));
  match paths with
  | None => _ ← try_ (DeleteDevice name 0); lift Reject
  | Some (unique_path, path) =>
      if decide (timeout_ms ≤ 0) then mret path
      else
        there ← WaitForFile (if legacy then path else unique_path) timeout_ms;
        if there : bool then mret path
        else _ ← try_ (DeleteDevice name 0); lift Reject
  end.

(** ** Tables *)

(** [libdm/dm.cpp:390-402 DeviceMapper::GetTargetByName] *)
Definition find_target (name : bytes) (targets : list DmTargetTypeInfo) : option DmTargetTypeInfo :=
  snd <$> list_find (λ t, ti_name t = name) targets.
(** [libdm/dm_target.cpp:183-196 DmTargetSnapshot::ReportsOverflow] *)
Definition ReportsOverflow (targets : option (list DmTargetTypeInfo)) (target_type : bytes) : bool :=
  match targets ≫= find_target target_type with
  | None => false
  | Some info =>
      if decide (target_type = str "snapshot") then IsAtLeast info 1 15 0
      else if decide (target_type = str "snapshot-merge") then IsAtLeast info 1 4 0
      else false
  end.

(** A C string in a buffer; reading past the end is undefined. *)
Definition read_cstr (buffer : bytes) (off : Z) : outcome bytes :=
  let rest := drop (Z.to_nat off) buffer in
  if decide (Byte.x00 ∈ rest) then Ret (cstr rest) else Crash.
(** [libdm/dm.cpp:371-385 DeviceMapper::GetAvailableTargets, loop] *)
Fixpoint parse_versions (fuel : nat) (buffer : bytes) (next data_size : Z)
    : outcome (list DmTargetTypeInfo) :=
  if decide (next = 0 ∨ data_size = 0) then Ret []
  else
    match fuel with
    | O => Crash
    | S fuel =>
        raw ← slice buffer next (sizeof versions_codec);
        let vers := c_dec versions_codec raw in
        name ← read_cstr buffer (next + sizeof versions_codec);
        let target := mkTypeInfo name (tv_version vers) in
        if decide (tv_next vers = 0) then Ret [target]
        else
          rest ← parse_versions fuel buffer (u32 (next + tv_next vers)) (u32 (data_size - tv_next vers));
          Ret (target :: rest)
    end.
(** The length of a buffer for that many names.
    [libdm/dm.cpp:331-338 DeviceMapper::GetAvailableTargets, buffer] *)
Definition payload_size (fixed name count : Z) : Z := u32 (u32 (DM_ALIGN (fixed + name)) * count).
(** [libdm/dm.cpp:328-388 DeviceMapper::GetAvailableTargets] *)
Definition GetAvailableTargets : IO K (list DmTargetTypeInfo) :=
  let payload := payload_size (sizeof versions_codec) (Z.of_nat DM_MAX_TYPE_NAME) 256 in
  let io := io_set_data (u32 (sizeof io_codec + payload)) (sizeof io_codec) 0 (InitIo []) in
  '(io, buffer) ← ioctl_data DM_LIST_VERSIONS io (zeroes (Z.to_nat payload));
  _ ← lift (require (Z.land (io_flags io) DM_BUFFER_FULL_FLAG = 0));
  if decide (io_data_size io = sizeof io_codec) then mret []
  else lift (parse_versions (S (length buffer)) buffer (sizeof io_codec)
               (u32 (io_data_size io - sizeof io_codec))).
(** [libdm/dm.cpp:448-462 DeviceMapper::GetAvailableDevices, loop] *)
Fixpoint parse_names (fuel : nat) (buffer : bytes) (next data_size : Z)
    : outcome (list (bytes * Z)) :=
  if decide (next = 0 ∨ data_size = 0) then Ret []
  else
    match fuel with
    | O => Crash
    | S fuel =>
        raw ← slice buffer next (sizeof name_list_codec);
        let d := c_dec name_list_codec raw in
        name ← read_cstr buffer (next + sizeof name_list_codec);
        if decide (nl_next d = 0) then Ret [(name, nl_dev d)]
        else
          rest ← parse_names fuel buffer (u32 (next + nl_next d)) (u32 (data_size - nl_next d));
          Ret ((name, nl_dev d) :: rest)
    end.
(** [libdm/dm.cpp:404-465 DeviceMapper::GetAvailableDevices] *)
Definition GetAvailableDevices : IO K (list (bytes * Z)) :=
  let payload := payload_size (sizeof name_list_codec) (Z.of_nat DM_NAME_LEN) 256 in
  let io := io_set_data (u32 (sizeof io_codec + payload)) (sizeof io_codec) 0 (InitIo []) in
  '(io, buffer) ← ioctl_data DM_LIST_DEVICES io (zeroes (Z.to_nat payload));
  _ ← lift (require (Z.land (io_flags io) DM_BUFFER_FULL_FLAG = 0));
  if decide (io_data_size io = sizeof io_codec) then mret []
  else lift (parse_names (S (length buffer)) buffer (sizeof io_codec)
               (u32 (io_data_size io - sizeof io_codec))).

(** Whether the parameters of a target depend on [ReportsOverflow]. *)
Definition asks_overflow (t : DmTarget) : bool :=
  match dt_kind t with
  | DmTargetSnapshot _ _ Persistent _ | DmTargetSnapshot _ _ Merge _ => true
  | _ => false
  end.
(** The kernel is asked for its targets while the table is serialised, if a snapshot
    needs to know; several snapshots get the same answer.
    [libdm/dm.cpp:293-310 DeviceMapper::LoadTable] *)
Definition LoadTable (name : bytes) (table : DmTable) : IO K unit :=
  targets ← (if existsb asks_overflow (targets_ table) then try_ GetAvailableTargets
             else mret None);
  let data := table_Serialize (ReportsOverflow targets) table in
  let io := io_set_data (u32 (sizeof io_codec + zlen data)) (sizeof io_codec)
              (u32 (zlen (targets_ table))) (InitIo name) in
  let io := if readonly_ table then io_set_flags (Z.lor (io_flags io) DM_READONLY_FLAG) io else io in
  _ ← ioctl_data DM_TABLE_LOAD io data; mret ().
(** [libdm/dm.cpp:312-324 DeviceMapper::LoadTableAndActivate] *)
Definition LoadTableAndActivate (name : bytes) (table : DmTable) : IO K unit :=
  _ ← LoadTable name table;
  _ ← ioctl_io DM_DEV_SUSPEND (InitIo name); mret ().

(** [libdm/dm.cpp:211-228 DeviceMapper::CreateDevice] *)
Definition CreateDevice (legacy : bool) (name : bytes) (table : DmTable) (timeout_ms : Z)
    : IO K bytes :=
  _ ← CreateEmptyDevice name;
  active ← try_ (LoadTableAndActivate name table);
  match active with
  | None => _ ← try_ (DeleteDevice name 0); lift Reject
  | Some _ =>
      path ← try_ (WaitForDevice legacy name timeout_ms);
      match path with
      | None => _ ← try_ (DeleteDevice name 0); lift Reject
      | Some path => mret path
      end
  end.
(** [kernel] is the version that [uname] reports, if it can be parsed.
    [libdm/dm.cpp:715-736 DeviceMapper::CreatePlaceholderDevice] *)
Definition CreatePlaceholderDevice (kernel : option (Z * Z)) (name : bytes) : IO K unit :=
  _ ← CreateEmptyDevice name;
  match kernel with
  | None => mret ()
  | Some (major, minor) =>
      if decide (5 < major ∨ major = 5 ∧ 15 ≤ minor) then
        table ← lift (AddTarget (mkTarget 0 1 DmTargetError) empty_table);
        LoadTable name table
      else mret ()
  end.

(** ** Reading a table back *)

(** The loop over the records of a status buffer.
    [libdm/dm.cpp:546-565 DeviceMapper::GetTable, records] *)
Fixpoint parse_targets (n : nat) (buffer : bytes) (data_start data_end cursor : Z)
    : outcome (list TargetInfo) :=
  match n with
  | O => Ret []
  | S n =>
      if decide (data_end < u64 (cursor + sizeof spec_codec)) then Ret []
      else
        raw ← slice buffer cursor (sizeof spec_codec);
        let spec := c_dec spec_codec raw in
        let data_offset := u32 (cursor + sizeof spec_codec) in
        let next_cursor := u32 (data_start + spec_next spec) `min` data_end in
        data ← (if decide (data_offset < next_cursor)
                then slice buffer data_offset (next_cursor - data_offset) else Ret []);
        rest ← parse_targets n buffer data_start data_end next_cursor;
        Ret (mkTargetInfo spec (cstr data) :: rest)
  end.
(** The buffer doubles until the kernel says that it was large enough.
    [libdm/dm.cpp:530-542 DeviceMapper::GetTable, buffer] *)
Fixpoint table_buffer (fuel : nat) (name : bytes) (flags : Z) (buffer : bytes)
    : IO K (dm_ioctl * bytes) :=
  match fuel with
  | O => lift Crash
  | S fuel =>
      let io := io_set_flags flags
                  (io_set_data (u32 (zlen buffer)) (sizeof io_codec) 0 (InitIo name)) in
      buffer ← ioctl DM_TABLE_STATUS (c_enc io_codec io ++ drop (c_size io_codec) buffer);
      let io := c_dec io_codec buffer in
      if decide (Z.land (io_flags io) DM_BUFFER_FULL_FLAG = 0) then mret (io, buffer)
      else table_buffer fuel name flags (buffer ++ zeroes (length buffer))
  end.
(** [libdm/dm.cpp:544-545 DeviceMapper::GetTable, bounds] *)
Definition read_reply (io : dm_ioctl) (buffer : bytes) : outcome (list TargetInfo) :=
  let data_end := io_data_size io `min` u32 (zlen buffer) in
  parse_targets (Z.to_nat (io_target_count io)) buffer (io_data_start io) data_end (io_data_start io).
(** [libdm/dm.cpp:525-566 DeviceMapper::GetTable] *)
Definition GetTable (fuel : nat) (name : bytes) (flags : Z) : IO K (list TargetInfo) :=
  '(io, buffer) ← table_buffer fuel name flags (zeroes 4096);
  lift (read_reply io buffer).
(** [libdm/dm.cpp:516-518 DeviceMapper::GetTableStatus] *)
Definition GetTableStatus (fuel : nat) (name : bytes) : IO K (list TargetInfo) :=
  GetTable fuel name 0.
(** [libdm/dm.cpp:520-522 DeviceMapper::GetTableInfo] *)
Definition GetTableInfo (fuel : nat) (name : bytes) : IO K (list TargetInfo) :=
  GetTable fuel name DM_STATUS_TABLE_FLAG.

(** [libdm/dm.cpp:582-588 DeviceMapper::GetTargetType] *)
Definition GetTargetType (spec : dm_target_spec) : bytes := cstr (target_type spec).
(** [libdm/dm.cpp:655-657 DeviceMapper::TargetInfo::IsOverflowSnapshot] *)
Definition IsOverflowSnapshot (t : TargetInfo) : bool :=
  bool_decide (cstr (target_type (tinfo_spec t)) = str "snapshot") &&
  bool_decide (tinfo_data t = str "Overflow").
End DeviceMapper.

(** ** Paths *)

(** [libdm/dm.cpp:590-596 ExtractBlockDeviceName] *)
Definition ExtractBlockDeviceName (path : bytes) : option bytes :=
  if StartsWith path (str "/dev/block/") then Some (drop 11 path) else None.
(** [libdm/dm.cpp:598-601 DeviceMapper::IsDmBlockDevice] *)
Definition IsDmBlockDevice (path : bytes) : bool :=
  match ExtractBlockDeviceName path with Some name => StartsWith name (str "dm-") | None => false end.
