(* ===== verification/DmLife.v ===== *)
(** * The life of a device

    What the kernel does to the devices when the library creates, loads, activates
    and removes them, and that [CreateDevice] leaves a device with the table active,
    or none; and what the tables read back from the kernel are. *)
From S2P Require Import Prelude Bytes LpFormat LpUtility Device LpReader DmTarget DeviceMapper.

(** A device: its UUID, the active and the inactive table with the flag for
    read-only, and whether it is suspended. *)
Record dm_device := mkDevice {
  dv_uuid : bytes;
  dv_active : option (bytes * bool);
  dv_inactive : option (bytes * bool);
  dv_suspended : bool;
}.

Definition has_flag (flags flag : Z) : bool := bool_decide (Z.land flags flag ≠ 0).

(** The documented behaviour of the [ioctl]s; a failed one changes nothing. *)
Class DmKernelLaws (K : Type) `{!DmAbi, !DmKernel K} := {
  devices : K → gmap bytes dm_device;
  ioctl_law request io data k r k' : c_wf io_codec io →
    ioctl request (c_enc io_codec io ++ data) k = (r, k') →
    let name := cstr (io_name io) in
    r ≠ Crash ∧ (r = Reject → devices k' = devices k) ∧
    ∀ b, r = Ret b →
      let out := c_dec io_codec b in
      match request with
      | DM_DEV_CREATE =>
          devices k !! name = None ∧ io_target_count out = 0 ∧ io_open_count out = 0 ∧
          devices k' = <[name := mkDevice (cstr (io_uuid io)) None None true]> (devices k)
      | DM_DEV_REMOVE =>
          is_Some (devices k !! name) ∧
          (has_flag (io_flags io) DM_DEFERRED_REMOVE = false → devices k' = delete name (devices k))
      | DM_TABLE_LOAD => ∃ d, devices k !! name = Some d ∧
          devices k' = <[name := mkDevice (dv_uuid d) (dv_active d)
            (Some (data, has_flag (io_flags io) DM_READONLY_FLAG)) (dv_suspended d)]> (devices k)
      | DM_DEV_SUSPEND => ∃ d, devices k !! name = Some d ∧
          devices k' = <[name :=
            if has_flag (io_flags io) DM_SUSPEND_FLAG
            then mkDevice (dv_uuid d) (dv_active d) (dv_inactive d) true
            else mkDevice (dv_uuid d)
                   (match dv_inactive d with Some t => Some t | None => dv_active d end) None false]>
            (devices k)
      | _ => devices k' = devices k
      end;
  uuid_law k r k' : uuid_generate k = (r, k') → r ≠ Crash ∧ devices k' = devices k;
  clock : K → Z;
  access_law path k r k' : access_file path k = (r, k') →
    (∃ a, r = Ret a) ∧ devices k' = devices k ∧ clock k ≤ clock k';
  clock_law k r k' : steady_clock k = (r, k') →
    r = Ret (clock k') ∧ devices k' = devices k ∧ clock k ≤ clock k';
  sleep_law ms k r k' : sleep_for ms k = (r, k') →
    r = Ret () ∧ devices k' = devices k ∧ clock k + ms ≤ clock k';
}.

Section Life.
Context `{DmKernelLaws K}.

(** What holds of the result and of the kernel after a call, whatever it returns. *)
Definition changes {A} (m : IO K A) (k : K) (P : outcome A → K → Prop) : Prop :=
  ∀ r k', m k = (r, k') → P r k'.
(** A call that leaves the devices alone and does not abort. *)
Definition harmless {A} (m : IO K A) : Prop :=
  ∀ k r k', m k = (r, k') → r ≠ Crash ∧ devices k' = devices k.

Lemma changes_bind {A B} (m : IO K A) (f : A → IO K B) k P :
  (∀ r k', m k = (r, k') → match r with
     | Ret a => changes (f a) k' P | Reject => P Reject k' | Crash => P Crash k' end) →
  changes (m ≫= f) k P.
Proof using Type.
  intros Hm r k' E. unfold mbind, io_mbind in E. destruct (m k) as [o k1] eqn:Em.
  specialize (Hm o k1 eq_refl). destruct o as [a| |]; [by apply (Hm r k')|by injection E as <- <-..].
Qed.
Lemma changes_ret {A} (a : A) k (P : outcome A → _ → Prop) :
  P (Ret a) k → changes (mret a) k P.
Proof using Type. by intros HP r k' [= <- <-]. Qed.
Lemma changes_lift {A} (m : outcome A) k (P : outcome A → _ → Prop) :
  P m k → changes (lift m) k P.
Proof using Type. by intros HP r k' [= <- <-]. Qed.
(** The caller of a failed call goes on. *)
Lemma changes_try {A B} (m : IO K A) (f : option A → IO K B) k P :
  changes m k (λ r k', match r with
    | Ret a => changes (f (Some a)) k' P
    | Reject => changes (f None) k' P
    | Crash => P Crash k' end) → changes (try_ m ≫= f) k P.
Proof using Type.
  intros Hm. apply changes_bind. unfold try_. intros r k' E.
  destruct (m k) as [o k1] eqn:Em. specialize (Hm o k1 Em).
  destruct o; injection E as <- <-; auto.
Qed.
Lemma changes_weaken {A} (m : IO K A) k P Q :
  changes m k P → (∀ r k', P r k' → Q r k') → changes m k Q.
Proof using Type. intros Hm HPQ r k' E. by apply HPQ, (Hm r k'). Qed.

Lemma harmless_bind {A B} (m : IO K A) (f : A → IO K B) :
  harmless m → (∀ a, harmless (f a)) → harmless (m ≫= f).
Proof using Type.
  intros Hm Hf k r k' E. unfold mbind, io_mbind in E. destruct (m k) as [o k1] eqn:Em.
  destruct (Hm _ _ _ Em) as [Hc Hd]. destruct o as [a| |]; [|by injection E as <- <-|done].
  destruct (Hf a _ _ _ E) as [Hc' Hd']. by rewrite Hd', Hd.
Qed.
Lemma harmless_lift {A} (m : outcome A) : m ≠ Crash → harmless (lift m).
Proof using Type. intros Hm k r k' [= <- <-]. done. Qed.
Lemma harmless_ret {A} (a : A) : harmless (mret a).
Proof using Type. intros k r k' [= <- <-]. done. Qed.

(** *** Waiting *)

(** A condition that can be asked again. *)
Definition asks (condition : IO K WaitResult) : Prop :=
  ∀ k r k', condition k = (r, k') → (∃ a, r = Ret a) ∧ devices k' = devices k ∧ clock k ≤ clock k'.
Lemma wait_loop_S fuel (condition : IO K WaitResult) timeout start :
  wait_loop (S fuel) condition timeout start =
  (result ← condition;
   match result with
   | Done => mret true
   | Fail => mret false
   | Wait =>
       _ ← sleep_for 20; now ← steady_clock;
       if decide (timeout < now - start) then mret false else wait_loop fuel condition timeout start
   end).
Proof using Type. done. Qed.
(** The turns left are enough for the time left. *)
Lemma wait_loop_ends condition timeout start fuel k :
  asks condition → timeout < clock k - start + 20 * Z.of_nat (S fuel) →
  ∃ b k', wait_loop (S fuel) condition timeout start k = (Ret b, k') ∧ devices k' = devices k.
Proof using Type.
  intros Hc. revert k. induction fuel as [|fuel IH]; intros k Ht;
    rewrite wait_loop_S; unfold mbind at 1, io_mbind at 1; destruct (condition k) as [r1 k1] eqn:E1;
    destruct (Hc _ _ _ E1) as ([a ->] & Hd1 & Hc1).
  all: destruct a; [|by exists true, k1|by exists false, k1].
  all: unfold mbind at 1, io_mbind at 1; destruct (sleep_for 20 k1) as [r2 k2] eqn:E2;
    destruct (sleep_law _ _ _ _ E2) as (-> & Hd2 & Hc2).
  all: unfold mbind at 1, io_mbind at 1; destruct (steady_clock k2) as [r3 k3] eqn:E3;
    destruct (clock_law _ _ _ E3) as (-> & Hd3 & Hc3).
  all: case_decide as Hlate; [exists false, k3; split; [done|by rewrite Hd3, Hd2]|].
  - lia.
  - destruct (IH k3) as (b & k' & E & Hd); [lia|]. exists b, k'. split; [exact E|by rewrite Hd, Hd3, Hd2].
Qed.
Lemma wait_ends condition timeout k : asks condition →
  ∃ b k', WaitForCondition condition timeout k = (Ret b, k') ∧ devices k' = devices k.
Proof using Type.
  intros Hc. unfold WaitForCondition, mbind at 1, io_mbind at 1.
  destruct (steady_clock k) as [r1 k1] eqn:E1. destruct (clock_law _ _ _ E1) as (-> & Hd1 & Hc1).
  destruct (wait_loop_ends condition timeout (clock k1) (Z.to_nat (timeout / 20)) k1 Hc)
    as (b & k' & E & Hd).
  { pose proof (Z.div_mod timeout 20 ltac:(lia)). pose proof (Z.mod_pos_bound timeout 20 ltac:(lia)). lia. }
  exists b, k'. split; [exact E|by rewrite Hd].
Qed.
Lemma access_asks path (f : FileAccess → WaitResult) : asks (a ← access_file path; mret (f a)).
Proof using Type.
  intros k r k' E. unfold mbind, io_mbind in E. destruct (access_file path k) as [r1 k1] eqn:E1.
  destruct (access_law _ _ _ _ E1) as ([a ->] & Hd1 & Hc1). injection E as <- <-.
  split_and!; [by eexists|done|done].
Qed.
(** A wait ends in time, and the devices stay. *)
Lemma wait_law path timeout k r k' : WaitForFile path timeout k = (r, k') →
  r ≠ Crash ∧ devices k' = devices k.
Proof using Type.
  intros E. destruct (wait_ends _ timeout k (access_asks path
    (λ a, match a with F_OK => Done | ENOENT => Wait | AccessError => Fail end))) as (b & k1 & E1 & Hd).
  unfold WaitForFile in E. rewrite E1 in E. by injection E as <- <-.
Qed.
Lemma wait_deleted_law path timeout k r k' : WaitForFileDeleted path timeout k = (r, k') →
  r ≠ Crash ∧ devices k' = devices k.
Proof using Type.
  intros E. destruct (wait_ends _ timeout k (access_asks path
    (λ a, match a with F_OK => Wait | ENOENT => Done | AccessError => Fail end))) as (b & k1 & E1 & Hd).
  unfold WaitForFileDeleted in E. rewrite E1 in E. by injection E as <- <-.
Qed.

(** *** The struct *)

(** A name that fits. *)
Definition name_ok (name : bytes) : Prop :=
  name ≠ [] ∧ no_nul name ∧ (length name < DM_NAME_LEN)%nat.
Lemma InitIo_ok name : (0 < DM_NAME_LEN)%nat → is_u32 (sizeof io_codec) → c_wf io_codec (InitIo name).
Proof using Type.
  intros Hn Hs. apply io_wf. unfold InitIo. simpl. split_and!; try lia; try done.
  - case_decide; [apply length_zeroes|by apply length_snprintf].
  - apply length_zeroes.
  - apply length_zeroes.
Qed.
Lemma InitIo_name name : name_ok name → cstr (io_name (InitIo name)) = name.
Proof using Type.
  intros (Hne & Hz & Hl). unfold InitIo. simpl. rewrite decide_False by done. by apply cstr_snprintf.
Qed.

(** Sizes and flags the kernel's structs have. *)
Record abi_ok : Prop := {
  abi_name : (0 < DM_NAME_LEN)%nat;
  abi_uuid : (0 < DM_UUID_LEN)%nat;
  abi_size : is_u32 (sizeof io_codec);
  abi_readonly : is_u32 DM_READONLY_FLAG ∧ DM_READONLY_FLAG ≠ 0;
}.
Context (abi : abi_ok).

Lemma InitIo_wf name : c_wf io_codec (InitIo name).
Proof using abi. apply InitIo_ok; apply abi. Qed.

(** An [ioctl] on the struct alone. *)
Lemma ioctl_io_law request io k r k' : c_wf io_codec io → ioctl_io request io k = (r, k') →
  ∃ r0, ioctl request (c_enc io_codec io ++ []) k = (r0, k') ∧
    r = match r0 with Ret b => Ret (c_dec io_codec b) | Reject => Reject | Crash => Crash end.
Proof using Type.
  intros Hwf E. rewrite app_nil_r. unfold ioctl_io, mbind, io_mbind in E.
  destruct (ioctl request (c_enc io_codec io) k) as [[b| |] k1]; injection E as <- <-; by eexists.
Qed.
Lemma status_harmless name : harmless (ioctl_io DM_DEV_STATUS (InitIo name)).
Proof using abi.
  intros k r k' E. destruct (ioctl_io_law _ _ _ _ _ (InitIo_wf name) E) as (r0 & E0 & ->).
  destruct (ioctl_law _ _ _ _ _ _ (InitIo_wf name) E0) as (Hc & Hrej & Hret).
  destruct r0 as [b| |]; [|by auto|done]. split; [done|]. exact (Hret b eq_refl).
Qed.
Lemma unique_path_harmless name : harmless (GetDeviceUniquePath name).
Proof using abi.
  apply harmless_bind; [apply status_harmless|]. intros io.
  apply harmless_bind; [apply harmless_lift; auto|]. intros _. apply harmless_ret.
Qed.

(** [m] cannot abort, and leaves the devices [ds]. *)
Definition settles {A} (m : IO K A) (k : K) (ds : gmap bytes dm_device) : Prop :=
  changes m k (λ r k', r ≠ Crash ∧ devices k' = ds).
Lemma settles_harmless {A} (m : IO K A) k : harmless m → settles m k (devices k).
Proof using Type. intros Hm r k' E. exact (Hm k r k' E). Qed.

(** The last thing that happened is that the kernel refused to remove a device that exists. *)
Definition removal_refused (name : bytes) (k' : K) : Prop :=
  is_Some (devices k' !! name) ∧
  ∃ k, devices k = devices k' ∧ ioctl DM_DEV_REMOVE (c_enc io_codec (InitIo name)) k = (Reject, k').
(** The device is gone, or its removal was refused. *)
Definition removed (name : bytes) (ds : gmap bytes dm_device) (k' : K) : Prop :=
  devices k' = delete name ds ∨ devices k' = ds ∧ removal_refused name k'.
Lemma DeleteDevice_ok name timeout k : name_ok name →
  changes (DeleteDevice name timeout) k (λ r k', r ≠ Crash ∧ removed name (devices k) k').
Proof using abi.
  intros Hn. unfold DeleteDevice. apply changes_try.
  eapply changes_weaken; [apply settles_harmless, unique_path_harmless|].
  intros path k0 [Hnc Hd0].
  assert (Hgo : ∀ (path : option bytes) k', devices k' = devices k →
    changes (io ← ioctl_io DM_DEV_REMOVE (InitIo name);
       _ ← lift (require (Z.land (io_flags io) DM_UEVENT_GENERATED_FLAG ≠ 0));
       if decide (timeout ≤ 0) then mret ()
       else match path with
            | None => lift Reject
            | Some unique_path => deleted ← WaitForFileDeleted unique_path timeout;
                lift (require (deleted = true))
            end) k' (λ r k', r ≠ Crash ∧ removed name (devices k) k')).
  { clear path k0 Hnc Hd0. intros path k1 E1. apply changes_bind. intros r k2 E.
    destruct (ioctl_io_law _ _ _ _ _ (InitIo_wf name) E) as (r0 & E0 & ->).
    destruct (ioctl_law _ _ _ _ _ _ (InitIo_wf name) E0) as (Hc & Hrej & Hret).
    rewrite InitIo_name in Hret by done.
    destruct r0 as [b| |]; [|split; [done|]|done].
    - destruct (Hret b eq_refl) as [Hin Hdel]. specialize (Hdel eq_refl). rewrite E1 in Hdel.
      unfold removed. rewrite <- Hdel. eapply changes_weaken; [apply settles_harmless|by intros ? ? [? ?]; split; [|left]].
      apply harmless_bind; [by apply harmless_lift|]. intros _. case_decide; [apply harmless_ret|].
      destruct path as [path|]; [|by apply harmless_lift].
      apply harmless_bind; [intros ????; by eapply wait_deleted_law|].
      intros deleted. by apply harmless_lift.
    - unfold removed, removal_refused. rewrite Hrej, E1 by done.
      destruct (devices k !! name) as [d|] eqn:Ed; [right|left; by rewrite delete_id].
      split; [done|]. split; [done|]. exists k1. by rewrite app_nil_r in E0. }
  destruct path as [path| |]; [by apply (Hgo (Some path))|by apply (Hgo None)|done].
Qed.

(** *** Creating a device *)

(** The table the kernel is given; a table without snapshots asks the kernel nothing. *)
Definition table_data (table : DmTable) : bytes := table_Serialize (λ _, false) table.
Definition loaded (table : DmTable) (uuid : bytes) : dm_device :=
  mkDevice uuid (Some (table_data table, readonly_ table)) None false.

Lemma CreateEmptyDevice_ok name k : name_ok name →
  changes (CreateEmptyDevice name) k (λ r k', match r with
    | Ret _ => devices k !! name = None ∧ ∃ uuid,
        devices k' = <[name := mkDevice uuid None None true]> (devices k)
    | Reject => devices k' = devices k
    | Crash => False
    end).
Proof using abi.
  intros Hn. pose proof Hn as (Hne & Hz & Hl). unfold CreateEmptyDevice.
  apply changes_bind. intros r k1 E1. destruct (uuid_law _ _ _ E1) as [Hnc Ed].
  destruct r as [uuid| |]; [|done|done]. unfold CreateDevice_uuid.
  rewrite !require_True by (done || lia).
  set (io := if decide (uuid = []) then _ else _).
  assert (Hwf : c_wf io_codec io ∧ io_name io = io_name (InitIo name)).
  { unfold io. case_decide; split; try done; [apply InitIo_wf|].
    pose proof (proj1 (io_wf _) (InitIo_wf name)) as Hi. apply io_wf. simpl in *.
    rewrite length_snprintf by apply abi. tauto. }
  destruct Hwf as [Hwf Hname].
  apply changes_bind. intros ? ? [= <- <-]. apply changes_bind. intros ? ? [= <- <-].
  apply changes_bind. intros r k2 E2.
  destruct (ioctl_io_law _ _ _ _ _ Hwf E2) as (r0 & E0 & ->).
  destruct (ioctl_law _ _ _ _ _ _ Hwf E0) as (Hc & Hrej & Hret).
  rewrite Hname, InitIo_name in Hret by done.
  destruct r0 as [b| |]; [|by rewrite Hrej|done].
  destruct (Hret b eq_refl) as (Hnone & Ht & Ho & Hds).
  apply changes_bind. intros ? ? [= <- <-]. rewrite CHECK_True by done.
  apply changes_lift. rewrite CHECK_True by done. rewrite Hds, Ed in *. split; [done|]. by eexists.
Qed.

Lemma ioctl_data_law request io data k r k' : c_wf io_codec io →
  ioctl_data request io data k = (r, k') →
  ∃ r0, ioctl request (c_enc io_codec io ++ data) k = (r0, k') ∧
    r = match r0 with Ret b => Ret (c_dec io_codec b, b) | Reject => Reject | Crash => Crash end.
Proof using Type.
  intros Hwf E. unfold ioctl_data, mbind, io_mbind in E.
  destruct (ioctl request (c_enc io_codec io ++ data) k) as [[b| |] k1]; injection E as <- <-; by eexists.
Qed.

Lemma LoadTable_ok name table k : name_ok name →
  existsb asks_overflow (targets_ table) = false →
  changes (LoadTable name table) k (λ r k', match r with
    | Ret _ => ∃ d, devices k !! name = Some d ∧ devices k' = <[name := mkDevice (dv_uuid d) (dv_active d)
        (Some (table_data table, readonly_ table)) (dv_suspended d)]> (devices k)
    | Reject => devices k' = devices k
    | Crash => False
    end).
Proof using abi.
  intros Hn Hask. unfold LoadTable. rewrite Hask. apply changes_bind. intros ? ? [= <- <-].
  change (table_Serialize (ReportsOverflow None) table) with (table_data table).
  set (io := if readonly_ table then _ else _).
  assert (Hwf : c_wf io_codec io ∧ io_name io = io_name (InitIo name) ∧
    has_flag (io_flags io) DM_READONLY_FLAG = readonly_ table).
  { destruct abi as [_ _ Hsz [Hro Hro0]].
    pose proof (proj1 (io_wf _) (InitIo_wf name)) as Hi. simpl in Hi.
    pose proof (u32_range (sizeof io_codec + zlen (table_data table))).
    pose proof (u32_range (zlen (targets_ table))).
    unfold io. destruct (readonly_ table); (split; [apply io_wf; simpl; tauto|split; [done|]]); simpl.
    - unfold has_flag. apply bool_decide_eq_true. by rewrite Z.land_diag.
    - done. }
  destruct Hwf as (Hwf & Hname & Hflag).
  apply changes_bind. intros r k2 E2. destruct (ioctl_data_law _ _ _ _ _ _ Hwf E2) as (r0 & E0 & ->).
  destruct (ioctl_law _ _ _ _ _ _ Hwf E0) as (Hc & Hrej & Hret).
  rewrite Hname, InitIo_name in Hret by done.
  destruct r0 as [b| |]; [|by apply Hrej|done].
  apply changes_ret. destruct (Hret b eq_refl) as (d & Hd & ->). exists d. by rewrite Hflag.
Qed.

Lemma LoadTableAndActivate_ok name table k d : name_ok name →
  existsb asks_overflow (targets_ table) = false → devices k !! name = Some d →
  changes (LoadTableAndActivate name table) k (λ r k', match r with
    | Ret _ => devices k' = <[name := loaded table (dv_uuid d)]> (devices k)
    | Reject => ∃ d', devices k' = <[name := d']> (devices k)
    | Crash => False
    end).
Proof using abi.
  intros Hn Hask Hd. unfold LoadTableAndActivate. apply changes_bind. intros r k1 E1.
  pose proof (LoadTable_ok name table k Hn Hask r k1 E1) as H1.
  destruct r as [u| |]; [|exists d; by rewrite H1, insert_id|done].
  destruct H1 as (d0 & Hd0 & H1). rewrite Hd in Hd0. injection Hd0 as <-.
  apply changes_bind. intros r k2 E2.
  destruct (ioctl_io_law _ _ _ _ _ (InitIo_wf name) E2) as (r0 & E0 & ->).
  destruct (ioctl_law _ _ _ _ _ _ (InitIo_wf name) E0) as (Hc & Hrej & Hret).
  rewrite InitIo_name in Hret by done.
  destruct r0 as [b| |]; [|by rewrite Hrej, H1; eauto|done].
  apply changes_ret. destruct (Hret b eq_refl) as (d1 & Hd1 & ->). rewrite H1 in *.
  rewrite lookup_insert_eq in Hd1. injection Hd1 as <-. simpl. by rewrite insert_insert_eq.
Qed.

Lemma WaitForDevice_ok legacy name timeout k : name_ok name →
  changes (WaitForDevice legacy name timeout) k (λ r k', match r with
    | Ret _ => devices k' = devices k
    | Reject => devices k' = devices k ∨ devices k' = delete name (devices k)
    | Crash => False
    end).
Proof using abi.
  intros Hn. unfold WaitForDevice. apply changes_try.
  assert (Hfail : ∀ k', devices k' = devices k →
    changes (_ ← try_ (DeleteDevice name 0); lift (A := bytes) Reject) k' (λ r k', match r with
      | Ret _ => devices k' = devices k | Reject => devices k' = devices k ∨ devices k' = delete name (devices k)
      | Crash => False end)).
  { intros k' E'. apply changes_try. eapply changes_weaken; [by apply DeleteDevice_ok|].
    intros r k2 [Hnc Hr]. rewrite E' in Hr. destruct r; [| |done]; apply changes_lift; by destruct Hr as [?|[? _]]; [right|left]. }
  eapply changes_weaken; [apply settles_harmless|].
  { apply harmless_bind; [apply unique_path_harmless|]. intros u.
    apply harmless_bind; [apply harmless_bind; [apply status_harmless|intros io; apply harmless_ret]|].
    intros p. apply harmless_ret. }
  intros r k1 [Hnc E1]. destruct r as [[u p]| |]; [|by apply Hfail|done].
  case_decide; [by apply changes_ret|].
  apply changes_bind. intros r k2 E2. destruct (wait_law _ _ _ _ _ E2) as [Hnc2 Ed2].
  destruct r as [there| |]; [|left; by rewrite Ed2|done].
  destruct there; [apply changes_ret; by rewrite Ed2|]. apply Hfail. by rewrite Ed2.
Qed.

(** There is a new device that could not be finished, because the kernel refused to remove it. *)
Definition left_over (name : bytes) (ds : gmap bytes dm_device) (k' : K) : Prop :=
  ds !! name = None ∧ (∃ d, devices k' = <[name := d]> ds) ∧ removal_refused name k'.
Lemma CreateDevice_ok legacy name table timeout k : name_ok name →
  existsb asks_overflow (targets_ table) = false →
  changes (CreateDevice legacy name table timeout) k (λ r k', match r with
    | Ret _ => devices k !! name = None ∧ ∃ uuid, devices k' = <[name := loaded table uuid]> (devices k)
    | Reject => devices k' = devices k ∨ left_over name (devices k) k'
    | Crash => False
    end).
Proof using abi.
  intros Hn Hask. unfold CreateDevice. apply changes_bind. intros r k1 E1.
  pose proof (CreateEmptyDevice_ok name k Hn r k1 E1) as H1.
  destruct r as [u| |]; [|by left|done]. destruct H1 as (Hnone & uuid & Hk1).
  assert (Hclean : ∀ k', devices k' = devices k ∨ (∃ d, devices k' = <[name := d]> (devices k)) →
    changes (_ ← try_ (DeleteDevice name 0); lift (A := bytes) Reject) k' (λ r k', match r with
      | Ret _ => devices k !! name = None ∧ ∃ uuid, devices k' = <[name := loaded table uuid]> (devices k)
      | Reject => devices k' = devices k ∨ left_over name (devices k) k' | Crash => False end)).
  { intros k' Hds. apply changes_try. eapply changes_weaken; [by apply DeleteDevice_ok|].
    intros r k2 [Hnc Hr].
    assert (devices k2 = devices k ∨ left_over name (devices k) k2).
    { destruct Hr as [Hr|[Hr Hrefused]]; rewrite Hr; destruct Hds as [Hds|[d Hds]]; rewrite Hds.
      - left. by apply delete_id.
      - left. by apply delete_insert_id.
      - by left.
      - right. split; [done|]. split; [exists d; by rewrite Hr|done]. }
    destruct r; [| |done]; by apply changes_lift. }
  apply changes_try. eapply changes_weaken.
  { apply (LoadTableAndActivate_ok name table k1 (mkDevice uuid None None true) Hn Hask).
    rewrite Hk1. apply lookup_insert_eq. }
  intros r k2 Hr. destruct r as [v| |]; [| |done].
  2:{ destruct Hr as (d' & Hr). apply Hclean. right. exists d'. by rewrite Hr, Hk1, insert_insert_eq. }
  rewrite Hk1, insert_insert_eq in Hr. simpl in Hr. rename Hr into E2.
  apply changes_try. eapply changes_weaken; [by apply WaitForDevice_ok|].
  intros r k3 Hr. destruct r as [path| |]; [| |done].
  - apply changes_ret. split; [done|]. exists uuid. by rewrite Hr, E2.
  - apply Hclean. rewrite E2 in Hr. destruct Hr as [Hr|Hr]; rewrite Hr; [right; by eexists|left; by apply delete_insert_id].
Qed.
End Life.

(** ** Reading a device's table back ([DeviceMapper::GetTable])

    The records of a reply are read inside the buffer whatever the kernel wrote, and
    all of them are found once the buffer is large enough for the kernel. *)

Section Parse.
Context `{!DmAbi}.

Lemma spec_size_nonneg : 0 ≤ sizeof spec_codec.
Proof. unfold sizeof. lia. Qed.

(** Whatever numbers the records contain, nothing outside the buffer is read. *)
Lemma parse_targets_safe n buffer data_start data_end cursor :
  0 ≤ cursor < 2 ^ 32 → data_end ≤ zlen buffer → data_end < 2 ^ 32 → 0 ≤ data_end →
  sizeof spec_codec < 2 ^ 32 →
  ∃ l, parse_targets n buffer data_start data_end cursor = Ret l ∧ (length l ≤ n)%nat.
Proof.
  intros Hc He He32 He0 Hsz. pose proof spec_size_nonneg.
  revert cursor Hc. induction n as [|n IH]; intros cursor Hc; cbn [parse_targets].
  { exists []. by split. }
  rewrite u64_small by lia. case_decide as Hend; [exists []; split; [done|simpl; lia]|].
  rewrite slice_in by lia. cbn [mbind outcome_mbind].
  set (spec := c_dec _ _). pose proof (u32_range (data_start + spec_next spec)).
  set (next := u32 (data_start + spec_next spec) `min` data_end).
  rewrite u32_small by lia.
  destruct (IH next ltac:(lia)) as (l & Hl & Hlen).
  case_decide; [rewrite slice_in by lia|]; cbn [mbind outcome_mbind]; rewrite Hl;
    cbn [mbind outcome_mbind]; (eexists; split; [done|simpl; lia]).
Qed.

Lemma read_reply_safe buffer :
  (c_size io_codec ≤ length buffer)%nat → sizeof spec_codec < 2 ^ 32 →
  ∃ l, read_reply (c_dec io_codec buffer) buffer = Ret l ∧
    zlen l ≤ io_target_count (c_dec io_codec buffer).
Proof.
  intros Hb Hs. pose proof (dec_wf (c := io_codec) buffer Hb) as Hwf. apply io_wf in Hwf.
  destruct Hwf as (_ & Hds & Hst & Hc & _). unfold read_reply. set (io := c_dec _ _) in *.
  pose proof (zlen_nonneg buffer). pose proof (u32_range (zlen buffer)).
  pose proof (Z.mod_le (zlen buffer) (2 ^ 32) ltac:(lia) ltac:(lia)). fold (u32 (zlen buffer)) in *.
  destruct (parse_targets_safe (Z.to_nat (io_target_count io)) buffer (io_data_start io)
    (io_data_size io `min` u32 (zlen buffer)) (io_data_start io)) as (l & -> & Hl); try lia.
  exists l. split; [done|]. unfold zlen. lia.
Qed.

(** ** The reply *)

(** A record: a specification, its parameters and the padding behind their NUL. *)
Record status_record := mkStatus { st_spec : dm_target_spec; st_params : bytes; st_padding : nat }.
Definition record_size (r : status_record) : Z :=
  sizeof spec_codec + zlen (st_params r) + 1 + Z.of_nat (st_padding r).
Definition with_next (spec : dm_target_spec) (next : Z) : dm_target_spec :=
  mkSpec (sector_start spec) (spec_length spec) (spec_status spec) next (target_type spec).
(** The records behind [off] bytes of others: [next] counts from the first. *)
Fixpoint status_bytes (off : Z) (rs : list status_record) : bytes :=
  match rs with
  | [] => []
  | r :: rs =>
      c_enc spec_codec (with_next (st_spec r) (off + record_size r)) ++ st_params r ++
      zeroes (S (st_padding r)) ++ status_bytes (off + record_size r) rs
  end.
(** What the caller gets for them. *)
Fixpoint status_infos (off : Z) (rs : list status_record) : list TargetInfo :=
  match rs with
  | [] => []
  | r :: rs =>
      mkTargetInfo (with_next (st_spec r) (off + record_size r)) (st_params r) ::
      status_infos (off + record_size r) rs
  end.
Definition records_size (rs : list status_record) : Z := foldr (λ r n, record_size r + n) 0 rs.
Definition record_ok (r : status_record) : Prop :=
  c_wf spec_codec (with_next (st_spec r) 0) ∧ no_nul (st_params r).

Lemma record_size_pos r : sizeof spec_codec < record_size r.
Proof. unfold record_size. pose proof (zlen_nonneg (st_params r)). lia. Qed.
Lemma records_size_nonneg rs : 0 ≤ records_size rs.
Proof.
  induction rs as [|r rs IH]; simpl; [lia|]. pose proof (record_size_pos r). pose proof spec_size_nonneg. lia.
Qed.
Lemma with_next_wf spec next : c_wf spec_codec (with_next spec 0) → is_u32 next →
  c_wf spec_codec (with_next spec next).
Proof. intros Hs Hn. apply spec_wf. apply spec_wf in Hs. simpl in *. tauto. Qed.
Lemma sub_app_mid a b c : sub (a ++ b ++ c) (zlen a) (zlen b) = b.
Proof. unfold sub, zlen. rewrite !Nat2Z.id, drop_app_length. by rewrite take_app_length. Qed.

Lemma status_bytes_length off rs : Forall record_ok rs → 0 ≤ off → off + records_size rs < 2 ^ 32 →
  zlen (status_bytes off rs) = records_size rs.
Proof.
  intros Hrs. revert off. induction Hrs as [|r rs [Hr _] _ IH]; intros off Ho Hb; [done|].
  simpl in Hb. cbn [status_bytes]. change (records_size (r :: rs)) with (record_size r + records_size rs).
  pose proof (record_size_pos r). pose proof spec_size_nonneg. pose proof (records_size_nonneg rs).
  rewrite !zlen_app, IH by lia. unfold zlen at 1 3.
  rewrite (enc_length (c := spec_codec)) by (apply with_next_wf; [done|lia]). rewrite length_zeroes.
  unfold record_size, sizeof. lia.
Qed.

(** The records of a reply are found at the places they were written to. *)
Lemma parse_targets_ok rs pre tail data_start data_end off :
  Forall record_ok rs → 0 ≤ data_start → 0 ≤ off → zlen pre = data_start + off →
  data_start + off + records_size rs ≤ data_end → data_end < 2 ^ 32 →
  parse_targets (length rs) (pre ++ status_bytes off rs ++ tail) data_start data_end
    (data_start + off) = Ret (status_infos off rs).
Proof.
  intros Hrs Hs. revert pre off. induction Hrs as [|r rs [Hr Hp] Hrs IH]; intros pre off Ho Hpre He He32; [done|].
  cbn [length parse_targets status_bytes status_infos]. simpl in He.
  pose proof (record_size_pos r) as Hrsz. pose proof spec_size_nonneg. pose proof (records_size_nonneg rs).
  set (next := off + record_size r) in *. set (spec := with_next (st_spec r) next).
  assert (Hwf : c_wf spec_codec spec) by (apply with_next_wf; [done|unfold next; lia]).
  assert (Hel : zlen (c_enc spec_codec spec) = sizeof spec_codec).
  { unfold zlen, sizeof. by rewrite (enc_length (c := spec_codec)). }
  rewrite u64_small, decide_False by lia.
  set (rest := status_bytes next rs). set (pad := zeroes (S (st_padding r))).
  assert (Hpl : zlen (st_params r ++ pad) = record_size r - sizeof spec_codec).
  { unfold pad, record_size. rewrite zlen_app. unfold zlen at 2. rewrite length_zeroes. lia. }
  pose proof (zlen_nonneg rest). pose proof (zlen_nonneg tail). pose proof (zlen_nonneg (st_params r)).
  assert (Hb : pre ++ (c_enc spec_codec spec ++ st_params r ++ pad ++ rest) ++ tail =
    pre ++ c_enc spec_codec spec ++ (st_params r ++ pad) ++ rest ++ tail).
  { by rewrite <- !(assoc_L (++)). }
  rewrite Hb, <- Hpre, <- Hel, slice_app_mid. cbn [mbind outcome_mbind].
  replace (c_dec spec_codec (c_enc spec_codec spec)) with spec.
  2:{ symmetry. rewrite <- (app_nil_r (c_enc spec_codec spec)). by apply dec_enc. }
  cbn [spec_next spec with_next]. rewrite Hel, !u32_small by lia.
  rewrite Z.min_l by lia. rewrite decide_True by lia.
  replace (pre ++ c_enc spec_codec spec ++ (st_params r ++ pad) ++ rest ++ tail) with
    ((pre ++ c_enc spec_codec spec) ++ (st_params r ++ pad) ++ rest ++ tail) by (by rewrite <- (assoc_L (++))).
  replace (zlen pre + sizeof spec_codec) with (zlen (pre ++ c_enc spec_codec spec)) by (rewrite zlen_app; lia).
  replace (data_start + next - zlen (pre ++ c_enc spec_codec spec)) with (zlen (st_params r ++ pad))
    by (rewrite Hpl, zlen_app, Hel; unfold next; lia).
  rewrite slice_app_mid. cbn [mbind outcome_mbind].
  replace ((pre ++ c_enc spec_codec spec) ++ (st_params r ++ pad) ++ rest ++ tail) with
    ((pre ++ c_enc spec_codec spec ++ st_params r ++ pad) ++ rest ++ tail) by (by rewrite <- !(assoc_L (++))).
  unfold rest. rewrite IH; [|unfold next; lia|rewrite zlen_app, zlen_app, Hpl, Hel; unfold next; lia|unfold next in *; lia|lia].
  cbn [mbind outcome_mbind]. unfold pad. by rewrite cstr_app_zeroes.
Qed.
End Parse.

(** ** The buffer *)

(** What a reply holds: the records from [data_start] on, all below [data_size]. *)
Definition answers `{!DmAbi} (rs : list status_record) (buffer : bytes) : Prop :=
  let out := c_dec io_codec buffer in
  io_target_count out = zlen rs ∧
  io_data_start out + records_size rs ≤ io_data_size out ≤ zlen buffer ∧
  ∃ pre tail, buffer = pre ++ status_bytes 0 rs ++ tail ∧ zlen pre = io_data_start out.

(** The kernel's answer to [DM_TABLE_STATUS]: an error if there is no such device, the
    records if they fit, and otherwise a flag; [status_room] bytes are enough.  Reading
    changes nothing. *)
Class DmStatusLaws (K : Type) `{!DmAbi, !DmKernel K} := {
  status_of : K → bytes → Z → option (list status_record);
  status_room : K → bytes → Z;
  status_records_ok k name flags rs : status_of k name flags = Some rs → Forall record_ok rs;
  status_law io rest k : c_wf io_codec io → io_data_size io = zlen (c_enc io_codec io ++ rest) →
    ∃ r k', ioctl DM_TABLE_STATUS (c_enc io_codec io ++ rest) k = (r, k') ∧
      status_of k' = status_of k ∧ status_room k' = status_room k ∧
      match r with
      | Ret b => length b = length (c_enc io_codec io ++ rest) ∧
          ∃ rs, status_of k (cstr (io_name io)) (io_flags io) = Some rs ∧
            if decide (Z.land (io_flags (c_dec io_codec b)) DM_BUFFER_FULL_FLAG = 0)
            then answers rs b else io_data_size io < status_room k (cstr (io_name io))
      | Reject => status_of k (cstr (io_name io)) (io_flags io) = None
      | Crash => False
      end;
}.

Section GetTable.
Context `{DmStatusLaws K} (abi : abi_ok) (io_fits : sizeof io_codec ≤ 4096).

Lemma table_buffer_ok fuel name flags buffer k :
  name_ok name → is_u32 flags → 4096 ≤ zlen buffer →
  zlen buffer * 2 ^ Z.of_nat fuel ≤ 2 ^ 31 → status_room k name ≤ zlen buffer * 2 ^ Z.of_nat fuel →
  ∃ r k', table_buffer (S fuel) name flags buffer k = (r, k') ∧
    match status_of k name flags with
    | None => r = Reject
    | Some rs => ∃ b, r = Ret (c_dec io_codec b, b) ∧ zlen b < 2 ^ 32 ∧
        (c_size io_codec ≤ length b)%nat ∧ answers rs b
    end.
Proof using abi io_fits.
  intros Hn Hf. revert buffer k. induction fuel as [|fuel IH]; intros buffer k Hb Hmax Hroom.
  all: cbn [table_buffer]; set (io := io_set_flags _ _);
    assert (Hz : zlen buffer ≤ 2 ^ 31) by
      (rewrite ?Nat2Z.inj_succ, ?Z.pow_succ_r in Hmax by lia; nia);
    assert (Hwf : c_wf io_codec io) by
      (pose proof (proj1 (io_wf _) (InitIo_wf abi name)) as Hi; apply io_wf; simpl in *;
       pose proof (u32_range (zlen buffer)); pose proof (abi_size abi); tauto);
    assert (Hlen : length (c_enc io_codec io ++ drop (c_size io_codec) buffer) = length buffer) by
      (rewrite length_app, (enc_length (c := io_codec)), length_drop by done;
       unfold sizeof, zlen in *; lia);
    assert (Hds : io_data_size io = zlen buffer) by (simpl; by rewrite u32_small by lia);
    destruct (status_law io (drop (c_size io_codec) buffer) k Hwf) as (r & k1 & E & Hst & Hroom1 & Hr);
      [by rewrite Hds; unfold zlen; rewrite Hlen|];
    change (io_name io) with (io_name (InitIo name)) in Hr; rewrite InitIo_name in Hr by done;
    change (io_flags io) with flags in Hr;
    unfold mbind at 1, io_mbind at 1; rewrite E;
    destruct r as [b| |]; [destruct Hr as (Hbl & rs & Hrs & Hr)|rewrite Hr; by eexists _, _|done];
    rewrite Hrs; case_decide as Hfull.
  1,3: eexists _, _; split; [done|]; exists b; split_and!; [done| | |done];
    unfold sizeof, zlen in *; lia.
  - simpl in Hroom. lia.
  - rewrite Nat2Z.inj_succ, Z.pow_succ_r in * by lia.
    assert (Hz2 : zlen (b ++ zeroes (length b)) = 2 * zlen buffer).
    { unfold zlen. rewrite length_app, length_zeroes. lia. }
    destruct (IH (b ++ zeroes (length b)) k1) as (r & k2 & E2 & H2); [lia|nia|rewrite Hroom1; nia|].
    rewrite Hst, Hrs in H2. by exists r, k2.
Qed.

(** Twenty buffers, the last of 2 GiB, are enough. *)
Lemma GetTable_ok name flags k : name_ok name → is_u32 flags → status_room k name ≤ 2 ^ 31 →
  ∃ k', GetTable 20 name flags k =
    (match status_of k name flags with
     | Some rs => Ret (status_infos 0 rs)
     | None => Reject
     end, k').
Proof using abi io_fits.
  intros Hn Hf Hroom.
  destruct (table_buffer_ok 19 name flags (zeroes 4096) k Hn Hf) as (r & k' & E & Hr); try done.
  unfold GetTable, mbind, io_mbind. rewrite E. exists k'.
  destruct (status_of k name flags) as [rs|] eqn:Hrs; [|by rewrite Hr].
  destruct Hr as (b & -> & Hb & Hsz & Hc & Hd & pre & tail & Hbuf & Hpre). simpl.
  pose proof (proj1 (io_wf _) (dec_wf (c := io_codec) b Hsz)) as (_ & _ & [Hds _] & _).
  unfold lift. f_equal. unfold read_reply. rewrite Hc, to_nat_zlen, u32_small, Z.min_l by (pose proof (zlen_nonneg b); lia).
  rewrite Hbuf at 1. rewrite <- (Z.add_0_r (io_data_start _)) at 2.
  apply parse_targets_ok; try done; try lia. by apply (status_records_ok k name flags).
Qed.
End GetTable.
