(* ===== verification/MemKernel.v ===== *)
(** * A device-mapper kernel in memory

    The layout of the kernel's structs on Linux, and a kernel that keeps its devices in
    a map: the instances that show the interfaces of [DeviceMapper] and [DmLife]
    can be met. *)
From S2P Require Import Prelude Bytes Device LpFormat LpReader DmTarget DeviceMapper DmLife.

(** A struct some of whose members are gathered in one field of the model. *)
Lemma c_struct_dec_ok {A B} (f : A → B) (g : B → A) (c : codec A) :
  CodecOk c → (∀ b, f (g b) = b) →
  (∀ bs, (c_size c ≤ length bs)%nat → g (f (c_dec c bs)) = c_dec c bs) → CodecOk (c_struct f g c).
Proof.
  intros Hc Hfg Hgf. split; simpl.
  - intros b Hb. by apply enc_length.
  - intros b rest Hb. by rewrite dec_enc, Hfg.
  - intros bs Hbs. rewrite Hgf by done. by apply dec_wf.
  - intros bs Hbs. rewrite Hgf by done. by apply enc_dec.
Qed.

Definition linux_spec : codec dm_target_spec :=
  c_struct (λ '(a, (b, (c, (d, e)))), mkSpec a b c d e)
    (λ s, (sector_start s, (spec_length s, (spec_status s, (spec_next s, target_type s)))))
    (c_pair c_u64 (c_pair c_u64 (c_pair c_u32 (c_pair c_u32 (c_bytes 16))))).
#[export] Instance linux_spec_ok : CodecOk linux_spec.
Proof. apply c_struct_ok; [apply _|by intros []|by intros (?&?&?&?&?)]. Qed.
#[refine] Definition linux_format : DmFormat :=
  {| DM_MAX_TYPE_NAME := 16; spec_codec := linux_spec |}.
Proof. intros s. simpl. tauto. Defined.

Definition linux_io : codec dm_ioctl :=
  c_struct (λ '((v0, (v1, v2)), (a, (b, (c, (d, (e, (o1, (f, (g, (h, o2)))))))))),
              mkIo (v0, v1, v2) a b c d e f g h (o1 ++ o2))
    (λ i, ((fst (fst (io_version i)), (snd (fst (io_version i)), snd (io_version i))),
           (io_data_size i, (io_data_start i, (io_target_count i, (io_open_count i, (io_flags i,
            (take 8 (io_other i), (io_dev i, (io_name i, (io_uuid i, drop 8 (io_other i))))))))))))
    (c_pair (c_pair c_u32 (c_pair c_u32 c_u32))
       (c_pair c_u32 (c_pair c_u32 (c_pair c_u32 (c_pair c_u32 (c_pair c_u32
          (c_pair (c_bytes 8) (c_pair c_u64 (c_pair (c_bytes 128) (c_pair (c_bytes 129) (c_bytes 7))))))))))).
#[export] Instance linux_io_ok : CodecOk linux_io.
Proof.
  apply c_struct_dec_ok; [apply _| |].
  - intros [[[v0 v1] v2] a b c d e f g h o]. simpl. by rewrite take_drop.
  - intros bs Hbs. cbn -[c_int] in Hbs |- *.
    assert (Ht : length (take 8 (drop 4 (drop 4 (drop 4 (drop 4 (drop 4 (drop 12 bs))))))) = 8%nat)
      by (rewrite length_take, !length_drop; lia).
    by rewrite take_app_length', drop_app_length'.
Qed.
Lemma length_other (o : bytes) : length (take 8 o) = 8%nat ∧ length (drop 8 o) = 7%nat ↔ length o = 15%nat.
Proof. rewrite length_take, length_drop. lia. Qed.

#[export, refine] Instance linux_abi : DmAbi := {|
  abi_format := linux_format;
  DM_NAME_LEN := 128; DM_UUID_LEN := 129;
  io_codec := linux_io; io_other_size := 15;
  versions_codec := c_struct (λ '(a, (b, (c, d))), mkVersions a (b, c, d))
    (λ v, (tv_next v, (fst (fst (tv_version v)), (snd (fst (tv_version v)), snd (tv_version v)))))
    (c_pair c_u32 (c_pair c_u32 (c_pair c_u32 c_u32)));
  name_list_codec := c_struct (λ '(a, b), mkNameList a b) (λ v, (nl_dev v, nl_next v)) (c_pair c_u64 c_u32);
  DM_READONLY_FLAG := 1; DM_SUSPEND_FLAG := 2; DM_ACTIVE_PRESENT_FLAG := 32;
  DM_STATUS_TABLE_FLAG := 16; DM_BUFFER_FULL_FLAG := 256; DM_UEVENT_GENERATED_FLAG := 8192;
|}.
Proof.
  intros [[[v0 v1] v2] a b c d e f g h o]. pose proof (length_other o). simpl in *.
  change (8 * Z.of_nat 4) with 32. change (8 * Z.of_nat 8) with 64. tauto.
Defined.

Lemma linux_abi_ok : abi_ok.
Proof. split; simpl; [lia|lia|by vm_compute|by split]. Qed.

(** ** The kernel *)

(** [mk_refused]: a request that fails; [mk_nodes]: what [access] finds of a device node. *)
Record MemKernel := mkMem {
  mk_devices : gmap bytes dm_device;
  mk_uuids : Z;
  mk_refused : option dm_request;
  mk_nodes : FileAccess;
  mk_clock : Z;
}.
Definition mk_set (ds : gmap bytes dm_device) (k : MemKernel) : MemKernel :=
  mkMem ds (mk_uuids k) (mk_refused k) (mk_nodes k) (mk_clock k).
#[export] Instance request_eq_dec : EqDecision dm_request.
Proof. solve_decision. Defined.

(** The records of a loaded table. *)
Fixpoint table_records (fuel : nat) (data : bytes) : list status_record :=
  match fuel with
  | O => []
  | S fuel =>
      if decide (length data < 40)%nat then []
      else
        let spec := c_dec linux_spec data in
        let next := Z.to_nat (spec_next spec) in
        mkStatus spec (cstr (drop 40 (take next data))) 0 :: table_records fuel (drop (40 `max` next) data)
  end.
Definition mem_status (k : MemKernel) (name : bytes) : option (list status_record) :=
  d ← mk_devices k !! name;
  Some match dv_active d with Some (data, _) => table_records (length data) data | None => [] end.
Definition mem_room (k : MemKernel) (name : bytes) : Z :=
  sizeof linux_io + match mem_status k name with Some rs => records_size rs | None => 0 end.

(** The head of a reply. *)
Definition reply (io : dm_ioctl) (flags : Z) (uuid : bytes) : dm_ioctl :=
  mkIo (io_version io) (io_data_size io) (io_data_start io) 0 0 flags (io_dev io) (io_name io) uuid
    (io_other io).
Definition mem_ioctl (request : dm_request) (buffer : bytes) : IO MemKernel bytes := λ k,
  let io := c_dec linux_io buffer in
  let data := drop 312 buffer in
  let name := cstr (io_name io) in
  let ds := mk_devices k in
  let answer flags uuid ds := (Ret (c_enc linux_io (reply io flags uuid) ++ data), mk_set ds k) in
  if decide (mk_refused k = Some request ∧ request ≠ DM_TABLE_STATUS)
  then (Reject, k)
  else
    match request, ds !! name with
    | DM_DEV_CREATE, None =>
        answer 0 (io_uuid io) (<[name := mkDevice (cstr (io_uuid io)) None None true]> ds)
    | DM_DEV_REMOVE, Some _ => answer DM_UEVENT_GENERATED_FLAG (io_uuid io) (delete name ds)
    | DM_TABLE_LOAD, Some d =>
        answer 0 (io_uuid io) (<[name := mkDevice (dv_uuid d) (dv_active d)
          (Some (data, has_flag (io_flags io) DM_READONLY_FLAG)) (dv_suspended d)]> ds)
    | DM_DEV_SUSPEND, Some d =>
        answer 0 (io_uuid io) (<[name :=
          if has_flag (io_flags io) DM_SUSPEND_FLAG
          then mkDevice (dv_uuid d) (dv_active d) (dv_inactive d) true
          else mkDevice (dv_uuid d)
                 (match dv_inactive d with Some t => Some t | None => dv_active d end) None false]> ds)
    | DM_DEV_STATUS, Some d =>
        answer (match dv_active d with Some _ => DM_ACTIVE_PRESENT_FLAG | None => 0 end) (snprintf_s 129 (dv_uuid d)) ds
    | DM_TABLE_STATUS, Some d =>
        match mem_status k name with
        | None => (Reject, k)
        | Some rs =>
            let size := 312 + records_size rs in
            if decide (zlen buffer < size ∨ io_data_size io < size) then answer DM_BUFFER_FULL_FLAG (io_uuid io) ds
            else
              (Ret (c_enc linux_io (mkIo (io_version io) size 312 (zlen rs) 0 0 (io_dev io) (io_name io)
                      (io_uuid io) (io_other io)) ++
                    status_bytes 0 rs ++ drop (Z.to_nat (records_size rs)) data), k)
        end
    | (DM_LIST_VERSIONS | DM_LIST_DEVICES), _ => answer 0 (io_uuid io) ds
    | _, _ => (Reject, k)
    end.
#[export] Instance mem_kernel : DmKernel MemKernel := {|
  ioctl := mem_ioctl;
  uuid_generate k := (Ret (to_string (mk_uuids k)),
    mkMem (mk_devices k) (mk_uuids k + 1) (mk_refused k) (mk_nodes k) (mk_clock k));
  access_file _ k := (Ret (mk_nodes k), k);
  steady_clock k := (Ret (mk_clock k), k);
  sleep_for ms k := (Ret (),
    mkMem (mk_devices k) (mk_uuids k) (mk_refused k) (mk_nodes k) (mk_clock k + ms));
|}.

Lemma reply_wf io flags uuid : c_wf linux_io io → is_u32 flags → length uuid = 129%nat →
  c_wf linux_io (reply io flags uuid).
Proof.
  intros Hwf Hf Hu. apply (io_wf (DmAbi := linux_abi)). apply (io_wf (DmAbi := linux_abi)) in Hwf.
  destruct io as [[[? ?] ?] ? ? ? ? ? ? ? ? ?]. simpl in *. split_and!; lia.
Qed.

#[export, refine] Instance mem_laws : DmKernelLaws MemKernel :=
  {| devices := mk_devices; clock := mk_clock |}.
Proof.
  - intros request io data k r k' Hwf E name.
    assert (Hdec : c_dec linux_io (c_enc linux_io io ++ data) = io) by (by apply dec_enc).
    cbn [ioctl mem_kernel] in E. unfold mem_ioctl in E. cbn [io_codec linux_abi] in E.
    assert (Hdrop : drop 312 (c_enc linux_io io ++ data) = data).
    { apply drop_app_length'. symmetry. by apply (enc_length (c := linux_io)). }
    rewrite Hdec, Hdrop in E.
    fold name in E. case_decide as Href.
    { injection E as <- <-. done. }
    destruct request, (mk_devices k !! name) as [d|] eqn:Hd; cbn beta iota zeta in E;
      try (destruct (mem_status k name); [case_decide|]); injection E as <- <-;
      (split; [done|split; [done|]]); intros b Hb; try discriminate Hb; injection Hb as <-;
      cbn [mk_devices mk_set]; try done.
    all: by exists d.
  - by intros k r k' [= <- <-].
  - intros path k r k' [= <- <-]. split_and!; [by eexists|done|done].
  - intros k r k' [= <- <-]. by split_and!.
  - intros ms k r k' [= <- <-]. by split_and!.
Defined.

Lemma table_records_ok fuel data : Forall record_ok (table_records fuel data).
Proof.
  revert data. induction fuel as [|fuel IH]; intros data; [constructor|].
  cbn [table_records]. case_decide as Hl; [constructor|]. constructor; [|apply IH].
  split; [|by apply cstr_no_nul]. apply spec_wf. cbn [st_spec].
  pose proof (proj1 (spec_wf _) (dec_wf (c := linux_spec) data ltac:(simpl; lia))) as Hwf.
  simpl in *. split_and!; lia.
Qed.
Lemma records_size_count rs : 40 * zlen rs ≤ records_size rs.
Proof.
  induction rs as [|r rs IH]; [done|]. pose proof (record_size_pos r) as Hr.
  change (sizeof spec_codec) with 40 in Hr. unfold zlen in *. simpl. lia.
Qed.

(** A reply with the records. *)
Lemma answers_reply io rs rest : c_wf linux_io io → Forall record_ok rs →
  io_target_count io = zlen rs → io_data_start io = 312 →
  io_data_size io = 312 + records_size rs →
  answers rs (c_enc linux_io io ++ status_bytes 0 rs ++ rest).
Proof.
  intros Hwf Hrs Hc Hs Hd. unfold answers. cbn [io_codec linux_abi]. rewrite dec_enc by done.
  assert (Hl : zlen (c_enc linux_io io) = 312).
  { unfold zlen. by rewrite (enc_length (c := linux_io)). }
  pose proof (proj1 (io_wf (DmAbi := linux_abi) io) Hwf) as (_ & Hb & _).
  pose proof (records_size_nonneg rs). pose proof (zlen_nonneg rest).
  rewrite Hc, Hs, Hd, !zlen_app, Hl, status_bytes_length by (done || lia).
  split_and!; [done|lia|lia|]. by exists (c_enc linux_io io), rest.
Qed.

(** Only a kernel that was told to refuses a removal. *)
Lemma mem_removal name k : name_ok (H := linux_abi) name → mk_refused k ≠ Some DM_DEV_REMOVE → ¬ removal_refused name k.
Proof.
  intros Hn Hk [[d Hd] (k0 & Hds & E)]. cbn [ioctl mem_kernel] in E. unfold mem_ioctl in E. cbn [io_codec linux_abi] in E.
  rewrite (dec_enc_nil linux_io) in E by apply (InitIo_wf linux_abi_ok).
  case_decide as Hr; [injection E as ->; by destruct Hr|].
  rewrite InitIo_name in E by done. cbn [devices mem_laws] in *. rewrite Hds, Hd in E. discriminate E.
Qed.

#[export, refine] Instance mem_status_laws : DmStatusLaws MemKernel := {|
  status_of k name _ := mem_status k name;
  status_room := mem_room;
|}.
Proof.
  - intros k name _ rs Hrs. unfold mem_status in Hrs.
    destruct (mk_devices k !! name) as [d|]; [|done]. simpl in Hrs.
    destruct (dv_active d) as [[data ?]|]; injection Hrs as <-; [apply table_records_ok|constructor].
  - intros io rest k Hwf Hsize. cbn [ioctl mem_kernel]. unfold mem_ioctl.
    cbn [io_codec linux_abi] in *. rewrite dec_enc by done. rewrite decide_False by (intros (_ & ?); done).
    set (buffer := c_enc linux_io io ++ rest) in *.
    assert (Hlen : length (c_enc linux_io io) = 312%nat) by (by apply (enc_length (c := linux_io))).
    assert (Hdrop : drop 312 buffer = rest) by (by apply drop_app_length').
    set (name := cstr (io_name io)). unfold mem_room.
    destruct (mk_devices k !! name) as [d|] eqn:Hd.
    2:{ eexists _, _. split_and!; [done..|]. unfold mem_status. by rewrite Hd. }
    destruct (mem_status k name) as [rs|] eqn:Hrs; [|unfold mem_status in Hrs; by rewrite Hd in Hrs].
    pose proof (proj1 (io_wf (DmAbi := linux_abi) io) Hwf) as (Hv & Hds & _ & _ & _ & _ & Hdev & Hn & Hu & Ho).
    assert (Hok : Forall record_ok rs).
    { unfold mem_status in Hrs. rewrite Hd in Hrs. simpl in Hrs.
      destruct (dv_active d) as [[data ?]|]; injection Hrs as <-; [apply table_records_ok|constructor]. }
    pose proof (records_size_nonneg rs). pose proof (records_size_count rs). pose proof (zlen_nonneg rs).
    case_decide as Hbig; (eexists _, _; split; [done|]; rewrite Hdrop); split_and!; try done.
    + exists rs. split; [done|]. rewrite dec_enc by (by apply reply_wf). case_decide; [done|].
      cbn [reply io_flags]. change (sizeof linux_io) with 312. lia.
    + unfold buffer in *. rewrite zlen_app in Hsize, Hbig. unfold zlen in Hsize, Hbig.
      pose proof (status_bytes_length 0 rs Hok ltac:(lia) ltac:(lia)) as Hsl. unfold zlen in Hsl.
      rewrite !length_app, length_drop, Hlen. rewrite (enc_length (c := linux_io)); [simpl; lia|].
      apply (io_wf (DmAbi := linux_abi)). simpl. split_and!; try done; lia.
    + exists rs. split; [done|].
      assert (Hwf' : c_wf linux_io (mkIo (io_version io) (312 + records_size rs) 312 (zlen rs) 0 0
        (io_dev io) (io_name io) (io_uuid io) (io_other io))).
      { apply (io_wf (DmAbi := linux_abi)). simpl. split_and!; try done; lia. }
      rewrite dec_enc by done. rewrite decide_True by done. by apply answers_reply.
Defined.
