(* ===== verification/DmLinear.v ===== *)
(** * Logical partitions as device-mapper devices ([fs_mgr/fs_mgr_dm_linear.cpp])

    The extents of a partition in the metadata become the targets of a table, and the
    table a device.  The default [PartitionOpener] and [realpath] are parameters. *)
From S2P Require Import Prelude Bytes LpFormat LpUtility Device LpReader DmTarget DeviceMapper.

Section DmLinear.
Context (sha256 : bytes → bytes) (nothrow_new : Z → bool).
Context {D : Type} `{!BlockIO D}.
(** The default opener, and [android::base::Realpath]. *)
Context (default_opener : @IPartitionOpener D) (Realpath : bytes → option bytes).

(** [fs_mgr/include/fs_mgr_dm_linear.h:53-99 CreateLogicalPartitionParams] *)
Record CreateLogicalPartitionParams := mkParams {
  block_device : bytes;
  metadata : option LpMetadata;
  metadata_slot : option Z;
  partition : option LpMetadataPartition;
  partition_name : bytes;
  force_writable : bool;
  timeout_ms : Z;
  device_name : bytes;
  partition_opener : option (@IPartitionOpener D);
}.

(** [fs_mgr/fs_mgr_dm_linear.cpp:256-260 CreateLogicalPartitionParams::GetPartitionName] *)
Definition params_GetPartitionName (p : CreateLogicalPartitionParams) : bytes :=
  if decide (partition_name p ≠ []) then partition_name p
  else match partition p with
       | Some partition => GetPartitionName partition
       | None => str "<unknown partition>"
       end.
(** [fs_mgr/fs_mgr_dm_linear.cpp:251-254 CreateLogicalPartitionParams::GetDeviceName] *)
Definition params_GetDeviceName (p : CreateLogicalPartitionParams) : bytes :=
  if decide (device_name p ≠ []) then device_name p else params_GetPartitionName p.

(** The parameters with every default filled in: metadata, partition and opener, the
    name of the partition and of the device. *)
Record FilledParams := mkFilled {
  fp_block_device : bytes;
  fp_metadata : LpMetadata;
  fp_partition : LpMetadataPartition;
  fp_partition_name : bytes;
  fp_force_writable : bool;
  fp_timeout_ms : Z;
  fp_device_name : bytes;
  fp_opener : @IPartitionOpener D;
}.
(** [fs_mgr/fs_mgr_dm_linear.cpp:180-232 CreateLogicalPartitionParams::InitDefaults] *)
Definition InitDefaults (p : CreateLogicalPartitionParams) : outcome FilledParams :=
  _ ← require (block_device p ≠ []);
  let opener := default default_opener (partition_opener p) in
  m ← match metadata p with
      | Some m => Ret m
      | None =>
          slot ← found (metadata_slot p);
          ReadMetadata sha256 nothrow_new opener (block_device p) slot
      end;
  part ← match partition p with
         | Some part => Ret part
         | None => found (FindLpPartition m (partition_name p))
         end;
  _ ← require (partition_name p = [] ∨ partition_name p = GetPartitionName part);
  let name := GetPartitionName part in
  Ret (mkFilled (block_device p) m part name (force_writable p) (timeout_ms p)
         (if decide (device_name p = []) then name else device_name p) opener).

(** Block device [i] of the metadata: the address of the first is that of the super
    block device.
    [fs_mgr/fs_mgr_dm_linear.cpp:55-90 GetPhysicalPartitionDevicePath] *)
Definition GetPhysicalPartitionDevicePath (opener : @IPartitionOpener D) (i : nat)
    (b : LpMetadataBlockDevice) (super_device : bytes) : outcome bytes :=
  let name := GetBlockDevicePartitionName b in
  if StartsWith name (str "dm-") then Ret (str "/dev/block/" ++ name)
  else
    let dev_string := if decide (i = 0%nat) then opener_GetDeviceString opener super_device
                      else opener_GetDeviceString opener name in
    if StartsWith dev_string (str "/") then found (Realpath dev_string) else Ret dev_string.

(** The target of an extent.
    [fs_mgr/fs_mgr_dm_linear.cpp:99-119 CreateDmTableInternal, target] *)
Definition extent_target (opener : @IPartitionOpener D) (super_device : bytes) (m : LpMetadata)
    (sector : Z) (e : LpMetadataExtent) : outcome DmTarget :=
  if decide (e_target_type e = LP_TARGET_TYPE_ZERO) then
    Ret (mkTarget sector (e_num_sectors e) DmTargetZero)
  else if decide (e_target_type e = LP_TARGET_TYPE_LINEAR) then
    let i := Z.to_nat (e_target_source e) in
    b ← access (m_block_devices m !! i);
    dev_string ← GetPhysicalPartitionDevicePath opener i b super_device;
    Ret (mkTarget sector (e_num_sectors e) (DmTargetLinear dev_string (e_target_data e)))
  else Reject.
(** The loop over extents [first + i].
    [fs_mgr/fs_mgr_dm_linear.cpp:96-123 CreateDmTableInternal, loop] *)
Fixpoint add_extents (opener : @IPartitionOpener D) (super_device : bytes) (m : LpMetadata)
    (first : Z) (n : nat) (sector : Z) (table : DmTable) : outcome DmTable :=
  match n with
  | O => Ret table
  | S n =>
      e ← access (m_extents m !! Z.to_nat first);
      target ← extent_target opener super_device m sector e;
      table ← AddTarget target table;
      add_extents opener super_device m (first + 1) n (u64 (sector + e_num_sectors e)) table
  end.
(** [fs_mgr/fs_mgr_dm_linear.cpp:92-131 CreateDmTableInternal] *)
Definition CreateDmTableInternal (p : FilledParams) (table : DmTable) : outcome DmTable :=
  let part := fp_partition p in
  table ← add_extents (fp_opener p) (fp_block_device p) (fp_metadata p)
            (p_first_extent_index part) (Z.to_nat (p_num_extents part)) 0 table;
  let table := if decide (Z.land (p_attributes part) LP_PARTITION_ATTR_READONLY ≠ 0)
               then set_readonly true table else table in
  Ret (if fp_force_writable p then set_readonly false table else table).
(** [fs_mgr/fs_mgr_dm_linear.cpp:133-137 CreateDmTable] *)
Definition CreateDmTable (p : CreateLogicalPartitionParams) (table : DmTable) : outcome DmTable :=
  p ← InitDefaults p; CreateDmTableInternal p table.

Section Devices.
Context `{!DmAbi} {K : Type} `{!DmKernel K} (legacy : bool).

(** [fs_mgr/fs_mgr_dm_linear.cpp:234-249 CreateLogicalPartition] *)
Definition CreateLogicalPartition (p : CreateLogicalPartitionParams) : IO K bytes :=
  p ← lift (InitDefaults p);
  table ← lift (CreateDmTableInternal p empty_table);
  CreateDevice legacy (fp_device_name p) table (fp_timeout_ms p).

(** [fs_mgr/fs_mgr_dm_linear.cpp:155-158 CreateLogicalPartitions, params] *)
Definition default_params (super_device : bytes) (m : LpMetadata) (part : LpMetadataPartition)
    : CreateLogicalPartitionParams :=
  mkParams super_device (Some m) None (Some part) [] false 0 [] None.
(** Whether a partition gets a device.
    [fs_mgr/fs_mgr_dm_linear.cpp:159-167 CreateLogicalPartitions, skip] *)
Definition skipped (part : LpMetadataPartition) : bool :=
  bool_decide (p_num_extents part = 0) ||
  bool_decide (Z.land (p_attributes part) LP_PARTITION_ATTR_DISABLED ≠ 0).
(** [fs_mgr/fs_mgr_dm_linear.cpp:159-176 CreateLogicalPartitions, loop] *)
Fixpoint create_all (super_device : bytes) (m : LpMetadata) (parts : list LpMetadataPartition)
    : IO K unit :=
  match parts with
  | [] => mret ()
  | part :: parts =>
      _ ← (if skipped part then mret ()
           else _ ← CreateLogicalPartition (default_params super_device m part); mret ());
      create_all super_device m parts
  end.
(** [fs_mgr/fs_mgr_dm_linear.cpp:154-178 CreateLogicalPartitions] *)
Definition CreateLogicalPartitions (m : LpMetadata) (super_device : bytes) : IO K unit :=
  create_all super_device m (m_partitions m).
(** [slot_suffix] is [fs_mgr_get_slot_suffix()].
    [fs_mgr/fs_mgr_dm_linear.cpp:149-152 ReadCurrentMetadata] *)
Definition ReadCurrentMetadata (slot_suffix super_device : bytes) : outcome LpMetadata :=
  ReadMetadata sha256 nothrow_new default_opener super_device (SlotNumberForSlotSuffix slot_suffix).
(** A partition table that cannot be read is not a failure.
    [fs_mgr/fs_mgr_dm_linear.cpp:139-147 CreateLogicalPartitions] *)
Definition CreateLogicalPartitions_device (slot_suffix super_device : bytes) : IO K unit :=
  match ReadCurrentMetadata slot_suffix super_device with
  | Ret m => CreateLogicalPartitions m super_device
  | Reject => mret ()
  | Crash => lift Crash
  end.

(** [fs_mgr/fs_mgr_dm_linear.cpp:262-268 UnmapDevice] *)
Definition UnmapDevice (name : bytes) : IO K unit := DeleteDevice name 0.
(** [fs_mgr/fs_mgr_dm_linear.cpp:270-276 DestroyLogicalPartition] *)
Definition DestroyLogicalPartition (name : bytes) : IO K unit := UnmapDevice name.
End Devices.
End DmLinear.
