(* ===== verification/CowFormat.v ===== *)
(** * The format of copy-on-write images ([libsnapshot/cow_format.h], [cow_format.cpp])

    A COW image holds the operations that turn the old content of a partition into the
    new: a header, scratch space, operations with their data, and a footer.  [CowFile] is
    the descriptor through which an image is read and written. *)
From S2P Require Import Prelude Bytes Device.

Definition c_u8 : codec Z := c_int 1.
#[export] Instance c_u8_ok : CodecOk c_u8 := c_int_ok 1.

(** [libsnapshot/include/libsnapshot/cow_format.h:23-23 kCowMagicNumber] *)
Definition kCowMagicNumber : Z := 0x436f77634f572121.
(** [libsnapshot/include/libsnapshot/cow_format.h:24-24 kCowVersionMajor] *)
Definition kCowVersionMajor : Z := 2.
(** [libsnapshot/include/libsnapshot/cow_format.h:25-25 kCowVersionMinor] *)
Definition kCowVersionMinor : Z := 0.
(** [libsnapshot/include/libsnapshot/cow_format.h:29-29 BLOCK_SZ] *)
Definition BLOCK_SZ : Z := 4096.
(** [libsnapshot/include/libsnapshot/cow_format.h:187-187 BUFFER_REGION_DEFAULT_SIZE] *)
Definition BUFFER_REGION_DEFAULT_SIZE : Z := Z.shiftl 1 21.

(** [libsnapshot/include/libsnapshot/cow_format.h:148-148 kCowCopyOp] *)
Definition kCowCopyOp : Z := 1.
(** [libsnapshot/include/libsnapshot/cow_format.h:149-149 kCowReplaceOp] *)
Definition kCowReplaceOp : Z := 2.
(** [libsnapshot/include/libsnapshot/cow_format.h:150-150 kCowZeroOp] *)
Definition kCowZeroOp : Z := 3.
(** [libsnapshot/include/libsnapshot/cow_format.h:151-151 kCowLabelOp] *)
Definition kCowLabelOp : Z := 4.
(** [libsnapshot/include/libsnapshot/cow_format.h:152-152 kCowClusterOp] *)
Definition kCowClusterOp : Z := 5.
(** [libsnapshot/include/libsnapshot/cow_format.h:153-153 kCowXorOp] *)
Definition kCowXorOp : Z := 6.
(** [libsnapshot/include/libsnapshot/cow_format.h:154-154 kCowSequenceOp] *)
Definition kCowSequenceOp : Z := 7.
(** [libsnapshot/include/libsnapshot/cow_format.h:155-155 kCowFooterOp] *)
Definition kCowFooterOp : Z := u8 (-1).

(** [libsnapshot/include/libsnapshot/cow_format.h:158-158 kCowCompressNone] *)
Definition kCowCompressNone : Z := 0.
(** [libsnapshot/include/libsnapshot/cow_format.h:159-159 kCowCompressGz] *)
Definition kCowCompressGz : Z := 1.
(** [libsnapshot/include/libsnapshot/cow_format.h:160-160 kCowCompressBrotli] *)
Definition kCowCompressBrotli : Z := 2.
(** [libsnapshot/include/libsnapshot/cow_format.h:161-161 kCowCompressLz4] *)
Definition kCowCompressLz4 : Z := 3.

(** [libsnapshot/include/libsnapshot/cow_format.h:56-81 CowHeader] *)
Record CowHeader := mkCowHeader {
  ch_magic : Z;
  ch_major_version : Z;
  ch_minor_version : Z;
  ch_header_size : Z;
  ch_footer_size : Z;
  ch_op_size : Z;
  ch_block_size : Z;
  ch_cluster_ops : Z;
  ch_num_merge_ops : Z;
  ch_buffer_size : Z;
}.
(** [libsnapshot/include/libsnapshot/cow_format.h:112-144 CowOperation] *)
Record CowOperation := mkOp {
  op_type : Z;
  op_compression : Z;
  op_data_length : Z;
  op_new_block : Z;
  op_source : Z;
}.
(** [libsnapshot/include/libsnapshot/cow_format.h:84-100 CowFooterOperation] *)
Record CowFooterOperation := mkFooterOp {
  fo_type : Z;
  fo_compression : Z;
  fo_data_length : Z;
  fo_ops_size : Z;
  fo_num_ops : Z;
}.
(** [libsnapshot/include/libsnapshot/cow_format.h:102-108 CowFooterData] *)
Record CowFooterData := mkFooterData {
  fd_footer_checksum : bytes;
  fd_ops_checksum : bytes;
}.
(** [libsnapshot/include/libsnapshot/cow_format.h:168-171 CowFooter] *)
Record CowFooter := mkFooter {
  cf_op : CowFooterOperation;
  cf_data : CowFooterData;
}.
#[export] Instance op_eq_dec : EqDecision CowOperation.
Proof. solve_decision. Defined.
#[export] Instance header_eq_dec : EqDecision CowHeader.
Proof. solve_decision. Defined.

Definition header_codec : codec CowHeader :=
  c_struct (λ '(a, (b, (c, (d, (e, (f, (g, (h, (i, j))))))))), mkCowHeader a b c d e f g h i j)
    (λ h, (ch_magic h, (ch_major_version h, (ch_minor_version h, (ch_header_size h,
          (ch_footer_size h, (ch_op_size h, (ch_block_size h, (ch_cluster_ops h,
          (ch_num_merge_ops h, ch_buffer_size h))))))))))
    (c_pair c_u64 (c_pair c_u16 (c_pair c_u16 (c_pair c_u16 (c_pair c_u16 (c_pair c_u16
       (c_pair c_u32 (c_pair c_u32 (c_pair c_u64 c_u32))))))))).
Definition op_codec : codec CowOperation :=
  c_struct (λ '(a, (b, (c, (d, e)))), mkOp a b c d e)
    (λ o, (op_type o, (op_compression o, (op_data_length o, (op_new_block o, op_source o)))))
    (c_pair c_u8 (c_pair c_u8 (c_pair c_u16 (c_pair c_u64 c_u64)))).
Definition footer_op_codec : codec CowFooterOperation :=
  c_struct (λ '(a, (b, (c, (d, e)))), mkFooterOp a b c d e)
    (λ o, (fo_type o, (fo_compression o, (fo_data_length o, (fo_ops_size o, fo_num_ops o)))))
    (c_pair c_u8 (c_pair c_u8 (c_pair c_u16 (c_pair c_u64 c_u64)))).
Definition footer_data_codec : codec CowFooterData :=
  c_struct (λ '(a, b), mkFooterData a b) (λ d, (fd_footer_checksum d, fd_ops_checksum d))
    (c_pair (c_bytes 32) (c_bytes 32)).
Definition footer_codec : codec CowFooter :=
  c_struct (λ '(a, b), mkFooter a b) (λ f, (cf_op f, cf_data f)) (c_pair footer_op_codec footer_data_codec).

Ltac solve_cow_codec :=
  apply c_struct_ok; [apply _|by intros []|by intros; repeat match goal with p : _ * _ |- _ => destruct p end].
#[export] Instance header_codec_ok : CodecOk header_codec.
Proof. solve_cow_codec. Qed.
#[export] Instance op_codec_ok : CodecOk op_codec.
Proof. solve_cow_codec. Qed.
#[export] Instance footer_op_codec_ok : CodecOk footer_op_codec.
Proof. solve_cow_codec. Qed.
#[export] Instance footer_data_codec_ok : CodecOk footer_data_codec.
Proof. solve_cow_codec. Qed.
#[export] Instance footer_codec_ok : CodecOk footer_codec.
Proof. solve_cow_codec. Qed.
(** [sizeof] of each; the last two of the same size. *)
Lemma cow_sizes : sizeof header_codec = 38 ∧ sizeof footer_codec = 84 ∧ sizeof op_codec = 20 ∧
  sizeof footer_op_codec = 20.
Proof. done. Qed.

(** The source of a cluster operation is read as a signed number.
    [libsnapshot/libsnapshot_cow/cow_format.cpp:66-74 GetNextOpOffset] *)
Definition GetNextOpOffset (op : CowOperation) (cluster_ops : Z) : Z :=
  if decide (op_type op = kCowClusterOp) then i64 (op_source op)
  else if decide ((op_type op = kCowReplaceOp ∨ op_type op = kCowXorOp) ∧ cluster_ops = 0)
       then op_data_length op
  else 0.
(** [libsnapshot/libsnapshot_cow/cow_format.cpp:76-84 GetNextDataOffset] *)
Definition GetNextDataOffset (op : CowOperation) (cluster_ops : Z) : Z :=
  if decide (op_type op = kCowClusterOp) then cluster_ops * sizeof op_codec
  else if decide (cluster_ops = 0) then sizeof op_codec
  else 0.
(** [libsnapshot/libsnapshot_cow/cow_format.cpp:86-96 IsMetadataOp] *)
Definition IsMetadataOp (op : CowOperation) : bool :=
  bool_decide (op_type op = kCowLabelOp ∨ op_type op = kCowClusterOp ∨
               op_type op = kCowFooterOp ∨ op_type op = kCowSequenceOp).
(** [libsnapshot/libsnapshot_cow/cow_format.cpp:98-106 IsOrderedOp] *)
Definition IsOrderedOp (op : CowOperation) : bool :=
  bool_decide (op_type op = kCowCopyOp ∨ op_type op = kCowXorOp).

(** ** The descriptor of a COW image

    The calls that libsnapshot makes on it, what they do on storage that does not fail,
    and a file in memory with that behaviour. *)

Class CowFile (D : Type) := {
  (** [lseek(fd, 0, SEEK_END)], [lseek(fd, off, SEEK_SET)], [lseek(fd, 0, SEEK_CUR)];
      [Reject] is a negative result. *)
  seek_end : IO D Z;
  seek_set : Z → IO D unit;
  tell : IO D Z;
  (** [ReadFully] and [WriteFully]; [read], which may be short. *)
  read_fully : Z → IO D bytes;
  read_some : Z → IO D bytes;
  write_fully : bytes → IO D unit;
  (** [WriteFullyAtOffset], and [pwritev] with the number of bytes it wrote. *)
  write_at : bytes → Z → IO D unit;
  pwritev : list bytes → Z → IO D Z;
  fsync : IO D unit;
  ftruncate : Z → IO D unit;
}.

(** The bytes [bs] are in [c] at [off]. *)
Definition holds (c : bytes) (off : Z) (bs : bytes) : Prop :=
  ∀ i b, bs !! i = Some b → c !! (Z.to_nat off + i)%nat = Some b.

(** Storage on which every call succeeds. *)
Class CowFileLaws (D : Type) `{!CowFile D} := {
  file_bytes : D → bytes;
  file_pos : D → Z;
  seek_end_law d : ∃ d', seek_end d = (Ret (zlen (file_bytes d)), d') ∧ file_bytes d' = file_bytes d;
  seek_set_law off d : 0 ≤ off → ∃ d', seek_set off d = (Ret (), d') ∧
    file_bytes d' = file_bytes d ∧ file_pos d' = off;
  tell_law d : ∃ d', tell d = (Ret (file_pos d), d') ∧ file_bytes d' = file_bytes d ∧
    file_pos d' = file_pos d;
  read_fully_law n d : 0 ≤ n → 0 ≤ file_pos d →
    ∃ r d', read_fully n d = (r, d') ∧ file_bytes d' = file_bytes d ∧
      if decide (file_pos d + n ≤ zlen (file_bytes d))
      then r = Ret (sub (file_bytes d) (file_pos d) n) ∧ file_pos d' = file_pos d + n
      else r = Reject;
  read_some_law n d : 0 ≤ n → 0 ≤ file_pos d →
    ∃ bs d', read_some n d = (Ret bs, d') ∧ file_bytes d' = file_bytes d ∧
      bs = take (length bs) (sub (file_bytes d) (file_pos d) n) ∧
      (bs = [] → sub (file_bytes d) (file_pos d) n = []) ∧ file_pos d' = file_pos d + zlen bs;
  write_fully_law bs d : 0 ≤ file_pos d → ∃ d', write_fully bs d = (Ret (), d') ∧
    file_bytes d' = file_store (file_bytes d) (file_pos d) bs ∧ file_pos d' = file_pos d + zlen bs;
  write_at_law bs off d : 0 ≤ off → ∃ d', write_at bs off d = (Ret (), d') ∧
    file_bytes d' = file_store (file_bytes d) off bs ∧ file_pos d' = file_pos d;
  pwritev_law bss off d : 0 ≤ off → ∃ d', pwritev bss off d = (Ret (zlen (concat bss)), d') ∧
    file_bytes d' = file_store (file_bytes d) off (concat bss) ∧ file_pos d' = file_pos d;
  fsync_law d : ∃ d', fsync d = (Ret (), d') ∧ file_bytes d' = file_bytes d ∧ file_pos d' = file_pos d;
  ftruncate_law n d : 0 ≤ n → ∃ d', ftruncate n d = (Ret (), d') ∧
    file_bytes d' = take (Z.to_nat n) (zero_extend (file_bytes d) n) ∧ file_pos d' = file_pos d;
}.

(** ** A file in memory *)

#[export] Instance memfile_cow : CowFile MemFile := {|
  seek_end f := (Ret (zlen (mf_bytes f)), mkFile (mf_bytes f) (zlen (mf_bytes f)));
  seek_set off f := if decide (off < 0) then (Reject, f) else (Ret (), mkFile (mf_bytes f) off);
  tell f := (Ret (mf_pos f), f);
  read_fully n f :=
    if decide (mf_pos f + n ≤ zlen (mf_bytes f))
    then (Ret (sub (mf_bytes f) (mf_pos f) n), mkFile (mf_bytes f) (mf_pos f + n))
    else (Reject, f);
  read_some n f :=
    let bs := sub (mf_bytes f) (mf_pos f) n in (Ret bs, mkFile (mf_bytes f) (mf_pos f + zlen bs));
  write_fully bs f :=
    (Ret (), mkFile (file_store (mf_bytes f) (mf_pos f) bs) (mf_pos f + zlen bs));
  write_at bs off f := (Ret (), mkFile (file_store (mf_bytes f) off bs) (mf_pos f));
  pwritev bss off f :=
    (Ret (zlen (concat bss)), mkFile (file_store (mf_bytes f) off (concat bss)) (mf_pos f));
  fsync f := (Ret (), f);
  ftruncate n f :=
    if decide (n < 0) then (Reject, f)
    else (Ret (), mkFile (take (Z.to_nat n) (zero_extend (mf_bytes f) n)) (mf_pos f));
|}.
#[export, refine] Instance memfile_cow_laws : CowFileLaws MemFile :=
  {| file_bytes := mf_bytes; file_pos := mf_pos |}.
Proof.
  - intros d. by eexists.
  - intros off d Hoff. simpl. rewrite decide_False by lia. by eexists.
  - intros d. by eexists.
  - intros n d _ _. simpl. case_decide; eexists _, _; split_and!; done.
  - intros n d _ _. eexists _, _. split; [done|]. split_and!; try done.
    symmetry. apply firstn_all.
  - intros bs d _. by eexists.
  - intros bs off d _. by eexists.
  - intros bss off d _. by eexists.
  - intros d. by eexists.
  - intros n d Hn. simpl. rewrite decide_False by lia. by eexists.
Defined.
