(* ===== verification/CowReader.v ===== *)
(** * Reading COW images ([libsnapshot/libsnapshot_cow/cow_reader.cpp], [cow_decompress.cpp])

    [Parse] walks from operation to operation up to the footer, or up to a label;
    [PrepMergeOps] orders the operations for the merge; [ReadData] gives the bytes of an
    operation.  zlib, Brotli and LZ4 are parameters. *)
From S2P Require Import Prelude Bytes Device CowFormat.

(** [libsnapshot/include/libsnapshot/cow_reader.h:111-181 CowReader] *)
Record CowReader := mkReader {
  rd_header : CowHeader;
  rd_footer : option CowFooter;
  rd_fd_size : Z;
  rd_last_label : option Z;
  rd_ops : list CowOperation;
  rd_merge_op_start : Z;
  rd_block_pos_index : list nat;
  rd_num_total_data_ops : Z;
  rd_num_ordered_ops_to_merge : Z;
  rd_has_seq_ops : bool;
  rd_data_loc : gmap Z Z;
  rd_userspace_merge : bool;
  rd_is_merge : bool;
}.
(** [libsnapshot/libsnapshot_cow/cow_reader.cpp:37-43 CowReader::CowReader] *)
Definition NewCowReader (userspace_merge is_merge : bool) : CowReader :=
  mkReader (mkCowHeader 0 0 0 0 0 0 0 0 0 0) None 0 None [] 0 [] 0 0 false ∅ userspace_merge is_merge.
(** The flag for the order of the merge is not copied.
    [libsnapshot/libsnapshot_cow/cow_reader.cpp:54-70 CowReader::CloneCowReader] *)
Definition CloneCowReader (r : CowReader) : CowReader :=
  mkReader (rd_header r) (rd_footer r) (rd_fd_size r) (rd_last_label r) (rd_ops r)
    (rd_merge_op_start r) (rd_block_pos_index r) (rd_num_total_data_ops r)
    (rd_num_ordered_ops_to_merge r) (rd_has_seq_ops r) (rd_data_loc r) false (rd_is_merge r).

Section Reader.
Context {D : Type} `{!CowFile D}.

(** [lseek(fd, pos, SEEK_SET)] and the comparison of its result: [off_t] is signed. *)
Definition seek (pos : Z) : IO D unit :=
  _ ← lift (require (¬ i64 pos < 0)); seek_set pos.

(** [libsnapshot/libsnapshot_cow/cow_reader.cpp:72-93 CowReader::InitForMerge] *)
Definition InitForMerge (r : CowReader) : IO D CowReader :=
  size ← seek_end;
  _ ← seek_set 0;
  raw ← read_fully (sizeof header_codec);
  mret (mkReader (c_dec header_codec raw) (rd_footer r) size (rd_last_label r) (rd_ops r)
    (rd_merge_op_start r) (rd_block_pos_index r) (rd_num_total_data_ops r)
    (rd_num_ordered_ops_to_merge r) (rd_has_seq_ops r) (rd_data_loc r) (rd_userspace_merge r)
    (rd_is_merge r)).

(** ** The operations *)

Record ParseState := mkParse {
  ps_pos : Z;
  ps_data_pos : Z;
  ps_ops : list CowOperation;
  ps_last_label : option Z;
  ps_footer : option CowFooter;
  ps_has_seq_ops : bool;
  ps_data_loc : gmap Z Z;
  ps_done : bool;
}.
(** [unordered_map::insert] keeps what is there. *)
Definition insert_new {A} (k : Z) (a : A) (m : gmap Z A) : gmap Z A :=
  match m !! k with Some _ => m | None => <[k := a]> m end.
(** What every operation does to the positions.
    [libsnapshot/libsnapshot_cow/cow_reader.cpp:212-218 CowReader::ParseOps, one operation] *)
Definition parse_op (cluster_ops : Z) (op : CowOperation) (s : ParseState) : ParseState :=
  mkParse (u64 (ps_pos s + sizeof op_codec + GetNextOpOffset op cluster_ops))
    (u64 (ps_data_pos s + op_data_length op + GetNextDataOffset op cluster_ops))
    (ps_ops s ++ [op]) (ps_last_label s) (ps_footer s) (ps_has_seq_ops s)
    (if decide (op_type op = kCowXorOp)
     then insert_new (op_new_block op) (ps_data_pos s) (ps_data_loc s) else ps_data_loc s)
    (ps_done s).
Definition set_label (label : Z) (done : bool) (s : ParseState) : ParseState :=
  mkParse (ps_pos s) (ps_data_pos s) (ps_ops s) (Some label) (ps_footer s) (ps_has_seq_ops s)
    (ps_data_loc s) done.
Definition set_seq (s : ParseState) : ParseState :=
  mkParse (ps_pos s) (ps_data_pos s) (ps_ops s) (ps_last_label s) (ps_footer s) true (ps_data_loc s)
    (ps_done s).
(** The footer is dropped from the operations. *)
Definition set_footer (ops : list CowOperation) (footer : CowFooter) (s : ParseState) : ParseState :=
  mkParse (ps_pos s) (ps_data_pos s) ops (ps_last_label s) (Some footer) (ps_has_seq_ops s)
    (ps_data_loc s) true.
(** [memcpy] between two structs of the same layout. *)
Definition as_footer_op (op : CowOperation) : CowFooterOperation :=
  mkFooterOp (op_type op) (op_compression op) (op_data_length op) (op_new_block op) (op_source op).

(** The operations that were read at once.
    [libsnapshot/libsnapshot_cow/cow_reader.cpp:211-251 CowReader::ParseOps, cluster] *)
Fixpoint parse_batch (cluster_ops : Z) (label : option Z) (batch : list CowOperation)
    (s : ParseState) : IO D ParseState :=
  match batch with
  | [] => mret s
  | op :: batch =>
      let before := ps_ops s in
      let s := parse_op cluster_ops op s in
      if decide (op_type op = kCowClusterOp) then mret s
      else if decide (op_type op = kCowLabelOp) then
        if decide (label = Some (op_source op)) then mret (set_label (op_source op) true s)
        else parse_batch cluster_ops label batch (set_label (op_source op) (ps_done s) s)
      else if decide (op_type op = kCowFooterOp) then
        _ ← seek (ps_pos s);
        raw ← read_fully (sizeof footer_data_codec);
        mret (set_footer before (mkFooter (as_footer_op op) (c_dec footer_data_codec raw)) s)
      else if decide (op_type op = kCowSequenceOp) then parse_batch cluster_ops label batch (set_seq s)
      else parse_batch cluster_ops label batch s
  end.
(** An array of operations. *)
Fixpoint decode_ops (n : nat) (raw : bytes) : list CowOperation :=
  match n with
  | O => []
  | S n => c_dec op_codec raw :: decode_ops n (drop (c_size op_codec) raw)
  end.
(** [libsnapshot/libsnapshot_cow/cow_reader.cpp:201-260 CowReader::ParseOps, loop] *)
Fixpoint parse_clusters (fuel : nat) (header_cluster_ops fd_size : Z) (label : option Z)
    (s : ParseState) : IO D ParseState :=
  match fuel with
  | O => lift Crash
  | S fuel =>
      if ps_done s then mret s
      else
        let cluster_ops := if decide (header_cluster_ops = 0) then 1 else header_cluster_ops in
        let to_add := cluster_ops `min` (u64 (fd_size - ps_pos s) / sizeof op_codec) in
        if decide (to_add = 0) then mret s
        else
          raw ← read_fully (to_add * sizeof op_codec);
          s ← parse_batch header_cluster_ops label (decode_ops (Z.to_nat to_add) raw) s;
          _ ← seek (ps_pos s);
          parse_clusters fuel header_cluster_ops fd_size label s
  end.
(** The comparisons of the sums are with zeroes: [SHA256] has an empty body.
    [libsnapshot/libsnapshot_cow/cow_reader.cpp:262-305 CowReader::ParseOps, checks] *)
Definition check_parsed (label : option Z) (s : ParseState) : outcome unit :=
  _ ← match label with
      | Some label =>
          match ps_last_label s with
          | None => Reject
          | Some last => require (last = label)
          end
      | None => match ps_footer s with None => Reject | Some _ => Ret () end
      end;
  match ps_footer s with
  | None => Ret ()
  | Some footer =>
      let n := zlen (ps_ops s) in
      _ ← require (n = fo_num_ops (cf_op footer));
      _ ← require (u64 (n * sizeof op_codec) = fo_ops_size (cf_op footer));
      require (fd_ops_checksum (cf_data footer) = zeroes 32)
  end.
Definition header_set_buffer (h : CowHeader) (size : Z) : CowHeader :=
  mkCowHeader (ch_magic h) (ch_major_version h) (ch_minor_version h) (ch_header_size h)
    (ch_footer_size h) (ch_op_size h) (ch_block_size h) (ch_cluster_ops h) (ch_num_merge_ops h) size.
(** [libsnapshot/libsnapshot_cow/cow_reader.cpp:165-312 CowReader::ParseOps] *)
Definition ParseOps (fuel : nat) (label : option Z) (r : CowReader) : IO D CowReader :=
  let h := rd_header r in
  let scratch := decide (2 ≤ ch_major_version h ∧ 0 < ch_buffer_size h) in
  let pos := if scratch then u32 (ch_header_size h + ch_buffer_size h) else ch_header_size h in
  let h := if scratch then h else header_set_buffer h 0 in
  _ ← seek pos;
  let n := if decide (ch_cluster_ops h = 0) then 1 else ch_cluster_ops h in
  s ← parse_clusters fuel (ch_cluster_ops h) (rd_fd_size r) label
        (mkParse pos (u64 (pos + n * sizeof op_codec)) [] (rd_last_label r) (rd_footer r)
           (rd_has_seq_ops r) ∅ false);
  _ ← lift (check_parsed label s);
  mret (mkReader h (ps_footer s) (rd_fd_size r) (ps_last_label s) (ps_ops s) (rd_merge_op_start r)
    (rd_block_pos_index r) (rd_num_total_data_ops r) (rd_num_ordered_ops_to_merge r)
    (ps_has_seq_ops s) (ps_data_loc s) (rd_userspace_merge r) (rd_is_merge r)).

(** ** Raw bytes *)

(** [libsnapshot/libsnapshot_cow/cow_reader.cpp:723-741 CowReader::GetRawBytes] *)
Definition GetRawBytes (r : CowReader) (offset len : Z) : IO D bytes :=
  let last := u64 (rd_fd_size r - sizeof footer_codec) in
  _ ← lift (require (¬ (offset < ch_header_size (rd_header r) ∨ last ≤ offset ∨
                        rd_fd_size r ≤ len ∨ last < u64 (offset + len))));
  _ ← seek offset;
  read_some len.

(** ** The order of the merge *)

(** An array of [uint32_t]. *)
Fixpoint decode_words (n : nat) (raw : bytes) : list Z :=
  match n with
  | O => []
  | S n => c_dec c_u32 raw :: decode_words n (drop 4 raw)
  end.
Record MergeState := mkMerge {
  mg_blocks : list Z;
  mg_other : list Z;
  mg_set : gset Z;
  mg_map : gmap Z nat;
  mg_num_seqs : nat;
}.
(** The words of a sequence operation: [read] stores them into a vector that has grown
    by [data_length / 4] words; a longer store is past its end.
    [libsnapshot/libsnapshot_cow/cow_reader.cpp:429-442 CowReader::PrepMergeOps, sequence] *)
Definition merge_sequence (r : CowReader) (op : CowOperation) (s : MergeState) : IO D MergeState :=
  let seq_len := Z.to_nat (op_data_length op / 4) in
  raw ← GetRawBytes r (op_source op) (op_data_length op);
  _ ← lift (CHECK (zlen raw ≤ 4 * (zlen (mg_blocks s) + Z.of_nat seq_len - Z.of_nat (mg_num_seqs s))));
  let words := decode_words seq_len (raw ++ zeroes (4 * seq_len)) in
  let blocks := list_inserts (mg_num_seqs s) words (mg_blocks s ++ replicate seq_len 0) in
  mret (mkMerge blocks (mg_other s) (list_to_set words ∪ mg_set s) (mg_map s)
          (mg_num_seqs s + seq_len)).
(** [block_map] and the sequences have 32-bit block numbers, the others are [int]s.
    [libsnapshot/libsnapshot_cow/cow_reader.cpp:444-453 CowReader::PrepMergeOps, operation] *)
Definition merge_data_op (has_seq_ops : bool) (i : nat) (op : CowOperation) (s : MergeState) : MergeState :=
  let block := u32 (op_new_block op) in
  let map := insert_new block i (mg_map s) in
  if negb has_seq_ops && IsOrderedOp op then
    mkMerge (mg_blocks s ++ [block]) (mg_other s) (mg_set s) map (mg_num_seqs s)
  else if decide (block ∈ mg_set s) then
    mkMerge (mg_blocks s) (mg_other s) (mg_set s) map (mg_num_seqs s)
  else mkMerge (mg_blocks s) (mg_other s ++ [i32 (op_new_block op)]) (mg_set s) map (mg_num_seqs s).
(** [libsnapshot/libsnapshot_cow/cow_reader.cpp:426-454 CowReader::PrepMergeOps, loop] *)
Fixpoint merge_ops (r : CowReader) (i : nat) (ops : list CowOperation) (s : MergeState) : IO D MergeState :=
  match ops with
  | [] => mret s
  | op :: ops =>
      s ← (if decide (op_type op = kCowSequenceOp) then merge_sequence r op s else mret s);
      merge_ops r (S i) ops (if IsMetadataOp op then s else merge_data_op (rd_has_seq_ops r) i op s)
  end.
(** [std::sort] in the order of the flag.
    [libsnapshot/libsnapshot_cow/cow_reader.cpp:473-477 CowReader::PrepMergeOps, sort] *)
Definition sort_blocks (userspace_merge : bool) (l : list Z) : list Z :=
  if userspace_merge then merge_sort Z.le l else merge_sort Z.ge l.
(** [libsnapshot/libsnapshot_cow/cow_reader.cpp:418-507 CowReader::PrepMergeOps] *)
Definition PrepMergeOps (r : CowReader) : IO D CowReader :=
  s ← merge_ops r 0 (rd_ops r) (mkMerge [] [] ∅ ∅ 0);
  _ ← lift (require (Forall (λ block, is_Some (mg_map s !! block)) (mg_blocks s)));
  let merged := ch_num_merge_ops (rd_header r) in
  let ordered := if decide (merged < zlen (mg_blocks s)) then zlen (mg_blocks s) - merged else 0 in
  let blocks := mg_blocks s ++ (u32 <$> sort_blocks (rd_userspace_merge r) (mg_other s)) in
  indexes ← lift (mapM (λ block, access (mg_map s !! block)) blocks);
  ops ← lift (mapM (λ i, access (rd_ops r !! i)) indexes);
  mret (mkReader (rd_header r) (rd_footer r) (rd_fd_size r) (rd_last_label r)
    (if rd_is_merge r then ops else rd_ops r)
    (if decide (0 < merged) then merged else rd_merge_op_start r)
    (if rd_is_merge r then rd_block_pos_index r else rd_block_pos_index r ++ indexes)
    (zlen blocks) ordered (rd_has_seq_ops r) (rd_data_loc r) (rd_userspace_merge r) (rd_is_merge r)).

Definition set_header (r : CowReader) (h : CowHeader) (fd_size : Z) : CowReader :=
  mkReader h (rd_footer r) fd_size (rd_last_label r) (rd_ops r) (rd_merge_op_start r)
    (rd_block_pos_index r) (rd_num_total_data_ops r) (rd_num_ordered_ops_to_merge r)
    (rd_has_seq_ops r) (rd_data_loc r) (rd_userspace_merge r) (rd_is_merge r).
(** [libsnapshot/libsnapshot_cow/cow_reader.cpp:118-155 CowReader::Parse, header] *)
Definition header_valid (h : CowHeader) : bool :=
  bool_decide (ch_magic h = kCowMagicNumber) &&
  bool_decide (ch_footer_size h = sizeof footer_codec) &&
  bool_decide (ch_op_size h = sizeof op_codec) &&
  bool_decide (ch_cluster_ops h ≠ 1) &&
  bool_decide (¬ (kCowVersionMajor < ch_major_version h ∨ ch_minor_version h ≠ kCowVersionMinor)).
(** [libsnapshot/libsnapshot_cow/cow_reader.cpp:100-163 CowReader::Parse] *)
Definition Parse (fuel : nat) (label : option Z) (r : CowReader) : IO D CowReader :=
  size ← seek_end;
  _ ← seek_set 0;
  raw ← read_fully (sizeof header_codec);
  let h := c_dec header_codec raw in
  _ ← lift (require (header_valid h = true));
  r ← ParseOps fuel label (set_header r h size);
  match label with Some _ => mret r | None => PrepMergeOps r end.

(** ** Data *)

(** [CowDataStream::Read] for the bytes of an operation from [offset] on.
    [libsnapshot/libsnapshot_cow/cow_reader.cpp:750-762 CowDataStream::Read] *)
Definition stream_Read (r : CowReader) (offset remaining length : Z) : IO D bytes :=
  let to_read := length `min` remaining in
  if decide (to_read = 0) then mret [] else GetRawBytes r offset to_read.
(** All bytes of the stream, [chunk] at most at a time; an empty read ends it too early.
    [libsnapshot/libsnapshot_cow/cow_decompress.cpp:34-66 NoDecompressor::Decompress] *)
Fixpoint read_stream (fuel : nat) (chunk : Z) (r : CowReader) (offset remaining : Z) : IO D bytes :=
  if decide (remaining = 0) then mret []
  else
    match fuel with
    | O => lift Crash
    | S fuel =>
        bs ← stream_Read r offset remaining (chunk `min` remaining);
        _ ← lift (require (bs ≠ []));
        rest ← read_stream fuel chunk r (offset + zlen bs) (remaining - zlen bs);
        mret (bs ++ rest)
    end.

(** zlib's and Brotli's decoders on a whole stream, and [LZ4_decompress_safe]. *)
Context (inflate brotli_decode LZ4_decompress_safe : bytes → Z → outcome bytes).

(** The input of [GzDecompressor] and [BrotliDecompressor], in chunks.
    [libsnapshot/libsnapshot_cow/cow_decompress.cpp:92-126 StreamDecompressor::Decompress] *)
Definition StreamDecompress (decode : bytes → Z → outcome bytes) (r : CowReader) (offset size block_size : Z)
    : IO D bytes :=
  bs ← read_stream (Z.to_nat size) 4096 r offset size;
  lift (decode bs block_size).
(** [libsnapshot/libsnapshot_cow/cow_decompress.cpp:264-307 Lz4Decompressor::Decompress] *)
Definition Lz4Decompress (r : CowReader) (offset size block_size : Z) : IO D bytes :=
  bs ← try_ (stream_Read r offset size size);
  let bs := default [] bs in
  _ ← lift (require (zlen bs = size));
  if decide (size = block_size) then mret bs
  else
    out ← lift (LZ4_decompress_safe bs block_size);
    _ ← lift (require (zlen out = block_size));
    mret out.
(** The bytes that the sink is given.
    [libsnapshot/libsnapshot_cow/cow_reader.cpp:773-803 CowReader::ReadData] *)
Definition ReadData (r : CowReader) (op : CowOperation) : IO D bytes :=
  let c := op_compression op in
  _ ← lift (require (c = kCowCompressNone ∨ c = kCowCompressGz ∨ c = kCowCompressBrotli ∨ c = kCowCompressLz4));
  offset ← lift (if decide (op_type op = kCowXorOp) then access (rd_data_loc r !! op_new_block op)
                 else Ret (op_source op));
  let size := op_data_length op in
  let block_size := ch_block_size (rd_header r) in
  if decide (c = kCowCompressNone) then read_stream (Z.to_nat size) size r offset size
  else if decide (c = kCowCompressGz) then StreamDecompress inflate r offset size block_size
  else if decide (c = kCowCompressBrotli) then StreamDecompress brotli_decode r offset size block_size
  else Lz4Decompress r offset size block_size.
End Reader.

(** [libsnapshot/libsnapshot_cow/cow_reader.cpp:547-550 CowReader::GetHeader] *)
Definition GetHeader (r : CowReader) : CowHeader := rd_header r.
(** [libsnapshot/libsnapshot_cow/cow_reader.cpp:552-556 CowReader::GetFooter] *)
Definition GetFooter (r : CowReader) : outcome CowFooter := found (rd_footer r).
(** [libsnapshot/libsnapshot_cow/cow_reader.cpp:558-562 CowReader::GetLastLabel] *)
Definition GetLastLabel (r : CowReader) : outcome Z := found (rd_last_label r).

(** ** Iterators *)

(** [libsnapshot/libsnapshot_cow/cow_reader.cpp:580-583 CowOpIter] *)
Record CowOpIter := mkOpIter { it_ops : list CowOperation; it_pos : nat }.
(** [libsnapshot/libsnapshot_cow/cow_reader.cpp:594-596 CowOpIter::Done] *)
Definition it_Done (i : CowOpIter) : bool := bool_decide (it_pos i = length (it_ops i)).
(** [libsnapshot/libsnapshot_cow/cow_reader.cpp:585-587 CowOpIter::RDone] *)
Definition it_RDone (i : CowOpIter) : bool := bool_decide (it_pos i = 0%nat).
(** [libsnapshot/libsnapshot_cow/cow_reader.cpp:598-601 CowOpIter::Next] *)
Definition it_Next (i : CowOpIter) : outcome CowOpIter :=
  _ ← CHECK (it_Done i = false); Ret (mkOpIter (it_ops i) (S (it_pos i))).
(** [libsnapshot/libsnapshot_cow/cow_reader.cpp:589-592 CowOpIter::Prev] *)
Definition it_Prev (i : CowOpIter) : outcome CowOpIter :=
  _ ← CHECK (it_RDone i = false); Ret (mkOpIter (it_ops i) (it_pos i - 1)).
(** [libsnapshot/libsnapshot_cow/cow_reader.cpp:603-606 CowOpIter::Get] *)
Definition it_Get (i : CowOpIter) : outcome CowOperation :=
  _ ← CHECK (it_Done i = false); access (it_ops i !! it_pos i).
(** [libsnapshot/libsnapshot_cow/cow_reader.cpp:709-711 CowReader::GetOpIter] *)
Definition GetOpIter (r : CowReader) (merge_progress : bool) : CowOpIter :=
  mkOpIter (rd_ops r) (if merge_progress then Z.to_nat (rd_merge_op_start r) else 0).

(** The iterators in merge order go through [block_pos_index].
    [libsnapshot/libsnapshot_cow/cow_reader.cpp:646-652 CowMergeOpIter] *)
Record CowMergeOpIter := mkMergeIter { mi_ops : list CowOperation; mi_index : list nat; mi_pos : nat }.
(** [libsnapshot/libsnapshot_cow/cow_reader.cpp:718-721 CowReader::GetMergeOpIter] *)
Definition GetMergeOpIter (r : CowReader) (ignore_progress : bool) : CowMergeOpIter :=
  mkMergeIter (rd_ops r) (rd_block_pos_index r)
    (if ignore_progress then 0%nat else Z.to_nat (rd_merge_op_start r)).
(** [libsnapshot/libsnapshot_cow/cow_reader.cpp:663-665 CowMergeOpIter::Done] *)
Definition mi_Done (i : CowMergeOpIter) : bool := bool_decide (mi_pos i = length (mi_index i)).
(** [libsnapshot/libsnapshot_cow/cow_reader.cpp:654-656 CowMergeOpIter::RDone] *)
Definition mi_RDone (i : CowMergeOpIter) : bool := bool_decide (mi_pos i = 0%nat).
(** [libsnapshot/libsnapshot_cow/cow_reader.cpp:667-670 CowMergeOpIter::Next] *)
Definition mi_Next (i : CowMergeOpIter) : outcome CowMergeOpIter :=
  _ ← CHECK (mi_Done i = false); Ret (mkMergeIter (mi_ops i) (mi_index i) (S (mi_pos i))).
(** [libsnapshot/libsnapshot_cow/cow_reader.cpp:658-661 CowMergeOpIter::Prev] *)
Definition mi_Prev (i : CowMergeOpIter) : outcome CowMergeOpIter :=
  _ ← CHECK (mi_RDone i = false); Ret (mkMergeIter (mi_ops i) (mi_index i) (mi_pos i - 1)).
(** [libsnapshot/libsnapshot_cow/cow_reader.cpp:672-675 CowMergeOpIter::Get] *)
Definition mi_Get (i : CowMergeOpIter) : outcome CowOperation :=
  _ ← CHECK (mi_Done i = false); n ← access (mi_index i !! mi_pos i); access (mi_ops i !! n).

(** The reversed one counts from the end and stops [start] before the start.
    [libsnapshot/libsnapshot_cow/cow_reader.cpp:677-684 CowRevMergeOpIter] *)
Record CowRevMergeOpIter :=
  mkRevIter { ri_ops : list CowOperation; ri_index : list nat; ri_start : Z; ri_pos : nat }.
(** [libsnapshot/libsnapshot_cow/cow_reader.cpp:713-716 CowReader::GetRevMergeOpIter] *)
Definition GetRevMergeOpIter (r : CowReader) (ignore_progress : bool) : CowRevMergeOpIter :=
  mkRevIter (rd_ops r) (rd_block_pos_index r) (if ignore_progress then 0 else rd_merge_op_start r) 0.
(** [libsnapshot/libsnapshot_cow/cow_reader.cpp:695-697 CowRevMergeOpIter::Done] *)
Definition ri_Done (i : CowRevMergeOpIter) : bool :=
  bool_decide (Z.of_nat (ri_pos i) = zlen (ri_index i) - ri_start i).
(** [libsnapshot/libsnapshot_cow/cow_reader.cpp:686-688 CowRevMergeOpIter::RDone] *)
Definition ri_RDone (i : CowRevMergeOpIter) : bool := bool_decide (ri_pos i = 0%nat).
(** [libsnapshot/libsnapshot_cow/cow_reader.cpp:699-702 CowRevMergeOpIter::Next] *)
Definition ri_Next (i : CowRevMergeOpIter) : outcome CowRevMergeOpIter :=
  _ ← CHECK (ri_Done i = false); Ret (mkRevIter (ri_ops i) (ri_index i) (ri_start i) (S (ri_pos i))).
(** [libsnapshot/libsnapshot_cow/cow_reader.cpp:690-693 CowRevMergeOpIter::Prev] *)
Definition ri_Prev (i : CowRevMergeOpIter) : outcome CowRevMergeOpIter :=
  _ ← CHECK (ri_RDone i = false); Ret (mkRevIter (ri_ops i) (ri_index i) (ri_start i) (ri_pos i - 1)).
(** [libsnapshot/libsnapshot_cow/cow_reader.cpp:704-707 CowRevMergeOpIter::Get] *)
Definition ri_Get (i : CowRevMergeOpIter) : outcome CowOperation :=
  _ ← CHECK (ri_Done i = false);
  n ← access (reverse (ri_index i) !! ri_pos i);
  access (ri_ops i !! n).

(** ** Checking the order *)

(** Whether a block that an operation needs was overwritten by one before it; only copy
    and xor operations are looked at and recorded.
    [libsnapshot/libsnapshot_cow/cow_reader.cpp:512-543 CowReader::VerifyMergeOps, loop] *)
Fixpoint verify_ops (overwritten : gset Z) (ops : list CowOperation) : bool :=
  match ops with
  | [] => true
  | op :: ops =>
      if decide (op_type op = kCowCopyOp) then
        bool_decide (op_source op ∉ overwritten) && verify_ops ({[ op_new_block op ]} ∪ overwritten) ops
      else if decide (op_type op = kCowXorOp) then
        let block := op_source op / BLOCK_SZ in
        bool_decide (block ∉ overwritten) &&
        bool_decide (¬ (op_source op mod BLOCK_SZ ≠ 0 ∧ u64 (block + 1) ∈ overwritten)) &&
        verify_ops ({[ op_new_block op ]} ∪ overwritten) ops
      else verify_ops overwritten ops
  end.
(** The operations that [GetMergeOpIter] yields from the start.
    [libsnapshot/libsnapshot_cow/cow_reader.cpp:509-545 CowReader::VerifyMergeOps] *)
Definition VerifyMergeOps (r : CowReader) : outcome bool :=
  ops ← mapM (λ n, access (rd_ops r !! n)) (rd_block_pos_index r);
  Ret (verify_ops ∅ ops).
