(* ===== verification/CowWriter.v ===== *)
(** * Writing COW images ([libsnapshot/libsnapshot_cow/cow_writer.cpp], [cow_compress.cpp])

    Operations are laid out in clusters: a run of operations, then their data, then the
    next cluster.  [WriteOperation] stores one operation, at once or in a batch, and ends
    the cluster when it is full; [Finalize] adds the footer.  Failed calls leave the
    state behind that they had reached. *)
From S2P Require Import Prelude Bytes Device CowFormat CowReader.

(** [libsnapshot/include/libsnapshot/cow_writer.h:38-58 CowOptions] *)
Record CowOptions := mkOptions {
  opt_block_size : Z;
  opt_compression : bytes;
  opt_max_blocks : option Z;
  opt_cluster_ops : Z;
  opt_scratch_space : bool;
  opt_num_merge_ops : Z;
  opt_num_compress_threads : Z;
  opt_batch_write : bool;
}.
Definition options_set (block_size cluster_ops : Z) (o : CowOptions) : CowOptions :=
  mkOptions block_size (opt_compression o) (opt_max_blocks o) cluster_ops (opt_scratch_space o)
    (opt_num_merge_ops o) (opt_num_compress_threads o) (opt_batch_write o).

(** Where the next operation and its data go, how much of the cluster is used, and the
    number of operations so far ([footer_.op.num_ops]). *)
Record Positions := mkPositions {
  next_op_pos : Z;
  next_data_pos : Z;
  cluster_size : Z;
  current_cluster_size : Z;
  current_data_size : Z;
  num_ops : Z;
}.
(** What is to be written at the end of the cluster when writes are batched. *)
Record Batch := mkBatch {
  op_vec : list CowOperation;
  data_vec : list bytes;
  total_data_written : Z;
  current_op_pos : Z;
  current_data_pos : Z;
}.
(** The descriptor: [/dev/null], a block device of a size, or another file. *)
Inductive FdKind := DevNull | BlockDevice (size : Z) | OtherFile.
(** [libsnapshot/include/libsnapshot/cow_writer.h:205-243 CowWriter] *)
Record CowWriter (D : Type) := mkWriter {
  w_options : CowOptions;
  w_header : CowHeader;
  w_ops_size : Z;
  w_compression : Z;
  w_pos : Positions;
  w_batch_write : bool;
  w_batch : Batch;
  w_num_compress_threads : Z;
  w_fd_kind : FdKind;
  w_fd : D;
}.
Arguments mkWriter {D}.
Arguments w_options {D}.
Arguments w_header {D}.
Arguments w_ops_size {D}.
Arguments w_compression {D}.
Arguments w_pos {D}.
Arguments w_batch_write {D}.
Arguments w_batch {D}.
Arguments w_num_compress_threads {D}.
Arguments w_fd_kind {D}.
Arguments w_fd {D}.

(** ** Positions *)

(** [libsnapshot/libsnapshot_cow/cow_writer.cpp:328-338 CowWriter::InitPos] *)
Definition InitPos (h : CowHeader) (num_ops : Z) : Positions :=
  let op_pos := u64 (sizeof header_codec + ch_buffer_size h) in
  let cluster := u32 (ch_cluster_ops h * sizeof op_codec) in
  mkPositions op_pos
    (if decide (ch_cluster_ops h = 0) then u64 (op_pos + sizeof op_codec) else u64 (op_pos + cluster))
    cluster 0 0 num_ops.
(** [libsnapshot/libsnapshot_cow/cow_writer.cpp:805-818 CowWriter::AddOperation] *)
Definition AddOperation (cluster_ops : Z) (op : CowOperation) (p : Positions) : Positions :=
  mkPositions (u64 (next_op_pos p + sizeof op_codec + GetNextOpOffset op cluster_ops))
    (u64 (next_data_pos p + op_data_length op + GetNextDataOffset op cluster_ops))
    (cluster_size p)
    (if decide (op_type op = kCowClusterOp) then 0
     else if decide (cluster_ops = 0) then current_cluster_size p
     else u32 (current_cluster_size p + sizeof op_codec))
    (if decide (op_type op = kCowClusterOp) then 0
     else if decide (cluster_ops = 0) then current_data_size p
     else u64 (current_data_size p + op_data_length op))
    (u64 (num_ops p + 1)).

(** ** Compression *)

Section Compress.
(** [compress2], [BrotliEncoderCompress] and [LZ4_compress_default]; [None] is an error. *)
Context (compress2 BrotliEncoderCompress LZ4_compress_default : bytes → option bytes).

(** [libsnapshot/libsnapshot_cow/cow_compress.cpp:39-105 CompressWorker::Compress] *)
Definition Compress (compression : Z) (data : bytes) : bytes :=
  if decide (compression = kCowCompressGz) then default [] (compress2 data)
  else if decide (compression = kCowCompressBrotli) then default [] (BrotliEncoderCompress data)
  else if decide (compression = kCowCompressLz4) then
    match LZ4_compress_default data with
    | Some c => if decide (c = []) then [] else if decide (zlen data ≤ zlen c) then data else c
    | None => []
    end
  else [].
(** [libsnapshot/libsnapshot_cow/cow_compress.cpp:111-131 CompressWorker::CompressBlocks] *)
Definition CompressWorker_CompressBlocks (compression : Z) (blocks : list bytes) : outcome (list bytes) :=
  mapM (λ b, let data := Compress compression b in
             _ ← require (data ≠ []);
             _ ← require (zlen data ≤ 2 ^ 16 - 1);
             Ret data) blocks.
(** The shares of the workers, the last of which gets the rest; the buffers come back in
    the order of the workers.
    [libsnapshot/libsnapshot_cow/cow_writer.cpp:463-477 CowWriter::CompressBlocks, threads] *)
Fixpoint compress_shares (compression : Z) (threads : nat) (share : nat) (blocks : list bytes)
    : outcome (list bytes) :=
  match threads with
  | O => Ret []
  | S O => CompressWorker_CompressBlocks compression blocks
  | S threads =>
      first ← CompressWorker_CompressBlocks compression (take share blocks);
      rest ← compress_shares compression threads share (drop share blocks);
      Ret (first ++ rest)
  end.
(** [libsnapshot/libsnapshot_cow/cow_writer.cpp:448-480 CowWriter::CompressBlocks] *)
Definition CompressBlocks (compression num_compress_threads : Z) (blocks : list bytes)
    : outcome (list bytes) :=
  let n := length blocks in
  let num_threads := if decide (n = 1%nat) then 1%nat else Z.to_nat num_compress_threads in
  if decide (num_threads ≤ 1)%nat then CompressWorker_CompressBlocks compression blocks
  else compress_shares compression num_threads (n / num_threads) blocks.

Section Writer.
Context {D : Type} `{!CowFile D}.
Abbreviation WIO := (IO (CowWriter D)).

Definition w_set_fd (d : D) (w : CowWriter D) : CowWriter D :=
  mkWriter (w_options w) (w_header w) (w_ops_size w) (w_compression w) (w_pos w) (w_batch_write w)
    (w_batch w) (w_num_compress_threads w) (w_fd_kind w) d.
Definition w_set_pos (p : Positions) (w : CowWriter D) : CowWriter D :=
  mkWriter (w_options w) (w_header w) (w_ops_size w) (w_compression w) p (w_batch_write w)
    (w_batch w) (w_num_compress_threads w) (w_fd_kind w) (w_fd w).
Definition w_set_batch (b : Batch) (w : CowWriter D) : CowWriter D :=
  mkWriter (w_options w) (w_header w) (w_ops_size w) (w_compression w) (w_pos w) (w_batch_write w)
    b (w_num_compress_threads w) (w_fd_kind w) (w_fd w).
Definition w_set_header (h : CowHeader) (w : CowWriter D) : CowWriter D :=
  mkWriter (w_options w) h (w_ops_size w) (w_compression w) (w_pos w) (w_batch_write w)
    (w_batch w) (w_num_compress_threads w) (w_fd_kind w) (w_fd w).
Definition w_set_options (o : CowOptions) (w : CowWriter D) : CowWriter D :=
  mkWriter o (w_header w) (w_ops_size w) (w_compression w) (w_pos w) (w_batch_write w)
    (w_batch w) (w_num_compress_threads w) (w_fd_kind w) (w_fd w).
Definition w_set_compression (c : Z) (w : CowWriter D) : CowWriter D :=
  mkWriter (w_options w) (w_header w) (w_ops_size w) c (w_pos w) (w_batch_write w)
    (w_batch w) (w_num_compress_threads w) (w_fd_kind w) (w_fd w).
Definition w_set_ops_size (n : Z) (w : CowWriter D) : CowWriter D :=
  mkWriter (w_options w) (w_header w) n (w_compression w) (w_pos w) (w_batch_write w)
    (w_batch w) (w_num_compress_threads w) (w_fd_kind w) (w_fd w).

Definition get_w : WIO (CowWriter D) := λ w, (Ret w, w).
Definition modify_w (f : CowWriter D → CowWriter D) : WIO unit := λ w, (Ret (), f w).
(** A call on the descriptor. *)
Definition on_fd {A} (m : IO D A) : WIO A := λ w,
  let (r, d) := m (w_fd w) in (r, w_set_fd d w).

(** ** Writing one operation *)

(** Another file is as good as unlimited.
    [libsnapshot/libsnapshot_cow/cow_writer.cpp:718-726 CowWriter::EnsureSpaceAvailable] *)
Definition EnsureSpaceAvailable (bytes_needed : Z) (w : CowWriter D) : outcome unit :=
  let cow_image_size := match w_fd_kind w with BlockDevice size => size | _ => 2 ^ 63 - 1 end in
  require (¬ cow_image_size < bytes_needed).
(** [libsnapshot/libsnapshot_cow/cow_writer.cpp:728-755 CowWriter::FlushCluster] *)
Definition FlushCluster : WIO unit :=
  w ← get_w;
  let b := w_batch w in
  _ ← (if decide (op_vec b = []) then mret ()
       else
         ret ← on_fd (_ ← lift (require (¬ i64 (current_op_pos b) < 0));
                      pwritev (c_enc op_codec <$> op_vec b) (current_op_pos b));
         lift (require (ret = zlen (op_vec b) * sizeof op_codec)));
  _ ← (if decide (data_vec b = []) then mret ()
       else
         ret ← on_fd (_ ← lift (require (¬ i64 (current_data_pos b) < 0));
                      pwritev (data_vec b) (current_data_pos b));
         lift (require (ret = total_data_written b)));
  modify_w (λ w, w_set_batch (mkBatch [] [] 0 (next_op_pos (w_pos w)) (next_data_pos (w_pos w))) w).
(** The copies into the buffers, of one operation and of twice a block each.
    [libsnapshot/libsnapshot_cow/cow_writer.cpp:765-776 CowWriter::WriteOperation, batch] *)
Definition batch_operation (op : CowOperation) (data : bytes) (w : CowWriter D) : outcome Batch :=
  let b := w_batch w in
  _ ← CHECK (zlen (op_vec b) < ch_cluster_ops (w_header w));
  if decide (data = []) then
    Ret (mkBatch (op_vec b ++ [op]) (data_vec b) (total_data_written b) (current_op_pos b)
           (current_data_pos b))
  else
    _ ← CHECK (zlen (data_vec b) < ch_cluster_ops (w_header w) ∧ zlen data ≤ ch_block_size (w_header w) * 2);
    Ret (mkBatch (op_vec b ++ [op]) (data_vec b ++ [data]) (total_data_written b + zlen data)
           (current_op_pos b) (current_data_pos b)).
(** [libsnapshot/libsnapshot_cow/cow_writer.cpp:820-825 CowWriter::WriteRawData] *)
Definition WriteRawData (data : bytes) : WIO unit :=
  w ← get_w;
  on_fd (_ ← lift (require (¬ i64 (next_data_pos (w_pos w)) < 0)); write_at data (next_data_pos (w_pos w))).
(** [libsnapshot/libsnapshot_cow/cow_writer.cpp:777-787 CowWriter::WriteOperation, direct] *)
Definition write_operation (op : CowOperation) (data : bytes) : WIO unit :=
  w ← get_w;
  _ ← on_fd (seek (next_op_pos (w_pos w)));
  _ ← on_fd (write_fully (c_enc op_codec op));
  if decide (data = []) then mret () else WriteRawData data.

Definition cluster_op (p : Positions) : CowOperation :=
  mkOp kCowClusterOp 0 0 0
    (u64 (current_data_size p + cluster_size p - current_cluster_size p - sizeof op_codec)).
(** [libsnapshot/libsnapshot_cow/cow_writer.cpp:605-607 CowWriter::EmitClusterIfNeeded, test] *)
Definition cluster_full (p : Positions) : bool :=
  bool_decide (cluster_size p ≠ 0) &&
  bool_decide (cluster_size p < current_cluster_size p + 2 * sizeof op_codec).
(** The end of a cluster is an operation itself; [fuel] bounds how deep that goes.
    [libsnapshot/libsnapshot_cow/cow_writer.cpp:757-803 CowWriter::WriteOperation] *)
Fixpoint WriteOperation_ (fuel : nat) (op : CowOperation) (data : bytes) : WIO unit :=
  match fuel with
  | O => lift Crash
  | S fuel =>
      w ← get_w;
      _ ← lift (EnsureSpaceAvailable (u64 (next_op_pos (w_pos w) + sizeof op_codec)) w);
      _ ← lift (EnsureSpaceAvailable (u64 (next_data_pos (w_pos w) + zlen data)) w);
      _ ← (if w_batch_write w then
             b ← lift (batch_operation op data w); modify_w (w_set_batch b)
           else write_operation op data);
      _ ← modify_w (λ w, w_set_pos (AddOperation (ch_cluster_ops (w_header w)) op (w_pos w)) w);
      w ← get_w;
      _ ← (if w_batch_write w &&
              bool_decide (zlen (op_vec (w_batch w)) = ch_cluster_ops (w_header w) ∨
                           zlen (data_vec (w_batch w)) = ch_cluster_ops (w_header w) ∨
                           op_type op = kCowLabelOp ∨ op_type op = kCowClusterOp)
           then FlushCluster else mret ());
      if cluster_full (w_pos w) then WriteOperation_ fuel (cluster_op (w_pos w)) [] else mret ()
  end.
Definition WriteOperation : CowOperation → bytes → WIO unit := WriteOperation_ 3.
(** [libsnapshot/libsnapshot_cow/cow_writer.cpp:597-603 CowWriter::EmitCluster] *)
Definition EmitCluster : WIO unit := w ← get_w; WriteOperation (cluster_op (w_pos w)) [].
(** [libsnapshot/libsnapshot_cow/cow_writer.cpp:605-611 CowWriter::EmitClusterIfNeeded] *)
Definition EmitClusterIfNeeded : WIO unit :=
  w ← get_w; if cluster_full (w_pos w) then EmitCluster else mret ().
(** [libsnapshot/libsnapshot_cow/cow_writer.cpp:827-836 CowWriter::Sync] *)
Definition Sync : WIO unit :=
  w ← get_w; match w_fd_kind w with DevNull => mret () | _ => on_fd fsync end.
(** [libsnapshot/libsnapshot_cow/cow_writer.cpp:838-847 CowWriter::Truncate] *)
Definition Truncate (length : Z) : WIO unit :=
  w ← get_w; match w_fd_kind w with OtherFile => on_fd (ftruncate length) | _ => mret () end.

(** ** The operations of an update *)

Fixpoint for_blocks (n : nat) (i : Z) (f : Z → WIO unit) : WIO unit :=
  match n with O => mret () | S n => _ ← f i; for_blocks n (i + 1) f end.
(** [libsnapshot/libsnapshot_cow/cow_writer.cpp:423-437 CowWriter::EmitCopy] *)
Definition EmitCopy (new_block old_block num_blocks : Z) : WIO unit :=
  for_blocks (Z.to_nat num_blocks) 0 (λ i,
    WriteOperation (mkOp kCowCopyOp 0 0 (u64 (new_block + i)) (u64 (old_block + i))) []).
(** The operation of block [i].
    [libsnapshot/libsnapshot_cow/cow_writer.cpp:509-517 CowWriter::EmitBlocks, operation] *)
Definition block_op (type compression length new_block_start old_block offset i : Z) (w : CowWriter D)
    : CowOperation :=
  mkOp type compression length (u64 (new_block_start + i))
    (if decide (type = kCowXorOp)
     then u64 (u64 (old_block + i) * ch_block_size (w_header w) + offset)
     else next_data_pos (w_pos w)).
(** One block; [ready] is the buffer of the workers if there are any.
    [libsnapshot/libsnapshot_cow/cow_writer.cpp:508-546 CowWriter::EmitBlocks, block] *)
Definition emit_block (type new_block_start old_block offset i : Z) (ready : option bytes) (block : bytes)
    : WIO unit :=
  w ← get_w;
  let c := w_compression w in
  if decide (c = kCowCompressNone) then
    WriteOperation (block_op type 0 (u16 (ch_block_size (w_header w))) new_block_start old_block offset i w)
      block
  else
    let data := match ready with Some data => data | None => Compress c block end in
    WriteOperation (block_op type c (u16 (zlen data)) new_block_start old_block offset i w) data.
Fixpoint emit_blocks (type new_block_start old_block offset i : Z) (ready : option (list bytes))
    (blocks : list bytes) : WIO unit :=
  match blocks with
  | [] => mret ()
  | block :: blocks =>
      _ ← emit_block type new_block_start old_block offset i (ready ≫= head) block;
      emit_blocks type new_block_start old_block offset (i + 1) (tail <$> ready) blocks
  end.
(** The blocks of the data. *)
Fixpoint split_blocks (n : nat) (size : Z) (data : bytes) : list bytes :=
  match n with
  | O => []
  | S n => take (Z.to_nat size) data :: split_blocks n size (drop (Z.to_nat size) data)
  end.
Definition kProcessingBlocks : nat := 1024.
(** [fuel] is the number of blocks.
    [libsnapshot/libsnapshot_cow/cow_writer.cpp:497-553 CowWriter::EmitBlocks, loop] *)
Fixpoint emit_chunks (fuel : nat) (type new_block_start old_block offset i : Z) (blocks : list bytes)
    : WIO unit :=
  match fuel, blocks with
  | _, [] => mret ()
  | O, _ => lift Crash
  | S fuel, _ =>
      let pending := take kProcessingBlocks blocks in
      w ← get_w;
      ready ← (if decide (w_compression w ≠ kCowCompressNone ∧ 1 < w_num_compress_threads w) then
                 r ← lift (CompressBlocks (w_compression w) (w_num_compress_threads w) pending);
                 _ ← lift (CHECK (length pending = length r));
                 mret (Some r)
               else mret None);
      _ ← emit_blocks type new_block_start old_block offset i ready pending;
      emit_chunks fuel type new_block_start old_block offset (i + zlen pending)
        (drop kProcessingBlocks blocks)
  end.
(** [libsnapshot/libsnapshot_cow/cow_writer.cpp:482-555 CowWriter::EmitBlocks] *)
Definition EmitBlocks (new_block_start : Z) (data : bytes) (old_block offset type : Z) : WIO unit :=
  w ← get_w;
  let size := ch_block_size (w_header w) in
  let n := Z.to_nat (zlen data / size) in
  emit_chunks n type new_block_start old_block offset 0 (split_blocks n size data).
(** [libsnapshot/libsnapshot_cow/cow_writer.cpp:439-441 CowWriter::EmitRawBlocks] *)
Definition EmitRawBlocks (new_block_start : Z) (data : bytes) : WIO unit :=
  EmitBlocks new_block_start data 0 0 kCowReplaceOp.
(** [libsnapshot/libsnapshot_cow/cow_writer.cpp:443-446 CowWriter::EmitXorBlocks] *)
Definition EmitXorBlocks (new_block_start : Z) (data : bytes) (old_block offset : Z) : WIO unit :=
  EmitBlocks new_block_start data old_block offset kCowXorOp.
(** A failed write is not looked at.
    [libsnapshot/libsnapshot_cow/cow_writer.cpp:557-567 CowWriter::EmitZeroBlocks] *)
Definition EmitZeroBlocks (new_block_start num_blocks : Z) : WIO unit :=
  for_blocks (Z.to_nat num_blocks) 0 (λ i,
    _ ← try_ (WriteOperation (mkOp kCowZeroOp 0 0 (u64 (new_block_start + i)) 0) []); mret ()).
(** [libsnapshot/libsnapshot_cow/cow_writer.cpp:569-575 CowWriter::EmitLabel] *)
Definition EmitLabel (label : Z) : WIO unit :=
  _ ← WriteOperation (mkOp kCowLabelOp 0 0 0 label) []; Sync.
(** [fuel] is the number of words.
    [libsnapshot/libsnapshot_cow/cow_writer.cpp:581-593 CowWriter::EmitSequenceData, loop] *)
Fixpoint emit_sequence (fuel : nat) (max_ops : nat) (data : list Z) : WIO unit :=
  match fuel, data with
  | _, [] => mret ()
  | O, _ => lift Crash
  | S fuel, _ =>
      let words := take max_ops data in
      w ← get_w;
      let length := u16 (zlen words * 4) in
      _ ← WriteOperation (mkOp kCowSequenceOp 0 length 0 (next_data_pos (w_pos w)))
            (take (Z.to_nat length) (c_array c_u32 data));
      emit_sequence fuel max_ops (drop max_ops data)
  end.
(** [libsnapshot/libsnapshot_cow/cow_writer.cpp:577-595 CowWriter::EmitSequenceData] *)
Definition EmitSequenceData (data : list Z) : WIO unit :=
  w ← get_w;
  emit_sequence (length data) (Z.to_nat (ch_block_size (w_header w) * 2 / 4)) data.

(** ** The interface *)

(** [libsnapshot/libsnapshot_cow/cow_writer.cpp:126-133 ICowWriter::ValidateNewBlock] *)
Definition ValidateNewBlock (new_block : Z) (w : CowWriter D) : bool :=
  match opt_max_blocks (w_options w) with
  | Some max_blocks => negb (bool_decide (max_blocks ≤ new_block))
  | None => true
  end.
Definition validate (new_block : Z) : WIO unit :=
  w ← get_w; lift (require (ValidateNewBlock new_block w = true)).
(** [libsnapshot/libsnapshot_cow/cow_writer.cpp:63-73 ICowWriter::AddCopy] *)
Definition AddCopy (new_block old_block num_blocks : Z) : WIO unit :=
  _ ← lift (CHECK (num_blocks ≠ 0));
  _ ← for_blocks (Z.to_nat num_blocks) 0 (λ i, validate (u64 (new_block + i)));
  EmitCopy new_block old_block num_blocks.
(** [libsnapshot/libsnapshot_cow/cow_writer.cpp:75-88 ICowWriter::AddRawBlocks] *)
Definition AddRawBlocks (new_block_start : Z) (data : bytes) : WIO unit :=
  w ← get_w;
  let size := opt_block_size (w_options w) in
  _ ← lift (CHECK (size ≠ 0));
  _ ← lift (require (zlen data mod size = 0));
  _ ← validate (u64 (new_block_start + zlen data / size - 1));
  EmitRawBlocks new_block_start data.
(** An offset that is too large is reported but not refused.
    [libsnapshot/libsnapshot_cow/cow_writer.cpp:90-108 ICowWriter::AddXorBlocks] *)
Definition AddXorBlocks (new_block_start : Z) (data : bytes) (old_block offset : Z) : WIO unit :=
  w ← get_w;
  let size := opt_block_size (w_options w) in
  _ ← lift (CHECK (size ≠ 0));
  _ ← lift (require (zlen data mod size = 0));
  _ ← validate (u64 (new_block_start + zlen data / size - 1));
  EmitXorBlocks new_block_start data old_block offset.
(** [libsnapshot/libsnapshot_cow/cow_writer.cpp:110-116 ICowWriter::AddZeroBlocks] *)
Definition AddZeroBlocks (new_block_start num_blocks : Z) : WIO unit :=
  _ ← validate (u64 (new_block_start + num_blocks - 1));
  EmitZeroBlocks new_block_start num_blocks.
(** [libsnapshot/libsnapshot_cow/cow_writer.cpp:118-120 ICowWriter::AddLabel] *)
Definition AddLabel (label : Z) : WIO unit := EmitLabel label.
(** [libsnapshot/libsnapshot_cow/cow_writer.cpp:122-124 ICowWriter::AddSequenceData] *)
Definition AddSequenceData (data : list Z) : WIO unit := EmitSequenceData data.

(** ** Opening *)

(** [libsnapshot/libsnapshot_cow/cow_writer.cpp:179-194 CowWriter::SetupHeaders] *)
Definition SetupHeaders (o : CowOptions) : CowHeader :=
  mkCowHeader kCowMagicNumber kCowVersionMajor kCowVersionMinor (sizeof header_codec)
    (sizeof footer_codec) (sizeof op_codec) (opt_block_size o) (opt_cluster_ops o)
    (opt_num_merge_ops o) 0.
(** The properties of the system ask for two threads and for batches.
    [libsnapshot/libsnapshot_cow/cow_writer.cpp:159-177 CowWriter::SetupWriteOptions] *)
Definition SetupWriteOptions (compression_threads batch_writes : bool) (o : CowOptions) : Z * bool :=
  (if decide (opt_num_compress_threads o = 0)
   then if negb (bool_decide (opt_cluster_ops o = 0)) && compression_threads then 2 else 1
   else opt_num_compress_threads o,
   negb (bool_decide (opt_cluster_ops o = 0)) && (batch_writes || opt_batch_write o)).
(** [libsnapshot/libsnapshot_cow/cow_writer.cpp:135-138 CowWriter::CowWriter] *)
Definition NewCowWriter (compression_threads batch_writes : bool) (o : CowOptions) (kind : FdKind) (d : D)
    : CowWriter D :=
  let (threads, batch) := SetupWriteOptions compression_threads batch_writes o in
  mkWriter o (SetupHeaders o) 0 kCowCompressNone (mkPositions 0 0 0 0 0 0) batch
    (mkBatch [] [] 0 0 0) threads kind d.
(** [libsnapshot/libsnapshot_cow/cow_writer.cpp:196-214 CowWriter::ParseOptions] *)
Definition ParseOptions : WIO unit :=
  w ← get_w;
  let c := opt_compression (w_options w) in
  _ ← (if decide (c = str "gz") then modify_w (w_set_compression kCowCompressGz)
       else if decide (c = str "brotli") then modify_w (w_set_compression kCowCompressBrotli)
       else if decide (c = str "lz4") then modify_w (w_set_compression kCowCompressLz4)
       else if decide (c = str "none") then modify_w (w_set_compression kCowCompressNone)
       else lift (require (c = [])));
  lift (require (opt_cluster_ops (w_options w) ≠ 1)).
(** The buffers are as large as a cluster.
    [libsnapshot/libsnapshot_cow/cow_writer.cpp:251-275 CowWriter::InitBatchWrites] *)
Definition InitBatchWrites : WIO unit :=
  modify_w (λ w,
    if w_batch_write w
    then w_set_batch (mkBatch (op_vec (w_batch w)) (data_vec (w_batch w)) (total_data_written (w_batch w))
                        (next_op_pos (w_pos w)) (next_data_pos (w_pos w))) w
    else w).
(** [libsnapshot/libsnapshot_cow/cow_writer.cpp:340-386 CowWriter::OpenForWrite] *)
Definition OpenForWrite : WIO unit :=
  w ← get_w;
  _ ← lift (require (¬ 2 ^ 16 - 1 < ch_block_size (w_header w)));
  _ ← on_fd (seek_set 0);
  let h := if opt_scratch_space (w_options w)
           then header_set_buffer (w_header w) BUFFER_REGION_DEFAULT_SIZE else w_header w in
  _ ← modify_w (w_set_header h);
  _ ← on_fd (write_fully (c_enc header_codec h));
  _ ← (if opt_scratch_space (w_options w)
       then on_fd (write_fully (zeroes (Z.to_nat (ch_buffer_size h)))) else mret ());
  _ ← Sync;
  _ ← on_fd (seek (sizeof header_codec + ch_buffer_size h));
  _ ← modify_w (λ w, w_set_pos (InitPos h (num_ops (w_pos w))) w);
  InitBatchWrites.
(** [SetFd] has told the kind of the descriptor.
    [libsnapshot/libsnapshot_cow/cow_writer.cpp:296-307 CowWriter::Initialize] *)
Definition Initialize : WIO unit := _ ← ParseOptions; OpenForWrite.
(** The operations up to the label are counted again, with the positions.
    [libsnapshot/libsnapshot_cow/cow_writer.cpp:388-421 CowWriter::OpenForAppend] *)
Definition OpenForAppend (fuel : nat) (label : Z) : WIO unit :=
  r ← on_fd (Parse fuel (Some label) (NewCowReader false false));
  let h := rd_header r in
  _ ← modify_w (w_set_header h);
  _ ← modify_w (λ w, w_set_options (options_set (ch_block_size h) (ch_cluster_ops h) (w_options w)) w);
  _ ← modify_w (λ w, w_set_pos (foldl (λ p op, AddOperation (ch_cluster_ops h) op p) (InitPos h 0)
                                  (rd_ops r)) w);
  w ← get_w;
  _ ← on_fd (seek (next_op_pos (w_pos w)));
  _ ← InitBatchWrites;
  EmitClusterIfNeeded.
(** [libsnapshot/libsnapshot_cow/cow_writer.cpp:314-326 CowWriter::InitializeAppend] *)
Definition InitializeAppend (fuel : nat) (label : Z) : WIO unit :=
  _ ← ParseOptions; OpenForAppend fuel label.

(** ** Closing *)

(** [libsnapshot/libsnapshot_cow/cow_writer.cpp:672-675 CowWriter::Finalize, footer] *)
Definition footer (w : CowWriter D) : CowFooter :=
  mkFooter (mkFooterOp kCowFooterOp 0 64 (w_ops_size w) (num_ops (w_pos w)))
    (mkFooterData (zeroes 32) (zeroes 32)).
(** The rest of the cluster is cleared; if the cluster has data it is ended, so that the
    footer is the last thing in the file.  Afterwards the positions are those before.
    [libsnapshot/libsnapshot_cow/cow_writer.cpp:624-698 CowWriter::Finalize] *)
Definition Finalize : WIO unit :=
  _ ← FlushCluster;
  w ← get_w;
  let continue_ := w_pos w in
  _ ← (if decide (cluster_size continue_ = 0) then mret ()
       else
         _ ← on_fd (seek (next_op_pos continue_));
         on_fd (write_fully (zeroes (Z.to_nat (u32 (cluster_size continue_ - current_cluster_size continue_))))));
  let extra_cluster := negb (bool_decide (cluster_size continue_ = 0)) &&
                       bool_decide (0 < current_data_size continue_) in
  _ ← (if extra_cluster then _ ← try_ EmitCluster; mret () else mret ());
  _ ← modify_w (λ w, w_set_ops_size (u64 (num_ops (w_pos w) * sizeof op_codec)) w);
  w ← get_w;
  _ ← on_fd (seek (next_op_pos (w_pos w)));
  _ ← on_fd (write_fully (c_enc footer_codec (footer w)));
  offs ← on_fd tell;
  _ ← Truncate offs;
  _ ← (if extra_cluster
       then modify_w (λ w, w_set_pos (mkPositions (next_op_pos continue_) (next_data_pos continue_)
              (cluster_size (w_pos w)) (current_cluster_size continue_) (current_data_size continue_)
              (num_ops continue_)) w)
       else mret ());
  _ ← try_ FlushCluster;
  Sync.
(** [libsnapshot/libsnapshot_cow/cow_writer.cpp:700-706 CowWriter::GetCowSize] *)
Definition GetCowSize (w : CowWriter D) : Z :=
  if decide (0 < current_data_size (w_pos w)) then u64 (next_data_pos (w_pos w) + sizeof footer_codec)
  else u64 (next_op_pos (w_pos w) + sizeof footer_codec).
End Writer.
End Compress.
