(* ===== verification/CowLog.v ===== *)
(** * The log of a COW image

    A COW image as a log: entries, each an operation with its data, at the positions that
    [AddOperation] gives.  [put] adds one entry to an image, [append] one with the end of
    the cluster if that is due.  The writer is shown to do just this ([CowAppend]), the
    reader to find the entries again ([CowParse]). *)
From S2P Require Import Prelude Bytes Device CowFormat CowReader CowWriter.

(** ** Stores into a file *)

(** A store of no bytes does not happen. *)
Definition store (c : bytes) (off : Z) (bs : bytes) : bytes :=
  if decide (bs = []) then c else file_store c off bs.

Lemma store_nil c off : store c off [] = c.
Proof. done. Qed.
Lemma store_cons c off bs : bs ≠ [] → store c off bs = file_store c off bs.
Proof. intros. unfold store. by rewrite decide_False. Qed.
Lemma lookup_zeroes n i : zeroes n !! i = if decide (i < n)%nat then Some Byte.x00 else None.
Proof.
  unfold zeroes. case_decide; [by apply lookup_replicate_2|]. apply lookup_replicate_None. lia.
Qed.
Lemma lookup_zero_extend c n i : zero_extend c n !! i =
  if decide (i < length c)%nat then c !! i
  else if decide (i < Z.to_nat n)%nat then Some Byte.x00 else None.
Proof.
  unfold zero_extend. case_decide as Hi; [by rewrite lookup_app_l|].
  rewrite lookup_app_r, lookup_zeroes by lia. repeat case_decide; try done; lia.
Qed.
Lemma lookup_store c off bs i : store c off bs !! i =
  if decide (Z.to_nat off ≤ i < Z.to_nat off + length bs)%nat then bs !! (i - Z.to_nat off)%nat
  else if decide (i < length c)%nat then c !! i
  else if decide (i < Z.to_nat off)%nat then (if decide (bs = []) then None else Some Byte.x00)
  else None.
Proof.
  unfold store. destruct (decide (bs = [])) as [->|Hbs].
  { simpl. rewrite decide_False by lia. case_decide; [done|].
    assert (c !! i = None) as -> by (apply lookup_ge_None; lia). by case_decide. }
  assert (0 < length bs)%nat by (destruct bs; simpl; [done|lia]).
  unfold file_store, overwrite, zlen.
  assert (Hlen : (Z.to_nat off ≤ length (zero_extend c (off + Z.of_nat (length bs))))%nat).
  { unfold zero_extend. rewrite length_app, length_zeroes. lia. }
  case_decide as Hin.
  - rewrite lookup_app_r by (rewrite length_take; lia). rewrite length_take, Nat.min_l by lia.
    apply lookup_app_l. lia.
  - destruct (decide (i < Z.to_nat off)%nat) as [Hlt|Hge].
    + rewrite lookup_app_l by (rewrite length_take; lia). rewrite lookup_take_lt by lia.
      rewrite lookup_zero_extend. case_decide; [done|]. by rewrite decide_True by lia.
    + rewrite lookup_app_r by (rewrite length_take; lia). rewrite length_take, Nat.min_l by lia.
      rewrite lookup_app_r, lookup_drop, lookup_zero_extend by lia.
      replace (Z.to_nat off + length bs + (i - Z.to_nat off - length bs))%nat with i by lia.
      case_decide; [done|]. apply decide_False. lia.
Qed.
Lemma length_store c off bs : 0 ≤ off →
  zlen (store c off bs) = if decide (bs = []) then zlen c else zlen c `max` (off + zlen bs).
Proof.
  intros Hoff. unfold store. case_decide; [done|].
  unfold file_store. rewrite length_overwrite; unfold zlen, zero_extend;
    rewrite ?length_app, ?length_zeroes; lia.
Qed.

(** Bytes that follow each other can be stored at once. *)
Lemma store_app c off x y : 0 ≤ off → store c off (x ++ y) = store (store c off x) (off + zlen x) y.
Proof.
  intros Hoff. destruct (decide (x = [])) as [->|Hx].
  { rewrite store_nil. f_equal. unfold zlen. simpl. lia. }
  destruct (decide (y = [])) as [->|Hy]; [by rewrite app_nil_r, store_nil|].
  assert (x ++ y ≠ []) by (intros [? _]%app_eq_nil; done).
  assert (Hl : length (store c off x) = (length c `max` (Z.to_nat off + length x))%nat).
  { pose proof (length_store c off x Hoff) as E. rewrite decide_False in E by done.
    unfold zlen in E. lia. }
  apply list_eq. intros i. rewrite !(lookup_store _ _ y), lookup_store, (lookup_store c off x), length_app, Hl.
  replace (Z.to_nat (off + zlen x)) with (Z.to_nat off + length x)%nat by (unfold zlen; lia).
  rewrite !(decide_False (P := x = [])), !(decide_False (P := y = [])), (decide_False (P := x ++ y = [])) by done.
  destruct (decide (i < Z.to_nat off)%nat).
  { rewrite !(decide_False (P := (_ ≤ i < _)%nat)) by lia.
    destruct (decide (i < length c)%nat); [by rewrite decide_True by lia|].
    by rewrite decide_True by lia. }
  destruct (decide (i < Z.to_nat off + length x)%nat).
  { rewrite (decide_True (P := (_ ≤ i < _ + (_ + _))%nat)) by lia. rewrite lookup_app_l by lia.
    rewrite decide_False by lia. rewrite decide_True by lia. by rewrite decide_True by lia. }
  destruct (decide (i < Z.to_nat off + length x + length y)%nat).
  { rewrite !decide_True by lia. rewrite lookup_app_r by lia. f_equal. lia. }
  rewrite !(decide_False (P := (_ ≤ i < _)%nat)) by lia.
  destruct (decide (i < length c)%nat); [by rewrite decide_True by lia|]. case_decide; done.
Qed.
(** Stores to ranges that do not meet can be exchanged. *)
Lemma store_comm c off x off' y : 0 ≤ off → 0 ≤ off' →
  off + zlen x ≤ off' ∨ off' + zlen y ≤ off →
  store (store c off x) off' y = store (store c off' y) off x.
Proof.
  intros Hoff Hoff' Hd. unfold zlen in Hd.
  destruct (decide (x = [])) as [->|Hx]; [done|].
  destruct (decide (y = [])) as [->|Hy]; [done|].
  pose proof (length_store c off x Hoff) as Ex. rewrite decide_False in Ex by done.
  pose proof (length_store c off' y Hoff') as Ey. rewrite decide_False in Ey by done.
  unfold zlen in Ex, Ey.
  apply list_eq. intros i. rewrite !lookup_store.
  rewrite !(decide_False (P := x = [])), !(decide_False (P := y = [])) by done.
  repeat case_decide; try done; lia.
Qed.

Lemma holds_store_same c off bs : holds (store c off bs) off bs.
Proof.
  intros i b Hb. rewrite lookup_store. pose proof (lookup_lt_Some _ _ _ Hb).
  rewrite decide_True by lia. rewrite <- Hb. f_equal. lia.
Qed.
Lemma holds_store_other c off bs o x : 0 ≤ o → 0 ≤ off →
  o + zlen x ≤ off ∨ off + zlen bs ≤ o → holds c o x → holds (store c off bs) o x.
Proof.
  unfold zlen. intros Ho Hoff Hd Hx i b Hb. pose proof (lookup_lt_Some _ _ _ Hb).
  rewrite lookup_store. pose proof (Hx _ _ Hb) as Hc. pose proof (lookup_lt_Some _ _ _ Hc).
  rewrite decide_False by lia. by rewrite decide_True by lia.
Qed.
Lemma holds_zlen c o x : 0 ≤ o → holds c o x → x ≠ [] → o + zlen x ≤ zlen c.
Proof.
  intros Ho Hx Hne. destruct (last x) as [b|] eqn:E; [|by apply last_None in E].
  rewrite last_lookup in E. apply Hx in E. apply lookup_lt_Some in E.
  unfold zlen. destruct x; [done|]. simpl in *. lia.
Qed.
Lemma holds_take c o x n : 0 ≤ o → o + zlen x ≤ n → holds c o x → holds (take (Z.to_nat n) c) o x.
Proof.
  unfold zlen. intros Ho Hn Hx i b Hb. pose proof (lookup_lt_Some _ _ _ Hb).
  rewrite lookup_take_lt by lia. by apply Hx.
Qed.
Lemma holds_zero_extend c o x n : holds c o x → holds (zero_extend c n) o x.
Proof. intros Hx i b Hb. apply lookup_app_l_Some. by apply Hx. Qed.
Lemma holds_sub c o x n : 0 ≤ o → zlen x ≤ n → holds c o x →
  sub c o n = x ++ sub c (o + zlen x) (n - zlen x).
Proof.
  unfold sub, zlen. intros Ho Hn Hx.
  assert (Hc : drop (Z.to_nat o) c = x ++ drop (Z.to_nat (o + Z.of_nat (length x))) c).
  { replace (Z.to_nat (o + Z.of_nat (length x))) with (Z.to_nat o + length x)%nat by lia.
    rewrite <- (take_drop (length x) (drop (Z.to_nat o) c)) at 1. rewrite drop_drop. f_equal.
    apply list_eq. intros i. destruct (decide (i < length x)%nat) as [Hi|Hi].
    - destruct (lookup_lt_is_Some_2 x i Hi) as [b Hb].
      rewrite lookup_take_lt, lookup_drop by lia. rewrite Hb. by apply Hx.
    - rewrite lookup_take_ge by lia. symmetry. apply lookup_ge_None. lia. }
  rewrite Hc, take_app. f_equal; [apply take_ge; lia|]. f_equal. lia.
Qed.
Lemma sub_holds c o x : 0 ≤ o → sub c o (zlen x) = x → holds c o x.
Proof.
  unfold sub, zlen. rewrite Nat2Z.id. intros Ho E i b Hb. rewrite <- E in Hb.
  apply lookup_take_Some in Hb as [Hb _]. by rewrite lookup_drop in Hb.
Qed.
Lemma holds_sub_exact c o x : 0 ≤ o → holds c o x → sub c o (zlen x) = x.
Proof.
  intros Ho Hx. rewrite (holds_sub c o x) by (done || lia). rewrite Z.sub_diag.
  unfold sub. simpl. by rewrite app_nil_r.
Qed.
Lemma holds_app c o x y : 0 ≤ o → holds c o (x ++ y) ↔ holds c o x ∧ holds c (o + zlen x) y.
Proof.
  unfold zlen. intros Ho. split.
  - intros H. split; intros i b Hb.
    + apply H. by apply lookup_app_l_Some.
    + replace (Z.to_nat (o + Z.of_nat (length x)) + i)%nat with (Z.to_nat o + (length x + i))%nat by lia.
      apply H. rewrite lookup_app_r by lia. rewrite <- Hb. f_equal. lia.
  - intros [Hx Hy] i b Hb. apply lookup_app_Some in Hb as [Hb|[Hi Hb]]; [by apply Hx|].
    apply Hy in Hb. rewrite <- Hb. f_equal. lia.
Qed.

(** ** Positions *)

Abbreviation entry := (CowOperation * bytes)%type.
(** The most a data length field can say, and what a file offset can be here. *)
Definition max_offset : Z := 2 ^ 62.
Definition fits (p : Positions) : Prop := next_data_pos p + cluster_size p + 2 ^ 17 ≤ max_offset.
Definition cluster_entry (p : Positions) : entry := (cluster_op p, []).

Record image := mkImage { im_bytes : bytes; im_pos : Positions }.

Section Log.
Context (co : Z) (co_ok : co = 0 ∨ 2 ≤ co ∧ co * 20 < 2 ^ 32).

(** Without clusters data follows its operation.  With clusters there is room for one more
    operation before the data of the cluster, and the data before [next_data_pos] is that
    of the cluster. *)
Definition good (p : Positions) : Prop :=
  cluster_size p = co * 20 ∧ 38 ≤ next_op_pos p ∧ 0 ≤ num_ops p ∧ num_ops p * 20 ≤ next_op_pos p ∧
  0 ≤ current_cluster_size p ∧ 0 ≤ current_data_size p ∧
  if decide (co = 0)
  then next_data_pos p = next_op_pos p + 20 ∧ current_cluster_size p = 0 ∧ current_data_size p = 0
  else current_cluster_size p + 20 ≤ cluster_size p ∧
       next_op_pos p + (cluster_size p - current_cluster_size p) = next_data_pos p - current_data_size p.
(** An operation that may come next: the end of the cluster, or another one with room
    behind it. *)
Definition entry_ok (p : Positions) (e : entry) : Prop :=
  c_wf op_codec e.1 ∧ op_data_length e.1 = zlen e.2 ∧ op_type e.1 ≠ kCowFooterOp ∧
  if decide (op_type e.1 = kCowClusterOp) then co ≠ 0 ∧ e = cluster_entry p
  else cluster_full p = false ∧
       (co = 0 → e.2 ≠ [] → op_type e.1 = kCowReplaceOp ∨ op_type e.1 = kCowXorOp).

Definition next (p : Positions) (e : entry) : Positions := AddOperation co e.1 p.
Definition end_pos (p : Positions) (L : list entry) : Positions := foldl next p L.
Fixpoint log_ok (p : Positions) (L : list entry) : Prop :=
  match L with
  | [] => True
  | e :: L => entry_ok p e ∧ fits p ∧ log_ok (next p e) L
  end.
(** Where the bytes of the entries are. *)
Fixpoint places (p : Positions) (L : list entry) : list (Z * bytes) :=
  match L with
  | [] => []
  | e :: L => (next_op_pos p, c_enc op_codec e.1) :: (next_data_pos p, e.2) :: places (next p e) L
  end.
Definition laid (c : bytes) (p : Positions) (L : list entry) : Prop :=
  Forall (λ x, holds c x.1 x.2) (places p L).

Definition put (im : image) (e : entry) : image :=
  mkImage (store (store (im_bytes im) (next_op_pos (im_pos im)) (c_enc op_codec e.1))
             (next_data_pos (im_pos im)) e.2)
    (next (im_pos im) e).
(** The entries that one request leads to. *)
Definition extension (p : Positions) (e : entry) : list entry :=
  e :: if cluster_full (next p e) then [cluster_entry (next p e)] else [].
Definition append (im : image) (e : entry) : image := foldl put im (extension (im_pos im) e).

Lemma wf_op op : c_wf op_codec op ↔ is_u8 (op_type op) ∧ is_u8 (op_compression op) ∧
  is_u16 (op_data_length op) ∧ is_u64 (op_new_block op) ∧ is_u64 (op_source op).
Proof. destruct op. done. Qed.
Lemma zlen_op op : c_wf op_codec op → zlen (c_enc op_codec op) = 20.
Proof. intros. unfold zlen. by rewrite (enc_length op). Qed.
Lemma op_not_nil op : c_wf op_codec op → c_enc op_codec op ≠ [].
Proof. intros Hop E. pose proof (zlen_op op Hop) as H. by rewrite E in H. Qed.

Lemma good_order p : good p → next_op_pos p + 20 ≤ next_data_pos p - current_data_size p.
Proof. intros (_&_&_&_&_&_&H). case_decide; lia. Qed.

(** Where an entry leads. *)
Lemma next_cluster p : co ≠ 0 → good p → fits p →
  next p (cluster_entry p) = mkPositions (next_data_pos p) (next_data_pos p + co * 20) (cluster_size p) 0 0
    (num_ops p + 1).
Proof.
  intros Hco (E1&E2&E3&E4&E5&E6&H) Hf. rewrite decide_False in H by done. unfold fits, max_offset in Hf.
  unfold next, AddOperation, cluster_entry, cluster_op, GetNextOpOffset, GetNextDataOffset. simpl.
  change (sizeof op_codec) with 20.
  rewrite (u64_small (current_data_size p + cluster_size p - current_cluster_size p - 20)) by lia.
  rewrite i64_small by lia. rewrite !u64_small by lia. f_equal; lia.
Qed.
Lemma next_other p e : good p → fits p → entry_ok p e → op_type e.1 ≠ kCowClusterOp →
  next p e = if decide (co = 0)
    then mkPositions (next_op_pos p + 20 + zlen e.2) (next_data_pos p + 20 + zlen e.2) (cluster_size p) 0 0
           (num_ops p + 1)
    else mkPositions (next_op_pos p + 20) (next_data_pos p + zlen e.2) (cluster_size p)
           (current_cluster_size p + 20) (current_data_size p + zlen e.2) (num_ops p + 1).
Proof.
  intros (E1&E2&E3&E4&E5&E6&H) Hf (Hwf&Hlen&_&He) Ht. rewrite decide_False in He by done.
  destruct He as [_ He]. apply (proj1 (wf_op _)) in Hwf. destruct Hwf as (_&_&Hwf&_). rewrite Hlen in Hwf. unfold fits, max_offset in Hf.
  unfold next, AddOperation, GetNextOpOffset, GetNextDataOffset. rewrite !(decide_False _ _ Ht), Hlen.
  change (sizeof op_codec) with 20.
  destruct (decide (co = 0)) as [->|Hco].
  - destruct H as (Hd & -> & ->).
    replace (if decide ((op_type e.1 = kCowReplaceOp ∨ op_type e.1 = kCowXorOp) ∧ 0 = 0)
             then zlen e.2 else 0) with (zlen e.2).
    2:{ case_decide as Hx; [done|]. destruct (decide (e.2 = [])) as [E|E]; [by rewrite E|].
        destruct Hx. split; [by apply He|done]. }
    rewrite !u64_small by lia. f_equal; lia.
  - rewrite (decide_False (P := (_ ∨ _) ∧ co = 0)) by tauto.
    rewrite u32_small by lia. rewrite !u64_small by lia. f_equal; lia.
Qed.

Lemma not_full p : good p → co ≠ 0 → cluster_full p = false → current_cluster_size p + 40 ≤ cluster_size p.
Proof.
  unfold cluster_full. intros (E1&_) Hco H. change (sizeof op_codec) with 20 in H.
  rewrite bool_decide_true in H by lia. simpl in H. apply bool_decide_eq_false in H. lia.
Qed.
Lemma entry_cluster p e : entry_ok p e → op_type e.1 = kCowClusterOp → co ≠ 0 ∧ e = cluster_entry p.
Proof. intros (_&_&_&H) E. by rewrite decide_True in H. Qed.
Lemma good_next p e : good p → fits p → entry_ok p e → good (next p e).
Proof.
  intros Hg Hf He. destruct (decide (op_type e.1 = kCowClusterOp)) as [Ht|Ht].
  - destruct (entry_cluster p e He Ht) as [Hco ->]. rewrite next_cluster by done.
    pose proof (good_order p Hg) as Hord. destruct Hg as (E1&E2&E3&E4&E5&E6&H).
    unfold good. simpl. rewrite decide_False in * by done. lia.
  - rewrite next_other by done. pose proof (good_order p Hg) as Hord.
    pose proof (zlen_nonneg e.2) as Hnn. destruct He as (_&_&_&He). rewrite decide_False in He by done.
    pose proof (not_full p Hg) as Hn. destruct Hg as (E1&E2&E3&E4&E5&E6&H).
    unfold good. destruct (decide (co = 0)); simpl; [lia|]. specialize (Hn n (proj1 He)). lia.
Qed.
Lemma next_grows p e : good p → fits p → entry_ok p e →
  next_op_pos p + 20 ≤ next_op_pos (next p e) ∧ next_data_pos p + zlen e.2 ≤ next_data_pos (next p e) ∧
  cluster_size (next p e) = cluster_size p ∧ num_ops (next p e) = num_ops p + 1.
Proof.
  intros Hg Hf He. destruct (decide (op_type e.1 = kCowClusterOp)) as [Ht|Ht].
  - destruct (entry_cluster p e He Ht) as [Hco ->]. rewrite next_cluster by done.
    pose proof (good_order p Hg) as Hord. destruct Hg as (E1&E2&E3&E4&E5&E6&H). simpl. unfold zlen; simpl. lia.
  - rewrite next_other by done. pose proof (zlen_nonneg e.2) as Hnn. destruct (decide (co = 0)); simpl; lia.
Qed.

(** ** Used ranges *)

Definition used (p : Positions) (x : Z * bytes) : Prop :=
  0 ≤ x.1 ∧
  (x.2 = [] ∨ x.1 + zlen x.2 ≤ next_op_pos p ∨
   next_data_pos p - current_data_size p ≤ x.1 ∧ x.1 + zlen x.2 ≤ next_data_pos p).

Lemma used_mono p e x : good p → fits p → entry_ok p e → used p x → used (next p e) x.
Proof.
  intros Hg Hf He [Hx H]. split; [done|]. destruct H as [H|H]; [by left|right].
  pose proof (good_order p Hg) as Hord. pose proof (next_grows p e Hg Hf He) as (?&?&_).
  destruct (decide (op_type e.1 = kCowClusterOp)) as [Ht|Ht].
  - destruct (entry_cluster p e He Ht) as [Hco ->]. rewrite next_cluster by done. simpl.
    destruct Hg as (E1&E2&E3&E4&E5&E6&_). lia.
  - rewrite next_other by done. pose proof (zlen_nonneg e.2) as Hnn.
    destruct Hg as (E1&E2&E3&E4&E5&E6&Hg). destruct (decide (co = 0)); simpl; lia.
Qed.
Lemma used_entry p e : good p → fits p → entry_ok p e →
  used (next p e) (next_op_pos p, c_enc op_codec e.1) ∧ used (next p e) (next_data_pos p, e.2).
Proof.
  intros Hg Hf He. pose proof (good_order p Hg) as Hord. pose proof (next_grows p e Hg Hf He) as (?&?&_).
  pose proof (zlen_op e.1 (proj1 He)). pose proof Hg as (E1&E2&E3&E4&E5&E6&Hg').
  split; (split; cbn [fst snd]; [lia|]); [right; left; lia|].
  destruct (decide (op_type e.1 = kCowClusterOp)) as [Ht|Ht].
  - destruct (entry_cluster p e He Ht) as [Hco ->]. by left.
  - right. rewrite next_other by done. destruct (decide (co = 0)); simpl; lia.
Qed.

(** ** The log of an image *)

Lemma end_pos_app p L K : end_pos p (L ++ K) = end_pos (end_pos p L) K.
Proof. apply foldl_app. Qed.
Lemma log_ok_app p L K : log_ok p (L ++ K) ↔ log_ok p L ∧ log_ok (end_pos p L) K.
Proof. revert p. induction L as [|e L IH]; intros p; simpl; [tauto|]. rewrite IH. tauto. Qed.
Lemma places_app p L K : places p (L ++ K) = places p L ++ places (end_pos p L) K.
Proof. revert p. induction L as [|e L IH]; intros p; simpl; [done|]. by rewrite IH. Qed.
Lemma laid_app c p L K : laid c p (L ++ K) ↔ laid c p L ∧ laid c (end_pos p L) K.
Proof. unfold laid. by rewrite places_app, Forall_app. Qed.
Lemma good_end p L : good p → log_ok p L → good (end_pos p L).
Proof.
  revert p. induction L as [|e L IH]; intros p Hg; simpl; [done|]. intros (He & Hf & HL).
  apply IH; [|done]. by apply good_next.
Qed.
Lemma end_pos_grows p L : good p → log_ok p L →
  next_op_pos p + 20 * zlen L ≤ next_op_pos (end_pos p L) ∧ cluster_size (end_pos p L) = cluster_size p ∧
  num_ops (end_pos p L) = num_ops p + zlen L.
Proof.
  revert p. induction L as [|e L IH]; intros p Hg; simpl.
  { unfold zlen. simpl. lia. }
  intros (He & Hf & HL). destruct (next_grows p e Hg Hf He) as (H1&_&H2&H3).
  specialize (IH (next p e) (good_next p e Hg Hf He) HL). unfold zlen in *. simpl. lia.
Qed.
Lemma used_end p L x : good p → log_ok p L → used p x → used (end_pos p L) x.
Proof.
  revert p. induction L as [|e L IH]; intros p Hg; simpl; [done|]. intros (He & Hf & HL) Hx.
  apply IH; [by apply good_next|done|by apply used_mono].
Qed.
Lemma places_used p L : good p → log_ok p L → Forall (used (end_pos p L)) (places p L).
Proof.
  revert p. induction L as [|e L IH]; intros p Hg; simpl; [done|]. intros (He & Hf & HL).
  pose proof (good_next p e Hg Hf He) as Hg'. destruct (used_entry p e Hg Hf He) as [H1 H2].
  constructor; [by apply used_end|]. constructor; [by apply used_end|]. by apply IH.
Qed.

(** Adding an entry leaves the used ranges alone. *)
Lemma put_used im e x : good (im_pos im) → entry_ok (im_pos im) e → used (im_pos im) x →
  holds (im_bytes im) x.1 x.2 → holds (im_bytes (put im e)) x.1 x.2.
Proof.
  intros Hg He [Hx0 Hx] Hc. pose proof (good_order _ Hg) as Hord. pose proof (zlen_op _ (proj1 He)) as Hlen.
  destruct Hg as (E1&E2&E3&E4&E5&E6&Hg).
  destruct Hx as [->|Hx]; [by intros i b Hb|].
  unfold put. cbn [im_bytes]. apply holds_store_other; [done|lia|lia|]. apply holds_store_other; [done|lia|lia|done].
Qed.
Lemma put_entry im e : good (im_pos im) → entry_ok (im_pos im) e →
  holds (im_bytes (put im e)) (next_op_pos (im_pos im)) (c_enc op_codec e.1) ∧
  holds (im_bytes (put im e)) (next_data_pos (im_pos im)) e.2.
Proof.
  intros Hg He. pose proof (good_order _ Hg) as Hord. pose proof (zlen_op _ (proj1 He)) as Hlen.
  destruct Hg as (E1&E2&E3&E4&E5&E6&Hg). unfold put. cbn [im_bytes]. split; [|apply holds_store_same].
  apply holds_store_other; [lia|lia|lia|apply holds_store_same].
Qed.

(** The image starts with [hd] and goes on with the log [L] from [p] on. *)
Definition image_of (hd : bytes) (p : Positions) (L : list entry) (im : image) : Prop :=
  good p ∧ zlen hd ≤ next_op_pos p ∧ log_ok p L ∧ im_pos im = end_pos p L ∧
  holds (im_bytes im) 0 hd ∧ laid (im_bytes im) p L.

Lemma image_of_good hd p L im : image_of hd p L im → good (im_pos im).
Proof. intros (Hg & _ & HL & -> & _). by apply good_end. Qed.
Lemma put_image hd p L im e : image_of hd p L im → entry_ok (im_pos im) e → fits (im_pos im) →
  image_of hd p (L ++ [e]) (put im e).
Proof.
  intros Him He Hf. pose proof (image_of_good _ _ _ _ Him) as Hge.
  destruct Him as (Hg & Hhd & HL & Hp & Hh & Hlaid).
  assert (Hkeep : ∀ x, used (im_pos im) x → holds (im_bytes im) x.1 x.2 → holds (im_bytes (put im e)) x.1 x.2).
  { intros x. by apply put_used. }
  split_and!; [done|done| | | |].
  - apply log_ok_app. split; [done|]. simpl. by rewrite <- Hp.
  - simpl. rewrite end_pos_app. simpl. by rewrite <- Hp.
  - apply (Hkeep (0, hd)); [|done]. split; [simpl; lia|]. right; left. simpl.
    pose proof (end_pos_grows p L Hg HL) as (Hgr & _). pose proof (zlen_nonneg L). rewrite Hp. lia.
  - apply laid_app. split.
    + pose proof (places_used p L Hg HL) as Hu. unfold laid in *. rewrite Forall_forall in *.
      intros x Hx. apply Hkeep; [rewrite Hp; by apply Hu|by apply Hlaid].
    + unfold laid. cbn [places]. rewrite <- Hp. destruct (put_entry im e Hge He) as [H1 H2]. by repeat constructor.
Qed.
Lemma puts_image hd p L im K : image_of hd p L im → log_ok (im_pos im) K →
  image_of hd p (L ++ K) (foldl put im K).
Proof.
  revert L im. induction K as [|e K IH]; intros L im Him; simpl; [by rewrite app_nil_r|].
  intros (He & Hf & HK). rewrite cons_middle, (assoc_L (++)). apply IH; [|done]. by apply put_image.
Qed.

(** A store outside the used ranges. *)
Definition unused (p : Positions) (off len : Z) : Prop :=
  next_op_pos p ≤ off ∧ off + len ≤ next_data_pos p - current_data_size p ∨
  next_op_pos p ≤ off ∧ current_data_size p = 0 ∨ next_data_pos p ≤ off.
Lemma image_of_bytes hd p L im c : image_of hd p L im →
  (∀ x, used (im_pos im) x → holds (im_bytes im) x.1 x.2 → holds c x.1 x.2) →
  image_of hd p L (mkImage c (im_pos im)).
Proof.
  intros (Hg & Hhd & HL & Hp & Hh & Hlaid) Hkeep.
  pose proof (end_pos_grows p L Hg HL) as (Hgr & _). pose proof (zlen_nonneg L).
  split_and!; [done|done|done|done| |].
  - apply (Hkeep (0, hd)); [|done]. split; [done|]. right; left. cbn [fst snd]. rewrite Hp. lia.
  - pose proof (places_used p L Hg HL) as Hu. unfold laid in *. cbn [im_bytes]. rewrite Forall_forall in *.
    intros x Hx. apply Hkeep; [rewrite Hp; by apply Hu|by apply Hlaid].
Qed.
Lemma image_of_store hd p L im off bs : image_of hd p L im → unused (im_pos im) off (zlen bs) →
  image_of hd p L (mkImage (store (im_bytes im) off bs) (im_pos im)).
Proof.
  intros Him Hun. pose proof (image_of_good _ _ _ _ Him) as Hg. apply image_of_bytes; [done|].
  intros x [Hx0 Hx] Hc. pose proof (good_order _ Hg) as Hord. destruct Hg as (E1&E2&E3&E4&E5&E6&_).
  destruct Hx as [->|Hx]; [by intros i b Hb|].
  destruct (decide (x.2 = [])) as [->|Hne]; [by intros i b Hb|].
  assert (0 < zlen x.2) by (unfold zlen; destruct (x.2); simpl; [done|lia]).
  apply holds_store_other; [done|unfold unused in Hun; lia| |done]. unfold unused in Hun. lia.
Qed.
(** Behind the used ranges the file can be cut, or grow. *)
Lemma image_of_take hd p L im n : image_of hd p L im → next_data_pos (im_pos im) ≤ n ∨
  next_op_pos (im_pos im) ≤ n ∧ current_data_size (im_pos im) = 0 →
  image_of hd p L (mkImage (take (Z.to_nat n) (zero_extend (im_bytes im) n)) (im_pos im)).
Proof.
  intros Him Hn. pose proof (image_of_good _ _ _ _ Him) as Hg. apply image_of_bytes; [done|].
  intros x [Hx0 Hx] Hc. pose proof (good_order _ Hg) as Hord. destruct Hg as (E1&E2&E3&E4&E5&E6&_).
  destruct Hx as [->|Hx]; [by intros i b Hb|].
  destruct (decide (x.2 = [])) as [->|Hne]; [by intros i b Hb|].
  assert (0 < zlen x.2) by (unfold zlen; destruct (x.2); simpl; [done|lia]).
  apply holds_take; [done|lia|]. by apply holds_zero_extend.
Qed.
Lemma image_of_prefix hd p L K c q : image_of hd p (L ++ K) (mkImage c q) →
  image_of hd p L (mkImage c (end_pos p L)).
Proof.
  intros (Hg & Hhd & HL & _ & Hh & Hlaid). apply log_ok_app in HL as [HL _]. apply laid_app in Hlaid as [Hlaid _].
  done.
Qed.
Lemma length_puts im K : good (im_pos im) → log_ok (im_pos im) K →
  zlen (im_bytes (foldl put im K)) ≤ zlen (im_bytes im) `max` max_offset.
Proof.
  revert im. induction K as [|e K IH]; intros im Hg; simpl; [lia|]. intros (He & Hf & HK).
  specialize (IH (put im e) (good_next _ _ Hg Hf He) HK).
  assert (zlen (im_bytes (put im e)) ≤ zlen (im_bytes im) `max` max_offset); [|lia].
  pose proof (good_order _ Hg) as Hord. pose proof Hg as (E1&E2&E3&E4&E5&E6&_).
  pose proof (zlen_op _ (proj1 He)) as Hlen. destruct (proj1 (wf_op _) (proj1 He)) as (_&_&Hl&_).
  rewrite (proj1 (proj2 He)) in Hl. unfold fits in Hf. unfold put. cbn [im_bytes].
  rewrite !length_store by lia. rewrite Hlen. repeat case_decide; lia.
Qed.
End Log.
