(* ===== verification/CowParse.v ===== *)
(** * What the parser finds in an image

    [ParseOps] finds the entries of a log that is laid out in a file and stops at the
    operation behind it, the footer or the label asked for, whatever comes after; the data
    of an entry is read back from where the entry says. *)
From S2P Require Import Prelude Bytes Device CowFormat CowReader CowWriter CowLog.

(** ** One operation *)

Definition see (co : Z) (s : ParseState) (e : entry) : ParseState :=
  let s := parse_op co e.1 s in
  if decide (op_type e.1 = kCowLabelOp) then set_label (op_source e.1) (ps_done s) s
  else if decide (op_type e.1 = kCowSequenceOp) then set_seq s
  else s.
Definition see_log (co : Z) (s : ParseState) (L : list entry) : ParseState := foldl (see co) s L.
(** The parser and the writer keep the same positions. *)
Definition at_pos (s : ParseState) (p : Positions) : Prop :=
  ps_pos s = next_op_pos p ∧ ps_data_pos s = next_data_pos p.
(** The operation at which parsing ends. *)
Definition ends_parse (label : option Z) (op : CowOperation) : Prop :=
  op_type op = kCowFooterOp ∨ op_type op = kCowLabelOp ∧ label = Some (op_source op).

Lemma see_at co s p e : at_pos s p → at_pos (see co s e) (next co p e).
Proof.
  intros [H1 H2]. unfold see, at_pos, next, AddOperation.
  repeat case_decide; simpl; rewrite H1, H2; done.
Qed.
Lemma see_log_at co s p L : at_pos s p → at_pos (see_log co s L) (end_pos co p L).
Proof.
  revert s p. induction L as [|e L IH]; intros s p H; [done|]. simpl. by apply IH, see_at.
Qed.
Lemma see_log_app co s L K : see_log co s (L ++ K) = see_log co (see_log co s L) K.
Proof. apply foldl_app. Qed.
Lemma see_done co s e : ps_done (see co s e) = ps_done s.
Proof. unfold see. by repeat case_decide. Qed.
Lemma see_log_done co s L : ps_done (see_log co s L) = ps_done s.
Proof. revert s. induction L as [|e L IH]; intros s; [done|]. simpl. by rewrite IH, see_done. Qed.
Lemma see_ops co s e : ps_ops (see co s e) = ps_ops s ++ [e.1].
Proof. unfold see. by repeat case_decide. Qed.
Lemma see_log_ops co s L : ps_ops (see_log co s L) = ps_ops s ++ L.*1.
Proof.
  revert s. induction L as [|e L IH]; intros s; simpl; [by rewrite app_nil_r|].
  by rewrite IH, see_ops, <- (assoc_L (++)).
Qed.
Lemma see_log_footer co s L : ps_footer (see_log co s L) = ps_footer s.
Proof.
  revert s. induction L as [|e L IH]; intros s; [done|]. simpl. rewrite IH.
  unfold see. by repeat case_decide.
Qed.

Section Parse.
Context {D : Type} `{CF : !CowFile D, LD : !CowFileLaws D}.
Context (co : Z) (co_ok : co = 0 ∨ 2 ≤ co ∧ co * 20 < 2 ^ 32).

Lemma parse_batch_cons label e rest s (d : D) : ¬ ends_parse label e.1 →
  parse_batch co label (e.1 :: rest) s d =
    if decide (op_type e.1 = kCowClusterOp) then (Ret (see co s e), d)
    else parse_batch co label rest (see co s e) d.
Proof.
  intros He. unfold ends_parse in He. cbn [parse_batch]. unfold see.
  destruct (decide (op_type e.1 = kCowClusterOp)) as [E|E]; [by rewrite E|].
  destruct (decide (op_type e.1 = kCowLabelOp)) as [E'|E'].
  { rewrite decide_False by tauto. done. }
  rewrite (decide_False (P := op_type e.1 = kCowFooterOp)) by tauto. by case_decide.
Qed.

(** The next operation of a run that was read. *)
Lemma decode_ops_cons c off op n : 0 ≤ off → c_wf op_codec op → holds c off (c_enc op_codec op) →
  decode_ops (S n) (sub c off (Z.of_nat (S n) * 20)) =
    op :: decode_ops n (sub c (off + 20) (Z.of_nat n * 20)).
Proof.
  intros Hoff Hop Hc. pose proof (zlen_op _ Hop) as Hl.
  rewrite (holds_sub c off (c_enc op_codec op)) by (done || lia). cbn [decode_ops]. rewrite dec_enc by done.
  rewrite drop_app_length' by (by rewrite (enc_length op)). repeat f_equal; lia.
Qed.

Section Tail.
(** The file, the log, and what is done with the operation behind it. *)
Context (c : bytes) (label : option Z) (tail : CowOperation) (fin : ParseState → ParseState).
Definition finishes (p : Positions) : Prop := ∀ rest s (d : D),
  at_pos s p → file_bytes d = c →
  ∃ d', parse_batch co label (tail :: rest) s d = (Ret (fin s), d') ∧ file_bytes d' = c.

(** A run of operations: the entries at the front of the log, at least one, or the whole log
    and the operation behind it. *)
Lemma parse_batch_log n L p s (d : D) :
  (co = 0 → (n ≤ 1)%nat) → good co p → log_ok co p L → laid co c p L →
  Forall (λ e, ¬ ends_parse label e.1) L →
  c_wf op_codec tail → holds c (next_op_pos (end_pos co p L)) (c_enc op_codec tail) →
  finishes (end_pos co p L) → at_pos s p → file_bytes d = c →
  ∃ d', file_bytes d' = c ∧
    let batch := decode_ops n (sub c (next_op_pos p) (Z.of_nat n * 20)) in
    ((∃ L1 L2, L = L1 ++ L2 ∧ (n ≠ 0%nat → L1 ≠ []) ∧
        parse_batch co label batch s d = (Ret (see_log co s L1), d')) ∨
     parse_batch co label batch s d = (Ret (fin (see_log co s L)), d')).
Proof.
  intros Hn. revert L p s Hn. induction n as [|n IH]; intros L p s Hn Hg HL Hc Hlab Htail Hct Hfin Hs Hd.
  { exists d. split; [done|]. left. by exists [], L. }
  pose proof Hg as (_&H38&_).
  destruct L as [|e L].
  { rewrite (decode_ops_cons _ _ tail) by (done || lia).
    destruct (Hfin (decode_ops n (sub c (next_op_pos p + 20) (Z.of_nat n * 20))) s d Hs Hd) as (d' & E & Hd').
    exists d'. split; [done|]. by right. }
  destruct HL as (He & Hf & HL). apply Forall_cons in Hlab as [Hl Hlab].
  unfold laid in Hc. cbn [places] in Hc. apply Forall_cons in Hc as [Hce Hc]. apply Forall_cons in Hc as [_ Hc].
  rewrite (decode_ops_cons _ _ e.1) by (done || lia || apply He). cbv zeta.
  rewrite parse_batch_cons by done.
  destruct (decide (op_type e.1 = kCowClusterOp)) as [Ht|Ht].
  { exists d. split; [done|]. left. by exists [e], L. }
  destruct (decide (n = 0%nat)) as [->|Hn0].
  { exists d. split; [done|]. left. by exists [e], L. }
  assert (co ≠ 0) as Hco by (intros ?; specialize (Hn ltac:(done)); lia).
  assert (Hnext : next_op_pos (next co p e) = next_op_pos p + 20).
  { rewrite next_other by done. by rewrite decide_False. }
  destruct (IH L (next co p e) (see co s e) ltac:(done) (good_next co co_ok p e Hg Hf He) HL Hc Hlab
              Htail Hct Hfin (see_at _ _ _ _ Hs) Hd) as (d' & Hd' & H).
  rewrite Hnext in H. exists d'. split; [done|]. cbv zeta in H.
  destruct H as [(L1 & L2 & -> & HL1 & H)|H]; [left; by exists (e :: L1), L2|by right].
Qed.

(** [lseek] to a place in the file. *)
Lemma seek_ok off (d : D) : 0 ≤ off < 2 ^ 63 →
  ∃ d', seek off d = (Ret (), d') ∧ file_bytes d' = file_bytes d ∧ file_pos d' = off.
Proof.
  intros Hoff. unfold seek. rewrite io_require by (rewrite i64_small; lia).
  apply seek_set_law. lia.
Qed.
Lemma next_op_held p L : log_ok co p L → laid co c p L → c_wf op_codec tail →
  holds c (next_op_pos (end_pos co p L)) (c_enc op_codec tail) → 0 ≤ next_op_pos p →
  next_op_pos p + 20 ≤ zlen c.
Proof.
  intros HL Hc Htail Hct H0. destruct L as [|e L].
  - pose proof (zlen_op _ Htail). pose proof (holds_zlen _ _ _ H0 Hct (op_not_nil _ Htail)). lia.
  - destruct HL as ((Hwf & _) & _). apply Forall_cons in Hc as [Hc _]. pose proof (zlen_op _ Hwf).
    pose proof (holds_zlen _ _ _ H0 Hc (op_not_nil _ Hwf)). simpl in *. lia.
Qed.

Lemma parse_clusters_log fuel L p s (d : D) :
  (length L + 2 ≤ fuel)%nat → good co p → log_ok co p L → laid co c p L →
  Forall (λ e, ¬ ends_parse label e.1) L →
  c_wf op_codec tail → holds c (next_op_pos (end_pos co p L)) (c_enc op_codec tail) →
  finishes (end_pos co p L) → at_pos s p → file_bytes d = c → file_pos d = ps_pos s →
  zlen c < 2 ^ 63 → ps_done s = false →
  ps_done (fin (see_log co s L)) = true → 0 ≤ ps_pos (fin (see_log co s L)) < 2 ^ 63 →
  ∃ d', parse_clusters fuel co (zlen c) label s d = (Ret (fin (see_log co s L)), d') ∧ file_bytes d' = c.
Proof.
  revert L p s d. induction fuel as [|fuel IH]; intros L p s d Hfuel Hg HL Hc Hlab Htail Hct Hfin Hs Hd Hpos
    Hsize Hdone Hfdone Hfpos; [lia|].
  pose proof Hg as (_&H38&_). pose proof (next_op_held p L HL Hc Htail Hct ltac:(lia)) as Hroom.
  cbn [parse_clusters]. rewrite Hdone. destruct Hs as [Hs1 Hs2]. rewrite Hs1.
  set (n := (if decide (co = 0) then 1 else co) `min` (u64 (zlen c - next_op_pos p) / sizeof op_codec)).
  assert (Hn : 1 ≤ n ∧ next_op_pos p + n * 20 ≤ zlen c ∧ (co = 0 → n = 1)).
  { subst n. change (sizeof op_codec) with 20. rewrite u64_small by lia.
    destruct (decide (co = 0)); Z.to_euclidean_division_equations; lia. }
  cbv zeta. rewrite decide_False by lia. change (sizeof op_codec) with 20.
  assert (Hp0 : 0 ≤ file_pos d) by lia.
  destruct (read_fully_law (n * 20) d ltac:(lia) Hp0) as (r & d1 & Er & Hd1 & H).
  rewrite Hd, Hpos, Hs1 in H. rewrite decide_True in H by lia. destruct H as [-> _].
  rewrite (io_bind_eq _ _ _ _ _ Er).
  destruct (parse_batch_log (Z.to_nat n) L p s d1) as (d2 & Hd2 & H); try done; [lia|by rewrite Hd1|].
  cbv zeta in H. rewrite !Z2Nat.id in H by lia. destruct H as [(L1 & L2 & -> & HL1 & H)|H].
  - rewrite (io_bind_eq _ _ _ _ _ H). specialize (HL1 ltac:(lia)).
    pose proof (proj1 (log_ok_app _ co_ok _ _ _) HL) as [HLa HLb]. apply laid_app in Hc as [Hca Hcb].
    apply Forall_app in Hlab as [_ Hlab]. rewrite end_pos_app in Hct, Hfin.
    pose proof (good_end _ co_ok _ _ Hg HLa) as Hg2. pose proof Hg2 as (_&H38'&_).
    pose proof (next_op_held _ L2 HLb Hcb Htail Hct ltac:(lia)) as Hroom2.
    destruct (see_log_at co s p L1 (conj Hs1 Hs2)) as [Hs3 Hs4].
    destruct (seek_ok (ps_pos (see_log co s L1)) d2) as (d3 & E3 & Hd3 & Hp3); [rewrite Hs3; lia|].
    rewrite (io_bind_eq _ _ _ _ _ E3). rewrite see_log_app in *.
    destruct L1 as [|e L1]; [done|]. rewrite length_app in Hfuel. simpl in Hfuel.
    apply (IH L2 (end_pos co p (e :: L1))); try done; [lia|by rewrite Hd3|by rewrite see_log_done].
  - rewrite (io_bind_eq _ _ _ _ _ H).
    destruct (seek_ok _ d2 Hfpos) as (d3 & E3 & Hd3 & Hp3). rewrite (io_bind_eq _ _ _ _ _ E3).
    destruct fuel as [|fuel]; [lia|]. exists d3. split; [|by rewrite Hd3].
    cbn [parse_clusters]. by rewrite Hfdone.
Qed.
End Tail.

(** ** The footer and the label *)

Definition op_of_footer (f : CowFooterOperation) : CowOperation :=
  mkOp (fo_type f) (fo_compression f) (fo_data_length f) (fo_ops_size f) (fo_num_ops f).
Lemma enc_footer f : c_enc footer_codec f =
  c_enc op_codec (op_of_footer (cf_op f)) ++ c_enc footer_data_codec (cf_data f).
Proof. done. Qed.
Lemma as_footer_of_footer f : as_footer_op (op_of_footer f) = f.
Proof. by destruct f. Qed.

Definition fin_footer (f : CowFooter) (s : ParseState) : ParseState :=
  set_footer (ps_ops s) f (parse_op co (op_of_footer (cf_op f)) s).
Lemma footer_finishes c label f p : good co p → c_wf footer_codec f →
  fo_type (cf_op f) = kCowFooterOp → holds c (next_op_pos p) (c_enc footer_codec f) → zlen c < 2 ^ 63 →
  finishes c label (op_of_footer (cf_op f)) (fin_footer f) p.
Proof.
  intros Hg [Hwf1 Hwf2] Ht Hc Hsize rest s d [Hs1 Hs2] Hd. pose proof Hg as (_&H38&_).
  assert (Hlen : zlen (c_enc op_codec (op_of_footer (cf_op f))) = 20) by (apply zlen_op, Hwf1).
  assert (Hlen' : zlen (c_enc footer_data_codec (cf_data f)) = 64).
  { unfold zlen. by rewrite (enc_length (cf_data f)). }
  rewrite enc_footer in Hc. apply holds_app in Hc as [_ Hc]; [|lia]. rewrite Hlen in Hc.
  assert (Hend : next_op_pos p + 20 + 64 ≤ zlen c).
  { rewrite <- Hlen'. apply holds_zlen; [lia|done|]. intros E. by rewrite E in Hlen'. }
  assert (Hpos : ps_pos (parse_op co (op_of_footer (cf_op f)) s) = next_op_pos p + 20).
  { unfold parse_op, GetNextOpOffset. cbn [ps_pos].
    change (op_type (op_of_footer (cf_op f))) with (fo_type (cf_op f)). rewrite Ht.
    rewrite decide_False by done. rewrite decide_False by (by intros [[?|?] _]).
    change (sizeof op_codec) with 20. rewrite Hs1, u64_small; lia. }
  cbn [parse_batch]. change (op_type (op_of_footer (cf_op f))) with (fo_type (cf_op f)).
  rewrite Ht. rewrite decide_False, decide_False, decide_True by done. rewrite Hpos.
  destruct (seek_ok (next_op_pos p + 20) d ltac:(lia)) as (d1 & E1 & Hd1 & Hp1).
  rewrite (io_bind_eq _ _ _ _ _ E1). assert (0 ≤ file_pos d1) as Hp1' by lia.
  destruct (read_fully_law (sizeof footer_data_codec) d1 ltac:(done) Hp1') as (r & d2 & E2 & Hd2 & H).
  change (sizeof footer_data_codec) with 64 in *.
  rewrite Hd1, Hd, Hp1, decide_True in H by lia. destruct H as [-> _].
  rewrite (io_bind_eq _ _ _ _ _ E2). exists d2. split; [|congruence].
  assert (sub c (next_op_pos p + 20) 64 = c_enc footer_data_codec (cf_data f)) as ->.
  { rewrite <- Hlen'. apply holds_sub_exact; [lia|done]. }
  rewrite (dec_enc_nil footer_data_codec) by done. rewrite as_footer_of_footer.
  unfold fin_footer. by destruct f.
Qed.

Definition fin_label (op : CowOperation) (s : ParseState) : ParseState :=
  set_label (op_source op) true (parse_op co op s).
Lemma label_finishes c op p : op_type op = kCowLabelOp →
  finishes c (Some (op_source op)) op (fin_label op) p.
Proof.
  intros Ht rest s d _ Hd. exists d. split; [|done]. cbn [parse_batch]. rewrite Ht.
  rewrite decide_False, decide_True, decide_True by done. done.
Qed.
End Parse.

(** ** The reader after [ParseOps] *)

(** The headers that a writer makes. *)
Definition header_ok (h : CowHeader) : Prop :=
  header_valid h = true ∧ c_wf header_codec h ∧ ch_header_size h = sizeof header_codec ∧
  ch_major_version h = kCowVersionMajor ∧ 0 < ch_block_size h < 2 ^ 16 ∧
  0 ≤ ch_buffer_size h ≤ BUFFER_REGION_DEFAULT_SIZE ∧
  (ch_cluster_ops h = 0 ∨ 2 ≤ ch_cluster_ops h ∧ ch_cluster_ops h * 20 < 2 ^ 32).
Definition parse_start (h : CowHeader) : ParseState :=
  mkParse (next_op_pos (InitPos h 0)) (next_data_pos (InitPos h 0)) [] None None false ∅ false.
Definition parsed (h : CowHeader) (size : Z) (um im : bool) (s : ParseState) : CowReader :=
  mkReader h (ps_footer s) size (ps_last_label s) (ps_ops s) 0 [] 0 0 (ps_has_seq_ops s) (ps_data_loc s) um im.

Lemma header_co h : header_ok h → ch_cluster_ops h = 0 ∨ 2 ≤ ch_cluster_ops h ∧ ch_cluster_ops h * 20 < 2 ^ 32.
Proof. by intros (_&_&_&_&_&_&?). Qed.
Lemma zlen_header h : c_wf header_codec h → zlen (c_enc header_codec h) = 38.
Proof. intros. unfold zlen. by rewrite (enc_length h). Qed.
Lemma InitPos_eq h : header_ok h → InitPos h 0 =
  mkPositions (38 + ch_buffer_size h)
    (38 + ch_buffer_size h + (if decide (ch_cluster_ops h = 0) then 20 else ch_cluster_ops h * 20))
    (ch_cluster_ops h * 20) 0 0 0.
Proof.
  intros (_&_&_&_&_&Hb&Hco). unfold InitPos. change (sizeof header_codec) with 38.
  change (sizeof op_codec) with 20. change (0 ≤ ch_buffer_size h ≤ 2097152) in Hb.
  rewrite (u32_small (ch_cluster_ops h * 20)) by lia. rewrite (u64_small (38 + _)) by lia.
  case_decide; rewrite u64_small; lia || done.
Qed.
Lemma good_InitPos h : header_ok h → good (ch_cluster_ops h) (InitPos h 0).
Proof.
  intros Hh. rewrite InitPos_eq by done. destruct Hh as (_&_&_&_&_&Hb&Hco). unfold good. simpl.
  case_decide; lia.
Qed.

Section Parse.
Context {D : Type} `{CF : !CowFile D, LD : !CowFileLaws D}.

Lemma parse_start_at h : at_pos (parse_start h) (InitPos h 0).
Proof. done. Qed.

(** [ParseOps] of a file with the log [L], for either end. *)
Lemma ParseOps_log fuel label h c L tail fin um im (d : D) :
  let p := end_pos (ch_cluster_ops h) (InitPos h 0) L in
  let s := see_log (ch_cluster_ops h) (parse_start h) L in
  header_ok h → (length L + 2 ≤ fuel)%nat → log_ok (ch_cluster_ops h) (InitPos h 0) L →
  laid (ch_cluster_ops h) c (InitPos h 0) L → Forall (λ e, ¬ ends_parse label e.1) L →
  c_wf op_codec tail → holds c (next_op_pos p) (c_enc op_codec tail) →
  finishes (D:=D) (ch_cluster_ops h) c label tail fin p → file_bytes d = c → zlen c < 2 ^ 63 →
  ps_done (fin s) = true → 0 ≤ ps_pos (fin s) < 2 ^ 63 → check_parsed label (fin s) = Ret () →
  ∃ d', file_bytes d' = c ∧
    ParseOps fuel label (set_header (NewCowReader um im) h (zlen c)) d =
      (Ret (parsed h (zlen c) um im (fin s)), d').
Proof.
  intros p s Hh Hfuel HL Hc Hlab Htail Hct Hfin Hd Hsize Hdone Hfpos Hcheck.
  pose proof (header_co h Hh) as Hco. pose proof (good_InitPos h Hh) as Hg.
  pose proof Hh as (_ & _ & Hhs & Hmaj & _ & Hbuf & _).
  unfold ParseOps. change (rd_header (set_header _ h _)) with h.
  set (scratch := decide (2 ≤ ch_major_version h ∧ 0 < ch_buffer_size h)).
  assert (Hpos : (if scratch then u32 (ch_header_size h + ch_buffer_size h) else ch_header_size h) =
                 next_op_pos (InitPos h 0)).
  { rewrite InitPos_eq by done. cbn [next_op_pos]. rewrite Hhs. change (sizeof header_codec) with 38.
    change (0 ≤ ch_buffer_size h ≤ 2097152) in Hbuf.
    destruct scratch as [Hs|Hs]; [by rewrite u32_small by lia|]. change kCowVersionMajor with 2 in Hmaj. lia. }
  assert (Hheader : (if scratch then h else header_set_buffer h 0) = h).
  { destruct scratch as [Hs|Hs]; [done|]. change kCowVersionMajor with 2 in Hmaj.
    assert (ch_buffer_size h = 0) as E by lia. unfold header_set_buffer. rewrite <- E. by destruct h. }
  rewrite Hpos, Hheader. cbv zeta. pose proof Hg as (_&H38&_).
  pose proof (next_op_held (ch_cluster_ops h) c tail _ L HL Hc Htail Hct ltac:(lia)) as Hroom.
  destruct (seek_ok (next_op_pos (InitPos h 0)) d ltac:(lia)) as (d1 & E1 & Hd1 & Hp1).
  rewrite (io_bind_eq _ _ _ _ _ E1).
  assert (Hdata : u64 (next_op_pos (InitPos h 0) +
                    (if decide (ch_cluster_ops h = 0) then 1 else ch_cluster_ops h) * sizeof op_codec) =
                  next_data_pos (InitPos h 0)).
  { rewrite InitPos_eq by done. cbn [next_op_pos next_data_pos]. change (sizeof op_codec) with 20.
    change (0 ≤ ch_buffer_size h ≤ 2097152) in Hbuf. rewrite u64_small; case_decide; lia. }
  rewrite Hdata. change (rd_fd_size _) with (zlen c). change (rd_last_label _) with (@None Z).
  change (rd_footer _) with (@None CowFooter). change (rd_has_seq_ops _) with false.
  fold (parse_start h).
  destruct (parse_clusters_log (ch_cluster_ops h) Hco c label tail fin fuel L (InitPos h 0) (parse_start h) d1)
    as (d2 & E2 & Hd2); try done; [by rewrite Hd1|].
  rewrite (io_bind_eq _ _ _ _ _ E2). fold s. rewrite Hcheck. by exists d2.
Qed.

(** [Parse] up to the order of the merge. *)
Lemma Parse_header label um im h c (d : D) :
  header_ok h → holds c 0 (c_enc header_codec h) → file_bytes d = c →
  ∃ d', file_bytes d' = c ∧ ∀ fuel, Parse fuel label (NewCowReader um im) d =
    (r ← ParseOps fuel label (set_header (NewCowReader um im) h (zlen c));
     match label with Some _ => mret r | None => PrepMergeOps r end) d'.
Proof.
  intros (Hval & Hwf & _) Hc Hd.
  pose proof (zlen_header h Hwf) as Hlen.
  assert (0 + zlen (c_enc header_codec h) ≤ zlen c) as Hsize.
  { apply holds_zlen; [done..|]. intros E. rewrite E in Hlen. done. }
  destruct (seek_end_law d) as (d1 & E1 & Hd1).
  destruct (seek_set_law 0 d1 ltac:(done)) as (d2 & E2 & Hd2 & Hp2).
  assert (0 ≤ file_pos d2) as Hp by lia.
  destruct (read_fully_law (sizeof header_codec) d2 ltac:(done) Hp) as (r & d3 & E3 & Hd3 & H).
  change (sizeof header_codec) with 38 in *.
  rewrite Hp2, Hd2, Hd1, Hd, decide_True in H by lia. destruct H as [-> _].
  exists d3. split; [congruence|]. intros fuel. unfold Parse.
  rewrite (io_bind_eq _ _ _ _ _ E1), (io_bind_eq _ _ _ _ _ E2). change (sizeof header_codec) with 38.
  rewrite (io_bind_eq _ _ _ _ _ E3).
  assert (sub c 0 38 = c_enc header_codec h) as ->.
  { rewrite <- Hlen. by apply holds_sub_exact. }
  rewrite (dec_enc_nil header_codec) by exact Hwf. rewrite Hd. by rewrite io_require.
Qed.

(** The footer that ends [n] operations. *)
Definition footer_of (n : Z) : CowFooter :=
  mkFooter (mkFooterOp kCowFooterOp 0 64 (u64 (n * 20)) n) (mkFooterData (zeroes 32) (zeroes 32)).
Lemma footer_of_wf n : is_u64 n → c_wf footer_codec (footer_of n).
Proof. intros. pose proof (u64_range (n * 20)). by split_and!. Qed.

Lemma not_ending (label : option Z) co p L : co = 0 ∨ 2 ≤ co ∧ co * 20 < 2 ^ 32 → log_ok co p L →
  (∀ l, label = Some l → Forall (λ e, op_type e.1 = kCowLabelOp → op_source e.1 ≠ l) L) →
  Forall (λ e, ¬ ends_parse label e.1) L.
Proof.
  intros Hco. revert p. induction L as [|e L IH]; intros p; [done|].
  intros ((_ & _ & Hf & _) & _ & HL) Hl. constructor.
  - intros [H|[H1 H2]]; [done|]. specialize (Hl _ H2). apply Forall_cons in Hl as [Hl _]. by apply Hl.
  - apply (IH _ HL). intros l Hsome. specialize (Hl l Hsome). by apply Forall_cons in Hl as [_ Hl].
Qed.

(** A file with the log [L] and the footer behind it. *)
Definition finished (c : bytes) (h : CowHeader) (L : list entry) : Prop :=
  let p := end_pos (ch_cluster_ops h) (InitPos h 0) L in
  header_ok h ∧ image_of (ch_cluster_ops h) (c_enc header_codec h) (InitPos h 0) L (mkImage c p) ∧
  holds c (next_op_pos p) (c_enc footer_codec (footer_of (zlen L))) ∧ zlen c < 2 ^ 63.

Lemma Parse_footer fuel um im c h L (d : D) :
  finished c h L → file_bytes d = c → (length L + 2 ≤ fuel)%nat →
  let s := fin_footer (ch_cluster_ops h) (footer_of (zlen L)) (see_log (ch_cluster_ops h) (parse_start h) L) in
  ∃ d', file_bytes d' = c ∧
    Parse fuel None (NewCowReader um im) d = PrepMergeOps (parsed h (zlen c) um im s) d'.
Proof.
  intros (Hh & Him & Hct & Hsize) Hd Hfuel s. pose proof (header_co h Hh) as Hco.
  pose proof (good_InitPos h Hh) as Hg. destruct Him as (_ & _ & HL & _ & Hhd & Hlaid).
  destruct (Parse_header None um im h c d Hh Hhd Hd) as (d1 & Hd1 & E). rewrite E.
  pose proof (good_end _ Hco _ _ Hg HL) as Hge. pose proof Hge as (_ & H38 & _).
  pose proof (end_pos_grows _ Hco _ L Hg HL) as (Hgr & _ & Hnum).
  assert (Hne : c_enc footer_codec (footer_of (zlen L)) ≠ []).
  { rewrite enc_footer. by intros [_ H]%app_eq_nil. }
  assert (Hend0 : next_op_pos (end_pos (ch_cluster_ops h) (InitPos h 0) L) +
                  zlen (c_enc footer_codec (footer_of (zlen L))) ≤ zlen c) by (apply holds_zlen; [lia|done|done]).
  assert (Hn : is_u64 (zlen L)).
  { destruct Hg as (_ & H38' & _). pose proof (zlen_nonneg L).
    pose proof (zlen_nonneg (c_enc footer_codec (footer_of (zlen L)))). lia. }
  pose proof (footer_of_wf _ Hn) as Hwf.
  assert (Hlen : zlen (c_enc footer_codec (footer_of (zlen L))) = 84).
  { unfold zlen at 1. by rewrite (enc_length (footer_of (zlen L))). }
  assert (Hend : next_op_pos (end_pos (ch_cluster_ops h) (InitPos h 0) L) + 84 ≤ zlen c).
  { by rewrite <- Hlen. }
  assert (Hat : at_pos (see_log (ch_cluster_ops h) (parse_start h) L)
                  (end_pos (ch_cluster_ops h) (InitPos h 0) L)) by apply see_log_at, parse_start_at.
  destruct (ParseOps_log fuel None h c L (op_of_footer (cf_op (footer_of (zlen L))))
              (fin_footer (ch_cluster_ops h) (footer_of (zlen L))) um im d1) as (d2 & Hd2 & E2); try done.
  - by eapply not_ending.
  - apply Hwf.
  - rewrite enc_footer in Hct. by apply holds_app in Hct as [? _]; [|lia].
  - by apply footer_finishes.
  - destruct Hat as [Hat _]. unfold fin_footer, set_footer, parse_op. cbn [ps_pos]. rewrite Hat.
    unfold GetNextOpOffset. change (sizeof op_codec) with 20.
    rewrite decide_False, decide_False by (done || by intros [[?|?] _]). rewrite u64_small; lia.
  - unfold check_parsed, fin_footer, set_footer. cbn [ps_footer mbind outcome_mbind ps_ops].
    rewrite see_log_ops. change (ps_ops (parse_start h) ++ L.*1) with (L.*1).
    assert (zlen (L.*1) = zlen L) as -> by (unfold zlen; by rewrite length_fmap).
    rewrite !require_True by done. done.
  - rewrite (io_bind_eq _ _ _ _ _ E2). by exists d2.
Qed.

(** Up to a label it does not matter what follows. *)
Lemma Parse_label fuel um im c h L op (d : D) :
  let p := end_pos (ch_cluster_ops h) (InitPos h 0) L in
  header_ok h → image_of (ch_cluster_ops h) (c_enc header_codec h) (InitPos h 0) L (mkImage c p) →
  holds c (next_op_pos p) (c_enc op_codec op) → c_wf op_codec op → op_type op = kCowLabelOp →
  Forall (λ e, op_type e.1 = kCowLabelOp → op_source e.1 ≠ op_source op) L →
  zlen c < 2 ^ 62 → file_bytes d = c → (length L + 2 ≤ fuel)%nat →
  let s := fin_label (ch_cluster_ops h) op (see_log (ch_cluster_ops h) (parse_start h) L) in
  ∃ d', file_bytes d' = c ∧
    Parse fuel (Some (op_source op)) (NewCowReader um im) d = (Ret (parsed h (zlen c) um im s), d').
Proof.
  intros p Hh Him Hct Hwf Ht Hlab Hsize Hd Hfuel s. pose proof (header_co h Hh) as Hco.
  pose proof (good_InitPos h Hh) as Hg. destruct Him as (_ & _ & HL & _ & Hhd & Hlaid).
  destruct (Parse_header (Some (op_source op)) um im h c d Hh Hhd Hd) as (d1 & Hd1 & E). rewrite E.
  pose proof (good_end _ Hco _ _ Hg HL) as Hge. pose proof Hge as (_ & H38 & _).
  pose proof (zlen_op op Hwf) as Hlen.
  assert (Hend : next_op_pos p + 20 ≤ zlen c).
  { rewrite <- Hlen. apply holds_zlen; [subst p; lia|done|by apply op_not_nil]. }
  assert (Hat : at_pos (see_log (ch_cluster_ops h) (parse_start h) L) p) by apply see_log_at, parse_start_at.
  destruct (ParseOps_log fuel (Some (op_source op)) h c L op (fin_label (ch_cluster_ops h) op) um im d1)
    as (d2 & Hd2 & E2); try done.
  - eapply not_ending; [done|done|]. by intros l [= <-].
  - by apply label_finishes.
  - lia.
  - destruct Hat as [Hat _]. unfold fin_label, set_label, parse_op. cbn [ps_pos]. rewrite Hat.
    unfold GetNextOpOffset. rewrite Ht. change (sizeof op_codec) with 20.
    rewrite decide_False, decide_False by (done || by intros [[?|?] _]). subst p. rewrite u64_small; lia.
  - unfold check_parsed, fin_label, set_label. cbn [ps_last_label mbind outcome_mbind ps_footer parse_op].
    rewrite require_True by done. rewrite see_log_footer. done.
  - rewrite (io_bind_eq _ _ _ _ _ E2). by exists d2.
Qed.
End Parse.

(** ** Reading back data

    [ReadData] gives the block that was compressed into the file, also from a descriptor
    that reads less than it was asked for at a time; only the LZ4 decoder needs its input
    at once. *)

Section Data.
Context {D : Type} `{CF : !CowFile D, LD : !CowFileLaws D}.

(** [read] gives all that there is. *)
Definition full_reads : Prop := ∀ n (d d' : D) bs, 0 ≤ n → 0 ≤ file_pos d →
  read_some n d = (Ret bs, d') → bs = sub (file_bytes d) (file_pos d) n.

(** A range between the header and the footer. *)
Definition in_data (r : CowReader) (c : bytes) (off len : Z) : Prop :=
  rd_fd_size r = zlen c ∧ zlen c < 2 ^ 63 ∧ 0 ≤ ch_header_size (rd_header r) ≤ off ∧ 0 < len ∧
  off + len ≤ zlen c - 84.

Lemma GetRawBytes_ok r c off len (d : D) : file_bytes d = c → in_data r c off len →
  ∃ bs d', GetRawBytes r off len d = (Ret bs, d') ∧ file_bytes d' = c ∧
    bs ≠ [] ∧ bs = take (length bs) (sub c off len) ∧ (full_reads → bs = sub c off len).
Proof.
  intros Hd (Hr & Hsize & Hh & Hlen & Hend). unfold GetRawBytes. rewrite Hr.
  change (sizeof footer_codec) with 84. rewrite (u64_small (zlen c - 84)), (u64_small (off + len)) by lia.
  cbv zeta. rewrite io_require by lia.
  destruct (seek_ok off d ltac:(lia)) as (d1 & E1 & Hd1 & Hp1). rewrite (io_bind_eq _ _ _ _ _ E1).
  assert (0 ≤ file_pos d1) as Hp by lia.
  destruct (read_some_law len d1 ltac:(lia) Hp) as (bs & d2 & E2 & Hd2 & Hbs & Hempty & _).
  exists bs, d2. rewrite Hd1, Hd, Hp1 in Hbs, Hempty. rewrite Hd1, Hd in Hd2.
  pose proof (length_sub c off len ltac:(lia) ltac:(lia) ltac:(lia)) as Hsub.
  split_and!; [done|done| |done|].
  - intros E. apply Hempty in E. rewrite E in Hsub. unfold zlen in Hsub. simpl in Hsub. lia.
  - intros Hfull. specialize (Hfull len d1 d2 bs ltac:(lia) Hp E2). by rewrite Hd1, Hp1, Hd in Hfull.
Qed.

Lemma sub_split c off n k : 0 ≤ off → 0 ≤ k ≤ n → off + n ≤ zlen c →
  sub c off n = sub c off k ++ sub c (off + k) (n - k).
Proof.
  unfold sub, zlen. intros Hoff Hk Hc.
  replace (Z.to_nat n) with (Z.to_nat k + Z.to_nat (n - k))%nat by lia.
  rewrite <- take_take_drop. do 2 f_equal. rewrite drop_drop. f_equal. lia.
Qed.
(** The stream gives the whole range, however short the reads are. *)
Lemma read_stream_ok fuel chunk r c off len (d : D) : 0 < chunk → file_bytes d = c →
  0 ≤ len → (Z.to_nat len ≤ fuel)%nat → (0 < len → in_data r c off len) →
  ∃ d', read_stream fuel chunk r off len d = (Ret (sub c off len), d') ∧ file_bytes d' = c.
Proof.
  intros Hchunk. revert off len d. induction fuel as [|fuel IH]; intros off len d Hd Hlen Hfuel Hin; simpl.
  { assert (len = 0) as -> by lia. exists d. by rewrite decide_True. }
  destruct (decide (len = 0)) as [->|Hne]; [by exists d|].
  unfold stream_Read. rewrite (Z.min_l (chunk `min` len)) by lia.
  pose proof (Hin ltac:(lia)) as (Hr & Hsize & Hh & _ & Hend).
  destruct (GetRawBytes_ok r c off (chunk `min` len) d Hd) as (bs & d1 & E1 & Hd1 & Hne' & Hbs & _).
  { unfold in_data. lia. }
  rewrite decide_False by lia. rewrite (io_bind_eq _ _ _ _ _ E1). rewrite io_require by done.
  assert (Hbl : 0 < zlen bs ≤ chunk `min` len).
  { apply (f_equal length) in Hbs. rewrite length_take in Hbs.
    pose proof (length_sub c off (chunk `min` len) ltac:(lia) ltac:(lia) ltac:(lia)).
    assert (0 < length bs)%nat by (destruct bs; simpl; [done|lia]). unfold zlen in *. lia. }
  destruct (IH (off + zlen bs) (len - zlen bs) d1 Hd1) as (d2 & E2 & Hd2); [lia|lia|unfold in_data; lia|].
  rewrite (io_bind_eq _ _ _ _ _ E2). exists d2. split; [|done].
  assert (bs = sub c off (zlen bs)) as Hprefix.
  { rewrite Hbs at 1. unfold sub. rewrite take_take. f_equal. unfold zlen in *. lia. }
  by rewrite (sub_split c off len (zlen bs)), <- Hprefix by lia.
Qed.

Section Codecs.
Context (inflate brotli_decode LZ4_decompress_safe : bytes → Z → outcome bytes).

(** The block that the data of an operation stands for. *)
Definition decode_data (compression block_size : Z) (data : bytes) : outcome bytes :=
  if decide (compression = kCowCompressNone) then Ret data
  else if decide (compression = kCowCompressGz) then inflate data block_size
  else if decide (compression = kCowCompressBrotli) then brotli_decode data block_size
  else if decide (compression = kCowCompressLz4) then
    if decide (zlen data = block_size) then Ret data
    else out ← LZ4_decompress_safe data block_size; _ ← require (zlen out = block_size); Ret out
  else Reject.

(** Where the data of an operation is, by the reader. *)
Definition data_offset (r : CowReader) (op : CowOperation) : option Z :=
  if decide (op_type op = kCowXorOp) then rd_data_loc r !! op_new_block op else Some (op_source op).

Lemma ReadData_ok r op c off data block (d : D) :
  file_bytes d = c → data_offset r op = Some off → op_data_length op = zlen data →
  in_data r c off (zlen data) → holds c off data →
  (op_compression op = kCowCompressLz4 → full_reads) →
  decode_data (op_compression op) (ch_block_size (rd_header r)) data = Ret block →
  ∃ d', ReadData inflate brotli_decode LZ4_decompress_safe r op d = (Ret block, d') ∧ file_bytes d' = c.
Proof.
  intros Hd Hoff Hlen Hin Hc Hfull Hdec. pose proof Hin as (_ & _ & Hh & Hpos & _).
  assert (Hsub : sub c off (zlen data) = data) by (apply holds_sub_exact; [lia|done]).
  assert (Hstream : ∀ chunk, 0 < chunk → ∃ d',
    read_stream (Z.to_nat (zlen data)) chunk r off (zlen data) d = (Ret data, d') ∧ file_bytes d' = c).
  { intros chunk Hchunk.
    destruct (read_stream_ok (Z.to_nat (zlen data)) chunk r c off (zlen data) d) as (d' & E & Hd');
      [done..|lia|done|done|]. rewrite Hsub in E. by exists d'. }
  assert (Hoff' : lift (if decide (op_type op = kCowXorOp)
                        then access (rd_data_loc r !! op_new_block op) else Ret (op_source op)) d =
                  (Ret off, d)).
  { unfold data_offset in Hoff. case_decide; [by rewrite Hoff|]. by injection Hoff as ->. }
  assert (Hvalid : op_compression op = kCowCompressNone ∨ op_compression op = kCowCompressGz ∨
                   op_compression op = kCowCompressBrotli ∨ op_compression op = kCowCompressLz4).
  { unfold decode_data in Hdec. repeat case_decide; tauto || done. }
  unfold ReadData, decode_data in *. cbv zeta. rewrite io_require by done.
  rewrite (io_bind_eq _ _ _ _ _ Hoff'), Hlen.
  destruct (decide (op_compression op = kCowCompressNone)).
  { injection Hdec as <-. apply (Hstream (zlen data) Hpos). }
  destruct (decide (op_compression op = kCowCompressGz)).
  { destruct (Hstream 4096 ltac:(done)) as (d1 & E1 & Hd1). exists d1. unfold StreamDecompress.
    rewrite (io_bind_eq _ _ _ _ _ E1). by rewrite Hdec. }
  destruct (decide (op_compression op = kCowCompressBrotli)).
  { destruct (Hstream 4096 ltac:(done)) as (d1 & E1 & Hd1). exists d1. unfold StreamDecompress.
    rewrite (io_bind_eq _ _ _ _ _ E1). by rewrite Hdec. }
  destruct (decide (op_compression op = kCowCompressLz4)) as [Hlz4|]; [|done].
  destruct (GetRawBytes_ok r c off (zlen data) d Hd Hin) as (bs & d1 & E1 & Hd1 & _ & _ & Hbs).
  specialize (Hbs (Hfull Hlz4)). rewrite Hsub in Hbs. subst bs.
  assert (Etry : try_ (stream_Read r off (zlen data) (zlen data)) d = (Ret (Some data), d1)).
  { unfold try_, stream_Read. rewrite Z.min_id, decide_False by lia. by rewrite E1. }
  unfold Lz4Decompress. rewrite (io_bind_eq _ _ _ _ _ Etry). cbn [default]. rewrite io_require by done.
  exists d1. split; [|done].
  destruct (decide (zlen data = ch_block_size (rd_header r))); [by injection Hdec as <-|].
  apply bind_Ret in Hdec as (out & Hout & Hdec). inv_ret. unfold id. rewrite Hout.
  erewrite io_bind_eq by reflexivity. by rewrite io_require.
Qed.

(** The libraries undo what they did. *)
Definition codecs_ok (compress2 BrotliEncoderCompress LZ4_compress_default : bytes → option bytes) : Prop :=
  ∀ block c,
    (compress2 block = Some c → inflate c (zlen block) = Ret block) ∧
    (BrotliEncoderCompress block = Some c → brotli_decode c (zlen block) = Ret block) ∧
    (LZ4_compress_default block = Some c → LZ4_decompress_safe c (zlen block) = Ret block).

(** LZ4 data as long as the block is the block itself. *)
Lemma Compress_decodes c2 be lz c block : codecs_ok c2 be lz → Compress c2 be lz c block ≠ [] →
  decode_data c (zlen block) (Compress c2 be lz c block) = Ret block.
Proof.
  intros Hok. unfold Compress, decode_data. destruct (decide (c = kCowCompressNone)) as [->|_].
  { by rewrite !decide_False. }
  destruct (decide (c = kCowCompressGz)).
  { destruct (c2 block) as [x|] eqn:E; [|done]. intros _. simpl. by apply (Hok block x). }
  destruct (decide (c = kCowCompressBrotli)).
  { destruct (be block) as [x|] eqn:E; [|done]. intros _. simpl. by apply (Hok block x). }
  destruct (decide (c = kCowCompressLz4)); [|done].
  destruct (lz block) as [x|] eqn:E; [|done]. destruct (decide (x = [])) as [->|]; [done|].
  intros _. destruct (decide (zlen block ≤ zlen x)); [by rewrite decide_True|].
  rewrite decide_False by lia. rewrite (proj2 (proj2 (Hok block x)) E). simpl.
  by rewrite require_True.
Qed.
End Codecs.
End Data.
