(* ===== verification/CowAppend.v ===== *)
(** * The writer adds to the log

    [WriteOperation] does to an image what [append] does, whether the writer stores every
    operation at once or keeps a cluster in memory: the bytes in memory count as stored. *)
From S2P Require Import Prelude Bytes Device CowFormat CowReader CowWriter CowLog CowParse.

Abbreviation w_co w := (ch_cluster_ops (w_header w)).
(** An entry may depend on the positions at which it is written. *)
Abbreviation maker := (Positions → entry).

Section Append.
Context {D : Type} `{CF : !CowFile D, LD : !CowFileLaws D}.
Implicit Types w : CowWriter D.

(** ** Steps of the monad *)

Lemma get_bind {B} (f : CowWriter D → IO (CowWriter D) B) w : (get_w ≫= f) w = f w w.
Proof. done. Qed.
Lemma modify_bind {B} (g : CowWriter D → CowWriter D) (f : unit → IO (CowWriter D) B) w :
  (modify_w g ≫= f) w = f () (g w).
Proof. done. Qed.
Lemma mret_bind {B} (f : unit → IO (CowWriter D) B) w : (mret () ≫= f) w = f () w.
Proof. done. Qed.
Lemma on_fd_eq {A} (m : IO D A) w a d : m (w_fd w) = (Ret a, d) → on_fd m w = (Ret a, w_set_fd d w).
Proof. intros E. unfold on_fd. by rewrite E. Qed.
Lemma on_fd_bind {A B} (m : IO D A) (f : A → IO (CowWriter D) B) w a d :
  m (w_fd w) = (Ret a, d) → (on_fd m ≫= f) w = f a (w_set_fd d w).
Proof. intros E. by rewrite (io_bind_eq _ _ _ _ _ (on_fd_eq _ _ _ _ E)). Qed.
Lemma checked_seek {A} off (m : IO D A) d : 0 ≤ off < 2 ^ 63 →
  (lift (require (¬ i64 off < 0)) ≫= λ _, m) d = m d.
Proof. intros. by rewrite io_require by (rewrite i64_small; lia). Qed.

(** ** What a writer has written *)

Definition vfile w : bytes :=
  let b := w_batch w in
  store (store (file_bytes (w_fd w)) (current_op_pos b) (c_array op_codec (op_vec b)))
    (current_data_pos b) (concat (data_vec b)).
Definition view w : image := mkImage (vfile w) (w_pos w).
Definition capacity w : Z := match w_fd_kind w with BlockDevice size => size | _ => 2 ^ 63 - 1 end.
(** There is space for one more entry and the end of the cluster. *)
Definition space w (p : Positions) : Prop :=
  fits p ∧ next_data_pos p + cluster_size p + 2 ^ 17 ≤ capacity w.

Definition batch_wf (b : Batch) : Prop :=
  0 ≤ current_op_pos b < 2 ^ 63 ∧ 0 ≤ current_data_pos b < 2 ^ 63 ∧
  Forall (c_wf op_codec) (op_vec b) ∧ Forall (.≠ []) (data_vec b) ∧
  total_data_written b = zlen (concat (data_vec b)).
(** What is kept in memory belongs to the current cluster and continues what is stored. *)
Definition pending_ok w : Prop :=
  let b := w_batch w in let p := w_pos w in
  if w_batch_write w
  then w_co w ≠ 0 ∧ batch_wf b ∧
       current_op_pos b + zlen (op_vec b) * 20 = next_op_pos p ∧
       current_data_pos b + zlen (concat (data_vec b)) = next_data_pos p ∧
       zlen (op_vec b) * 20 ≤ current_cluster_size p ∧
       zlen (concat (data_vec b)) ≤ current_data_size p ∧
       zlen (data_vec b) ≤ zlen (op_vec b)
  else op_vec b = [] ∧ data_vec b = [].
(** Nothing is kept in memory: the file is what was written. *)
Definition settled w : Prop := op_vec (w_batch w) = [] ∧ data_vec (w_batch w) = [].
Lemma settled_vfile w : settled w → vfile w = file_bytes (w_fd w).
Proof. intros [E1 E2]. unfold vfile. by rewrite E1, E2. Qed.
Definition writer_ok w : Prop :=
  (w_co w = 0 ∨ 2 ≤ w_co w ∧ w_co w * 20 < 2 ^ 32) ∧ good (w_co w) (w_pos w) ∧ pending_ok w.
(** The settings, which writing does not change. *)
Definition same_settings w w' : Prop :=
  w_options w' = w_options w ∧ w_header w' = w_header w ∧ w_compression w' = w_compression w ∧
  w_batch_write w' = w_batch_write w ∧ w_num_compress_threads w' = w_num_compress_threads w ∧
  w_fd_kind w' = w_fd_kind w.
Lemma same_settings_refl w : same_settings w w.
Proof. done. Qed.
Lemma same_settings_trans w1 w2 w3 : same_settings w1 w2 → same_settings w2 w3 → same_settings w1 w3.
Proof. intros (?&?&?&?&?&?) (?&?&?&?&?&?). split_and!; congruence. Qed.

Lemma zlen_nil_iff {A} (l : list A) : zlen l = 0 ↔ l = [].
Proof. unfold zlen. destruct l; simpl; split; try done; lia. Qed.
Lemma concat_nil_iff (l : list bytes) : Forall (.≠ []) l → concat l = [] ↔ l = [].
Proof. intros Hl. split; [|by intros ->]. destruct Hl as [|x l Hx _]; [done|]. by intros [??]%app_eq_nil. Qed.

(** [pwritev] of one of the two vectors. *)
Lemma flush_vec (bss : list bytes) off n w : 0 ≤ off < 2 ^ 63 → n = zlen (concat bss) → bss ≠ [] →
  Forall (.≠ []) bss →
  ∃ d, (ret ← on_fd (_ ← lift (require (¬ i64 off < 0)); pwritev bss off);
        lift (require (ret = n)) : IO (CowWriter D) unit) w = (Ret (), w_set_fd d w) ∧
       file_bytes d = store (file_bytes (w_fd w)) off (concat bss).
Proof.
  intros Hoff -> Hne Hall. destruct (pwritev_law bss off (w_fd w) ltac:(lia)) as (d & E & Hd & _).
  exists d. split.
  - rewrite (on_fd_bind _ _ _ (zlen (concat bss)) d) by (by rewrite checked_seek).
    unfold lift. by rewrite require_True.
  - rewrite Hd, store_cons; [done|]. by rewrite concat_nil_iff.
Qed.

Lemma FlushCluster_ok w : batch_wf (w_batch w) →
  ∃ d, FlushCluster w =
    (Ret (), w_set_batch (mkBatch [] [] 0 (next_op_pos (w_pos w)) (next_data_pos (w_pos w))) (w_set_fd d w)) ∧
    file_bytes d = vfile w.
Proof.
  intros (H1 & H2 & Hwf & Hne & Ht).
  unfold FlushCluster. rewrite get_bind. cbv zeta. set (b := w_batch w) in *.
  assert (Hop : ∃ d1, (if decide (op_vec b = []) then mret ()
       else ret ← on_fd (_ ← lift (require (¬ i64 (current_op_pos b) < 0));
                      pwritev (c_enc op_codec <$> op_vec b) (current_op_pos b));
            lift (require (ret = zlen (op_vec b) * sizeof op_codec))) w = (Ret (), w_set_fd d1 w) ∧
       file_bytes d1 = store (file_bytes (w_fd w)) (current_op_pos b) (c_array op_codec (op_vec b))).
  { destruct (decide (op_vec b = [])) as [E|E].
    - exists (w_fd w). rewrite E. split; [by destruct w|done].
    - apply flush_vec; [lia| |by intros ?%fmap_nil_inv|].
      + symmetry. by apply (zlen_c_array op_codec).
      + apply Forall_fmap. eapply Forall_impl; [exact Hwf|]. apply op_not_nil. }
  destruct Hop as (d1 & Eop & Hd1). rewrite (io_bind_eq _ _ _ _ _ Eop).
  assert (Hdata : ∃ d2, (if decide (data_vec b = []) then mret ()
       else ret ← on_fd (_ ← lift (require (¬ i64 (current_data_pos b) < 0));
                      pwritev (data_vec b) (current_data_pos b));
            lift (require (ret = total_data_written b))) (w_set_fd d1 w) = (Ret (), w_set_fd d2 w) ∧
       file_bytes d2 = vfile w).
  { unfold vfile. fold b. rewrite <- Hd1. destruct (decide (data_vec b = [])) as [E|E].
    - exists d1. rewrite E. done.
    - by apply (flush_vec (data_vec b) _ _ (w_set_fd d1 w)); [lia|..]. }
  destruct Hdata as (d2 & Edata & Hd2). rewrite (io_bind_eq _ _ _ _ _ Edata). by exists d2.
Qed.

(** ** One operation *)

Lemma space_ok n w : 0 ≤ n ≤ capacity w → n < 2 ^ 63 → EnsureSpaceAvailable n w = Ret ().
Proof. intros [_ Hn] _. unfold EnsureSpaceAvailable, capacity in *. apply require_True. lia. Qed.
Lemma next_bound w e : (w_co w = 0 ∨ 2 ≤ w_co w ∧ w_co w * 20 < 2 ^ 32) → good (w_co w) (w_pos w) →
  fits (w_pos w) → entry_ok (w_co w) (w_pos w) e →
  0 ≤ next_op_pos (next (w_co w) (w_pos w) e) < 2 ^ 63 ∧ 0 ≤ next_data_pos (next (w_co w) (w_pos w) e) < 2 ^ 63.
Proof.
  intros Hco Hg Hf He. pose proof (good_order _ Hco _ Hg) as Hord.
  pose proof (zlen_nonneg e.2). destruct (proj1 (wf_op _) (proj1 He)) as (_&_&Hl&_).
  rewrite (proj1 (proj2 He)) in Hl. pose proof Hg as (E1&E2&E3&E4&E5&E6&_). unfold fits, max_offset in Hf.
  destruct (decide (op_type e.1 = kCowClusterOp)) as [Ht|Ht].
  - destruct (entry_cluster _ _ _ He Ht) as [Hne ->]. rewrite next_cluster by done. simpl. lia.
  - rewrite next_other by done. case_decide; simpl; lia.
Qed.

(** The batch with one more entry. *)
Definition batch_add (b : Batch) (e : entry) : Batch :=
  mkBatch (op_vec b ++ [e.1]) (if decide (e.2 = []) then data_vec b else data_vec b ++ [e.2])
    (total_data_written b + zlen e.2) (current_op_pos b) (current_data_pos b).
Lemma concat_batch_add b e : concat (data_vec (batch_add b e)) = concat (data_vec b) ++ e.2.
Proof.
  simpl. case_decide as E; [by rewrite E, app_nil_r|]. by rewrite concat_app, concat_cons, app_nil_r.
Qed.
Lemma batch_add_wf b e : c_wf op_codec e.1 → batch_wf b → batch_wf (batch_add b e).
Proof.
  intros He (H1 & H2 & H3 & H4 & H5). split_and!; [by apply H1|by apply H1|by apply H2|by apply H2| | |].
  - apply Forall_app. split; [done|by apply Forall_singleton].
  - simpl. case_decide; [done|]. apply Forall_app. split; [done|by apply Forall_singleton].
  - rewrite concat_batch_add, zlen_app. simpl. by rewrite H5.
Qed.
Lemma batch_empty_wf a b : 0 ≤ a < 2 ^ 63 → 0 ≤ b < 2 ^ 63 → batch_wf (mkBatch [] [] 0 a b).
Proof. intros Ha Hb. split; [done|]. split; [done|]. split_and!; [apply Forall_nil_2|apply Forall_nil_2|done]. Qed.
Lemma batch_operation_ok w e : w_batch_write w = true → writer_ok w →
  zlen e.2 ≤ ch_block_size (w_header w) * 2 → batch_operation e.1 e.2 w = Ret (batch_add (w_batch w) e).
Proof.
  intros Hb (Hco & Hg & Hp) Hlen. unfold pending_ok in Hp. rewrite Hb in Hp.
  destruct Hp as (Hne & _ & _ & _ & Hops & _ & Hdata). pose proof Hg as (E1&_&_&_&_&_&Hc).
  rewrite decide_False in Hc by done. unfold batch_operation, batch_add. cbv zeta.
  rewrite (CHECK_True (zlen (op_vec (w_batch w)) < w_co w)) by lia. cbn [mbind outcome_mbind].
  destruct (decide (e.2 = [])) as [E|E].
  - rewrite E. change (zlen []) with 0. by rewrite Z.add_0_r.
  - by rewrite CHECK_True by lia.
Qed.
(** Adding to the batch is adding to the file. *)
Lemma vfile_batch_add w e : w_batch_write w = true → writer_ok w → c_wf op_codec e.1 →
  vfile (w_set_batch (batch_add (w_batch w) e) w) = im_bytes (put (w_co w) (view w) e).
Proof.
  intros Hb (Hco & Hg & Hp) He. unfold pending_ok in Hp. rewrite Hb in Hp.
  destruct Hp as (Hne & (H1 & H2 & Hwf & _) & E1 & E2 & _ & Hcds & _).
  pose proof (good_order _ Hco _ Hg) as Hord. pose proof (zlen_op _ He) as Hlen.
  pose proof (zlen_nonneg (op_vec (w_batch w))). pose proof (zlen_nonneg (concat (data_vec (w_batch w)))).
  unfold vfile, put, view. cbn [w_batch w_fd w_set_batch im_bytes im_pos].
  rewrite concat_batch_add. cbn [batch_add op_vec current_op_pos current_data_pos].
  unfold c_array. rewrite fmap_app, concat_app. cbn [fmap list_fmap concat]. rewrite app_nil_r.
  fold (c_array op_codec (op_vec (w_batch w))).
  rewrite (store_app _ (current_op_pos _)), (store_app _ (current_data_pos _)) by lia.
  rewrite (zlen_c_array op_codec) by done. change (sizeof op_codec) with 20. rewrite E1, E2. unfold vfile.
  f_equal. apply store_comm; lia.
Qed.

(** Storing at once. *)
Lemma write_operation_ok w e : 0 ≤ next_op_pos (w_pos w) < 2 ^ 63 → 0 ≤ next_data_pos (w_pos w) < 2 ^ 63 →
  c_wf op_codec e.1 →
  ∃ d, write_operation e.1 e.2 w = (Ret (), w_set_fd d w) ∧
    file_bytes d = store (store (file_bytes (w_fd w)) (next_op_pos (w_pos w)) (c_enc op_codec e.1))
                     (next_data_pos (w_pos w)) e.2.
Proof.
  intros Hop Hdata He. unfold write_operation. rewrite get_bind.
  destruct (seek_ok _ (w_fd w) Hop) as (d1 & E1 & Hd1 & Hp1). rewrite (on_fd_bind _ _ _ _ _ E1).
  destruct (write_fully_law (c_enc op_codec e.1) d1 ltac:(rewrite Hp1; lia)) as (d2 & E2 & Hd2 & _).
  rewrite (on_fd_bind _ _ (w_set_fd d1 w) _ _ E2). rewrite Hd1, Hp1 in Hd2.
  rewrite (store_cons _ _ (c_enc op_codec e.1)) by by apply op_not_nil. rewrite <- Hd2.
  destruct (decide (e.2 = [])) as [E|E]; [exists d2; by rewrite E|].
  unfold WriteRawData. rewrite get_bind.
  destruct (write_at_law e.2 (next_data_pos (w_pos w)) d2 ltac:(lia)) as (d3 & E3 & Hd3 & _).
  exists d3. rewrite store_cons by done. split; [|done].
  apply (on_fd_eq _ (w_set_fd d2 (w_set_fd d1 w))). by rewrite checked_seek.
Qed.

(** What the batch limits. *)
Definition data_fits w (e : entry) : Prop :=
  w_batch_write w = true → zlen e.2 ≤ ch_block_size (w_header w) * 2.

(** The first half of [WriteOperation]: the operation is stored or kept. *)
Lemma store_or_keep w e : writer_ok w → entry_ok (w_co w) (w_pos w) e → space w (w_pos w) → data_fits w e →
  ∃ w1, (if w_batch_write w
         then b ← lift (batch_operation e.1 e.2 w); modify_w (w_set_batch b)
         else write_operation e.1 e.2) w = (Ret (), w1) ∧
    vfile w1 = im_bytes (put (w_co w) (view w) e) ∧ same_settings w w1 ∧ w_pos w1 = w_pos w ∧
    w_ops_size w1 = w_ops_size w ∧
    w_batch w1 = if w_batch_write w then batch_add (w_batch w) e else w_batch w.
Proof.
  intros Hok He [Hf _] Hdata. destruct (w_batch_write w) eqn:Hb.
  - rewrite (batch_operation_ok _ _ Hb Hok (Hdata Hb)).
    exists (w_set_batch (batch_add (w_batch w) e) w). split_and!; try done.
    apply vfile_batch_add; [done..|apply He].
  - destruct Hok as (Hco & Hg & Hp). pose proof (good_order _ Hco _ Hg) as Hord.
    destruct Hg as (E1&E2&E3&E4&E5&E6&_). unfold fits, max_offset in Hf.
    destruct (write_operation_ok w e ltac:(lia) ltac:(lia) (proj1 He)) as (d & E & Hd).
    exists (w_set_fd d w). split_and!; try done.
    unfold pending_ok in Hp. rewrite Hb in Hp. destruct Hp as [Hp1 Hp2].
    unfold put, view, vfile. cbn [w_set_fd w_batch w_fd im_bytes im_pos]. by rewrite Hp1, Hp2.
Qed.

(** The invariant when nothing is flushed. *)
Lemma kept_ok w e : writer_ok w → entry_ok (w_co w) (w_pos w) e → fits (w_pos w) →
  (w_batch_write w = true → op_type e.1 ≠ kCowClusterOp) →
  let w2 := w_set_pos (next (w_co w) (w_pos w) e)
              (w_set_batch (if w_batch_write w then batch_add (w_batch w) e else w_batch w) w) in
  pending_ok w2.
Proof.
  intros (Hco & Hg & Hp) He Hf Ht w2. unfold pending_ok in *. subst w2. cbn [w_batch w_pos w_set_pos w_set_batch w_batch_write w_header].
  destruct (w_batch_write w); [|done]. destruct Hp as (Hne & Hwf & E1 & E2 & E3 & E4 & E5).
  rewrite next_other by (done || by apply Ht). rewrite decide_False by done.
  cbn [next_op_pos next_data_pos current_cluster_size current_data_size].
  pose proof (zlen_nonneg e.2). split; [done|]. split; [by apply batch_add_wf; [apply He|]|].
  rewrite concat_batch_add, zlen_app. unfold batch_add. cbn [op_vec current_op_pos current_data_pos].
  rewrite zlen_app. change (zlen [e.1]) with 1. split_and!; try lia.
  cbn [data_vec]. destruct (decide (e.2 = [])); [lia|]. rewrite zlen_app. change (zlen [e.2]) with 1. lia.
Qed.

(** One operation, and what [WriteOperation] goes on with. *)
Lemma write_one fuel w e : writer_ok w → entry_ok (w_co w) (w_pos w) e → space w (w_pos w) → data_fits w e →
  ∃ w', WriteOperation_ (S fuel) e.1 e.2 w =
      (if cluster_full (w_pos w') then WriteOperation_ fuel (cluster_op (w_pos w')) [] else mret ()) w' ∧
    view w' = put (w_co w) (view w) e ∧ writer_ok w' ∧ same_settings w w' ∧ w_ops_size w' = w_ops_size w ∧
    (op_type e.1 = kCowLabelOp ∨ op_type e.1 = kCowClusterOp → settled w').
Proof.
  intros Hok He Hsp Hdata. pose proof Hok as (Hco & Hg & Hp). pose proof Hsp as [Hf Hcap].
  pose proof (good_order _ Hco _ Hg) as Hord. pose proof Hg as (E1&E2&E3&E4&E5&E6&_).
  pose proof (zlen_nonneg e.2). destruct (proj1 (wf_op _) (proj1 He)) as (_&_&Hl&_).
  rewrite (proj1 (proj2 He)) in Hl. unfold fits, max_offset in Hf.
  cbn [WriteOperation_]. rewrite get_bind. change (sizeof op_codec) with 20. rewrite !u64_small by lia.
  rewrite (space_ok (next_op_pos (w_pos w) + 20)), (space_ok (next_data_pos (w_pos w) + zlen e.2)) by lia.
  change (lift (Ret ()) ≫= ?f) with (lift (S:=CowWriter D) (Ret ()) ≫= f).
  do 2 (erewrite (io_bind_eq (lift (Ret ()))) by reflexivity).
  destruct (store_or_keep w e Hok He Hsp Hdata) as (w1 & Estore & Hv & Hset & Hp1 & Hos1 & Hb1).
  rewrite (io_bind_eq _ _ _ _ _ Estore), modify_bind, get_bind.
  pose proof Hset as (Hs1&Hs2&Hs3&Hs4&Hs5&Hs6).
  set (w2 := w_set_pos _ w1). assert (Hw2 : w_pos w2 = next (w_co w) (w_pos w) e).
  { subst w2. cbn [w_pos w_set_pos]. by rewrite Hs2, Hp1. }
  assert (Hv2 : view w2 = put (w_co w) (view w) e).
  { unfold view. rewrite Hw2. change (vfile w2) with (vfile w1). by rewrite Hv. }
  pose proof (good_next _ Hco _ _ Hg (proj1 Hsp) He) as Hg2.
  pose proof (next_bound w e Hco Hg (proj1 Hsp) He) as [Hb2 Hb3].
  assert (Hset2 : same_settings w w2) by done.
  assert (Hh2 : w_header w2 = w_header w) by exact Hs2.
  assert (Hbw : w_batch w2 = if w_batch_write w then batch_add (w_batch w) e else w_batch w) by done.
  assert (Hbatch : w_batch_write w2 = w_batch_write w) by done.
  match goal with |- context [if w_batch_write w2 && ?c then _ else _] => set (flush := c) end.
  destruct (w_batch_write w2 && flush) eqn:Hflush.
  - apply andb_prop in Hflush as [Hb Hflush]. rewrite Hbatch in Hb.
    assert (Hwf : batch_wf (w_batch w2)).
    { rewrite Hbw, Hb. apply batch_add_wf; [apply He|]. unfold pending_ok in Hp. rewrite Hb in Hp. apply Hp. }
    destruct (FlushCluster_ok w2 Hwf) as (d & Ef & Hd). rewrite (io_bind_eq _ _ _ _ _ Ef).
    exists (w_set_batch (mkBatch [] [] 0 (next_op_pos (w_pos w2)) (next_data_pos (w_pos w2))) (w_set_fd d w2)).
    split; [done|]. split; [|split; [|done]; split_and!].
    + rewrite <- Hv2. unfold view at 1. unfold vfile. cbn [w_set_batch w_batch w_fd w_set_fd w_pos].
      cbn [current_op_pos op_vec current_data_pos data_vec]. by rewrite Hd.
    + cbn [w_set_batch w_set_fd w_header]. by rewrite Hh2.
    + cbn [w_set_batch w_set_fd w_header w_pos]. rewrite Hw2. by rewrite Hh2.
    + unfold pending_ok. cbn [w_set_batch w_set_fd w_batch_write]. rewrite Hbatch, Hb.
      cbn [w_set_batch w_set_fd w_header w_batch w_pos op_vec data_vec current_op_pos current_data_pos total_data_written].
      rewrite Hw2. rewrite Hh2.
      unfold pending_ok in Hp. rewrite Hb in Hp. destruct Hg2 as (_&_&_&_&?&?&_).
      split; [apply Hp|]. split; [by apply batch_empty_wf|].
      change (zlen (concat [])) with 0. change (zlen (@nil CowOperation)) with 0.
      change (zlen (@nil bytes)) with 0. lia.
  - rewrite mret_bind. exists w2. split; [done|]. split; [done|]. split; [|split; [done|split; [done|]]].
    2:{ intros Hend. destruct (w_batch_write w) eqn:Hb.
        - rewrite Hbatch in Hflush. simpl in Hflush. subst flush. apply bool_decide_eq_false in Hflush. tauto.
        - unfold settled. rewrite Hbw. unfold pending_ok in Hp. by rewrite Hb in Hp. }
    split; [by rewrite Hh2|]. split; [by rewrite Hh2, Hw2|].
    assert (Hk : pending_ok (w_set_pos (next (w_co w) (w_pos w) e)
              (w_set_batch (if w_batch_write w then batch_add (w_batch w) e else w_batch w) w))).
    { apply kept_ok; [done..|]. intros Hb Ht. rewrite Hbatch, Hb in Hflush. simpl in Hflush.
      subst flush. apply bool_decide_eq_false in Hflush. tauto. }
    unfold pending_ok in *. rewrite Hbatch, Hw2, Hbw. cbn [w_set_pos w_set_batch w_batch_write w_header w_batch w_pos] in Hk.
    by rewrite Hh2.
Qed.

(** ** Operations in sequence *)

(** The entries that makers lead to, with the ends of the clusters. *)
Fixpoint written (co : Z) (p : Positions) (ms : list maker) : list entry :=
  match ms with
  | [] => []
  | m :: ms => extension co p (m p) ++ written co (end_pos co p (extension co p (m p))) ms
  end.
(** They are operations that may be added, and there is space for them. *)
Fixpoint writable w (p : Positions) (ms : list maker) : Prop :=
  match ms with
  | [] => True
  | m :: ms => entry_ok (w_co w) p (m p) ∧ data_fits w (m p) ∧ space w p ∧ space w (next (w_co w) p (m p)) ∧
      writable w (end_pos (w_co w) p (extension (w_co w) p (m p))) ms
  end.
(** Between two requests there is room for an operation in the cluster. *)
Definition idle w : Prop := writer_ok w ∧ cluster_full (w_pos w) = false.
(** The call adds these entries. *)
Definition emits w0 (m : IO (CowWriter D) unit) (ms : list maker) : Prop :=
  ∀ w, same_settings w0 w → idle w → writable w0 (w_pos w) ms →
  ∃ w', m w = (Ret (), w') ∧
    view w' = foldl (put (w_co w0)) (view w) (written (w_co w0) (w_pos w) ms) ∧
    idle w' ∧ same_settings w0 w' ∧ w_ops_size w' = w_ops_size w.

Lemma put_pos co im e : im_pos (put co im e) = next co (im_pos im) e.
Proof. done. Qed.
Lemma puts_pos co im L : im_pos (foldl (put co) im L) = end_pos co (im_pos im) L.
Proof. revert im. induction L as [|e L IH]; intros im; [done|]. apply IH. Qed.
Lemma cluster_entry_ok co p : (co = 0 ∨ 2 ≤ co ∧ co * 20 < 2 ^ 32) → good co p → co ≠ 0 →
  entry_ok co p (cluster_entry p).
Proof.
  intros Hco Hg Hne. split_and!; [|done|done|done].
  apply wf_op. split; [done|]. split; [done|]. split; [done|]. split; [done|]. apply u64_range.
Qed.
Lemma cluster_full_co co p : good co p → cluster_full p = true → co ≠ 0.
Proof.
  unfold cluster_full. intros (E&_) [H _]%andb_prop ->. apply bool_decide_eq_true in H. lia.
Qed.
Lemma cluster_fresh co p : (co = 0 ∨ 2 ≤ co ∧ co * 20 < 2 ^ 32) → good co p → co ≠ 0 → fits p →
  cluster_full (next co p (cluster_entry p)) = false.
Proof.
  intros Hco Hg Hne Hf. rewrite next_cluster by done. unfold cluster_full. cbn [cluster_size current_cluster_size].
  pose proof Hg as (E&_). rewrite (bool_decide_false (_ < _)); [by rewrite andb_false_r|].
  change (sizeof op_codec) with 20. lia.
Qed.

Lemma WriteOperation_emits w0 (f : CowWriter D → IO (CowWriter D) unit) (m : maker) :
  (∀ w, same_settings w0 w → f w = WriteOperation (m (w_pos w)).1 (m (w_pos w)).2) →
  emits w0 (w ← get_w; f w) [m].
Proof.
  intros Hf w Hset [Hok Hfull] (He & Hdata & Hsp & Hsp' & _). rewrite get_bind, Hf by done.
  pose proof Hset as (_&Hh&_&Hb&_&Hk). set (e := m (w_pos w)) in *.
  assert (Hspace : ∀ w' p, same_settings w0 w' → space w0 p → space w' p).
  { intros w' p (_&_&_&_&_&E) [? ?]. split; [done|]. unfold capacity. by rewrite E. }
  rewrite <- Hh in He. unfold WriteOperation.
  destruct (write_one 2 w e Hok He (Hspace w _ Hset Hsp)) as (w1 & E1 & Hv1 & Hok1 & Hs1 & Ho1 & _).
  { unfold data_fits. rewrite Hb, Hh. exact Hdata. }
  rewrite E1. rewrite Hh in Hv1.
  assert (Hp1 : w_pos w1 = next (w_co w0) (w_pos w) e) by exact (f_equal im_pos Hv1).
  pose proof (same_settings_trans _ _ _ Hset Hs1) as Hs01. pose proof Hok1 as (Hco1 & Hg1 & _).
  pose proof Hs01 as (_&Hh1&_).
  cbn [written]. fold e. unfold extension. rewrite <- Hp1. rewrite app_nil_r.
  destruct (cluster_full (w_pos w1)) eqn:Hfull1; [|by exists w1].
  pose proof (cluster_full_co _ _ Hg1 Hfull1) as Hne.
  rewrite <- Hp1 in Hsp'. pose proof (Hspace w1 _ Hs01 Hsp') as Hsp1.
  assert (Hdata1 : data_fits w1 (cluster_entry (w_pos w1))).
  { intros Hb1. destruct Hs1 as (_&Hh1'&_&Hb1'&_). rewrite Hb1', Hb in Hb1. specialize (Hdata Hb1).
    rewrite Hh1. pose proof (zlen_nonneg e.2). change (zlen (cluster_entry (w_pos w1)).2) with 0. lia. }
  destruct (write_one 1 w1 _ Hok1 (cluster_entry_ok _ _ Hco1 Hg1 Hne) Hsp1 Hdata1)
    as (w2 & E2 & Hv2 & Hok2 & Hs2 & Ho2 & _).
  cbn [fst snd cluster_entry] in E2. rewrite E2.
  assert (Hp2 : w_pos w2 = next (w_co w1) (w_pos w1) (cluster_entry (w_pos w1))) by exact (f_equal im_pos Hv2).
  assert (Hfresh : cluster_full (w_pos w2) = false).
  { rewrite Hp2. apply cluster_fresh; [done..|apply Hsp1]. }
  rewrite Hfresh. exists w2. split; [done|]. split.
  { rewrite Hv2, Hh1, Hv1. done. }
  split; [done|]. split; [by eapply same_settings_trans|congruence].
Qed.

(** *** Composition *)

Lemma written_app co p ms ms' :
  written co p (ms ++ ms') = written co p ms ++ written co (end_pos co p (written co p ms)) ms'.
Proof.
  revert p. induction ms as [|m ms IH]; intros p; [done|]. cbn [written app].
  by rewrite IH, end_pos_app, (assoc_L (++)).
Qed.
Lemma writable_app w p ms ms' :
  writable w p (ms ++ ms') ↔ writable w p ms ∧ writable w (end_pos (w_co w) p (written (w_co w) p ms)) ms'.
Proof.
  revert p. induction ms as [|m ms IH]; intros p; [simpl; tauto|]. cbn [writable written app].
  rewrite IH, end_pos_app. tauto.
Qed.
Lemma emits_nil w0 : emits w0 (mret ()) [].
Proof. intros w Hset Hid _. by exists w. Qed.
Lemma emits_bind w0 m m' ms ms' : emits w0 m ms → emits w0 m' ms' → emits w0 (_ ← m; m') (ms ++ ms').
Proof.
  intros H H' w Hset Hid Hw. apply writable_app in Hw as [Hw Hw'].
  destruct (H w Hset Hid Hw) as (w1 & E1 & Hv1 & Hid1 & Hs1 & Ho1). rewrite (io_bind_eq _ _ _ _ _ E1).
  assert (Hp1 : w_pos w1 = end_pos (w_co w0) (w_pos w) (written (w_co w0) (w_pos w) ms)).
  { rewrite <- (puts_pos (w_co w0) (view w)), <- Hv1. done. }
  rewrite <- Hp1 in Hw'. destruct (H' w1 Hs1 Hid1 Hw') as (w2 & E2 & Hv2 & Hid2 & Hs2 & Ho2).
  exists w2. split; [done|]. split; [|split; [done|split; [done|congruence]]].
  by rewrite written_app, foldl_app, <- Hp1, <- Hv1.
Qed.
Lemma emits_bind' w0 m m' ms ms' ms'' : ms'' = ms ++ ms' → emits w0 m ms → emits w0 m' ms' →
  emits w0 (_ ← m; m') ms''.
Proof. intros ->. apply emits_bind. Qed.
(** A call that adds nothing. *)
Lemma emits_after w0 m m' ms : emits w0 m ms → emits w0 m' [] → emits w0 (_ ← m; m') ms.
Proof. intros. apply (emits_bind' _ _ _ ms []); [by rewrite app_nil_r|done..]. Qed.
Lemma emits_before w0 m m' ms : emits w0 m [] → emits w0 m' ms → emits w0 (_ ← m; m') ms.
Proof. intros. by apply (emits_bind' _ _ _ [] ms). Qed.
Lemma emits_lift w0 : emits w0 (lift (Ret ())) [].
Proof. intros w Hset Hid _. by exists w. Qed.
Lemma emits_get w0 f ms : (∀ w1, same_settings w0 w1 → emits w0 (f w1) ms) → emits w0 (w ← get_w; f w) ms.
Proof. intros H w Hset Hid Hw. rewrite get_bind. by apply (H w Hset). Qed.
Lemma emits_op w0 e : emits w0 (WriteOperation e.1 e.2) [λ _, e].
Proof.
  intros w Hset Hid Hw.
  by apply (WriteOperation_emits w0 (λ _, WriteOperation e.1 e.2) (λ _, e)).
Qed.
(** The caller that does not look at the result. *)
Lemma emits_try w0 m ms : emits w0 m ms → emits w0 (_ ← try_ m; mret ()) ms.
Proof.
  intros H w Hset Hid Hw. destruct (H w Hset Hid Hw) as (w1 & E1 & H1).
  exists w1. split; [|done].
  assert (E : try_ m w = (Ret (Some ()), w1)) by (unfold try_; by rewrite E1).
  by rewrite (io_bind_eq _ _ _ _ _ E).
Qed.
Lemma emits_for_blocks w0 n i f mk : (∀ j, emits w0 (f j) [mk j]) →
  emits w0 (for_blocks n i f) (mk <$> seqZ i (Z.of_nat n)).
Proof.
  intros H. revert i. induction n as [|n IH]; intros i; [apply emits_nil|]. cbn [for_blocks].
  rewrite seqZ_cons by lia. apply (emits_bind' _ _ _ [mk i] (mk <$> seqZ (i + 1) (Z.of_nat n))); [|done|done].
  cbn [fmap list_fmap app]. repeat f_equal; lia.
Qed.
Lemma Sync_emits w0 : emits w0 Sync [].
Proof.
  intros w Hset Hid _. unfold Sync. rewrite get_bind.
  assert (Hsync : ∃ d, on_fd fsync w = (Ret (), w_set_fd d w) ∧ file_bytes d = file_bytes (w_fd w)).
  { destruct (fsync_law (w_fd w)) as (d & E & Hd & _). exists d. split; [by apply on_fd_eq|done]. }
  destruct Hsync as (d & E & Hd).
  assert (Hres : ∃ w', on_fd fsync w = (Ret (), w') ∧ view w' = view w ∧ idle w' ∧
                  same_settings w0 w' ∧ w_ops_size w' = w_ops_size w).
  { exists (w_set_fd d w). split; [done|]. split; [|done]. unfold view, vfile. cbn [w_set_fd w_fd w_batch w_pos].
    by rewrite Hd. }
  destruct (w_fd_kind w); [by exists w|done|done].
Qed.

(** ** The log that is written *)

Lemma extension_ok co p e : (co = 0 ∨ 2 ≤ co ∧ co * 20 < 2 ^ 32) → good co p → entry_ok co p e → fits p →
  fits (next co p e) →
  log_ok co p (extension co p e) ∧ good co (end_pos co p (extension co p e)) ∧
  cluster_full (end_pos co p (extension co p e)) = false.
Proof.
  intros Hco Hg He Hf Hf'. pose proof (good_next _ Hco _ _ Hg Hf He) as Hg'. unfold extension.
  destruct (cluster_full (next co p e)) eqn:Hfull; [|done].
  pose proof (cluster_full_co _ _ Hg' Hfull) as Hne.
  pose proof (cluster_entry_ok co _ Hco Hg' Hne) as Hc. split_and!; [done| |].
  - cbn [end_pos foldl]. by apply good_next.
  - cbn [end_pos foldl]. by apply cluster_fresh.
Qed.
Lemma written_ok w p ms : (w_co w = 0 ∨ 2 ≤ w_co w ∧ w_co w * 20 < 2 ^ 32) → good (w_co w) p →
  cluster_full p = false → writable w p ms →
  log_ok (w_co w) p (written (w_co w) p ms) ∧ good (w_co w) (end_pos (w_co w) p (written (w_co w) p ms)) ∧
  cluster_full (end_pos (w_co w) p (written (w_co w) p ms)) = false.
Proof.
  intros Hco. revert p. induction ms as [|m ms IH]; intros p Hg Hfull; [done|].
  cbn [writable written]. intros (He & _ & [Hf _] & [Hf' _] & Hw).
  destruct (extension_ok _ _ _ Hco Hg He Hf Hf') as (H1 & H2 & H3).
  destruct (IH _ H2 H3 Hw) as (H4 & H5 & H6). rewrite log_ok_app, end_pos_app by done. done.
Qed.

(** Entries that may be added wherever there is room. *)
Definition maker_ok w (m : maker) : Prop :=
  (∀ p, good (w_co w) p → fits p → cluster_full p = false → entry_ok (w_co w) p (m p)) ∧
  (∀ p, data_fits w (m p)).
(** The image does not outgrow its place. *)
Fixpoint fitting w (p : Positions) (ms : list maker) : Prop :=
  match ms with
  | [] => True
  | m :: ms => space w p ∧ space w (next (w_co w) p (m p)) ∧
      fitting w (end_pos (w_co w) p (extension (w_co w) p (m p))) ms
  end.
Lemma fitting_app w p ms ms' :
  fitting w p (ms ++ ms') ↔ fitting w p ms ∧ fitting w (end_pos (w_co w) p (written (w_co w) p ms)) ms'.
Proof.
  revert p. induction ms as [|m ms IH]; intros p; [simpl; tauto|]. cbn [fitting written app].
  rewrite IH, end_pos_app. tauto.
Qed.
Lemma fitting_writable w p ms : (w_co w = 0 ∨ 2 ≤ w_co w ∧ w_co w * 20 < 2 ^ 32) → good (w_co w) p →
  cluster_full p = false → Forall (maker_ok w) ms → fitting w p ms → writable w p ms.
Proof.
  intros Hco. revert p. induction ms as [|m ms IH]; intros p Hg Hfull; [done|].
  intros [[Hm Hd] Hms]%Forall_cons (Hsp & Hsp' & Hfit). pose proof (Hm p Hg (proj1 Hsp) Hfull) as He.
  destruct (extension_ok _ _ _ Hco Hg He (proj1 Hsp) (proj1 Hsp')) as (_ & H2 & H3).
  cbn [writable]. split; [done|]. split; [apply Hd|]. split; [done|]. split; [done|]. by apply IH.
Qed.
End Append.
