(* ===== verification/CowRequest.v ===== *)
(** * Requests and the entries they lead to

    What the calls of the writer's interface add to the log, for every compression and
    number of threads. *)
From S2P Require Import Prelude Bytes Device CowFormat CowReader CowWriter CowLog CowParse CowAppend.

Inductive request :=
  | RCopy (new_block old_block num_blocks : Z)
  | RRaw (new_block : Z) (data : bytes)
  | RXor (new_block : Z) (data : bytes) (old_block offset : Z)
  | RZero (new_block num_blocks : Z)
  | RLabel (label : Z)
  | RSequence (data : list Z).

Section Request.
Context (compress2 BrotliEncoderCompress LZ4_compress_default : bytes → option bytes).
Context {D : Type} `{CF : !CowFile D, LD : !CowFileLaws D}.
Abbreviation compressed := (Compress compress2 BrotliEncoderCompress LZ4_compress_default).

Definition perform (r : request) : IO (CowWriter D) unit :=
  match r with
  | RCopy new_block old_block num_blocks => AddCopy new_block old_block num_blocks
  | RRaw new_block data => AddRawBlocks compress2 BrotliEncoderCompress LZ4_compress_default new_block data
  | RXor new_block data old_block offset =>
      AddXorBlocks compress2 BrotliEncoderCompress LZ4_compress_default new_block data old_block offset
  | RZero new_block num_blocks => AddZeroBlocks new_block num_blocks
  | RLabel label => AddLabel label
  | RSequence data => AddSequenceData data
  end.
Fixpoint perform_all (rs : list request) : IO (CowWriter D) unit :=
  match rs with [] => mret () | r :: rs => _ ← perform r; perform_all rs end.

(** ** The workers *)

(** Data that fits the length field. *)
Definition storable (data : bytes) : Prop := data ≠ [] ∧ zlen data < 2 ^ 16.
Lemma worker_ok c blocks : Forall (λ b, storable (compressed c b)) blocks →
  CompressWorker_CompressBlocks compress2 BrotliEncoderCompress LZ4_compress_default c blocks =
    Ret (compressed c <$> blocks).
Proof.
  unfold CompressWorker_CompressBlocks. induction 1 as [|b blocks [Hne Hlen] _ IH]; [done|].
  cbn [mapM fmap list_fmap]. rewrite (require_True (compressed c b ≠ [])) by done.
  rewrite (require_True (_ ≤ _)) by lia. cbn [mbind outcome_mbind]. by rewrite IH.
Qed.
Lemma shares_ok c threads share blocks : Forall (λ b, storable (compressed c b)) blocks → (0 < threads)%nat →
  compress_shares compress2 BrotliEncoderCompress LZ4_compress_default c threads share blocks =
    Ret (compressed c <$> blocks).
Proof.
  revert blocks. induction threads as [|threads IH]; intros blocks Hb Ht; [lia|].
  cbn [compress_shares]. destruct threads as [|threads]; [by apply worker_ok|].
  rewrite worker_ok by by apply Forall_take. cbn [mbind outcome_mbind].
  rewrite IH by (done || lia || by apply Forall_drop). cbn [mbind outcome_mbind].
  by rewrite <- fmap_app, take_drop.
Qed.
(** However many threads there are, the buffers are those of the blocks in order. *)
Lemma CompressBlocks_ok c threads blocks : Forall (λ b, storable (compressed c b)) blocks →
  CompressBlocks compress2 BrotliEncoderCompress LZ4_compress_default c threads blocks =
    Ret (compressed c <$> blocks).
Proof.
  intros Hb. unfold CompressBlocks. cbv zeta.
  destruct (decide _) as [|Hn]; [by apply worker_ok|]. apply shares_ok; [done|lia].
Qed.

(** ** Makers *)

Context (w0 : CowWriter D).
Abbreviation block_size := (ch_block_size (w_header w0)).
Abbreviation compression := (w_compression w0).

Definition stored (block : bytes) : bytes :=
  if decide (compression = kCowCompressNone) then block else compressed compression block.
Definition stored_length (block : bytes) : Z :=
  if decide (compression = kCowCompressNone) then u16 block_size else u16 (zlen (stored block)).
Definition block_maker (type new_block old_block offset i : Z) (block : bytes) : Positions → entry := λ p,
  (mkOp type compression (stored_length block) (u64 (new_block + i))
     (if decide (type = kCowXorOp) then u64 (u64 (old_block + i) * block_size + offset) else next_data_pos p),
   stored block).
Fixpoint block_makers (type new_block old_block offset i : Z) (blocks : list bytes) : list (Positions → entry) :=
  match blocks with
  | [] => []
  | block :: blocks => block_maker type new_block old_block offset i block ::
      block_makers type new_block old_block offset (i + 1) blocks
  end.
Definition copy_maker (new_block old_block i : Z) : Positions → entry := λ _,
  (mkOp kCowCopyOp 0 0 (u64 (new_block + i)) (u64 (old_block + i)), []).
Definition zero_maker (new_block i : Z) : Positions → entry := λ _,
  (mkOp kCowZeroOp 0 0 (u64 (new_block + i)) 0, []).
Definition label_maker (label : Z) : Positions → entry := λ _, (mkOp kCowLabelOp 0 0 0 label, []).
Definition sequence_maker (words : list Z) (rest : list Z) : Positions → entry := λ p,
  (mkOp kCowSequenceOp 0 (u16 (zlen words * 4)) 0 (next_data_pos p),
   take (Z.to_nat (u16 (zlen words * 4))) (c_array c_u32 rest)).
Fixpoint sequence_makers (fuel max_ops : nat) (data : list Z) : list (Positions → entry) :=
  match fuel, data with
  | O, _ | _, [] => []
  | S fuel, _ => sequence_maker (take max_ops data) data :: sequence_makers fuel max_ops (drop max_ops data)
  end.
Definition data_blocks (data : bytes) : list bytes :=
  split_blocks (Z.to_nat (zlen data / block_size)) block_size data.
Definition makers (r : request) : list (Positions → entry) :=
  match r with
  | RCopy new_block old_block num_blocks =>
      copy_maker new_block old_block <$> seqZ 0 (Z.of_nat (Z.to_nat num_blocks))
  | RRaw new_block data => block_makers kCowReplaceOp new_block 0 0 0 (data_blocks data)
  | RXor new_block data old_block offset => block_makers kCowXorOp new_block old_block offset 0 (data_blocks data)
  | RZero new_block num_blocks => zero_maker new_block <$> seqZ 0 (Z.of_nat (Z.to_nat num_blocks))
  | RLabel label => [label_maker label]
  | RSequence data => sequence_makers (length data) (Z.to_nat (block_size * 2 / 4)) data
  end.

Lemma block_makers_app type new_block old_block offset i x y :
  block_makers type new_block old_block offset i (x ++ y) =
    block_makers type new_block old_block offset i x ++
    block_makers type new_block old_block offset (i + zlen x) y.
Proof.
  revert i. induction x as [|b x IH]; intros i; [by rewrite Z.add_0_r|].
  cbn [block_makers app]. rewrite IH. do 3 f_equal. unfold zlen. simpl. lia.
Qed.

Lemma emit_block_emits type new_block old_block offset i ready block :
  (∀ data, compression ≠ kCowCompressNone → ready = Some data → data = compressed compression block) →
  emits w0 (emit_block compress2 BrotliEncoderCompress LZ4_compress_default type new_block old_block offset i
              ready block) [block_maker type new_block old_block offset i block].
Proof.
  intros Hready. unfold emit_block. apply WriteOperation_emits.
  intros w (_&Hh&Hc&_). cbv zeta. unfold block_op, block_maker, stored_length, stored. rewrite Hc, Hh.
  cbn [fst snd]. destruct (decide (compression = kCowCompressNone)) as [E|E]; [by rewrite E|].
  assert (match ready with Some data => data | None => compressed compression block end =
          compressed compression block) as ->; [|done].
  destruct ready as [data|]; [by apply Hready|done].
Qed.
Lemma emit_blocks_emits type new_block old_block offset i ready blocks :
  (ready = None ∨ compression ≠ kCowCompressNone ∧ ready = Some (compressed compression <$> blocks)) →
  emits w0 (emit_blocks compress2 BrotliEncoderCompress LZ4_compress_default type new_block old_block offset i
              ready blocks) (block_makers type new_block old_block offset i blocks).
Proof.
  revert i ready. induction blocks as [|block blocks IH]; intros i ready Hready; [apply emits_nil|].
  cbn [emit_blocks block_makers]. apply (emits_bind' _ _ _ [block_maker type new_block old_block offset i block]
    (block_makers type new_block old_block offset (i + 1) blocks)); [done| |].
  - apply emit_block_emits. destruct Hready as [->|[_ ->]]; [done|]. by intros data _ [= <-].
  - apply IH. destruct Hready as [->|[Hc ->]]; [by left|by right].
Qed.
Lemma emit_chunks_emits fuel type new_block old_block offset i blocks :
  (length blocks ≤ fuel)%nat →
  (compression ≠ kCowCompressNone → Forall (λ b, storable (compressed compression b)) blocks) →
  emits w0 (emit_chunks compress2 BrotliEncoderCompress LZ4_compress_default fuel type new_block old_block offset
              i blocks) (block_makers type new_block old_block offset i blocks).
Proof.
  revert i blocks. induction fuel as [|fuel IH]; intros i blocks Hfuel Hb.
  { destruct blocks; [apply emits_nil|]. simpl in Hfuel. lia. }
  destruct blocks as [|block blocks]; [apply emits_nil|]. set (all := block :: blocks) in *.
  change (emit_chunks _ _ _ (S fuel) _ _ _ _ _ all) with
    (w ← get_w;
     ready ← (if decide (w_compression w ≠ kCowCompressNone ∧ 1 < w_num_compress_threads w) then
                r ← lift (CompressBlocks compress2 BrotliEncoderCompress LZ4_compress_default
                            (w_compression w) (w_num_compress_threads w) (take kProcessingBlocks all));
                _ ← lift (CHECK (length (take kProcessingBlocks all) = length r));
                mret (Some r)
              else mret None);
     _ ← emit_blocks compress2 BrotliEncoderCompress LZ4_compress_default type new_block old_block offset i ready
           (take kProcessingBlocks all);
     emit_chunks compress2 BrotliEncoderCompress LZ4_compress_default fuel type new_block old_block offset
       (i + zlen (take kProcessingBlocks all)) (drop kProcessingBlocks all) : IO (CowWriter D) unit).
  apply emits_get. intros w1 (_&_&Hc&_&Ht&_). rewrite Hc, Ht.
  assert (block_makers type new_block old_block offset i all =
          block_makers type new_block old_block offset i (take kProcessingBlocks all) ++
          block_makers type new_block old_block offset (i + zlen (take kProcessingBlocks all))
            (drop kProcessingBlocks all)) as ->.
  { by rewrite <- block_makers_app, take_drop. }
  assert (Hrest : ∀ ready, (ready = None ∨ compression ≠ kCowCompressNone ∧
      ready = Some (compressed compression <$> take kProcessingBlocks all)) →
    emits w0 (_ ← emit_blocks compress2 BrotliEncoderCompress LZ4_compress_default type new_block old_block offset
                i ready (take kProcessingBlocks all);
              emit_chunks compress2 BrotliEncoderCompress LZ4_compress_default fuel type new_block old_block offset
                (i + zlen (take kProcessingBlocks all)) (drop kProcessingBlocks all))
      (block_makers type new_block old_block offset i (take kProcessingBlocks all) ++
       block_makers type new_block old_block offset (i + zlen (take kProcessingBlocks all))
         (drop kProcessingBlocks all))).
  { intros ready Hready. apply emits_bind; [by apply emit_blocks_emits|]. apply IH.
    - rewrite length_drop. subst all. simpl in *. unfold kProcessingBlocks. lia.
    - intros H. by apply Forall_drop, Hb. }
  destruct (decide _) as [[Hne Hth]|_]; [|exact (Hrest None (or_introl eq_refl))].
  rewrite CompressBlocks_ok by by apply Forall_take, Hb.
  intros w Hset Hid Hw. erewrite io_bind_eq; [by apply (Hrest (Some _) (or_intror (conj Hne eq_refl)))|].
  erewrite io_bind_eq by reflexivity. rewrite length_fmap, CHECK_True by done. done.
Qed.

(** ** Valid requests *)

Definition block_fits (block : bytes) : Prop :=
  storable (stored block) ∧ (w_batch_write w0 = true → zlen (stored block) ≤ block_size * 2).
Definition new_block_ok (new_block : Z) : Prop :=
  match opt_max_blocks (w_options w0) with Some max_blocks => new_block < max_blocks | None => True end.
(** The settings of an initialized writer. *)
Definition settings_ok : Prop :=
  opt_block_size (w_options w0) = block_size ∧ 0 < block_size < 2 ^ 16 ∧ is_u8 compression.
(** Every block of the data compresses to something the format can hold. *)
Definition valid_request (r : request) : Prop :=
  match r with
  | RCopy new_block _ num_blocks =>
      num_blocks ≠ 0 ∧ Forall (λ i, new_block_ok (u64 (new_block + i))) (seqZ 0 (Z.of_nat (Z.to_nat num_blocks)))
  | RRaw new_block data | RXor new_block data _ _ =>
      zlen data mod block_size = 0 ∧ new_block_ok (u64 (new_block + zlen data / block_size - 1)) ∧
      Forall block_fits (data_blocks data)
  | RZero new_block num_blocks => new_block_ok (u64 (new_block + num_blocks - 1))
  | RLabel label => is_u64 label
  | RSequence data => w_co w0 ≠ 0 ∧ 2 ≤ block_size ∧ block_size * 2 < 2 ^ 16 ∧ Forall (λ x, is_u32 x) data
  end.

Lemma validate_emits b : new_block_ok b → emits w0 (validate b) [].
Proof.
  intros Hb. apply emits_get. intros w1 (Ho&_). unfold ValidateNewBlock. rewrite Ho.
  unfold new_block_ok in Hb. rewrite require_True; [apply emits_lift|].
  destruct (opt_max_blocks (w_options w0)); [|done]. by rewrite bool_decide_false by lia.
Qed.
Lemma emits_checked (b : bool) (P : Prop) `{Decision P} m ms : P → emits w0 m ms →
  emits w0 (_ ← lift (if b then CHECK P else require P); m) ms.
Proof.
  intros HP Hm. apply emits_before; [|done].
  destruct b; [rewrite CHECK_True by done|rewrite require_True by done]; apply emits_lift.
Qed.
Lemma length_split_blocks n size data : length (split_blocks n size data) = n.
Proof. revert data. induction n as [|n IH]; intros data; simpl; [done|by rewrite IH]. Qed.
Lemma split_blocks_size n size data : 0 ≤ size → Z.of_nat n * size ≤ zlen data →
  Forall (λ b, zlen b = size) (split_blocks n size data).
Proof.
  intros Hs. revert data. induction n as [|n IH]; intros data Hlen; simpl; [constructor|].
  unfold zlen in *. constructor; [rewrite length_take; nia|]. apply IH. rewrite length_drop. nia.
Qed.
Lemma data_blocks_size data : 0 < block_size → Forall (λ b, zlen b = block_size) (data_blocks data).
Proof.
  intros Hb. apply split_blocks_size; [lia|]. pose proof (zlen_nonneg data).
  pose proof (Z.div_pos (zlen data) block_size). rewrite Z2Nat.id by lia.
  pose proof (Z.mul_div_le (zlen data) block_size). lia.
Qed.

Lemma EmitBlocks_emits new_block data old_block offset type : settings_ok → Forall block_fits (data_blocks data) →
  emits w0 (EmitBlocks compress2 BrotliEncoderCompress LZ4_compress_default new_block data old_block offset type)
    (block_makers type new_block old_block offset 0 (data_blocks data)).
Proof.
  intros _ Hb. apply emits_get. intros w1 (_&Hh&_). rewrite Hh. apply emit_chunks_emits.
  - unfold data_blocks. by rewrite length_split_blocks.
  - intros Hc. eapply Forall_impl; [exact Hb|]. intros b [Hs _]. unfold stored in Hs.
    by rewrite decide_False in Hs.
Qed.
Lemma emits_validated n f ms : (∀ i, i ∈ seqZ 0 (Z.of_nat n) → emits w0 (f i) []) → ms = [] →
  emits w0 (for_blocks n 0 f) ms.
Proof.
  intros Hf ->. assert (H : ∀ k i, (∀ j, i ≤ j < i + Z.of_nat k → emits w0 (f j) []) → emits w0 (for_blocks k i f) []).
  { induction k as [|k IH]; intros i Hk; [apply emits_nil|]. cbn [for_blocks].
    apply emits_before; [apply Hk; lia|]. apply IH. intros j Hj. apply Hk. lia. }
  apply H. intros j Hj. apply Hf. apply elem_of_seqZ. lia.
Qed.
Lemma sequence_emits fuel max_ops data : (0 < max_ops)%nat → (length data ≤ fuel)%nat →
  emits w0 (emit_sequence fuel max_ops data) (sequence_makers fuel max_ops data).
Proof.
  intros Hmax. revert data. induction fuel as [|fuel IH]; intros data Hfuel.
  { destruct data; [apply emits_nil|]. simpl in Hfuel. lia. }
  destruct data as [|x data]; [apply emits_nil|]. set (all := x :: data) in *.
  assert (Hop : emits w0 (w ← get_w; WriteOperation (mkOp kCowSequenceOp 0 (u16 (zlen (take max_ops all) * 4)) 0
      (next_data_pos (w_pos w))) (take (Z.to_nat (u16 (zlen (take max_ops all) * 4))) (c_array c_u32 all)))
      [sequence_maker (take max_ops all) all]) by by apply WriteOperation_emits.
  assert (Hrest : emits w0 (emit_sequence fuel max_ops (drop max_ops all)) (sequence_makers fuel max_ops (drop max_ops all))).
  { apply IH. rewrite length_drop. subst all. simpl in *. lia. }
  intros w. exact (emits_bind w0 _ _ _ _ Hop Hrest w).
Qed.

(** A valid request adds just its entries. *)
Lemma perform_emits r : settings_ok → valid_request r → emits w0 (perform r) (makers r).
Proof.
  intros Hset Hr. pose proof Hset as (Hbs & Hb & _). destruct r as [nb ob n|nb data|nb data ob off|nb n|l|data];
    cbn [perform makers].
  - destruct Hr as [Hn Hv]. apply (emits_checked true (n ≠ 0)); [done|]. apply emits_before.
    + apply emits_validated; [|done]. intros i Hi. apply validate_emits.
      exact (proj1 (Forall_forall _ _) Hv i Hi).
    + apply emits_for_blocks. intros j. apply (emits_op w0 (copy_maker nb ob j (w_pos w0))).
  - destruct Hr as (Hm & Hv & Hf). apply emits_get. intros w1 (Ho&_). rewrite Ho, Hbs.
    apply (emits_checked true (block_size ≠ 0)); [lia|].
    apply (emits_checked false (zlen data mod block_size = 0)); [done|].
    apply emits_before; [by apply validate_emits|]. by apply EmitBlocks_emits.
  - destruct Hr as (Hm & Hv & Hf). apply emits_get. intros w1 (Ho&_). rewrite Ho, Hbs.
    apply (emits_checked true (block_size ≠ 0)); [lia|].
    apply (emits_checked false (zlen data mod block_size = 0)); [done|].
    apply emits_before; [by apply validate_emits|]. by apply EmitBlocks_emits.
  - apply emits_before; [by apply validate_emits|]. apply emits_for_blocks. intros j. apply emits_try.
    apply (emits_op w0 (zero_maker nb j (w_pos w0))).
  - apply emits_after; [apply (emits_op w0 (label_maker l (w_pos w0)))|apply Sync_emits].
  - destruct Hr as (_ & Hbs2 & _). apply emits_get. intros w1 (_&Hh&_). rewrite Hh.
    apply sequence_emits; [|done]. Z.to_euclidean_division_equations; lia.
Qed.

(** ** Their entries may be added *)

Lemma plain_ok op : c_wf op_codec op → op_data_length op = 0 → op_type op ≠ kCowFooterOp →
  op_type op ≠ kCowClusterOp → 0 ≤ block_size → maker_ok w0 (λ _, (op, [])).
Proof.
  intros Hwf Hlen Hf Hc Hb. split.
  - intros p Hg Hfit Hfull. split_and!; [done|done|done|]. cbn [fst]. by rewrite decide_False.
  - intros p _. change (zlen (op, []).2) with 0. lia.
Qed.
Lemma block_maker_ok type nb ob off i block : settings_ok → type = kCowReplaceOp ∨ type = kCowXorOp →
  zlen block = block_size → block_fits block → maker_ok w0 (block_maker type nb ob off i block).
Proof.
  intros (_ & Hbs & Hc8) Ht Hlen [[Hne Hs] Hb]. split; [|by intros p Hw; apply Hb].
  intros p Hg Hf Hfull.
  assert (Hdl : stored_length block = zlen (stored block)).
  { unfold stored_length. pose proof (zlen_nonneg (stored block)). case_decide as E.
    - unfold stored. rewrite decide_True by done. rewrite Hlen. apply u16_small. lia.
    - apply u16_small. lia. }
  assert (Htype : is_u8 type) by (destruct Ht as [->| ->]; done).
  pose proof Hg as (E1&E2&_&_&E5&E6&Hg'). pose proof (zlen_nonneg (stored block)).
  unfold entry_ok, block_maker. cbn [fst snd op_type op_data_length]. split; [|split; [done|split]].
  - apply wf_op. cbn [op_type op_compression op_data_length op_new_block op_source]. rewrite Hdl.
    split; [done|]. split; [done|]. split; [lia|]. split; [apply u64_range|].
    destruct (decide (type = kCowXorOp)); [apply u64_range|]. unfold fits, max_offset in Hf.
    destruct (decide (w_co w0 = 0)); lia.
  - destruct Ht as [->| ->]; done.
  - rewrite decide_False by (destruct Ht as [->| ->]; done). done.
Qed.
Lemma block_makers_ok type nb ob off i blocks : settings_ok → type = kCowReplaceOp ∨ type = kCowXorOp →
  Forall (λ b, zlen b = block_size) blocks → Forall block_fits blocks →
  Forall (maker_ok w0) (block_makers type nb ob off i blocks).
Proof.
  intros Hset Ht. revert i. induction blocks as [|b blocks IH]; intros i; [constructor|].
  intros [Hl Hls]%Forall_cons [Hb Hbs]%Forall_cons. constructor; [by apply block_maker_ok|by apply IH].
Qed.
Lemma sequence_maker_ok max_ops rest : settings_ok → w_co w0 ≠ 0 → (0 < max_ops)%nat →
  Z.of_nat max_ops * 4 < 2 ^ 16 → Z.of_nat max_ops * 4 ≤ block_size * 2 → Forall (λ x, is_u32 x) rest →
  maker_ok w0 (sequence_maker (take max_ops rest) rest).
Proof.
  intros (_ & Hbs & _) Hco Hmax Hmax1 Hmax2 Hrest.
  assert (Hlen : 0 ≤ zlen (take max_ops rest) * 4 ∧ zlen (take max_ops rest) ≤ Z.of_nat max_ops ∧
                 zlen (take max_ops rest) ≤ zlen rest).
  { unfold zlen. rewrite length_take. lia. }
  assert (Hdata : zlen (take (Z.to_nat (u16 (zlen (take max_ops rest) * 4))) (c_array c_u32 rest)) =
                  u16 (zlen (take max_ops rest) * 4)).
  { rewrite u16_small by lia. pose proof (length_c_array c_u32 rest Hrest) as E. simpl in E.
    unfold zlen in *. rewrite length_take, E. lia. }
  split.
  - intros p Hg Hf Hfull. pose proof Hg as (E1&E2&_&_&E5&E6&Hg'). unfold fits, max_offset in Hf.
    unfold entry_ok, sequence_maker. cbn [fst snd op_type op_data_length]. split; [|split; [by rewrite Hdata|split; [done|]]].
    + apply wf_op. cbn [op_type op_compression op_data_length op_new_block op_source].
      split; [done|]. split; [done|]. split; [apply u16_range|]. split; [done|].
      rewrite decide_False in Hg' by done. lia.
    + by rewrite decide_False.
  - intros p _. unfold sequence_maker. cbn [fst snd]. rewrite Hdata, u16_small by lia. lia.
Qed.
Lemma makers_ok r : settings_ok → valid_request r → Forall (maker_ok w0) (makers r).
Proof.
  intros Hset Hr. pose proof Hset as (_ & Hb & _). destruct r as [nb ob n|nb data|nb data ob off|nb n|l|data];
    cbn [makers].
  - apply Forall_fmap, Forall_forall. intros i _. apply plain_ok; try done; [|lia].
    apply wf_op. split; [done|]. split; [done|]. split; [done|]. split; apply u64_range.
  - destruct Hr as (_ & _ & Hf). apply block_makers_ok; [done|by left|apply data_blocks_size; lia|done].
  - destruct Hr as (_ & _ & Hf). apply block_makers_ok; [done|by right|apply data_blocks_size; lia|done].
  - apply Forall_fmap, Forall_forall. intros i _. apply plain_ok; try done; [|lia].
    apply wf_op. split; [done|]. split; [done|]. split; [done|]. split; [apply u64_range|done].
  - apply Forall_singleton. apply plain_ok; try done. lia.
  - destruct Hr as (Hco & Hbs & Hmax & Hdata). set (m := Z.to_nat (block_size * 2 / 4)).
    assert (Hm : (0 < m)%nat ∧ Z.of_nat m * 4 ≤ block_size * 2) by (subst m; Z.to_euclidean_division_equations; lia).
    generalize (length data) as fuel. intros fuel. revert data Hdata.
    induction fuel as [|fuel IH]; intros data Hdata; [constructor|].
    destruct data as [|x data]; [constructor|]. constructor.
    + apply sequence_maker_ok; try done; lia.
    + apply IH. by apply Forall_drop.
Qed.

Definition all_makers (rs : list request) : list (Positions → entry) := concat (makers <$> rs).
(** Valid requests that fit add just their entries. *)
Lemma perform_all_emits rs : settings_ok → Forall valid_request rs → emits w0 (perform_all rs) (all_makers rs).
Proof.
  intros Hset. induction 1 as [|r rs Hr _ IH]; [apply emits_nil|]. apply emits_bind; [by apply perform_emits|done].
Qed.
Lemma all_makers_ok rs : settings_ok → Forall valid_request rs → Forall (maker_ok w0) (all_makers rs).
Proof.
  intros Hset Hrs. apply Forall_concat, Forall_fmap. eapply Forall_impl; [exact Hrs|].
  intros r Hr. by apply makers_ok.
Qed.
End Request.
