(* ===== verification/CowImage.v ===== *)
(** * Opening and closing images

    [Initialize] makes an empty log, [Finalize] ends a log with its footer and leaves the
    writer where it was, [OpenForAppend] takes up a log behind a label. *)
From S2P Require Import Prelude Bytes Device CowFormat CowReader CowWriter CowLog CowParse CowAppend.

Section Image.
Context {D : Type} `{CF : !CowFile D, LD : !CowFileLaws D}.
Implicit Types w : CowWriter D.

(** ** Opening *)

Definition compression_of (name : bytes) : option Z :=
  if decide (name = str "gz") then Some kCowCompressGz
  else if decide (name = str "brotli") then Some kCowCompressBrotli
  else if decide (name = str "lz4") then Some kCowCompressLz4
  else if decide (name = str "none") then Some kCowCompressNone
  else if decide (name = []) then Some kCowCompressNone
  else None.
Definition header_of (o : CowOptions) : CowHeader :=
  if opt_scratch_space o then header_set_buffer (SetupHeaders o) BUFFER_REGION_DEFAULT_SIZE else SetupHeaders o.
Definition options_ok (o : CowOptions) : Prop :=
  is_Some (compression_of (opt_compression o)) ∧
  0 < opt_block_size o < 2 ^ 16 ∧ is_u64 (opt_num_merge_ops o) ∧
  (opt_cluster_ops o = 0 ∨ 2 ≤ opt_cluster_ops o ∧ opt_cluster_ops o * 20 < 2 ^ 32).

Lemma wf_header h : c_wf header_codec h ↔
  is_u64 (ch_magic h) ∧ is_u16 (ch_major_version h) ∧ is_u16 (ch_minor_version h) ∧ is_u16 (ch_header_size h) ∧
  is_u16 (ch_footer_size h) ∧ is_u16 (ch_op_size h) ∧ is_u32 (ch_block_size h) ∧ is_u32 (ch_cluster_ops h) ∧
  is_u64 (ch_num_merge_ops h) ∧ is_u32 (ch_buffer_size h).
Proof. by destruct h. Qed.
Lemma header_of_ok o : options_ok o → header_ok (header_of o).
Proof.
  intros (_ & Hb & Hm & Hco). unfold header_of.
  assert (Hb' : ∀ b, 0 ≤ b ≤ BUFFER_REGION_DEFAULT_SIZE → header_ok (header_set_buffer (SetupHeaders o) b)).
  { intros b Hbuf. change (0 ≤ b ≤ 2097152) in Hbuf.
    unfold header_ok. split; [|split; [|done]].
    - unfold header_valid. rewrite !bool_decide_true; try done; cbn; lia.
    - apply wf_header. split_and!; cbn; try done; lia. }
  destruct (opt_scratch_space o); [by apply Hb'|]. by apply (Hb' 0).
Qed.

Lemma ParseOptions_ok w c : compression_of (opt_compression (w_options w)) = Some c →
  w_compression w = kCowCompressNone → opt_cluster_ops (w_options w) ≠ 1 →
  ParseOptions w = (Ret (), w_set_compression c w).
Proof.
  intros Hc Hw Hco. unfold ParseOptions. rewrite get_bind. cbv zeta. unfold compression_of in Hc.
  assert (Hset : (if decide (opt_compression (w_options w) = str "gz") then modify_w (w_set_compression kCowCompressGz)
       else if decide (opt_compression (w_options w) = str "brotli") then modify_w (w_set_compression kCowCompressBrotli)
       else if decide (opt_compression (w_options w) = str "lz4") then modify_w (w_set_compression kCowCompressLz4)
       else if decide (opt_compression (w_options w) = str "none") then modify_w (w_set_compression kCowCompressNone)
       else lift (require (opt_compression (w_options w) = []))) w = (Ret (), w_set_compression c w)).
  { repeat (case_decide; [by injection Hc as <-|]). case_decide as E; [|done]. injection Hc as <-.
    unfold lift. rewrite require_True by done. rewrite <- Hw. by destruct w. }
  rewrite (io_bind_eq _ _ _ _ _ Hset). unfold lift. by rewrite require_True.
Qed.

(** The writer after it was initialized. *)
Definition opened w o c kind cb bb : Prop :=
  let tb := SetupWriteOptions cb bb o in
  w_options w = o ∧ w_header w = header_of o ∧ w_compression w = c ∧ w_num_compress_threads w = tb.1 ∧
  w_batch_write w = tb.2 ∧ w_fd_kind w = kind ∧ w_ops_size w = 0.

Lemma Sync_ok w : ∃ d, Sync w = (Ret (), w_set_fd d w) ∧ file_bytes d = file_bytes (w_fd w).
Proof.
  unfold Sync. rewrite get_bind.
  assert (Hsync : ∃ d, on_fd fsync w = (Ret (), w_set_fd d w) ∧ file_bytes d = file_bytes (w_fd w)).
  { destruct (fsync_law (w_fd w)) as (d & E & Hd & _). exists d. split; [by apply on_fd_eq|done]. }
  destruct (w_fd_kind w); [|done|done]. exists (w_fd w). split; [by destruct w|done].
Qed.

(** Header and scratch space. *)
Lemma write_header_ok h (scratch : bool) w : c_wf header_codec h → 0 ≤ ch_buffer_size h → file_pos (w_fd w) = 0 →
  ∃ d, (_ ← on_fd (write_fully (c_enc header_codec h));
        if scratch then on_fd (write_fully (zeroes (Z.to_nat (ch_buffer_size h)))) else mret ()) w =
      (Ret (), w_set_fd d w) ∧
    holds (file_bytes d) 0 (c_enc header_codec h) ∧
    zlen (file_bytes d) ≤ zlen (file_bytes (w_fd w)) `max` (38 + ch_buffer_size h).
Proof.
  intros Hwf Hbuf Hp. pose proof (zlen_header h Hwf) as Hlen.
  assert (Hne : c_enc header_codec h ≠ []) by (intros E; rewrite E in Hlen; done).
  destruct (write_fully_law (c_enc header_codec h) (w_fd w) ltac:(rewrite Hp; lia)) as (d1 & E1 & Hd1 & Hp1).
  rewrite (on_fd_bind _ _ _ _ _ E1). rewrite <- store_cons, Hp in Hd1 by done. rewrite Hp, Hlen in Hp1.
  assert (Hh : holds (file_bytes d1) 0 (c_enc header_codec h)) by (rewrite Hd1; apply holds_store_same).
  assert (Hl : zlen (file_bytes d1) ≤ zlen (file_bytes (w_fd w)) `max` 38).
  { rewrite Hd1, length_store, Hlen by done. case_decide; lia. }
  destruct scratch; [|exists d1; split_and!; [done|done|lia]].
  destruct (decide (zeroes (Z.to_nat (ch_buffer_size h)) = [])) as [E|E].
  - rewrite E. destruct (write_fully_law [] d1 ltac:(rewrite Hp1; lia)) as (d2 & E2 & Hd2 & _).
    exists d2. split; [by apply (on_fd_eq _ (w_set_fd d1 w))|]. rewrite Hd2, Hp1.
    unfold file_store, overwrite. change (zlen []) with 0. rewrite Z.add_0_r. cbn [app length].
    rewrite Nat.add_0_r, take_drop. split; [by apply holds_zero_extend|].
    unfold zero_extend, zlen in *. rewrite length_app, length_zeroes. lia.
  - destruct (write_fully_law (zeroes (Z.to_nat (ch_buffer_size h))) d1 ltac:(rewrite Hp1; lia)) as (d2 & E2 & Hd2 & _).
    exists d2. split; [by apply (on_fd_eq _ (w_set_fd d1 w))|]. rewrite Hd2, Hp1, <- store_cons by done.
    assert (Hz : zlen (zeroes (Z.to_nat (ch_buffer_size h))) = ch_buffer_size h).
    { unfold zlen. rewrite length_zeroes. lia. }
    split; [apply holds_store_other; [done|lia|lia|done]|].
    rewrite length_store, Hz by lia. case_decide; lia.
Qed.

Lemma InitBatchWrites_eq w : InitBatchWrites w = (Ret (),
  if w_batch_write w
  then w_set_batch (mkBatch (op_vec (w_batch w)) (data_vec (w_batch w)) (total_data_written (w_batch w))
                      (next_op_pos (w_pos w)) (next_data_pos (w_pos w))) w
  else w).
Proof. done. Qed.
(** An empty batch at the positions. *)
Lemma fresh_idle w : (w_co w = 0 ∨ 2 ≤ w_co w ∧ w_co w * 20 < 2 ^ 32) → good (w_co w) (w_pos w) →
  fits (w_pos w) → cluster_full (w_pos w) = false → (w_batch_write w = true → w_co w ≠ 0) →
  op_vec (w_batch w) = [] → data_vec (w_batch w) = [] → total_data_written (w_batch w) = 0 →
  let w' := if w_batch_write w
    then w_set_batch (mkBatch (op_vec (w_batch w)) (data_vec (w_batch w)) (total_data_written (w_batch w))
                        (next_op_pos (w_pos w)) (next_data_pos (w_pos w))) w
    else w in
  idle w' ∧ view w' = mkImage (file_bytes (w_fd w)) (w_pos w) ∧ same_settings w w' ∧ w_ops_size w' = w_ops_size w.
Proof.
  intros Hco Hg Hf Hfull Hb H1 H2 H3. pose proof (good_order _ Hco _ Hg) as Hord.
  pose proof Hg as (E1&E2&E3&E4&E5&E6&_). unfold fits, max_offset in Hf. rewrite H1, H2, H3.
  destruct (w_batch_write w) eqn:Hbw; cbv zeta.
  - split; [split; [split; [done|split; [done|]]|done]|done]. unfold pending_ok. cbn [w_set_batch w_batch_write w_header w_batch w_pos].
    rewrite Hbw. cbn [op_vec data_vec current_op_pos current_data_pos total_data_written].
    split; [by apply Hb|]. split; [apply batch_empty_wf; lia|]. change (zlen (concat [])) with 0.
    change (zlen (@nil CowOperation)) with 0. change (zlen (@nil bytes)) with 0. lia.
  - split; [split; [split; [done|split; [done|]]|done]|split; [|done]].
    + unfold pending_ok. by rewrite Hbw.
    + unfold view, vfile. by rewrite H1, H2.
Qed.
Lemma InitPos_start o : options_ok o →
  good (opt_cluster_ops o) (InitPos (header_of o) 0) ∧ fits (InitPos (header_of o) 0) ∧
  cluster_full (InitPos (header_of o) 0) = false ∧ ch_cluster_ops (header_of o) = opt_cluster_ops o ∧
  38 ≤ next_op_pos (InitPos (header_of o) 0).
Proof.
  intros Ho. pose proof (header_of_ok o Ho) as Hh.
  assert (Hco : ch_cluster_ops (header_of o) = opt_cluster_ops o) by (unfold header_of; by destruct (opt_scratch_space o)).
  pose proof (good_InitPos _ Hh) as Hg. rewrite Hco in Hg. pose proof Hg as (_ & H38 & _).
  split; [done|]. split; [|split; [|done]].
  - rewrite InitPos_eq by done. destruct Hh as (_&_&_&_&_&Hbuf&Hc). unfold fits, max_offset.
    change (0 ≤ ch_buffer_size (header_of o) ≤ 2097152) in Hbuf. cbn [next_data_pos cluster_size].
    case_decide; lia.
  - rewrite InitPos_eq by done. unfold cluster_full. cbn [cluster_size current_cluster_size].
    change (sizeof op_codec) with 20. rewrite Hco. destruct Ho as (_&_&_&Hc).
    destruct (decide (opt_cluster_ops o = 0)) as [->|]; [done|].
    rewrite (bool_decide_false (_ < _)) by lia. apply andb_false_r.
Qed.

Lemma Initialize_ok o c kind cb bb (d : D) : options_ok o → compression_of (opt_compression o) = Some c →
  ∃ w, Initialize (NewCowWriter cb bb o kind d) = (Ret (), w) ∧ opened w o c kind cb bb ∧ idle w ∧
    w_pos w = InitPos (header_of o) 0 ∧
    image_of (opt_cluster_ops o) (c_enc header_codec (header_of o)) (InitPos (header_of o) 0) [] (view w) ∧
    zlen (im_bytes (view w)) ≤ zlen (file_bytes d) `max` max_offset.
Proof.
  intros Ho Hc. pose proof (header_of_ok o Ho) as Hh. pose proof Ho as (_ & Hbs & _ & Hco).
  pose proof Hh as (_ & Hwf & _ & _ & _ & Hbuf & _). change (0 ≤ ch_buffer_size (header_of o) ≤ 2097152) in Hbuf.
  destruct (InitPos_start o Ho) as (Hg & Hf & Hfull & Hcoeq & H38).
  set (wN := NewCowWriter cb bb o kind d).
  assert (HN : w_options wN = o ∧ w_compression wN = kCowCompressNone ∧ w_header wN = SetupHeaders o ∧
    w_ops_size wN = 0 ∧ w_fd wN = d ∧ num_ops (w_pos wN) = 0 ∧ w_fd_kind wN = kind ∧
    w_num_compress_threads wN = (SetupWriteOptions cb bb o).1 ∧ w_batch_write wN = (SetupWriteOptions cb bb o).2 ∧
    w_batch wN = mkBatch [] [] 0 0 0).
  { subst wN. unfold NewCowWriter. by destruct (SetupWriteOptions cb bb o). }
  destruct HN as (HN1&HN2&HN3&HN4&HN5&HN6&HN7&HN8&HN9&HN10). clearbody wN.
  unfold Initialize. rewrite (io_bind_eq _ _ _ _ _ (ParseOptions_ok wN c ltac:(by rewrite HN1) HN2 ltac:(rewrite HN1; lia))).
  unfold OpenForWrite. rewrite get_bind. cbv zeta. cbn [w_set_compression w_header w_options].
  rewrite HN1, HN3. change (if opt_scratch_space o then _ else _) with (header_of o) at 1.
  rewrite io_require by (cbn; lia).
  destruct (seek_set_law 0 d ltac:(done)) as (d1 & E1 & Hd1 & Hp1).
  rewrite (on_fd_bind (seek_set 0) _ _ () d1) by (cbn [w_fd w_set_compression]; by rewrite HN5).
  rewrite modify_bind. fold (header_of o). set (w1 := w_set_header (header_of o) _).
  destruct (write_header_ok (header_of o) (opt_scratch_space o) w1 Hwf ltac:(lia) Hp1) as (d2 & E2 & Hhd & Hlen).
  pose proof (proj1 (io_bind_Ret _ _ _ _ _) E2) as ([] & w2 & E2a & E2b).
  rewrite (io_bind_eq _ _ _ _ _ E2a), (io_bind_eq _ _ _ _ _ E2b).
  destruct (Sync_ok (w_set_fd d2 w1)) as (d3 & E3 & Hd3). rewrite (io_bind_eq _ _ _ _ _ E3).
  destruct (seek_ok (sizeof header_codec + ch_buffer_size (header_of o)) d3) as (d4 & E4 & Hd4 & _).
  { change (sizeof header_codec) with 38. lia. }
  rewrite (on_fd_bind _ _ (w_set_fd d3 (w_set_fd d2 w1)) _ _ E4), modify_bind, InitBatchWrites_eq.
  set (w5 := w_set_pos _ _).
  assert (Hw5 : w_pos w5 = InitPos (header_of o) 0 ∧ w_header w5 = header_of o ∧ w_batch w5 = mkBatch [] [] 0 0 0 ∧
                w_batch_write w5 = (SetupWriteOptions cb bb o).2 ∧ w_fd w5 = d4).
  { subst w5 w1. cbn [w_set_fd w_set_pos w_set_header w_set_compression w_pos w_header w_batch w_batch_write w_fd].
    by rewrite HN6. }
  destruct Hw5 as (Hw1 & Hw2 & Hw3 & Hw4 & Hw5).
  assert (Hbc : w_batch_write w5 = true → w_co w5 ≠ 0).
  { rewrite Hw4, Hw2, Hcoeq. unfold SetupWriteOptions. cbn [snd]. intros [H _]%andb_prop E.
    by rewrite E in H. }
  destruct (fresh_idle w5) as (Hid & Hv & Hset & Hos); [by rewrite Hw2, Hcoeq|by rewrite Hw1, Hw2, Hcoeq|
    by rewrite Hw1|by rewrite Hw1|done|by rewrite Hw3..|].
  match goal with |- ∃ _, (_, ?x) = _ ∧ _ => exists x end. split; [done|].
  destruct Hset as (S1&S2&S3&S4&S5&S6). split; [by split_and!; rewrite ?S1, ?S2, ?S3, ?S4, ?S5, ?S6, ?Hos|].
  split; [done|]. rewrite Hv, Hw5.
  split; [transitivity (w_pos w5); [by destruct (w_batch_write w5)|done]|]. rewrite Hw1.
  assert (Hbytes : file_bytes d4 = file_bytes d2) by (rewrite Hd4, Hd3; done).
  split.
  - split; [done|]. split; [rewrite zlen_header by done; lia|]. split; [done|]. split; [done|].
    split; [|constructor].
    cbn [im_bytes]. by rewrite Hbytes.
  - cbn [im_bytes]. rewrite Hbytes. change (w_fd w1) with d1 in Hlen. rewrite Hd1 in Hlen.
    unfold max_offset. lia.
Qed.

(** ** Closing *)

Definition w_flushed w : CowWriter D :=
  w_set_batch (mkBatch [] [] 0 (next_op_pos (w_pos w)) (next_data_pos (w_pos w))) w.
Lemma flushed_ok w : (w_co w = 0 ∨ 2 ≤ w_co w ∧ w_co w * 20 < 2 ^ 32) → good (w_co w) (w_pos w) →
  fits (w_pos w) → (w_batch_write w = true → w_co w ≠ 0) → writer_ok (w_flushed w).
Proof.
  intros Hco Hg Hf Hb. pose proof (good_order _ Hco _ Hg) as Hord.
  pose proof Hg as (E1&E2&E3&E4&E5&E6&_). unfold fits, max_offset in Hf.
  split; [done|]. split; [done|]. unfold pending_ok, w_flushed. cbn [w_set_batch w_batch_write w_batch].
  destruct (w_batch_write w); [|done]. split; [by apply Hb|].
  split; [apply batch_empty_wf; lia|]. cbn [w_set_batch w_pos current_op_pos current_data_pos op_vec data_vec].
  change (zlen (concat [])) with 0. change (zlen (@nil CowOperation)) with 0. change (zlen (@nil bytes)) with 0. lia.
Qed.
Lemma batch_clustered w : writer_ok w → w_batch_write w = true → w_co w ≠ 0.
Proof. intros (_ & _ & Hp) Hb. unfold pending_ok in Hp. rewrite Hb in Hp. apply Hp. Qed.
Lemma FlushCluster_settled w : settled w → FlushCluster w = (Ret (), w_flushed w).
Proof.
  intros [E1 E2]. unfold FlushCluster. rewrite get_bind. cbv zeta. by rewrite E1, E2.
Qed.
Lemma Flush_any w : writer_ok w → ∃ d, FlushCluster w = (Ret (), w_flushed (w_set_fd d w)) ∧ file_bytes d = vfile w.
Proof.
  intros (_ & _ & Hp). unfold pending_ok in Hp. destruct (w_batch_write w).
  - destruct Hp as (_ & Hwf & _). destruct (FlushCluster_ok w Hwf) as (d & E & Hd). exists d. by rewrite E.
  - exists (w_fd w). rewrite settled_vfile, FlushCluster_settled by done. by destruct w.
Qed.

Lemma zlen_zeroes n : 0 ≤ n → zlen (zeroes (Z.to_nat n)) = n.
Proof. intros. unfold zlen. rewrite length_zeroes. lia. Qed.
(** The rest of the cluster is cleared. *)
Lemma clear_cluster_ok w hd p0 L : writer_ok w → fits (w_pos w) → settled w →
  image_of (w_co w) hd p0 L (view w) → zlen (im_bytes (view w)) < 2 ^ 63 →
  ∃ d, (if decide (cluster_size (w_pos w) = 0) then mret ()
        else
          _ ← on_fd (seek (next_op_pos (w_pos w)));
          on_fd (write_fully (zeroes (Z.to_nat (u32 (cluster_size (w_pos w) - current_cluster_size (w_pos w))))))) w
       = (Ret (), w_set_fd d w) ∧
    image_of (w_co w) hd p0 L (mkImage (file_bytes d) (w_pos w)) ∧ zlen (file_bytes d) < 2 ^ 63.
Proof.
  intros (Hco & Hg & _) Hf Hset Him Hlen. pose proof (good_order _ Hco _ Hg) as Hord.
  unfold view in Him, Hlen. rewrite settled_vfile in Him, Hlen by done. cbn [im_bytes] in Hlen.
  case_decide as Hcs; [exists (w_fd w); split; [by destruct w|done]|].
  pose proof Hg as (E1&E2&E3&E4&E5&E6&Hg'). unfold fits, max_offset in Hf.
  rewrite decide_False in Hg' by lia. rewrite u32_small by lia.
  destruct (seek_ok (next_op_pos (w_pos w)) (w_fd w) ltac:(lia)) as (d1 & Es & Hd1 & Hp1).
  rewrite (on_fd_bind _ _ _ _ _ Es).
  set (z := zeroes _). assert (Hz : zlen z = cluster_size (w_pos w) - current_cluster_size (w_pos w)).
  { apply zlen_zeroes. lia. }
  assert (Hne : z ≠ []) by (intros E; rewrite E in Hz; change (zlen []) with 0 in Hz; lia).
  destruct (write_fully_law z d1 ltac:(rewrite Hp1; lia)) as (d2 & Ew & Hd2 & _).
  rewrite Hd1, Hp1, <- store_cons in Hd2 by done.
  exists d2. split; [by apply (on_fd_eq _ (w_set_fd d1 w))|]. rewrite Hd2. split.
  - apply (image_of_store _ Hco _ _ _ _ _ _ Him). left. cbn [im_pos]. lia.
  - rewrite length_store, Hz by lia. case_decide; lia.
Qed.

Definition needs_cluster (p : Positions) : bool :=
  negb (bool_decide (cluster_size p = 0)) && bool_decide (0 < current_data_size p).
(** The end of a cluster that has data, so that the footer comes last. *)
Definition closing (p : Positions) : list entry := if needs_cluster p then [cluster_entry p] else [].
Lemma close_cluster_ok w hd p0 L : writer_ok w → space w (w_pos w) → 0 ≤ ch_block_size (w_header w) →
  image_of (w_co w) hd p0 L (view w) → settled w → zlen (im_bytes (view w)) < 2 ^ 63 →
  ∃ w', (if needs_cluster (w_pos w) then _ ← try_ EmitCluster; mret () else mret ()) w = (Ret (), w') ∧
    writer_ok w' ∧ settled w' ∧ same_settings w w' ∧ current_data_size (w_pos w') = 0 ∧
    cluster_size (w_pos w') = cluster_size (w_pos w) ∧
    image_of (w_co w) hd p0 (L ++ closing (w_pos w)) (view w') ∧
    w_pos w' = end_pos (w_co w) (w_pos w) (closing (w_pos w)) ∧ zlen (file_bytes (w_fd w')) < 2 ^ 63 ∧
    next_op_pos (w_pos w') ≤ next_data_pos (w_pos w).
Proof.
  intros Hok Hsp Hbs Him Hset Hlen. pose proof Hok as (Hco & Hg & Hp). pose proof (good_order _ Hco _ Hg) as Hord.
  pose proof Hg as (E1&E2&E3&E4&E5&E6&Hg'). unfold closing. destruct (needs_cluster (w_pos w)) eqn:Hn.
  - apply andb_prop in Hn as [Hn1 Hn2]. apply bool_decide_eq_true in Hn2.
    apply negb_true_iff, bool_decide_eq_false in Hn1.
    assert (Hne : w_co w ≠ 0) by lia. pose proof (cluster_entry_ok _ _ Hco Hg Hne) as He.
    assert (Hdata : data_fits w (cluster_entry (w_pos w))).
    { intros _. change (zlen (cluster_entry (w_pos w)).2) with 0. lia. }
    destruct (write_one 2 w _ Hok He Hsp Hdata) as (w' & E & Hv & Hok' & Hs & _ & Hset').
    assert (Hp' : w_pos w' = next (w_co w) (w_pos w) (cluster_entry (w_pos w))) by exact (f_equal im_pos Hv).
    rewrite Hp', (cluster_fresh _ _ Hco Hg Hne (proj1 Hsp)) in E.
    assert (Etry : try_ EmitCluster w = (Ret (Some ()), w')).
    { unfold try_, EmitCluster. rewrite get_bind. unfold WriteOperation. cbn [fst snd cluster_entry] in E. by rewrite E. }
    rewrite (io_bind_eq _ _ _ _ _ Etry). exists w'. split; [done|]. split; [done|].
    pose proof Hp' as Hpe. rewrite next_cluster in Hp' by (done || apply Hsp).
    assert (Hsettled : settled w') by (apply Hset'; by right).
    split; [done|]. split; [done|]. rewrite Hv. split; [by rewrite Hp'|]. split; [by rewrite Hp'|].
    split; [by apply put_image; [..|apply Hsp]|]. split; [done|].
    split; [|rewrite Hp'; cbn [next_op_pos]; lia].
    assert (Hle := length_puts _ Hco (view w) [cluster_entry (w_pos w)] Hg (conj He (conj (proj1 Hsp) I))).
    cbn [foldl] in Hle. rewrite <- Hv in Hle. unfold view in Hle at 1. rewrite settled_vfile in Hle by done.
    cbn [im_bytes] in Hle. unfold max_offset in Hle. lia.
  - exists w. split; [done|]. split; [done|]. split; [done|]. split; [done|].
    unfold view in Hlen. rewrite settled_vfile in Hlen by done. rewrite app_nil_r.
    split; [|split; [done|split; [done|split; [done|split; [done|lia]]]]].
    apply andb_false_iff in Hn as [Hn|Hn].
    + apply negb_false_iff, bool_decide_eq_true in Hn. rewrite decide_True in Hg' by lia. lia.
    + apply bool_decide_eq_false in Hn. lia.
Qed.

(** The footer, and the end of the file behind it. *)
Lemma write_footer_ok w hd p0 L f : writer_ok w → settled w → current_data_size (w_pos w) = 0 →
  image_of (w_co w) hd p0 L (view w) → c_wf footer_codec f → next_op_pos (w_pos w) < 2 ^ 62 →
  zlen (file_bytes (w_fd w)) < 2 ^ 63 →
  ∃ d offs, (_ ← on_fd (seek (next_op_pos (w_pos w))); _ ← on_fd (write_fully (c_enc footer_codec f));
        offs ← on_fd tell; Truncate offs) w = (Ret (), w_set_fd d w) ∧
    offs = next_op_pos (w_pos w) + 84 ∧
    image_of (w_co w) hd p0 L (mkImage (file_bytes d) (w_pos w)) ∧
    holds (file_bytes d) (next_op_pos (w_pos w)) (c_enc footer_codec f) ∧ zlen (file_bytes d) < 2 ^ 63.
Proof.
  intros (Hco & Hg & _) Hset Hcds Him Hwf Hnop Hlen. unfold view in Him. rewrite settled_vfile in Him by done.
  pose proof Hg as (E1&E2&_).
  assert (Hf : zlen (c_enc footer_codec f) = 84) by (unfold zlen; by rewrite (enc_length f)).
  assert (Hne : c_enc footer_codec f ≠ []) by (intros E; rewrite E in Hf; done).
  destruct (seek_ok (next_op_pos (w_pos w)) (w_fd w) ltac:(lia)) as (d1 & Es & Hd1 & Hp1).
  rewrite (on_fd_bind _ _ _ _ _ Es).
  destruct (write_fully_law (c_enc footer_codec f) d1 ltac:(rewrite Hp1; lia)) as (d2 & Ew & Hd2 & Hp2).
  rewrite (on_fd_bind _ _ (w_set_fd d1 w) _ _ Ew). rewrite Hd1, Hp1, <- store_cons in Hd2 by done.
  rewrite Hp1, Hf in Hp2.
  destruct (tell_law d2) as (d3 & Et & Hd3 & _). rewrite (on_fd_bind _ _ (w_set_fd d2 (w_set_fd d1 w)) _ _ Et).
  rewrite Hp2. rewrite Hd2 in Hd3.
  assert (Him3 : image_of (w_co w) hd p0 L (mkImage (file_bytes d3) (w_pos w))).
  { rewrite Hd3. apply (image_of_store _ Hco _ _ _ _ _ _ Him). right; left. cbn [im_pos]. lia. }
  assert (Hh3 : holds (file_bytes d3) (next_op_pos (w_pos w)) (c_enc footer_codec f)).
  { rewrite Hd3. apply holds_store_same. }
  assert (Hl3 : zlen (file_bytes d3) < 2 ^ 63).
  { rewrite Hd3, length_store by lia. case_decide; lia. }
  set (n := next_op_pos (w_pos w) + 84). unfold Truncate. rewrite get_bind. cbn [w_set_fd w_fd_kind].
  assert (Hcut : ∃ d, on_fd (ftruncate n) (w_set_fd d3 w) = (Ret (), w_set_fd d w) ∧
    image_of (w_co w) hd p0 L (mkImage (file_bytes d) (w_pos w)) ∧
    holds (file_bytes d) (next_op_pos (w_pos w)) (c_enc footer_codec f) ∧ zlen (file_bytes d) < 2 ^ 63).
  { destruct (ftruncate_law n d3 ltac:(lia)) as (d4 & E4 & Hd4 & _). exists d4.
    split; [by apply (on_fd_eq _ (w_set_fd d3 w))|]. rewrite Hd4. split; [|split].
    - apply (image_of_take _ Hco _ _ _ _ n Him3). right. cbn [im_pos]. lia.
    - apply holds_take; [lia|lia|]. by apply holds_zero_extend.
    - unfold zlen. rewrite length_take. lia. }
  destruct Hcut as (d4 & E4 & Hd4). destruct (w_fd_kind w); [exists d3, n|exists d3, n|exists d4, n]; done.
Qed.

Lemma Finalize_ok w L : let h := w_header w in
  header_ok h → idle w → image_of (w_co w) (c_enc header_codec h) (InitPos h 0) L (view w) →
  space w (w_pos w) → zlen (im_bytes (view w)) < 2 ^ 63 →
  ∃ w', Finalize w = (Ret (), w') ∧ finished (file_bytes (w_fd w')) h (L ++ closing (w_pos w)) ∧
    idle w' ∧ w_pos w' = w_pos w ∧ same_settings w w' ∧
    image_of (w_co w) (c_enc header_codec h) (InitPos h 0) L (view w').
Proof.
  intros h Hh [Hok Hfull] Him Hsp Hlen. pose proof Hok as (Hco & Hg & _). pose proof Hsp as [Hf _].
  pose proof (batch_clustered w Hok) as Hbc. pose proof (good_order _ Hco _ Hg) as Hord.
  pose proof Hg as (E1&E2&E3&E4&E5&E6&_). pose proof Hf as Hf'. unfold fits, max_offset in Hf'.
  (* the batch *)
  destruct (Flush_any w Hok) as (d1 & Eflush & Hd1).
  unfold Finalize. rewrite (io_bind_eq _ _ _ _ _ Eflush), get_bind. cbv zeta.
  set (w1 := w_flushed (w_set_fd d1 w)). change (w_pos w1) with (w_pos w).
  assert (Hok1 : writer_ok w1) by by apply flushed_ok.
  assert (Hv1 : view w1 = view w). { unfold view. rewrite settled_vfile by done. by rewrite <- Hd1. }
  (* the rest of the cluster *)
  destruct (clear_cluster_ok w1 (c_enc header_codec h) (InitPos h 0) L Hok1 Hf) as (d2 & Ec & Him2 & Hlen2);
    [done|by rewrite Hv1|by rewrite Hv1|].
  change (w_pos w1) with (w_pos w) in Ec. rewrite (io_bind_eq _ _ _ _ _ Ec).
  set (w2 := w_set_fd d2 w1). assert (Hok2 : writer_ok w2) by exact Hok1.
  assert (Hv2 : view w2 = mkImage (file_bytes d2) (w_pos w)).
  { unfold view. by rewrite settled_vfile by done. }
  destruct (close_cluster_ok w2 (c_enc header_codec h) (InitPos h 0) L Hok2 Hsp) as
    (w3 & Ex & Hok3 & Hset3 & Hs3 & Hcds3 & Hcs3 & Him3 & Hp3 & Hlen3 & Hnop3).
  { destruct Hh as (_&_&_&_&Hb&_). change (w_header w2) with h. lia. }
  { by rewrite Hv2. } { done. } { by rewrite Hv2. }
  change (w_pos w2) with (w_pos w) in *.
  change (negb (bool_decide (cluster_size (w_pos w) = 0)) && bool_decide (0 < current_data_size (w_pos w)))
    with (needs_cluster (w_pos w)).
  rewrite (io_bind_eq _ _ _ _ _ Ex), modify_bind, get_bind.
  set (w4 := w_set_ops_size _ w3). set (L' := L ++ closing (w_pos w)) in *.
  change (w_co w2) with (w_co w) in *.
  pose proof Hs3 as (S1&S2&S3&S4&S5&S6). change (w_header w2) with h in S2.
  (* the footer *)
  pose proof Him3 as (Hgi & _ & HL' & Hpe & _). change (im_pos (view w3)) with (w_pos w3) in Hpe.
  pose proof (end_pos_grows _ Hco _ L' Hgi HL') as (Hgr & _ & Hnum). rewrite <- Hpe in Hnum, Hgr.
  rewrite (InitPos_eq h Hh) in Hnum at 1. cbn [num_ops] in Hnum.
  pose proof (good_InitPos h Hh) as (_ & H38 & _). pose proof (zlen_nonneg L') as HL0.
  assert (Hfooter : footer w4 = footer_of (zlen L')).
  { unfold footer, footer_of. subst w4. cbn [w_set_ops_size w_ops_size w_pos]. rewrite Hnum. done. }
  assert (Hwf : c_wf footer_codec (footer_of (zlen L'))) by (apply footer_of_wf; lia).
  change (w_pos w4) with (w_pos w3). rewrite Hfooter.
  destruct (write_footer_ok w4 (c_enc header_codec h) (InitPos h 0) L' (footer_of (zlen L'))) as
    (d5 & offs & E5' & Hoffs & Him5 & Hh5 & Hlen5); try done.
  { change (w_co w4) with (w_co w3). rewrite S2. exact Him3. }
  { change (w_pos w4) with (w_pos w3). lia. }
  change (w_co w4) with (w_co w3) in Him5. change (w_pos w4) with (w_pos w3) in *. rewrite S2 in Him5.
  apply io_bind_Ret in E5' as ([] & wa & Ea & E5'). rewrite (io_bind_eq _ _ _ _ _ Ea).
  apply io_bind_Ret in E5' as ([] & wb & Eb & E5'). rewrite (io_bind_eq _ _ _ _ _ Eb).
  apply io_bind_Ret in E5' as (o & wc & Ec' & E5'). rewrite (io_bind_eq _ _ _ _ _ Ec').
  rewrite (io_bind_eq _ _ _ _ _ E5').
  set (w5 := w_set_fd d5 w4).
  (* back to where the writer was *)
  assert (Hback : ∃ w6, (if needs_cluster (w_pos w) then modify_w (λ w', w_set_pos (mkPositions
      (next_op_pos (w_pos w)) (next_data_pos (w_pos w)) (cluster_size (w_pos w')) (current_cluster_size (w_pos w))
      (current_data_size (w_pos w)) (num_ops (w_pos w))) w') else mret ()) w5 = (Ret (), w6) ∧
    w_pos w6 = w_pos w ∧ settled w6 ∧ w_fd w6 = d5 ∧ same_settings w w6).
  { destruct (needs_cluster (w_pos w)) eqn:Hn.
    - eexists. split; [reflexivity|]. split; [|done]. cbn [w_set_pos w_pos]. change (w_pos w5) with (w_pos w3).
      rewrite Hcs3. by destruct (w_pos w).
    - exists w5. split; [done|]. split; [|done]. change (w_pos w5) with (w_pos w3). rewrite Hp3. unfold closing.
      by rewrite Hn. }
  destruct Hback as (w6 & E6b & Hp6 & Hset6 & Hfd6 & Hs6). rewrite (io_bind_eq _ _ _ _ _ E6b).
  assert (Et : try_ FlushCluster w6 = (Ret (Some ()), w_flushed w6)).
  { unfold try_. by rewrite FlushCluster_settled. }
  rewrite (io_bind_eq _ _ _ _ _ Et).
  destruct (Sync_ok (w_flushed w6)) as (d7 & E7 & Hd7).
  exists (w_set_fd d7 (w_flushed w6)). change (w_fd (w_flushed w6)) with (w_fd w6) in Hd7. rewrite Hfd6 in Hd7.
  split; [exact E7|].
  assert (Hpos : im_pos (view w3) = end_pos (w_co w) (InitPos h 0) L') by exact Hpe.
  cbn [w_set_fd w_fd]. rewrite Hd7. split.
  { change (ch_cluster_ops h) with (w_co w). unfold finished. cbv zeta. change (ch_cluster_ops h) with (w_co w).
    rewrite <- Hpos. done. }
  pose proof Hs6 as (_&Hh6&_&Hb6&_).
  assert (Hok6 : writer_ok (w_flushed w6)).
  { apply flushed_ok; rewrite ?Hh6, ?Hp6, ?Hb6; done. }
  split; [split; [exact Hok6|change (cluster_full (w_pos w6) = false); by rewrite Hp6]|].
  split; [exact Hp6|]. split; [done|].
  assert (Hv : view (w_set_fd d7 (w_flushed w6)) = mkImage (file_bytes d5) (w_pos w)).
  { unfold view. rewrite settled_vfile by done. cbn [w_set_fd w_fd]. rewrite Hd7. by rewrite <- Hp6. }
  rewrite Hv. assert (Him' := image_of_prefix _ Hco _ _ _ _ _ _ Him5).
  pose proof Him as (_ & _ & _ & Hpw & _). change (im_pos (view w)) with (w_pos w) in Hpw. by rewrite Hpw.
Qed.

(** ** Taking up a log *)

Lemma fold_ops co p (L : list entry) : foldl (λ p op, AddOperation co op p) p L.*1 = end_pos co p L.
Proof. revert p. induction L as [|e L IH]; intros p; [done|]. apply IH. Qed.

(** The end of the cluster, if it was not written before. *)
Lemma EmitClusterIfNeeded_ok w : writer_ok w → space w (w_pos w) → 0 ≤ ch_block_size (w_header w) →
  ∃ w', EmitClusterIfNeeded w = (Ret (), w') ∧ idle w' ∧ same_settings w w' ∧
    view w' = foldl (put (w_co w)) (view w)
      (if cluster_full (w_pos w) then [cluster_entry (w_pos w)] else []).
Proof.
  intros Hok Hsp Hbs. pose proof Hok as (Hco & Hg & _). unfold EmitClusterIfNeeded. rewrite get_bind.
  destruct (cluster_full (w_pos w)) eqn:Hfull; [|by exists w].
  pose proof (cluster_full_co _ _ Hg Hfull) as Hne. pose proof (cluster_entry_ok _ _ Hco Hg Hne) as He.
  assert (Hdata : data_fits w (cluster_entry (w_pos w))).
  { intros _. change (zlen (cluster_entry (w_pos w)).2) with 0. lia. }
  destruct (write_one 2 w _ Hok He Hsp Hdata) as (w' & E & Hv & Hok' & Hs & _).
  assert (Hp' : w_pos w' = next (w_co w) (w_pos w) (cluster_entry (w_pos w))) by exact (f_equal im_pos Hv).
  assert (Hfresh : cluster_full (w_pos w') = false).
  { rewrite Hp'. apply cluster_fresh; [done..|apply Hsp]. }
  rewrite Hfresh in E. cbn [fst snd cluster_entry] in E. exists w'.
  split; [|by split; [split|]]. unfold EmitCluster. rewrite get_bind. exact E.
Qed.

Lemma InitializeAppend_ok fuel o c kind cb bb h L op file (d : D) :
  let q := end_pos (ch_cluster_ops h) (InitPos h 0) (L ++ [(op, [])]) in
  compression_of (opt_compression o) = Some c → opt_cluster_ops o ≠ 1 →
  ((SetupWriteOptions cb bb o).2 = true → ch_cluster_ops h ≠ 0) →
  header_ok h → op_type op = kCowLabelOp →
  image_of (ch_cluster_ops h) (c_enc header_codec h) (InitPos h 0) (L ++ [(op, [])]) (mkImage file q) →
  Forall (λ e, op_type e.1 = kCowLabelOp → op_source e.1 ≠ op_source op) L →
  zlen file < 2 ^ 62 → file_bytes d = file → (length L + 2 ≤ fuel)%nat →
  fits q → (∀ size, kind = BlockDevice size → next_data_pos q + cluster_size q + 2 ^ 17 ≤ size) →
  ∃ w, InitializeAppend fuel (op_source op) (NewCowWriter cb bb o kind d) = (Ret (), w) ∧ idle w ∧
    w_header w = h ∧ w_compression w = c ∧ w_fd_kind w = kind ∧
    w_options w = options_set (ch_block_size h) (ch_cluster_ops h) o ∧
    view w = foldl (put (ch_cluster_ops h)) (mkImage file q) (if cluster_full q then [cluster_entry q] else []).
Proof.
  intros q Hc Hco1 Hbatch Hh Ht Him Hlab Hsize Hd Hfuel Hf Hcap. pose proof (header_co h Hh) as Hco.
  pose proof (image_of_good _ Hco _ _ _ _ Him) as Hgq. cbn [im_pos] in Hgq.
  pose proof (good_order _ Hco _ Hgq) as Hord. pose proof Hgq as (_ & H38 & _ & _ & _ & H0 & _).
  pose proof Hf as Hf'. unfold fits, max_offset in Hf'.
  assert (Hcs : 0 ≤ cluster_size q) by (destruct Hgq as (-> & _); lia).
  set (wN := NewCowWriter cb bb o kind d).
  assert (HN : w_options wN = o ∧ w_compression wN = kCowCompressNone ∧ w_fd wN = d ∧ w_fd_kind wN = kind ∧
    w_batch_write wN = (SetupWriteOptions cb bb o).2 ∧ w_batch wN = mkBatch [] [] 0 0 0).
  { subst wN. unfold NewCowWriter. by destruct (SetupWriteOptions cb bb o). }
  destruct HN as (HN1&HN2&HN3&HN4&HN5&HN6). clearbody wN.
  unfold InitializeAppend.
  rewrite (io_bind_eq _ _ _ _ _ (ParseOptions_ok wN c ltac:(by rewrite HN1) HN2 ltac:(by rewrite HN1))).
  unfold OpenForAppend.
  (* the log up to the label *)
  pose proof (image_of_prefix _ Hco _ _ _ _ _ _ Him) as HimL.
  pose proof Him as (_ & _ & HL & _ & _ & Hlaid). apply (log_ok_app _ Hco) in HL as [_ [[Hwf _] _]].
  apply laid_app in Hlaid as [_ Hlaid]. apply Forall_cons in Hlaid as [Hheld _]. cbn [fst snd im_bytes] in *.
  destruct (Parse_label fuel false false file h L op d Hh HimL Hheld Hwf Ht Hlab Hsize Hd Hfuel) as (d1 & Hd1 & EP).
  rewrite (on_fd_bind _ _ _ _ d1) by (cbn [w_fd w_set_compression]; rewrite HN3; exact EP).
  cbv zeta. cbn [rd_header parsed rd_ops]. rewrite !modify_bind.
  assert (Hpos : foldl (λ p op, AddOperation (ch_cluster_ops h) op p) (InitPos h 0)
    (ps_ops (fin_label (ch_cluster_ops h) op (see_log (ch_cluster_ops h) (parse_start h) L))) = q).
  { unfold fin_label, set_label, parse_op. cbn [ps_ops]. rewrite see_log_ops.
    change (ps_ops (parse_start h) ++ L.*1) with (L.*1). subst q. rewrite <- fold_ops, fmap_app. done. }
  rewrite Hpos, get_bind. cbn [w_set_pos w_pos].
  destruct (seek_ok (next_op_pos q) d1 ltac:(lia)) as (d2 & E2 & Hd2 & _).
  rewrite (on_fd_bind _ _ _ () d2) by exact E2.
  erewrite io_bind_eq by apply InitBatchWrites_eq.
  match goal with |- ∃ _, EmitClusterIfNeeded (if w_batch_write ?x then _ else _) = _ ∧ _ => set (w5 := x) end.
  assert (Hw5 : w_pos w5 = q ∧ w_header w5 = h ∧ w_batch w5 = mkBatch [] [] 0 0 0 ∧ w_fd_kind w5 = kind ∧
    w_compression w5 = c ∧ w_batch_write w5 = (SetupWriteOptions cb bb o).2 ∧ w_fd w5 = d2 ∧
    w_options w5 = options_set (ch_block_size h) (ch_cluster_ops h) o).
  { subst w5. cbn [w_set_fd w_set_pos w_set_header w_set_options w_set_compression w_pos w_header w_batch
      w_batch_write w_fd w_compression w_fd_kind w_options]. by rewrite HN1. }
  destruct Hw5 as (V1&V2&V3&V4&V5&V6&V7&V8). clearbody w5.
  assert (Hdd : file_bytes (w_fd w5) = file) by (rewrite V7, Hd2; done).
  (* without the end of its cluster there is room for that only *)
  set (w6 := if w_batch_write w5 then _ else w5).
  assert (H6 : w_pos w6 = q ∧ w_header w6 = h ∧ w_fd_kind w6 = kind ∧ w_compression w6 = c ∧
     w_batch_write w6 = (SetupWriteOptions cb bb o).2 ∧ view w6 = mkImage file q ∧
     w_options w6 = options_set (ch_block_size h) (ch_cluster_ops h) o).
  { assert (Hs : same_settings w5 w6 ∧ w_pos w6 = w_pos w5 ∧ settled w6 ∧ w_fd w6 = w_fd w5).
    { subst w6. unfold settled. by destruct (w_batch_write w5); cbn [w_set_batch w_batch]; rewrite V3. }
    destruct Hs as ((->&->&->&->&_& ->) & Ep & Hset & Efd). unfold view. rewrite Ep, settled_vfile, Efd, Hdd, V1 by done.
    done. }
  destruct H6 as (U1&U2&U3&U4&U5&U6&U7).
  assert (Hok6 : writer_ok w6).
  { split; [by rewrite U2|]. split; [by rewrite U1, U2|]. unfold pending_ok. rewrite U1, U2, U5. subst w6.
    rewrite V6. destruct (SetupWriteOptions cb bb o).2 eqn:Hb; [|by rewrite V3].
    cbn [w_set_batch w_batch]. rewrite V3, V1. cbn [op_vec data_vec current_op_pos current_data_pos total_data_written].
    split; [by apply Hbatch|]. split; [apply batch_empty_wf; lia|]. change (zlen (concat [])) with 0.
    change (zlen (@nil CowOperation)) with 0. change (zlen (@nil bytes)) with 0.
    destruct Hgq as (_&_&_&_&?&?&_). lia. }
  destruct (EmitClusterIfNeeded_ok w6 Hok6) as (w7 & E7 & Hid & Hs7 & Hv7).
  { rewrite U1. split; [done|]. unfold capacity. rewrite U3. destruct kind; [lia|by apply Hcap|lia]. }
  { rewrite U2. destruct Hh as (_&_&_&_&?&_). lia. }
  exists w7. split; [exact E7|]. split; [done|]. destruct Hs7 as (S1&S2&S3&S4&S5&S6).
  rewrite S1, S2, S3, S6, Hv7, U1, U2, U6. done.
Qed.

(** A label is in the file when [AddLabel] returns. *)
Lemma AddLabel_settles l w w' : idle w → is_u64 l → space w (w_pos w) →
  space w (next (w_co w) (w_pos w) (mkOp kCowLabelOp 0 0 0 l, [])) → 0 ≤ ch_block_size (w_header w) →
  AddLabel l w = (Ret (), w') → settled w'.
Proof.
  intros [Hok Hfull] Hl Hsp Hsp' Hbs. set (e := (mkOp kCowLabelOp 0 0 0 l, [] : bytes)).
  pose proof Hok as (Hco & Hg & _).
  assert (He : entry_ok (w_co w) (w_pos w) e).
  { split; [|split; [done|split; [done|]]].
    - apply wf_op. by repeat (split; [done|]).
    - rewrite decide_False by done. done. }
  assert (Hdata : ∀ e', e'.2 = [] → data_fits w e').
  { intros e' E _. rewrite E. change (zlen []) with 0. lia. }
  assert (Hwrite : ∃ w2, WriteOperation e.1 e.2 w = (Ret (), w2) ∧ settled w2).
  { destruct (write_one 2 w e Hok He Hsp (Hdata e eq_refl)) as (w1 & E1 & Hv1 & Hok1 & Hs1 & _ & Hset1).
    assert (Hp1 : w_pos w1 = next (w_co w) (w_pos w) e) by exact (f_equal im_pos Hv1).
    pose proof Hs1 as (_&Hh1&_&Hb1&_&Hk1). pose proof Hok1 as (Hco1 & Hg1 & _).
    unfold WriteOperation. rewrite E1. destruct (cluster_full (w_pos w1)) eqn:Hfull1; [|exists w1; split; [done|by apply Hset1; left]].
    pose proof (cluster_full_co _ _ Hg1 Hfull1) as Hne.
    assert (Hsp1 : space w1 (w_pos w1)).
    { rewrite Hp1. destruct Hsp' as [? Hc]. split; [done|]. unfold capacity. by rewrite Hk1. }
    assert (Hdata1 : data_fits w1 (cluster_entry (w_pos w1))).
    { intros _. rewrite Hh1. change (zlen (cluster_entry (w_pos w1)).2) with 0. lia. }
    destruct (write_one 1 w1 _ Hok1 (cluster_entry_ok _ _ Hco1 Hg1 Hne) Hsp1 Hdata1)
      as (w2 & E2 & Hv2 & _ & _ & _ & Hset2).
    assert (Hfresh : cluster_full (w_pos w2) = false).
    { rewrite (f_equal im_pos Hv2 : w_pos w2 = _). apply cluster_fresh; [done..|apply Hsp1]. }
    rewrite Hfresh in E2. cbn [fst snd cluster_entry] in E2. exists w2.
    split; [exact E2|]. apply Hset2. by right. }
  destruct Hwrite as (w2 & E2 & Hset). intros E. unfold AddLabel, EmitLabel in E.
  rewrite (io_bind_eq _ _ _ _ _ E2) in E. destruct (Sync_ok w2) as (d & E3 & _). rewrite E3 in E.
  by injection E as <-.
Qed.
End Image.
