(* ===== verification/CowMerge.v ===== *)
(** * The order of the merge

    Without sequence data [PrepMergeOps] always succeeds: copy and xor operations come
    first, in the order of the log, then the others sorted by block. *)
From S2P Require Import Prelude Bytes Device CowFormat CowReader.

Definition block_of (x : nat * CowOperation) : Z := u32 (op_new_block x.2).
(** The operations that are merged, with their indexes. *)
Fixpoint data_ops (i : nat) (ops : list CowOperation) : list (nat * CowOperation) :=
  match ops with
  | [] => []
  | op :: ops => (if IsMetadataOp op then [] else [(i, op)]) ++ data_ops (S i) ops
  end.
Definition ordered_ops (l : list (nat * CowOperation)) : list (nat * CowOperation) :=
  filter (λ x, IsOrderedOp x.2 = true) l.
Definition other_ops (l : list (nat * CowOperation)) : list (nat * CowOperation) :=
  filter (λ x, ¬ IsOrderedOp x.2 = true) l.
Definition merge_init : MergeState := mkMerge [] [] ∅ ∅ 0.
Definition merge_all (s : MergeState) (l : list (nat * CowOperation)) : MergeState :=
  foldl (λ s x, merge_data_op false x.1 x.2 s) s l.
(** What a computation gives for every element. *)
Lemma mapM_map {A B} (f : A → outcome B) (g : A → B) l :
  (∀ x, x ∈ l → f x = Ret (g x)) → mapM f l = Ret (g <$> l).
Proof.
  induction l as [|x l IH]; intros H; [done|]. cbn [mapM].
  rewrite (H x) by apply list_elem_of_here. cbn [mbind outcome_mbind].
  rewrite IH; [done|]. intros y Hy. apply H. by apply list_elem_of_further.
Qed.

Lemma data_ops_lookup i ops x : x ∈ data_ops i ops →
  (i ≤ x.1)%nat ∧ ops !! (x.1 - i)%nat = Some x.2 ∧ IsMetadataOp x.2 = false.
Proof.
  revert i. induction ops as [|op ops IH]; intros i; simpl; [by intros ?%not_elem_of_nil|].
  intros [Hx|Hx]%elem_of_app.
  - destruct (IsMetadataOp op) eqn:E; [by apply not_elem_of_nil in Hx|].
    apply list_elem_of_singleton in Hx as ->. simpl. by rewrite Nat.sub_diag.
  - apply IH in Hx as (H1 & H2 & H3). split; [lia|]. split; [|done].
    by replace (x.1 - i)%nat with (S (x.1 - S i)) by lia.
Qed.

Lemma merge_all_blocks s l : mg_set s = ∅ →
  mg_blocks (merge_all s l) = mg_blocks s ++ (block_of <$> ordered_ops l) ∧
  mg_other (merge_all s l) = mg_other s ++ ((λ x, i32 (op_new_block x.2)) <$> other_ops l) ∧
  mg_set (merge_all s l) = ∅.
Proof.
  unfold merge_all. revert s. induction l as [|x l IH]; intros s Hs; [by rewrite !app_nil_r|].
  unfold ordered_ops, other_ops. rewrite !filter_cons. simpl.
  assert (Hset : mg_set (merge_data_op false x.1 x.2 s) = ∅).
  { unfold merge_data_op. simpl. by repeat case_match. }
  destruct (IH _ Hset) as (H1 & H2 & H3). rewrite H1, H2. split; [|split; [|done]];
    unfold merge_data_op; rewrite Hs; destruct (IsOrderedOp x.2) eqn:E; simpl;
    rewrite ?(decide_False (P := (_ ∈ ∅))) by set_solver; simpl; rewrite <- ?(assoc_L (++)); done.
Qed.

Lemma insert_new_lookup {A} k (a : A) m b :
  insert_new k a m !! b = match m !! b with Some x => Some x | None => if decide (b = k) then Some a else None end.
Proof.
  unfold insert_new. destruct (m !! k) as [x|] eqn:E.
  - destruct (m !! b) eqn:E'; [done|]. rewrite decide_False; [done|]. intros ->. congruence.
  - destruct (decide (b = k)) as [->|Hne]; [by rewrite E, lookup_insert_eq|].
    rewrite lookup_insert_ne by done. by destruct (m !! b).
Qed.
Lemma merge_data_map has i op s : mg_map (merge_data_op has i op s) = insert_new (u32 (op_new_block op)) i (mg_map s).
Proof. unfold merge_data_op. by repeat case_match. Qed.
(** A block stands for an operation on it. *)
Lemma merge_all_map_some s l b i : mg_map (merge_all s l) !! b = Some i →
  mg_map s !! b = Some i ∨ ∃ x, x ∈ l ∧ x.1 = i ∧ block_of x = b.
Proof.
  unfold merge_all. revert s. induction l as [|x l IH]; intros s; simpl; [by left|].
  intros [H|(y & Hy & H)]%IH; [|right; exists y; split; [by apply list_elem_of_further|done]].
  rewrite merge_data_map, insert_new_lookup in H. destruct (mg_map s !! b); [by left|].
  case_decide as E; [|done]. injection H as <-. right. exists x. split; [apply list_elem_of_here|done].
Qed.
Lemma merge_all_map_keep s l b i : mg_map s !! b = Some i → mg_map (merge_all s l) !! b = Some i.
Proof.
  unfold merge_all. revert s. induction l as [|x l IH]; intros s H; simpl; [done|]. apply IH.
  by rewrite merge_data_map, insert_new_lookup, H.
Qed.
Lemma merge_all_map_in s l x : x ∈ l → is_Some (mg_map (merge_all s l) !! block_of x).
Proof.
  unfold merge_all. revert s. induction l as [|y l IH]; intros s; [by intros ?%not_elem_of_nil|].
  intros [->|Hx]%elem_of_cons; simpl; [|by apply IH].
  destruct (mg_map (merge_data_op false y.1 y.2 s) !! block_of y) as [i|] eqn:E.
  - exists i. by apply merge_all_map_keep.
  - rewrite merge_data_map, insert_new_lookup in E. fold (block_of y) in E.
    destruct (mg_map s !! block_of y); [done|]. by rewrite decide_True in E.
Qed.
(** Without two operations on one block, that is the operation itself. *)
Lemma merge_all_map_exact l x : NoDup (block_of <$> l) → x ∈ l →
  mg_map (merge_all merge_init l) !! block_of x = Some x.1.
Proof.
  intros Hnd Hx. destruct (merge_all_map_in merge_init l x Hx) as [i Hi]. rewrite Hi.
  apply merge_all_map_some in Hi as [Hi|(y & Hy & Hi & Hb)]; [done|]. rewrite <- Hi. do 2 f_equal.
  apply list_elem_of_lookup in Hx as [j Hj]. apply list_elem_of_lookup in Hy as [k Hk].
  assert (k = j) as ->; [|congruence].
  apply (NoDup_lookup _ _ _ (block_of x) Hnd); rewrite list_lookup_fmap, ?Hj, ?Hk; simpl; by rewrite ?Hb.
Qed.

#[local] Instance ge_total : Total Z.ge.
Proof. intros x y. lia. Qed.
#[local] Instance ge_trans : Transitive Z.ge.
Proof. intros x y z. lia. Qed.
Lemma sort_blocks_perm um (l : list Z) : sort_blocks um l ≡ₚ l.
Proof. unfold sort_blocks. destruct um; apply merge_sort_Permutation. Qed.
Lemma sort_blocks_sorted (um : bool) l : Sorted (if um then Z.le else Z.ge) (sort_blocks um l).
Proof. unfold sort_blocks. destruct um; apply Sorted_merge_sort; apply _. Qed.

Definition merge_key (x : nat * CowOperation) : Z := i32 (op_new_block x.2).
Lemma key_block x : u32 (merge_key x) = block_of x.
Proof. apply u32_i32. Qed.
Lemma ordered_other l : ordered_ops l ++ other_ops l ≡ₚ l.
Proof.
  unfold ordered_ops, other_ops. induction l as [|x l IH]; [done|]. rewrite !filter_cons.
  destruct (decide (IsOrderedOp x.2 = true)) as [E|E].
  - rewrite decide_False by tauto. simpl. by rewrite IH.
  - rewrite decide_True by done. by rewrite <- Permutation_middle, IH.
Qed.
(** The other operations in the order of their blocks. *)
Lemma sorted_others um l : ∃ rest, sort_blocks um (merge_key <$> l) = merge_key <$> rest ∧ rest ≡ₚ l.
Proof.
  destruct (Permutation_map_inv merge_key l (sort_blocks_perm um (merge_key <$> l))) as (rest & E & Hp).
  exists rest. split; [exact E|done].
Qed.

Section Merge.
Context {D : Type} `{!CowFile D}.

Lemma merge_ops_eq r i ops s (d : D) : Forall (λ op, op_type op ≠ kCowSequenceOp) ops → rd_has_seq_ops r = false →
  merge_ops r i ops s d = (Ret (merge_all s (data_ops i ops)), d).
Proof.
  intros Hops Hseq. revert i s. induction Hops as [|op ops Hop _ IH]; intros i s; [done|].
  cbn [merge_ops data_ops]. rewrite (decide_False _ _ Hop).
  erewrite io_bind_eq by reflexivity. rewrite IH, Hseq.
  destruct (IsMetadataOp op); [done|]. done.
Qed.

(** The reader after [PrepMergeOps], which leaves the file alone. *)
Definition merged_reader (r : CowReader) (order : list (nat * CowOperation)) (ordered : Z) : CowReader :=
  let merged := ch_num_merge_ops (rd_header r) in
  mkReader (rd_header r) (rd_footer r) (rd_fd_size r) (rd_last_label r) (rd_ops r)
    (if decide (0 < merged) then merged else rd_merge_op_start r) (rd_block_pos_index r ++ order.*1)
    (zlen order) (if decide (merged < ordered) then ordered - merged else 0) (rd_has_seq_ops r) (rd_data_loc r)
    (rd_userspace_merge r) (rd_is_merge r).

(** [x] is among the operations with its index, by block. *)
Lemma merge_lookup l b : (∃ x, x ∈ l ∧ block_of x = b) →
  ∃ y, y ∈ l ∧ block_of y = b ∧ mg_map (merge_all merge_init l) !! b = Some y.1.
Proof.
  intros (x & Hx & <-). destruct (merge_all_map_in merge_init l x Hx) as [i Hi].
  destruct (merge_all_map_some _ _ _ _ Hi) as [H|(y & Hy & Hi' & Hb)]; [done|].
  exists y. rewrite Hi. by rewrite Hi'.
Qed.
(** The operations that stand for a list of blocks. *)
Lemma merge_indexes l bs : (∀ b, b ∈ bs → ∃ x, x ∈ l ∧ block_of x = b) →
  ∃ order, Forall (.∈ l) order ∧ block_of <$> order = bs ∧
    mapM (λ b, access (mg_map (merge_all merge_init l) !! b)) bs = Ret order.*1.
Proof.
  induction bs as [|b bs IH]; intros H; [by exists []|].
  destruct IH as (order & H1 & H2 & H3); [intros b' Hb'; apply H; by apply list_elem_of_further|].
  destruct (merge_lookup l b) as (y & Hy & Hb & E); [apply H, list_elem_of_here|].
  exists (y :: order). split; [by constructor|]. split; [cbn; by rewrite Hb, H2|].
  cbn [mapM]. rewrite E. cbn [access mbind outcome_mbind]. by rewrite H3.
Qed.

(** Whatever the operations are, the order is found; each entry of it is an operation on
    the block that it stands for. *)
Lemma PrepMergeOps_ok r (d : D) : Forall (λ op, op_type op ≠ kCowSequenceOp) (rd_ops r) →
  rd_has_seq_ops r = false → rd_is_merge r = false →
  let l := data_ops 0 (rd_ops r) in
  ∃ order rest, PrepMergeOps r d = (Ret (merged_reader r order (zlen (ordered_ops l))), d) ∧
    Forall (.∈ l) order ∧ block_of <$> order = (block_of <$> ordered_ops l) ++ (block_of <$> rest) ∧
    rest ≡ₚ other_ops l ∧ Sorted (if rd_userspace_merge r then Z.le else Z.ge) (merge_key <$> rest).
Proof.
  intros Hops Hseq Him l. unfold PrepMergeOps.
  rewrite (io_bind_eq _ _ _ _ _ (merge_ops_eq r 0 _ _ d Hops Hseq)). fold l. cbv beta zeta.
  destruct (merge_all_blocks merge_init l eq_refl) as (Hb & Ho & _).
  cbn [merge_init mg_blocks mg_other app] in Hb, Ho.
  match goal with |- context [mg_blocks ?s] => change s with (merge_all merge_init l) end.
  rewrite Hb, Ho.
  destruct (sorted_others (rd_userspace_merge r) (other_ops l)) as (rest & Esort & Hrest).
  rewrite io_require.
  2:{ rewrite Forall_fmap, Forall_forall. intros x Hx. apply merge_all_map_in.
      by apply list_elem_of_filter in Hx as [_ ?]. }
  change ((λ x : nat * CowOperation, i32 (op_new_block x.2)) <$> other_ops l) with (merge_key <$> other_ops l).
  rewrite Esort. cbv zeta.
  assert (Eblocks : u32 <$> (merge_key <$> rest) = block_of <$> rest).
  { rewrite <- list_fmap_compose. apply list_fmap_ext. intros _ x _. apply key_block. }
  rewrite Eblocks.
  destruct (merge_indexes l ((block_of <$> ordered_ops l) ++ (block_of <$> rest))) as (order & H1 & H2 & H3).
  { intros b. rewrite <- fmap_app. intros (x & -> & Hx)%list_elem_of_fmap. exists x. split; [|done].
    rewrite Hrest in Hx. by rewrite ordered_other in Hx. }
  rewrite H3. erewrite io_bind_eq by reflexivity.
  rewrite (mapM_map _ (λ i, default (mkOp 0 0 0 0 0) (rd_ops r !! i))).
  2:{ intros i (x & -> & Hx)%list_elem_of_fmap. apply (proj1 (Forall_forall _ _) H1) in Hx.
      apply data_ops_lookup in Hx as (_ & Hx & _). rewrite Nat.sub_0_r in Hx. by rewrite Hx. }
  erewrite io_bind_eq by reflexivity. exists order, rest. split; [|split; [done|split; [done|split; [done|]]]].
  - rewrite Him. unfold merged_reader. rewrite Him, <- H2. unfold zlen. by rewrite !length_fmap.
  - rewrite <- Esort. apply sort_blocks_sorted.
Qed.
End Merge.

(** ** Distinct blocks *)

Lemma fmap_inj_on {A B} (f : A → B) l a b : NoDup (f <$> l) → Forall (.∈ l) a → Forall (.∈ l) b →
  f <$> a = f <$> b → a = b.
Proof.
  intros Hnd Ha. revert b. induction Ha as [|x a Hx _ IH]; intros [|y b] Hb E; try done.
  apply Forall_cons in Hb as [Hy Hb]. injection E as Exy E. f_equal; [|by apply IH].
  apply list_elem_of_lookup in Hx as [i Hi]. apply list_elem_of_lookup in Hy as [j Hj].
  assert (i = j) as ->; [|congruence].
  apply (NoDup_lookup _ _ _ (f x) Hnd); rewrite list_lookup_fmap, ?Hi, ?Hj; simpl; by rewrite ?Exy.
Qed.
Lemma mapM_indexes ops order : Forall (.∈ data_ops 0 ops) order →
  mapM (λ n, access (ops !! n)) order.*1 = Ret order.*2.
Proof.
  induction 1 as [|x order Hx _ IH]; [done|]. cbn [fmap list_fmap mapM].
  destruct (data_ops_lookup _ _ _ Hx) as (_ & E & _). rewrite Nat.sub_0_r in E. rewrite E.
  cbn [access mbind outcome_mbind]. by rewrite IH.
Qed.

(** ** Merging in place

    [result op f] is what an operation writes if the device holds [f]; it depends on the
    blocks that the operation reads only. *)
Definition reads (op : CowOperation) : list Z :=
  if decide (op_type op = kCowCopyOp) then [op_source op]
  else if decide (op_type op = kCowXorOp) then
    let block := op_source op / BLOCK_SZ in
    block :: if decide (op_source op mod BLOCK_SZ ≠ 0) then [u64 (block + 1)] else []
  else [].
Section InPlace.
Context {B : Type} (result : CowOperation → (Z → B) → B).
Context (local : ∀ op f g, (∀ b, b ∈ reads op → f b = g b) → result op f = result op g).

Definition write_block (b : Z) (x : B) (f : Z → B) : Z → B := λ b', if decide (b' = b) then x else f b'.
(** Every operation sees what the ones before it left. *)
Definition merge_in_place (old : Z → B) (ops : list CowOperation) : Z → B :=
  foldl (λ f op, write_block (op_new_block op) (result op f) f) old ops.
(** Every operation sees the old content. *)
Definition merge_from_old (old : Z → B) (ops : list CowOperation) : Z → B :=
  foldl (λ f op, write_block (op_new_block op) (result op old) f) old ops.

Lemma verify_ops_cons over op ops : IsOrderedOp op = true → verify_ops over (op :: ops) = true →
  (∀ b, b ∈ reads op → b ∉ over) ∧ verify_ops ({[ op_new_block op ]} ∪ over) ops = true.
Proof.
  intros Ho. apply bool_decide_eq_true in Ho. cbn [verify_ops]. unfold reads.
  destruct (decide (op_type op = kCowCopyOp)) as [_|Hn].
  - intros [H1%bool_decide_eq_true H2]%andb_prop. split; [|done]. intros b Hb.
    by apply list_elem_of_singleton in Hb as ->.
  - rewrite decide_True by tauto. cbv zeta.
    intros [[H1%bool_decide_eq_true H2%bool_decide_eq_true]%andb_prop H3]%andb_prop. split; [|done].
    intros b Hb. rewrite (decide_True (P := op_type op = kCowXorOp)) in Hb by tauto. cbv zeta in Hb.
    apply elem_of_cons in Hb as [->|Hb]; [done|]. case_decide as Hm; [|by apply not_elem_of_nil in Hb].
    apply list_elem_of_singleton in Hb as ->. tauto.
Qed.
Lemma in_place_eq old over f g a b : (∀ x, f x = g x) → (∀ x, x ∉ over → f x = old x) →
  Forall (λ op, IsOrderedOp op = true) a → Forall (λ op, IsOrderedOp op ≠ true) b →
  verify_ops over (a ++ b) = true → ∀ x,
  foldl (λ f op, write_block (op_new_block op) (result op f) f) f (a ++ b) x =
  foldl (λ f op, write_block (op_new_block op) (result op old) f) g (a ++ b) x.
Proof.
  intros Hfg Hold Ha. revert over f g Hfg Hold. induction Ha as [|op a Hop _ IH]; intros over f g Hfg Hold Hb Hv x.
  - clear Hv Hold. cbn [app]. revert f g Hfg. induction Hb as [|op b Hop _ IH]; intros f g Hfg; [apply Hfg|].
    cbn [foldl]. apply IH. intros y. unfold write_block. case_decide; [|done]. apply local. intros z Hz.
    unfold IsOrderedOp in Hop. unfold reads in Hz. rewrite bool_decide_eq_true in Hop.
    rewrite !decide_False in Hz by tauto. by apply not_elem_of_nil in Hz.
  - destruct (verify_ops_cons over op (a ++ b) Hop Hv) as [Hreads Hv']. cbn [app foldl].
    apply (IH ({[ op_new_block op ]} ∪ over)); [| |done|done].
    + intros y. unfold write_block. case_decide; [|done]. apply local. intros z Hz.
      apply Hold. by apply Hreads.
    + intros y Hy. unfold write_block. rewrite decide_False by set_solver. apply Hold. set_solver.
Qed.
End InPlace.

Section Exact.
Context {D : Type} `{!CowFile D}.
Lemma merge_order_exact r (d : D) : Forall (λ op, op_type op ≠ kCowSequenceOp) (rd_ops r) →
  rd_has_seq_ops r = false → rd_block_pos_index r = [] → rd_is_merge r = false →
  NoDup (block_of <$> data_ops 0 (rd_ops r)) →
  let ordered := ordered_ops (data_ops 0 (rd_ops r)) in
  ∃ r' rest, PrepMergeOps r d = (Ret r', d) ∧ rd_ops r' = rd_ops r ∧
    rd_block_pos_index r' = (ordered ++ rest).*1 ∧ rest ≡ₚ other_ops (data_ops 0 (rd_ops r)) ∧
    Sorted (if rd_userspace_merge r then Z.le else Z.ge) (merge_key <$> rest) ∧
    rd_num_ordered_ops_to_merge r' =
      (let merged := ch_num_merge_ops (rd_header r) in
       if decide (merged < zlen ordered) then zlen ordered - merged else 0).
Proof.
  intros Hops Hseq Hidx Him Hnd ordered.
  destruct (PrepMergeOps_ok r d Hops Hseq Him) as (order & rest & E & Hin & Hblocks & Hrest & Hsorted).
  set (l := data_ops 0 (rd_ops r)) in *. fold ordered in Hblocks, E.
  assert (order = ordered ++ rest) as ->.
  { apply (fmap_inj_on block_of l); [done|done| |by rewrite fmap_app].
    apply Forall_forall. intros x Hx. rewrite Hrest in Hx. subst ordered. by rewrite ordered_other in Hx. }
  exists (merged_reader r (ordered ++ rest) (zlen ordered)), rest. split; [done|].
  split; [done|]. split; [|done]. unfold merged_reader. cbn [rd_block_pos_index]. by rewrite Hidx.
Qed.
Lemma verified_in_place {B} (result : CowOperation → (Z → B) → B) r r' (d d' : D) :
  (∀ op f g, (∀ b, b ∈ reads op → f b = g b) → result op f = result op g) →
  Forall (λ op, op_type op ≠ kCowSequenceOp) (rd_ops r) → rd_has_seq_ops r = false →
  rd_block_pos_index r = [] → rd_is_merge r = false → NoDup (block_of <$> data_ops 0 (rd_ops r)) →
  PrepMergeOps r d = (Ret r', d') → VerifyMergeOps r' = Ret true →
  ∃ ops, mapM (λ n, access (rd_ops r' !! n)) (rd_block_pos_index r') = Ret ops ∧
    ops ≡ₚ (data_ops 0 (rd_ops r)).*2 ∧
    ∀ old b, merge_in_place result old ops b = merge_from_old result old ops b.
Proof.
  intros Hlocal Hops Hseq Hidx Him Hnd E Hv.
  destruct (merge_order_exact r d Hops Hseq Hidx Him Hnd) as (r1 & rest & E1 & Hro & Hri & Hrest & _).
  rewrite E1 in E. injection E as <- <-. set (l := data_ops 0 (rd_ops r)) in *.
  assert (Hmap : mapM (λ n, access (rd_ops r1 !! n)) (rd_block_pos_index r1) = Ret (ordered_ops l ++ rest).*2).
  { rewrite Hro, Hri. apply mapM_indexes. apply Forall_forall. intros x Hx. rewrite Hrest in Hx.
    by rewrite ordered_other in Hx. }
  exists (ordered_ops l ++ rest).*2. split; [done|]. split; [by rewrite Hrest, ordered_other|].
  unfold VerifyMergeOps in Hv. rewrite Hmap in Hv. injection Hv as Hv. rewrite fmap_app in *.
  intros old b. apply (in_place_eq result Hlocal old ∅ old old); [done|done| | |done].
  - apply Forall_fmap, Forall_forall. intros x Hx. by apply list_elem_of_filter in Hx as [? _].
  - apply Forall_fmap, Forall_forall. intros x Hx. rewrite Hrest in Hx. by apply list_elem_of_filter in Hx as [? _].
Qed.
End Exact.
