(* ===== verification/CowMeaning.v ===== *)
(** * What requests mean, and that a reader sees it

    Every request stands for a list of blocks with their contents; the operations that a
    reader finds in the finished image, and the data that it reads for them, are those. *)
From S2P Require Import Prelude Bytes Device CowFormat CowReader CowWriter CowLog CowParse.
From S2P Require Import CowAppend CowRequest CowImage CowMerge.

Inductive content :=
  | Copied (old_block : Z)
  | Replaced (block : bytes)
  | Zeroed
  | Xored (source : Z) (block : bytes)
  | Labelled (label : Z).
Abbreviation meaning := (Z * content)%type.

(** The operations without the ends of the clusters. *)
Definition visible (ops : list CowOperation) : list CowOperation :=
  filter (λ op, op_type op ≠ kCowClusterOp) ops.
Definition xor_target (x : meaning) : option Z := match x.2 with Xored _ _ => Some x.1 | _ => None end.

Section Meaning.
Context (compress2 BrotliEncoderCompress LZ4_compress_default : bytes → option bytes).
Context (inflate brotli_decode LZ4_decompress_safe : bytes → Z → outcome bytes).
Context {D : Type} `{CF : !CowFile D, LD : !CowFileLaws D}.
Context (w0 : CowWriter D).
Abbreviation block_size := (ch_block_size (w_header w0)).
Abbreviation compression := (w_compression w0).
Abbreviation stored := (stored compress2 BrotliEncoderCompress LZ4_compress_default w0).
Abbreviation makers := (makers compress2 BrotliEncoderCompress LZ4_compress_default w0).

Fixpoint block_meanings (f : Z → bytes → content) (new_block i : Z) (blocks : list bytes) : list meaning :=
  match blocks with
  | [] => []
  | block :: blocks => (u64 (new_block + i), f i block) :: block_meanings f new_block (i + 1) blocks
  end.
(** The blocks that a request writes; sequence data has no block. *)
Definition meanings (r : request) : list meaning :=
  match r with
  | RCopy new_block old_block num_blocks =>
      (λ i, (u64 (new_block + i), Copied (u64 (old_block + i)))) <$> seqZ 0 (Z.of_nat (Z.to_nat num_blocks))
  | RRaw new_block data => block_meanings (λ _, Replaced) new_block 0 (data_blocks w0 data)
  | RXor new_block data old_block offset =>
      block_meanings (λ i, Xored (u64 (u64 (old_block + i) * block_size + offset))) new_block 0 (data_blocks w0 data)
  | RZero new_block num_blocks =>
      (λ i, (u64 (new_block + i), Zeroed)) <$> seqZ 0 (Z.of_nat (Z.to_nat num_blocks))
  | RLabel label => [(0, Labelled label)]
  | RSequence _ => []
  end.
Definition is_sequence (r : request) : bool := match r with RSequence _ => true | _ => false end.

(** The data of an entry decodes to the block. *)
Definition has_block (e : entry) (block : bytes) : Prop :=
  e.2 ≠ [] ∧
  decode_data inflate brotli_decode LZ4_decompress_safe (op_compression e.1) block_size e.2 = Ret block ∧
  (op_compression e.1 = kCowCompressLz4 → full_reads (D := D)).
(** The makers of the operation of a meaning. *)
Definition describes (m : Positions → entry) (x : meaning) : Prop := ∀ p,
  op_new_block (m p).1 = x.1 ∧
  match x.2 with
  | Copied old => op_type (m p).1 = kCowCopyOp ∧ op_source (m p).1 = old
  | Zeroed => op_type (m p).1 = kCowZeroOp
  | Labelled label => op_type (m p).1 = kCowLabelOp ∧ op_source (m p).1 = label
  | Replaced block => op_type (m p).1 = kCowReplaceOp ∧ op_source (m p).1 = next_data_pos p ∧
      has_block (m p) block
  | Xored source block => op_type (m p).1 = kCowXorOp ∧ op_source (m p).1 = source ∧
      has_block (m p) block
  end.
(** What a reader sees of it: also the data, whatever descriptor of the file it is read from. *)
Definition means (r : CowReader) (c : bytes) (op : CowOperation) (x : meaning) : Prop :=
  op_new_block op = x.1 ∧
  match x.2 with
  | Copied old => op_type op = kCowCopyOp ∧ op_source op = old
  | Zeroed => op_type op = kCowZeroOp
  | Labelled label => op_type op = kCowLabelOp ∧ op_source op = label
  | Replaced block => op_type op = kCowReplaceOp ∧
      ∀ d : D, file_bytes d = c →
        ∃ d', ReadData inflate brotli_decode LZ4_decompress_safe r op d = (Ret block, d') ∧ file_bytes d' = c
  | Xored source block => op_type op = kCowXorOp ∧ op_source op = source ∧
      ∀ d : D, file_bytes d = c →
        ∃ d', ReadData inflate brotli_decode LZ4_decompress_safe r op d = (Ret block, d') ∧ file_bytes d' = c
  end.

Context (codecs : codecs_ok inflate brotli_decode LZ4_decompress_safe compress2 BrotliEncoderCompress LZ4_compress_default).
Context (lz4_reads : compression = kCowCompressLz4 → full_reads (D := D)).

Lemma stored_decodes block : zlen block = block_size → stored block ≠ [] →
  decode_data inflate brotli_decode LZ4_decompress_safe compression block_size (stored block) = Ret block.
Proof.
  intros Hlen Hne. rewrite <- Hlen. unfold CowRequest.stored in *.
  destruct (decide (compression = kCowCompressNone)) as [Hn|Hn].
  - unfold decode_data. by rewrite decide_True.
  - by apply Compress_decodes.
Qed.
Lemma block_makers_describe type new_block old_block offset f i blocks :
  (type = kCowReplaceOp ∧ (∀ i, f i = Replaced) ∨
   type = kCowXorOp ∧ ∀ i, f i = Xored (u64 (u64 (old_block + i) * block_size + offset))) →
  Forall (λ b, zlen b = block_size) blocks →
  Forall (block_fits compress2 BrotliEncoderCompress LZ4_compress_default w0) blocks →
  Forall2 describes (block_makers compress2 BrotliEncoderCompress LZ4_compress_default w0 type new_block old_block offset i blocks)
    (block_meanings f new_block i blocks).
Proof.
  intros Hf. revert i. induction blocks as [|b blocks IH]; intros i; [constructor|].
  intros [Hl Hls]%Forall_cons [[[Hb _] _] Hbs]%Forall_cons. constructor; [|by apply IH].
  intros p. pose proof (stored_decodes b Hl Hb) as Hdec.
  destruct Hf as [[-> Hf]|[-> Hf]]; cbn [fst snd]; rewrite Hf; done.
Qed.
Lemma makers_describe r : 0 < block_size → is_sequence r = false →
  valid_request compress2 BrotliEncoderCompress LZ4_compress_default w0 r → Forall2 describes (makers r) (meanings r).
Proof.
  intros Hb Hseq Hr.
  destruct r as [nb ob n|nb data|nb data ob off|nb n|l|data]; cbn [CowRequest.makers meanings]; [| | | | |done].
  - apply Forall2_fmap, Forall_Forall2_diag, Forall_forall. intros i _ p. done.
  - destruct Hr as (_ & _ & Hf). apply block_makers_describe; [by left|by apply data_blocks_size|done].
  - destruct Hr as (_ & _ & Hf). apply block_makers_describe; [by right|by apply data_blocks_size|done].
  - apply Forall2_fmap, Forall_Forall2_diag, Forall_forall. intros i _ p. done.
  - by constructor; [intros p|constructor].
Qed.
Lemma describes_not_cluster m x p : describes m x → op_type (m p).1 ≠ kCowClusterOp ∧ op_type (m p).1 ≠ kCowSequenceOp.
Proof.
  intros Hm. specialize (Hm p) as [_ Hm]. destruct x as [nb [old|b| |src b|l]]; simpl in Hm;
    [destruct Hm as [-> _]|destruct Hm as [-> _]|rewrite Hm|destruct Hm as [-> _]|destruct Hm as [-> _]]; done.
Qed.

Lemma describes_xor m x p : describes m x → op_type (m p).1 = kCowXorOp →
  xor_target x = Some (op_new_block (m p).1).
Proof.
  intros Hm. specialize (Hm p) as [-> Hm]. destruct x as [nb [old|b| |src b|l]]; simpl in *;
    [destruct Hm as [-> _]|destruct Hm as [-> _]|rewrite Hm|done|destruct Hm as [-> _]]; done.
Qed.

(** Where the entries of the log come from. *)
Lemma written_elem co p ms e : e ∈ written co p ms →
  op_type e.1 = kCowClusterOp ∨ ∃ m q, m ∈ ms ∧ e = m q.
Proof.
  revert p. induction ms as [|m ms IH]; intros p; [by intros ?%not_elem_of_nil|]. cbn [written].
  intros [H|H]%elem_of_app.
  - unfold extension in H. apply elem_of_cons in H as [->|H]; [right; exists m, p; split; [apply list_elem_of_here|done]|].
    left. case_match; [|by apply not_elem_of_nil in H]. by apply list_elem_of_singleton in H as ->.
  - apply IH in H as [H|(m' & q & Hm & ->)]; [by left|right]. exists m', q. split; [by apply list_elem_of_further|done].
Qed.
Lemma visible_app x y : visible (x ++ y) = visible x ++ visible y.
Proof. apply filter_app. Qed.
Lemma visible_extension co p e : op_type e.1 ≠ kCowClusterOp → visible (extension co p e).*1 = [e.1].
Proof.
  intros He. unfold extension, visible. rewrite fmap_cons, filter_cons, decide_True by done. f_equal.
  case_match; done.
Qed.

(** An xor operation is found by its block. *)
Lemma see_log_data_loc co s L1 e L2 : op_type e.1 = kCowXorOp →
  ps_data_loc s !! op_new_block e.1 = None →
  (∀ e', e' ∈ L1 → op_type e'.1 = kCowXorOp → op_new_block e'.1 ≠ op_new_block e.1) →
  ps_data_loc (see_log co s (L1 ++ e :: L2)) !! op_new_block e.1 = Some (ps_data_pos (see_log co s L1)).
Proof.
  intros Ht. revert s. induction L1 as [|e1 L1 IH]; intros s Hs HL1; cbn [app see_log foldl].
  - assert (Hkeep : ∀ s', ps_data_loc s' !! op_new_block e.1 = Some (ps_data_pos s) →
      ps_data_loc (see_log co s' L2) !! op_new_block e.1 = Some (ps_data_pos s)).
    { induction L2 as [|e2 L2 IH]; intros s' Hs'; [done|]. cbn [see_log foldl]. apply IH.
      unfold see. repeat (case_decide; simpl); rewrite ?insert_new_lookup, ?Hs'; done. }
    apply Hkeep. unfold see. rewrite Ht. simpl. by rewrite (decide_True _ _ Ht), insert_new_lookup, Hs, decide_True.
  - apply IH.
    + unfold see. assert (Hne : op_type e1.1 = kCowXorOp → op_new_block e.1 ≠ op_new_block e1.1).
      { intros H E. apply (HL1 e1); [apply list_elem_of_here|done|done]. }
      repeat (case_decide; simpl); rewrite ?insert_new_lookup, ?Hs, ?decide_False; auto.
    + intros e' He'. apply HL1. by apply list_elem_of_further.
Qed.

(** ** The finished image *)

Lemma closing_empty co p : (co = 0 ∨ 2 ≤ co ∧ co * 20 < 2 ^ 32) → good co p → fits p →
  current_data_size (end_pos co p (closing p)) = 0 ∧ visible (closing p).*1 = [].
Proof.
  intros Hco Hg Hf. unfold closing. destruct (needs_cluster p) eqn:Hn.
  - split; [|done]. cbn [end_pos foldl]. apply andb_prop in Hn as [Hn _].
    apply negb_true_iff, bool_decide_eq_false in Hn. pose proof Hg as (E1&_).
    rewrite next_cluster; [done|done|lia|done|done].
  - split; [|done]. cbn [end_pos foldl]. pose proof Hg as (E1&_&_&_&_&E6&Hg').
    apply andb_false_iff in Hn as [Hn|Hn].
    + apply negb_false_iff, bool_decide_eq_true in Hn. rewrite decide_True in Hg' by lia. lia.
    + apply bool_decide_eq_false in Hn. lia.
Qed.

Abbreviation h := (w_header w0).
Section Finished.
Context (c : bytes) (r : CowReader) (W K : list entry) (fin : finished c h (W ++ K)).
Context (no_data : current_data_size (end_pos (w_co w0) (InitPos h 0) (W ++ K)) = 0).
Context (r_size : rd_fd_size r = zlen c) (r_header : rd_header r = h).
Context (r_loc : rd_data_loc r = ps_data_loc (see_log (w_co w0) (parse_start h) (W ++ K))).

(** The data of an entry is before the footer. *)
Lemma finished_data L1 e L2 : W ++ K = L1 ++ e :: L2 → e.2 ≠ [] →
  let off := next_data_pos (end_pos (w_co w0) (InitPos h 0) L1) in
  holds c off e.2 ∧ in_data r c off (zlen e.2) ∧ op_data_length e.1 = zlen e.2.
Proof.
  intros E Hne off. destruct fin as (Hh & Him & Hfoot & Hsize).
  pose proof (header_co h Hh) as Hco.
  destruct Him as (Hg & _ & HL & _ & _ & Hlaid). cbn [im_bytes] in Hlaid.
  pose proof (places_used _ Hco _ _ Hg HL) as Hu. pose proof (good_end _ Hco _ _ Hg HL) as (_ & H38 & _).
  assert (Hin : (off, e.2) ∈ places (w_co w0) (InitPos h 0) (W ++ K)).
  { rewrite E, places_app. apply elem_of_app. right. cbn [places].
    apply list_elem_of_further, list_elem_of_here. }
  assert (Hoff : 38 ≤ off ∧ op_data_length e.1 = zlen e.2).
  { rewrite E in HL. apply (log_ok_app _ Hco) in HL as [HL1 [He _]].
    pose proof (good_end _ Hco _ _ Hg HL1) as Hg1. pose proof (good_order _ Hco _ Hg1) as Hord.
    destruct Hg1 as (_ & ? & _ & _ & _ & ? & _). split; [subst off; lia|apply He]. }
  pose proof (proj1 (Forall_forall _ _) Hu _ Hin) as [_ Hused].
  pose proof (proj1 (Forall_forall _ _) Hlaid _ Hin) as Hholds. cbn [fst snd] in *.
  assert (Hpos : 0 < zlen e.2) by (unfold zlen; destruct (e.2); simpl; [done|lia]).
  assert (Hfl : zlen (c_enc footer_codec (footer_of (zlen (W ++ K)))) = 84).
  { pose proof (end_pos_grows _ Hco _ _ Hg HL) as (Hgr & _). pose proof (zlen_nonneg (W ++ K)).
    pose proof Hg as (_ & ? & _).
    assert (Hne' : c_enc footer_codec (footer_of (zlen (W ++ K))) ≠ []).
    { rewrite enc_footer. by intros [_ ?]%app_eq_nil. }
    pose proof (holds_zlen _ (next_op_pos (end_pos (w_co w0) (InitPos h 0) (W ++ K))) _ ltac:(lia) Hfoot Hne').
    pose proof (zlen_nonneg (c_enc footer_codec (footer_of (zlen (W ++ K))))).
    unfold zlen at 1. rewrite (enc_length (footer_of (zlen (W ++ K)))); [done|]. apply footer_of_wf. lia. }
  assert (Hend : next_op_pos (end_pos (w_co w0) (InitPos h 0) (W ++ K)) + 84 ≤ zlen c).
  { rewrite <- Hfl. apply holds_zlen; [lia|done|]. intros E'. by rewrite E' in Hfl. }
  split; [done|]. split; [|apply Hoff]. unfold in_data. rewrite r_size, r_header.
  destruct Hh as (_ & _ & Hhs & _). rewrite Hhs. change (sizeof header_codec) with 38.
  destruct Hused as [Hu0|[Hu0|Hu0]]; [done|lia|]. rewrite no_data in Hu0. lia.
Qed.

(** The data of an entry decodes to the block. *)
Lemma finished_read L1 e L2 block (d : D) : W ++ K = L1 ++ e :: L2 →
  data_offset r e.1 = Some (next_data_pos (end_pos (w_co w0) (InitPos h 0) L1)) → has_block e block →
  file_bytes d = c →
  ∃ d', ReadData inflate brotli_decode LZ4_decompress_safe r e.1 d = (Ret block, d') ∧ file_bytes d' = c.
Proof.
  intros E Hoff (Hne & Hdec & Hlz4) Hd. destruct (finished_data L1 e L2 E Hne) as (Hholds & Hin & Hdl).
  eapply ReadData_ok; [done|exact Hoff|done|done|done|done|]. by rewrite r_header.
Qed.
End Finished.

(** Every operation means what was asked for. *)
Lemma finished_means c r ms xs K : let p0 := InitPos h 0 in let W := written (w_co w0) p0 ms in
  finished c h (W ++ K) → current_data_size (end_pos (w_co w0) p0 (W ++ K)) = 0 →
  rd_fd_size r = zlen c → rd_header r = h →
  rd_data_loc r = ps_data_loc (see_log (w_co w0) (parse_start h) (W ++ K)) →
  Forall2 describes ms xs → NoDup (omap xor_target xs) →
  Forall2 (means r c) (visible W.*1) xs.
Proof.
  intros p0 W Hfin Hcds Hsize Hrh Hloc Hms Hnd.
  assert (Hgen : ∀ ms2 xs2 ms1 xs1, ms = ms1 ++ ms2 → xs = xs1 ++ xs2 → Forall2 describes ms1 xs1 →
    Forall2 describes ms2 xs2 →
    Forall2 (means r c) (visible (written (w_co w0) (end_pos (w_co w0) p0 (written (w_co w0) p0 ms1)) ms2).*1) xs2).
  { induction ms2 as [|m ms2 IH]; intros xs2 ms1 xs1 Ems Exs H1 H2.
    { apply Forall2_nil_inv_l in H2 as ->. constructor. }
    apply Forall2_cons_inv_l in H2 as (x & xs2' & Hm & H2' & ->).
    set (q := end_pos (w_co w0) p0 (written (w_co w0) p0 ms1)).
    destruct (describes_not_cluster m x q Hm) as [Hncl _].
    cbn [written]. rewrite fmap_app, visible_app, visible_extension by done. cbn [app].
    assert (Hsplit : W ++ K = written (w_co w0) p0 ms1 ++ m q ::
      ((if cluster_full (next (w_co w0) q (m q)) then [cluster_entry (next (w_co w0) q (m q))] else []) ++
       written (w_co w0) (end_pos (w_co w0) q (extension (w_co w0) q (m q))) ms2 ++ K)).
    { subst W. rewrite Ems, written_app. fold q. cbn [written]. unfold extension at 1. rewrite <- !(assoc_L (++)).
      done. }
    constructor.
    - pose proof (Hm q) as [Hnb Hct]. split; [done|]. destruct x as [nb [old|b| |src b|l]]; simpl in *; try done.
      + destruct Hct as (Ht & Hsrc & Hblock). split; [done|]. intros d Hd.
        eapply (finished_read c r W K Hfin Hcds Hsize Hrh); try done.
        unfold data_offset. rewrite Ht. by rewrite decide_False, Hsrc.
      + destruct Hct as (Ht & Hsrc & Hblock). split; [done|]. split; [done|]. intros d Hd.
        eapply (finished_read c r W K Hfin Hcds Hsize Hrh); try done.
        unfold data_offset. rewrite Ht, decide_True by done. rewrite Hloc, Hsplit.
        rewrite see_log_data_loc; [|done|done|].
        * f_equal. apply (see_log_at (w_co w0) (parse_start h) p0). done.
        * intros e' He' Ht' Enb. apply written_elem in He' as [He'|(m' & q' & Hm' & ->)]; [congruence|].
          apply list_elem_of_lookup in Hm' as [i Hi]. destruct (Forall2_lookup_l _ _ _ _ _ H1 Hi) as (x' & Hx' & Hd').
          apply list_elem_of_lookup_2 in Hx'. pose proof (describes_xor _ _ q' Hd' Ht') as Hxt.
          rewrite Exs, omap_app in Hnd. apply NoDup_app in Hnd as (_ & Hnd & _).
          apply (Hnd (op_new_block (m' q').1)); [apply list_elem_of_omap; by exists x'|].
          rewrite Enb, Hnb. apply list_elem_of_here.
    - assert (Eq : end_pos (w_co w0) q (extension (w_co w0) q (m q)) =
                   end_pos (w_co w0) p0 (written (w_co w0) p0 (ms1 ++ [m]))).
      { rewrite written_app, end_pos_app. cbn [written]. by rewrite app_nil_r. }
      rewrite Eq. apply (IH _ (ms1 ++ [m]) (xs1 ++ [x])); [by rewrite <- (assoc_L (++))|by rewrite <- (assoc_L (++))| |done].
      apply Forall2_app; [done|by constructor]. }
  apply (Hgen ms xs [] []); [done|done|constructor|done].
Qed.
End Meaning.
