(* ===== verification/CowSession.v ===== *)
(** * Sessions of a writer

    Requests, then [Finalize]: a reader of the file sees what was asked for.  A label is
    stored when [AddLabel] returns, and a later session can go on from there.  At the end,
    images on which the reader goes wrong. *)
From S2P Require Import Prelude Bytes Device CowFormat CowReader CowWriter CowLog CowParse CowAppend CowRequest.
From S2P Require Import CowImage CowMerge CowMeaning.

(** No operation says that the order of the merge is given. *)
Lemma see_log_seq co s L : Forall (λ e, op_type e.1 ≠ kCowSequenceOp) L →
  ps_has_seq_ops (see_log co s L) = ps_has_seq_ops s.
Proof.
  revert s. induction L as [|e L IH]; intros s; [done|]. intros [He HL]%Forall_cons.
  change (see_log co s (e :: L)) with (see_log co (see co s e) L). rewrite (IH _ HL). unfold see. destruct (decide (op_type e.1 = kCowLabelOp)); [done|].
  by rewrite decide_False.
Qed.

Section Session.
Context (compress2 BrotliEncoderCompress LZ4_compress_default : bytes → option bytes).
Context (inflate brotli_decode LZ4_decompress_safe : bytes → Z → outcome bytes).
Context {D : Type} `{CF : !CowFile D, LD : !CowFileLaws D}.
Context (codecs : codecs_ok inflate brotli_decode LZ4_decompress_safe compress2 BrotliEncoderCompress LZ4_compress_default).
Implicit Types w : CowWriter D.
Abbreviation describes := (describes inflate brotli_decode LZ4_decompress_safe).
Abbreviation means := (means inflate brotli_decode LZ4_decompress_safe (D := D)).
Abbreviation all_makers := (all_makers compress2 BrotliEncoderCompress LZ4_compress_default).
Abbreviation perform_all := (perform_all compress2 BrotliEncoderCompress LZ4_compress_default).

Definition all_meanings w (rs : list request) : list meaning := concat (meanings w <$> rs).
(** Every reader of the file sees this; the length of the file bounds the number of
    operations. *)
Definition reads_as (c : bytes) (xs : list meaning) : Prop :=
  ∀ (um : bool) (d : D) fuel, file_bytes d = c → (length c ≤ fuel)%nat →
  ∃ r d', Parse fuel None (NewCowReader um false) d = (Ret r, d') ∧ file_bytes d' = c ∧
    Forall2 (means r c) (visible (rd_ops r)) xs.
(** Valid requests without sequence data, with space for what they add. *)
Definition session_ok w (rs : list request) : Prop :=
  Forall (valid_request compress2 BrotliEncoderCompress LZ4_compress_default w) rs ∧
  Forall (λ r, is_sequence r = false) rs ∧
  fitting w (w_pos w) (all_makers w rs) ∧
  space w (end_pos (w_co w) (w_pos w) (written (w_co w) (w_pos w) (all_makers w rs))).

Lemma all_makers_describe w rs : 0 < ch_block_size (w_header w) →
  (w_compression w = kCowCompressLz4 → full_reads (D := D)) →
  Forall (valid_request compress2 BrotliEncoderCompress LZ4_compress_default w) rs →
  Forall (λ r, is_sequence r = false) rs →
  Forall2 (describes w) (all_makers w rs) (all_meanings w rs).
Proof.
  intros Hb Hlz4 Hv Hs. unfold CowRequest.all_makers, all_meanings.
  induction rs as [|r rs IH]; [constructor|]. apply Forall_cons in Hv as [Hv Hvs]. apply Forall_cons in Hs as [Hs Hss].
  cbn [fmap list_fmap concat]. apply Forall2_app; [by apply makers_describe|by apply IH].
Qed.
Lemma no_sequences w ms xs co p : Forall2 (describes w) ms xs →
  Forall (λ e, op_type e.1 ≠ kCowSequenceOp) (written co p ms).
Proof.
  intros Hms. apply Forall_forall. intros e He. apply written_elem in He as [E|(m & q & Hm & ->)]; [by rewrite E|].
  apply list_elem_of_lookup in Hm as [i Hi]. destruct (Forall2_lookup_l _ _ _ _ _ Hms Hi) as (x & _ & Hd).
  by eapply describes_not_cluster.
Qed.

(** A finished image with the log of described makers. *)
Lemma finished_reads_as w c ms xs : let h := w_header w in let p := InitPos h 0 in
  let W := written (w_co w) p ms in
  finished c h (W ++ closing (end_pos (w_co w) p W)) → fits (end_pos (w_co w) p W) →
  Forall2 (describes w) ms xs → NoDup (omap xor_target xs) → reads_as c xs.
Proof.
  intros h p. subst h p. intros W Hfin Hf Hms Hnd um d fuel Hd Hfuel. set (L := W ++ closing (end_pos (w_co w) (InitPos (w_header w) 0) W)) in *.
  pose proof Hfin as (Hh & Him & Hfoot & _). pose proof (header_co _ Hh) as Hco.
  pose proof Him as (Hg & _ & HL & _). pose proof (end_pos_grows _ Hco _ _ Hg HL) as (Hgr & _).
  pose proof Hg as (_ & H38 & _).
  assert (Hseq : Forall (λ e, op_type e.1 ≠ kCowSequenceOp) L).
  { apply Forall_app. split; [by eapply no_sequences|]. unfold closing. case_match; by repeat constructor. }
  assert (Hfuel' : (length L + 2 ≤ fuel)%nat).
  { assert (c_enc footer_codec (footer_of (zlen L)) ≠ []) as Hne.
    { rewrite enc_footer. by intros [_ ?]%app_eq_nil. }
    pose proof (zlen_nonneg (c_enc footer_codec (footer_of (zlen L)))). pose proof (zlen_nonneg L).
    pose proof (holds_zlen c (next_op_pos (end_pos (w_co w) (InitPos (w_header w) 0) L)) _ ltac:(lia) Hfoot Hne) as Hend.
    unfold zlen in *. lia. }
  destruct (Parse_footer fuel um false c (w_header w) L d Hfin Hd Hfuel') as (d' & Hd' & E).
  set (r0 := parsed (w_header w) (zlen c) um false _) in E.
  assert (Hops : rd_ops r0 = L.*1).
  { subst r0. unfold parsed, fin_footer, set_footer. cbn [rd_ops ps_ops]. by rewrite see_log_ops. }
  destruct (PrepMergeOps_ok r0 d') as (order & rest & Em & _).
  { rewrite Hops, Forall_fmap. exact Hseq. }
  { subst r0. unfold parsed, fin_footer, set_footer, parse_op. cbn [rd_has_seq_ops ps_has_seq_ops].
    by rewrite see_log_seq. }
  { done. }
  rewrite Em in E. eexists _, d'. split; [exact E|]. split; [done|].
  pose proof (good_end _ Hco _ _ Hg (proj1 (proj1 (log_ok_app _ Hco _ _ _) HL))) as Hge.
  destruct (closing_empty _ _ Hco Hge Hf) as [Hcds Hvis].
  change (rd_ops (merged_reader r0 _ _)) with (rd_ops r0). rewrite Hops. subst L.
  rewrite fmap_app, visible_app, Hvis, app_nil_r.
  apply finished_means with (K := closing (end_pos (w_co w) (InitPos (w_header w) 0) W)); try done.
  by rewrite end_pos_app.
Qed.

(** The log of a session, and what finishing it gives. *)
Lemma session_log w rs hd p0 L : header_ok (w_header w) →
  settings_ok w → idle w → session_ok w rs → image_of (w_co w) hd p0 L (view w) →
  let K := written (w_co w) (w_pos w) (all_makers w rs) in
  ∃ w', perform_all rs w = (Ret (), w') ∧ idle w' ∧ same_settings w w' ∧
    view w' = foldl (put (w_co w)) (view w) K ∧ image_of (w_co w) hd p0 (L ++ K) (view w') ∧
    space w' (w_pos w') ∧ zlen (im_bytes (view w')) ≤ zlen (im_bytes (view w)) `max` max_offset.
Proof.
  intros Hh Hset Hid (Hv & _ & Hfit & Hsp) Him K. pose proof (header_co _ Hh) as Hco.
  pose proof Hid as [(_ & Hg & _) Hfull].
  pose proof (all_makers_ok _ _ _ w rs Hset Hv) as Hmk.
  pose proof (fitting_writable w _ _ Hco Hg Hfull Hmk Hfit) as Hw.
  destruct (perform_all_emits _ _ _ w rs Hset Hv w (same_settings_refl w) Hid Hw) as (w' & E & Hview & Hid' & Hs & _).
  destruct (written_ok w _ _ Hco Hg Hfull Hw) as (HK & _ & _). exists w'. split; [done|]. split; [done|].
  split; [done|]. split; [done|]. rewrite Hview. split; [by apply puts_image|]. split.
  - assert (Hp : w_pos w' = end_pos (w_co w) (w_pos w) K).
    { transitivity (im_pos (view w')); [done|]. rewrite Hview. apply puts_pos. }
    rewrite Hp. destruct Hsp as [? Hc]. split; [done|]. destruct Hs as (_&_&_&_&_&Hk).
    unfold capacity. by rewrite Hk.
  - by apply length_puts.
Qed.
Lemma finish_session w rs ms0 xs0 : header_ok (w_header w) → settings_ok w → idle w → session_ok w rs →
  (w_compression w = kCowCompressLz4 → full_reads (D := D)) →
  let p0 := InitPos (w_header w) 0 in
  image_of (w_co w) (c_enc header_codec (w_header w)) p0 (written (w_co w) p0 ms0) (view w) →
  Forall2 (describes w) ms0 xs0 → NoDup (omap xor_target (xs0 ++ all_meanings w rs)) →
  zlen (im_bytes (view w)) < 2 ^ 63 →
  ∃ w', (_ ← perform_all rs; Finalize) w = (Ret (), w') ∧ idle w' ∧
    reads_as (file_bytes (w_fd w')) (xs0 ++ all_meanings w rs).
Proof.
  intros Hh Hset Hid Hok Hlz4 p0 Him Hms0 Hnd Hlen.
  destruct (session_log w rs _ _ _ Hh Hset Hid Hok Him) as (w1 & E1 & Hid1 & Hs1 & _ & Him1 & Hsp1 & Hlen1).
  pose proof Hs1 as (_&Hh1&_). set (ms := ms0 ++ all_makers w rs).
  assert (Hpw : w_pos w = end_pos (w_co w) p0 (written (w_co w) p0 ms0)) by apply Him.
  assert (HW : written (w_co w) p0 ms0 ++ written (w_co w) (w_pos w) (all_makers w rs) = written (w_co w) p0 ms).
  { subst ms. by rewrite written_app, <- Hpw. }
  rewrite HW in Him1. assert (Hp1 : w_pos w1 = end_pos (w_co w) p0 (written (w_co w) p0 ms)) by apply Him1.
  destruct (Finalize_ok w1 (written (w_co w) p0 ms)) as (w2 & E2 & Hfin & Hid2 & _); rewrite ?Hh1; try done.
  { unfold max_offset in Hlen1. lia. }
  exists w2. split; [by rewrite (io_bind_eq _ _ _ _ _ E1)|]. split; [done|].
  rewrite Hh1, Hp1 in Hfin. apply (finished_reads_as w _ ms); [exact Hfin| | |done].
  { change (fits (end_pos (w_co w) p0 (written (w_co w) p0 ms))). rewrite <- Hp1. apply Hsp1. }
  apply Forall2_app; [done|]. destruct Hok as (Hv & Hns & _). apply all_makers_describe; [|done..].
  destruct Hh as (_&_&_&_&Hb&_). lia.
Qed.

(** ** Opened writers *)

Lemma compression_small name c : compression_of name = Some c → is_u8 c.
Proof. unfold compression_of. intros H. by repeat (case_decide; [by injection H as <-|]). Qed.
Lemma opened_settings w o c kind cb bb : options_ok o → compression_of (opt_compression o) = Some c →
  opened w o c kind cb bb → settings_ok w ∧ header_ok (w_header w) ∧ w_co w = opt_cluster_ops o.
Proof.
  intros Ho Hc (E1 & E2 & E3 & _). pose proof (header_of_ok o Ho) as Hh. destruct Ho as (_ & Hb & _).
  assert (Hbs : ch_block_size (header_of o) = opt_block_size o ∧ ch_cluster_ops (header_of o) = opt_cluster_ops o).
  { unfold header_of. by destruct (opt_scratch_space o). }
  destruct Hbs as [Hbs Hco]. rewrite E2. split; [|done]. unfold settings_ok. rewrite E1, E2, E3, Hbs.
  split; [done|]. split; [done|]. by eapply compression_small.
Qed.

(** ** Labels *)

Lemma perform_all_app rs rs' w w' : perform_all (rs ++ rs') w = (Ret (), w') ↔
  ∃ w1, perform_all rs w = (Ret (), w1) ∧ perform_all rs' w1 = (Ret (), w').
Proof.
  revert w. induction rs as [|r rs IH]; intros w; cbn [app CowRequest.perform_all].
  - split; [by exists w|]. by intros (w1 & [= <-] & ?).
  - rewrite io_bind_Ret. split.
    + intros (a & w1 & E & (w2 & E1 & E2)%IH). exists w2. split; [|done]. by rewrite (io_bind_eq _ _ _ _ _ E).
    + intros (w1 & (a & w2 & E1 & E2)%io_bind_Ret & E). exists a, w2. split; [done|]. apply IH. by exists w1.
Qed.
Lemma all_makers_app w rs rs' : all_makers w (rs ++ rs') = all_makers w rs ++ all_makers w rs'.
Proof. unfold CowRequest.all_makers. by rewrite fmap_app, concat_app. Qed.
Lemma all_meanings_app w rs rs' : all_meanings w (rs ++ rs') = all_meanings w rs ++ all_meanings w rs'.
Proof. unfold all_meanings. by rewrite fmap_app, concat_app. Qed.
(** A label operation of the log comes from a label of the requests. *)
Lemma labels_described w ms xs co p l : Forall2 (describes w) ms xs → Forall (λ x, x.2 ≠ Labelled l) xs →
  Forall (λ e, op_type e.1 = kCowLabelOp → op_source e.1 ≠ l) (written co p ms).
Proof.
  intros Hms Hxs. apply Forall_forall. intros e He Ht.
  apply written_elem in He as [E|(m & q & Hm & ->)]; [by rewrite E in Ht|].
  apply list_elem_of_lookup in Hm as [i Hi]. destruct (Forall2_lookup_l _ _ _ _ _ Hms Hi) as (x & Hx & Hd).
  pose proof (Forall_lookup_1 _ _ _ _ Hxs Hx) as Hne. specialize (Hd q) as [_ Hd].
  destruct x as [nb [old|b| |src b|l']]; simpl in *;
    [destruct Hd as [Hd _]|destruct Hd as [Hd _]| |destruct Hd as [Hd _]|destruct Hd as [_ ->]; congruence];
    by rewrite Hd in Ht.
Qed.

Lemma session_prefix w rs l : session_ok w (rs ++ [RLabel l]) →
  let p := end_pos (w_co w) (w_pos w) (written (w_co w) (w_pos w) (all_makers w rs)) in
  session_ok w rs ∧ is_u64 l ∧ space w p ∧ space w (next (w_co w) p (label_maker l p)).
Proof.
  intros ([Hv [Hl _]%Forall_cons]%Forall_app & [Hs _]%Forall_app & Hfit & _) p.
  rewrite all_makers_app in Hfit. apply fitting_app in Hfit as [Hfit (Hsp & Hsp' & _)]. done.
Qed.

(** Requests up to a label leave everything in the file. *)
Lemma label_session w rs l hd p0 L : header_ok (w_header w) → settings_ok w → idle w →
  session_ok w (rs ++ [RLabel l]) → image_of (w_co w) hd p0 L (view w) →
  ∃ w', perform_all (rs ++ [RLabel l]) w = (Ret (), w') ∧ idle w' ∧ settled w' ∧ same_settings w w' ∧
    image_of (w_co w) hd p0 (L ++ written (w_co w) (w_pos w) (all_makers w (rs ++ [RLabel l]))) (view w').
Proof.
  intros Hh Hset Hid Hok Him. destruct (session_prefix w rs l Hok) as (Hok1 & Hl & Hsp & Hsp').
  destruct (session_log w rs hd p0 L Hh Hset Hid Hok1 Him) as (w1 & E1 & Hid1 & Hs1 & Hv1 & _ & Hspace1 & _).
  destruct (session_log w _ hd p0 L Hh Hset Hid Hok Him) as (w2 & E2 & Hid2 & Hs2 & _ & Him2 & _).
  exists w2. split; [done|]. split; [done|]. split; [|done].
  apply perform_all_app in E2 as (w1' & E1' & E2). rewrite E1 in E1'. injection E1' as <-.
  apply io_bind_Ret in E2 as ([] & w2' & E2 & E2'). injection E2' as ->.
  pose proof Hs1 as (_ & Hh1 & _ & _ & _ & Hk1).
  assert (Hp1 : w_pos w1 = end_pos (w_co w) (w_pos w) (written (w_co w) (w_pos w) (all_makers w rs))).
  { transitivity (im_pos (view w1)); [done|]. rewrite Hv1. apply puts_pos. }
  apply (AddLabel_settles l w1); [done|done|done| | |done].
  - rewrite Hh1, Hp1. destruct Hsp' as [Hf Hc]. split; [exact Hf|]. unfold capacity. rewrite Hk1. exact Hc.
  - rewrite Hh1. destruct Hh as (_&_&_&_&?&_). lia.
Qed.

(** A later session takes up the log at the label, from any file that kept what was used
    then, whatever else it holds. *)
Lemma resume_session fuel w ms rs l xs o c cb bb c' (d : D) :
  let p0 := InitPos (w_header w) 0 in let K := written (w_co w) p0 (ms ++ all_makers w (rs ++ [RLabel l])) in
  let q := end_pos (w_co w) p0 K in
  header_ok (w_header w) → w_pos w = end_pos (w_co w) p0 (written (w_co w) p0 ms) →
  session_ok w (rs ++ [RLabel l]) →
  image_of (w_co w) (c_enc header_codec (w_header w)) p0 K (mkImage c' q) →
  Forall2 (describes w) (ms ++ all_makers w rs) xs → Forall (λ x, x.2 ≠ Labelled l) xs →
  compression_of (opt_compression o) = Some c → opt_cluster_ops o ≠ 1 →
  ((SetupWriteOptions cb bb o).2 = true → w_co w ≠ 0) →
  zlen c' < 2 ^ 62 → file_bytes d = c' → (length c' ≤ fuel)%nat →
  ∃ w', InitializeAppend fuel l (NewCowWriter cb bb o (w_fd_kind w) d) = (Ret (), w') ∧ idle w' ∧ settings_ok w' ∧
    w_header w' = w_header w ∧ w_compression w' = c ∧
    image_of (w_co w) (c_enc header_codec (w_header w)) p0 K (view w') ∧
    zlen (im_bytes (view w')) ≤ zlen c' `max` max_offset.
Proof.
  intros p0 K q Hh Hpw Hok Him Hms Hxs Hc Hco1 Hbatch Hsize Hd Hfuel. pose proof (header_co _ Hh) as Hco.
  destruct (session_prefix w rs l Hok) as (_ & Hl & _ & Hspl).
  set (L := written (w_co w) p0 (ms ++ all_makers w rs)). set (op := mkOp kCowLabelOp 0 0 0 l).
  assert (HpL : end_pos (w_co w) p0 L = end_pos (w_co w) (w_pos w) (written (w_co w) (w_pos w) (all_makers w rs))).
  { subst L. by rewrite written_app, end_pos_app, <- Hpw. }
  set (q1 := end_pos (w_co w) p0 (L ++ [(op, [])])).
  set (tail := if cluster_full q1 then [cluster_entry q1] else []).
  assert (Hq1 : q1 = next (w_co w) (end_pos (w_co w) p0 L) (op, [])) by (subst q1; by rewrite end_pos_app).
  assert (HK : K = (L ++ [(op, [])]) ++ tail).
  { subst K tail. rewrite Hq1. rewrite all_makers_app, (assoc_L (++)), written_app.
    change (all_makers w [RLabel l]) with [label_maker l]. cbn [written]. fold L. rewrite app_nil_r.
    unfold extension. by rewrite <- (assoc_L (++)). }
  rewrite HK in Him. pose proof (image_of_prefix _ Hco _ _ _ _ _ _ Him) as Him1. fold q1 in Him1.
  pose proof Him as (Hg & _ & HL & _). apply (log_ok_app _ Hco) in HL as [HL1 HL2]. fold q1 in HL2.
  pose proof HL1 as [HLL _]%(log_ok_app _ Hco). pose proof (end_pos_grows _ Hco _ _ Hg HLL) as (Hgr & _).
  rewrite <- HpL in Hspl. change (label_maker l (end_pos (w_co w) p0 L)) with ((op, []) : entry) in Hspl.
  rewrite <- Hq1 in Hspl. destruct Hspl as [Hfq Hcap].
  assert (HfuelL : (length L + 2 ≤ fuel)%nat).
  { pose proof Him1 as (_ & _ & _ & _ & _ & Hlaid). apply laid_app in Hlaid as [_ Hlaid].
    apply Forall_cons in Hlaid as [Hheld _]. apply (log_ok_app _ Hco) in HL1 as [_ [[Hwf _] _]]. cbn [fst snd im_bytes] in *.
    pose proof Hg as (_ & H38 & _). pose proof (zlen_op _ Hwf). pose proof (zlen_nonneg L).
    pose proof (holds_zlen c' (next_op_pos (end_pos (w_co w) p0 L)) _ ltac:(lia) Hheld (op_not_nil _ Hwf)).
    unfold zlen in *. lia. }
  destruct (InitializeAppend_ok fuel o c (w_fd_kind w) cb bb (w_header w) L op c' d Hc Hco1 Hbatch Hh eq_refl Him1)
    as (w' & E & Hid & Hh' & Hc' & Hk' & Ho' & Hv'); try done.
  { by eapply labels_described. }
  { intros size Ek. unfold capacity in Hcap. by rewrite Ek in Hcap. }
  exists w'. split; [exact E|]. split; [done|]. split; [|split; [done|split; [done|]]].
  { unfold settings_ok. rewrite Ho', Hh', Hc'. split; [done|]. split; [apply Hh|]. by eapply compression_small. }
  fold q1 tail in Hv'. rewrite Hv', HK. split; [by apply puts_image|].
  change (zlen c') with (zlen (im_bytes (mkImage c' q1))). apply length_puts; [done| |done].
  by eapply (image_of_good _ Hco _ _ _ (mkImage c' q1)).
Qed.
End Session.

(** ** Images on which the COW reader goes wrong

    An image on which [ParseOps] does not end, sequence data that is stored past the end
    of a vector, and requests whose image the reader refuses. *)

Lemma io_bind_assoc {S A B C} (m : IO S A) (f : A → IO S B) (g : B → IO S C) s :
  ((m ≫= f) ≫= g) s = (m ≫= (λ a, f a ≫= g)) s.
Proof. unfold mbind, io_mbind. by destruct (m s) as [[| |] ?]. Qed.

Lemma io_bind_Crash {S A B} (m : IO S A) (f : A → IO S B) s : (m s).1 = Crash → ((m ≫= f) s).1 = Crash.
Proof. unfold mbind, io_mbind. by destruct (m s) as [[| |] ?]. Qed.

(** ** A cluster that points at itself *)

Module Loop.
Definition header : CowHeader := mkCowHeader kCowMagicNumber 2 0 38 84 20 4096 2 0 0.
(** The next cluster starts 20 bytes before the end of this operation. *)
Definition back : CowOperation := mkOp kCowClusterOp 0 0 0 (u64 (- 20)).
Definition image : bytes := c_enc header_codec header ++ c_enc op_codec back ++ zeroes 20.
(** The parser at the operation. *)
Definition at_op (s : ParseState) : Prop := ps_pos s = 38 ∧ ps_done s = false.

Lemma read : decode_ops 2 (sub image 38 40) = [back; mkOp 0 0 0 0 0].
Proof. by vm_compute. Qed.

Section Turns.
Context {D : Type} `{CF : !CowFile D, LD : !CowFileLaws D}.
Lemma turn label s (d : D) : at_op s → file_bytes d = image → file_pos d = 38 →
  ∃ d', file_bytes d' = image ∧ file_pos d' = 38 ∧ at_op (parse_op 2 back s) ∧
    ∀ fuel, parse_clusters (S fuel) 2 (zlen image) label s d =
    parse_clusters fuel 2 (zlen image) label (parse_op 2 back s) d'.
Proof.
  intros [Hp Hd] Hf Hpos. assert (0 ≤ file_pos d) as Hpos0 by lia.
  destruct (read_fully_law 40 d ltac:(lia) Hpos0) as (r & d1 & E1 & Hf1 & H1).
  rewrite Hf, Hpos in H1. rewrite decide_True in H1 by (by vm_compute). destruct H1 as [-> _].
  assert (Hat : at_op (parse_op 2 back s)) by (split; [cbn [parse_op ps_pos]; by rewrite Hp|done]).
  destruct (seek_ok 38 d1 ltac:(lia)) as (d2 & E2 & Hf2 & Hpos2).
  exists d2. split; [congruence|]. split; [done|]. split; [done|].
  intros fuel. cbn [parse_clusters]. rewrite Hd, Hp. change (u64 (zlen image - 38) / sizeof op_codec) with 2.
  cbv zeta.
  rewrite !(decide_False (P := 2 = 0)) by done. change (2 * sizeof op_codec) with 40. rewrite (io_bind_eq _ _ _ _ _ E1).
  change (Z.to_nat (2 `min` 2)) with 2%nat. rewrite read. cbn [parse_batch]. rewrite decide_True by done.
  erewrite io_bind_eq by reflexivity. rewrite (proj1 Hat), (io_bind_eq _ _ _ _ _ E2). done.
Qed.
Lemma turns label n s (d : D) : at_op s → file_bytes d = image → file_pos d = 38 →
  ∃ s' d', at_op s' ∧ ps_ops s' = ps_ops s ++ replicate n back ∧ file_bytes d' = image ∧ file_pos d' = 38 ∧
    ∀ fuel, parse_clusters (n + fuel) 2 (zlen image) label s d = parse_clusters fuel 2 (zlen image) label s' d'.
Proof.
  revert s d. induction n as [|n IH]; intros s d Hs Hf Hp.
  { exists s, d. by rewrite app_nil_r. }
  destruct (turn label s d Hs Hf Hp) as (d0 & Hf0 & Hp0 & Hat & H0).
  destruct (IH _ d0 Hat Hf0 Hp0) as (s' & d' & Hs' & Ho & Hf' & Hp' & H). exists s', d'.
  split; [done|]. split; [|split; [done|split; [done|]]].
  - rewrite Ho. cbn [parse_op ps_ops]. by rewrite <- (assoc_L (++)).
  - intros fuel. by rewrite <- H, <- H0.
Qed.
Lemma header_is_ok : header_ok header.
Proof. by split_and!; try (right; vm_compute). Qed.
Lemma header_held : holds image 0 (c_enc header_codec header).
Proof. unfold image. intros i b Hb. by apply lookup_app_l_Some. Qed.
(** [Parse] comes to the operation, and does [k] with what it has found in the end. *)
Lemma Parse_starts label um im (d : D) : file_bytes d = image →
  ∃ k s d1, at_op s ∧ ps_ops s = [] ∧ file_bytes d1 = image ∧ file_pos d1 = 38 ∧
    ∀ fuel, Parse fuel label (NewCowReader um im) d = (parse_clusters fuel 2 (zlen image) label s ≫= k) d1.
Proof.
  intros Hd. destruct (Parse_header label um im header image d header_is_ok header_held Hd) as (d1 & Hd1 & E1).
  destruct (seek_ok 38 d1 ltac:(lia)) as (d2 & E2 & Hd2 & Hp2).
  eexists _, (parse_start header), d2. split; [done|]. split; [done|]. split; [congruence|]. split; [done|].
  intros fuel. rewrite E1. unfold ParseOps. change (rd_header (set_header _ header _)) with header.
  rewrite decide_False by (intros [_ H]; by vm_compute in H). rewrite io_bind_assoc.
  change (ch_header_size (header_set_buffer header 0)) with 38.
  rewrite (io_bind_eq _ _ _ _ _ E2), io_bind_assoc. reflexivity.
Qed.
End Turns.
End Loop.

(** ** A sequence of a length that is no multiple of four *)

Section Overflow.
Context {D : Type} `{CF : !CowFile D, LD : !CowFileLaws D}.
(** The vector has grown by a whole number of words, [read] stores the bytes behind too. *)
Lemma sequence_overflows r op s c (d : D) : full_reads (D := D) → file_bytes d = c →
  in_data r c (op_source op) (op_data_length op) → op_data_length op mod 4 ≠ 0 →
  zlen (mg_blocks s) = Z.of_nat (mg_num_seqs s) → (merge_sequence r op s d).1 = Crash.
Proof.
  intros Hfull Hd Hin Hmod Hs. pose proof Hin as (_ & Hc & Ho & Hl & He).
  destruct (GetRawBytes_ok r c _ _ d Hd Hin) as (bs & d1 & E & _ & _ & _ & Hbs).
  specialize (Hbs Hfull). unfold merge_sequence. rewrite (io_bind_eq _ _ _ _ _ E).
  unfold CHECK. rewrite decide_False; [done|].
  rewrite Hbs, length_sub by lia. rewrite Hs. Z.to_euclidean_division_equations; lia.
Qed.
Lemma PrepMergeOps_overflows r op ops c (d : D) : full_reads (D := D) → file_bytes d = c →
  rd_ops r = op :: ops → op_type op = kCowSequenceOp →
  in_data r c (op_source op) (op_data_length op) → op_data_length op mod 4 ≠ 0 →
  (PrepMergeOps r d).1 = Crash.
Proof.
  intros Hfull Hd Hr Ht Hin Hmod. unfold PrepMergeOps. rewrite Hr. cbn [merge_ops].
  rewrite (decide_True (P := op_type op = kCowSequenceOp)) by done. do 2 apply io_bind_Crash.
  by apply (sequence_overflows r op _ c).
Qed.
End Overflow.

Module Odd.
Definition header : CowHeader := mkCowHeader kCowMagicNumber 2 0 38 84 20 4096 0 0 0.
(** Six bytes: one word and a half. *)
Definition sequence : CowOperation := mkOp kCowSequenceOp 0 6 0 38.
Definition image : bytes :=
  c_enc header_codec header ++ c_enc op_codec sequence ++ c_enc footer_codec (footer_of 1).
Definition reader : CowReader := Eval vm_compute in
  match ParseOps 3 None (set_header (NewCowReader false false) header (zlen image)) (mkFile image 0) with
  | (Ret r, _) => r
  | _ => NewCowReader false false
  end.
Lemma full : full_reads (D := MemFile).
Proof. by intros n d d' bs _ _ [= <- _]. Qed.
End Odd.

(** ** Sequence data without clusters *)

Module Lost.
Definition options : CowOptions := mkOptions 4 (str "none") None 0 false 0 0 false.
Definition requests : list request := [RSequence [5; 6]; RRaw 5 (str "abcd"); RRaw 6 (str "efgh")].
Definition opened : CowWriter MemFile := Eval vm_compute in
  (Initialize (NewCowWriter false false options OtherFile (mkFile [] 0))).2.
End Lost.
