(* ===== verification/CowProps.v ===== *)
(** * Properties of COW images

    Written images read back, also after an interrupted session; the order of the merge;
    inputs on which the parser fails.  Each with an instance on a file in memory. *)
From S2P Require Import Prelude Bytes Device CowFormat CowReader CowWriter CowLog CowParse.
From S2P Require Import CowAppend CowRequest CowImage CowMerge CowMeaning CowSession.
From S2P Require Import CowSession.

Lemma describes_header {D : Type} `{!CowFile D, !CowFileLaws D} inflate brotli lz4 (w w' : CowWriter D) m x :
  w_header w' = w_header w → describes inflate brotli lz4 w m x → describes inflate brotli lz4 w' m x.
Proof. intros Hh Hm. unfold describes, has_block in *. by rewrite Hh. Qed.
(** What was used of a file is still there. *)
Definition keeps (c : bytes) (p : Positions) (c' : bytes) : Prop :=
  ∀ x, used p x → holds c x.1 x.2 → holds c' x.1 x.2.

(** ** An instance: blocks of four bytes, clusters of four operations *)

Module CowDemo.
(** A codec that marks its data. *)
Definition pack (data : bytes) : option bytes := Some (Byte.x01 :: data).
Definition unpack (data : bytes) (size : Z) : outcome bytes :=
  match data with _ :: data => Ret data | [] => Reject end.
Definition options : CowOptions := mkOptions 4 (str "gz") (Some 100) 4 false 0 2 true.
Definition disk : MemFile := mkFile (str "old") 0.
Definition writer : CowWriter MemFile := NewCowWriter false false options OtherFile disk.
Definition requests : list request :=
  [RCopy 10 20 2; RRaw 5 (str "abcdefgh"); RXor 7 (str "wxyz") 3 1; RZero 30 1; RLabel 9].
Definition later : list request := [RRaw 40 (str "ABCD"); RLabel 10].
Definition run {A} (m : IO (CowWriter MemFile) A) (w : CowWriter MemFile) : CowWriter MemFile := (m w).2.
Definition opened_writer : CowWriter MemFile := Eval vm_compute in run Initialize writer.
Definition labelled_writer : CowWriter MemFile :=
  Eval vm_compute in run (perform_all pack pack pack requests) opened_writer.
(** The session is lost in the middle of more requests. *)
Definition lost : CowWriter MemFile :=
  Eval vm_compute in run (perform_all pack pack pack [RRaw 50 (str "lostlostlostlost")]) labelled_writer.
Definition resumed_writer : CowWriter MemFile :=
  Eval vm_compute in run (InitializeAppend 500 9) (NewCowWriter false false options OtherFile
    (mkFile (mf_bytes (w_fd lost)) 0)).

Lemma codecs : codecs_ok unpack unpack unpack pack pack pack.
Proof. intros block c. by split_and!; intros [= <-]. Qed.
Lemma options_are_ok : options_ok options.
Proof. split; [by eexists|]. split; [done|]. split; [done|by right]. Qed.
Lemma not_lz4 : kCowCompressGz = kCowCompressLz4 → full_reads (D := MemFile).
Proof. done. Qed.

Ltac evaluate := vm_compute; repeat first [split | constructor | discriminate].
Lemma session : session_ok pack pack pack opened_writer requests.
Proof.
  unfold session_ok. split; [|split; [by repeat constructor|split; evaluate]]. by repeat constructor; evaluate.
Qed.
Lemma later_session : session_ok pack pack pack resumed_writer later.
Proof.
  unfold session_ok. split; [|split; [by repeat constructor|split; evaluate]]. by repeat constructor; evaluate.
Qed.
(** What the lost session left still has all the bytes of the label's. *)
Lemma lost_prefix : take (length (mf_bytes (w_fd labelled_writer))) (mf_bytes (w_fd lost)) =
  mf_bytes (w_fd labelled_writer).
Proof. by vm_compute. Qed.
Lemma lost_keeps o bs : holds (mf_bytes (w_fd labelled_writer)) o bs → holds (mf_bytes (w_fd lost)) o bs.
Proof.
  intros H i b Hb. apply H in Hb. rewrite <- lost_prefix in Hb. by apply lookup_take_Some in Hb as [? _].
Qed.
Lemma lost_short : zlen (mf_bytes (w_fd lost)) < 2 ^ 62.
Proof. by vm_compute. Qed.
Lemma lost_file : keeps (mf_bytes (w_fd labelled_writer)) (w_pos labelled_writer) (mf_bytes (w_fd lost)).
Proof. intros x _. apply lost_keeps. Qed.
Lemma clustered : opt_cluster_ops options ≠ 1.
Proof. by vm_compute. Qed.
Lemma batches : (SetupWriteOptions false false options).2 = true → opt_cluster_ops options ≠ 0.
Proof. by vm_compute. Qed.
End CowDemo.

Section Props.
Context (compress2 BrotliEncoderCompress LZ4_compress_default : bytes → option bytes).
Context (inflate brotli_decode LZ4_decompress_safe : bytes → Z → outcome bytes).
Context {D : Type} `{!CowFile D, !CowFileLaws D}.
Abbreviation perform_all := (perform_all compress2 BrotliEncoderCompress LZ4_compress_default).
Abbreviation session_ok := (session_ok compress2 BrotliEncoderCompress LZ4_compress_default).
Abbreviation reads_as := (reads_as inflate brotli_decode LZ4_decompress_safe (D := D)).
Abbreviation laws := (codecs_ok inflate brotli_decode LZ4_decompress_safe compress2 BrotliEncoderCompress LZ4_compress_default).

(** C8: on storage that does not fail, a writer with valid options is initialized: a known
    compression, blocks of less than 64 KiB, no clusters or clusters of at least two
    operations.  Take any valid requests but sequence data that fit, and among which no block
    is the target of two XOR operations: followed by [Finalize] they succeed.  Every reader
    then parses the file and finds, in order, an operation for each block of the requests,
    and [ReadData] gives the block that was written: with or without clusters, batches and
    threads, for every compression whose library undoes what it did (LZ4 also needs reads
    that are not short). *)
Theorem cow_roundtrip (codecs : laws) o c kind cb bb (d : D)
    (options : options_ok o) (compression : compression_of (opt_compression o) = Some c)
    (lz4_reads : c = kCowCompressLz4 → full_reads (D := D)) (size : zlen (file_bytes d) < 2 ^ 62) :
  ∃ w0, Initialize (NewCowWriter cb bb o kind d) = (Ret (), w0) ∧
    ∀ rs, session_ok w0 rs → NoDup (omap xor_target (all_meanings w0 rs)) →
    ∃ w1, (_ ← perform_all rs; Finalize) w0 = (Ret (), w1) ∧
      reads_as (file_bytes (w_fd w1)) (all_meanings w0 rs).
Proof.
  destruct (Initialize_ok o c kind cb bb d options compression) as (w0 & E & Hop & Hid & Hp & Him & Hlen).
  exists w0. split; [done|]. intros rs Hok Hnd.
  destruct (opened_settings w0 o c kind cb bb options compression Hop) as (Hset & Hh & Hco).
  pose proof Hop as (_ & Hho & Hc & _). rewrite <- Hho, <- Hco in Him.
  destruct (finish_session compress2 BrotliEncoderCompress LZ4_compress_default inflate brotli_decode
    LZ4_decompress_safe codecs w0 rs [] [] Hh Hset Hid Hok) as (w1 & E1 & _ & H1); try done.
  - by rewrite Hc.
  - unfold max_offset in Hlen. lia.
  - by exists w1.
Qed.

(** C9: once [AddLabel] has returned for a label that was not used before, what was requested
    so far survives.  Take any file that kept the used ranges of that moment, whatever else
    was stored in it since, be it by more requests, by [Finalize], or by a crash between
    them: a later session opened at the label succeeds, and after its own requests and
    [Finalize] every reader sees the requests up to the label followed by those of the later
    session.  The conditions are those of a single session (valid options, valid requests
    but sequence data that fit), no block may be the target of two XOR operations over both
    sessions, and the later session's options do not ask for clusters of one operation, nor
    for batched writes when the first session had no clusters. *)
Theorem cow_append_resumes (codecs : laws) o c kind cb bb (d : D)
    (options : options_ok o) (compression : compression_of (opt_compression o) = Some c)
    (lz4_reads : c = kCowCompressLz4 → full_reads (D := D)) (size : zlen (file_bytes d) < 2 ^ 62) :
  ∃ w0, Initialize (NewCowWriter cb bb o kind d) = (Ret (), w0) ∧
    ∀ rs l, session_ok w0 (rs ++ [RLabel l]) → Forall (λ x, x.2 ≠ Labelled l) (all_meanings w0 rs) →
    ∃ w1, perform_all (rs ++ [RLabel l]) w0 = (Ret (), w1) ∧
      ∀ c' o2 c2 cb2 bb2 (d2 : D), keeps (file_bytes (w_fd w1)) (w_pos w1) c' → file_bytes d2 = c' →
        zlen c' < 2 ^ 62 → compression_of (opt_compression o2) = Some c2 → opt_cluster_ops o2 ≠ 1 →
        ((SetupWriteOptions cb2 bb2 o2).2 = true → opt_cluster_ops o ≠ 0) →
        (c2 = kCowCompressLz4 → full_reads (D := D)) →
        ∃ w2, InitializeAppend (length c') l (NewCowWriter cb2 bb2 o2 kind d2) = (Ret (), w2) ∧
          ∀ rs2, session_ok w2 rs2 →
            NoDup (omap xor_target (all_meanings w0 (rs ++ [RLabel l]) ++ all_meanings w2 rs2)) →
          ∃ w3, (_ ← perform_all rs2; Finalize) w2 = (Ret (), w3) ∧
            reads_as (file_bytes (w_fd w3)) (all_meanings w0 (rs ++ [RLabel l]) ++ all_meanings w2 rs2).
Proof.
  destruct (Initialize_ok o c kind cb bb d options compression) as (w0 & E & Hop & Hid & Hp & Him & Hlen).
  exists w0. split; [done|]. intros rs l Hok Hlab.
  destruct (opened_settings w0 o c kind cb bb options compression Hop) as (Hset & Hh & Hco).
  pose proof (header_co _ Hh) as Hcook. pose proof Hop as (_ & Hho & Hc & _ & _ & Hkind & _).
  rewrite <- Hho, <- Hco in Him. rewrite <- Hho in Hp.
  destruct (label_session _ _ _ w0 rs l _ _ _ Hh Hset Hid Hok Him) as (w1 & E1 & Hid1 & Hsettled & Hs1 & Him1).
  exists w1. split; [done|]. intros c' o2 c2 cb2 bb2 d2 Hkeep Hd2 Hsize Hc2 Hco2 Hbatch Hlz42.
  rewrite <- Hkind. rewrite <- Hco in Hbatch.
  pose proof Hok as (Hv & Hns & Hfit). pose proof (all_makers_describe compress2 BrotliEncoderCompress
    LZ4_compress_default inflate brotli_decode LZ4_decompress_safe codecs w0) as Hdesc.
  assert (Hbs : 0 < ch_block_size (w_header w0)) by (destruct Hh as (_&_&_&_&?&_); lia).
  rewrite <- Hc in lz4_reads.
  pose proof (Hdesc _ Hbs lz4_reads Hv Hns) as Hall. apply Forall_app in Hv as [Hv _]. pose proof Hns as [Hns' _]%Forall_app.
  assert (Him' : image_of (ch_cluster_ops (w_header w0)) (c_enc header_codec (w_header w0)) (InitPos (w_header w0) 0)
    (written (ch_cluster_ops (w_header w0)) (InitPos (w_header w0) 0)
       (all_makers compress2 BrotliEncoderCompress LZ4_compress_default w0 (rs ++ [RLabel l]))) (mkImage c' (w_pos w1))).
  { rewrite Hp in Him1. apply (image_of_bytes _ Hcook _ _ _ _ c' Him1). intros x Hx Hh1.
    apply Hkeep; [exact Hx|]. by rewrite <- settled_vfile. }
  pose proof Him' as (_ & _ & _ & Hp1 & _). cbn [im_pos] in Hp1. rewrite Hp1 in Him'.
  destruct (resume_session compress2 BrotliEncoderCompress LZ4_compress_default inflate brotli_decode
    LZ4_decompress_safe (length c') w0 [] rs l (all_meanings w0 rs) o2 c2 cb2 bb2 c' d2)
    as (w2 & E2 & Hid2 & Hset2 & Hh2 & Hc2' & Him2 & Hlen2); try done.
  { by apply Hdesc. }
  exists w2. split; [done|]. intros rs2 Hok2 Hnd.
  destruct (finish_session compress2 BrotliEncoderCompress LZ4_compress_default inflate brotli_decode
    LZ4_decompress_safe codecs w2 rs2 (all_makers compress2 BrotliEncoderCompress LZ4_compress_default w0 (rs ++ [RLabel l]))
    (all_meanings w0 (rs ++ [RLabel l]))) as (w3 & E3 & _ & H3); rewrite ?Hh2, ?Hc2'; try done.
  - eapply Forall2_impl; [exact Hall|]. intros m x. by apply describes_header.
  - unfold max_offset in Hlen2. lia.
  - by exists w3.
Qed.
End Props.

(** Instance of [cow_roundtrip]: copies, raw and xor blocks, zeroes and a label, compressed in clusters. *)
Lemma cow_roundtrip_witness : ∃ w1 : CowWriter MemFile,
  (_ ← perform_all CowDemo.pack CowDemo.pack CowDemo.pack CowDemo.requests; Finalize) CowDemo.opened_writer =
    (Ret (), w1) ∧
  reads_as CowDemo.unpack CowDemo.unpack CowDemo.unpack (D := MemFile) (mf_bytes (w_fd w1))
    [(10, Copied 20); (11, Copied 21); (5, Replaced (str "abcd")); (6, Replaced (str "efgh"));
     (7, Xored 13 (str "wxyz")); (30, Zeroed); (0, Labelled 9)].
Proof.
  destruct (cow_roundtrip CowDemo.pack CowDemo.pack CowDemo.pack CowDemo.unpack CowDemo.unpack CowDemo.unpack
    CowDemo.codecs CowDemo.options kCowCompressGz OtherFile false false CowDemo.disk CowDemo.options_are_ok eq_refl
    CowDemo.not_lz4 eq_refl) as (w0 & E & H).
  assert (E0 : w0 = CowDemo.opened_writer) by (vm_compute in E; injection E as <-; reflexivity).
  subst w0. destruct (H CowDemo.requests CowDemo.session) as (w1 & E1 & H1).
  { apply NoDup_singleton. }
  exists w1. split; [exact E1|exact H1].
Defined.

(** Instance of [cow_append_resumes]: the session after the label was lost in the middle of a batch. *)
Lemma cow_append_resumes_witness : ∃ w3 : CowWriter MemFile,
  (InitializeAppend (length (mf_bytes (w_fd CowDemo.lost))) 9
     (NewCowWriter false false CowDemo.options OtherFile (mkFile (mf_bytes (w_fd CowDemo.lost)) 0))).1 = Ret () ∧
  (_ ← perform_all CowDemo.pack CowDemo.pack CowDemo.pack CowDemo.later; Finalize) CowDemo.resumed_writer =
    (Ret (), w3) ∧
  reads_as CowDemo.unpack CowDemo.unpack CowDemo.unpack (D := MemFile) (mf_bytes (w_fd w3))
    [(10, Copied 20); (11, Copied 21); (5, Replaced (str "abcd")); (6, Replaced (str "efgh"));
     (7, Xored 13 (str "wxyz")); (30, Zeroed); (0, Labelled 9); (40, Replaced (str "ABCD")); (0, Labelled 10)].
Proof.
  destruct (cow_append_resumes CowDemo.pack CowDemo.pack CowDemo.pack CowDemo.unpack CowDemo.unpack CowDemo.unpack
    CowDemo.codecs CowDemo.options kCowCompressGz OtherFile false false CowDemo.disk CowDemo.options_are_ok eq_refl
    CowDemo.not_lz4 eq_refl) as (w0 & E & H).
  assert (E0 : w0 = CowDemo.opened_writer) by (vm_compute in E; injection E as <-; reflexivity).
  subst w0. destruct (H (take 4 CowDemo.requests) 9 CowDemo.session) as (w1 & E1 & H1).
  { by repeat constructor. }
  assert (E2 : w1 = CowDemo.labelled_writer) by (vm_compute in E1; injection E1 as <-; reflexivity).
  subst w1. destruct (H1 (mf_bytes (w_fd CowDemo.lost)) CowDemo.options kCowCompressGz false false
    (mkFile (mf_bytes (w_fd CowDemo.lost)) 0) CowDemo.lost_file eq_refl CowDemo.lost_short eq_refl
    CowDemo.clustered CowDemo.batches CowDemo.not_lz4) as (w2 & E2 & H2).
  assert (E3 : w2 = CowDemo.resumed_writer) by (vm_compute in E2; injection E2 as <-; reflexivity).
  subst w2. destruct (H2 CowDemo.later CowDemo.later_session) as (w3 & E3 & H3).
  { apply NoDup_singleton. }
  exists w3. split; [by rewrite E2|]. split; [exact E3|exact H3].
Defined.

(** ** The order of the merge *)

Section Order.
Context {D : Type} `{!CowFile D}.

(** C33: for operations without sequence data on distinct blocks, [PrepMergeOps] succeeds.
    The order of the merge has the copy and xor operations first, as they are in the log,
    then the others sorted by block (upwards for a merge in user space, else downwards);
    [num_ordered_ops_to_merge] counts those of the first that are not merged yet. *)
Theorem merge_order (r : CowReader) (d : D)
    (plain : Forall (λ op, op_type op ≠ kCowSequenceOp) (rd_ops r)) (unset : rd_has_seq_ops r = false)
    (fresh : rd_block_pos_index r = []) (kept : rd_is_merge r = false)
    (distinct : NoDup (block_of <$> data_ops 0 (rd_ops r))) :
  let ordered := ordered_ops (data_ops 0 (rd_ops r)) in
  ∃ r' rest, PrepMergeOps r d = (Ret r', d) ∧ rd_ops r' = rd_ops r ∧
    rd_block_pos_index r' = (ordered ++ rest).*1 ∧ rest ≡ₚ other_ops (data_ops 0 (rd_ops r)) ∧
    Sorted (if rd_userspace_merge r then Z.le else Z.ge) (merge_key <$> rest) ∧
    rd_num_ordered_ops_to_merge r' =
      (let merged := ch_num_merge_ops (rd_header r) in
       if decide (merged < zlen ordered) then zlen ordered - merged else 0).
Proof. apply merge_order_exact; done. Qed.

(** C34: if moreover [VerifyMergeOps] accepts, merging in that order in place, where every
    operation sees what those before it left on the device, writes what merging from the
    old content would: no operation reads a block that was overwritten before. *)
Theorem verified_merge_in_place {B : Type} (result : CowOperation → (Z → B) → B)
    (local : ∀ op f g, (∀ b, b ∈ reads op → f b = g b) → result op f = result op g) (r r' : CowReader) (d d' : D)
    (plain : Forall (λ op, op_type op ≠ kCowSequenceOp) (rd_ops r)) (unset : rd_has_seq_ops r = false)
    (fresh : rd_block_pos_index r = []) (kept : rd_is_merge r = false)
    (distinct : NoDup (block_of <$> data_ops 0 (rd_ops r)))
    (prepared : PrepMergeOps r d = (Ret r', d')) (verified : VerifyMergeOps r' = Ret true) :
  ∃ ops, mapM (λ n, access (rd_ops r' !! n)) (rd_block_pos_index r') = Ret ops ∧
    ops ≡ₚ (data_ops 0 (rd_ops r)).*2 ∧
    ∀ old b, merge_in_place result old ops b = merge_from_old result old ops b.
Proof. by eapply verified_in_place. Qed.
End Order.

(** ** Instances of the order *)

Module OrderDemo.
(** A copy, a xor at an unaligned source, and two blocks that do not depend on the old
    content; one operation has been merged already. *)
Definition ops : list CowOperation :=
  [mkOp kCowCopyOp 0 0 10 20; mkOp kCowZeroOp 0 0 31 0; mkOp kCowLabelOp 0 0 0 7;
   mkOp kCowXorOp 0 4 5 (12 * BLOCK_SZ + 1); mkOp kCowReplaceOp 0 4 40 100].
Definition header : CowHeader := mkCowHeader kCowMagicNumber 2 0 38 84 20 4 0 1 0.
Definition reader : CowReader :=
  mkReader header None 1000 None ops 0 [] 0 0 false ∅ false false.
Definition file : MemFile := mkFile [] 0.
Definition prepared : outcome CowReader := Eval vm_compute in (PrepMergeOps reader file).1.
(** A number for each block. *)
Definition result (op : CowOperation) (f : Z → Z) : Z := foldr (λ b n, f b + 2 * n) (op_source op) (reads op).
Lemma result_local op f g : (∀ b, b ∈ reads op → f b = g b) → result op f = result op g.
Proof.
  unfold result. induction (reads op) as [|b l IH]; intros H; [done|]. simpl.
  rewrite IH by (intros b' Hb'; apply H; by apply list_elem_of_further).
  by rewrite (H b) by apply list_elem_of_here.
Qed.
Lemma plain : Forall (λ op, op_type op ≠ kCowSequenceOp) (rd_ops reader).
Proof. by repeat constructor. Qed.
Lemma distinct : NoDup (block_of <$> data_ops 0 (rd_ops reader)).
Proof. by apply (bool_decide_unpack _). Qed.
End OrderDemo.

(** Instance of [merge_order]: the zeroed block comes after the replaced one, in the kernel's order. *)
Lemma merge_order_witness : ∃ r' rest, PrepMergeOps OrderDemo.reader OrderDemo.file = (Ret r', OrderDemo.file) ∧
  rd_block_pos_index r' = 0%nat :: 3%nat :: rest.*1 ∧ rest.*1 = [4; 1]%nat ∧
  Sorted Z.ge (merge_key <$> rest) ∧ rd_num_ordered_ops_to_merge r' = 1.
Proof.
  destruct (merge_order OrderDemo.reader OrderDemo.file OrderDemo.plain eq_refl eq_refl eq_refl OrderDemo.distinct)
    as (r' & rest & E & _ & Hi & _ & Hs & Hn).
  exists r', rest. split; [exact E|]. split; [exact Hi|]. split; [|split; [exact Hs|exact Hn]].
  assert (Er : Ret r' = OrderDemo.prepared) by exact (eq_sym (f_equal fst E)).
  injection Er as ->. injection Hi as Hi. exact (eq_sym Hi).
Defined.

(** Instance of [verified_merge_in_place]: the merge of these operations. *)
Lemma verified_merge_in_place_witness : ∃ r' ops, OrderDemo.prepared = Ret r' ∧ VerifyMergeOps r' = Ret true ∧
  ops ≡ₚ [mkOp kCowCopyOp 0 0 10 20; mkOp kCowZeroOp 0 0 31 0;
          mkOp kCowXorOp 0 4 5 (12 * BLOCK_SZ + 1); mkOp kCowReplaceOp 0 4 40 100] ∧
  ∀ old b, merge_in_place OrderDemo.result old ops b = merge_from_old OrderDemo.result old ops b.
Proof.
  eexists. destruct (verified_merge_in_place OrderDemo.result OrderDemo.result_local OrderDemo.reader _
    OrderDemo.file OrderDemo.file OrderDemo.plain eq_refl eq_refl eq_refl OrderDemo.distinct eq_refl eq_refl)
    as (ops & _ & Hp & H).
  exists ops. split; [reflexivity|]. split; [reflexivity|]. split; [exact Hp|exact H].
Defined.

(** ** Images that the reader does not survive *)

(** C40: there is an image of 78 bytes with a valid header on which [Parse] does not end,
    whatever label is asked for: its one cluster operation points back at itself.  However
    long the reader runs it is at the same operation again, with one more copy of it in
    memory for each turn. *)
Theorem parse_never_ends {D : Type} `{!CowFile D, !CowFileLaws D} (d : D) (image : file_bytes d = Loop.image) label um im :
  (∀ fuel, (Parse fuel label (NewCowReader um im) d).1 = Crash) ∧
  ∃ k, ∀ n, ∃ s d1, ps_pos s = 38 ∧ ps_ops s = replicate n Loop.back ∧ ∀ fuel,
    Parse (n + fuel) label (NewCowReader um im) d = (parse_clusters fuel 2 (zlen Loop.image) label s ≫= k) d1.
Proof.
  destruct (Loop.Parse_starts label um im d image) as (k & s & d1 & Hs & Hops & Hd1 & Hp1 & E).
  assert (H : ∀ n, ∃ s' d', ps_pos s' = 38 ∧ ps_ops s' = replicate n Loop.back ∧ ∀ fuel,
    Parse (n + fuel) label (NewCowReader um im) d = (parse_clusters fuel 2 (zlen Loop.image) label s' ≫= k) d').
  { intros n. destruct (Loop.turns label n s d1 Hs Hd1 Hp1) as (s' & d' & [Hs' _] & Hops' & _ & _ & H).
    exists s', d'. rewrite Hops', Hops. split; [done|]. split; [done|]. intros fuel. rewrite E.
    unfold mbind, io_mbind. by rewrite H. }
  split; [|by exists k]. intros fuel. destruct (H fuel) as (s' & d' & _ & _ & E').
  specialize (E' 0%nat). rewrite Nat.add_0_r in E'. by rewrite E'.
Qed.
(** Instance of [parse_never_ends]: the image in memory. *)
Lemma parse_never_ends_witness :
  zlen Loop.image = 78 ∧ (Parse 4000 None (NewCowReader true false) (mkFile Loop.image 0)).1 = Crash.
Proof.
  split; [reflexivity|].
  exact (proj1 (parse_never_ends (mkFile Loop.image 0) eq_refl None true false) 4000%nat).
Defined.

(** A sequence operation whose length is no multiple of four makes [PrepMergeOps] store
    past the end of a vector: it grows by whole words, while all the bytes are read. *)
Theorem sequence_overflow {D : Type} `{!CowFile D, !CowFileLaws D} (r : CowReader) (d : D) op ops
    (reads : full_reads (D := D)) (first : rd_ops r = op :: ops) (sequence : op_type op = kCowSequenceOp)
    (inside : in_data r (file_bytes d) (op_source op) (op_data_length op)) (odd : op_data_length op mod 4 ≠ 0) :
  (PrepMergeOps r d).1 = Crash.
Proof. by eapply PrepMergeOps_overflows. Qed.
(** Instance of [sequence_overflow]: an image that is parsed up to that point. *)
Lemma sequence_overflow_witness :
  (ParseOps 3 None (set_header (NewCowReader false false) Odd.header (zlen Odd.image)) (mkFile Odd.image 0)).1 =
    Ret Odd.reader ∧ (PrepMergeOps Odd.reader (mkFile Odd.image 0)).1 = Crash.
Proof.
  split; [reflexivity|].
  apply (sequence_overflow Odd.reader (mkFile Odd.image 0) Odd.sequence [] Odd.full eq_refl eq_refl).
  - split; [reflexivity|]. split; [reflexivity|]. split; [split; discriminate|]. split; [reflexivity|discriminate].
  - discriminate.
Defined.

(** In an image without clusters sequence data is lost: all requests and [Finalize]
    return success, but the next operation was stored over the sequence, since the
    position advances by the data of replace and xor operations only, and the reader
    refuses the file.  (The words were to be at 58.) *)
Theorem sequence_lost : let finish :=
    (_ ← perform_all CowDemo.pack CowDemo.pack CowDemo.pack Lost.requests; Finalize) Lost.opened in
  finish.1 = Ret () ∧ ch_cluster_ops (w_header Lost.opened) = 0 ∧
  (Parse 200 None (NewCowReader false false) (w_fd finish.2)).1 = Reject ∧
  c_dec c_u32 (sub (mf_bytes (w_fd finish.2)) 58 4) ≠ 5.
Proof. by vm_compute. Qed.
