(* ===== verification/SparseProps.v ===== *)
(** * Properties of libsparse

    The checksum, the lists of blocks, and images written and read back, with
    instances on small images. *)
From S2P Require Import Prelude Bytes Device SparseFormat BackedBlock BlockList SparseOutput SparseFile.
From S2P Require Import SparseImage SparseRead SparseRoundtrip SparseWrite.
From coqutil Require Import Byte.

(** ** Small images for the instances *)

Module SDemo.
Definition calloc_ok (h : heap) : bool := true.
(** No memory but zeroes, and no files. *)
Definition env : Env := mkEnv (λ a n, zeroes (Z.to_nat n)) (λ _ _ _, None) (λ _, None).
(** A callback that collects what is written. *)
Definition collect (data : option bytes) (len : Z) : IO bytes unit := λ out,
  (Ret (), out ++ match data with Some d => d | None => zeroes (Z.to_nat len) end).
(** A file of [len] bytes whose first 8 KiB are filled with 7. *)
Definition filled (len : Z) : outcome (sparse_file * heap) :=
  sparse_file_add_fill calloc_ok (sparse_file_new 4096 len) 7 8192 0 ∅.
(** Its sparse image. *)
Definition image (len : Z) (crc : bool) : outcome unit * bytes :=
  match filled len with
  | Ret (s, h) => sparse_file_callback env collect s true crc h []
  | _ => (Crash, [])
  end.
Definition import (img : bytes) (crc : bool) : outcome sparse_file :=
  fst (sparse_file_import_buf calloc_ok 0 img false crc ∅).
(** Two chunks of no blocks. *)
Definition empty_chunk : bytes :=
  c_enc chunk_header_codec (mkChunkHeader CHUNK_TYPE_FILL 0 0 16) ++ c_enc c_u32 0.
Definition two_empty_chunks : bytes :=
  c_enc sparse_header_codec (mkSparseHeader SPARSE_HEADER_MAGIC 1 0 28 12 4096 1 2 0) ++
  empty_chunk ++ empty_chunk.

Definition bbl : backed_block_list := mkList (Some 1%positive) None 4096.
Definition node : backed_block := mkBlock 0 8192 (BACKED_BLOCK_FD 3 0) None.
Definition heap1 : heap := {[1%positive := node]}.
Lemma list_one : list_ok heap1 bbl [1%positive] [mkChunk 0 8192 (BACKED_BLOCK_FD 3 0)].
Proof.
  split; [split| | | |]; try done.
  - exists [node]. split; [|done]. constructor; [done|constructor].
  - apply NoDup_singleton.
  - repeat constructor.
  - by exists 1024.
  - apply laid_out_cons. split_and!; [|split; constructor|constructor]. by split; vm_compute.
  - by constructor.
Qed.
(** All memory and all files are zero. *)
Definition zero_env : Env :=
  mkEnv (λ _ n, (λ _, Byte.x00) <$> seqZ 0 n) (λ _ _ n, Some ((λ _, Byte.x00) <$> seqZ 0 n))
    (λ _, Some 0).
Definition zero_byte (s : source) : byte :=
  match s with FromFill v i => word_byte v i | _ => Byte.x00 end.
Lemma zero_env_ok : env_ok zero_env zero_byte.
Proof. split; try done. intros f. by exists 0. Qed.
(** Three blocks, the first two of them a range of a file. *)
Definition three_blocks : sparse_file := mkSparseFile 4096 12288 false bbl.
Lemma three_blocks_ok :
  file_ok heap1 three_blocks 3 [mkChunk 0 8192 (BACKED_BLOCK_FD 3 0)].
Proof.
  split; try done.
  - exists [1%positive]. exact list_one.
  - by constructor.
  - by repeat constructor.
Qed.
#[export] Instance no_gz : Gz MemFile := {|
  gzwrite _ f := (Ret 0%nat, f); gzseek _ _ f := (Ret SeekFailed, f); gztell f := (Ret SeekFailed, f)
|}.
End SDemo.
#[local] Existing Instance SDemo.no_gz.

(** ** Checksums *)

(** C39: the table-driven checksum is CRC-32 as its polynomial defines it, bit by
    bit, and a checksum of a prefix can be continued over the rest. *)
Theorem crc32_correct (buf more : bytes) :
  sparse_crc32 0 buf = crc32_spec buf ∧
  sparse_crc32 0 (buf ++ more) = sparse_crc32 (sparse_crc32 0 buf) more.
Proof. split; [apply sparse_crc32_correct|apply sparse_crc32_app]. Qed.

(** ** Lists of blocks *)

(** C38: adding a block that overlaps no other inserts it in order, merging it with
    its neighbours where they continue each other: afterwards every byte of the
    image comes from the new block if that has it and from where it came before
    otherwise, wherever the search for the place started; the list is well formed
    and no other node of the heap is touched. *)
Theorem add_block_correct (calloc_ok : heap → bool) (h : heap) (bbl : backed_block_list)
    (ls : list loc) (l : list chunk) (data : backing) (len block : Z)
    (wf : list_ok h bbl ls l) (alloc : calloc_ok h = true) :
  let bsz := bbl_block_size bbl in let v := mkChunk block len data in
  chunk_ok bsz v → apart bsz v l → ck_end bsz v < 2 ^ 63 →
  ∃ bbl' h' ls' l', backed_block_add calloc_ok bbl data len block h = Ret (bbl', h') ∧
    list_ok h' bbl' ls' l' ∧ bbl_block_size bbl' = bsz ∧
    (∀ pos, content bsz l' pos =
       if decide (ck_start bsz v ≤ pos < ck_end bsz v) then Some (source_at v (pos - ck_start bsz v))
       else content bsz l pos) ∧
    ∀ x, x ∈ dom h → x ∉ ls → h' !! x = h !! x.
Proof.
  intros bsz v Hv Hap He.
  destruct (backed_block_add_ok calloc_ok h bbl ls l data len block wf alloc Hv Hap He)
    as (bbl' & h' & ls' & H). by exists bbl', h', ls', (insert_chunk bsz v l).
Qed.

(** The next 4 KiB of the same file are merged into the node. *)
Lemma add_block_correct_witness :
  ∃ bbl' h' ls' l',
    backed_block_add SDemo.calloc_ok SDemo.bbl (BACKED_BLOCK_FD 3 8192) 4096 2 SDemo.heap1
      = Ret (bbl', h') ∧
    list_ok h' bbl' ls' l' ∧ content 4096 l' 10000 = Some (FromFd 3 10000) ∧
    content 4096 l' 100 = Some (FromFd 3 100).
Proof.
  destruct (add_block_correct SDemo.calloc_ok SDemo.heap1 SDemo.bbl _ _ (BACKED_BLOCK_FD 3 8192)
    4096 2 SDemo.list_one eq_refl) as (bbl' & h' & ls' & l' & E & Hok & _ & Hc & _).
  - by split; vm_compute.
  - constructor; [|constructor]. left. by vm_compute.
  - by vm_compute.
  - exists bbl', h', ls', l'. split_and!; [done|done| |].
    + etrans; [apply (Hc 10000)|reflexivity].
    + etrans; [apply (Hc 100)|reflexivity].
Defined.

(** Splitting a block at a size limit cuts it after the largest number of whole
    blocks within the limit, if it is longer; no byte of the image moves. *)
Theorem split_correct (calloc_ok : heap → bool) (h : heap) (bbl : backed_block_list)
    (ls1 : list loc) (bb : loc) (ls2 : list loc) (l1 : list chunk) (c : chunk) (l2 : list chunk)
    (max_len : Z) (wf : list_ok h bbl (ls1 ++ bb :: ls2) (l1 ++ c :: l2))
    (same_place : length ls1 = length l1)
    (one_block : 0 < ALIGN_DOWN max_len (bbl_block_size bbl)) (alloc : calloc_ok h = true) :
  let bsz := bbl_block_size bbl in let n := ALIGN_DOWN max_len bsz in
  if decide (ck_len c ≤ n) then backed_block_split calloc_ok bbl bb max_len h = Ret h
  else ∃ h' new, backed_block_split calloc_ok bbl bb max_len h = Ret h' ∧
    list_ok h' bbl (ls1 ++ bb :: new :: ls2) (l1 ++ cut_chunk bsz n c ++ l2) ∧
    ∀ pos, content bsz (l1 ++ cut_chunk bsz n c ++ l2) pos = content bsz (l1 ++ c :: l2) pos.
Proof. by apply backed_block_split_ok. Qed.

Lemma split_correct_witness :
  ∃ h' new, backed_block_split SDemo.calloc_ok SDemo.bbl 1 5000 SDemo.heap1 = Ret h' ∧
    list_ok h' SDemo.bbl [1%positive; new]
      [mkChunk 0 4096 (BACKED_BLOCK_FD 3 0); mkChunk 1 4096 (BACKED_BLOCK_FD 3 4096)].
Proof.
  destruct (split_correct SDemo.calloc_ok SDemo.heap1 SDemo.bbl [] 1%positive [] []
    (mkChunk 0 8192 (BACKED_BLOCK_FD 3 0)) [] 5000 SDemo.list_one eq_refl eq_refl eq_refl)
    as (h' & new & E & Hok & _).
  exists h', new. split; [exact E|exact Hok].
Defined.

(** C37: the loop of [sparse_file_write] that splits the blocks visits the blocks it
    adds as well, and still returns within [split_fuel] turns: it leaves a well-formed
    list of blocks within the size limit rounded down to whole blocks, that
    says of every byte of the image what the list said before. *)
Theorem split_loop_terminates (calloc_ok : heap → bool) (h : heap) (s : sparse_file)
    (ls : list loc) (l : list chunk) (bs : list backed_block)
    (alloc : ∀ h, calloc_ok h = true) (wf : list_ok h (sf_list s) ls l)
    (size : bbl_block_size (sf_list s) = sf_block_size s)
    (small : 0 < sf_block_size s ≤ MAX_BACKED_BLOCK_SIZE) (blocks : sf_blocks h s = Ret bs) :
  let bsz := sf_block_size s in
  ∃ h' ls' l',
    split_blocks calloc_ok (split_fuel bs bsz) (sf_list s) (data_blocks (sf_list s)) h = (Ret (), h') ∧
    list_ok h' (sf_list s) ls' l' ∧ cuts bsz l l' ∧
    Forall (λ c, ck_len c ≤ ALIGN_DOWN MAX_BACKED_BLOCK_SIZE bsz) l' ∧
    ∀ pos, content bsz l' pos = content bsz l pos.
Proof. by eapply split_file_ok. Qed.

(** A block of 100 MiB is split in two. *)
Lemma split_loop_terminates_witness :
  let c := mkChunk 0 104857600 (BACKED_BLOCK_FD 3 0) in
  let h := {[1%positive := mkBlock 0 104857600 (BACKED_BLOCK_FD 3 0) None]} : heap in
  ∃ h' ls' l', split_blocks SDemo.calloc_ok 3 SDemo.bbl (Some 1%positive) h = (Ret (), h') ∧
    list_ok h' SDemo.bbl ls' l' ∧ Forall (λ c, ck_len c ≤ 67108864) l' ∧
    content 4096 l' 70000000 = Some (FromFd 3 70000000).
Proof.
  intros c h.
  destruct (split_loop_terminates SDemo.calloc_ok h (mkSparseFile 4096 104857600 false SDemo.bbl)
    [1%positive] [c] [mkBlock 0 104857600 (BACKED_BLOCK_FD 3 0) None] (λ _, eq_refl))
    as (h' & ls' & l' & E & Hok & _ & Hs & Hc).
  - split; [split| | | |]; try done.
    + eexists. split; [by repeat econstructor|done].
    + apply NoDup_singleton.
    + repeat constructor.
    + by exists 1024.
    + apply laid_out_cons. split_and!; [|split; constructor|constructor]. by split; vm_compute.
    + by constructor.
  - done.
  - by vm_compute.
  - done.
  - exists h', ls', l'. split_and!; [exact E|done|done|]. etrans; [apply (Hc 70000000)|reflexivity].
Defined.

(** C36: what [sparse_file_write] stores of a file whose length is a whole number of blocks
    (fewer than 2^31) with all data inside it, in the sparse format and without a checksum,
    when memory suffices and the data can be read, [sparse_file_import_buf] reads back as a file of the same block size and
    length whose blocks give the same bytes at the same places: the bytes of every
    block of the file written, zeroes up to the end of its last block, and holes
    elsewhere. *)
Theorem sparse_image_roundtrip {D} `{!Posix D, !Gz D} (env : Env) (byte_of : source → byte)
    (patience : nat) (gz : bool) (ready : D → Prop) (written : D → bytes)
    (calloc_ok : heap → bool) (h : heap) (s : sparse_file) (n : Z) (l : list chunk) (fd : D)
    (memory : env_ok env byte_of) (alloc : ∀ h, calloc_ok h = true)
    (stores : appends ready written (if gz then gz_file_ops patience else file_ops patience))
    (wf : file_ok h s n l) (at_end : ready fd) :
  let bsz := sf_block_size s in
  ∃ h1 fd' img, sparse_file_write env calloc_ok patience s gz true false h fd = (Ret (), h1, fd') ∧
    written fd' = written fd ++ img ∧
    ∀ start verbose h2, ∃ s' src h3 ls' l',
      sparse_file_import_buf calloc_ok start img verbose false h2 = (Ret s', (src, h3)) ∧
      sf_block_size s' = bsz ∧ sf_len s' = sf_len s ∧ list_ok h3 (sf_list s') ls' l' ∧
      ∀ pos, buffer_byte start img <$> content bsz l' pos = image_content byte_of bsz l pos.
Proof. eapply write_read_image; eassumption. Qed.

Lemma sparse_image_roundtrip_witness :
  ∃ img s' src h3 l',
    sparse_file_import_buf SDemo.calloc_ok 0 img false false ∅ = (Ret s', (src, h3)) ∧
    sf_len s' = 12288 ∧
    buffer_byte 0 img <$> content 4096 l' 8000 = Some Byte.x00 ∧
    buffer_byte 0 img <$> content 4096 l' 9000 = None.
Proof.
  destruct (sparse_image_roundtrip SDemo.zero_env SDemo.zero_byte 1 false
    (λ f : MemFile, mf_pos f = zlen (mf_bytes f)) mf_bytes SDemo.calloc_ok SDemo.heap1
    SDemo.three_blocks 3 _ (mkFile [] 0) SDemo.zero_env_ok (λ _, eq_refl)
    (memfile_appends 1 ltac:(lia)) SDemo.three_blocks_ok eq_refl)
    as (h1 & fd' & img & E & W & Hread).
  destruct (Hread 0 false ∅) as (s' & src & h3 & ls' & l' & E' & _ & Hlen & _ & Hc).
  exists img, s', src, h3, l'. split_and!; [exact E'|exact Hlen|apply (Hc 8000)|apply (Hc 9000)].
Defined.

(** ** Three images *)

(** An image with a fill chunk that was written with a checksum is rejected
    when it is read back with verification: the writer adds one block of the fill
    value to the checksum, the reader all of them.  Without verification, or without
    a checksum, the same file is accepted. *)
Theorem fill_checksum_mismatch :
  fst (SDemo.image 8192 true) = Ret () ∧
  SDemo.import (snd (SDemo.image 8192 true)) true = Reject ∧
  (∃ s, SDemo.import (snd (SDemo.image 8192 true)) false = Ret s) ∧
  (∃ s, SDemo.import (snd (SDemo.image 8192 false)) false = Ret s).
Proof. split_and!; [| |eexists|eexists]; vm_compute; reflexivity. Qed.

(** The image of a file whose length is not a multiple of its block size is
    written without an error but announces a chunk that is not there, so it cannot
    be read: the failure to write the final hole is not looked at. *)
Theorem unaligned_length_unreadable :
  fst (SDemo.image 10000 false) = Ret () ∧
  SDemo.import (snd (SDemo.image 10000 false)) false = Reject.
Proof. split; vm_compute; reflexivity. Qed.

(** An image of 60 bytes with two chunks of no blocks aborts the reader: both
    are added at the same block number, which [merge_bb] asserts away. *)
Theorem empty_chunks_abort :
  length SDemo.two_empty_chunks = 60%nat ∧ SDemo.import SDemo.two_empty_chunks false = Crash.
Proof. split; vm_compute; reflexivity. Qed.
