(* ===== verification/LpProps.v ===== *)
(** * Properties of liblp's reader and writer

    The theorems that the reader, the writer and the update protocol are
    correct, with an instance of each on a small partition table. *)
From S2P Require Import Prelude Bytes LpFormat LpUtility Device LpReader LpWriter LpImage LpCrash.
From coqutil Require Import Byte Word.LittleEndianList.

(** ** A small table for the instances *)

Module Demo.
(** A 32-byte digest. *)
Definition digest (bs : bytes) : bytes :=
  le_split 32 (foldl (λ a b, (a * 31 + byte.unsigned b) mod 2 ^ 61) 7 bs).
Definition allocates (n : Z) : bool := true.
Definition geometry : LpMetadataGeometry :=
  mkGeometry LP_METADATA_GEOMETRY_MAGIC 52 (zeroes 32) 512 2 4096.
Definition header : LpMetadataHeader :=
  mkHeader LP_METADATA_HEADER_MAGIC 10 0 128 (zeroes 32) 0 (zeroes 32)
    (mkTable 0 1 52) (mkTable 0 1 24) (mkTable 0 1 48) (mkTable 0 1 64) 0 (zeroes 124).
Definition metadata (sectors : Z) : LpMetadata :=
  mkMetadata geometry header
    [mkPartition (strncpy 36 (str "system_a")) LP_PARTITION_ATTR_READONLY 0 1 0]
    [mkExtent sectors LP_TARGET_TYPE_LINEAR 2048 0]
    [mkGroup (strncpy 36 (str "default")) 0 0]
    [mkBlockDevice 2048 0 0 2097152 (strncpy 36 (str "super")) 0].
Definition blob (m : LpMetadata) : bytes := default [] (returned (SerializeMetadata digest m)).
(** A device with the old table as primary copy of slot 0 and no backup. *)
Definition contents0 : bytes :=
  zeroes 4096 ++ SerializeGeometry digest geometry ++ SerializeGeometry digest geometry ++
  (blob (metadata 16) ++ zeroes 196) ++ zeroes 1536.
(** Power fails in the second write. *)
Definition disk : MemDisk := mkDisk contents0 0 400.
Definition opener : @IPartitionOpener MemDisk := mkOpener (λ _, Some disk) (λ _, None) (λ name, name).
Definition info_none : bytes → option BlockDeviceInfo := λ _, None.

Lemma serializable_metadata n : is_u64 n → serializable (metadata n).
Proof.
  intros Hn. split; try done. split; try done.
  - by constructor.
  - by constructor.
  - split_and!; constructor; try done; repeat (split; [done|]); done.
  - by eexists.
Qed.
Lemma digest_length bs : length (digest bs) = 32%nat.
Proof. apply length_le_split. Qed.
End Demo.

(** ** Power loss *)

(** C1: an update of one slot survives a power loss.  Whatever
    [UpdatePartitionTable] returns, wherever its writes stop, if a copy of the
    slot could be parsed before, then afterwards the primary or the backup copy
    parses to the old tables or to the new ones; no byte outside the two copies
    changes; and when the call succeeds both copies hold the new table. *)
Theorem update_survives_power_loss
    (sha256 : bytes → bytes) (nothrow_new : Z → bool) (android : bool)
    (sha256_length : ∀ bs, length (sha256 bs) = 32%nat)
    {D} `{BlockIOLive D} (opener : @IPartitionOpener D) (writer : bytes → IO D unit)
    (writer_ok : writes contents position writer) (m : LpMetadata) (slot_number : Z)
    (slot_ok : 0 ≤ slot_number < metadata_slot_count (m_geometry m))
    (max_size_ok : 0 ≤ metadata_max_size (m_geometry m))
    (region_ok : region_end m < 2 ^ 32)
    (nothrow_ok : ∀ n, n ≤ metadata_max_size (m_geometry m) → nothrow_new n = true)
    (m_ok : serializable m) (d : D)
    (contents_len : region_end m ≤ zlen (contents d) < 2 ^ 63)
    (old_primary_ok : old_ok sha256 nothrow_new m (contents d) (primary_at m slot_number))
    (old_backup_ok : old_ok sha256 nothrow_new m (contents d) (backup_at m slot_number))
    (some_copy : ∃ mo,
      copy_at sha256 nothrow_new (m_geometry m) (contents d) (primary_at m slot_number) = Ret mo ∨
      copy_at sha256 nothrow_new (m_geometry m) (contents d) (backup_at m slot_number) = Ret mo)
    r d' (run : UpdatePartitionTable_fd sha256 nothrow_new android opener m slot_number writer d
                = (r, d')) :
  within m slot_number (contents d) (contents d') ∧
  (good sha256 nothrow_new m slot_number (contents d) (contents d') (primary_at m slot_number) ∨
   good sha256 nothrow_new m slot_number (contents d) (contents d') (backup_at m slot_number)) ∧
  (r = Ret () →
   copy_at sha256 nothrow_new (m_geometry m) (contents d') (primary_at m slot_number)
     = Ret (written sha256 m) ∧
   copy_at sha256 nothrow_new (m_geometry m) (contents d') (backup_at m slot_number)
     = Ret (written sha256 m)).
Proof. by eapply UpdatePartitionTable_good. Qed.

(** The update of [Demo.disk] loses power while the primary copy is rewritten;
    the repaired backup survives. *)
Lemma update_survives_power_loss_witness :
  ∃ d', UpdatePartitionTable_fd Demo.digest Demo.allocates false Demo.opener (Demo.metadata 32) 0
          DefaultWriter Demo.disk = (Reject, d') ∧
  (good Demo.digest Demo.allocates (Demo.metadata 32) 0 Demo.contents0 (contents d')
     (primary_at (Demo.metadata 32) 0) ∨
   good Demo.digest Demo.allocates (Demo.metadata 32) 0 Demo.contents0 (contents d')
     (backup_at (Demo.metadata 32) 0)).
Proof.
  destruct (UpdatePartitionTable_fd Demo.digest Demo.allocates false Demo.opener
              (Demo.metadata 32) 0 DefaultWriter Demo.disk) as [r d'] eqn:E.
  exists d'.
  assert (Hrun : fst (UpdatePartitionTable_fd Demo.digest Demo.allocates false Demo.opener
              (Demo.metadata 32) 0 DefaultWriter Demo.disk) = Reject) by (vm_compute; reflexivity).
  rewrite E in Hrun. simpl in Hrun. subst r. split; [reflexivity|].
  assert (Hp : copy_at Demo.digest Demo.allocates Demo.geometry Demo.contents0 12288 =
               Ret (written Demo.digest (Demo.metadata 16))) by (vm_compute; reflexivity).
  assert (Hb : copy_at Demo.digest Demo.allocates Demo.geometry Demo.contents0 13312 = Reject)
    by (vm_compute; reflexivity).
  refine (proj1 (proj2 (update_survives_power_loss Demo.digest Demo.allocates false
    Demo.digest_length Demo.opener DefaultWriter write_law (Demo.metadata 32) 0 _ _ _ _ _
    Demo.disk _ _ _ _ Reject d' E))).
  - by split.
  - done.
  - by vm_compute.
  - done.
  - apply (Demo.serializable_metadata 32). lia.
  - split; by vm_compute.
  - intros mo Hmo. change (copy_at Demo.digest Demo.allocates Demo.geometry Demo.contents0 12288
      = Ret mo) in Hmo. rewrite Hp in Hmo. apply Ret_inj in Hmo as <-. split; by vm_compute.
  - intros mo Hmo. change (copy_at Demo.digest Demo.allocates Demo.geometry Demo.contents0 13312
      = Ret mo) in Hmo. by rewrite Hb in Hmo.
  - eexists. left. exact Hp.
Defined.

(** ** Round trips *)

Lemma reader_start (buf : bytes) :
  zlen buf < 2 ^ 64 → reader_ok (mkMemoryReader buf 0).
Proof. apply buffer_reader_ok. Qed.

(** C7: a serialised table set, followed by any bytes, is parsed back from any
    reader as the same partitions, extents, groups and block devices, under the
    header that was completed with positions and checksums; exactly its bytes
    are consumed. *)
Theorem metadata_roundtrip (sha256 : bytes → bytes) (nothrow_new : Z → bool)
    (sha256_length : ∀ bs, length (sha256 bs) = 32%nat)
    {R} `{HR : ReaderLaws R, !ReaderLive R} (m : LpMetadata) (blob : bytes) (r : R) (more : bytes)
    (m_ok : serializable m) (alloc_ok : nothrow_new (zlen (serialize_tables m)) = true)
    (run : SerializeMetadata sha256 m = Ret blob)
    (r_ok : reader_ok r) (r_bytes : avail r = blob ++ more) :
  ∃ r', ParseMetadata sha256 nothrow_new (m_geometry m) r = (Ret (written sha256 m), r') ∧
        reader_ok r' ∧ avail r' = more.
Proof. by eapply ParseMetadata_written. Qed.

Lemma metadata_roundtrip_witness :
  ∃ r', ParseMetadata Demo.digest Demo.allocates Demo.geometry
          (mkMemoryReader (Demo.blob (Demo.metadata 7) ++ str "tail") 0) =
        (Ret (written Demo.digest (Demo.metadata 7)), r') ∧
        reader_ok r' ∧ avail r' = str "tail".
Proof.
  refine (metadata_roundtrip Demo.digest Demo.allocates Demo.digest_length (Demo.metadata 7)
            (Demo.blob (Demo.metadata 7)) _ _ _ _ _ _ _).
  - apply (Demo.serializable_metadata 7). lia.
  - reflexivity.
  - by vm_compute.
  - apply reader_start. by vm_compute.
  - reflexivity.
Defined.

(** The geometry read from a serialised geometry block, whatever follows it,
    is the one that was written, with its checksum filled in. *)
Theorem geometry_roundtrip (sha256 : bytes → bytes)
    (sha256_length : ∀ bs, length (sha256 bs) = 32%nat) (g : LpMetadataGeometry) (more : bytes)
    (g_ok : geometry_ok g) :
  ParseGeometry sha256 (SerializeGeometry sha256 g ++ more) = Ret (sealed sha256 g) ∧
  zlen (SerializeGeometry sha256 g) = LP_METADATA_GEOMETRY_SIZE.
Proof.
  split; [by apply ParseGeometry_stored|]. apply length_SerializeGeometry; [done|apply g_ok].
Qed.

Lemma geometry_roundtrip_witness :
  ParseGeometry Demo.digest (SerializeGeometry Demo.digest Demo.geometry ++ []) =
    Ret (sealed Demo.digest Demo.geometry) ∧
  zlen (SerializeGeometry Demo.digest Demo.geometry) = LP_METADATA_GEOMETRY_SIZE.
Proof.
  refine (geometry_roundtrip Demo.digest Demo.digest_length Demo.geometry [] _).
  by split; vm_compute.
Defined.

(** ** What the parser accepts *)

(** An accepted geometry has the magic number, the size of the struct, at
    least one slot, a sector-aligned slot size, and the checksum of its own
    bytes. *)
Theorem parsed_geometry_valid (sha256 : bytes → bytes) (buffer : bytes) (g : LpMetadataGeometry)
    (run : ParseGeometry sha256 buffer = Ret g) :
  geometry_ok g ∧ sealed sha256 g = g.
Proof. by eapply ParseGeometry_ok. Qed.

Lemma parsed_geometry_valid_witness :
  geometry_ok (sealed Demo.digest Demo.geometry) ∧
  sealed Demo.digest (sealed Demo.digest Demo.geometry) = sealed Demo.digest Demo.geometry.
Proof.
  apply (parsed_geometry_valid Demo.digest (SerializeGeometry Demo.digest Demo.geometry)).
  by vm_compute.
Defined.



(** Parsing untrusted bytes is memory safe but for one case: if it reads
    outside the table buffer or otherwise crashes, then a header with a valid
    checksum was read whose block device table declares entries of a size other
    than the struct's. *)
Theorem parse_crash_cause (sha256 : bytes → bytes) (nothrow_new : Z → bool)
    {R} `{HR : ReaderLaws R} (g : LpMetadataGeometry) (r r' : R)
    (r_ok : reader_ok r) (run : ParseMetadata sha256 nothrow_new g r = (Crash, r')) :
  ∃ h r1, ReadMetadataHeader sha256 r = (Ret h, r1) ∧ header_ok sha256 h ∧
    t_entry_size (h_block_devices h) ≠ sizeof block_device_codec.
Proof. by eapply ParseMetadata_safe. Qed.

(** A table whose one block device entry claims to have 8 bytes, at the end. *)
Module Overread.
Definition header : LpMetadataHeader :=
  mkHeader LP_METADATA_HEADER_MAGIC 10 0 128 (zeroes 32) 8 (zeroes 32)
    (mkTable 0 0 52) (mkTable 0 0 24) (mkTable 0 0 48) (mkTable 0 1 8) 0 (zeroes 124).
Definition tables : bytes := zeroes 8.
Definition summed : LpMetadataHeader :=
  let h := header_set_tables_checksum header (Demo.digest tables) in
  header_set_checksum h (Demo.digest (sub (c_enc header_codec h) 0 128)).
Definition image : bytes := sub (c_enc header_codec summed) 0 128 ++ tables.
End Overread.

(** C35: nothing checks the entry size of the block device table.  Take a header
    the reader accepts, followed by tables of the size and checksum it states
    that are small enough for the geometry and for memory, and whose partition,
    extent and group tables are accepted: then the parser copies from outside
    the table buffer exactly when one of the block device table's entries begins
    less than the 64 bytes of the struct before the end of the tables. *)
Theorem parse_overread (sha256 : bytes → bytes) (nothrow_new : Z → bool)
    {R} `{HR : ReaderLaws R, !ReaderLive R} (g : LpMetadataGeometry) (h : LpMetadataHeader)
    (tables more : bytes) (r : R)
    (r_ok : reader_ok r) (h_ok : header_ok sha256 h)
    (input : avail r = sub (c_enc header_codec h) 0 (header_size h) ++ tables ++ more)
    (size : zlen tables = tables_size h) (sum : sha256 tables = tables_checksum h)
    (fits : tables_size h ≤ metadata_max_size g) (memory : nothrow_new (tables_size h) = true)
    (partitions : accepts partition_codec (partition_valid h) tables (h_partitions h))
    (extents : accepts extent_codec (extent_valid h) tables (h_extents h))
    (groups : accepts group_codec no_check tables (h_groups h)) :
  (ParseMetadata sha256 nothrow_new g r).1 = Crash ↔
  ∃ i, 0 ≤ i < t_num_entries (h_block_devices h) ∧
    tables_size h < t_offset (h_block_devices h) + i * t_entry_size (h_block_devices h) +
                    sizeof block_device_codec.
Proof.
  rewrite (ParseMetadata_from _ _ _ h tables more) by done.
  apply parse_tables_overread; [apply h_ok|done..].
Qed.

Lemma parse_overread_witness :
  (ParseMetadata Demo.digest Demo.allocates Demo.geometry (mkMemoryReader Overread.image 0)).1 = Crash.
Proof.
  apply (parse_overread Demo.digest Demo.allocates Demo.geometry Overread.summed
           Overread.tables []).
  - apply reader_start. by vm_compute.
  - eapply (ReadMetadataHeader_ok Demo.digest (mkMemoryReader Overread.image 0) Overread.summed).
    + apply reader_start. by vm_compute.
    + by vm_compute.
  - by vm_compute.
  - by vm_compute.
  - by vm_compute.
  - by vm_compute.
  - done.
  - by exists [].
  - by exists [].
  - by exists [].
  - exists 0. by vm_compute.
Defined.

Lemma parse_crash_cause_witness :
  ∃ h r1, ReadMetadataHeader Demo.digest (mkMemoryReader Overread.image 0) = (Ret h, r1) ∧
    header_ok Demo.digest h ∧ t_entry_size (h_block_devices h) ≠ sizeof block_device_codec.
Proof.
  apply (parse_crash_cause Demo.digest Demo.allocates Demo.geometry
    (mkMemoryReader Overread.image 0)
    (snd (ParseMetadata Demo.digest Demo.allocates Demo.geometry
            (mkMemoryReader Overread.image 0)))).
  - apply reader_start. by vm_compute.
  - by vm_compute.
Defined.

(** ** Layout *)

(** When the metadata region does not exceed 4 GiB, the offsets the code
    computes for the geometry copies and for every slot's copies give disjoint
    ranges, after the reserved bytes and inside the size that
    [GetTotalMetadataSize] reports. *)
Theorem copies_disjoint (g : LpMetadataGeometry) (slots_ok : 0 ≤ metadata_slot_count g)
    (max_size_ok : 0 ≤ metadata_max_size g)
    (region : 12288 + 2 * (metadata_max_size g * metadata_slot_count g) < 2 ^ 32)
    (s t : Z) (s_ok : 0 ≤ s < metadata_slot_count g) (t_ok : 0 ≤ t < metadata_slot_count g)
    (s_t : s < t) ps bs pt bt
    (run : GetPrimaryMetadataOffset g s = Ret ps ∧ GetBackupMetadataOffset g s = Ret bs ∧
           GetPrimaryMetadataOffset g t = Ret pt ∧ GetBackupMetadataOffset g t = Ret bt) :
  LP_PARTITION_RESERVED_BYTES ≤ GetPrimaryGeometryOffset ∧
  GetPrimaryGeometryOffset + LP_METADATA_GEOMETRY_SIZE ≤ GetBackupGeometryOffset ∧
  GetBackupGeometryOffset + LP_METADATA_GEOMETRY_SIZE ≤ ps ∧
  ps + metadata_max_size g ≤ pt ∧ pt + metadata_max_size g ≤ bs ∧
  bs + metadata_max_size g ≤ bt ∧
  bt + metadata_max_size g ≤ GetTotalMetadataSize (metadata_max_size g) (metadata_slot_count g).
Proof.
  destruct run as (Hps & Hbs & Hpt & Hbt).
  assert (metadata_max_size g * (s + 1) ≤ metadata_max_size g * t) by nia.
  assert (metadata_max_size g * (t + 1) ≤ metadata_max_size g * metadata_slot_count g) by nia.
  assert (0 ≤ metadata_max_size g * s) by nia.
  unfold GetPrimaryMetadataOffset, GetBackupMetadataOffset, GetTotalMetadataSize,
    GetBackupGeometryOffset, GetPrimaryGeometryOffset, LP_PARTITION_RESERVED_BYTES,
    LP_METADATA_GEOMETRY_SIZE in *.
  rewrite CHECK_True in Hps, Hbs, Hpt, Hbt by lia. simpl in Hps, Hbs, Hpt, Hbt.
  apply Ret_inj in Hps, Hbs, Hpt, Hbt.
  set (A := metadata_max_size g * s) in *. set (B := metadata_max_size g * t) in *.
  set (M := metadata_max_size g * metadata_slot_count g) in *.
  assert (A + metadata_max_size g ≤ B) by (subst A B; nia).
  assert (B + metadata_max_size g ≤ M) by (subst M B; nia). clearbody A B M.
  rewrite (u32_small A), (u32_small (_ + A)) in Hps by lia.
  rewrite (u32_small B), (u32_small (_ + B)) in Hpt by lia.
  rewrite (u32_small A), (i64_small M), (i64_small (_ + M)), i64_small in Hbs by lia.
  rewrite (u32_small B), (i64_small M), (i64_small (_ + M)), i64_small in Hbt by lia.
  rewrite (u32_small M), (u32_small (_ + M)), (u32_small (_ * 2)), u32_small by lia. lia.
Qed.

Lemma copies_disjoint_witness :
  GetPrimaryMetadataOffset Demo.geometry 1 = Ret 12800 ∧
  12800 + 512 ≤ 13312.
Proof.
  split; [reflexivity|].
  refine (proj1 (proj2 (proj2 (proj2 (proj2
    (copies_disjoint Demo.geometry _ _ _ 0 1 _ _ _ 12288 13312 12800 13824 _)))))); try done.
Defined.

(** [GetTotalMetadataSize] computes in 32 bits: for this slot size, which the
    geometry checks accept, it reports a region smaller than one slot. *)
Theorem total_size_wraps :
  let g := mkGeometry LP_METADATA_GEOMETRY_MAGIC 52 (zeroes 32) (2 ^ 31) 2 4096 in
  geometry_ok g ∧
  GetTotalMetadataSize (metadata_max_size g) (metadata_slot_count g) < metadata_max_size g ∧
  ∃ b, GetBackupMetadataOffset g 0 = Ret b ∧ 2 ^ 32 < b.
Proof.
  split; [by split|]. split; [done|]. by eexists.
Qed.

(** ** Reading a slot *)

(** Of a list of copies, the first one that parses is the result; so
    [ReadMetadata], which passes primary and backup, falls back to the backup
    exactly when the primary cannot be parsed. *)
Theorem first_good_copy_is_read (sha256 : bytes → bytes) (nothrow_new : Z → bool)
    {D} `{BlockIOLive D} (g : LpMetadataGeometry) (pre : list Z) (off : Z) (post : list Z)
    (d : D) r d' (m : LpMetadata)
    (in_range : Forall (λ o, 0 ≤ o ≤ zlen (contents d)) (pre ++ off :: post))
    (len_ok : zlen (contents d) < 2 ^ 63)
    (run : read_first_copy sha256 nothrow_new g (pre ++ off :: post) d = (r, d'))
    (no_crash : r ≠ Crash)
    (bad : Forall (λ o, ∀ m, copy_at sha256 nothrow_new g (contents d) o ≠ Ret m) pre)
    (good : copy_at sha256 nothrow_new g (contents d) off = Ret m) :
  r = Ret m.
Proof. by eapply read_first_copy_spec. Qed.

Lemma first_good_copy_is_read_witness :
  fst (read_first_copy Demo.digest Demo.allocates Demo.geometry [13312; 12288] Demo.disk) =
  Ret (written Demo.digest (Demo.metadata 16)).
Proof.
  refine (first_good_copy_is_read Demo.digest Demo.allocates Demo.geometry [13312] 12288 []
    Demo.disk _ (snd (read_first_copy Demo.digest Demo.allocates Demo.geometry [13312; 12288]
      Demo.disk)) (written Demo.digest (Demo.metadata 16)) _ _ _ _ _ _).
  - repeat constructor; by vm_compute.
  - by vm_compute.
  - apply surjective_pairing.
  - by vm_compute.
  - repeat constructor. intros m. by vm_compute.
  - by vm_compute.
Defined.

(** A name of up to 36 characters is stored in a fixed array of a partition,
    a group or a block device and read back unchanged, NUL-terminated or not. *)
Theorem names_roundtrip (name : bytes) (p : LpMetadataPartition) (g : LpMetadataPartitionGroup)
    (b : LpMetadataBlockDevice) (printable : no_nul name) (len : (length name ≤ 36)%nat) :
  GetPartitionName <$> UpdatePartitionName p name = Ret name ∧
  GetPartitionGroupName <$> UpdatePartitionGroupName g name = Ret name ∧
  GetBlockDevicePartitionName <$> UpdateBlockDevicePartitionName b name = Ret name.
Proof.
  unfold UpdatePartitionName, UpdatePartitionGroupName, UpdateBlockDevicePartitionName.
  rewrite require_True by done. simpl.
  unfold GetPartitionName, GetPartitionGroupName, GetBlockDevicePartitionName. simpl.
  by rewrite name_roundtrip.
Qed.

Lemma names_roundtrip_witness :
  GetPartitionName <$> UpdatePartitionName (mkPartition (zeroes 36) 0 0 0 0)
    (str "a_name_of_exactly_thirty-six_symbols") =
  Ret (str "a_name_of_exactly_thirty-six_symbols").
Proof.
  refine (proj1 (names_roundtrip (str "a_name_of_exactly_thirty-six_symbols") _
    (mkGroup (zeroes 36) 0 0) (mkBlockDevice 0 0 0 0 (zeroes 36) 0) _ _)).
  - by apply (bool_decide_unpack _).
  - by vm_compute.
Defined.

(** [AlignTo] in [w]-bit arithmetic: the result is the least multiple of a
    non-zero alignment that is not below [base]; failure means that there is
    none below [2 ^ w]. *)
Theorem AlignTo_correct (w base alignment : Z) (al_ok : 0 ≤ alignment)
    (base_ok : 0 ≤ base < 2 ^ w) :
  match AlignTo w base alignment with
  | Some r => base ≤ r < 2 ^ w ∧ (alignment = 0 → r = base) ∧
      (alignment ≠ 0 → (alignment | r) ∧ ∀ r', base ≤ r' → (alignment | r') → r ≤ r')
  | None => alignment ≠ 0 ∧ ∀ r, base ≤ r → (alignment | r) → 2 ^ w ≤ r
  end.
Proof.
  destruct (AlignTo w base alignment) as [r|] eqn:E; [|by apply AlignTo_None].
  destruct (AlignTo_Some _ _ _ _ al_ok E base_ok) as (Hr & H0 & H1).
  split_and!; [lia..|done|]. intros Hne. split; [by apply H1|].
  intros r' Hle Hdiv. by eapply AlignTo_le.
Qed.

Lemma AlignTo_correct_witness :
  AlignTo 32 4294967295 4096 = None ∧
  (4096 ≠ 0 ∧ ∀ r, 4294967295 ≤ r → (4096 | r) → 2 ^ 32 ≤ r).
Proof. split; [reflexivity|]. apply (AlignTo_correct 32 4294967295 4096); lia. Defined.
