(* ===== verification/BuilderProps.v ===== *)
(** * Properties of liblp's metadata builder

    Space allocation and the operations on partitions, with an instance of each on
    a small builder. *)
From S2P Require Import Prelude Bytes LpFormat LpUtility Device LpReader LpExtent LpBuilder LpAlloc LpFree.
From S2P Require Import LpGrow LpInvariant LpResize LpExport LpRoundtrip LpWriter LpImage LpCrash.
From coqutil Require Import Byte Word.LittleEndianList.

(** ** A builder for the instances *)

Module BDemo.
(** A super device of 4 MiB, in blocks of 4 KiB and aligned to 1 MiB. *)
Definition super : LpMetadataBlockDevice :=
  mkBlockDevice 2048 1048576 0 4194304 (strncpy 36 (str "super")) 0.
Definition geometry : LpMetadataGeometry :=
  mkGeometry LP_METADATA_GEOMETRY_MAGIC 52 (zeroes 32) 4096 1 4096.
Definition system : Partition :=
  mkLpPartition (str "system") (str "main") [LinearExtent 2048 0 2048] 1 1048576.
Definition vendor : Partition :=
  mkLpPartition (str "vendor") (str "main") [LinearExtent 1024 0 6144] 1 524288.
Definition builder : MetadataBuilder :=
  mkBuilder geometry (b_header EmptyBuilder) [system; vendor]
    [mkPartitionGroup kDefaultGroup 0; mkPartitionGroup (str "main") 2621440] [super] false.
Definition fetcher : IPropertyFetcher := mkFetcher (λ _ d, d) (λ _ d, d).

Lemma one_device d dv : [super] !! d = Some dv → dv = super.
Proof. destruct d as [|d]; [by intros [= ->]|done]. Qed.
Lemma device_super : device_ok super.
Proof. split; by vm_compute. Qed.
Lemma layout : layout_ok [super] (owners builder).
Proof.
  split.
  - constructor; [apply device_super|done].
  - unfold owners, all_extents. simpl.
    repeat constructor; try lia; exists super; by split_and!; vm_compute.
  - intros d s. unfold owners, all_extents. simpl. repeat case_decide; lia.
Qed.
Lemma builder_is_ok : builder_ok builder.
Proof.
  split.
  - apply layout.
  - by apply (bool_decide_unpack _).
  - repeat constructor; try lia; by vm_compute.
  - unfold owners, all_extents. simpl. constructor; [|constructor; [|done]].
    + split; [by exists 256|]. intros dv _ _. by exists 512.
    + split; [by exists 128|]. intros dv _ _. by exists 896.
  - constructor; [|done]. split; [by exists 8192|]. intros _. by exists 4.
  - constructor; [|done]. intros _. by exists 256.
  - split_and!; [done..|]. by exists 8.
Qed.
Lemma no_hint : hint_ok [super] 4096 [].
Proof. by split; try constructor. Qed.
(** A 32-byte digest. *)
Definition digest (bs : bytes) : bytes :=
  le_split 32 (foldl (λ a b, (a * 31 + byte.unsigned b) mod 2 ^ 61) 7 bs).
Definition allocates (n : Z) : bool := true.
Lemma digest_is_32 bs : length (digest bs) = 32%nat.
Proof. apply length_le_split. Qed.
Definition exported : LpMetadata := Eval vm_compute in
  default (mkMetadata geometry (b_header EmptyBuilder) [] [] [] []) (returned (Export builder)).
Definition blob : bytes := default [] (returned (SerializeMetadata digest exported)).
Lemma exportable_builder : exportable builder.
Proof. split; try done; by apply (bool_decide_unpack _). Qed.
Lemma serializable_exported : serializable exported.
Proof.
  split; try done. split; try done.
  - by constructor; [|constructor].
  - by constructor; [|constructor].
  - split_and!; repeat (constructor; [try done; repeat (split; [done|]); done|]); try constructor; done.
  - by eexists.
Qed.
(** The same on a device without alignment. *)
Definition plain_super : LpMetadataBlockDevice :=
  mkBlockDevice 2048 0 0 4194304 (strncpy 36 (str "super")) 0.
Definition plain_builder : MetadataBuilder := set_block_devices builder [plain_super].
Lemma plain_layout : layout_ok [plain_super] (all_extents (b_partitions plain_builder)).
Proof.
  split.
  - constructor; [split; by vm_compute|done].
  - unfold all_extents. simpl.
    repeat constructor; try lia; exists plain_super; by split_and!; vm_compute.
  - apply (lay_disjoint _ _ layout).
Qed.
End BDemo.

(** ** Resizing *)

(** C23: [ResizePartition] on a well-formed builder either leaves it unchanged and
    fails, or gives the partition the least size in whole blocks that holds the
    request.  Then the builder is well formed again: no sector has two owners and
    every extent lies inside its device.  The bytes that both sizes have stay in the
    sectors they were in, the other partitions are untouched, and a partition that
    grew is within the limit of its group.  No check aborts. *)
Theorem resize_correct (fetcher : IPropertyFetcher) (b : MetadataBuilder) (name : bytes)
    (p : Partition) (g : PartitionGroup) (requested : Z) (hint : list Interval)
    (b_ok : builder_ok b) (p_found : FindPartition b name = Some p)
    (g_found : FindGroup b (pt_group_name p) = Some g) (limit_u64 : is_u64 (pg_maximum_size g))
    (request_u64 : is_u64 requested) (hint_is_ok : hint_ok (b_block_devices b) (lbs b) hint) :
  match ResizePartition fetcher name requested hint b with
  | (Ret _, b') => ∃ size q, AlignTo 64 requested (lbs b) = Some size ∧ resized b name p g size q b'
  | (Reject, b') => b' = b
  | (Crash, _) => False
  end.
Proof. by apply ResizePartition_ok. Qed.

(** Growing [system] to 2 MiB takes the free megabyte behind it. *)
Lemma resize_correct_witness :
  ∃ b', ResizePartition BDemo.fetcher (str "system") 2093057 [] BDemo.builder = (Ret (), b') ∧
  ∃ size q, AlignTo 64 2093057 4096 = Some size ∧
    resized BDemo.builder (str "system") BDemo.system (mkPartitionGroup (str "main") 2621440) size q b'.
Proof.
  eexists. split; [vm_compute; reflexivity|].
  exact (resize_correct BDemo.fetcher BDemo.builder (str "system") BDemo.system
    (mkPartitionGroup (str "main") 2621440) 2093057 [] BDemo.builder_is_ok eq_refl eq_refl
    ltac:(by split) ltac:(by split) BDemo.no_hint).
Defined.

(** C28: [GrowPartition] fails, without a change, only if the regions it may take
    from, counted in whole blocks, are smaller than the growth; otherwise it adds
    extents of exactly that size, in whole blocks inside the devices, whose sectors
    have no owner and are distinct. *)
Theorem grow_fails_only_without_space (fetcher : IPropertyFetcher) (b : MetadataBuilder)
    (name : bytes) (p : Partition) (size : Z) (hint : list Interval)
    (b_ok : builder_ok b) (p_found : FindPartition b name = Some p)
    (larger : pt_size p < size < 2 ^ 64) (blocks : (lbs b | size))
    (hint_is_ok : hint_ok (b_block_devices b) (lbs b) hint) :
  ∃ free, candidates fetcher b p hint = Ret free ∧
    ((∃ new, addition b p size new ∧
      GrowPartition fetcher name size hint b = (Ret (), replaced name (foldl AddExtent p new) b)) ∨
     (GrowPartition fetcher name size hint b = (Reject, b) ∧
      usable (lbs b / LP_SECTOR_SIZE) free * LP_SECTOR_SIZE < size - pt_size p)).
Proof. by apply GrowPartition_extents. Qed.

(** 4 MiB do not fit. *)
Lemma grow_fails_only_without_space_witness :
  ∃ free, candidates BDemo.fetcher BDemo.builder BDemo.system [] = Ret free ∧
    GrowPartition BDemo.fetcher (str "system") 4194304 [] BDemo.builder = (Reject, BDemo.builder) ∧
    usable 8 free * 512 < 4194304 - 1048576.
Proof.
  destruct (grow_fails_only_without_space BDemo.fetcher BDemo.builder (str "system") BDemo.system
    4194304 [] BDemo.builder_is_ok eq_refl ltac:(simpl; lia) ltac:(by exists 1024) BDemo.no_hint)
    as (free & Hc & [(new & _ & H)|H]).
  - exfalso. assert (Hf : fst (GrowPartition BDemo.fetcher (str "system") 4194304 [] BDemo.builder)
      = Reject) by (vm_compute; reflexivity). by rewrite H in Hf.
  - by exists free.
Defined.

(** ** Free regions *)

(** C27: the regions [GetFreeRegions] reports are not empty, start at an aligned
    sector, lie inside their device, and share no sector with an extent of any
    partition or with each other. *)
Theorem free_regions_sound (b : MetadataBuilder)
    (layout : layout_ok (b_block_devices b) (all_extents (b_partitions b))) :
  ∃ free, GetFreeRegions b = Ret free ∧
    free_list_ok (b_block_devices b) (all_extents (b_partitions b)) free ∧
    Forall (aligned_start (b_block_devices b)) free.
Proof. by apply GetFreeRegions_ok. Qed.

Lemma free_regions_sound_witness :
  ∃ free, GetFreeRegions BDemo.builder = Ret free ∧
    free_list_ok [BDemo.super] (owners BDemo.builder) free ∧
    Forall (aligned_start [BDemo.super]) free.
Proof. apply (free_regions_sound BDemo.builder BDemo.layout). Defined.

(** On a device that is aligned to sectors at most, nothing is lost: every
    sector of its area is in exactly one free region or owned by exactly one
    extent. *)
Theorem free_regions_complete (b : MetadataBuilder) (free : list Interval) (d : Z)
    (dv : LpMetadataBlockDevice) (s : Z)
    (layout : layout_ok (b_block_devices b) (all_extents (b_partitions b)))
    (run : GetFreeRegions b = Ret free) (d_ok : 0 ≤ d)
    (device : b_block_devices b !! Z.to_nat d = Some dv)
    (no_alignment : bd_alignment dv = 0 ∨ (bd_alignment dv | LP_SECTOR_SIZE))
    (sector : first_logical_sector dv ≤ s < sectors dv) :
  iv_cover free d s + cover (all_extents (b_partitions b)) d s = 1.
Proof. by eapply GetFreeRegions_complete. Qed.

Lemma free_regions_complete_witness :
  iv_cover [mkInterval 0 4096 6144; mkInterval 0 7168 8192] 0 7777 + 
  cover (all_extents (b_partitions BDemo.plain_builder)) 0 7777 = 1.
Proof.
  apply (free_regions_complete BDemo.plain_builder [mkInterval 0 4096 6144; mkInterval 0 7168 8192] 0
    BDemo.plain_super 7777 BDemo.plain_layout); try done; by left.
Defined.

(** A sector is in the intersection of two region lists as often as it is in
    both; so a hint only ever takes regions away. *)
Theorem intersection_exact (a b : list Interval) (d s : Z)
    (a_u64 : Forall (λ r, is_u64 (iv_start r) ∧ is_u64 (iv_end r)) a)
    (b_u64 : Forall (λ r, is_u64 (iv_start r) ∧ is_u64 (iv_end r)) b) :
  iv_cover (Intersect_list a b) d s = iv_cover a d s * iv_cover b d s.
Proof. by apply Intersect_list_cover. Qed.

Lemma intersection_exact_witness :
  iv_cover (Intersect_list [mkInterval 0 10 20] [mkInterval 0 5 15; mkInterval 1 0 99]) 0 12 = 1.
Proof.
  rewrite (intersection_exact [mkInterval 0 10 20] [mkInterval 0 5 15; mkInterval 1 0 99] 0 12).
  - reflexivity.
  - repeat constructor; simpl; lia.
  - repeat constructor; simpl; lia.
Defined.

(** ** Extents *)

(** [AddExtent] appends, whether or not the extent is merged into the last
    one: the size grows by its size, every sector keeps its place, the new ones
    follow, and the number of owners of every device sector is that of the list
    and the extent together. *)
Theorem AddExtent_appends (p : Partition) (e : Extent) (p_ok : partition_ok p) (e_ok : extent_ok e)
    (fits : (total (pt_extents p) + num_sectors e) * LP_SECTOR_SIZE < 2 ^ 64) :
  let q := AddExtent p e in
  partition_ok q ∧ pt_size q = pt_size p + num_sectors e * LP_SECTOR_SIZE ∧
  (∀ d s, cover (pt_extents q) d s = cover (pt_extents p) d s + owns e d s) ∧
  (∀ i, 0 ≤ i → resolve (pt_extents q) i = resolve (pt_extents p ++ [e]) i).
Proof.
  destruct (AddExtent_ok p e p_ok e_ok fits) as [H1 H2].
  destruct (push_extent_ok (pt_extents p) e) as (_ & _ & H3 & H4); [apply p_ok|done| |done].
  unfold LP_SECTOR_SIZE in fits. pose proof (total_nonneg _ (pok_extents _ p_ok)).
  pose proof (proj1 e_ok). lia.
Qed.

Lemma AddExtent_appends_witness :
  resolve (pt_extents (AddExtent BDemo.system (LinearExtent 8 0 4096))) 2050 =
  resolve [LinearExtent 2048 0 2048; LinearExtent 8 0 4096] 2050.
Proof.
  refine (proj2 (proj2 (proj2 (AddExtent_appends BDemo.system (LinearExtent 8 0 4096) _ _ _))) 2050 _).
  - apply (proj1 (Forall_forall _ _) (bok_parts _ BDemo.builder_is_ok)). left.
  - split; simpl; lia.
  - by vm_compute.
  - lia.
Defined.

(** [ShrinkTo] leaves exactly the first [size] bytes: they stay in the sectors
    they were in, no sector gets a new owner, and the partition is well formed with
    the new size. *)
Theorem ShrinkTo_keeps_prefix (p : Partition) (size : Z) (p_ok : partition_ok p)
    (smaller : 0 ≤ size ≤ pt_size p) (whole_sectors : (LP_SECTOR_SIZE | size)) :
  ∃ q, ShrinkTo p size = Ret q ∧ partition_ok q ∧ pt_size q = size ∧
    (∀ d s, cover (pt_extents q) d s ≤ cover (pt_extents p) d s) ∧
    (∀ i, 0 ≤ i < size / LP_SECTOR_SIZE → resolve (pt_extents q) i = resolve (pt_extents p) i).
Proof.
  destruct (ShrinkTo_ok p size p_ok smaller whole_sectors)
    as (q & E & Hq & Hs & _ & _ & _ & _ & Hc & Hr). by exists q.
Qed.

Lemma ShrinkTo_keeps_prefix_witness :
  ∃ q, ShrinkTo BDemo.system 524288 = Ret q ∧ pt_size q = 524288 ∧
    resolve (pt_extents q) 1000 = Some (OnDevice 0 3048).
Proof.
  destruct (ShrinkTo_keeps_prefix BDemo.system 524288) as (q & E & _ & Hs & _ & Hr).
  - apply (proj1 (Forall_forall _ _) (bok_parts _ BDemo.builder_is_ok)). left.
  - simpl. lia.
  - by exists 1024.
  - exists q. split_and!; [done..|]. by rewrite Hr by by vm_compute.
Defined.

(** ** Adding and removing partitions *)

(** [AddPartition] succeeds exactly when the name is not empty, not taken, and
    the group exists; it adds an empty partition and keeps the invariant; a failed
    call changes nothing. *)
Theorem AddPartition_correct (b : MetadataBuilder) (name group : bytes) (attributes : Z)
    (b_ok : builder_ok b) :
  match AddPartition name group attributes b with
  | (Ret _, b') => name ≠ [] ∧ FindPartition b name = None ∧ FindGroup b group ≠ None ∧
      builder_ok b' ∧ owners b' = owners b ∧
      FindPartition b' name = Some (NewPartition name group attributes) ∧
      ∀ n, n ≠ name → FindPartition b' n = FindPartition b n
  | (Reject, b') => b' = b ∧
      (name = [] ∨ FindPartition b name ≠ None ∨ FindGroup b group = None)
  | (Crash, _) => False
  end.
Proof. by apply AddPartition_ok. Qed.

Lemma AddPartition_correct_witness :
  ∃ b', AddPartition (str "odm") (str "main") 0 BDemo.builder = (Ret (), b') ∧ builder_ok b'.
Proof.
  eexists. split; [reflexivity|].
  apply (AddPartition_correct BDemo.builder (str "odm") (str "main") 0 BDemo.builder_is_ok).
Defined.

(** [RemovePartition] removes the partition of that name if there is one and
    frees exactly its sectors; the other partitions stay, and so does the
    invariant. *)
Theorem RemovePartition_correct (b : MetadataBuilder) (name : bytes) (b_ok : builder_ok b) :
  let b' := RemovePartition name b in
  builder_ok b' ∧ FindPartition b' name = None ∧
  (∀ n, n ≠ name → FindPartition b' n = FindPartition b n) ∧
  ∀ d s, cover (owners b') d s = cover (owners b) d s -
    match FindPartition b name with Some p => cover (pt_extents p) d s | None => 0 end.
Proof. by apply RemovePartition_ok. Qed.

Lemma RemovePartition_correct_witness :
  builder_ok (RemovePartition (str "vendor") BDemo.builder).
Proof.
  apply (RemovePartition_correct BDemo.builder (str "vendor") BDemo.builder_is_ok).
Defined.

(** ** Export *)

(** [q] has the name, group, attributes and size of [p], and every byte of it is
    where [p] has it. *)
Definition same_partition (p q : Partition) : Prop :=
  pt_name q = pt_name p ∧ pt_group_name q = pt_group_name p ∧ pt_attributes q = pt_attributes p ∧
  pt_size q = pt_size p ∧ ∀ i, 0 ≤ i → resolve (pt_extents q) i = resolve (pt_extents p) i.

(** A builder survives the disk.  When [Export] succeeds and the tables are
    serialised, parsing the bytes and building from the result gives a builder with
    the same geometry, groups and block devices, and the same partitions in the same
    order, each with its bytes in the sectors they were in. *)
Theorem builder_survives_image (sha256 : bytes → bytes) (nothrow_new : Z → bool)
    (sha256_length : ∀ bs, length (sha256 bs) = 32%nat)
    {R} `{HR : ReaderLaws R, !ReaderLive R} (b : MetadataBuilder) (m : LpMetadata)
    (blob : bytes) (r : R) (more : bytes)
    (b_exportable : exportable b) (b_parts : Forall partition_ok (b_partitions b))
    (exported : Export b = Ret m) (m_ok : serializable m)
    (alloc_ok : nothrow_new (zlen (serialize_tables m)) = true)
    (serialized : SerializeMetadata sha256 m = Ret blob)
    (r_ok : reader_ok r) (r_bytes : avail r = blob ++ more) :
  ∃ m' r' b', ParseMetadata sha256 nothrow_new (b_geometry b) r = (Ret m', r') ∧
    New_metadata m' None = Ret b' ∧
    b_geometry b' = b_geometry b ∧ b_groups b' = b_groups b ∧
    b_block_devices b' = b_block_devices b ∧
    Forall2 same_partition (b_partitions b) (b_partitions b').
Proof.
  destruct (Export_inv b m exported) as (_ & Hgeo & _).
  destruct (ParseMetadata_written sha256 nothrow_new sha256_length m blob r more)
    as (r' & Hparse & _); [done..|]. rewrite Hgeo in Hparse.
  exists (written sha256 m), r', (rebuilt b (finish_header sha256 m)).
  split_and!; try done; [by apply export_import|]. simpl.
  apply Forall2_fmap_r, Forall_Forall2_diag. eapply Forall_impl; [exact b_parts|].
  intros p Hp. destruct (reimported_ok p Hp) as (_ & H1 & H2 & H3 & H4 & _ & H5). done.
Qed.

Lemma builder_survives_image_witness :
  ∃ m' r' b', ParseMetadata BDemo.digest BDemo.allocates BDemo.geometry
      (mkMemoryReader (BDemo.blob ++ str "tail") 0) = (Ret m', r') ∧
    New_metadata m' None = Ret b' ∧
    Forall2 same_partition [BDemo.system; BDemo.vendor] (b_partitions b').
Proof.
  destruct (builder_survives_image BDemo.digest BDemo.allocates BDemo.digest_is_32 BDemo.builder
    BDemo.exported BDemo.blob (mkMemoryReader (BDemo.blob ++ str "tail") 0) (str "tail"))
    as (m' & r' & b' & H1 & H2 & _ & _ & _ & H3).
  - apply BDemo.exportable_builder.
  - apply BDemo.builder_is_ok.
  - reflexivity.
  - apply BDemo.serializable_exported.
  - reflexivity.
  - by vm_compute.
  - apply buffer_reader_ok. by vm_compute.
  - reflexivity.
  - exists m', r', b'. split; [exact H1|split; [exact H2|exact H3]].
Defined.

(** [Export] never aborts; it succeeds exactly when no group exceeds its limit,
    the names fit their 36-byte arrays, the attributes are known ones, and every
    partition's group and every linear extent's device exist. *)
Theorem export_succeeds_iff (b : MetadataBuilder) :
  Export b ≠ Crash ∧
  ((∃ m, Export b = Ret m) ↔
   ValidatePartitionGroups b = true ∧ Forall group_writable (b_groups b) ∧
   Forall (partition_writable (b_groups b) (length (b_block_devices b))) (b_partitions b)).
Proof. apply Export_cases. Qed.

(** ** Two limits of the allocator *)

(** On a device whose size is not a multiple of its alignment the allocator
    can leave the device: it rounds the end of the last extent up and takes the
    sectors beyond, although only the part up to the end of the device exists. *)
Theorem grow_past_end :
  let super := mkBlockDevice 2048 1048576 0 (3 * 1048576 + 4096) (strncpy 36 (str "super")) 0 in
  let p4k := mkLpPartition (str "p") kDefaultGroup [LinearExtent 4100 0 2048] 0 2099200 in
  let b := mkBuilder BDemo.geometry (b_header EmptyBuilder) [p4k]
             [mkPartitionGroup kDefaultGroup 0] [super] false in
  Forall (extent_inside [super]) (owners b) ∧
  ∃ b', GrowPartition BDemo.fetcher (str "p") (2099200 + 4096) [] b = (Ret (), b') ∧
    ¬ Forall (extent_inside [super]) (owners b').
Proof.
  intros super p4k b. split.
  - repeat constructor; try lia. exists super. by split_and!; vm_compute.
  - eexists. split; [vm_compute; reflexivity|].
    intros [(_ & dv & [= <-] & _ & _ & Hlt) _]%Forall_cons. by vm_compute in Hlt.
Qed.

(** With an alignment that is not a multiple of the block size, a partition
    whose last extent ends off alignment cannot be grown: the remaining request is
    not a number of blocks and the check in the allocation loop aborts. *)
Theorem grow_aborts :
  let super := mkBlockDevice 2048 1024 0 4194304 (strncpy 36 (str "super")) 0 in
  let p := mkLpPartition (str "p") kDefaultGroup [LinearExtent 9 0 2048; ZeroExtent 7] 0 8192 in
  let q := mkLpPartition (str "p") kDefaultGroup [ZeroExtent 7; LinearExtent 9 0 2048] 0 8192 in
  let b p := mkBuilder BDemo.geometry (b_header EmptyBuilder) [p]
               [mkPartitionGroup kDefaultGroup 0] [super] false in
  (∃ b', GrowPartition BDemo.fetcher (str "p") 16384 [] (b p) = (Ret (), b')) ∧
  GrowPartition BDemo.fetcher (str "p") 16384 [] (b q) = (Crash, b q).
Proof. split; [eexists|]; vm_compute; reflexivity. Qed.
