(* ===== verification/DmMap.v ===== *)
(** * What the devices of logical partitions map

    The table of a partition maps every logical sector to the sector its extents
    name, the tables of an exported builder share no physical sector, and at boot every
    partition gets its device. *)
From S2P Require Import Prelude Bytes LpFormat LpUtility Device LpReader LpExtent LpBuilder LpAlloc LpFree.
From S2P Require Import LpGrow LpInvariant LpExport LpRoundtrip DmTarget DeviceMapper DmLife DmLinear.

(** The extent of an entry of the extent table. *)
Definition of_entry (x : LpMetadataExtent) : Extent :=
  if decide (e_target_type x = LP_TARGET_TYPE_ZERO) then ZeroExtent (e_num_sectors x)
  else LinearExtent (e_num_sectors x) (e_target_source x) (e_target_data x).
Definition known_type (x : LpMetadataExtent) : Prop :=
  e_target_type x = LP_TARGET_TYPE_ZERO ∨ e_target_type x = LP_TARGET_TYPE_LINEAR.
(** The extents of a partition. *)
Definition entries_of (m : LpMetadata) (p : LpMetadataPartition) : list LpMetadataExtent :=
  take (Z.to_nat (p_num_extents p)) (drop (Z.to_nat (p_first_extent_index p)) (m_extents m)).
Definition extents_of (m : LpMetadata) (p : LpMetadataPartition) : list Extent :=
  of_entry <$> entries_of m p.

(** A place on block device [d] is one on the device of that path. *)
Definition mapped_at (path : Z → bytes) (t : Target) : Mapped :=
  match t with Zeroed => ToZeroes | OnDevice d s => ToDevice (path d) s end.
(** The targets of extents that start at a logical sector. *)
Fixpoint targets_at (path : Z → bytes) (sector : Z) (es : list Extent) : list DmTarget :=
  match es with
  | [] => []
  | e :: es =>
      mkTarget sector (num_sectors e)
        match e with
        | ZeroExtent _ => DmTargetZero
        | LinearExtent _ d s => DmTargetLinear (path d) s
        end :: targets_at path (sector + num_sectors e) es
  end.

Lemma targets_at_contiguous path es s :
  Forall (λ e, 0 ≤ num_sectors e) es → contiguous (targets_at path s es) s (s + total es).
Proof.
  intros He. revert s. induction He as [|e es He _ IH]; intros s; simpl; [lia|].
  split_and!; [done|done|]. rewrite Z.add_assoc. apply IH.
Qed.
Lemma targets_at_map path es s i :
  Forall (λ e, 0 ≤ num_sectors e) es → 0 ≤ i →
  targets_map (targets_at path s es) (s + i) = mapped_at path <$> resolve es i.
Proof.
  intros He. revert s i. induction He as [|e es He _ IH]; intros s i Hi; simpl; [done|].
  case_decide; case_decide; try lia.
  - unfold target_map. simpl. destruct e; simpl; [|done]. do 2 f_equal. lia.
  - replace (s + i) with (s + num_sectors e + (i - num_sectors e)) by lia. apply IH. lia.
Qed.

Section Map.
Context {D : Type} `{!BlockIO D} (opener : @IPartitionOpener D).
Context (Realpath : bytes → option bytes) (super_device : bytes) (m : LpMetadata) (path : Z → bytes).

(** Every block device of the metadata has a node. *)
Definition paths_resolve : Prop :=
  ∀ i b, m_block_devices m !! i = Some b →
    GetPhysicalPartitionDevicePath Realpath opener i b super_device = Ret (path (Z.of_nat i)).
Context (resolves : paths_resolve).

Lemma extent_target_ok sector x :
  known_type x →
  (e_target_type x = LP_TARGET_TYPE_LINEAR → 0 ≤ e_target_source x < zlen (m_block_devices m)) →
  extent_target Realpath opener super_device m sector x =
  Ret (mkTarget sector (e_num_sectors x)
    match of_entry x with
    | ZeroExtent _ => DmTargetZero
    | LinearExtent _ d s => DmTargetLinear (path d) s
    end).
Proof using resolves.
  intros Hk Hlin. unfold extent_target, of_entry. case_decide as Hz; [done|].
  destruct Hk as [?|Hl]; [done|]. rewrite decide_True by done. specialize (Hlin Hl).
  destruct (lookup_lt_is_Some_2 (m_block_devices m) (Z.to_nat (e_target_source x))) as [b Hb].
  { unfold zlen in Hlin. lia. }
  rewrite Hb. simpl. rewrite (resolves _ _ Hb). simpl. by rewrite Z2Nat.id by lia.
Qed.

Lemma add_extents_ok xs pre post t :
  m_extents m = pre ++ xs ++ post → Forall known_type xs →
  Forall (λ x, is_u64 (e_num_sectors x)) xs →
  Forall (λ x, e_target_type x = LP_TARGET_TYPE_LINEAR →
    0 ≤ e_target_source x < zlen (m_block_devices m)) xs →
  0 ≤ num_sectors_ t → num_sectors_ t + total (of_entry <$> xs) < 2 ^ 64 →
  add_extents Realpath opener super_device m (zlen pre) (length xs) (num_sectors_ t) t =
  Ret (mkDmTable (targets_ t ++ targets_at path (num_sectors_ t) (of_entry <$> xs))
         (num_sectors_ t + total (of_entry <$> xs)) (readonly_ t)).
Proof using resolves.
  revert pre t. induction xs as [|x xs IH]; intros pre t Hm Hk Hn Hl Ht Hb.
  { simpl. rewrite app_nil_r, Z.add_0_r. by destruct t. }
  apply Forall_cons in Hk as [Hkx Hk], Hn as [Hnx Hn], Hl as [Hlx Hl].
  simpl in Hm. csimpl. csimpl in Hb. rewrite Hm, to_nat_zlen, list_lookup_middle by done. simpl.
  rewrite extent_target_ok by done. simpl.
  assert (Hx : num_sectors (of_entry x) = e_num_sectors x).
  { unfold of_entry. by case_decide. }
  assert (0 ≤ total (of_entry <$> xs)).
  { clear -Hn. induction Hn as [|y ys Hy _ IHn]; csimpl; [lia|]. unfold of_entry at 1.
    case_decide; simpl; lia. }
  rewrite Hx in *. set (k := match of_entry x with LinearExtent _ _ _ => _ | _ => _ end).
  unfold AddTarget. assert (Hv : target_Valid k = true) by (unfold k; by destruct (of_entry x)).
  simpl. rewrite require_True by done. simpl. rewrite u64_small by lia.
  set (t' := mkDmTable _ _ _).
  replace (zlen pre + 1) with (zlen (pre ++ [x])) by (rewrite zlen_app; unfold zlen; simpl; lia).
  change (num_sectors_ t + e_num_sectors x) with (num_sectors_ t').
  rewrite (IH (pre ++ [x]) t'); try done.
  - unfold t'. simpl. rewrite <- (assoc_L (++)). simpl. do 2 f_equal. lia.
  - by rewrite <- (assoc_L (++)).
  - unfold t'. simpl. lia.
  - unfold t'. simpl. lia.
Qed.

(** What a partition must satisfy to be mapped. *)
Record mappable (p : LpMetadataPartition) : Prop := {
  mp_range : 0 ≤ p_first_extent_index p ∧ 0 ≤ p_num_extents p ∧
    p_first_extent_index p + p_num_extents p ≤ zlen (m_extents m);
  mp_types : Forall known_type (entries_of m p);
  mp_numbers : Forall (λ x, is_u64 (e_num_sectors x)) (entries_of m p);
  mp_sources : Forall (λ x, e_target_type x = LP_TARGET_TYPE_LINEAR →
    0 ≤ e_target_source x < zlen (m_block_devices m)) (entries_of m p);
  mp_total : total (extents_of m p) < 2 ^ 64;
}.

(** Metadata that was read has all of this but known types and a bounded sum. *)
Lemma metadata_mappable p :
  metadata_ok m → p ∈ m_partitions m → Forall known_type (entries_of m p) →
  total (extents_of m p) < 2 ^ 64 → mappable p.
Proof using Type.
  intros [Hp He _ (Wp & We & _) _] Hin Hk Ht.
  destruct (proj1 (Forall_forall _ _) Hp _ Hin) as (_ & Hr & _).
  destruct (proj1 (Forall_forall _ _) Wp _ Hin) as (_ & _ & Hf & Hn & _). simpl in Hf, Hn.
  assert (Hsub : ∀ x, x ∈ entries_of m p → x ∈ m_extents m).
  { intros x Hx. unfold entries_of in Hx. apply elem_of_take in Hx as (j & Hj & _).
    rewrite lookup_drop in Hj. by eapply list_elem_of_lookup_2. }
  split; [lia|done| | |done]; apply Forall_forall; intros x Hx%Hsub.
  - destruct (proj1 (Forall_forall _ _) We _ Hx) as (Hx1 & _). exact Hx1.
  - intros Hl. destruct (proj1 (Forall_forall _ _) We _ Hx) as (_ & _ & _ & Hx4 & _). simpl in Hx4.
    pose proof (proj1 (Forall_forall _ _) He _ Hx Hl). simpl in *. lia.
Qed.

(** Whether the table is for reading only. *)
Definition maps_readonly (p : LpMetadataPartition) (force_writable : bool) : bool :=
  bool_decide (Z.land (p_attributes p) LP_PARTITION_ATTR_READONLY ≠ 0) && negb force_writable.

Lemma CreateDmTableInternal_ok p name force timeout dev_name :
  mappable p →
  CreateDmTableInternal Realpath
    (mkFilled super_device m p name force timeout dev_name opener) empty_table =
  Ret (mkDmTable (targets_at path 0 (extents_of m p)) (total (extents_of m p))
         (maps_readonly p force)).
Proof using resolves.
  intros [(Hf & Hn & Hr) Hk Hnum Hs Ht]. unfold CreateDmTableInternal. cbn [fp_partition fp_opener fp_block_device fp_metadata fp_force_writable].
  set (first := Z.to_nat (p_first_extent_index p)). unfold entries_of in *. fold first in Hk, Hnum, Hs.
  set (n := Z.to_nat (p_num_extents p)) in *.
  assert (Hlen : length (take n (drop first (m_extents m))) = n).
  { rewrite length_take, length_drop. unfold zlen in Hr. lia. }
  pose proof (add_extents_ok (take n (drop first (m_extents m))) (take first (m_extents m))
    (drop n (drop first (m_extents m))) empty_table) as Hadd.
  rewrite Hlen in Hadd.
  replace (zlen (take first (m_extents m))) with (p_first_extent_index p) in Hadd.
  2:{ unfold zlen in *. rewrite length_take. unfold first. lia. }
  cbn [num_sectors_ empty_table targets_ readonly_] in Hadd. rewrite Hadd; clear Hadd; try done.
  - simpl. unfold extents_of, entries_of, maps_readonly. fold first n.
    case_decide as Hro; [rewrite bool_decide_true by done|rewrite bool_decide_false by lia];
      by destruct force.
  - by rewrite !take_drop.
Qed.

(** The number of sectors, the shape and the meaning of the table. *)
Lemma partition_table_ok p name force timeout dev_name :
  mappable p → ∃ t,
    CreateDmTableInternal Realpath
      (mkFilled super_device m p name force timeout dev_name opener) empty_table = Ret t ∧
    table_num_sectors t = total (extents_of m p) ∧
    readonly_ t = maps_readonly p force ∧
    contiguous (targets_ t) 0 (total (extents_of m p)) ∧
    ∀ s, 0 ≤ s → table_map t s = mapped_at path <$> resolve (extents_of m p) s.
Proof using resolves.
  intros Hp. eexists. split; [by apply CreateDmTableInternal_ok|].
  assert (Hpos : Forall (λ e, 0 ≤ num_sectors e) (extents_of m p)).
  { apply Forall_fmap. eapply Forall_impl; [apply (mp_numbers _ Hp)|]. intros x Hx. simpl.
    unfold of_entry. case_decide; simpl in *; lia. }
  split_and!; [|done| |].
  - unfold table_num_sectors, table_valid, literal_as_bool. simpl.
    by destruct (targets_at _ _ _) as [|? ?]; [|case_decide].
  - exact (targets_at_contiguous path (extents_of m p) 0 Hpos).
  - intros s Hs. exact (targets_at_map path (extents_of m p) 0 s Hpos Hs).
Qed.
End Map.

(** ** Extents resolve to sectors of their own *)

Lemma resolve_lt es s t : positive es → resolve es s = Some t → s < total es.
Proof.
  intros He. revert s. induction He as [|e es He Hes IH]; intros s; simpl; [done|].
  pose proof (positive_total _ Hes). case_decide; [lia|]. intros H1%IH. lia.
Qed.
Lemma resolve_cover es s d x :
  positive es → 0 ≤ s → resolve es s = Some (OnDevice d x) → 1 ≤ cover es d x.
Proof.
  intros He. revert s. induction He as [|e es He Hes IH]; intros s Hs; simpl; [done|].
  pose proof (cover_nonneg es d x). pose proof (owns_range e d x). case_decide as Hlt.
  - destruct e as [n d' s'|n]; [|done]. intros [= -> <-]. simpl in *. rewrite decide_True by lia. lia.
  - intros Hr. specialize (IH (s - num_sectors e) ltac:(lia) Hr). lia.
Qed.
(** With one owner for every sector, no two logical sectors share a physical one. *)
Lemma resolve_inj es s s' d x :
  positive es → (∀ d x, cover es d x ≤ 1) → 0 ≤ s → 0 ≤ s' →
  resolve es s = Some (OnDevice d x) → resolve es s' = Some (OnDevice d x) → s = s'.
Proof.
  intros He. revert s s'. induction He as [|e es He Hes IH]; intros s s' Hc Hs Hs'; simpl; [done|].
  assert (Hhead : ∀ r, 0 ≤ r → r < num_sectors e →
    Some match e with LinearExtent _ d s => OnDevice d (s + r) | ZeroExtent _ => Zeroed end =
    Some (OnDevice d x) → owns e d x = 1 ∧ ∃ n s0, e = LinearExtent n d s0 ∧ x = s0 + r).
  { intros r Hr Hrn. destruct e as [n d' s0|n]; [|done]. intros [= -> <-]. simpl in *.
    rewrite decide_True by lia. split; [done|]. by exists n, s0. }
  specialize (Hc d x) as Hdx. simpl in Hdx.
  case_decide as H1; case_decide as H2; intros E1 E2.
  - destruct (Hhead s Hs H1 E1) as (_ & n & s0 & -> & ->).
    destruct (Hhead s' Hs' H2 E2) as (_ & n' & s0' & [= <- <-] & ?). lia.
  - destruct (Hhead s Hs H1 E1) as [Ho _].
    pose proof (resolve_cover es (s' - num_sectors e) d x Hes ltac:(lia) E2). lia.
  - destruct (Hhead s' Hs' H2 E2) as [Ho _].
    pose proof (resolve_cover es (s - num_sectors e) d x Hes ltac:(lia) E1). lia.
  - assert (s - num_sectors e = s' - num_sectors e); [|lia].
    apply IH; try done; try lia. intros d' x'. specialize (Hc d' x'). simpl in Hc.
    pose proof (owns_range e d' x'). lia.
Qed.

Lemma resolve_in_partition ps pre p post s t :
  ps = pre ++ p :: post → Forall partition_ok ps → 0 ≤ s → resolve (pt_extents p) s = Some t →
  s < total (pt_extents p) ∧
  resolve (all_extents ps) (total (all_extents pre) + s) = Some t.
Proof.
  intros -> Hok Hs Hr. apply Forall_app in Hok as [Hpre Hok]. apply Forall_cons in Hok as [Hp _].
  assert (Hep : positive (pt_extents p)).
  { eapply Forall_impl; [apply (pok_extents _ Hp)|]. by intros e [He _]. }
  assert (Hpre' : Forall extent_ok (all_extents pre)).
  { apply Forall_bind. eapply Forall_impl; [exact Hpre|]. intros q Hq. apply (pok_extents _ Hq). }
  pose proof (resolve_lt _ _ _ Hep Hr). split; [done|].
  unfold all_extents. rewrite bind_app, bind_cons. fold (all_extents pre).
  pose proof (total_nonneg _ Hpre').
  rewrite resolve_app by (done || lia). rewrite decide_False by lia.
  replace (total (all_extents pre) + s - total (all_extents pre)) with s by lia.
  rewrite resolve_app by (done || apply Hp). by rewrite decide_True.
Qed.

(** ** The partitions of an exported builder *)

Lemma flattened_at auto n indices k ps parts es i part :
  flattened auto n indices k ps parts es → parts !! i = Some part →
  ∃ pre p post epre xs epost, ps = pre ++ p :: post ∧ length pre = i ∧ es = epre ++ xs ++ epost ∧
    Forall2 (λ e x, AddTo n e = Ret x) (pt_extents p) xs ∧
    p_first_extent_index part = u32 (Z.of_nat (k + length epre)) ∧
    p_num_extents part = u32 (zlen (pt_extents p)).
Proof.
  intros H. revert i. induction H as [|k p ps xs parts es g Hlen Hat Hxs Hi H IH]; intros i Hp; [done|].
  destruct i as [|i]; simpl in Hp.
  - injection Hp as <-. exists [], p, ps, [], xs, es. simpl. split_and!; try done. by rewrite Nat.add_0_r.
  - destruct (IH i Hp) as (pre & q & post & epre & ys & epost & -> & <- & -> & Hys & Hf & Hn).
    exists (p :: pre), q, post, (xs ++ epre), ys, epost. split_and!; try done.
    + by rewrite <- (assoc_L (++)).
    + rewrite Hf. do 2 f_equal. rewrite length_app. lia.
Qed.

Lemma AddTo_entry n e x : AddTo n e = Ret x →
  of_entry x = e ∧ known_type x ∧ e_num_sectors x = num_sectors e ∧
  (e_target_type x = LP_TARGET_TYPE_LINEAR →
   ∃ c s, e = LinearExtent c (e_target_source x) s ∧ e_target_source x < n).
Proof.
  unfold AddTo, known_type. destruct e as [c d s|c]; simpl.
  - case_decide as Hd; [done|]. intros [= <-]. simpl. split_and!; [done|by right|done|].
    intros _. exists c, s. split; [done|lia].
  - intros [= <-]. simpl. split_and!; [done|by left|done|]. done.
Qed.
(** The entries that [AddTo] makes of good extents. *)
Lemma added_entries n es xs :
  Forall2 (λ e x, AddTo n e = Ret x) es xs → Forall extent_ok es → total es < 2 ^ 64 →
  of_entry <$> xs = es ∧ Forall known_type xs ∧ Forall (λ x, is_u64 (e_num_sectors x)) xs ∧
  Forall (λ x, e_target_type x = LP_TARGET_TYPE_LINEAR → 0 ≤ e_target_source x < n) xs.
Proof.
  intros Hxs Hes Ht. induction Hxs as [|e x es xs He Hxs IH]; [by split_and!|].
  apply Forall_cons in Hes as [[Hn He0] Hes]. simpl in Ht.
  pose proof (total_nonneg _ Hes). destruct IH as (IH1 & IH2 & IH3 & IH4); [done|lia|].
  destruct (AddTo_entry _ _ _ He) as (H1 & H2 & H3 & H4). csimpl.
  split_and!; [by rewrite H1, IH1|by constructor|constructor; [|done]|constructor; [|done]].
  - simpl. rewrite H3. lia.
  - intros Hl. destruct (H4 Hl) as (c & s & -> & Hlt). simpl in *. lia.
Qed.

Lemma all_extents_positive ps : Forall partition_ok ps → positive (all_extents ps).
Proof.
  intros Hps. apply Forall_bind. eapply Forall_impl; [exact Hps|]. intros p Hp.
  apply extent_ok_positive, Hp.
Qed.
Lemma total_all_cons p ps : total (all_extents (p :: ps)) = total (pt_extents p) + total (all_extents ps).
Proof. unfold all_extents. by rewrite bind_cons, total_app. Qed.
(** An offset into all extents is in one partition only. *)
Lemma offsets_unique pre p post pre' p' post' s s' :
  Forall partition_ok (pre ++ p :: post) → pre ++ p :: post = pre' ++ p' :: post' →
  0 ≤ s → s < total (pt_extents p) → 0 ≤ s' → s' < total (pt_extents p') →
  total (all_extents pre) + s = total (all_extents pre') + s' → length pre = length pre' ∧ s = s'.
Proof.
  revert pre'. induction pre as [|q pre IH]; intros [|q' pre'] Hok Heq Hs Hlt Hs' Hlt';
    rewrite ?total_all_cons; injection Heq as Hhead Htail; subst.
  - intros ?. split; [done|lia].
  - apply Forall_cons in Hok as [_ Hok]. apply Forall_app in Hok as [Hpre _].
    pose proof (positive_total _ (all_extents_positive _ Hpre)). simpl. lia.
  - apply Forall_cons in Hok as [_ Hok]. apply Forall_app in Hok as [Hpre _].
    pose proof (positive_total _ (all_extents_positive _ Hpre)). simpl. lia.
  - intros Ht. apply Forall_cons in Hok as [_ Hok].
    destruct (IH pre' Hok) as [Hl ->]; try done; [lia|]. split; [|done]. simpl. by rewrite Hl.
Qed.

Section Exported.
Context (b : MetadataBuilder) (m : LpMetadata).
Context (Hok : builder_ok b) (Hx : Export b = Ret m) (Hcount : zlen (owners b) < 2 ^ 32).

Lemma exported_partition i part :
  m_partitions m !! i = Some part → ∃ pre p post,
    b_partitions b = pre ++ p :: post ∧ length pre = i ∧
    mappable m part ∧ extents_of m part = pt_extents p.
Proof using Hok Hx Hcount.
  intros Hpart. destruct (Export_inv b m Hx) as (_ & _ & _ & _ & Hflat & _).
  destruct (flattened_extents _ _ _ _ _ _ _ Hflat) as [Hlen _].
  destruct (flattened_at _ _ _ _ _ _ _ _ _ Hflat Hpart)
    as (pre & p & post & epre & xs & epost & Hps & Hi & Hes & Hxs & Hf & Hn).
  assert (Hpin : p ∈ b_partitions b) by (rewrite Hps, elem_of_app; right; left).
  pose proof (proj1 (Forall_forall _ _) (bok_parts _ Hok) p Hpin) as [Hpe _ Hpb].
  assert (Hxl : length (pt_extents p) = length xs) by (by rewrite (Forall2_length _ _ _ Hxs)).
  assert (Hes' : zlen (m_extents m) < 2 ^ 32) by (unfold owners in Hcount; unfold zlen in *; lia).
  pose proof (zlen_nonneg epre) as He0. pose proof (zlen_nonneg xs). pose proof (zlen_nonneg epost).
  rewrite Hes, !zlen_app in Hes'. simpl in Hf.
  rewrite u32_small in Hf by (unfold zlen in *; lia).
  rewrite u32_small in Hn by (unfold zlen in *; lia).
  assert (Hents : entries_of m part = xs).
  { unfold entries_of. rewrite Hf, Hn, Hes, Nat2Z.id, drop_app_length.
    unfold zlen. rewrite Nat2Z.id, Hxl. by rewrite take_app_length. }
  pose proof (positive_total _ (extent_ok_positive _ Hpe)) as Hpos. unfold LP_SECTOR_SIZE in Hpb.
  destruct (added_entries _ _ _ Hxs Hpe ltac:(lia)) as (Hof & Hk & Hnum & Hsrc).
  exists pre, p, post. split_and!; [done|done| |by unfold extents_of; rewrite Hents].
  split; unfold extents_of; rewrite ?Hents, ?Hof; try done; [|lia].
  rewrite Hf, Hn, Hes, !zlen_app. unfold zlen in *. lia.
Qed.

(** The device of a sector holds it in its area for partitions. *)
Lemma resolve_inside p s d x : p ∈ b_partitions b → 0 ≤ s → resolve (pt_extents p) s = Some (OnDevice d x) →
  inside (b_block_devices b) d x (x + 1).
Proof using Hok.
  intros Hp. assert (Hin : Forall (extent_inside (b_block_devices b)) (pt_extents p)).
  { apply Forall_forall. intros e He. apply (proj1 (Forall_forall _ _) (lay_inside _ _ (bok_layout _ Hok))).
    apply list_elem_of_bind. by exists p. }
  revert s. induction Hin as [|e es He _ IH]; intros s Hs; simpl; [done|]. case_decide as Hlt.
  - destruct e as [n d' s'|n]; [|done]. intros [= -> <-]. simpl in *.
    destruct He as (Hd & dv & Hdv & Hfirst & Hlast). split; [done|]. exists dv. split; [done|lia].
  - apply IH. lia.
Qed.

(** *** The tables *)
Context {D : Type} `{!BlockIO D} (opener : @IPartitionOpener D).
Context (Realpath : bytes → option bytes) (super_device : bytes) (path : Z → bytes).
Context (resolves : paths_resolve opener Realpath super_device m path).
(** The table of a partition of the exported metadata, whatever the other parameters. *)
Definition table_for (part : LpMetadataPartition) (t : DmTable) : Prop :=
  ∃ name force timeout dev_name,
    CreateDmTableInternal Realpath
      (mkFilled super_device m part name force timeout dev_name opener) empty_table = Ret t.

Lemma table_for_ok i part t : m_partitions m !! i = Some part → table_for part t →
  ∃ pre p post, b_partitions b = pre ++ p :: post ∧ length pre = i ∧
    table_num_sectors t = total (pt_extents p) ∧
    ∀ s, 0 ≤ s → table_map t s = mapped_at path <$> resolve (pt_extents p) s.
Proof using Hok Hx Hcount resolves.
  intros Hpart (name & force & timeout & dev_name & Ht).
  destruct (exported_partition i part Hpart) as (pre & p & post & Hps & Hi & Hmap & Hes).
  destruct (partition_table_ok opener Realpath super_device m path resolves part name force timeout
    dev_name Hmap) as (t' & Ht' & Hn & _ & _ & Hres).
  rewrite Ht in Ht'. injection Ht' as <-. rewrite Hes in *. by exists pre, p, post.
Qed.

Context (injective : ∀ d d', 0 ≤ d < zlen (m_block_devices m) → 0 ≤ d' < zlen (m_block_devices m) →
  path d = path d' → d = d').

Lemma tables_isolated i j part part' t t' s s' dev x :
  m_partitions m !! i = Some part → m_partitions m !! j = Some part' →
  table_for part t → table_for part' t' → 0 ≤ s → 0 ≤ s' →
  table_map t s = Some (ToDevice dev x) → table_map t' s' = Some (ToDevice dev x) → i = j ∧ s = s'.
Proof using Hok Hx Hcount resolves injective.
  intros Hi Hj Ht Ht' Hs Hs'.
  destruct (table_for_ok i part t Hi Ht) as (pre & p & post & Hps & <- & _ & Hmap).
  destruct (table_for_ok j part' t' Hj Ht') as (pre' & p' & post' & Hps' & <- & _ & Hmap').
  rewrite (Hmap s Hs), (Hmap' s' Hs').
  assert (Hp : p ∈ b_partitions b) by (rewrite Hps, elem_of_app; right; left).
  assert (Hp' : p' ∈ b_partitions b) by (rewrite Hps', elem_of_app; right; left).
  destruct (resolve (pt_extents p) s) as [[|d y]|] eqn:E; [done| |done]. intros [= <- ->].
  destruct (resolve (pt_extents p') s') as [[|d' y']|] eqn:E'; [done| |done]. intros [= Hd ->].
  pose proof (resolve_inside p s d x Hp Hs E) as Hin.
  pose proof (resolve_inside p' s' d' x Hp' Hs' E') as Hin'.
  destruct (Export_inv b m Hx) as (_ & _ & Hdev & _).
  assert (Hb : ∀ d0, inside (b_block_devices b) d0 x (x + 1) → 0 ≤ d0 < zlen (m_block_devices m)).
  { intros d0 (Hd0 & dv & Hdv & _). split; [done|]. rewrite Hdev. unfold zlen. rewrite length_fmap.
    apply lookup_lt_Some in Hdv. lia. }
  assert (d' = d) as -> by (by apply injective; [apply Hb|apply Hb|]).
  pose proof (bok_parts _ Hok) as Hparts.
  destruct (resolve_in_partition _ _ _ _ _ _ Hps Hparts Hs E) as [Hlt H1].
  destruct (resolve_in_partition _ _ _ _ _ _ Hps' Hparts Hs' E') as [Hlt' H2].
  pose proof (all_extents_positive _ Hparts) as Hpos.
  assert (Heq : total (all_extents pre) + s = total (all_extents pre') + s').
  { eapply (resolve_inj (all_extents (b_partitions b))); [done| | | |exact H1|exact H2].
    - apply (lay_disjoint _ _ (bok_layout _ Hok)).
    - rewrite Hps in Hparts. apply Forall_app in Hparts as [Hpre _].
      pose proof (positive_total _ (all_extents_positive _ Hpre)). lia.
    - rewrite Hps' in Hparts. apply Forall_app in Hparts as [Hpre _].
      pose proof (positive_total _ (all_extents_positive _ Hpre)). lia. }
  rewrite Hps in Hps', Hparts. by apply (offsets_unique pre p post pre' p' post').
Qed.

(** The sectors of a table are in the areas for partitions of their devices. *)
Lemma tables_inside i part t s dev x :
  m_partitions m !! i = Some part → table_for part t → 0 ≤ s →
  table_map t s = Some (ToDevice dev x) →
  ∃ d, dev = path d ∧ inside (b_block_devices b) d x (x + 1).
Proof using Hok Hx Hcount resolves.
  intros Hi Ht Hs. destruct (table_for_ok i part t Hi Ht) as (pre & p & post & Hps & <- & _ & Hmap).
  rewrite (Hmap s Hs). destruct (resolve (pt_extents p) s) as [[|d y]|] eqn:E; [done| |done].
  intros [= <- ->]. exists d. split; [done|]. eapply (resolve_inside p s); try done.
  rewrite Hps, elem_of_app. right. left.
Qed.
End Exported.

(** ** The devices of all partitions ([CreateLogicalPartitions])

    Every partition that has extents and is not disabled gets a device with its table
    active, in the order of the metadata; the call stops at the first that fails and
    keeps the devices made before it. *)

(** The table of a partition. *)
Definition partition_table (path : Z → bytes) (m : LpMetadata) (p : LpMetadataPartition) : DmTable :=
  mkDmTable (targets_at path 0 (extents_of m p)) (total (extents_of m p)) (maps_readonly p false).

Lemma targets_at_ask path s es : existsb asks_overflow (targets_at path s es) = false.
Proof. revert s. induction es as [|e es IH]; intros s; simpl; [done|]. rewrite IH. by destruct e. Qed.

Section Boot.
Context {D : Type} `{!BlockIO D} (sha256 : bytes → bytes) (nothrow_new : Z → bool).
Context (default_opener : @IPartitionOpener D) (Realpath : bytes → option bytes).
Context `{DmKernelLaws K} (abi : abi_ok) (legacy : bool).
Context (m : LpMetadata) (super_device : bytes) (path : Z → bytes).
Context (super_named : super_device ≠ []).
Context (resolves : paths_resolve default_opener Realpath super_device m path).

(** A partition that can be given a device. *)
Definition bootable (p : LpMetadataPartition) : Prop := mappable m p ∧ name_ok (GetPartitionName p).
(** [ds'] is [ds] with a device for each of the partitions, in order. *)
Inductive created : list LpMetadataPartition → gmap bytes dm_device → gmap bytes dm_device → Prop :=
| created_nil ds : created [] ds ds
| created_skip p ps ds ds' : skipped p = true → created ps ds ds' → created (p :: ps) ds ds'
| created_device p ps ds ds' uuid : skipped p = false → ds !! GetPartitionName p = None →
    created ps (<[GetPartitionName p := loaded (partition_table path m p) uuid]> ds) ds' →
    created (p :: ps) ds ds'.

Lemma CreateLogicalPartition_ok p k : bootable p →
  changes (CreateLogicalPartition sha256 nothrow_new default_opener Realpath legacy
             (default_params super_device m p)) k (λ r k', match r with
    | Ret _ => devices k !! GetPartitionName p = None ∧
        ∃ uuid, devices k' = <[GetPartitionName p := loaded (partition_table path m p) uuid]> (devices k)
    | Reject => devices k' = devices k ∨ left_over (GetPartitionName p) (devices k) k'
    | Crash => False
    end).
Proof using abi resolves super_named.
  intros [Hm Hn]. unfold CreateLogicalPartition.
  assert (Hdef : InitDefaults sha256 nothrow_new default_opener (default_params super_device m p) =
    Ret (mkFilled super_device m p (GetPartitionName p) false 0 (GetPartitionName p) default_opener)).
  { unfold InitDefaults, default_params.
    cbn [block_device metadata partition partition_name partition_opener default force_writable timeout_ms
         device_name]. rewrite require_True by done.
    cbn [mbind outcome_mbind]. by rewrite require_True by (by left). }
  rewrite Hdef. apply changes_bind. intros ? ? [= <- <-].
  rewrite (CreateDmTableInternal_ok _ _ _ _ _ resolves p _ false 0 _ Hm).
  apply changes_bind. intros ? ? [= <- <-]. cbn [fp_device_name fp_timeout_ms].
  apply (CreateDevice_ok abi); [done|]. apply targets_at_ask.
Qed.

Lemma create_all_ok ps k : Forall (λ p, skipped p = false → bootable p) ps →
  changes (create_all sha256 nothrow_new default_opener Realpath legacy super_device m ps) k
    (λ r k', match r with
     | Ret _ => created ps (devices k) (devices k')
     | Reject => ∃ pre p post made, ps = pre ++ p :: post ∧ skipped p = false ∧ created pre (devices k) made ∧
         (devices k' = made ∨ left_over (GetPartitionName p) made k')
     | Crash => False
     end).
Proof using abi resolves super_named.
  intros Hps. revert k. induction Hps as [|p ps Hp _ IH]; intros k.
  { apply changes_ret. constructor. }
  cbn [create_all]. destruct (skipped p) eqn:Hs.
  - apply changes_bind. intros ? ? [= <- <-]. eapply changes_weaken; [apply IH|].
    intros [[]| |] k'; [by constructor| |done].
    intros (pre & q & post & made & -> & Hq & Hc & Hd). exists (p :: pre), q, post, made. split_and!; [done..|by constructor|done].
  - apply changes_bind. intros r k1 E1. unfold mbind, io_mbind in E1.
    destruct (CreateLogicalPartition _ _ _ _ _ _ k) as [r2 k2] eqn:E2.
    pose proof (CreateLogicalPartition_ok p k (Hp eq_refl) _ _ E2) as H2.
    destruct r2 as [dev| |]; injection E1 as <- <-; [|exists [], p, ps, (devices k); split_and!; [done..|constructor|done]|done].
    destruct H2 as (Hfresh & uuid & H2). eapply changes_weaken; [apply IH|].
    rewrite H2. intros [[]| |] k'; [by econstructor| |done].
    intros (pre & q & post & made & -> & Hq & Hc & Hd). exists (p :: pre), q, post, made. split_and!; [done..|by econstructor|done].
Qed.

(** The devices of [ps], which had none before, and no others, are made. *)
Definition devices_made (ps : list LpMetadataPartition) (ds ds' : gmap bytes dm_device) : Prop :=
  (∀ p, p ∈ ps → skipped p = false → ds !! GetPartitionName p = None ∧
     ∃ uuid, ds' !! GetPartitionName p = Some (loaded (partition_table path m p) uuid)) ∧
  (∀ name, (∀ p, p ∈ ps → skipped p = false → GetPartitionName p ≠ name) → ds' !! name = ds !! name).
Lemma created_made ps ds ds' : created ps ds ds' → devices_made ps ds ds'.
Proof using Type.
  induction 1 as [ds|p ps ds ds' Hs _ [IH1 IH2]|p ps ds ds' uuid Hs Hfresh _ [IH1 IH2]].
  - split; [by intros p ?%not_elem_of_nil|done].
  - split.
    + intros q [->|Hq]%elem_of_cons Hsq; [by rewrite Hs in Hsq|by apply IH1].
    + intros name Hname. apply IH2. intros q Hq. apply Hname. by right.
  - assert (Hne : ∀ q, q ∈ ps → skipped q = false → GetPartitionName q ≠ GetPartitionName p).
    { intros q Hq Hsq Heq. destruct (IH1 q Hq Hsq) as [Hn _]. by rewrite Heq, lookup_insert_eq in Hn. }
    split.
    + intros q [->|Hq]%elem_of_cons Hsq.
      * split; [done|]. exists uuid. rewrite IH2 by done. apply lookup_insert_eq.
      * destruct (IH1 q Hq Hsq) as [Hn Hu]. rewrite lookup_insert_ne in Hn by (by apply not_eq_sym, Hne).
        done.
    + intros name Hname. rewrite IH2 by (intros q Hq; apply Hname; by right).
      apply lookup_insert_ne. apply Hname; [left|done].
Qed.
End Boot.
