(* ===== verification/DmProps.v ===== *)
(** * Properties of the device-mapper layer

    Tables of logical partitions, what they map, and the devices made of them, with an
    instance of each on the kernel in memory. *)
From S2P Require Import Prelude Bytes LpFormat LpUtility Device LpReader LpExtent LpBuilder LpAlloc LpFree.
From S2P Require Import LpInvariant LpExport LpRoundtrip BuilderProps DmTarget DeviceMapper DmLife MemKernel.
From S2P Require Import DmLinear DmMap.

(** ** Devices for the builder of [BDemo] *)

Module DmDemo.
Definition opener : @IPartitionOpener MemDisk :=
  mkOpener (λ _, None) (λ _, None) (λ name, str "/dev/block/by-name/" ++ name).
Definition realpath (p : bytes) : option bytes := Some p.
Definition path (i : Z) : bytes := str "/dev/block/by-name/super".
(** The exported metadata and its partition [system]. *)
Definition m : LpMetadata := BDemo.exported.
Definition system : LpMetadataPartition :=
  mkPartition (strncpy 36 (str "system")) 1 0 1 1.
Definition kernel : MemKernel := mkMem ∅ 7 None F_OK 0.
Definition table : DmTable :=
  mkDmTable [mkTarget 0 2048 (DmTargetLinear (path 0) 2048); mkTarget 2048 8 DmTargetZero] 2056 true.

Definition kernel_without_nodes : MemKernel := mkMem ∅ 7 None ENOENT 0.
(** Moreover the device cannot be removed. *)
Definition kernel_busy : MemKernel := mkMem ∅ 7 (Some DM_DEV_REMOVE) ENOENT 0.
Definition kernel_loaded : MemKernel :=
  mkMem {[ str "system" := loaded table (str "7") ]} 8 None F_OK 0.

Lemma resolves : paths_resolve opener realpath (str "super") m path.
Proof. intros [|i] b Hb; [by injection Hb as <-|done]. Qed.
Lemma metadata_is_ok : metadata_ok m.
Proof. apply (LpImage.ser_tables _ BDemo.serializable_exported). Qed.
Lemma types p : Forall known_type (entries_of m p).
Proof.
  apply Forall_take, Forall_drop. constructor; [by right|]. constructor; [by right|constructor].
Qed.
Lemma system_found : system ∈ m_partitions m.
Proof. left. Qed.
Lemma all_bootable : Forall (λ p, skipped p = false → bootable m p) (m_partitions m).
Proof.
  apply Forall_forall. intros p Hp _. split.
  - apply metadata_mappable; [apply metadata_is_ok|done|apply types|].
    apply elem_of_cons in Hp as [->|Hp]; [by vm_compute|]. by apply list_elem_of_singleton in Hp as ->.
  - apply elem_of_cons in Hp as [->|Hp]; [|apply list_elem_of_singleton in Hp as ->];
      (split_and!; [done|by apply (bool_decide_unpack _)|simpl; lia]).
Qed.
End DmDemo.

(** ** What the tables map *)

(** C29: for a partition of metadata that the reader accepted, with known extent types
    and at most 2^64 sectors, [CreateDmTableInternal] succeeds.  Its targets follow each
    other without gap from sector 0 to the end of the last extent, [num_sectors] is
    their sum, and every logical sector leads where the extents of the partition say:
    to zeroes, or to its place on the path of the block device. *)
Theorem logical_partition_map {D : Type} (opener : @IPartitionOpener D)
    (Realpath : bytes → option bytes) (super_device : bytes) (m : LpMetadata) (path : Z → bytes)
    (resolves : paths_resolve opener Realpath super_device m path)
    (p : LpMetadataPartition) (name dev_name : bytes) (force_writable : bool) (timeout : Z)
    (m_ok : metadata_ok m) (p_in : p ∈ m_partitions m) (types : Forall known_type (entries_of m p))
    (small : total (extents_of m p) < 2 ^ 64) :
  ∃ t, CreateDmTableInternal Realpath
         (mkFilled super_device m p name force_writable timeout dev_name opener) empty_table = Ret t ∧
    table_num_sectors t = total (extents_of m p) ∧
    readonly_ t = maps_readonly p force_writable ∧
    contiguous (targets_ t) 0 (total (extents_of m p)) ∧
    ∀ s, 0 ≤ s → table_map t s = mapped_at path <$> resolve (extents_of m p) s.
Proof. by apply partition_table_ok; [|apply metadata_mappable]. Qed.

Lemma logical_partition_map_witness :
  ∃ t, CreateDmTableInternal DmDemo.realpath
         (mkFilled (str "super") DmDemo.m DmDemo.system [] false 0 [] DmDemo.opener) empty_table = Ret t ∧
    table_map t 5 = Some (ToDevice (str "/dev/block/by-name/super") 2053).
Proof.
  destruct (logical_partition_map DmDemo.opener DmDemo.realpath (str "super") DmDemo.m DmDemo.path
    DmDemo.resolves DmDemo.system [] [] false 0 DmDemo.metadata_is_ok DmDemo.system_found
    (DmDemo.types _) ltac:(by vm_compute)) as (t & Ht & _ & _ & _ & Hmap).
  exists t. split; [done|]. by rewrite (Hmap 5 ltac:(lia)).
Defined.



(** ** Tables for the kernel *)

(** C31: the buffer that [DmTable::Serialize] makes can be read back record by record:
    following the [next] members gives for every target, in order, its range, the name
    of its type and its parameters, and every record starts at a multiple of eight. *)
Theorem table_records_read_back `{!DmFormat} (reports_overflow : bytes → bool) (t : DmTable)
    (name_size : (16 ≤ DM_MAX_TYPE_NAME)%nat)
    (fits : Forall (serialisable reports_overflow) (targets_ t)) :
  Forall2 (told reports_overflow) (targets_ t)
    (read_records (length (targets_ t)) (table_Serialize reports_overflow t)).
Proof.
  unfold table_Serialize. rewrite table_always_valid. by apply read_records_ok.
Qed.

Lemma table_records_read_back_witness :
  Forall2 (told (λ _, false)) (targets_ DmDemo.table)
    (read_records 2 (table_Serialize (λ _, false) DmDemo.table)).
Proof.
  apply (table_records_read_back (λ _, false) DmDemo.table); [done|].
  repeat constructor; simpl; try lia; try (by apply (bool_decide_unpack _)); by vm_compute.
Defined.

(** Nothing outside the buffer of a status reply is read, whatever the kernel put
    in it: every count, offset and length may be arbitrary, and at most [target_count]
    targets are reported. *)
Theorem status_reply_in_bounds `{!DmAbi} (buffer : bytes)
    (holds_io : (c_size io_codec ≤ length buffer)%nat) (spec_small : sizeof spec_codec < 2 ^ 32) :
  ∃ targets, read_reply (c_dec io_codec buffer) buffer = Ret targets ∧
    zlen targets ≤ io_target_count (c_dec io_codec buffer).
Proof. by apply read_reply_safe. Qed.

(** A buffer of ones. *)
Lemma status_reply_in_bounds_witness :
  ∃ targets, read_reply (H := linux_abi) (c_dec linux_io (replicate 400 Byte.xff)) (replicate 400 Byte.xff) =
    Ret targets.
Proof.
  destruct (status_reply_in_bounds (H := linux_abi) (replicate 400 Byte.xff)) as (l & H & _);
    [apply Nat.leb_le; by vm_compute|by vm_compute|]. by exists l.
Defined.

(** C32: [GetTable] ends with the device's table.  If the kernel answers as soon as the
    buffer has [status_room] bytes, at most 2 GiB, twenty buffers of doubling size from
    4096 bytes on are enough; the call then returns every record with its parameters, and
    fails only if there is no such device. *)
Theorem get_table_ends `{DmStatusLaws K} (name : bytes) (flags : Z) (k : K)
    (abi : abi_ok) (io_fits : sizeof io_codec ≤ 4096) (name_is_ok : name_ok name)
    (flags_u32 : is_u32 flags) (room : status_room k name ≤ 2 ^ 31) :
  ∃ k', GetTable 20 name flags k =
    (match status_of k name flags with
     | Some rs => Ret (status_infos 0 rs)
     | None => Reject
     end, k').
Proof. by apply GetTable_ok. Qed.

(** The table of a device that was loaded with two targets. *)
Lemma get_table_ends_witness :
  ∃ infos k', GetTable 20 (str "system") 16 DmDemo.kernel_loaded = (Ret infos, k') ∧
    tinfo_data <$> infos = [str "/dev/block/by-name/super 2048"; []].
Proof.
  destruct (get_table_ends (str "system") 16 DmDemo.kernel_loaded linux_abi_ok ltac:(by vm_compute)
    ltac:(split_and!; [done|by apply (bool_decide_unpack _)|simpl; lia]) ltac:(done)
    ltac:(by vm_compute)) as [k' Hk].
  rewrite Hk. eexists _, k'. split; [vm_compute; reflexivity|]. by vm_compute.
Defined.

(** ** Devices *)

(** C30: [CreateDevice] is all or nothing, as far as the kernel lets it, for a name of which
    device-mapper takes the length and a table without persistent or merge snapshots.  On success the device is new and has exactly the table
    given active.  On failure of any step, the wait for its node included, no other device was
    touched, and the new device is gone, unless the last thing that happened is that the
    kernel refused to remove it; nothing aborts. *)
Theorem create_device_all_or_nothing `{DmKernelLaws K} (legacy : bool)
    (name : bytes) (table : DmTable) (timeout_ms : Z) (k : K)
    (abi : abi_ok) (name_is_ok : name_ok name)
    (no_snapshot : existsb asks_overflow (targets_ table) = false) :
  match CreateDevice legacy name table timeout_ms k with
  | (Ret _, k') => devices k !! name = None ∧
      ∃ uuid, devices k' = <[name := loaded table uuid]> (devices k)
  | (Reject, k') => devices k' = devices k ∨ left_over name (devices k) k'
  | (Crash, _) => False
  end.
Proof.
  destruct (CreateDevice _ _ _ _ k) as [r k'] eqn:E.
  pose proof (CreateDevice_ok abi legacy name table timeout_ms k name_is_ok no_snapshot r k' E) as Hr.
  by destruct r.
Qed.

(** The node of the device does not appear within a second: the device is removed again. *)
Lemma create_device_all_or_nothing_witness :
  match CreateDevice false (str "system") DmDemo.table 1000 DmDemo.kernel_without_nodes with
  | (Reject, k') => devices k' = ∅
  | _ => False
  end.
Proof.
  pose proof (create_device_all_or_nothing false (str "system") DmDemo.table 1000
    DmDemo.kernel_without_nodes linux_abi_ok
    ltac:(split_and!; [done|by apply (bool_decide_unpack _)|simpl; lia]) eq_refl) as Hr.
  assert (E : fst (CreateDevice false (str "system") DmDemo.table 1000
    DmDemo.kernel_without_nodes) = Reject) by (by vm_compute).
  assert (Er : mk_refused (snd (CreateDevice false (str "system") DmDemo.table 1000
    DmDemo.kernel_without_nodes)) = None) by (by vm_compute).
  destruct (CreateDevice _ _ _ _ _) as [r k']. simpl in E, Er. subst r. destruct Hr as [Hr|(_ & _ & Hr)]; [exact Hr|].
  exfalso. revert Hr. apply mem_removal; [|by rewrite Er]. split_and!; [done|by apply (bool_decide_unpack _)|simpl; lia].
Defined.
(** Nobody looks at the result of the removal. *)
Lemma device_left_behind :
  (CreateDevice false (str "system") DmDemo.table 1000 DmDemo.kernel_busy).1 = Reject ∧
  bool_decide (is_Some (devices (CreateDevice false (str "system") DmDemo.table 1000 DmDemo.kernel_busy).2 !! str "system")) = true.
Proof. split; by vm_compute. Qed.

(** C25: [CreateLogicalPartitions] gives every partition that has extents and is not
    disabled a device with its table active, and touches no other device.  (The extents are
    linear or zero, inside the table and fewer than 2^64 sectors in all, device-mapper takes
    the length of the names, and the block devices have nodes.)  If it fails, at
    some such partition, the partitions before it have got theirs and no other device was
    touched; that partition has no device either, unless the last thing that happened is that
    the kernel refused to remove the one that was made for it. *)
Theorem boot_creates_devices {D : Type} `{!BlockIO D} (sha256 : bytes → bytes) (nothrow_new : Z → bool)
    (opener : @IPartitionOpener D) (Realpath : bytes → option bytes)
    `{DmKernelLaws K} (legacy : bool) (m : LpMetadata) (super_device : bytes)
    (path : Z → bytes) (k : K)
    (abi : abi_ok) (named : super_device ≠ [])
    (resolves : paths_resolve opener Realpath super_device m path)
    (parts : Forall (λ p, skipped p = false → bootable m p) (m_partitions m)) :
  match CreateLogicalPartitions sha256 nothrow_new opener Realpath legacy m super_device k with
  | (Ret _, k') => devices_made m path (m_partitions m) (devices k) (devices k')
  | (Reject, k') => ∃ pre p post made, m_partitions m = pre ++ p :: post ∧ skipped p = false ∧
      devices_made m path pre (devices k) made ∧
      (devices k' = made ∨ left_over (GetPartitionName p) made k')
  | (Crash, _) => False
  end.
Proof.
  destruct (CreateLogicalPartitions _ _ _ _ _ _ _ k) as [r k'] eqn:E.
  pose proof (create_all_ok sha256 nothrow_new opener Realpath abi legacy m super_device path named
    resolves (m_partitions m) k parts r k' E) as Hr.
  destruct r; [by apply created_made| |done].
  destruct Hr as (pre & p & post & made & Hm & Hp & Hc & Hd). exists pre, p, post, made.
  split_and!; [done..|by apply created_made|done].
Qed.

Lemma boot_creates_devices_witness :
  match CreateLogicalPartitions BDemo.digest BDemo.allocates DmDemo.opener DmDemo.realpath false
          DmDemo.m (str "super") DmDemo.kernel with
  | (Ret _, k') => ∃ uuid, devices k' !! str "system" =
      Some (loaded (partition_table DmDemo.path DmDemo.m DmDemo.system) uuid)
  | _ => False
  end.
Proof.
  pose proof (boot_creates_devices BDemo.digest BDemo.allocates DmDemo.opener DmDemo.realpath false
    DmDemo.m (str "super") DmDemo.path DmDemo.kernel linux_abi_ok ltac:(done)
    DmDemo.resolves DmDemo.all_bootable) as Hr.
  assert (E : fst (CreateLogicalPartitions BDemo.digest BDemo.allocates DmDemo.opener DmDemo.realpath
    false DmDemo.m (str "super") DmDemo.kernel) = Ret ()) by (by vm_compute).
  destruct (CreateLogicalPartitions _ _ _ _ _ _ _ _) as [r k']. simpl in E. subst r.
  destruct Hr as [Hr _]. by destruct (Hr DmDemo.system DmDemo.system_found eq_refl).
Defined.
