(* ===== verification/LpLayout.v ===== *)
(** * Images of a super partition ([liblp/images.cpp], [liblp/super_layout_builder.cpp])

    A table of partitions as a file of its own ("super_empty.img"), and the layout of the
    whole super partition that is built from one: which bytes go where. *)
From S2P Require Import Prelude Bytes LpFormat LpUtility Device LpReader LpWriter LpExtent LpBuilder LpAlloc.
From S2P Require Import LpExport.

Section Images.
Context (sha256 : bytes → bytes) (nothrow_new : Z → bool).

(** ** Tables in a file *)

Section OnFile.
Context {D : Type} `{!BlockIO D}.
(** [fstat] of a descriptor; [None] is an error. *)
Context (file_size : D → option Z).
(** [GetControlFileOrOpen(name, O_RDONLY)], [open(name, O_CREAT | O_TRUNC | ..)]. *)
Context (open_read open_write : bytes → option D).

(** [liblp/images.cpp:38-59 IsEmptySuperImage(fd)] *)
Definition IsEmptySuperImage_fd : IO D bool := λ d,
  match file_size d with
  | None => (Ret false, d)
  | Some size =>
      if decide (size < LP_METADATA_GEOMETRY_SIZE) then (Ret false, d)
      else
        let '(r, d) := try_ (_ ← dev_seek 0; dev_read (sizeof geometry_codec)) d in
        (raw ← r;
         Ret (match raw with
              | Some raw => bool_decide (g_magic (c_dec geometry_codec raw) = LP_METADATA_GEOMETRY_MAGIC)
              | None => false
              end), d)
  end.
(** [liblp/images.cpp:61-68 IsEmptySuperImage(file)] *)
Definition IsEmptySuperImage (file : bytes) : outcome bool :=
  match open_read file with None => Ret false | Some fd => fst (IsEmptySuperImage_fd fd) end.
(** [liblp/images.cpp:70-85 ReadFromImageFile(fd)] *)
Definition ReadFromImageFile_fd : IO D LpMetadata :=
  _ ← dev_seek 0;
  buffer ← dev_read LP_METADATA_GEOMETRY_SIZE;
  geometry ← lift (ParseGeometry sha256 buffer);
  ParseMetadata sha256 nothrow_new geometry.
(** [liblp/images.cpp:104-111 ReadFromImageFile(file)] *)
Definition ReadFromImageFile (image_file : bytes) : outcome LpMetadata :=
  match open_read image_file with None => Reject | Some fd => fst (ReadFromImageFile_fd fd) end.
(** [liblp/images.cpp:113-124 WriteToImageFile(fd)] *)
Definition WriteToImageFile_fd (input : LpMetadata) : IO D unit :=
  metadata ← lift (SerializeMetadata sha256 input);
  dev_write (SerializeGeometry sha256 (m_geometry input) ++ metadata).
(** [liblp/images.cpp:126-133 WriteToImageFile(file)] *)
Definition WriteToImageFile (file : bytes) (input : LpMetadata) : outcome unit * option D :=
  match open_write file with
  | None => (Reject, None)
  | Some fd => let '(r, fd) := WriteToImageFile_fd input fd in (r, Some fd)
  end.
End OnFile.

(** [liblp/images.cpp:87-102 ReadFromImageBlob] *)
Definition ReadFromImageBlob (data : bytes) : outcome LpMetadata :=
  _ ← require (¬ zlen data < LP_METADATA_GEOMETRY_SIZE);
  geometry ← ParseGeometry sha256 data;
  ParseMetadata_buffer sha256 nothrow_new geometry (drop (Z.to_nat LP_METADATA_GEOMETRY_SIZE) data).

(** ** Extents of the super partition *)

(** [liblp/include/liblp/super_layout_builder.h:33-33 SuperImageExtent::Type] *)
Inductive SuperType := INVALID | DATA | PARTITION | ZERO | DONTCARE.
#[export] Instance super_type_eq_dec : EqDecision SuperType.
Proof. solve_decision. Defined.
(** [liblp/include/liblp/super_layout_builder.h:32-69 SuperImageExtent] *)
Record SuperImageExtent := mkSuperExtent {
  se_offset : Z;
  se_size : Z;
  se_type : SuperType;
  se_blob : bytes;
  se_image_name : bytes;
  se_image_offset : Z;
}.
(** The three constructors.
    [liblp/include/liblp/super_layout_builder.h:37-38 SuperImageExtent(type)] *)
Definition TypedExtent (offset size : Z) (type : SuperType) : SuperImageExtent :=
  mkSuperExtent offset size type [] [] 0.
(** [liblp/include/liblp/super_layout_builder.h:40-43 SuperImageExtent(blob)] *)
Definition BlobExtent (offset : Z) (blob : bytes) : SuperImageExtent :=
  mkSuperExtent offset (zlen blob) DATA blob [] 0.
(** [liblp/include/liblp/super_layout_builder.h:45-50 SuperImageExtent(image)] *)
Definition ImageExtent (offset size : Z) (image_name : bytes) (image_offset : Z) : SuperImageExtent :=
  mkSuperExtent offset size PARTITION [] image_name image_offset.
(** [liblp/super_layout_builder.cpp:199-217 SuperImageExtent::operator==] *)
Definition super_extent_eqb (a b : SuperImageExtent) : bool :=
  bool_decide (se_offset a = se_offset b) && bool_decide (se_size a = se_size b) &&
  bool_decide (se_type a = se_type b) &&
  match se_type a with
  | DATA => bool_decide (se_blob a = se_blob b)
  | PARTITION => bool_decide (se_image_name a = se_image_name b) &&
                 bool_decide (se_image_offset a = se_image_offset b)
  | _ => true
  end.
(** [liblp/include/liblp/super_layout_builder.h:55-55 SuperImageExtent::operator<] *)
Definition before (a b : SuperImageExtent) : Prop := se_offset a ≤ se_offset b.
#[export] Instance before_dec a b : Decision (before a b) := Z_le_dec _ _.

(** [liblp/super_layout_builder.cpp:92-107 AddGapExtents, loop] *)
Fixpoint fill_gaps (gap_type : SuperType) (current_offset : Z) (old : list SuperImageExtent)
    : outcome (list SuperImageExtent) :=
  match old with
  | [] => Ret []
  | e :: old =>
      _ ← require (¬ se_offset e < current_offset);
      let gap := if decide (se_offset e = current_offset) then []
                 else [TypedExtent current_offset (u64 (se_offset e - current_offset)) gap_type] in
      rest ← fill_gaps gap_type (u64 (se_offset e + se_size e)) old;
      Ret (gap ++ e :: rest)
  end.
(** [std::sort]: extents at the same offset are only accepted if all but one are empty.
    [liblp/super_layout_builder.cpp:86-110 AddGapExtents] *)
Definition AddGapExtents (extents : list SuperImageExtent) (gap_type : SuperType)
    : outcome (list SuperImageExtent) :=
  fill_gaps gap_type 0 (merge_sort before extents).

(** ** The builder *)

(** [liblp/include/liblp/super_layout_builder.h:96-98 SuperLayoutBuilder, members] *)
Record SuperLayoutBuilder := mkLayoutBuilder {
  lb_builder : option MetadataBuilder;
  lb_image_map : gmap bytes bytes;
}.
Definition NewSuperLayoutBuilder : SuperLayoutBuilder := mkLayoutBuilder None ∅.

(** The assignment of the new builder, null if there is none. *)
Definition assign_builder (r : outcome MetadataBuilder) : IO SuperLayoutBuilder unit := λ s,
  match r with
  | Ret b => (Ret (), mkLayoutBuilder (Some b) (lb_image_map s))
  | Reject => (Reject, mkLayoutBuilder None (lb_image_map s))
  | Crash => (Crash, s)
  end.
(** [liblp/super_layout_builder.cpp:46-69 SuperLayoutBuilder::Open(metadata)] *)
Definition Open_metadata (m : LpMetadata) : IO SuperLayoutBuilder unit :=
  _ ← lift (require (Forall (λ p, Z.land (p_attributes p) LP_PARTITION_ATTR_SLOT_SUFFIXED = 0 ∧
                                  Z.land (p_attributes p) LP_PARTITION_ATTR_READONLY ≠ 0) (m_partitions m)));
  _ ← lift (require (m_extents m = []));
  _ ← lift (require (length (m_block_devices m) = 1%nat));
  assign_builder (New_metadata m None).
(** [liblp/super_layout_builder.cpp:30-36 SuperLayoutBuilder::Open(fd)] *)
Definition Open_fd {D} `{!BlockIO D} (fd : D) : IO SuperLayoutBuilder unit :=
  m ← lift (fst (ReadFromImageFile_fd fd)); Open_metadata m.
(** [liblp/super_layout_builder.cpp:38-44 SuperLayoutBuilder::Open(data)] *)
Definition Open_data (data : bytes) : IO SuperLayoutBuilder unit :=
  m ← lift (ReadFromImageBlob data); Open_metadata m.

(** Using the builder before it was opened is undefined. *)
Definition on_builder {A} (f : IO MetadataBuilder A) : IO SuperLayoutBuilder A := λ s,
  match lb_builder s with
  | None => (Crash, s)
  | Some b => let '(r, b) := f b in (r, mkLayoutBuilder (Some b) (lb_image_map s))
  end.
(** [unordered_map::emplace]: a name that is in the map already keeps its image. *)
Definition emplace {A} (k : bytes) (a : A) (m : gmap bytes A) : gmap bytes A :=
  match m !! k with Some _ => m | None => <[k := a]> m end.
(**     [liblp/super_layout_builder.cpp:71-82 SuperLayoutBuilder::AddPartition] *)
Definition Layout_AddPartition (fetcher : IPropertyFetcher) (partition_name image_name : bytes)
    (partition_size : Z) : IO SuperLayoutBuilder unit :=
  _ ← on_builder (b ← get; lift (require (FindPartition b partition_name ≠ None)));
  _ ← on_builder (ResizePartition fetcher partition_name partition_size []);
  modify (λ s, mkLayoutBuilder (lb_builder s) (emplace partition_name image_name (lb_image_map s))).
(** [liblp/include/liblp/super_layout_builder.h:94-94 SuperLayoutBuilder::Export] *)
Definition Layout_Export (s : SuperLayoutBuilder) : outcome LpMetadata :=
  b ← access (lb_builder s); Export b.

(** ** The layout *)

(** [liblp/super_layout_builder.cpp:125-129 GetImageLayout, geometry] *)
Definition geometry_extents (g : LpMetadataGeometry) : list SuperImageExtent :=
  let blob := SerializeGeometry sha256 g in
  [TypedExtent 0 GetPrimaryGeometryOffset ZERO;
   BlobExtent GetPrimaryGeometryOffset blob; BlobExtent GetBackupGeometryOffset blob].
Definition kSparseAlignment : Z := 4096.
(** [liblp/super_layout_builder.cpp:131-154 GetImageLayout, metadata blob] *)
Definition metadata_blob (m : LpMetadata) : outcome bytes :=
  metadata_bytes ← SerializeMetadata sha256 m;
  metadata_aligned_bytes ← found (AlignTo 64 (zlen metadata_bytes) kSparseAlignment);
  let metadata_bytes := metadata_bytes ++ zeroes (Z.to_nat (metadata_aligned_bytes - zlen metadata_bytes)) in
  _ ← require (¬ metadata_max_size (m_geometry m) < zlen metadata_bytes);
  Ret metadata_bytes.
(** [liblp/super_layout_builder.cpp:156-162 GetImageLayout, metadata copies] *)
Definition metadata_extents (g : LpMetadataGeometry) (blob : bytes) : outcome (list SuperImageExtent) :=
  es ← mapM (λ i, primary ← GetPrimaryMetadataOffset g i;
                  backup ← GetBackupMetadataOffset g i;
                  Ret [BlobExtent (u64 primary) blob; BlobExtent (u64 backup) blob])
        (seqZ 0 (metadata_slot_count g));
  Ret (concat es).
(** Extents [i] and following of a partition, [n] of them.
    [liblp/super_layout_builder.cpp:178-195 GetImageLayout, extents] *)
Fixpoint image_extents (es : list LpMetadataExtent) (first : Z) (image_name : bytes) (i image_offset : Z)
    (n : nat) : outcome (list SuperImageExtent) :=
  match n with
  | O => Ret []
  | S n =>
      e ← access (es !! Z.to_nat (u32 (first + i)));
      _ ← require (e_target_type e = LP_TARGET_TYPE_LINEAR);
      let size := u64 (e_num_sectors e * LP_SECTOR_SIZE) in
      let super_offset := u64 (e_target_data e * LP_SECTOR_SIZE) in
      rest ← image_extents es first image_name (i + 1) (u64 (image_offset + size)) n;
      Ret (ImageExtent super_offset size image_name image_offset :: rest)
  end.
(** [liblp/super_layout_builder.cpp:164-177 GetImageLayout, partition] *)
Definition partition_extents (image_map : gmap bytes bytes) (es : list LpMetadataExtent)
    (p : LpMetadataPartition) : outcome (list SuperImageExtent) :=
  match image_map !! GetPartitionName p with
  | None => _ ← require (p_num_extents p = 0); Ret []
  | Some image_name =>
      image_extents es (p_first_extent_index p) image_name 0 0 (Z.to_nat (p_num_extents p))
  end.
(** The layout, [Reject] where an empty list is returned.
    [liblp/super_layout_builder.cpp:112-197 GetImageLayout, body] *)
Definition image_layout (s : SuperLayoutBuilder) : outcome (list SuperImageExtent) :=
  m ← Layout_Export s;
  blob ← metadata_blob m;
  copies ← metadata_extents (m_geometry m) blob;
  parts ← mapM (partition_extents (lb_image_map s) (m_extents m)) (m_partitions m);
  AddGapExtents (geometry_extents (m_geometry m) ++ copies ++ concat parts) DONTCARE.
(** [liblp/super_layout_builder.cpp:112-197 SuperLayoutBuilder::GetImageLayout] *)
Definition GetImageLayout (s : SuperLayoutBuilder) : outcome (list SuperImageExtent) :=
  match image_layout s with Reject => Ret [] | layout => layout end.
End Images.
