(* ===== verification/SuperFlash.v ===== *)
(** * Flashing a whole super partition ([fastboot/super_flash_helper.cpp])

    [SuperFlashHelper] collects the images of the partitions, has liblp lay them out in the
    super partition, and puts the layout into one sparse file. *)
From S2P Require Import Prelude Bytes LpFormat LpUtility Device LpReader LpWriter LpExtent LpBuilder LpAlloc.
From S2P Require Import LpExport LpLayout.
From S2P Require Import Device SparseFormat BackedBlock BlockList SparseOutput SparseFile SparseRead.

(** [fastboot/super_flash_helper.h:48-55 SuperFlashHelper, members] *)
Record SuperFlashHelper := mkHelper {
  sh_builder : SuperLayoutBuilder;
  sh_base_metadata : option LpMetadata;
  sh_extents : list SuperImageExtent;
  sh_image_fds : gmap bytes Z;
  sh_will_flash : gset bytes;
}.
Definition NewSuperFlashHelper : SuperFlashHelper := mkHelper NewSuperLayoutBuilder None [] ∅ ∅.

(** [fastboot/util.cpp:82-98 should_flash_in_userspace] *)
Definition should_flash_in_userspace (m : LpMetadata) (partition_name : bytes) : bool :=
  existsb (λ p,
    let candidate := GetPartitionName p in
    if decide (Z.land (p_attributes p) LP_PARTITION_ATTR_SLOT_SUFFIXED ≠ 0) then
      bool_decide (candidate ++ str "_a" = partition_name ∨ candidate ++ str "_b" = partition_name)
    else bool_decide (candidate = partition_name)) (m_partitions m).

Section Helper.
Context (sha256 : bytes → bytes) (nothrow_new : Z → bool) (fetcher : IPropertyFetcher).
Context (calloc_ok : heap → bool).
(** The descriptors of the images: [ImageSource::OpenFile], the file behind a descriptor,
    [fstat]. *)
Context {F : Type} `{!Posix F}.
Context (OpenFile : bytes → option Z) (opened : Z → F) (stat_size : Z → option Z).
(** The address of the characters of a blob. *)
Context (blob_at : bytes → Z).

(** [fastboot/util.cpp:100-103 is_sparse_file] *)
Definition is_sparse_file (fd : Z) : outcome bool :=
  match fst (sparse_file_import calloc_ok false false (mkFdSource fd (opened fd), ∅)) with
  | Ret _ => Ret true
  | Reject => Ret false
  | Crash => Crash
  end.
(** A failed [fstat] ends the process.
    [fastboot/util.cpp:105-111 get_file_size] *)
Definition get_file_size (fd : Z) : outcome Z := access (stat_size fd).

Definition get_helper : IO SuperFlashHelper SuperFlashHelper := λ s, (Ret s, s).
Definition on_layout {A} (f : IO SuperLayoutBuilder A) : IO SuperFlashHelper A := λ s,
  let '(r, b) := f (sh_builder s) in
  (r, mkHelper b (sh_base_metadata s) (sh_extents s) (sh_image_fds s) (sh_will_flash s)).

(** [fastboot/super_flash_helper.cpp:29-37 SuperFlashHelper::Open] *)
Definition Helper_Open {D} `{!BlockIO D} (fd : D) : IO SuperFlashHelper unit :=
  _ ← on_layout (Open_fd sha256 nothrow_new fd);
  s ← get_helper;
  m ← try_ (lift (Layout_Export (sh_builder s)));
  _ ← modify (λ s, mkHelper (sh_builder s) m (sh_extents s) (sh_image_fds s) (sh_will_flash s));
  lift (require (m ≠ None)).
(** [fastboot/super_flash_helper.cpp:39-41 SuperFlashHelper::IncludeInSuper] *)
Definition IncludeInSuper (partition : bytes) (s : SuperFlashHelper) : outcome bool :=
  m ← access (sh_base_metadata s); Ret (should_flash_in_userspace m partition).
(** The descriptor of an image, opened when it is first used; [None] is an optional image
    that does not exist.
    [fastboot/super_flash_helper.cpp:48-63 SuperFlashHelper::AddPartition, image] *)
Definition open_image (image_name : bytes) (optional : bool) : IO SuperFlashHelper (option Z) :=
  s ← get_helper;
  match sh_image_fds s !! image_name with
  | Some fd => mret (Some fd)
  | None =>
      match OpenFile image_name with
      | None => if optional then mret None else lift Reject
      | Some fd =>
          sparse ← lift (is_sparse_file fd);
          _ ← lift (require (sparse = false));
          _ ← modify (λ s, mkHelper (sh_builder s) (sh_base_metadata s) (sh_extents s)
                             (<[image_name := fd]> (sh_image_fds s)) (sh_will_flash s));
          mret (Some fd)
      end
  end.
(** [fastboot/super_flash_helper.cpp:43-71 SuperFlashHelper::AddPartition] *)
Definition Helper_AddPartition (partition image_name : bytes) (optional : bool) : IO SuperFlashHelper unit :=
  s ← get_helper;
  included ← lift (IncludeInSuper partition s);
  if negb included then mret ()
  else
    fd ← open_image image_name optional;
    match fd with
    | None => mret ()
    | Some fd =>
        size ← lift (get_file_size fd);
        _ ← on_layout (Layout_AddPartition fetcher partition image_name (u64 size));
        modify (λ s, mkHelper (sh_builder s) (sh_base_metadata s) (sh_extents s) (sh_image_fds s)
                       ({[ partition ]} ∪ sh_will_flash s))
    end.
(** [fastboot/super_flash_helper.h:44-46 SuperFlashHelper::WillFlash] *)
Definition WillFlash (partition : bytes) (s : SuperFlashHelper) : bool :=
  bool_decide (partition ∈ sh_will_flash s).

(** ** The sparse file *)

(** One extent of the layout.
    [fastboot/super_flash_helper.cpp:88-122 SuperFlashHelper::GetSparseLayout, extent] *)
Definition add_extent (image_fds : gmap bytes Z) (block_size : Z) (s : sparse_file) (e : SuperImageExtent)
    (h : heap) : outcome (sparse_file * heap) :=
  _ ← CHECK (block_size ≠ 0);
  _ ← require (¬ 2 ^ 32 - 1 < se_offset e / block_size);
  let block := se_offset e / block_size in
  match se_type e with
  | DONTCARE => Ret (s, h)
  | ZERO => sparse_file_add_fill calloc_ok s 0 (se_size e) block h
  | DATA => sparse_file_add_data calloc_ok s (blob_at (se_blob e)) (se_size e) block h
  | PARTITION =>
      fd ← access (image_fds !! se_image_name e);
      sparse_file_add_fd calloc_ok s fd (se_image_offset e) (se_size e) block h
  | INVALID => Reject
  end.
(** Where it stops, the file so far is destroyed.
    [fastboot/super_flash_helper.cpp:87-124 SuperFlashHelper::GetSparseLayout, loop] *)
Fixpoint add_layout (image_fds : gmap bytes Z) (block_size : Z) (es : list SuperImageExtent)
    (s : sparse_file) (h : heap) : outcome sparse_file * heap :=
  match es with
  | [] => (Ret s, h)
  | e :: es =>
      match add_extent image_fds block_size s e h with
      | Ret (s, h) => add_layout image_fds block_size es s h
      | Reject => match sparse_file_destroy s h with Ret h => (Reject, h) | _ => (Crash, h) end
      | Crash => (Crash, h)
      end
  end.
(** The extents are kept for the blobs, which the sparse file points to.
    [fastboot/super_flash_helper.cpp:73-125 SuperFlashHelper::GetSparseLayout] *)
Definition GetSparseLayout : IO (SuperFlashHelper * heap) sparse_file := λ '(s, h),
  match (if decide (sh_extents s = []) then GetImageLayout sha256 (sh_builder s)
         else Ret (sh_extents s)) with
  | Ret es =>
      let s := mkHelper (sh_builder s) (sh_base_metadata s) es (sh_image_fds s) (sh_will_flash s) in
      match list.last es, sh_base_metadata s with
      | None, _ => (Reject, (s, h))
      | Some _, None => (Crash, (s, h))
      | Some e, Some m =>
          let block_size := logical_block_size (m_geometry m) in
          let flashed_size := i64 (se_offset e + se_size e) in
          let '(r, h) := add_layout (sh_image_fds s) block_size es (sparse_file_new block_size flashed_size) h in
          (r, (s, h))
      end
  | Reject => (Reject, (s, h))
  | Crash => (Crash, (s, h))
  end.
End Helper.
