(* ===== verification/LayoutTiles.v ===== *)
(** * Layouts without gaps

    [AddGapExtents] succeeds when no byte belongs to two extents, and then its result tiles
    the partition from 0 on; and what storing such a layout leaves on a device. *)
From S2P Require Import Prelude Bytes LpFormat LpUtility Device LpReader LpWriter LpExtent LpBuilder LpAlloc.
From S2P Require Import LpExport LpLayout.

(** An extent of at least one byte with 64-bit positions. *)
Record extent_wf (e : SuperImageExtent) : Prop := {
  ew_offset : 0 ≤ se_offset e;
  ew_size : 0 < se_size e;
  ew_end : se_offset e + se_size e < 2 ^ 64;
}.
Definition se_end (e : SuperImageExtent) : Z := se_offset e + se_size e.

(** How many extents have byte [x]. *)
Definition hit (e : SuperImageExtent) (x : Z) : Z := if decide (se_offset e ≤ x < se_end e) then 1 else 0.
Definition hits (L : list SuperImageExtent) (x : Z) : Z := foldr (λ e n, hit e x + n) 0 L.

Lemma hits_app L K x : hits (L ++ K) x = hits L x + hits K x.
Proof. induction L as [|e L IH]; [done|]. simpl. lia. Qed.
Lemma hits_perm L K x : L ≡ₚ K → hits L x = hits K x.
Proof. induction 1; simpl; lia. Qed.
Lemma hits_nonneg L x : 0 ≤ hits L x.
Proof. induction L as [|e L IH]; [done|]. simpl. unfold hit. case_decide; lia. Qed.
Lemma hits_elem L e x : e ∈ L → se_offset e ≤ x < se_end e → 1 ≤ hits L x.
Proof.
  intros (pre & post & ->)%list_elem_of_split Hx. rewrite hits_app. simpl.
  pose proof (hits_nonneg pre x). pose proof (hits_nonneg post x). unfold hit. rewrite decide_True by done. lia.
Qed.
Lemma hits_outside L x : Forall (λ e, x < se_offset e ∨ se_end e ≤ x) L → hits L x = 0.
Proof. induction 1 as [|e L He _ IH]; [done|]. simpl. unfold hit. rewrite decide_False by lia. lia. Qed.
(** Extents of two lists that share no byte. *)
Lemma hits_apart L K (P : Z → Prop) `{∀ x, Decision (P x)} :
  (∀ e x, e ∈ L → se_offset e ≤ x < se_end e → P x) → (∀ e x, e ∈ K → se_offset e ≤ x < se_end e → ¬ P x) →
  (∀ x, hits L x ≤ 1) → (∀ x, hits K x ≤ 1) → ∀ x, hits (L ++ K) x ≤ 1.
Proof.
  intros HL HK H1 H2 x. rewrite hits_app. specialize (H1 x). specialize (H2 x).
  destruct (decide (P x)) as [Hx|Hx].
  - rewrite (hits_outside K); [lia|]. apply Forall_forall. intros e He.
    destruct (decide (se_offset e ≤ x < se_end e)); [|lia]. by destruct (HK e x He ltac:(done)).
  - rewrite (hits_outside L); [lia|]. apply Forall_forall. intros e He.
    destruct (decide (se_offset e ≤ x < se_end e)); [|lia]. by destruct (Hx (HL e x He ltac:(done))).
Qed.

(** Each extent starts where the one before it ends, or later. *)
Fixpoint chained (cur : Z) (L : list SuperImageExtent) : Prop :=
  match L with [] => True | e :: L => cur ≤ se_offset e ∧ chained (se_end e) L end.
(** Each extent starts where the one before it ends. *)
Fixpoint tiles (cur : Z) (L : list SuperImageExtent) (last : Z) : Prop :=
  match L with
  | [] => cur = last
  | e :: L => se_offset e = cur ∧ 0 < se_size e ∧ tiles (se_end e) L last
  end.

#[export] Instance before_total : Total before.
Proof. intros a b. unfold before. lia. Qed.
#[export] Instance before_trans : Transitive before.
Proof. intros a b c. unfold before. lia. Qed.

Lemma sorted_chained cur L : StronglySorted before L → Forall extent_wf L → (∀ x, hits L x ≤ 1) →
  Forall (λ e, cur ≤ se_offset e) L → chained cur L.
Proof.
  intros Hs. revert cur. induction Hs as [|e L HL IH He]; intros cur Hwf Hh Hc; [done|].
  apply Forall_cons in Hwf as [Hwe Hwf]. apply Forall_cons in Hc as [Hce _]. split; [done|].
  apply IH; [done| |].
  - intros x. specialize (Hh x). simpl in Hh. unfold hit in Hh. case_decide; lia.
  - apply Forall_forall. intros e' He'. pose proof (proj1 (Forall_forall _ _) He e' He') as Hb.
    pose proof (proj1 (Forall_forall _ _) Hwf e' He') as [? ? _]. unfold before in Hb.
    destruct (decide (se_end e ≤ se_offset e')) as [|Hlt]; [done|]. specialize (Hh (se_offset e')).
    pose proof (hits_elem L e' (se_offset e') He' ltac:(unfold se_end; lia)).
    simpl in Hh. unfold hit in Hh. rewrite decide_True in Hh by lia. lia.
Qed.

Lemma fill_gaps_ok t cur old : Forall extent_wf old → chained cur old → ∃ L, fill_gaps t cur old = Ret L.
Proof.
  intros Hwf. revert cur. induction Hwf as [|e old He _ IH]; intros cur; [by exists []|]. intros [Hc Ho].
  cbn [fill_gaps]. rewrite require_True by lia. cbn [mbind outcome_mbind]. cbv zeta.
  destruct He as [H0 H1 H2]. rewrite (u64_small (se_offset e + se_size e)) by lia.
  destruct (IH _ Ho) as [L E]. unfold se_end in E. rewrite E. by eexists.
Qed.
Lemma fill_gaps_tiles t cur old L : Forall extent_wf old → 0 ≤ cur < 2 ^ 64 → fill_gaps t cur old = Ret L →
  ∃ last, tiles cur L last ∧ (∀ e, e ∈ old → e ∈ L) ∧ (∀ e, e ∈ L → e ∈ old ∨ ∃ o n, e = TypedExtent o n t) ∧
    (last = cur ∨ ∃ e, e ∈ old ∧ last = se_end e) ∧ Forall extent_wf L.
Proof.
  intros Hwf. revert cur L. induction Hwf as [|e old He _ IH]; intros cur L Hc; cbn [fill_gaps].
  { intros [= <-]. exists cur. split; [done|]. split; [done|]. split; [by intros e ?%not_elem_of_nil|].
    split; [by left|done]. }
  intros ([] & Hle%require_Ret & H)%bind_Ret. apply bind_Ret in H as (rest & Hrest & [= <-]).
  pose proof He as [H0 H1 H2]. rewrite (u64_small (se_offset e + se_size e)) in Hrest by lia.
  destruct (IH (se_end e) rest ltac:(unfold se_end; lia) Hrest) as (last & Ht & Hin & Hfrom & Hlast & Hw).
  exists last.
  assert (Hl : last = cur ∨ ∃ e', e' ∈ e :: old ∧ last = se_end e').
  { right. destruct Hlast as [->|(e' & He' & ->)]; [exists e|exists e']; (split; [|done]);
      [apply list_elem_of_here|by apply list_elem_of_further]. }
  assert (Hf : ∀ e', e' ∈ e :: rest → e' ∈ e :: old ∨ ∃ o n, e' = TypedExtent o n t).
  { intros e' [->|He']%elem_of_cons; [left; apply list_elem_of_here|].
    destruct (Hfrom e' He') as [|?]; [left; by apply list_elem_of_further|by right]. }
  assert (Hi : ∀ e', e' ∈ e :: old → e' ∈ e :: rest).
  { intros e' [->|He']%elem_of_cons; [apply list_elem_of_here|apply list_elem_of_further; by apply Hin]. }
  destruct (decide (se_offset e = cur)) as [Hec|Hec]; cbn [app].
  - split; [done|]. split; [done|]. split; [done|]. split; [done|by constructor].
  - rewrite u64_small by lia. split.
    { cbn [tiles TypedExtent se_offset se_size se_end]. split; [done|]. split; [lia|].
      unfold se_end at 1. cbn [TypedExtent se_offset se_size].
      replace (cur + (se_offset e - cur)) with (se_offset e) by lia. done. }
    split; [intros e' He'; apply list_elem_of_further; by apply Hi|].
    split; [intros e' [->|He']%elem_of_cons; [right; by eexists _, _|by apply Hf]|].
    split; [done|]. constructor; [split; cbn; lia|by constructor].
Qed.
(** Disjoint extents are accepted; whatever is accepted is tiled. *)
Lemma AddGapExtents_ok es t : Forall extent_wf es → (∀ x, hits es x ≤ 1) → ∃ L, AddGapExtents es t = Ret L.
Proof.
  intros Hwf Hh. apply fill_gaps_ok.
  - by rewrite merge_sort_Permutation.
  - apply sorted_chained.
    + apply StronglySorted_merge_sort; apply _.
    + by rewrite merge_sort_Permutation.
    + intros x. by rewrite (hits_perm _ _ x (merge_sort_Permutation _ _)).
    + rewrite merge_sort_Permutation. eapply Forall_impl; [exact Hwf|]. by intros e [? _ _].
Qed.
Lemma AddGapExtents_tiles es t L : Forall extent_wf es → AddGapExtents es t = Ret L →
  ∃ last, tiles 0 L last ∧ (∀ e, e ∈ es → e ∈ L) ∧ (∀ e, e ∈ L → e ∈ es ∨ ∃ o n, e = TypedExtent o n t) ∧
    (last = 0 ∨ ∃ e, e ∈ es ∧ last = se_end e) ∧ Forall extent_wf L.
Proof.
  intros Hwf E. destruct (fill_gaps_tiles t 0 (merge_sort before es) L ltac:(by rewrite merge_sort_Permutation) ltac:(lia) E)
    as (last & H1 & H2 & H3 & H4 & H5).
  exists last. split; [done|]. split; [|split; [|split; [|done]]].
  - intros e He. apply H2. by rewrite merge_sort_Permutation.
  - intros e [He|He]%H3; [left; by rewrite merge_sort_Permutation in He|by right].
  - destruct H4 as [|(e & He & ->)]; [by left|]. right. exists e. by rewrite merge_sort_Permutation in He.
Qed.

(** ** Storing a layout *)

(** [n] bytes of a file at [off], zeroes behind its end. *)
Definition padded (c : bytes) (off n : Z) : bytes := sub (zero_extend c (off + n)) off n.
Lemma zlen_padded c off n : 0 ≤ off → 0 ≤ n → zlen (padded c off n) = n.
Proof.
  intros. unfold padded. apply length_sub; [done..|]. unfold zero_extend. rewrite zlen_app.
  unfold zlen, zeroes. rewrite length_replicate. lia.
Qed.

Section Flash.
(** The images by their names. *)
Context (images : bytes → bytes).

(** The bytes of an extent; [None] leaves the device as it is. *)
Definition extent_bytes (e : SuperImageExtent) : option bytes :=
  match se_type e with
  | ZERO => Some (zeroes (Z.to_nat (se_size e)))
  | DATA => Some (se_blob e)
  | PARTITION => Some (padded (images (se_image_name e)) (se_image_offset e) (se_size e))
  | INVALID | DONTCARE => None
  end.
Definition flash_extent (c : bytes) (e : SuperImageExtent) : bytes :=
  match extent_bytes e with Some d => overwrite c (se_offset e) d | None => c end.
Definition flash (c : bytes) (L : list SuperImageExtent) : bytes := foldl flash_extent c L.

(** An extent whose bytes fill it. *)
Definition filled (e : SuperImageExtent) : Prop :=
  (se_type e = DATA → zlen (se_blob e) = se_size e) ∧ (se_type e = PARTITION → 0 ≤ se_image_offset e).
Lemma zlen_extent_bytes e d : extent_wf e → filled e → extent_bytes e = Some d → zlen d = se_size e.
Proof.
  intros [_ Hs _] [Hd Hp]. unfold extent_bytes. destruct (se_type e) eqn:E; intros [= <-].
  - by apply Hd.
  - apply zlen_padded; [by apply Hp|lia].
  - unfold zlen, zeroes. rewrite length_replicate. lia.
Qed.

Lemma tiles_le cur L last : tiles cur L last → cur ≤ last.
Proof.
  revert cur. induction L as [|e L IH]; intros cur; simpl; [lia|]. intros (<- & Hs & Ht%IH).
  unfold se_end in Ht. lia.
Qed.
Lemma tiles_in cur L last e : tiles cur L last → e ∈ L → cur ≤ se_offset e ∧ se_end e ≤ last ∧ 0 < se_size e.
Proof.
  revert cur. induction L as [|e' L IH]; intros cur; [by intros _ ?%not_elem_of_nil|]. intros (<- & Hs & Ht).
  pose proof (tiles_le _ _ _ Ht) as Hle. intros [->|Hin]%elem_of_cons; [unfold se_end in *; lia|].
  destruct (IH _ Ht Hin) as (H1 & H2 & H3). unfold se_end in *. lia.
Qed.
Lemma flash_outside cur L last c o len : tiles cur L last → Forall extent_wf L → Forall filled L →
  0 ≤ cur → last ≤ zlen c → 0 ≤ o → 0 ≤ len → o + len ≤ cur ∨ last ≤ o →
  zlen (flash c L) = zlen c ∧ sub (flash c L) o len = sub c o len.
Proof.
  intros Ht Hw Hf. revert cur c Ht. induction Hw as [|e L He _ IH]; intros cur c Ht Hc Hl Ho Hlen Hout; [done|].
  apply Forall_cons in Hf as [Hfe Hf]. destruct Ht as (Hoff & Hs & Ht). pose proof (tiles_le _ _ _ Ht) as Hle.
  unfold se_end in Hle. cbn [flash foldl]. fold (flash (flash_extent c e) L).
  assert (H : zlen (flash_extent c e) = zlen c ∧ sub (flash_extent c e) o len = sub c o len).
  { unfold flash_extent. destruct (extent_bytes e) as [d|] eqn:E; [|done].
    pose proof (zlen_extent_bytes e d He Hfe E) as Hd.
    split; [apply length_overwrite; lia|apply sub_overwrite_other; lia]. }
  destruct H as [H1 H2].
  destruct (IH Hf (se_end e) (flash_extent c e) Ht) as [H3 H4]; unfold se_end; try lia.
  split; [by rewrite H3|by rewrite H4].
Qed.
(** Afterwards every extent is where it belongs, and the others are as they were. *)
Lemma flash_at cur L last c e : tiles cur L last → Forall extent_wf L → Forall filled L →
  0 ≤ cur → last ≤ zlen c → e ∈ L → sub (flash c L) (se_offset e) (se_size e) =
  match extent_bytes e with Some d => d | None => sub c (se_offset e) (se_size e) end.
Proof.
  intros Ht Hw Hf. revert cur c Ht. induction Hw as [|e' L He Hw IH]; intros cur c Ht Hc Hl Hin.
  { by apply not_elem_of_nil in Hin. }
  apply Forall_cons in Hf as [Hfe Hf]. destruct Ht as (Hoff & Hs & Ht). pose proof (tiles_le _ _ _ Ht) as Hle.
  unfold se_end in Hle. cbn [flash foldl]. fold (flash (flash_extent c e') L).
  assert (Hlen : zlen (flash_extent c e') = zlen c).
  { unfold flash_extent. destruct (extent_bytes e') as [d'|] eqn:E; [|done].
    pose proof (zlen_extent_bytes e' d' He Hfe E). apply length_overwrite; lia. }
  apply elem_of_cons in Hin as [->|Hin].
  - destruct (flash_outside (se_end e') L last (flash_extent c e') (se_offset e') (se_size e') Ht)
      as [_ ->]; unfold se_end; try done; try lia.
    unfold flash_extent. destruct (extent_bytes e') as [d|] eqn:E; [|done].
    rewrite <- (zlen_extent_bytes e' d He Hfe E). apply sub_overwrite_same; [lia|].
    rewrite (zlen_extent_bytes e' d He Hfe E). lia.
  - rewrite (IH Hf (se_end e')); try done; unfold se_end; try lia. destruct (extent_bytes e); [done|].
    unfold flash_extent. destruct (extent_bytes e') as [d'|] eqn:E; [|done].
    pose proof (zlen_extent_bytes e' d' He Hfe E). pose proof (tiles_in _ _ _ _ Ht Hin) as (? & ? & ?).
    apply sub_overwrite_other; unfold se_end in *; lia.
Qed.
Lemma flash_holds cur L last c e d : tiles cur L last → Forall extent_wf L → Forall filled L →
  0 ≤ cur → last ≤ zlen c → e ∈ L → extent_bytes e = Some d → sub (flash c L) (se_offset e) (se_size e) = d.
Proof. intros Ht Hw Hf Hc Hl Hin Hd. rewrite (flash_at cur L last c e) by done. by rewrite Hd. Qed.
End Flash.
