(* ===== verification/LayoutSuper.v ===== *)
(** * The layout of a super partition ([liblp/super_layout_builder.cpp])

    [GetImageLayout] succeeds for a builder whose extents are on one device, outside the
    metadata, and all belong to an image; the result tiles the partition.  Storing it leaves
    metadata that [ReadMetadata] accepts, and the image of every partition where the device
    of that partition will look for it. *)
From S2P Require Import Prelude Bytes LpFormat LpUtility Device LpReader LpWriter LpImage LpCrash LpExtent.
From S2P Require Import LpBuilder LpAlloc LpFree LpGrow LpInvariant LpExport LpRoundtrip DmTarget DeviceMapper.
From S2P Require Import DmLinear DmMap LpLayout LayoutTiles.

(** ** The image of a partition *)

(** An extent of at least one sector on the only device. *)
Definition flashable (e : Extent) : Prop :=
  match e with
  | LinearExtent n d s => d = 0 ∧ 0 < n ∧ 0 ≤ s ∧ (s + n) * LP_SECTOR_SIZE < 2 ^ 64
  | ZeroExtent _ => False
  end.
(** The parts of an image from [off] on that belong into the extents. *)
Fixpoint image_list (name : bytes) (off : Z) (es : list Extent) : list SuperImageExtent :=
  match es with
  | [] => []
  | LinearExtent n _ s :: es =>
      ImageExtent (s * LP_SECTOR_SIZE) (n * LP_SECTOR_SIZE) name off :: image_list name (off + n * LP_SECTOR_SIZE) es
  | ZeroExtent n :: es => image_list name (off + n * LP_SECTOR_SIZE) es
  end.

Lemma flashable_entry x : known_type x → flashable (of_entry x) →
  e_target_type x = LP_TARGET_TYPE_LINEAR ∧ of_entry x = LinearExtent (e_num_sectors x) 0 (e_target_data x).
Proof.
  unfold of_entry. intros Hk. case_decide as Hz; [done|]. intros (-> & _). by destruct Hk.
Qed.
Lemma flashable_total es : Forall flashable es → 0 ≤ total es.
Proof. induction 1 as [|[n d s|n] es He _ IH]; simpl in *; [lia|lia|done]. Qed.

Lemma image_extents_ok es xs post first name : Forall known_type xs →
  ∀ pre i off, es = pre ++ xs ++ post → first + i = zlen pre → zlen es < 2 ^ 32 →
  Forall flashable (of_entry <$> xs) → 0 ≤ off → off + total (of_entry <$> xs) * LP_SECTOR_SIZE < 2 ^ 64 →
  image_extents es first name i off (length xs) = Ret (image_list name off (of_entry <$> xs)).
Proof.
  induction 1 as [|x xs Hx _ IH]; intros pre i off Hes Hfi Hlen Hfl Ho Hb; [done|].
  csimpl in Hfl. csimpl in Hb. apply Forall_cons in Hfl as [Hfx Hfl].
  pose proof (flashable_total _ Hfl) as Ht.
  destruct (flashable_entry x Hx Hfx) as [Htype Hof]. rewrite Hof in Hfx, Hb. csimpl. rewrite Hof.
  cbn [flashable] in Hfx. unfold LP_SECTOR_SIZE in *. cbn [total num_sectors] in Hb.
  pose proof (zlen_nonneg pre) as Hp0. pose proof (zlen_nonneg (xs ++ post)) as Hx0.
  assert (Hl : zlen pre + (1 + zlen (xs ++ post)) < 2 ^ 32).
  { rewrite Hes in Hlen. rewrite zlen_app in Hlen. unfold zlen in *. simpl in *. lia. }
  cbn [length image_extents image_list].
  assert (Hat : es !! length pre = Some x) by (rewrite Hes; apply list_lookup_middle; done).
  rewrite u32_small by lia. rewrite Hfi, to_nat_zlen, Hat. cbn [access mbind outcome_mbind].
  rewrite require_True by done. cbn [mbind outcome_mbind]. cbv zeta.
  rewrite !(u64_small (_ * _)), (u64_small (off + _)) by nia.
  rewrite (IH (pre ++ [x])); [done| | |done|done|lia|lia].
  - by rewrite Hes, <- (assoc_L (++)).
  - rewrite zlen_app. change (zlen [x]) with 1. lia.
Qed.

Lemma hits_image_list name off es x : Forall flashable es → 0 ≤ x →
  hits (image_list name off es) x = cover es 0 (x / LP_SECTOR_SIZE).
Proof.
  intros Hes Hx. revert off. induction Hes as [|[n d s|n] es He _ IH]; intros off; [done| |done].
  cbn [image_list hits foldr cover]. fold (hits (image_list name (off + n * LP_SECTOR_SIZE) es) x). rewrite IH.
  f_equal. destruct He as (-> & Hn & Hs & _). unfold hit, se_end, owns. cbn [ImageExtent se_offset se_size].
  unfold LP_SECTOR_SIZE. pose proof (Z.div_mod x 512 ltac:(lia)). pose proof (Z.mod_pos_bound x 512 ltac:(lia)).
  case_decide; case_decide; lia.
Qed.
(** The part of the image that belongs into a sector. *)
Lemma image_list_sector name off es i x : Forall flashable es → 0 ≤ i → 0 ≤ off →
  resolve es i = Some (OnDevice 0 x) → ∃ e, e ∈ image_list name off es ∧ se_type e = PARTITION ∧
    se_image_name e = name ∧ se_offset e ≤ x * LP_SECTOR_SIZE ∧ (x + 1) * LP_SECTOR_SIZE ≤ se_end e ∧
    se_image_offset e + (x * LP_SECTOR_SIZE - se_offset e) = off + i * LP_SECTOR_SIZE ∧ 0 ≤ se_image_offset e.
Proof.
  intros Hes. revert i off. induction Hes as [|[n d s|n] es He _ IH]; intros i off Hi Ho; [done| |done].
  cbn [resolve num_sectors image_list]. destruct He as (-> & Hn & Hs & _). unfold LP_SECTOR_SIZE in *. case_decide.
  - intros [= <-]. eexists. split; [apply list_elem_of_here|]. unfold se_end, ImageExtent. simpl. split_and!; try done; lia.
  - intros Hr. destruct (IH (i - n) (off + n * 512) ltac:(lia) ltac:(lia) Hr) as (e & He & H1 & H2 & H3 & H4 & H5 & H6).
    exists e. split; [by apply list_elem_of_further|]. split_and!; try done; lia.
Qed.
Lemma image_list_in name off es e : Forall flashable es → 0 ≤ off → e ∈ image_list name off es →
  extent_wf e ∧ filled e ∧ se_type e = PARTITION ∧
  ∃ n s, LinearExtent n 0 s ∈ es ∧ se_offset e = s * LP_SECTOR_SIZE ∧ se_size e = n * LP_SECTOR_SIZE.
Proof.
  intros Hes. revert off. induction Hes as [|[n d s|n] es He _ IH]; intros off Ho; [by intros ?%not_elem_of_nil| |done].
  destruct He as (-> & Hn & Hs & Hb). unfold LP_SECTOR_SIZE in *. intros [->|Hin]%elem_of_cons.
  - unfold LP_SECTOR_SIZE. split; [split; cbn [ImageExtent se_offset se_size]; lia|]. split; [split; cbn; [done|lia]|]. split; [done|].
    exists n, s. split; [left|done].
  - destruct (IH (off + n * 512) ltac:(lia) Hin) as (H1 & H2 & H3 & n' & s' & H4 & H5).
    do 3 (split; [done|]). exists n', s'. split; [by right|done].
Qed.
Lemma image_list_name name off es : ∀ e, e ∈ image_list name off es → se_image_name e = name.
Proof.
  revert off. induction es as [|[n d s|n] es IH]; intros off e; cbn [image_list]; [by intros ?%not_elem_of_nil| |apply IH].
  intros [->|Hin]%elem_of_cons; [done|by eapply IH].
Qed.

(** ** The copies of the metadata *)

(** Blobs of at most [step] bytes, [step] apart. *)
Lemma hits_spaced a step blob n : 0 ≤ a → zlen blob ≤ step → ∀ k, 0 ≤ k →
  (∀ x, hits ((λ i, BlobExtent (a + step * i) blob) <$> seqZ k (Z.of_nat n)) x ≤ 1) ∧
  ∀ e, e ∈ (λ i, BlobExtent (a + step * i) blob) <$> seqZ k (Z.of_nat n) →
    a + step * k ≤ se_offset e ∧ se_end e ≤ a + step * (k + Z.of_nat n).
Proof.
  intros Ha Hb. pose proof (zlen_nonneg blob) as Hb0. induction n as [|n IH]; intros k Hk.
  { split; [done|by intros e ?%not_elem_of_nil]. }
  rewrite seqZ_cons by lia. replace (Z.pred (Z.of_nat (S n))) with (Z.of_nat n) by lia. csimpl.
  destruct (IH (Z.succ k) ltac:(lia)) as [IH1 IH2]. split.
  - intros x. pose proof (IH1 x) as Hx. cbn [hits foldr]. fold (hits ((λ i, BlobExtent (a + step * i) blob) <$> seqZ (Z.succ k) (Z.of_nat n)) x).
    unfold hit at 1. case_decide as Hin; [|lia]. unfold se_end in Hin. cbn [BlobExtent se_offset se_size] in Hin.
    rewrite hits_outside; [lia|]. apply Forall_forall. intros e He. destruct (IH2 e He) as [Hoff _].
    rewrite Z.mul_succ_r in Hoff. left. lia.
  - intros e [->|He]%elem_of_cons.
    + unfold se_end, BlobExtent. cbn [se_offset se_size]. nia.
    + destruct (IH2 e He). nia.
Qed.

Section Metadata.
Context (sha256 : bytes → bytes) (sha256_length : ∀ bs, length (sha256 bs) = 32%nat).
Context (nothrow_new : Z → bool).
Context (m : LpMetadata) (m_ok : serializable m) (g_ok : geometry_ok (m_geometry m)).
Context (region : region_end m < 2 ^ 32).

Abbreviation max_size := (metadata_max_size (m_geometry m)).
Abbreviation slots := (metadata_slot_count (m_geometry m)).

Lemma geometry_numbers : 0 < slots < 2 ^ 32 ∧ 0 ≤ max_size < 2 ^ 32.
Proof using g_ok.
  destruct (gok_wf _ g_ok) as (_ & _ & _ & H1 & H2 & _). pose proof (gok_slots _ g_ok). simpl in *. lia.
Qed.

(** The bytes of a copy, filled up to whole 4096-byte blocks. *)
Definition copy_size : Z := (header_size (m_header m) + zlen (serialize_tables m) + 4095) / 4096 * 4096.
Definition copy_bytes (blob : bytes) : bytes := blob ++ zeroes (Z.to_nat (copy_size - zlen blob)).
(** A copy that does not fit its slot is an error. *)
Lemma metadata_blob_cases : ∃ blob, SerializeMetadata sha256 m = Ret blob ∧
  metadata_blob sha256 m = (if decide (max_size < copy_size) then Reject else Ret (copy_bytes blob)) ∧
  zlen (copy_bytes blob) = copy_size ∧ 0 < zlen blob ≤ copy_size.
Proof using m_ok sha256_length.
  pose proof (SerializeMetadata_blob sha256 sha256_length m m_ok) as Es.
  set (blob := _ ++ _) in Es. clearbody blob. exists blob. split; [done|].
  pose proof (length_SerializeMetadata _ _ _ Es) as Hl.
  assert (Hh : 128 ≤ header_size (m_header m) ≤ 256).
  { rewrite (ser_size _ m_ok). destruct (expected_struct_size_cases (m_header m)); lia. }
  pose proof (zlen_nonneg (serialize_tables m)) as Ht. pose proof (ser_fits _ m_ok) as Hfit.
  assert (Ha : AlignTo 64 (zlen blob) kSparseAlignment = Some copy_size).
  { destruct (AlignTo 64 (zlen blob) kSparseAlignment) as [n|] eqn:E.
    - destruct (AlignTo_Some 64 (zlen blob) kSparseAlignment n ltac:(done) E ltac:(lia)) as (H1 & _ & H2).
      destruct (H2 ltac:(done)) as [[k ->] H3]. unfold copy_size, kSparseAlignment in *. rewrite <- Hl. f_equal.
      pose proof (Z.div_mod (zlen blob + 4095) 4096 ltac:(lia)).
      pose proof (Z.mod_pos_bound (zlen blob + 4095) 4096 ltac:(lia)). lia.
    - destruct (AlignTo_None 64 (zlen blob) kSparseAlignment ltac:(done) E ltac:(lia)) as [_ H1].
      specialize (H1 (2 ^ 40) ltac:(lia) ltac:(by exists (2 ^ 28))). lia. }
  assert (Hc : zlen blob ≤ copy_size).
  { unfold copy_size. rewrite <- Hl. pose proof (Z.div_mod (zlen blob + 4095) 4096 ltac:(lia)).
    pose proof (Z.mod_pos_bound (zlen blob + 4095) 4096 ltac:(lia)). lia. }
  assert (Hz : zlen (copy_bytes blob) = copy_size).
  { unfold copy_bytes. rewrite zlen_app. unfold zlen at 2, zeroes. rewrite length_replicate. lia. }
  split; [|split; [done|lia]].
  unfold metadata_blob. rewrite Es. cbn [mbind outcome_mbind]. rewrite Ha. cbn [found mbind outcome_mbind].
  cbv zeta. fold (copy_bytes blob). rewrite Hz. case_decide; [by rewrite require_False by lia|by rewrite require_True by lia].
Qed.

(** The copies of a blob that fits its slot lie in the metadata region and share no byte. *)
Definition copies (blob : bytes) : list SuperImageExtent :=
  concat ((λ i, [BlobExtent (primary_at m i) blob; BlobExtent (backup_at m i) blob]) <$> seqZ 0 slots).
Lemma metadata_extents_ok blob : metadata_extents (m_geometry m) blob = Ret (copies blob).
Proof using g_ok region.
  pose proof geometry_numbers as [Hs Hm]. unfold metadata_extents, copies.
  rewrite (proj2 (mapM_Ret _ _ ((λ i, [BlobExtent (primary_at m i) blob; BlobExtent (backup_at m i) blob]) <$> seqZ 0 slots)));
    [done|].
  apply Forall2_fmap_r, Forall_Forall2_diag, Forall_forall. intros i Hi%elem_of_seqZ.
  rewrite GetPrimaryMetadataOffset_at, GetBackupMetadataOffset_at by (done || lia). cbn [mbind outcome_mbind].
  destruct (slots_bounds m i) as (H1 & H2 & H3); [lia..|]. by rewrite !u64_small by lia.
Qed.
Lemma copies_split blob : copies blob ≡ₚ
  ((λ i, BlobExtent (12288 + max_size * i) blob) <$> seqZ 0 slots) ++
  ((λ i, BlobExtent (12288 + max_size * slots + max_size * i) blob) <$> seqZ 0 slots).
Proof using Type.
  unfold copies, primary_at, backup_at. induction (seqZ 0 slots) as [|i l IH]; [done|]. csimpl. rewrite IH.
  by rewrite Permutation_middle.
Qed.
Lemma copies_hits blob : zlen blob ≤ max_size → ∀ x, hits (copies blob) x ≤ 1.
Proof using g_ok.
  intros Hb x. pose proof geometry_numbers as [Hs Hm]. rewrite (hits_perm _ _ _ (copies_split blob)).
  replace (seqZ 0 slots) with (seqZ 0 (Z.of_nat (Z.to_nat slots))) by (f_equal; lia).
  destruct (hits_spaced 12288 max_size blob (Z.to_nat slots) ltac:(lia) Hb 0 ltac:(lia)) as [H1 H2].
  destruct (hits_spaced (12288 + max_size * slots) max_size blob (Z.to_nat slots) ltac:(nia) Hb 0 ltac:(lia)) as [H3 H4].
  apply (hits_apart _ _ (λ x, x < 12288 + max_size * slots)); [| |done|done].
  - intros e y He Hy. destruct (H2 e He). lia.
  - intros e y He Hy. destruct (H4 e He). lia.
Qed.
Lemma copies_in blob e : zlen blob ≤ max_size → 0 < zlen blob → e ∈ copies blob →
  extent_wf e ∧ filled e ∧ 12288 ≤ se_offset e ∧ se_end e ≤ region_end m.
Proof using g_ok region.
  intros Hb Hb0 He. pose proof geometry_numbers as [Hs Hm]. unfold copies in He.
  apply list_elem_of_In, in_concat in He as (l & Hl & He). apply list_elem_of_In in Hl, He.
  apply list_elem_of_fmap in Hl as (i & -> & Hi%elem_of_seqZ).
  destruct (slots_bounds m i) as (H1 & H2 & H3); [lia..|]. unfold se_end.
  apply elem_of_cons in He as [->|He]; [|apply list_elem_of_singleton in He as ->];
    (split; [split; cbn [BlobExtent se_offset se_size]; lia|]);
    (split; [split; [done|by intros [=]]|]); cbn [BlobExtent se_offset se_size]; lia.
Qed.
Lemma copy_listed blob i : 0 ≤ i < slots →
  BlobExtent (primary_at m i) blob ∈ copies blob ∧ BlobExtent (backup_at m i) blob ∈ copies blob.
Proof using Type.
  intros Hi. unfold copies. rewrite !list_elem_of_In, !in_concat.
  split; (eexists; split; [apply list_elem_of_In, list_elem_of_fmap; exists i; split; [done|apply elem_of_seqZ; lia]|]);
    apply list_elem_of_In; [left|right; left].
Qed.

(** The same for the geometry. *)
Lemma geometry_hits x : hits (geometry_extents sha256 (m_geometry m)) x ≤ 1.
Proof using g_ok sha256_length.
  pose proof (length_SerializeGeometry sha256 sha256_length (m_geometry m) (gok_wf _ g_ok)) as Hl.
  unfold geometry_extents, hits, hit, se_end, BlobExtent, TypedExtent, GetBackupGeometryOffset, GetPrimaryGeometryOffset.
  cbn [foldr se_offset se_size]. rewrite Hl. unfold LP_PARTITION_RESERVED_BYTES, LP_METADATA_GEOMETRY_SIZE.
  repeat case_decide; lia.
Qed.
Lemma geometry_in e : e ∈ geometry_extents sha256 (m_geometry m) →
  extent_wf e ∧ filled e ∧ 0 ≤ se_offset e ∧ se_end e ≤ 12288.
Proof using g_ok sha256_length.
  pose proof (length_SerializeGeometry sha256 sha256_length (m_geometry m) (gok_wf _ g_ok)) as Hl.
  unfold geometry_extents, se_end. intros He.
  apply elem_of_cons in He as [->|He]; [|apply elem_of_cons in He as [->|He]; [|apply list_elem_of_singleton in He as ->]];
    unfold BlobExtent, TypedExtent, GetBackupGeometryOffset, GetPrimaryGeometryOffset; cbn [se_offset se_size];
    rewrite ?Hl; unfold LP_PARTITION_RESERVED_BYTES, LP_METADATA_GEOMETRY_SIZE;
    (split; [split; cbn [se_offset se_size]; lia|]); (split; [split; by intros [=]|]); lia.
Qed.
End Metadata.

(** ** The whole layout *)

(** What a builder [b] with images needs for its layout: one device, all extents on it
    and behind the metadata, an image for every partition that has
    extents, and metadata that fits its slots. *)
Record layout_input (s : SuperLayoutBuilder) (b : MetadataBuilder) (m : LpMetadata)
    (dv : LpMetadataBlockDevice) : Prop := {
  li_open : lb_builder s = Some b;
  li_builder : builder_ok b;
  li_export : Export b = Ret m;
  li_count : zlen (owners b) < 2 ^ 32;
  li_device : b_block_devices b = [dv];
  li_serializable : serializable m;
  li_geometry : geometry_ok (m_geometry m);
  li_region : region_end m < 2 ^ 32;
  li_area : region_end m ≤ first_logical_sector dv * LP_SECTOR_SIZE;
  li_copies : copy_size m ≤ metadata_max_size (m_geometry m);
  li_linear : linear (owners b);
  li_images : Forall (λ part, p_num_extents part = 0 ∨ is_Some (lb_image_map s !! GetPartitionName part))
    (m_partitions m);
}.

Section Layout.
Context (sha256 : bytes → bytes) (sha256_length : ∀ bs, length (sha256 bs) = 32%nat).
Context (s : SuperLayoutBuilder) (b : MetadataBuilder) (m : LpMetadata) (dv : LpMetadataBlockDevice).
Context (input : layout_input s b m dv).

Abbreviation image_map := (lb_image_map s).
(** The parts of a partition's image. *)
Definition parts_of (part : LpMetadataPartition) : list SuperImageExtent :=
  match image_map !! GetPartitionName part with
  | Some image_name => image_list image_name 0 (extents_of m part)
  | None => []
  end.

(** What is inside the only device. *)
Lemma inside_only d x y : inside [dv] d x y →
  d = 0 ∧ first_logical_sector dv ≤ x ∧ x < y ∧ y * LP_SECTOR_SIZE ≤ bd_size dv.
Proof using Type.
  intros (Hd & dv' & Hdv & H1 & H2). apply list_lookup_singleton_Some in Hdv as [Hz <-].
  unfold sectors in H2. pose proof (Z.mul_div_le (bd_size dv) LP_SECTOR_SIZE ltac:(done)).
  unfold LP_SECTOR_SIZE in *. split_and!; lia.
Qed.
Lemma owned_ok e : e ∈ owners b → flashable e ∧ match e with
  | LinearExtent n _ x => first_logical_sector dv ≤ x ∧ (x + n) * LP_SECTOR_SIZE ≤ bd_size dv
  | _ => True end.
Proof using input.
  intros He. pose proof (proj1 (Forall_forall _ _) (li_linear _ _ _ _ input) e He) as Hl.
  destruct (bok_layout _ (li_builder _ _ _ _ input)) as [Hd Hi _]. rewrite (li_device _ _ _ _ input) in Hd, Hi.
  apply Forall_singleton in Hd as [Hfirst Hsize _].
  pose proof (proj1 (Forall_forall _ _) Hi e He) as Hin. destruct e as [n d x|n]; [|done].
  destruct (inside_only _ _ _ Hin) as (-> & H1 & H2 & H3). cbn [flashable]. split_and!; [done|lia..].
Qed.

Lemma partitions_exported : Forall2 (λ part p, mappable m part ∧ extents_of m part = pt_extents p)
  (m_partitions m) (b_partitions b).
Proof using input.
  destruct input as [_ Hok Hx Hcount _ _ _ _ _ _ _ _].
  apply Forall2_same_length_lookup_2.
  - destruct (Export_inv b m Hx) as (_ & _ & _ & _ & Hflat & _). clear -Hflat. induction Hflat; simpl; by f_equal.
  - intros i part p Hpart Hp. destruct (exported_partition b m Hok Hx Hcount i part Hpart) as (pre & p' & post & Hps & <- & Hm & He).
    rewrite Hps, list_lookup_middle in Hp by done. injection Hp as <-. done.
Qed.
Lemma extents_exported : m_partitions m ≫= extents_of m = owners b.
Proof using input.
  unfold owners, all_extents. induction partitions_exported as [|part p parts ps [_ He] _ IH]; [done|].
  rewrite !bind_cons, He, IH. done.
Qed.
Lemma part_ok part : part ∈ m_partitions m → mappable m part ∧ Forall flashable (extents_of m part) ∧
  (∀ e, e ∈ extents_of m part → e ∈ owners b) ∧ total (extents_of m part) * LP_SECTOR_SIZE < 2 ^ 64.
Proof using input.
  intros [i Hi]%list_elem_of_lookup. destruct (Forall2_lookup_l _ _ _ _ _ partitions_exported Hi) as (p & Hp & Hm & He).
  apply list_elem_of_lookup_2 in Hp. assert (Hin : ∀ e, e ∈ extents_of m part → e ∈ owners b).
  { intros e Hine. rewrite <- extents_exported. apply list_elem_of_bind. exists part. split; [done|].
    by apply list_elem_of_lookup_2 in Hi. }
  split; [done|]. split; [|split; [done|]].
  - apply Forall_forall. intros e Hine. by apply owned_ok, Hin.
  - rewrite He. apply (proj1 (Forall_forall _ _) (bok_parts _ (li_builder _ _ _ _ input)) p Hp).
Qed.

Lemma partition_extents_ok part : part ∈ m_partitions m →
  partition_extents image_map (m_extents m) part = Ret (parts_of part).
Proof using input.
  intros Hin. destruct (part_ok part Hin) as ([(Hf & Hn & Hr) Hk _ _ _] & Hfl & _ & Hb).
  unfold partition_extents, parts_of. destruct (image_map !! GetPartitionName part) as [name|] eqn:E.
  - destruct (Export_inv b m (li_export _ _ _ _ input)) as (_ & _ & _ & _ & Hflat & _).
    destruct (flattened_extents _ _ _ _ _ _ _ Hflat) as [Hlen _].
    pose proof (li_count _ _ _ _ input) as Hcount. unfold owners, zlen in Hcount. rewrite <- Hlen in Hcount.
    unfold extents_of, entries_of in *. set (first := Z.to_nat (p_first_extent_index part)) in *.
    set (n := Z.to_nat (p_num_extents part)) in *.
    assert (Hxl : length (take n (drop first (m_extents m))) = n).
    { rewrite length_take, length_drop. unfold zlen in Hr. lia. }
    rewrite <- Hxl at 1.
    apply (image_extents_ok (m_extents m) (take n (drop first (m_extents m))) (drop n (drop first (m_extents m)))
      (p_first_extent_index part) name Hk (take first (m_extents m))); [| |exact Hcount|exact Hfl|lia|lia].
    + by rewrite !take_drop.
    + unfold zlen in *. rewrite length_take. lia.
  - assert (Hz : p_num_extents part = 0).
    { destruct (proj1 (Forall_forall _ _) (li_images _ _ _ _ input) part Hin) as [|[? ?]]; [done|congruence]. }
    by rewrite require_True by done.
Qed.

(** All extents that are collected, before the gaps are filled. *)
Definition sources (blob : bytes) : list SuperImageExtent :=
  geometry_extents sha256 (m_geometry m) ++ copies m blob ++ concat (parts_of <$> m_partitions m).

Lemma image_layout_sources : ∃ blob, SerializeMetadata sha256 m = Ret blob ∧
  image_layout sha256 s = AddGapExtents (sources (copy_bytes m blob)) DONTCARE ∧
  zlen (copy_bytes m blob) = copy_size m ∧ 0 < zlen blob ≤ copy_size m.
Proof using input sha256_length.
  destruct input as [Ho Hok Hx Hcount Hdev Hs Hg Hr Ha Hc Hlin Himg].
  destruct (metadata_blob_cases sha256 sha256_length m Hs) as (blob & Hblob & Hcopy & Hlen & Hpos).
  exists blob. split; [done|]. split; [|done]. unfold image_layout, Layout_Export. rewrite Ho. cbn [access mbind outcome_mbind].
  rewrite Hx. cbn [mbind outcome_mbind]. rewrite Hcopy, decide_False by lia. cbn [mbind outcome_mbind].
  rewrite (metadata_extents_ok m Hg Hr). cbn [mbind outcome_mbind].
  rewrite (proj2 (mapM_Ret _ _ (parts_of <$> m_partitions m))); [done|].
  apply Forall2_fmap_r, Forall_Forall2_diag, Forall_forall, partition_extents_ok.
Qed.

Lemma concat_parts_hits x : 0 ≤ x → hits (concat (parts_of <$> m_partitions m)) x ≤ cover (owners b) 0 (x / LP_SECTOR_SIZE).
Proof using input.
  intros Hx. rewrite <- extents_exported.
  assert (Hall : ∀ part, part ∈ m_partitions m → Forall flashable (extents_of m part)) by (intros part Hp; by apply part_ok).
  induction (m_partitions m) as [|part parts IH]; [done|]. csimpl. rewrite hits_app, cover_app.
  assert (Hrest : ∀ part, part ∈ parts → Forall flashable (extents_of m part)) by (intros; apply Hall; by right).
  specialize (IH Hrest). assert (hits (parts_of part) x ≤ cover (extents_of m part) 0 (x / LP_SECTOR_SIZE)); [|lia].
  unfold parts_of. destruct (image_map !! GetPartitionName part).
  - rewrite hits_image_list; [lia|apply Hall; by left|done].
  - apply cover_nonneg.
Qed.
Lemma concat_parts_in e : e ∈ concat (parts_of <$> m_partitions m) →
  extent_wf e ∧ filled e ∧ first_logical_sector dv * LP_SECTOR_SIZE ≤ se_offset e ∧ se_end e ≤ bd_size dv.
Proof using input.
  intros He. apply list_elem_of_In, in_concat in He as (l & Hl & He). apply list_elem_of_In in Hl, He.
  apply list_elem_of_fmap in Hl as (part & -> & Hpart). destruct (part_ok part Hpart) as (_ & Hfl & Hown & _).
  unfold parts_of in He. destruct (image_map !! GetPartitionName part) as [name|]; [|by apply not_elem_of_nil in He].
  destruct (image_list_in name 0 _ e Hfl ltac:(done) He) as (H1 & H2 & _ & n & x & Hin & Hoff & Hsz).
  destruct (owned_ok _ (Hown _ Hin)) as [_ [H3 H4]]. split; [done|]. split; [done|].
  unfold se_end. rewrite Hoff, Hsz. unfold LP_SECTOR_SIZE in *. lia.
Qed.

(** The metadata and the images share no byte and are inside the device. *)
Lemma sources_ok blob : zlen blob = copy_size m → 0 < zlen blob →
  (∀ e, e ∈ sources blob → extent_wf e ∧ filled e ∧ se_end e ≤ bd_size dv) ∧ ∀ x, hits (sources blob) x ≤ 1.
Proof using input sha256_length.
  intros Hlen Hpos. pose proof (li_serializable _ _ _ _ input) as Hs. pose proof (li_geometry _ _ _ _ input) as Hg.
  pose proof (li_region _ _ _ _ input) as Hr. pose proof (li_area _ _ _ _ input) as Ha.
  pose proof (li_copies _ _ _ _ input) as Hc. pose proof (geometry_numbers m Hg) as [Hsl Hmx].
  assert (Hsize : first_logical_sector dv * LP_SECTOR_SIZE ≤ bd_size dv).
  { destruct (bok_layout _ (li_builder _ _ _ _ input)) as [Hd _ _]. rewrite (li_device _ _ _ _ input) in Hd.
    apply Forall_singleton in Hd as [Hfirst _ _]. unfold sectors in Hfirst.
    pose proof (Z.mul_div_le (bd_size dv) LP_SECTOR_SIZE ltac:(done)). unfold LP_SECTOR_SIZE in *. lia. }
  assert (Hr0 : 12288 ≤ region_end m) by (unfold region_end; nia).
  pose proof (geometry_in sha256 sha256_length m Hg) as Hgeo.
  pose proof (λ e, copies_in m Hg Hr blob e ltac:(lia) Hpos) as Hcop. split.
  - unfold sources. intros e [He|[He|He]%elem_of_app]%elem_of_app.
    + destruct (Hgeo e He) as (? & ? & ? & ?). split_and!; try done. lia.
    + destruct (Hcop e He) as (? & ? & ? & ?). split_and!; try done. lia.
    + destruct (concat_parts_in e He) as (? & ? & ? & ?). done.
  - unfold sources. apply (hits_apart _ _ (λ x, x < 12288)).
    + intros e x He Hx. destruct (Hgeo e He) as (? & ? & ? & ?). lia.
    + intros e x [He|He]%elem_of_app Hx.
      * destruct (Hcop e He) as (? & ? & ? & ?). lia.
      * destruct (concat_parts_in e He) as (? & ? & ? & ?). lia.
    + apply (geometry_hits sha256 sha256_length m Hg).
    + apply (hits_apart _ _ (λ x, x < region_end m)).
      * intros e x He Hx. destruct (Hcop e He) as (? & ? & ? & ?). lia.
      * intros e x He Hx. destruct (concat_parts_in e He) as (? & ? & ? & ?). lia.
      * apply copies_hits; [done|lia].
      * intros x. destruct (decide (0 ≤ x)) as [Hx|Hx].
        -- pose proof (concat_parts_hits x Hx). destruct (bok_layout _ (li_builder _ _ _ _ input)) as [_ _ Hcov].
           specialize (Hcov 0 (x / LP_SECTOR_SIZE)). unfold owners in *. lia.
        -- rewrite hits_outside; [done|]. apply Forall_forall. intros e He.
           destruct (concat_parts_in e He) as ([? _ _] & _). lia.
Qed.

(** The layout exists, tiles the device from 0 on, and has everything that was collected. *)
Record layout_made (blob : bytes) (L : list SuperImageExtent) (last : Z) : Prop := {
  lm_blob : SerializeMetadata sha256 m = Ret blob;
  lm_made : AddGapExtents (sources (copy_bytes m blob)) DONTCARE = Ret L;
  lm_tiles : tiles 0 L last;
  lm_wf : Forall extent_wf L;
  lm_filled : Forall filled L;
  lm_sources e : e ∈ sources (copy_bytes m blob) → e ∈ L;
  lm_gaps e : e ∈ L → e ∈ sources (copy_bytes m blob) ∨ se_type e = DONTCARE;
  lm_last : last ≤ bd_size dv;
}.
Lemma GetImageLayout_made : ∃ L blob last, GetImageLayout sha256 s = Ret L ∧ L ≠ [] ∧ layout_made blob L last.
Proof using input sha256_length.
  destruct image_layout_sources as (blob & Hblob & Himg & Hlen & Hpos).
  destruct (sources_ok (copy_bytes m blob) Hlen ltac:(lia)) as [Hin Hhits].
  assert (Hwf : Forall extent_wf (sources (copy_bytes m blob))) by (apply Forall_forall; intros e He; by apply Hin).
  destruct (AddGapExtents_ok _ DONTCARE Hwf Hhits) as [L HL].
  destruct (AddGapExtents_tiles _ _ _ Hwf HL) as (last & Ht & Hsub & Hfrom & Hlast & Hw).
  exists L, blob, last. unfold GetImageLayout. rewrite Himg, HL. split; [done|]. split.
  { intros ->. by specialize (Hsub _ ltac:(left)) as ?%not_elem_of_nil. }
  split; try done.
  - apply Forall_forall. intros e He. destruct (Hfrom e He) as [Hs|(o & n & ->)]; [by apply Hin|split; by intros [=]].
  - intros e He. destruct (Hfrom e He) as [Hs|(o & n & ->)]; [by left|by right].
  - destruct Hlast as [->|(e & He & ->)]; [|by apply Hin].
    destruct (bok_layout _ (li_builder _ _ _ _ input)) as [Hd _ _]. rewrite (li_device _ _ _ _ input) in Hd.
    apply Forall_singleton in Hd as [_ [? _] _]. done.
Qed.
End Layout.
