(* ===== verification/LpReach.v ===== *)
(** * What a builder made from scratch can become ([liblp/builder.cpp])

    [MetadataBuilder::New] for block devices establishes the invariant of the builder, every
    operation keeps it, and what such a builder exports can be written and read back. *)
From S2P Require Import Prelude Bytes LpFormat LpUtility Device LpReader LpWriter LpImage LpExtent LpBuilder.
From S2P Require Import LpAlloc LpFree LpGrow LpInvariant LpResize LpExport LpRoundtrip DmMap.

(** ** The types of a builder *)

(** A header that the writer can complete. *)
Record header_typed (h : LpMetadataHeader) : Prop := {
  ht_wf : c_wf header_codec h;
  ht_magic : h_magic h = LP_METADATA_HEADER_MAGIC;
  ht_major : h_major_version h = LP_METADATA_MAJOR_VERSION;
  ht_minor : 0 ≤ h_minor_version h ≤ LP_METADATA_MINOR_VERSION_MAX;
  ht_size : header_size h = expected_struct_size h;
  ht_tail : header_size h = sizeof header_v1_0_codec → h_flags h = 0 ∧ h_reserved h = zeroes 124;
  ht_entries :
    t_entry_size (h_partitions h) = sizeof partition_codec ∧ t_entry_size (h_extents h) = sizeof extent_codec ∧
    t_entry_size (h_groups h) = sizeof group_codec ∧ t_entry_size (h_block_devices h) = sizeof block_device_codec;
}.
(** Numbers in the ranges of their members, names without NUL, a group for every partition,
    and a metadata area that the partitions leave free. *)
Record builder_typed (b : MetadataBuilder) : Prop := {
  bt_geometry : geometry_ok (b_geometry b);
  bt_header : header_typed (b_header b);
  bt_suffixing : b_auto_slot_suffixing b = false;
  bt_group_names : NoDup (pg_name <$> b_groups b);
  bt_groups : Forall (λ g, no_nul (pg_name g) ∧ is_u64 (pg_maximum_size g)) (b_groups b);
  bt_names : Forall (λ p, pt_name p ≠ [] ∧ no_nul (pt_name p)) (b_partitions b);
  bt_grouped : Forall (λ p, pt_group_name p ∈ pg_name <$> b_groups b) (b_partitions b);
  bt_devices : Forall (c_wf block_device_codec) (b_block_devices b);
  bt_super : ∃ super, b_block_devices b !! 0%nat = Some super ∧
    GetTotalMetadataSize (metadata_max_size (b_geometry b)) (metadata_slot_count (b_geometry b))
    ≤ first_logical_sector super * LP_SECTOR_SIZE < 2 ^ 64;
}.

(** ** A new builder *)

Record info_ok (info : BlockDeviceInfo) : Prop := {
  io_size : is_u64 (i_size info);
  io_alignment : is_u32 (i_alignment info);
  io_offset : is_u32 (i_alignment_offset info);
  io_block : is_u32 (i_logical_block_size info);
}.
(** Alignments that the code leaves to its caller. *)
Definition regular (info : BlockDeviceInfo) : Prop :=
  i_alignment info ≠ 0 →
  (i_alignment info | i_size info) ∧ (i_logical_block_size info | i_alignment info).

(** What [Init] makes of a device, for blocks of [bs] bytes. *)
Record device_made (bs : Z) (d : LpMetadataBlockDevice) : Prop := {
  dm_ok : device_ok d;
  dm_whole : whole_device d;
  dm_blocks : bd_alignment d ≠ 0 → (bs | bd_alignment d);
  dm_sectors : (LP_SECTOR_SIZE | bd_alignment d);
  dm_wf : c_wf block_device_codec d;
}.
Definition blocks_ok (bs : Z) : Prop := is_u32 bs ∧ bs ≠ 0 ∧ (LP_SECTOR_SIZE | bs).

Lemma VerifyDeviceProperties_true info : VerifyDeviceProperties info = true →
  i_logical_block_size info ≠ 0 ∧ (LP_SECTOR_SIZE | i_logical_block_size info) ∧
  (i_logical_block_size info | i_size info) ∧ (LP_SECTOR_SIZE | i_alignment info).
Proof.
  unfold VerifyDeviceProperties. repeat (case_decide; [done|]). intros _.
  split_and!; [done|..]; (apply Z.mod_divide; [done|lia]).
Qed.
(** The area of a device starts behind what is reserved, at a whole sector, and not far. *)
Lemma free_area_ok al bs reserved r : is_u32 al → blocks_ok bs → (LP_SECTOR_SIZE | al) → is_u32 reserved →
  free_area al bs reserved = Some r → reserved ≤ r < 2 ^ 33 ∧ r / LP_SECTOR_SIZE * LP_SECTOR_SIZE = r.
Proof.
  intros Hal (Hbs & Hb0 & Hbd) Had Hres. unfold free_area.
  assert (H : ∀ a, is_u32 a → a ≠ 0 → (LP_SECTOR_SIZE | a) → AlignTo 64 reserved a = Some r →
    reserved ≤ r < 2 ^ 33 ∧ r / LP_SECTOR_SIZE * LP_SECTOR_SIZE = r).
  { intros a Ha Ha0 Hd E. destruct (AlignTo_Some 64 reserved a r ltac:(lia) E ltac:(lia)) as (H1 & _ & H2).
    destruct (H2 Ha0) as [H3 H4]. split; [lia|]. destruct (Z.divide_trans _ _ _ Hd H3) as [k ->].
    by rewrite Z.div_mul by done. }
  case_decide; by apply H.
Qed.
Lemma first_fits first bs size : 0 ≤ first → first * LP_SECTOR_SIZE < 2 ^ 33 → is_u32 bs → 0 < bs → is_u64 size →
  u64 (u64 (first * LP_SECTOR_SIZE) + bs) ≤ size → first ≤ size / LP_SECTOR_SIZE.
Proof.
  unfold LP_SECTOR_SIZE. intros. rewrite (u64_small (first * 512)) in * by lia. rewrite u64_small in * by lia.
  apply Z.div_le_lower_bound; lia.
Qed.

Lemma made_device info bs reserved area first name flags : info_ok info → regular info → blocks_ok bs →
  bs = i_logical_block_size info → VerifyDeviceProperties info = true → is_u32 reserved →
  free_area (i_alignment info) bs reserved = Some area → first = area / LP_SECTOR_SIZE → length name = 36%nat →
  is_u32 flags → u64 (u64 (first * LP_SECTOR_SIZE) + bs) ≤ i_size info →
  device_made bs (mkBlockDevice first (i_alignment info) (i_alignment_offset info) (i_size info) name flags) ∧
  reserved ≤ first * LP_SECTOR_SIZE < 2 ^ 33.
Proof.
  intros [Hsz Hal Hoff Hbl] Hreg Hbs -> (Hb0 & Hb512 & Hbsz & Hal512)%VerifyDeviceProperties_true Hres Harea -> Hname Hflags Hmin.
  destruct (free_area_ok _ _ _ _ Hal Hbs Hal512 Hres Harea) as [Ha Hex]. rewrite Hex in *.
  assert (Hf : 0 ≤ area / LP_SECTOR_SIZE) by (apply Z.div_pos; [lia|done]).
  pose proof (first_fits (area / LP_SECTOR_SIZE) (i_logical_block_size info) (i_size info) Hf) as Hfit.
  rewrite Hex in Hfit. specialize (Hfit ltac:(lia) Hbl ltac:(lia) Hsz Hmin). split; [|lia].
  assert (Hlt : area / LP_SECTOR_SIZE ≤ area) by (apply Z.div_le_upper_bound; [done|unfold LP_SECTOR_SIZE; lia]).
  split; cbn [bd_alignment].
  - split; simpl; [unfold sectors; simpl; lia|done|done].
  - split; simpl; [exact (Z.divide_trans _ _ _ Hb512 Hbsz)|]. intros H0. by apply Hreg.
  - intros H0. by apply Hreg.
  - done.
  - refine (conj _ (conj _ (conj _ (conj _ (conj _ _))))); simpl; first [done|lia].
Qed.
Lemma init_devices_ok super infos bs0 out bs devices : Forall info_ok infos → Forall regular infos →
  (bs0 = 0 ∧ out = [] ∨ blocks_ok bs0 ∧ Forall (device_made bs0) out) →
  init_devices super infos bs0 out = Ret (bs, devices) → infos = [] ∧ bs = bs0 ∧ devices = out ∨
  blocks_ok bs ∧ Forall (device_made bs) devices.
Proof.
  intros Hinfos. revert bs0 out. induction Hinfos as [|info infos Hi _ IH]; intros bs0 out Hreg Hout; cbn [init_devices].
  { intros [= -> ->]. by left. }
  apply Forall_cons in Hreg as [Hr Hreg]. intros ([] & Hv%require_Ret & H)%bind_Ret. cbv zeta in H.
  apply bind_Ret in H as ([] & Hbs%require_Ret & H). apply bind_Ret in H as ([] & Hn%require_Ret & H).
  apply bind_Ret in H as (area & Ha & H). apply bind_Ret in H as ([] & Hmin%require_Ret & H). right.
  set (bs1 := if decide (bs0 = 0) then _ else _) in *.
  assert (Hb1 : blocks_ok bs1).
  { destruct (VerifyDeviceProperties_true _ Hv) as (H0 & H512 & _). rewrite Hbs.
    split; [apply Hi|]. by split. }
  assert (Ho1 : Forall (device_made bs1) out).
  { unfold bs1. destruct Hout as [[-> ->]|[[_ [Hne _]] Ho]]; [done|]. by rewrite decide_False. }
  destruct (free_area (i_alignment info) bs1 LP_SECTOR_SIZE) as [area'|] eqn:Earea; [|done]. injection Ha as ->.
  destruct (made_device info bs1 LP_SECTOR_SIZE area _ (strncpy 36 (i_partition_name info)) 0 Hi Hr Hb1 Hbs Hv
    ltac:(done) Earea eq_refl) as [Hd _]; [by apply length_strncpy|done|done|].
  set (d := mkBlockDevice _ _ _ _ _ _) in *.
  assert (Ho2 : Forall (device_made bs1) (if decide (i_partition_name info = super) then d :: out else out ++ [d])).
  { case_decide; [by constructor|]. apply Forall_app. by split; [|constructor]. }
  by destruct (IH bs1 _ Hreg (or_intror (conj Hb1 Ho2)) H) as [(_ & -> & ->)|].
Qed.

(** The same through steps that read or write the builder. *)
Lemma modify_Ret {S} (f : S → S) s u s' : modify f s = (Ret u, s') → s' = f s.
Proof. by intros [= _ <-]. Qed.
Lemma get_Ret {S} (s a s' : S) : get s = (Ret a, s') → a = s ∧ s' = s.
Proof. by intros [= <- <-]. Qed.
Ltac inv_state := repeat first
  [ inv_io_step | inv_ret_step
  | match goal with
    | H : modify _ _ = (Ret _, _) |- _ => apply modify_Ret in H; subst
    | H : get _ = (Ret _, _) |- _ => apply get_Ret in H as [-> ->]
    end ].

(** The geometry that [Init] stores. *)
Definition new_geometry (max_size slots bs : Z) : LpMetadataGeometry :=
  mkGeometry LP_METADATA_GEOMETRY_MAGIC (sizeof geometry_codec) (zeroes 32) max_size slots bs.
(** A builder that [New] returned. *)
Record new_builder (infos : list BlockDeviceInfo) (super_partition : bytes) (size slots : Z) (b : MetadataBuilder)
    (max_size bs : Z) (devices : list LpMetadataBlockDevice) (super : LpMetadataBlockDevice) (area : Z) : Prop := {
  nb_size : sizeof header_codec ≤ size;
  nb_slots : slots ≠ 0;
  nb_infos : infos ≠ [];
  nb_max : AlignTo 32 size LP_SECTOR_SIZE = Some max_size;
  nb_devices : init_devices super_partition infos 0 [] = Ret (bs, devices);
  nb_super : devices !! 0%nat = Some super;
  nb_area : free_area (bd_alignment super) bs (GetTotalMetadataSize max_size slots) = Some area;
  nb_min : u64 (u64 (area / LP_SECTOR_SIZE * LP_SECTOR_SIZE) + bs) ≤ bd_size super;
  nb_builder : b = mkBuilder (new_geometry max_size slots bs) (b_header EmptyBuilder) []
    [mkPartitionGroup kDefaultGroup 0] (<[0%nat := device_set_first super (area / LP_SECTOR_SIZE)]> devices) false;
}.
Lemma New_devices_inv infos super_partition size slots b : New_devices infos super_partition size slots = Ret b →
  ∃ max_size bs devices super area, new_builder infos super_partition size slots b max_size bs devices super area.
Proof.
  unfold New_devices. intros H. destruct (Init_devices _ _ _ _ EmptyBuilder) as [[[]| |] b'] eqn:E; [|done..].
  injection H as ->. unfold Init_devices in E. inv_io. destruct r3 as [bs devices]. inv_state.
  unfold AddGroup in E. inv_state. by exists r2, bs, devices, r3, r5.
Qed.

Lemma empty_header_typed : header_typed (b_header EmptyBuilder).
Proof.
  by split.
Qed.
Lemma device_made_first bs super area total : device_made bs super → blocks_ok bs → is_u32 total →
  free_area (bd_alignment super) bs total = Some area →
  u64 (u64 (area / LP_SECTOR_SIZE * LP_SECTOR_SIZE) + bs) ≤ bd_size super →
  device_made bs (device_set_first super (area / LP_SECTOR_SIZE)) ∧ total ≤ area / LP_SECTOR_SIZE * LP_SECTOR_SIZE < 2 ^ 33.
Proof.
  intros [[Hf Hsz Hal] Hw Hb H512 Hwf] Hbs Ht Harea Hmin. destruct (free_area_ok _ _ _ _ Hal Hbs H512 Ht Harea) as [Ha Hex].
  assert (H0 : 0 ≤ area / LP_SECTOR_SIZE) by (apply Z.div_pos; [lia|done]).
  destruct Hbs as (Hbs & Hb0 & _).
  pose proof (first_fits (area / LP_SECTOR_SIZE) bs (bd_size super) H0) as Hfit. rewrite Hex in *.
  specialize (Hfit ltac:(lia) Hbs ltac:(lia) Hsz Hmin). split; [|lia].
  assert (Hlt : area / LP_SECTOR_SIZE ≤ area) by (apply Z.div_le_upper_bound; [done|unfold LP_SECTOR_SIZE; lia]).
  split; try done.
  - destruct Hwf as (W1 & W2 & W3 & W4 & W5 & W6). refine (conj _ (conj _ (conj _ (conj _ (conj _ _))))); simpl; first [done|lia].
Qed.

(** A new builder has the invariant, and no partitions. *)
Theorem New_devices_ok infos super_partition size slots b : Forall info_ok infos → Forall regular infos →
  is_u32 size → is_u32 slots → New_devices infos super_partition size slots = Ret b →
  builder_ok b ∧ builder_typed b ∧ b_partitions b = [].
Proof.
  intros Hi Hr Hsize Hslots (max_size & bs & devices & super & area & [N1 N2 N3 N4 N5 N6 N7 N8 ->])%New_devices_inv.
  destruct (init_devices_ok super_partition infos 0 [] bs devices Hi Hr (or_introl (conj eq_refl eq_refl)) N5)
    as [(-> & _)|[Hbs Hmade]]; [done|].
  pose proof (Forall_lookup_1 _ _ _ _ Hmade N6) as Hsuper.
  assert (Hmax : is_u32 max_size ∧ (LP_SECTOR_SIZE | max_size)).
  { destruct (AlignTo_Some 32 size LP_SECTOR_SIZE max_size ltac:(done) N4 ltac:(lia)) as (H1 & _ & H2).
    destruct (H2 ltac:(done)) as [H3 _]. split; [lia|done]. }
  assert (Htotal : is_u32 (GetTotalMetadataSize max_size slots)) by apply u32_range.
  destruct (device_made_first bs super area _ Hsuper Hbs Htotal N7 N8) as [Hfirst Harea].
  set (devices' := <[0%nat := _]> devices).
  assert (Hmade' : Forall (device_made bs) devices') by (by apply Forall_insert).
  destruct Hbs as (Hb1 & Hb2 & Hb3). split; [|split; [|done]].
  - split; simpl.
    + split; [|constructor|intros; simpl; lia]. eapply Forall_impl; [exact Hmade'|]. by intros d [].
    + constructor.
    + constructor.
    + constructor.
    + eapply Forall_impl; [exact Hmade'|]. by intros d [].
    + eapply Forall_impl; [exact Hmade'|]. by intros d [].
    + done.
  - split; simpl; try done.
    + split; try done.
      * refine (conj _ (conj _ (conj _ (conj _ (conj _ _))))); simpl; first [done|lia].
      * apply Z.mod_divide; [done|apply Hmax].
    + apply NoDup_singleton.
    + repeat constructor; simpl; try lia. by apply (bool_decide_unpack _).
    + eapply Forall_impl; [exact Hmade'|]. by intros d [].
    + exists (device_set_first super (area / LP_SECTOR_SIZE)). split; [|simpl; lia].
      apply list_lookup_insert_eq. by eapply lookup_lt_Some.
Qed.

(** ** Operations of a client *)

(** What a client calls on a builder; a handle is looked up when it is needed. *)
Inductive builder_op :=
| OpAddGroup (name : bytes) (maximum_size : Z)
| OpRemoveGroup (name : bytes)
| OpChangeGroupSize (name : bytes) (maximum_size : Z)
| OpAddPartition (name group : bytes) (attributes : Z)
| OpRemovePartition (name : bytes)
| OpResize (name : bytes) (size : Z)
| OpChangeGroup (name group : bytes)
| OpExpandHeader
| OpVirtualAB.
Definition with_handle (name : bytes) (f : IO MetadataBuilder unit) : IO MetadataBuilder unit :=
  b ← get; _ ← lift (require (FindPartition b name ≠ None)); f.
Definition run_op (fetcher : IPropertyFetcher) (op : builder_op) : IO MetadataBuilder unit :=
  match op with
  | OpAddGroup name size => AddGroup name size
  | OpRemoveGroup name => modify (RemoveGroupAndPartitions name)
  | OpChangeGroupSize name size => ChangeGroupSize name size
  | OpAddPartition name group attributes => AddPartition name group attributes
  | OpRemovePartition name => modify (RemovePartition name)
  | OpResize name size => with_handle name (ResizePartition fetcher name size [])
  | OpChangeGroup name group => with_handle name (ChangePartitionGroup name group)
  | OpExpandHeader => modify RequireExpandedMetadataHeader
  | OpVirtualAB => modify SetVirtualABDeviceFlag
  end.
(** A failed call is reported, and the client goes on. *)
Definition run_ops (fetcher : IPropertyFetcher) (ops : list builder_op) : IO MetadataBuilder unit :=
  for_each (λ op, _ ← try_ (run_op fetcher op); mret ()) ops.
(** Names without NUL, sizes of 64 bits. *)
Definition op_ok (op : builder_op) : Prop :=
  match op with
  | OpAddGroup name size => no_nul name ∧ is_u64 size
  | OpChangeGroupSize _ size | OpResize _ size => is_u64 size
  | OpAddPartition name _ _ => no_nul name
  | _ => True
  end.

(** *** Groups *)
Lemma FindGroup_in b name : FindGroup b name ≠ None ↔ name ∈ pg_name <$> b_groups b.
Proof.
  unfold FindGroup. rewrite fmap_None, list_find_None. split.
  - intros H. destruct (decide (name ∈ pg_name <$> b_groups b)) as [|Hn]; [done|]. destruct H. apply Forall_forall.
    intros g Hg <-. apply Hn. by apply list_elem_of_fmap_2.
  - intros (g & -> & Hg)%list_elem_of_fmap H. by apply (proj1 (Forall_forall _ _) H g Hg).
Qed.
Lemma builder_ok_groups b gs : builder_ok b → builder_ok (set_groups b gs).
Proof. by intros [? ? ? ? ? ? ?]. Qed.
Lemma builder_typed_groups b gs : builder_typed b → NoDup (pg_name <$> gs) →
  Forall (λ g, no_nul (pg_name g) ∧ is_u64 (pg_maximum_size g)) gs →
  Forall (λ p, pt_group_name p ∈ pg_name <$> gs) (b_partitions b) → builder_typed (set_groups b gs).
Proof. by intros [? ? ? ? ? ? ? ? ?] ? ? ?. Qed.
Lemma AddGroup_typed name size b : builder_typed b → no_nul name → is_u64 size →
  match AddGroup name size b with
  | (Ret _, b') => ∃ gs, b' = set_groups b gs ∧ builder_typed b'
  | (Reject, b') => b' = b
  | (Crash, _) => False
  end.
Proof.
  intros Ht Hn Hs. unfold AddGroup, lift, get, modify, mbind, io_mbind, require. case_decide as Hnone; [|done].
  exists (b_groups b ++ [mkPartitionGroup name size]). split; [done|]. apply builder_typed_groups; [done|..].
  - rewrite fmap_app, NoDup_app. split_and!; [apply Ht| |apply NoDup_singleton].
    intros x Hx ->%list_elem_of_singleton. by apply FindGroup_in in Hx.
  - apply Forall_app. split; [apply Ht|]. by constructor.
  - eapply Forall_impl; [apply (bt_grouped _ Ht)|]. intros p Hp. simpl. rewrite fmap_app, elem_of_app. by left.
Qed.
Lemma set_group_size_names name size gs : pg_name <$> set_group_size name size gs = pg_name <$> gs.
Proof. induction gs as [|g gs IH]; [done|]. simpl. case_decide; csimpl; [by f_equal|by rewrite IH]. Qed.
Lemma ChangeGroupSize_typed name size b : builder_typed b → is_u64 size →
  match ChangeGroupSize name size b with
  | (Ret _, b') => ∃ gs, b' = set_groups b gs ∧ builder_typed b'
  | (Reject, b') => b' = b
  | (Crash, _) => False
  end.
Proof.
  intros Ht Hs. unfold ChangeGroupSize, lift, get, modify, mbind, io_mbind, require.
  case_decide; [|done]. case_decide; [|done]. eexists. split; [done|].
  apply builder_typed_groups; rewrite ?set_group_size_names; [done|apply (bt_group_names _ Ht)| |apply (bt_grouped _ Ht)].
  pose proof (bt_groups _ Ht) as Hg. induction Hg as [|g gs [Hg1 Hg2] Hg IH]; simpl; [done|].
  case_decide as E; constructor; try done. by subst.
Qed.

(** *** Partitions *)
Lemma builder_typed_partitions b ps : builder_typed b →
  Forall (λ p, pt_name p ≠ [] ∧ no_nul (pt_name p)) ps →
  Forall (λ p, pt_group_name p ∈ pg_name <$> b_groups b) ps → builder_typed (set_partitions b ps).
Proof. by intros [? ? ? ? ? ? ? ? ?] ? ?. Qed.
Lemma erase_partition_in name ps p : p ∈ erase_partition name ps → p ∈ ps.
Proof.
  induction ps as [|q ps IH]; simpl; [done|]. case_decide; [by right|].
  intros [->|Hp]%elem_of_cons; [left|right; by apply IH].
Qed.
Lemma Forall_update_named (P : Partition → Prop) name q ps : Forall P ps → P q → Forall P (update_named (λ _, q) name ps).
Proof. intros Hps Hq. induction Hps; simpl; [done|]. case_decide; by constructor. Qed.
Lemma replaced_typed b name p q : builder_typed b → FindPartition b name = Some p → pt_name q = pt_name p →
  pt_group_name q ∈ pg_name <$> b_groups b → builder_typed (replaced name q b).
Proof.
  intros Ht (pre & post & E & Hn & _)%FindPartition_split Hq Hg.
  assert (Hp : p ∈ b_partitions b) by (rewrite E, elem_of_app; right; left).
  apply builder_typed_partitions; [done|apply Forall_update_named; [apply (bt_names _ Ht)|]|
    apply Forall_update_named; [apply (bt_grouped _ Ht)|done]].
  rewrite Hq. apply (proj1 (Forall_forall _ _) (bt_names _ Ht) p Hp).
Qed.
Lemma FindPartition_in b p : p ∈ b_partitions b → FindPartition b (pt_name p) ≠ None.
Proof.
  intros Hp. unfold FindPartition. rewrite fmap_None, list_find_None. intros H.
  by apply (proj1 (Forall_forall _ _) H p Hp).
Qed.

Lemma RemovePartition_typed name b : builder_typed b → builder_typed (RemovePartition name b).
Proof.
  intros Ht. apply builder_typed_partitions; [done|..]; apply Forall_forall; intros p Hp%erase_partition_in.
  - apply (proj1 (Forall_forall _ _) (bt_names _ Ht) p Hp).
  - apply (proj1 (Forall_forall _ _) (bt_grouped _ Ht) p Hp).
Qed.
Lemma RemovePartitions_ok names b : builder_ok b → builder_typed b →
  let b' := foldl (λ b name, RemovePartition name b) b names in
  builder_ok b' ∧ builder_typed b' ∧ b_groups b' = b_groups b ∧ (∀ p, p ∈ b_partitions b' → p ∈ b_partitions b) ∧
  ∀ n, n ∈ names ∨ FindPartition b n = None → FindPartition b' n = None.
Proof.
  revert b. induction names as [|name names IH]; intros b Hok Ht; simpl.
  { split_and!; try done. by intros n [?%not_elem_of_nil|]. }
  destruct (RemovePartition_ok name b Hok) as (Hok' & Hnone & Hother & _).
  destruct (IH (RemovePartition name b) Hok' (RemovePartition_typed name b Ht)) as (H1 & H2 & H3 & H4 & H5).
  split_and!; try done.
  - intros p Hp%H4. exact (erase_partition_in name _ p Hp).
  - intros n Hn. apply H5. destruct (decide (n = name)) as [->|Hne]; [by right|].
    destruct Hn as [[->|Hn]%elem_of_cons|Hn]; [done|by left|]. right. by rewrite Hother.
Qed.
Lemma erase_group_in name gs g : g ∈ gs → pg_name g ≠ name → g ∈ erase_group name gs.
Proof.
  intros Hg Hn. induction gs as [|x gs IH]; simpl; [done|]. apply elem_of_cons in Hg as [->|Hg].
  - rewrite decide_False by done. left.
  - case_decide; [done|right; by apply IH].
Qed.
Lemma erase_group_sublist name gs : sublist (erase_group name gs) gs.
Proof. induction gs as [|g gs IH]; simpl; [done|]. case_decide; [by apply sublist_cons|by apply sublist_skip]. Qed.
Lemma RemoveGroupAndPartitions_ok name b : builder_ok b → builder_typed b →
  builder_ok (RemoveGroupAndPartitions name b) ∧ builder_typed (RemoveGroupAndPartitions name b).
Proof.
  intros Hok Ht. unfold RemoveGroupAndPartitions. case_decide; [done|]. cbv zeta.
  destruct (RemovePartitions_ok (ListPartitionsInGroup b name) b Hok Ht) as (H1 & H2 & H3 & H4 & H5).
  set (b' := foldl _ _ _) in *. split; [by apply builder_ok_groups|]. pose proof (erase_group_sublist name (b_groups b')) as Hs.
  apply builder_typed_groups; [done|..].
  - eapply sublist_NoDup; [apply (bt_group_names _ H2)|by apply fmap_sublist].
  - apply Forall_forall. intros g Hg. apply (elem_of_sublist _ _ _ Hg) in Hs.
    apply (proj1 (Forall_forall _ _) (bt_groups _ H2) g Hs).
  - apply Forall_forall. intros p Hp. destruct (proj1 (list_elem_of_fmap _ _ _) (proj1 (Forall_forall _ _) (bt_grouped _ H2) p Hp))
      as (g & Hpg & Hg).
    rewrite Hpg. apply list_elem_of_fmap_2, erase_group_in; [done|]. intros Hgn.
    apply (FindPartition_in b' p Hp), H5. left. unfold ListPartitionsInGroup. apply list_elem_of_fmap_2, list_elem_of_filter.
    split; [congruence|by apply H4].
Qed.

Lemma ChangePartitionGroup_typed name group b p : builder_ok b → builder_typed b → FindPartition b name = Some p →
  match ChangePartitionGroup name group b with
  | (Ret _, b') => builder_ok b' ∧ builder_typed b'
  | (Reject, b') => b' = b
  | (Crash, _) => False
  end.
Proof.
  intros Hok Ht Hfind. destruct (find_ok _ _ _ Hok Hfind) as (Hp & Hn & _ & Hpi & Hpb & Hpc & _).
  destruct (decide (FindGroup b group ≠ None)) as [Hg|Hg].
  - unfold ChangePartitionGroup. rewrite (io_bind_eq _ _ _ b b), io_require by done.
    rewrite (io_bind_eq _ _ _ p b) by (unfold deref, mbind, io_mbind, get, lift; by rewrite Hfind).
    unfold modify. rewrite (replaced_eq b name p) by done. set (q := mkLpPartition _ _ _ _ _). split.
    + apply (replaced_ok b name p q); try done; [by destruct Hp|]. intros d s. simpl.
      pose proof (lay_disjoint _ _ (bok_layout _ Hok) d s). pose proof (Hpc d s). lia.
    + apply (replaced_typed b name p q); [done|done|done|]. by apply FindGroup_in.
  - unfold ChangePartitionGroup. rewrite (io_bind_eq _ _ _ b b) by done.
    unfold mbind, io_mbind, lift. by rewrite require_False.
Qed.
Lemma Resize_typed_hint fetcher name size hint b p : hint_ok (b_block_devices b) (lbs b) hint → builder_ok b → builder_typed b → FindPartition b name = Some p → is_u64 size →
  match ResizePartition fetcher name size hint b with
  | (Ret _, b') => builder_ok b' ∧ builder_typed b' ∧ ∃ g size' q, resized b name p g size' q b'
  | (Reject, b') => b' = b
  | (Crash, _) => False
  end.
Proof.
  intros Hhint Hok Ht Hfind Hs. destruct (find_ok _ _ _ Hok Hfind) as (Hp & Hn & Hin & _).
  destruct (FindGroup b (pt_group_name p)) as [g|] eqn:Hg.
  2:{ apply (proj2 (FindGroup_in b (pt_group_name p))) in Hg; [done|]. apply (proj1 (Forall_forall _ _) (bt_grouped _ Ht) p Hin). }
  assert (Hmax : is_u64 (pg_maximum_size g)).
  { unfold FindGroup in Hg. apply fmap_Some in Hg as ([i x] & [Hx _]%list_find_Some & ->).
    apply list_elem_of_lookup_2 in Hx. apply (proj1 (Forall_forall _ _) (bt_groups _ Ht) x Hx). }
  pose proof (ResizePartition_ok fetcher b name p g size hint Hok Hfind Hg Hmax Hs Hhint) as H.
  destruct (ResizePartition _ _ _ _ _) as [[u| |] b']; [|done..].
  destruct H as (aligned & q & _ & Hres). pose proof Hres as [-> Hok' Hq _ [_ Hqg] _ _ _]. split; [done|].
  split; [|by exists g, aligned, q]. apply (replaced_typed b name p q); [done|done| |].
  - apply FindPartition_split in Hq as (_ & _ & _ & -> & _). done.
  - rewrite Hqg. apply (proj1 (Forall_forall _ _) (bt_grouped _ Ht) p Hin).
Qed.
Lemma Resize_typed fetcher name size b p : builder_ok b → builder_typed b → FindPartition b name = Some p → is_u64 size →
  match ResizePartition fetcher name size [] b with
  | (Ret _, b') => builder_ok b' ∧ builder_typed b' ∧ ∃ g size' q, resized b name p g size' q b'
  | (Reject, b') => b' = b
  | (Crash, _) => False
  end.
Proof. apply Resize_typed_hint. by split; try constructor. Qed.

(** *** The header *)
Lemma RequireExpanded_typed b : builder_typed b → header_typed (b_header (RequireExpandedMetadataHeader b)) ∧
  header_size (b_header (RequireExpandedMetadataHeader b)) = sizeof header_codec.
Proof.
  intros Ht. pose proof (bt_header _ Ht) as [Hwf Hm Hj Hn Hs Htl He]. unfold RequireExpandedMetadataHeader. case_decide as Hmin.
  - split; [by split|]. rewrite Hs. unfold expected_struct_size. rewrite decide_False by lia. done.
  - split; [|done]. split; try done. 
    destruct Hwf as [(W1&W2&W3&W4&W5&W6&W7&W8&W9&W10&W11) [W12 W13]]. 
    refine (conj (conj _ (conj _ (conj _ (conj _ (conj _ (conj _ (conj _ (conj _ (conj _ (conj _ _)))))))))) (conj _ _)); done.
Qed.
Lemma builder_typed_header b h : builder_typed b → header_typed h → builder_typed (set_header b h).
Proof. by intros [? ? ? ? ? ? ? ? ?] ?. Qed.
Lemma builder_ok_header b h : builder_ok b → builder_ok (set_header b h).
Proof. by intros [? ? ? ? ? ? ?]. Qed.
Lemma RequireExpanded_ok b : builder_ok b → builder_typed b →
  builder_ok (RequireExpandedMetadataHeader b) ∧ builder_typed (RequireExpandedMetadataHeader b).
Proof.
  intros Hok Ht. destruct (RequireExpanded_typed b Ht) as [Hh _]. unfold RequireExpandedMetadataHeader in *.
  case_decide; [done|]. split; [by apply builder_ok_header|by apply builder_typed_header].
Qed.
Lemma lor_range n a b : 0 ≤ n → 0 ≤ a < 2 ^ n → 0 ≤ b < 2 ^ n → 0 ≤ Z.lor a b < 2 ^ n.
Proof.
  intros Hn Ha Hb. rewrite <- (Z.mod_small a (2 ^ n)), <- (Z.mod_small b (2 ^ n)) by done.
  rewrite <- !Z.land_ones, <- Z.land_lor_distr_l, Z.land_ones by done. apply Z.mod_pos_bound. lia.
Qed.
Lemma SetVirtualABDeviceFlag_ok b : builder_ok b → builder_typed b →
  builder_ok (SetVirtualABDeviceFlag b) ∧ builder_typed (SetVirtualABDeviceFlag b).
Proof.
  intros Hok Ht. destruct (RequireExpanded_ok b Hok Ht) as [Hok' Ht'].
  destruct (RequireExpanded_typed b Ht) as [[Hwf Hm Hj Hn Hs Htl He] Hsize].
  unfold SetVirtualABDeviceFlag. split; [by apply builder_ok_header|]. apply builder_typed_header; [done|].
  split; try done.
  - destruct Hwf as [Hv [Hf Hr]]. split; [exact Hv|]. split; [|exact Hr].
    change (is_u32 (Z.lor (h_flags (b_header (RequireExpandedMetadataHeader b))) LP_HEADER_FLAG_VIRTUAL_AB_DEVICE)).
    by apply (lor_range 32).
  - intros H. change (header_size (b_header (RequireExpandedMetadataHeader b)) = 128) in H. by rewrite Hsize in H.
Qed.

(** ** Every sequence of operations keeps the invariant *)

Definition session_ok (b : MetadataBuilder) : Prop := builder_ok b ∧ builder_typed b.
(** No operation aborts. *)
Lemma run_op_ok fetcher op b : session_ok b → op_ok op →
  match run_op fetcher op b with
  | (Ret _, b') => session_ok b'
  | (Reject, b') => b' = b
  | (Crash, _) => False
  end.
Proof.
  intros [Hok Ht] Hop. destruct op as [name size|name|name size|name group at_|name|name size|name group| |]; simpl in *.
  - pose proof (AddGroup_typed name size b Ht (proj1 Hop) (proj2 Hop)) as H.
    destruct (AddGroup name size b) as [[u| |] b']; try done. destruct H as (gs & -> & H). split; [by apply builder_ok_groups|done].
  - by apply RemoveGroupAndPartitions_ok.
  - pose proof (ChangeGroupSize_typed name size b Ht Hop) as H.
    destruct (ChangeGroupSize name size b) as [[u| |] b']; try done. destruct H as (gs & -> & H). split; [by apply builder_ok_groups|done].
  - pose proof (AddPartition_ok name group at_ b Hok) as H.
    destruct (AddPartition name group at_ b) as [[u| |] b'] eqn:E; try done; [|apply H].
    destruct H as (Hn & _ & Hg & Hok' & _). split; [done|]. unfold AddPartition in E. inv_state.
    apply builder_typed_partitions; [done|..]; apply Forall_app; (split; [apply Ht|]); constructor; try done.
    by apply FindGroup_in.
  - split; [by apply RemovePartition_ok|by apply RemovePartition_typed].
  - unfold with_handle. rewrite (io_bind_eq _ _ _ b b) by done.
    destruct (FindPartition b name) as [p|] eqn:E;
      [|unfold mbind, io_mbind, lift; by rewrite require_False by (intros H; by apply H)].
    rewrite io_require by done. pose proof (Resize_typed fetcher name size b p Hok Ht E Hop) as H.
    destruct (ResizePartition fetcher name size [] b) as [[u| |] b']; try done. by destruct H as (? & ? & _).
  - unfold with_handle. rewrite (io_bind_eq _ _ _ b b) by done.
    destruct (FindPartition b name) as [p|] eqn:E;
      [|unfold mbind, io_mbind, lift; by rewrite require_False by (intros H; by apply H)].
    rewrite io_require by done. pose proof (ChangePartitionGroup_typed name group b p Hok Ht E) as H.
    by destruct (ChangePartitionGroup name group b) as [[u| |] b'].
  - by apply RequireExpanded_ok.
  - by apply SetVirtualABDeviceFlag_ok.
Qed.
Lemma run_ops_ok fetcher ops b : session_ok b → Forall op_ok ops →
  ∃ b', run_ops fetcher ops b = (Ret (), b') ∧ session_ok b'.
Proof.
  intros Hb Hops. revert b Hb. induction Hops as [|op ops Hop _ IH]; intros b Hb; [by exists b|].
  pose proof (run_op_ok fetcher op b Hb Hop) as H. unfold run_ops. cbn [for_each].
  destruct (run_op fetcher op b) as [[u| |] b1] eqn:E; [| |done].
  - destruct (IH b1 H) as (b' & E' & Hb'). exists b'. split; [|done].
    rewrite (io_bind_eq _ _ _ () b1); [done|]. rewrite (io_bind_eq _ _ _ (Some u) b1); [done|]. unfold try_. by rewrite E.
  - subst b1. destruct (IH b Hb) as (b' & E' & Hb'). exists b'. split; [|done].
    rewrite (io_bind_eq _ _ _ () b); [done|]. rewrite (io_bind_eq _ _ _ None b); [done|]. unfold try_. by rewrite E.
Qed.

(** ** What is exported can be written *)

Lemma attributes_masked a : Z.land a (Z.lnot LP_PARTITION_ATTRIBUTE_MASK) = 0 → is_u32 a.
Proof.
  intros H. assert (a = Z.land a (Z.ones 4)) as ->.
  { apply Z.bits_inj'. intros i Hi. apply (f_equal (λ z, Z.testbit z i)) in H.
    change LP_PARTITION_ATTRIBUTE_MASK with (Z.ones 4) in H. rewrite Z.land_spec, Z.lnot_spec, Z.bits_0 in H by done.
    rewrite Z.land_spec. by destruct (Z.testbit a i), (Z.testbit (Z.ones 4) i). }
  rewrite Z.land_ones by done. pose proof (Z.mod_pos_bound a (2 ^ 4) ltac:(done)). lia.
Qed.
(** Attributes of version 1 need a header of version 1. *)
Lemma attributes_valid a minor : Z.land a (Z.lnot LP_PARTITION_ATTRIBUTE_MASK) = 0 →
  (Z.land a LP_PARTITION_ATTRIBUTE_MASK_V1 ≠ 0 → LP_METADATA_VERSION_FOR_UPDATED_ATTR ≤ minor) →
  ∀ h, h_minor_version h = minor → Z.land a (Z.lnot (valid_attributes h)) = 0.
Proof.
  intros Ha H1 h Hh. unfold valid_attributes. rewrite Hh. case_decide as Hm; [exact Ha|].
  assert (H0 : Z.land a LP_PARTITION_ATTRIBUTE_MASK_V1 = 0).
  { destruct (decide (Z.land a LP_PARTITION_ATTRIBUTE_MASK_V1 = 0)) as [|Hne]; [done|]. by specialize (H1 Hne). }
  apply Z.bits_inj'. intros i Hi. apply (f_equal (λ z, Z.testbit z i)) in Ha, H0. unfold LP_PARTITION_ATTRIBUTE_MASK in Ha.
  rewrite ?Z.land_spec, ?Z.lnot_spec, ?Z.lor_spec, ?Z.bits_0 in * by done.
  by destruct (Z.testbit a i), (Z.testbit LP_PARTITION_ATTRIBUTE_MASK_V0 i), (Z.testbit LP_PARTITION_ATTRIBUTE_MASK_V1 i).
Qed.
Lemma export_partitions_minor n indices k minor ps parts es minor' :
  export_partitions false n indices k minor ps = Ret (parts, es, minor') →
  minor ≤ minor' ≤ minor `max` LP_METADATA_VERSION_FOR_UPDATED_ATTR ∧
  Forall (λ part, Z.land (p_attributes part) (Z.lnot LP_PARTITION_ATTRIBUTE_MASK) = 0 ∧
    (Z.land (p_attributes part) LP_PARTITION_ATTRIBUTE_MASK_V1 ≠ 0 → LP_METADATA_VERSION_FOR_UPDATED_ATTR ≤ minor')) parts.
Proof.
  revert k minor parts es. induction ps as [|p ps IH]; intros k minor parts es; cbn [export_partitions].
  { intros [= <- <- <-]. split; [lia|done]. }
  intros ([[part xs] minor1] & Hp & H)%bind_Ret.
  apply bind_Ret in H as ([[parts1 es1] minor2] & Hps & H). injection H as <- <- <-.
  destruct (IH _ _ _ _ Hps) as [Hm Hall]. unfold export_partition in Hp. inv_ret. injection Hp as <- <- <-.
  split; [case_decide; lia|]. constructor; [|done]. simpl. split; [done|]. intros Hne.
  rewrite decide_False in Hm by done. lia.
Qed.
(** Where the entries of the tables come from. *)
Lemma flattened_in auto n indices k ps parts es x : flattened auto n indices k ps parts es → x ∈ es →
  ∃ p e, p ∈ ps ∧ e ∈ pt_extents p ∧ AddTo n e = Ret x.
Proof.
  induction 1 as [|k p ps xs parts es i _ _ Hxs _ _ IH]; [by intros ?%not_elem_of_nil|].
  intros [Hx|Hx]%elem_of_app.
  - apply list_elem_of_lookup in Hx as [j Hj]. destruct (Forall2_lookup_r _ _ _ _ _ Hxs Hj) as (e & He & Ha).
    exists p, e. split; [left|]. split; [by eapply list_elem_of_lookup_2|done].
  - destruct (IH Hx) as (q & e & Hq & He & Ha). exists q, e. split; [by right|done].
Qed.
Lemma flattened_group auto n indices k ps parts es i part : flattened auto n indices k ps parts es →
  parts !! i = Some part → ∃ j p, indices !! pt_group_name p = Some j ∧ p_group_index part = u32 (Z.of_nat j) ∧ p ∈ ps.
Proof.
  intros H. revert i. induction H as [|k p ps xs parts es j _ _ _ Hj _ IH]; intros i; [done|].
  destruct i as [|i]; cbn [lookup list_lookup].
  - intros [= <-]. exists j, p. split; [done|]. split; [done|left].
  - intros (j' & q & H1 & H2 & H3)%IH. exists j', q. split; [done|]. split; [done|by right].
Qed.
Lemma flattened_parts auto n indices k ps parts es : flattened auto n indices k ps parts es →
  Forall (λ part, length (p_name part) = 36%nat ∧ is_u32 (p_first_extent_index part) ∧ is_u32 (p_num_extents part) ∧
    is_u32 (p_group_index part)) parts.
Proof.
  induction 1 as [|k p ps xs parts es i _ _ _ _ _ IH]; constructor; [|done]. cbn [p_name p_first_extent_index p_num_extents p_group_index].
  split; [apply length_strncpy|]. split_and!; apply u32_range.
Qed.

Section Exported.
Context (b : MetadataBuilder) (m : LpMetadata) (b_ok : session_ok b) (exports : Export b = Ret m).

Lemma exported_parts : m_geometry m = b_geometry b ∧ m_block_devices m = b_block_devices b ∧
  Forall2 (λ g x, export_group false g = Ret x) (b_groups b) (m_groups m) ∧
  flattened false (zlen (b_block_devices b)) (group_indices (b_groups b)) 0 (b_partitions b) (m_partitions m) (m_extents m).
Proof using b_ok exports.
  destruct (Export_inv b m exports) as (_ & H1 & H2 & H3 & H4 & _). rewrite (bt_suffixing _ (proj2 b_ok)) in *.
  assert (Hd : m_block_devices m = b_block_devices b) by (rewrite H2; apply list_fmap_id).
  rewrite Hd in H4. done.
Qed.
Lemma exported_header : ∃ minor, h_minor_version (b_header b) ≤ minor ≤ h_minor_version (b_header b) `max` LP_METADATA_VERSION_FOR_UPDATED_ATTR ∧
  m_header m = header_set_entries (b_header b) minor (length (m_partitions m))
    (length (m_extents m)) (length (m_groups m)) (length (m_block_devices m)) ∧
  Forall (λ part, Z.land (p_attributes part) (Z.lnot LP_PARTITION_ATTRIBUTE_MASK) = 0 ∧
    (Z.land (p_attributes part) LP_PARTITION_ATTRIBUTE_MASK_V1 ≠ 0 → LP_METADATA_VERSION_FOR_UPDATED_ATTR ≤ minor)) (m_partitions m).
Proof using b_ok exports.
  pose proof exports as H. unfold Export in H. apply bind_Ret in H as ([] & _ & H).
  apply bind_Ret in H as (groups & _ & H). apply bind_Ret in H as ([[parts es] minor] & Hp & H). apply Ret_inj in H as <-.
  rewrite (bt_suffixing _ (proj2 b_ok)) in Hp. destruct (export_partitions_minor _ _ _ _ _ _ _ _ Hp) as [Hm Hall].
  exists minor. done.
Qed.

Lemma exported_groups_wf : Forall (c_wf group_codec) (m_groups m).
Proof using b_ok exports.
  destruct exported_parts as (_ & _ & Hg & _). pose proof (bt_groups _ (proj2 b_ok)) as Hgs.
  induction Hg as [|g x gs xs Hx Hg IH]; [constructor|]. apply Forall_cons in Hgs as [[_ Hmax] Hgs].
  constructor; [|by apply IH]. unfold export_group in Hx. inv_ret.
  refine (conj _ (conj _ _)); simpl; [by apply length_strncpy|done|done].
Qed.
Lemma exported_partitions_wf : Forall (c_wf partition_codec) (m_partitions m).
Proof using b_ok exports.
  destruct exported_parts as (_ & _ & _ & Hf). apply flattened_parts in Hf.
  destruct exported_header as (minor & _ & _ & Ha). apply Forall_forall. intros part Hin.
  destruct (proj1 (Forall_forall _ _) Hf part Hin) as (H1 & H2 & H3 & H4).
  destruct (proj1 (Forall_forall _ _) Ha part Hin) as [H5 _].
  refine (conj _ (conj _ (conj _ (conj _ _)))); simpl; [done|by apply attributes_masked|done..].
Qed.
Context (fits : zlen (serialize_tables m) ≤ metadata_max_size (b_geometry b)).
Lemma few_devices : zlen (b_block_devices b) < 2 ^ 32.
Proof using b_ok exports fits.
  pose proof (gok_wf _ (bt_geometry _ (proj2 b_ok))) as (_ & _ & _ & Hmax & _). simpl in Hmax.
  destruct exported_parts as (_ & Hd & _). unfold serialize_tables in fits. rewrite !zlen_app in fits.
  pose proof (bt_devices _ (proj2 b_ok)) as Hwf. rewrite Hd, (zlen_c_array block_device_codec _ Hwf) in fits.
  change (sizeof block_device_codec) with 64 in fits.
  pose proof (zlen_nonneg (c_array partition_codec (m_partitions m))).
  pose proof (zlen_nonneg (c_array extent_codec (m_extents m))).
  pose proof (zlen_nonneg (c_array group_codec (m_groups m))). lia.
Qed.
(** An entry of the extent table. *)
Lemma exported_extent x : x ∈ m_extents m →
  c_wf extent_codec x ∧ (e_target_type x = LP_TARGET_TYPE_LINEAR → e_target_source x < zlen (b_block_devices b)).
Proof using b_ok exports fits.
  intros Hx. destruct exported_parts as (_ & _ & _ & Hf).
  destruct (flattened_in _ _ _ _ _ _ _ _ Hf Hx) as (p & e & Hp & He & Ha). destruct b_ok as [Hok _].
  pose proof (proj1 (Forall_forall _ _) (bok_parts _ Hok) p Hp) as [Hes _ Hb].
  pose proof few_devices as Hfew.
  assert (Hin : e ∈ owners b) by (apply list_elem_of_bind; by exists p).
  destruct (bok_layout _ Hok) as [Hd Hi _]. pose proof (inside_u64 _ e Hd (proj1 (Forall_forall _ _) Hi e Hin)) as Hu.
  pose proof (total_elem _ _ (extent_ok_positive _ Hes) He) as Hle. unfold LP_SECTOR_SIZE in *.
  destruct e as [n d x0|n]; simpl in *.
  - case_decide; [done|]. injection Ha as <-. split; [|simpl; lia].
    refine (conj _ (conj _ (conj _ _))); simpl; first [done|lia].
  - injection Ha as <-. split; [|done]. refine (conj _ (conj _ (conj _ _))); simpl; first [done|lia].
Qed.
Lemma exported_wf : Forall (c_wf partition_codec) (m_partitions m) ∧ Forall (c_wf extent_codec) (m_extents m) ∧
  Forall (c_wf group_codec) (m_groups m) ∧ Forall (c_wf block_device_codec) (m_block_devices m).
Proof using b_ok exports fits.
  split; [apply exported_partitions_wf|]. split; [|split; [apply exported_groups_wf|]].
  - apply Forall_forall. intros x Hx. by apply exported_extent.
  - destruct exported_parts as (_ & -> & _). apply (bt_devices _ (proj2 b_ok)).
Qed.
(** The tables have fewer entries than a slot has bytes. *)
Lemma exported_counts : zlen (m_partitions m) < 2 ^ 32 ∧ zlen (m_extents m) < 2 ^ 32 ∧ zlen (m_groups m) < 2 ^ 32 ∧
  zlen (m_block_devices m) < 2 ^ 32.
Proof using b_ok exports fits.
  pose proof (gok_wf _ (bt_geometry _ (proj2 b_ok))) as (_ & _ & _ & Hmax & _). simpl in Hmax.
  destruct exported_wf as (W1 & W2 & W3 & W4). pose proof fits as H. unfold serialize_tables in H. rewrite !zlen_app in H.
  rewrite (zlen_c_array partition_codec _ W1), (zlen_c_array extent_codec _ W2), (zlen_c_array group_codec _ W3),
    (zlen_c_array block_device_codec _ W4) in H.
  change (sizeof partition_codec) with 52 in H. change (sizeof extent_codec) with 24 in H.
  change (sizeof group_codec) with 48 in H. change (sizeof block_device_codec) with 64 in H.
  pose proof (zlen_nonneg (m_partitions m)). pose proof (zlen_nonneg (m_extents m)).
  pose proof (zlen_nonneg (m_groups m)). pose proof (zlen_nonneg (m_block_devices m)). lia.
Qed.
Lemma exported_few : zlen (owners b) < 2 ^ 32.
Proof using b_ok exports fits.
  destruct exported_counts as (_ & H & _). destruct exported_parts as (_ & _ & _ & Hf).
  destruct (flattened_extents _ _ _ _ _ _ _ Hf) as [Hl _]. unfold owners, zlen in *. by rewrite <- Hl.
Qed.
Lemma session_exportable : exportable b.
Proof using b_ok exports fits.
  destruct b_ok as [Hok Ht]. split.
  - apply (bt_suffixing _ Ht).
  - apply (bok_names _ Hok).
  - apply (bt_group_names _ Ht).
  - apply (bt_names _ Ht).
  - eapply Forall_impl; [apply (bt_groups _ Ht)|]. by intros g [? _].
  - split; [apply exported_few|]. destruct exported_counts as (_ & _ & H & _). destruct exported_parts as (_ & _ & Hg & _).
    unfold zlen in *. by rewrite (Forall2_length _ _ _ Hg).
Qed.

Lemma set_entries_wf h minor np ne ng nb : c_wf header_codec h → is_u16 minor →
  c_wf header_codec (header_set_entries h minor np ne ng nb).
Proof using Type.
  intros [(W1&W2&W3&W4&W5&W6&W7&W8&W9&W10&W11) [W12 W13]] Hm.
  assert (Ht : ∀ t n, c_wf table_codec t → c_wf table_codec (table_set_entries t n)).
  { intros t n (H1 & _ & H3). refine (conj H1 (conj _ H3)). apply u32_range. }
  refine (conj (conj _ (conj _ (conj _ (conj _ (conj _ (conj _ (conj _ (conj _ (conj _ (conj _ _)))))))))) (conj _ _));
    first [done|by apply Ht].
Qed.
Lemma exported_metadata_ok : metadata_ok m.
Proof using b_ok exports fits.
  destruct exported_parts as (Hg & Hd & Hgs & Hf). destruct exported_header as (minor & _ & Hh & Ha).
  destruct exported_counts as (C1 & C2 & C3 & C4). destruct b_ok as [Hok Ht]. split.
  - apply Forall_forall. intros part Hin. destruct (proj1 (Forall_forall _ _) Ha part Hin) as [A1 A2].
    split; [apply (attributes_valid _ minor A1 A2); by rewrite Hh|].
    apply list_elem_of_lookup in Hin as [i Hi].
    destruct (exported_partition b m Hok exports exported_few i part Hi) as (pre & p & post & Hps & Hlen & [(_ & _ & Hr) _ _ _ _] & _).
    split; [done|]. destruct (flattened_group _ _ _ _ _ _ _ i part Hf Hi) as (j & q & Hj & Hgi & Hgq).
    apply group_indices_lookup in Hj as (g & Hgj & _). apply lookup_lt_Some in Hgj.
    rewrite (Forall2_length _ _ _ Hgs) in Hgj. rewrite Hgi. unfold zlen in *. rewrite u32_small by lia. lia.
  - apply Forall_forall. intros x Hx. rewrite Hd. by apply exported_extent.
  - rewrite Hh. simpl. unfold zlen in *. by rewrite !u32_small by lia.
  - apply exported_wf.
  - destruct (bt_super _ Ht) as (super & Hs & Hb1 & Hb2). exists super. unfold GetMetadataSuperBlockDevice.
    rewrite Hd, Hg. split; [done|]. pose proof (u32_range (LP_PARTITION_RESERVED_BYTES +
       u32 (u32 (LP_METADATA_GEOMETRY_SIZE + u32 (metadata_max_size (b_geometry b) * metadata_slot_count (b_geometry b))) * 2))).
    unfold GetTotalMetadataSize in *. rewrite u64_small by lia. done.
Qed.

(** What a client exports can be written, and read back. *)
Lemma exported_serializable : serializable m.
Proof using b_ok exports fits.
  destruct exported_parts as (Hg & _). destruct exported_header as (minor & Hm & Hh & _).
  destruct (bt_header _ (proj2 b_ok)) as [H1 H2 H3 H4 H5 H6 H7].
  pose proof (gok_wf _ (bt_geometry _ (proj2 b_ok))) as (_ & _ & _ & Hmax & _). simpl in Hmax.
  unfold LP_METADATA_VERSION_FOR_UPDATED_ATTR, LP_METADATA_MINOR_VERSION_MAX in *.
  split; rewrite ?Hh; try done.
  - apply set_entries_wf; [done|lia].
  - simpl. unfold LP_METADATA_MINOR_VERSION_MAX. lia.
  - simpl. rewrite H5. unfold expected_struct_size, LP_METADATA_VERSION_FOR_EXPANDED_HEADER. simpl.
    repeat case_decide; try done; lia.
  - apply exported_metadata_ok.
  - rewrite Hg. lia.
Qed.
End Exported.
