(* ===== verification/LayoutSession.v ===== *)
(** * Building a layout ([liblp/super_layout_builder.cpp])

    A [SuperLayoutBuilder] that was opened on a table without extents, and to which images
    were added, has what [GetImageLayout] needs. *)
From S2P Require Import Prelude Bytes LpFormat LpUtility Device LpReader LpWriter LpImage LpCrash LpExtent.
From S2P Require Import LpBuilder LpAlloc LpFree LpGrow LpInvariant LpResize LpExport LpRoundtrip DmMap LpReach.
From S2P Require Import LpLayout LayoutTiles LayoutSuper.

(** Every partition with extents has an image, and nothing else is on the one device. *)
Record layout_session (s : SuperLayoutBuilder) (b : MetadataBuilder) (dv : LpMetadataBlockDevice) : Prop := {
  ls_open : lb_builder s = Some b;
  ls_ok : session_ok b;
  ls_device : b_block_devices b = [dv];
  ls_linear : linear (owners b);
  ls_images : Forall (λ p, pt_extents p = [] ∨ is_Some (lb_image_map s !! pt_name p)) (b_partitions b);
}.

(** ** Opening a table *)

(** A table for partitions on one device with regular alignments.  A name whose array ends
    without NUL is taken whole, so a table can have names with NUL inside. *)
Record bare_table (m : LpMetadata) (dv : LpMetadataBlockDevice) : Prop := {
  et_ok : metadata_ok m;
  et_header : c_wf header_codec (m_header m);
  et_geometry : geometry_ok (m_geometry m);
  et_blocks : blocks_ok (logical_block_size (m_geometry m));
  et_device : m_block_devices m = [dv];
  et_made : device_made (logical_block_size (m_geometry m)) dv;
  et_names : Forall (λ p, no_nul (GetPartitionName p)) (m_partitions m);
  et_groups : Forall (λ g, no_nul (GetPartitionGroupName g)) (m_groups m);
}.

Lemma for_each_keeps {S A} (I : S → Prop) (f : A → IO S unit) l s s' :
  (∀ a s s', a ∈ l → I s → f a s = (Ret (), s') → I s') → I s → for_each f l s = (Ret (), s') → I s'.
Proof.
  revert s. induction l as [|a l IH]; intros s Hf Hs; cbn [for_each]; [by intros [= <-]|].
  intros ([] & s1 & E1 & E2)%io_bind_Ret. eapply IH; [|eapply Hf; [left|exact Hs|exact E1]|exact E2].
  intros. eapply Hf; [by right|done..].
Qed.
Lemma replaced_same b name p : FindPartition b name = Some p → replaced name p b = b.
Proof.
  intros (pre & post & E & Hpn & Hpre)%FindPartition_split.
  unfold replaced, update_partition. rewrite E, update_named_split, <- E by done. by destruct b.
Qed.

(** A builder whose partitions are empty. *)
Record fresh (dv : LpMetadataBlockDevice) (b : MetadataBuilder) : Prop := {
  fr_ok : session_ok b;
  fr_device : b_block_devices b = [dv];
  fr_empty : Forall (λ p, pt_extents p = []) (b_partitions b);
}.
Lemma AddGroup_fresh dv name size b b' : fresh dv b → no_nul name → is_u64 size →
  AddGroup name size b = (Ret (), b') → fresh dv b'.
Proof.
  intros [[Hok Ht] Hd He] Hn Hs E. pose proof (AddGroup_typed name size b Ht Hn Hs) as H. rewrite E in H.
  destruct H as (gs & -> & Ht'). split; [split; [by apply builder_ok_groups|done]|done|done].
Qed.
Lemma AddPartition_fresh dv name group attributes b b' : fresh dv b → no_nul name →
  AddPartition name group attributes b = (Ret (), b') →
  fresh dv b' ∧ FindPartition b' name = Some (NewPartition name group attributes).
Proof.
  intros [[Hok Ht] Hd He] Hn E. pose proof (AddPartition_ok name group attributes b Hok) as H. rewrite E in H.
  destruct H as (Hne & _ & Hg & Hok' & _ & Hfind & _). split; [|done]. unfold AddPartition in E. inv_state.
  split; [split; [done|]|done|apply Forall_app; by split; [|constructor]].
  apply builder_typed_partitions; [done|..]; apply Forall_app; (split; [apply Ht|]); constructor; try done.
  by apply FindGroup_in.
Qed.

Section Open.
Context (m : LpMetadata) (dv : LpMetadataBlockDevice) (table : bare_table m dv) (no_extents : m_extents m = []).

Lemma initial_fresh h : header_typed h → fresh dv (mkBuilder (m_geometry m) h [] [] (m_block_devices m) false).
Proof using table.
  intros Hh. destruct table as [Hm Hwf Hg [Hb1 [Hb2 Hb3]] Hd [H1 H2 H3 H4 H5] _ _]. split; [split|exact Hd|constructor].
  - split; simpl; rewrite ?Hd; try constructor; try done; try (by constructor).
  - destruct (mok_super _ Hm) as (super & Hs & Hle). unfold GetMetadataSuperBlockDevice in Hs. rewrite Hd in Hs. injection Hs as <-.
    destruct H1 as [Hf Hsz _]. pose proof (Z.mul_div_le (bd_size dv) LP_SECTOR_SIZE ltac:(done)) as Hdiv.
    unfold sectors, LP_SECTOR_SIZE in *. rewrite u64_small in Hle by lia.
    split; simpl; rewrite ?Hd; try done; try (by constructor).
    exists dv. split; [done|]. unfold LP_SECTOR_SIZE. lia.
Qed.
Lemma init_part_fresh p b b' : p ∈ m_partitions m → fresh dv b → init_partition m p b = (Ret (), b') → fresh dv b'.
Proof using table no_extents.
  intros Hp Hb E. assert (Hz : p_num_extents p = 0).
  { destruct (proj1 (Forall_forall _ _) (mok_partitions _ (et_ok _ _ table)) p Hp) as (_ & Hle & _).
    destruct (mok_wf _ (et_ok _ _ table)) as (Wp & _). rewrite no_extents in Hle.
    destruct (proj1 (Forall_forall _ _) Wp p Hp) as (_ & _ & Hf & Hn & _). simpl in Hf, Hn. change (zlen []) with 0 in Hle. lia. }
  unfold init_partition in E. apply io_bind_Ret in E as (g & b1 & E1 & E). apply lift_Ret in E1 as [_ ->].
  apply io_bind_Ret in E as ([] & b2 & E2 & E).
  destruct (AddPartition_fresh dv _ _ _ _ _ Hb (proj1 (Forall_forall _ _) (et_names _ _ table) p Hp) E2) as [Hf Hfind].
  unfold ImportExtents in E. rewrite Hz in E. cbn [Z.to_nat import_extents] in E.
  rewrite (io_bind_eq _ _ _ _ b2) in E by (unfold deref, mbind, io_mbind, get, lift; by rewrite Hfind).
  rewrite (io_bind_eq _ _ _ _ b2) in E by done. injection E as <-.
  by rewrite (replaced_same _ _ _ Hfind : update_partition _ _ _ = _).
Qed.
Lemma New_metadata_fresh b : New_metadata m None = Ret b → fresh dv b.
Proof using table no_extents.
  unfold New_metadata. intros H. case_match eqn:E. case_match; [|done..]. injection H as ->. subst.
  apply io_bind_Ret in E as ([] & b1 & E & E'). injection E' as E'; subst. unfold Init_metadata in E.
  apply io_bind_Ret in E as ([] & b2 & E1 & E). injection E1 as <-. apply io_bind_Ret in E as ([] & b3 & E2 & E).
  apply io_bind_Ret in E as ([] & b4 & E3 & E).
  assert (H3 : fresh dv b3).
  { pose proof (initial_fresh _ empty_header_typed) as H0. case_decide as Hv; injection E2 as <-; [|exact H0].
    set (b0 := mkBuilder _ _ _ _ _ _). destruct H0 as [[Hok Ht] Hd He]. fold b0 in Hok, Ht.
    destruct (RequireExpanded_ok b0 Hok Ht) as [Hok' Ht']. destruct (RequireExpanded_typed b0 Ht) as [Hh Hsz].
    split; [split; [by apply builder_ok_header|apply builder_typed_header; [done|]]|exact Hd|exact He].
    destruct Hh as [Hwf Hm Hj Hn Hs Htl Hes]. split; try done.
    destruct Hwf as [Hv1 [_ Hr]]. split; [exact Hv1|]. split; [|exact Hr]. apply (et_header _ _ table). }
  eapply (for_each_keeps (fresh dv)); [|eapply (for_each_keeps (fresh dv)); [|exact H3|exact E3]|exact E].
  - intros p s s' Hp Hs. by apply init_part_fresh.
  - intros g s s' Hg Hs. destruct (mok_wf _ (et_ok _ _ table)) as (_ & _ & Wg & _).
    destruct (proj1 (Forall_forall _ _) Wg g Hg) as (_ & _ & Hmax). apply AddGroup_fresh; [done|apply (proj1 (Forall_forall _ _) (et_groups _ _ table) g Hg)|done].
Qed.
End Open.

(** [Open] begins a session. *)
Lemma Open_metadata_session m dv s s' : bare_table m dv → Open_metadata m s = (Ret (), s') →
  ∃ b, layout_session s' b dv.
Proof.
  intros Ht E. unfold Open_metadata in E. inv_io. unfold assign_builder in E.
  destruct (New_metadata m None) as [b| |] eqn:En; [|done..]. injection E as <-.
  destruct (New_metadata_fresh m dv Ht E1 b En) as [Hok Hd He]. exists b. split; simpl; try done.
  - unfold linear, owners, all_extents. apply Forall_bind. eapply Forall_impl; [exact He|]. intros p Hp. simpl in *. rewrite Hp. constructor.
  - eapply Forall_impl; [exact He|]. by left.
Qed.

(** ** Adding images *)

Lemma emplace_known {A} k (a : A) m n : is_Some (m !! n) ∨ n = k → is_Some (emplace k a m !! n).
Proof.
  unfold emplace. destruct (m !! k) eqn:E; intros [H| ->]; [done|by rewrite E| |].
  - destruct (decide (n = k)) as [->|Hne]; [by rewrite lookup_insert_eq|by rewrite lookup_insert_ne].
  - by rewrite lookup_insert_eq.
Qed.
(** A failed call changes nothing, a successful one keeps the session. *)
Lemma Layout_AddPartition_session fetcher name image size s b dv : layout_session s b dv → is_u64 size →
  match Layout_AddPartition fetcher name image size s with
  | (Ret _, s') => ∃ b', layout_session s' b' dv ∧ b_geometry b' = b_geometry b ∧
      lb_image_map s' = emplace name image (lb_image_map s)
  | (Reject, s') => s' = s
  | (Crash, _) => False
  end.
Proof.
  intros [Ho [Hok Ht] Hd Hl Hi] Hsz. destruct s as [o im]. simpl in *. subst o. unfold Layout_AddPartition.
  destruct (FindPartition b name) as [p|] eqn:Hfind.
  2:{ unfold on_builder, mbind, io_mbind, get, lift. cbn [lb_builder]. rewrite Hfind.
      rewrite require_False by (intros H; by apply H). done. }
  rewrite (io_bind_eq _ _ _ () (mkLayoutBuilder (Some b) im)).
  2:{ unfold on_builder. cbn [lb_builder]. rewrite (io_bind_eq _ _ _ b b) by done. rewrite Hfind. done. }
  unfold on_builder, mbind, io_mbind. cbn [lb_builder lb_image_map].
  pose proof (Resize_typed fetcher name size b p Hok Ht Hfind Hsz) as Hr.
  destruct (ResizePartition fetcher name size [] b) as [[u| |] b']; [|by subst b'|done].
  destruct Hr as (Hok' & Ht' & g & size' & q & [-> _ Hq _ _ _ _ Hlin]). exists (replaced name q b). split; [|done].
  destruct (owners_split b name p Hfind) as (rest & Hown & Hown').
  assert (Hqn : pt_name q = name) by (by apply FindPartition_split in Hq as (_ & _ & _ & -> & _)).
  split; try done.
  - unfold linear in *. rewrite Hown'. rewrite Hown in Hl. apply Forall_app in Hl as [Hl1 Hl2]. apply Forall_app. split; [by apply Hlin|done].
  - apply Forall_update_named.
    + eapply Forall_impl; [exact Hi|]. intros r [Hr|Hr]; [by left|right]. apply emplace_known. by left.
    + right. apply emplace_known. by right.
Qed.

(** ** The layout of a session *)

Lemma flattened_names n indices k ps parts es : flattened false n indices k ps parts es →
  Forall (λ p, pt_name p ≠ [] ∧ no_nul (pt_name p)) ps →
  Forall2 (λ p part, GetPartitionName part = pt_name p ∧ p_num_extents part = u32 (zlen (pt_extents p))) ps parts.
Proof.
  induction 1 as [|k p ps xs parts es i Hlen _ _ _ _ IH]; [constructor|]. intros [[_ Hn] Hps]%Forall_cons.
  constructor; [|by apply IH]. split; [|done]. by apply name_roundtrip.
Qed.
(** The size that [GetTotalMetadataSize] computes, where it does not wrap around. *)
Lemma total_is_region m : 0 ≤ metadata_max_size (m_geometry m) → 0 ≤ metadata_slot_count (m_geometry m) → region_end m < 2 ^ 32 →
  GetTotalMetadataSize (metadata_max_size (m_geometry m)) (metadata_slot_count (m_geometry m)) = region_end m.
Proof.
  intros H1 H2 Hr. unfold region_end in *. unfold GetTotalMetadataSize, LP_PARTITION_RESERVED_BYTES, LP_METADATA_GEOMETRY_SIZE.
  set (x := metadata_max_size (m_geometry m) * metadata_slot_count (m_geometry m)) in *.
  assert (0 ≤ x) by (unfold x; nia). rewrite !(u32_small x), !(u32_small (4096 + x)) by lia.
  rewrite (u32_small ((4096 + x) * 2)) by lia. rewrite u32_small by lia. lia.
Qed.
Lemma tables_fit m : copy_size m ≤ metadata_max_size (m_geometry m) → 0 ≤ header_size (m_header m) →
  zlen (serialize_tables m) ≤ metadata_max_size (m_geometry m).
Proof.
  unfold copy_size. intros Hc Hh. pose proof (Z.div_mod (header_size (m_header m) + zlen (serialize_tables m) + 4095) 4096 ltac:(done)).
  pose proof (Z.mod_pos_bound (header_size (m_header m) + zlen (serialize_tables m) + 4095) 4096 ltac:(done)). lia.
Qed.

Lemma session_input s b dv m : layout_session s b dv → Export b = Ret m → region_end m < 2 ^ 32 →
  copy_size m ≤ metadata_max_size (m_geometry m) → layout_input s b m dv.
Proof.
  intros [Ho Hs Hd Hl Hi] Hx Hr Hc. destruct (exported_parts b m Hs Hx) as (Hg & Hdm & _ & Hf).
  destruct (exported_header b m Hs Hx) as (minor & _ & Hh & _). pose proof Hs as [Hok Ht].
  assert (Hfits : zlen (serialize_tables m) ≤ metadata_max_size (b_geometry b)).
  { rewrite <- Hg. apply tables_fit; [done|]. rewrite Hh. simpl. rewrite (ht_size _ (bt_header _ Ht)).
    destruct (expected_struct_size_cases (b_header b)); lia. }
  split; try done.
  - by apply (exported_few b m Hs Hx).
  - by apply (exported_serializable b m Hs Hx).
  - rewrite Hg. apply Ht.
  - destruct (bt_super _ Ht) as (super & Hsu & Hle & _). rewrite Hd in Hsu. injection Hsu as <-.
    rewrite <- Hg in Hle. rewrite total_is_region in Hle; [done| | |done];
      pose proof (gok_wf _ (bt_geometry _ Ht)) as (_ & _ & _ & Hmax & Hsl & _); rewrite Hg; simpl in *; lia.
  - pose proof (flattened_names _ _ _ _ _ _ Hf (bt_names _ Ht)) as Hnames. clear -Hnames Hi.
    induction Hnames as [|p part ps parts [Hn Hz] _ IH]; [constructor|]. apply Forall_cons in Hi as [Hp Hi].
    constructor; [|by apply IH]. rewrite Hn, Hz. destruct Hp as [->|Hp]; [by left|by right].
Qed.

(** Images for partitions, one after the other. *)
Definition add_images (fetcher : IPropertyFetcher) (images : list (bytes * bytes * Z)) : IO SuperLayoutBuilder unit :=
  for_each (λ '(partition, image, size), Layout_AddPartition fetcher partition image size) images.
Lemma add_images_session fetcher images s b dv : layout_session s b dv → Forall (λ '(_, _, size), is_u64 size) images →
  match add_images fetcher images s with
  | (Crash, _) => False
  | (_, s') => ∃ b', layout_session s' b' dv ∧ b_geometry b' = b_geometry b
  end.
Proof.
  unfold add_images. intros Hs Hi. revert s b Hs. induction Hi as [|[[p im] size] images Hsize _ IH]; intros s b Hs; [by exists b|].
  cbn [for_each]. unfold mbind, io_mbind. pose proof (Layout_AddPartition_session fetcher p im size s b dv Hs Hsize) as H.
  destruct (Layout_AddPartition fetcher p im size s) as [[u| |] s1]; [|subst; by exists b|done].
  destruct H as (b1 & Hs1 & Hg & _). specialize (IH s1 b1 Hs1). destruct (for_each _ images s1) as [[v| |] s2]; [..|done].
  - destruct IH as (b2 & Hs2 & Hg2). exists b2. split; [done|congruence].
  - destruct IH as (b2 & Hs2 & Hg2). exists b2. split; [done|congruence].
Qed.
