(* ===== verification/LayoutSparse.v ===== *)
(** * The sparse file of a layout ([fastboot/super_flash_helper.cpp])

    The file that [GetSparseLayout] makes says of every byte of the super partition what the
    layout says. *)
From S2P Require Import Prelude Bytes Device LpFormat LpUtility LpReader LpWriter LpExtent LpBuilder LpAlloc.
From S2P Require Import LpExport LpLayout LayoutTiles.
From S2P Require Import SparseFormat BackedBlock BlockList SparseOutput SparseFile SparseImage SparseRead.
From S2P Require Import SparseRoundtrip SparseWrite SuperFlash.
From coqutil Require Import Byte.

(** Insertion keeps what holds of all backings. *)
Lemma glue_from bsz (P : backing → Prop) a l : Forall (λ c, P (ck_from c)) (a :: l) → Forall (λ c, P (ck_from c)) (glue bsz a l).
Proof.
  intros [Ha Hl]%Forall_cons. destruct l as [|b l]; simpl; [by constructor|]. apply Forall_cons in Hl as [Hb Hl].
  unfold merge_val. case_match eqn:E; [|by repeat constructor]. revert E. case_match; [|done]. intros [= <-]. by constructor.
Qed.
Lemma insert_after_from bsz (P : backing → Prop) v x l : P (ck_from v) → P (ck_from x) → Forall (λ c, P (ck_from c)) l →
  Forall (λ c, P (ck_from c)) (insert_after bsz v x l).
Proof.
  intros Hv Hx Hl. revert x Hx. induction Hl as [|y l Hy Hl IH]; intros x Hx; cbn [insert_after].
  - apply glue_from. constructor; [done|]. apply glue_from. by constructor.
  - case_decide; [constructor; [done|by apply IH]|]. apply glue_from. constructor; [done|].
    apply glue_from. constructor; [done|by constructor].
Qed.
Lemma insert_from bsz (P : backing → Prop) v l : Forall (λ c, P (ck_from c)) (v :: l) → Forall (λ c, P (ck_from c)) (insert_chunk bsz v l).
Proof.
  intros [Hv Hl]%Forall_cons. destruct l as [|x l]; simpl; [by constructor|]. apply Forall_cons in Hl as [Hx Hl].
  case_decide; [by repeat constructor|by apply insert_after_from].
Qed.

Section Layout.
Context (calloc_ok : heap → bool) (memory_left : ∀ h, calloc_ok h = true).
Context (image_fds : gmap bytes Z) (blob_at : bytes → Z).

(** Where byte [i] of an extent comes from; [None] is left as it is. *)
Definition extent_source (e : SuperImageExtent) (i : Z) : option source :=
  match se_type e with
  | DATA => Some (FromMemory (blob_at (se_blob e) + i))
  | PARTITION => (λ fd, FromFd fd (se_image_offset e + i)) <$> image_fds !! se_image_name e
  | ZERO => Some (FromFill 0 (i mod 4))
  | INVALID | DONTCARE => None
  end.
Fixpoint layout_source (L : list SuperImageExtent) (pos : Z) : option source :=
  match L with
  | [] => None
  | e :: L => if decide (se_offset e ≤ pos < se_end e) then extent_source e (pos - se_offset e)
              else layout_source L pos
  end.
(** An extent that the sparse file can hold: it starts at a block, and if it is from an
    image then the image is open. *)
Record sparse_extent (bs : Z) (e : SuperImageExtent) : Prop := {
  sx_wf : extent_wf e;
  sx_block : (bs | se_offset e);
  sx_size : se_end e < 2 ^ 63 ∧ se_end e / bs < 2 ^ 32;
  sx_type : se_type e ≠ INVALID;
  sx_image : se_type e = PARTITION → is_Some (image_fds !! se_image_name e) ∧ 0 ≤ se_image_offset e ∧
    se_image_offset e + se_size e < 2 ^ 63;
}.
Definition zero_fill (b : backing) : Prop := ∀ v, b = BACKED_BLOCK_FILL v → v = 0.
(** What the file holds after the extents up to byte [cur]. *)
Record layout_so_far (h : heap) (s : sparse_file) (bs : Z) (done : list SuperImageExtent) (cur : Z) (l : list chunk) : Prop := {
  sf_ok : ∃ ls, list_ok h (sf_list s) ls l;
  sf_size : bbl_block_size (sf_list s) = bs ∧ sf_block_size s = bs;
  sf_ends : Forall (λ c, ck_end bs c ≤ cur) l;
  sf_fills : Forall (λ c, zero_fill (ck_from c)) l;
  sf_content pos : content bs l pos = layout_source done pos;
}.

Lemma layout_source_snoc c0 done cur e pos : tiles c0 done cur → cur ≤ se_offset e →
  layout_source (done ++ [e]) pos =
  if decide (se_offset e ≤ pos < se_end e) then extent_source e (pos - se_offset e) else layout_source done pos.
Proof using Type.
  revert c0. induction done as [|d done IH]; intros c0; cbn [app layout_source]; [done|].
  intros (Hd & Hs & Ht) Hle. pose proof (tiles_le _ _ _ Ht) as Hc. rewrite (IH _ Ht Hle).
  destruct (decide (se_offset d ≤ pos < se_end d)) as [H1|H1]; [|done].
  destruct (decide (se_offset e ≤ pos < se_end e)) as [H2|H2]; [lia|done].
Qed.
Lemma tiles_snoc c0 done cur e : tiles c0 done cur → se_offset e = cur → 0 < se_size e → tiles c0 (done ++ [e]) (se_end e).
Proof using Type.
  revert c0. induction done as [|d done IH]; intros c0; cbn [app tiles].
  - intros -> <- Hs. done.
  - intros (Hd & Hs & Ht) He Hse. split; [done|]. split; [done|]. by apply IH.
Qed.

(** One more block of the list. *)
Lemma add_block_so_far h s bs done cur l e data : layout_so_far h s bs done cur l → 0 < bs → (4 | bs) →
  tiles 0 done cur → se_offset e = cur → sparse_extent bs e → zero_fill data →
  match data with BACKED_BLOCK_FILE _ _ => False | BACKED_BLOCK_FD _ o => 0 ≤ o ∧ o + se_size e < 2 ^ 63 | _ => True end →
  (∀ i, 0 ≤ i < se_size e → extent_source e i = Some (source_at (mkChunk (se_offset e / bs) (se_size e) data) i)) →
  ∃ s' h' l', with_list s (λ bbl, backed_block_add calloc_ok bbl data (se_size e) (se_offset e / bs) h) = Ret (s', h') ∧
    layout_so_far h' s' bs (done ++ [e]) (se_end e) l' ∧ sf_len s' = sf_len s.
Proof using memory_left.
  intros [[ls Hl] [Hsz Hsz'] Hends Hfills Hcont] Hbs H4 Ht Hcur [[Hwo Hws Hwe] Hblock [He63 He32] _ _] Hz Hd Hsrc.
  set (v := mkChunk (se_offset e / bs) (se_size e) data).
  assert (Hstart : ck_start bs v = se_offset e).
  { unfold ck_start, v. simpl. destruct Hblock as [k Hk]. rewrite Hk. by rewrite Z.div_mul by lia. }
  assert (Hend : ck_end bs v = se_end e) by (unfold ck_end; rewrite Hstart; done).
  assert (Hv : chunk_ok bs v).
  { unfold se_end in *. split; simpl; [lia| |].
    - split; [apply Z.div_pos; lia|]. destruct Hblock as [k Hk]. rewrite Hk, Z.div_mul by lia.
      rewrite Hk, Z.add_comm, Z.div_add in He32 by lia. lia.
    - by destruct data. }
  assert (Hap : apart bs v l) by (apply (apart_behind bs v l cur); [done|rewrite Hstart; lia]).
  destruct (backed_block_add_ok calloc_ok h (sf_list s) ls l data (se_size e) (se_offset e / bs) Hl (memory_left h))
    as (bbl' & h' & ls' & E & Hl' & Hbb & Hc & _); rewrite ?Hsz; try done.
  { fold v. rewrite Hend. done. }
  exists (sf_set_list s bbl'), h', (insert_chunk bs v l). unfold with_list. rewrite E. split; [done|]. rewrite Hsz in *. fold v in Hl', Hc.
  split; [|done]. pose proof (lk_laid_out _ _ _ _ Hl) as Hlo. pose proof (lk_ends _ _ _ _ Hl) as H63. rewrite Hsz in Hlo, H63.
  assert (H63' : Forall (λ c, ck_end bs c < 2 ^ 63) (v :: l)) by (constructor; [rewrite Hend; done|done]).
  split.
  - by exists ls'.
  - done.
  - apply insert_ends; try done. constructor; [rewrite Hend; lia|]. eapply Forall_impl; [exact Hends|]. simpl. intros c Hc'.
    unfold se_end. lia.
  - apply insert_from. by constructor.
  - intros pos. rewrite Hc, Hstart, Hend, (layout_source_snoc 0 done cur e pos Ht) by lia. rewrite <- Hcont.
    destruct (decide (se_offset e ≤ pos < se_end e)) as [Hin|]; [|done]. rewrite Hsrc; [done|]. unfold se_end in Hin. lia.
Qed.
Lemma layout_source_beyond c0 done cur pos : tiles c0 done cur → cur ≤ pos → layout_source done pos = None.
Proof using Type.
  revert c0. induction done as [|d done IH]; intros c0; cbn [layout_source]; [done|].
  intros (Hd & Hs & Ht) Hle. pose proof (tiles_le _ _ _ Ht). rewrite decide_False by lia. by eapply IH.
Qed.
Lemma add_extent_so_far h s bs done cur l e : layout_so_far h s bs done cur l → 0 < bs → (4 | bs) →
  tiles 0 done cur → se_offset e = cur → sparse_extent bs e →
  ∃ s' h' l', add_extent calloc_ok blob_at image_fds bs s e h = Ret (s', h') ∧
    layout_so_far h' s' bs (done ++ [e]) (se_end e) l' ∧ sf_len s' = sf_len s.
Proof using memory_left.
  intros Hso Hbs H4 Ht Hcur Hx. pose proof Hx as [[Hwo Hws Hwe] Hblock [He63 He32] Htype Himg].
  unfold add_extent. rewrite CHECK_True by lia. cbn [mbind outcome_mbind].
  assert (Hblk : se_offset e / bs < 2 ^ 32).
  { eapply Z.le_lt_trans; [|exact He32]. apply Z.div_le_mono; [done|]. unfold se_end. lia. }
  rewrite require_True by lia. cbn [mbind outcome_mbind]. cbv zeta.
  destruct (se_type e) eqn:E; [done|..].
  - apply (add_block_so_far h s bs done cur l e (BACKED_BLOCK_DATA (blob_at (se_blob e)))); try done.
    intros i Hi. unfold extent_source. by rewrite E.
  - destruct (Himg eq_refl) as ([fd Hfd] & Ho & Hoe). rewrite Hfd. cbn [access mbind outcome_mbind].
    apply (add_block_so_far h s bs done cur l e (BACKED_BLOCK_FD fd (se_image_offset e))); try done.
    intros i Hi. unfold extent_source. by rewrite E, Hfd.
  - apply (add_block_so_far h s bs done cur l e (BACKED_BLOCK_FILL 0)); try done; [by intros v [= <-]|].
    intros i Hi. unfold extent_source. by rewrite E.
  - exists s, h, l. split; [done|]. split; [|done]. destruct Hso as [Hl Hsz Hends Hfills Hcont]. split; try done.
    + eapply Forall_impl; [exact Hends|]. simpl. intros c Hc. unfold se_end. lia.
    + intros pos. rewrite (layout_source_snoc 0 done cur e pos Ht), Hcont by lia. case_decide as Hin; [|done].
      rewrite (layout_source_beyond 0 done cur) by (done || lia). unfold extent_source. by rewrite E.
Qed.
Lemma add_layout_so_far bs L : 0 < bs → (4 | bs) → Forall (sparse_extent bs) L → ∀ h s done cur last l,
  layout_so_far h s bs done cur l → tiles 0 done cur → tiles cur L last →
  ∃ s' h' l', add_layout calloc_ok blob_at image_fds bs L s h = (Ret s', h') ∧
    layout_so_far h' s' bs (done ++ L) last l' ∧ sf_len s' = sf_len s.
Proof using memory_left.
  intros Hbs H4 HL. induction HL as [|e L He _ IH]; intros h s done cur last l Hso Hd Ht; cbn [add_layout].
  - cbn [tiles] in Ht. subst last. exists s, h, l. by rewrite app_nil_r.
  - destruct Ht as (Hoff & Hsz & Ht).
    destruct (add_extent_so_far h s bs done cur l e Hso Hbs H4 Hd Hoff He) as (s1 & h1 & l1 & E1 & Hso1 & Hlen1).
    rewrite E1. destruct (IH h1 s1 (done ++ [e]) (se_end e) last l1 Hso1 (tiles_snoc _ _ _ _ Hd Hoff Hsz) Ht)
      as (s2 & h2 & l2 & E2 & Hso2 & Hlen2).
    exists s2, h2, l2. split; [done|]. rewrite <- (assoc_L (++)) in Hso2. split; [done|congruence].
Qed.

Lemma tiles_last c0 L last e : tiles c0 L last → list.last L = Some e → se_end e = last.
Proof using Type.
  revert c0. induction L as [|d L IH]; intros c0; [done|]. cbn [tiles]. intros (Hd & Hs & Ht).
  destruct L as [|d' L]; [intros [= <-]; exact Ht|]. intros Hl. by eapply IH.
Qed.
(** The whole file: each byte comes from where the layout has it. *)
Lemma sparse_layout_ok bs L last h : 0 < bs → (4 | bs) → Forall (sparse_extent bs) L → tiles 0 L last →
  ∃ s' h' l, add_layout calloc_ok blob_at image_fds bs L (sparse_file_new bs last) h = (Ret s', h') ∧
    layout_so_far h' s' bs L last l ∧ sf_len s' = last.
Proof using memory_left.
  intros Hbs H4 HL Ht.
  destruct (add_layout_so_far bs L Hbs H4 HL h (sparse_file_new bs last) [] 0 last []) as (s' & h' & l & E & Hso & Hlen).
  - split; [|done|constructor|constructor|done]. exists []. split; simpl; [|lia|done|split; constructor|constructor].
    split; simpl; [exists []; split; constructor|constructor|constructor|done|lia].
  - done.
  - done.
  - exists s', h', l. done.
Qed.
End Layout.

(** ** From sources to bytes *)

Lemma lookup_sub c o n i : (i < Z.to_nat n)%nat → sub c o n !! i = c !! (Z.to_nat o + i)%nat.
Proof. intros Hi. unfold sub. by rewrite lookup_take_lt, lookup_drop. Qed.
Lemma lookup_padded c off n i : 0 ≤ off → 0 ≤ i < n → padded c off n !! Z.to_nat i = Some (default Byte.x00 (c !! Z.to_nat (off + i))).
Proof.
  intros Ho Hi. unfold padded. rewrite lookup_sub by lia. unfold zero_extend.
  replace (Z.to_nat off + Z.to_nat i)%nat with (Z.to_nat (off + i)) by lia.
  destruct (decide (Z.to_nat (off + i) < length c)%nat) as [H|H].
  - rewrite lookup_app_l by done. destruct (lookup_lt_is_Some_2 _ _ H) as [b ->]. done.
  - rewrite lookup_app_r, (lookup_ge_None_2 c) by lia. unfold zeroes. by rewrite lookup_replicate_2 by lia.
Qed.

Section Bytes.
Context (image_fds : gmap bytes Z) (blob_at : bytes → Z) (images : bytes → bytes) (byte_of : source → byte).
Abbreviation extent_source := (extent_source image_fds blob_at).
Abbreviation layout_source := (layout_source image_fds blob_at).
Abbreviation sparse_extent := (sparse_extent image_fds).

(** What memory and the open images hold. *)
Record memory_ok (L : list SuperImageExtent) : Prop := {
  mo_blobs e i : e ∈ L → se_type e = DATA → 0 ≤ i < se_size e →
    se_blob e !! Z.to_nat i = Some (byte_of (FromMemory (blob_at (se_blob e) + i)));
  mo_images name fd o : image_fds !! name = Some fd → 0 ≤ o →
    byte_of (FromFd fd o) = default Byte.x00 (images name !! Z.to_nat o);
  mo_fill v i : byte_of (FromFill v i) = word_byte v i;
}.

Lemma extent_byte L bs e i : memory_ok L → e ∈ L → sparse_extent bs e → 0 ≤ i < se_size e →
  match extent_bytes images e with
  | Some d => ∃ src, extent_source e i = Some src ∧ d !! Z.to_nat i = Some (byte_of src)
  | None => extent_source e i = None
  end.
Proof using Type.
  intros [Hb Hi Hf] He [_ _ _ Ht Himg] Hr. unfold extent_bytes, LayoutSparse.extent_source. destruct (se_type e) eqn:E; try done.
  - eexists. split; [done|]. by apply Hb.
  - destruct (Himg eq_refl) as ([fd Hfd] & Ho & _). rewrite Hfd. eexists. split; [done|].
    rewrite lookup_padded by lia. by rewrite (Hi _ _ _ Hfd) by lia.
  - eexists. split; [done|]. rewrite Hf. unfold zeroes. rewrite lookup_replicate_2 by lia. f_equal.
    pose proof (Z.mod_pos_bound i 4 ltac:(done)).
    assert (i mod 4 = 0 ∨ i mod 4 = 1 ∨ i mod 4 = 2 ∨ i mod 4 = 3) as [-> |[-> |[-> | ->]]] by lia; by vm_compute.
Qed.
Lemma layout_source_at cur L last e i : tiles cur L last → e ∈ L → 0 ≤ i < se_size e →
  layout_source L (se_offset e + i) = extent_source e i.
Proof using Type.
  revert cur. induction L as [|d L IH]; intros cur; [by intros _ ?%not_elem_of_nil|]. intros (Hd & Hs & Ht) [->|Hin]%elem_of_cons Hi;
    cbn [LayoutSparse.layout_source].
  - rewrite decide_True by (unfold se_end; lia). f_equal. lia.
  - destruct (tiles_in _ _ _ _ Ht Hin) as (H1 & H2 & _). rewrite decide_False by lia. by eapply IH.
Qed.
(** Every byte is in an extent. *)
Lemma tiles_find cur L last pos : tiles cur L last → cur ≤ pos < last → ∃ e, e ∈ L ∧ se_offset e ≤ pos < se_end e.
Proof using Type.
  revert cur. induction L as [|d L IH]; intros cur; cbn [tiles]; [lia|]. intros (Hd & Hs & Ht) Hp.
  destruct (decide (pos < se_end d)) as [Hlt|Hge].
  - exists d. split; [left|lia].
  - destruct (IH (se_end d) Ht) as (e & He & Hr); [lia|]. exists e. split; [by right|done].
Qed.

(** The image has whole blocks: no byte of it is padding. *)
Lemma content_image bs l pos : 0 < bs → laid_out bs l → is_Some (content bs l pos) →
  image_content byte_of bs l pos = byte_of <$> content bs l pos.
Proof using Type.
  intros Hbs. induction l as [|c l IH]; [by intros _ [? ?]|]. intros (Hc & Hl & Hal)%laid_out_cons. cbn [content image_content].
  destruct (decide (ck_start bs c ≤ pos < ck_end bs c)) as [Hin|Hout].
  - intros _. rewrite decide_True.
    + unfold padded_byte. simpl. destruct (ck_from c); try done; by rewrite decide_True by (unfold ck_end in Hin; lia).
    + unfold covers, ck_end, ck_blocks in *. pose proof (Z.div_mod (ck_len c + bs - 1) bs ltac:(lia)).
      pose proof (Z.mod_pos_bound (ck_len c + bs - 1) bs Hbs). nia.
  - intros Hs. rewrite decide_False; [by apply IH|]. intros Hcov.
    apply content_Some, Exists_exists in Hs as (b & Hb & Hr). pose proof (proj1 (Forall_forall _ _) Hal b Hb) as Hle.
    unfold covers, ck_end, ck_blocks, ck_start in *. pose proof (Z.div_mod (ck_len c + bs - 1) bs ltac:(lia)).
    pose proof (Z.mod_pos_bound (ck_len c + bs - 1) bs Hbs). pose proof (cok_len _ _ Hc).
    assert (ck_block c + (ck_len c + bs - 1) / bs ≤ ck_block b); [|nia].
    assert ((ck_len c + bs - 1) / bs * bs < ck_len c + bs) by lia. nia.
Qed.

(** An extent of whole blocks. *)
Definition whole (bs : Z) (e : SuperImageExtent) : Prop := (bs | se_offset e) ∧ (bs | se_end e).
Lemma extent_source_None e i j : extent_source e i = None → extent_source e j = None.
Proof using Type. unfold LayoutSparse.extent_source. destruct (se_type e); try done. by rewrite !fmap_None. Qed.
Lemma layout_source_block bs L p q : 0 < bs → Forall (whole bs) L → p / bs = q / bs →
  layout_source L p = None → layout_source L q = None.
Proof using Type.
  intros Hbs HL Hpq. induction HL as [|e L [[a Ha] [k Hk]] _ IH]; [done|]. cbn [LayoutSparse.layout_source].
  pose proof (Z.div_mod p bs ltac:(lia)) as Hp. pose proof (Z.mod_pos_bound p bs Hbs).
  pose proof (Z.div_mod q bs ltac:(lia)) as Hq. pose proof (Z.mod_pos_bound q bs Hbs). rewrite <- Hpq in Hq.
  assert (Hin : se_offset e ≤ p < se_end e ↔ se_offset e ≤ q < se_end e).
  { rewrite Ha, Hk. set (t := p / bs) in *.
    assert (∀ z x, 0 ≤ x - bs * t < bs → z * bs ≤ x ↔ z ≤ t) as Hz by (intros z x Hx; split; nia).
    rewrite (Hz a p), (Hz a q) by lia.
    assert (p < k * bs ↔ q < k * bs); [|tauto]. pose proof (Hz k p ltac:(lia)). pose proof (Hz k q ltac:(lia)). lia. }
  destruct (decide (se_offset e ≤ p < se_end e)) as [H1|H1].
  - rewrite decide_True by tauto. apply extent_source_None.
  - rewrite decide_False by tauto. done.
Qed.
Lemma image_hole h s bs L cur l pos : 0 < bs → layout_so_far image_fds blob_at h s bs L cur l → Forall (whole bs) L →
  content bs l pos = None → image_content byte_of bs l pos = None.
Proof using Type.
  intros Hbs [(ls & Hl) [Hsz _] _ _ Hcont] HL Hnone.
  pose proof (lo_chunks _ _ (lk_laid_out _ _ _ _ Hl)) as Hok. rewrite Hsz in Hok.
  assert (Hfree : Forall (λ c, ¬ covers bs c pos) l).
  { apply Forall_forall. intros c Hc Hcov. pose proof (cok_len _ _ (proj1 (Forall_forall _ _) Hok c Hc)) as Hlen.
    assert (Hout : ¬ (ck_start bs c ≤ pos < ck_end bs c)).
    { intros Hr. assert (is_Some (content bs l pos)); [|rewrite Hnone in *; by destruct H].
      apply content_Some, Exists_exists. by exists c. }
    assert (Hin : is_Some (content bs l (ck_end bs c - 1))).
    { apply content_Some, Exists_exists. exists c. split; [done|]. unfold ck_end. lia. }
    destruct Hin as [src Hsrc]. rewrite Hcont in Hnone, Hsrc. rewrite (layout_source_block bs L pos) in Hsrc; [done|done|done| |done].
    unfold covers, ck_end, ck_blocks in *. set (k := (ck_len c + bs - 1) / bs) in *.
    pose proof (Z.div_mod (ck_len c + bs - 1) bs ltac:(lia)) as Hd. pose proof (Z.mod_pos_bound (ck_len c + bs - 1) bs Hbs). fold k in Hd.
    unfold ck_start in *. assert (0 ≤ k - 1) by nia.
    rewrite <- (Z.div_unique_pos pos bs (ck_block c + k - 1) (pos - bs * (ck_block c + k - 1))) by nia.
    apply Z.div_unique_pos with (r := ck_block c * bs + ck_len c - 1 - bs * (ck_block c + k - 1)); nia. }
  clear -Hfree. induction Hfree as [|c l Hc _ IH]; [done|]. cbn [image_content]. by rewrite decide_False.
Qed.

(** The device after the sparse image was written to it. *)
Lemma sparse_image_flashes h s bs L last l c : 0 < bs → layout_so_far image_fds blob_at h s bs L last l →
  Forall (sparse_extent bs) L → Forall (whole bs) L → Forall filled L → tiles 0 L last → memory_ok L → last ≤ zlen c →
  ∀ pos, 0 ≤ pos < last → flash images c L !! Z.to_nat pos =
    match image_content byte_of bs l pos with Some b => Some b | None => c !! Z.to_nat pos end.
Proof using Type.
  intros Hbs Hso HL Hw Hf Ht Hm Hroom pos Hpos. pose proof Hso as [(ls & Hl) [Hsz _] _ _ Hcont].
  pose proof (lk_laid_out _ _ _ _ Hl) as Hlo. rewrite Hsz in Hlo.
  destruct (tiles_find 0 L last pos Ht Hpos) as (e & He & Hin). unfold se_end in Hin.
  pose proof (proj1 (Forall_forall _ _) HL e He) as Hx. assert (Hwf : Forall extent_wf L) by (eapply Forall_impl; [exact HL|]; by intros ? []).
  pose proof (flash_at images 0 L last c e Ht Hwf Hf ltac:(done) Hroom He) as Hat.
  apply (f_equal (λ b, b !! Z.to_nat (pos - se_offset e))) in Hat. destruct Hx as [[Hx0 Hx1 _] _ _ _ _].
  rewrite lookup_sub in Hat by lia. replace (Z.to_nat (se_offset e) + Z.to_nat (pos - se_offset e))%nat with (Z.to_nat pos) in Hat by lia.
  rewrite Hat. pose proof (extent_byte L bs e (pos - se_offset e) Hm He (proj1 (Forall_forall _ _) HL e He) ltac:(lia)) as Hb.
  pose proof (layout_source_at 0 L last e (pos - se_offset e) Ht He ltac:(lia)) as Hsrc.
  replace (se_offset e + (pos - se_offset e)) with pos in Hsrc by lia. rewrite <- Hcont in Hsrc.
  destruct (extent_bytes images e) as [d|].
  - destruct Hb as (src & E & ->). rewrite E in Hsrc.
    rewrite content_image by (try done; by rewrite Hsrc). by rewrite Hsrc.
  - rewrite Hb in Hsrc. rewrite (image_hole h s bs L last l pos) by done. rewrite lookup_sub by lia. f_equal. lia.
Qed.
(** [c'] is [c] with what [at] gives in its place. *)
Definition onto (byte_at : Z → option byte) (c c' : bytes) : Prop :=
  ∀ i, c' !! i = match byte_at (Z.of_nat i) with Some b => Some b | None => c !! i end.
Lemma onto_unique f c c1 c2 : onto f c c1 → onto f c c2 → c1 = c2.
Proof using Type. intros H1 H2. apply list_eq. intros i. by rewrite H1, H2. Qed.
Lemma layout_onto h s bs L last l c : 0 < bs → layout_so_far image_fds blob_at h s bs L last l →
  Forall (sparse_extent bs) L → Forall (whole bs) L → Forall filled L → tiles 0 L last → memory_ok L → last ≤ zlen c →
  onto (image_content byte_of bs l) c (flash images c L).
Proof using Type.
  intros Hbs Hso HL Hw Hf Ht Hm Hroom i. destruct (decide (Z.of_nat i < last)) as [Hlt|Hge].
  - pose proof (sparse_image_flashes h s bs L last l c Hbs Hso HL Hw Hf Ht Hm Hroom (Z.of_nat i) ltac:(lia)) as H. by rewrite !Nat2Z.id in H.
  - rewrite (image_hole h s bs L last l) by (try done; rewrite (sf_content _ _ _ _ _ _ _ _ Hso); by eapply layout_source_beyond, Z.nlt_ge).
    assert (Hwf : Forall extent_wf L) by (eapply Forall_impl; [exact HL|]; by intros ? []).
    pose proof (tiles_le _ _ _ Ht) as H0.
    destruct (flash_outside images 0 L last c last (Z.of_nat i + 1 - last) Ht Hwf Hf) as [_ Hout]; [lia..|].
    apply (f_equal (λ b, b !! (i - Z.to_nat last)%nat)) in Hout. rewrite !lookup_sub in Hout by lia.
    by replace (Z.to_nat last + (i - Z.to_nat last))%nat with i in Hout by lia.
Qed.
End Bytes.

(** ** The whole helper *)

Section Helper.
Context (sha256 : bytes → bytes) (calloc_ok : heap → bool) (memory_left : ∀ h, calloc_ok h = true) (blob_at : bytes → Z).

(** The layout of the helper, made now or before. *)
Definition helper_layout (sh : SuperFlashHelper) : outcome (list SuperImageExtent) :=
  if decide (sh_extents sh = []) then GetImageLayout sha256 (sh_builder sh) else Ret (sh_extents sh).

Lemma GetSparseLayout_ok sh h m0 L last : helper_layout sh = Ret L → sh_base_metadata sh = Some m0 → L ≠ [] →
  let bs := logical_block_size (m_geometry m0) in
  0 < bs → (4 | bs) → Forall (sparse_extent (sh_image_fds sh) bs) L → tiles 0 L last →
  ∃ s' sh' h' l, GetSparseLayout sha256 calloc_ok blob_at (sh, h) = (Ret s', (sh', h')) ∧
    helper_layout sh' = Ret L ∧ sh_image_fds sh' = sh_image_fds sh ∧
    layout_so_far (sh_image_fds sh) blob_at h' s' bs L last l ∧ sf_len s' = last.
Proof using memory_left.
  intros HL Hm Hne bs Hbs H4 Hx Ht. unfold helper_layout in HL. unfold GetSparseLayout. rewrite HL. cbv zeta. rewrite Hm.
  destruct (list.last L) as [e|] eqn:El; [|by apply last_None in El].
  pose proof (tiles_last 0 L last e Ht El) as Hend. unfold se_end in Hend. cbn [sh_base_metadata sh_image_fds]. fold bs.
  assert (He : e ∈ L) by (by eapply last_Some_elem_of).
  destruct (proj1 (Forall_forall _ _) Hx e He) as [[H0 H1 _] _ [H63 _] _ _]. unfold se_end in H63.
  rewrite Hend in *. rewrite i64_small by lia.
  destruct (sparse_layout_ok calloc_ok memory_left (sh_image_fds sh) blob_at bs L last h Hbs H4 Hx Ht) as (s' & h' & l & E & Hso & Hlen).
  rewrite E. eexists s', _, h', l. split; [done|]. split; [|done]. unfold helper_layout. cbn [sh_extents]. by rewrite decide_False.
Qed.

(** The file can be written and read back. *)
Lemma layout_file_ok image_fds h s bs L last l : layout_so_far image_fds blob_at h s bs L last l → sf_len s = last →
  0 < bs ≤ MAX_BACKED_BLOCK_SIZE → (bs | last) → 0 < last / bs < 2 ^ 31 → file_ok h s (last / bs) l.
Proof using Type.
  intros [Hl [Hsz Hsz'] Hends Hfills _] Hlen Hbs [k ->] Hn. rewrite Z.div_mul in * by lia. split; rewrite ?Hsz', ?Hlen; try done.
  eapply Forall_impl; [exact Hfills|]. intros c Hc v Hv. by rewrite (Hc v Hv).
Qed.
End Helper.
