(* ===== verification/LayoutHelper.v ===== *)
(** * A session of the flash helper ([fastboot/super_flash_helper.cpp])

    [SuperFlashHelper] keeps, with its layout builder, an open descriptor for every image of
    the layout, so that [GetSparseLayout] succeeds and its file can be written. *)
From S2P Require Import Prelude Bytes Device LpFormat LpUtility LpReader LpWriter LpImage LpCrash LpExtent.
From S2P Require Import LpBuilder LpAlloc LpFree LpGrow LpInvariant LpResize LpExport LpRoundtrip DmTarget.
From S2P Require Import DeviceMapper DmLinear DmMap LpReach LpLayout LayoutTiles LayoutSuper LayoutSession.
From S2P Require Import SparseFormat BackedBlock BlockList SparseOutput SparseFile SparseImage SparseRead.
From S2P Require Import SparseRoundtrip SparseWrite SuperFlash LayoutSparse.

(** ** Disjoint extents fit the device *)

Fixpoint sum_upto (f : Z → Z) (n : nat) : Z :=
  match n with O => 0 | S n => sum_upto f n + f (Z.of_nat n) end.
Lemma sum_upto_add f g n : sum_upto (λ i, f i + g i) n = sum_upto f n + sum_upto g n.
Proof. induction n as [|n IH]; simpl; [done|]. lia. Qed.
Lemma sum_upto_le f n : (∀ i, f i ≤ 1) → sum_upto f n ≤ Z.of_nat n.
Proof. intros Hf. induction n as [|n IH]; simpl sum_upto; [lia|]. pose proof (Hf (Z.of_nat n)). lia. Qed.
Lemma sum_upto_owns c d x n : 0 ≤ x → 0 ≤ c →
  sum_upto (λ i, owns (LinearExtent c d x) d i) n = 0 `max` (Z.of_nat n `min` (x + c) - x).
Proof.
  intros Hx Hc. induction n as [|n IH]; cbn [sum_upto]; [lia|]. rewrite IH. cbn [owns]. case_decide; lia.
Qed.
Lemma total_sum es n : Forall (λ e, match e with LinearExtent c d x => d = 0 ∧ 0 ≤ x ∧ 0 ≤ c ∧ x + c ≤ Z.of_nat n | _ => False end) es →
  total es = sum_upto (λ i, cover es 0 i) n.
Proof.
  induction 1 as [|[c d x|c] es He _ IH]; [|destruct He as (-> & H1 & H2 & H3)|done].
  - clear. induction n as [|n IH]; simpl; [done|]. simpl in IH. lia.
  - etrans; [|symmetry; apply (sum_upto_add (λ i, owns (LinearExtent c 0 x) 0 i) (λ i, cover es 0 i))].
    rewrite sum_upto_owns, <- IH by done. cbn [total num_sectors]. lia.
Qed.

(** An image does not reach beyond the size of the device. *)
Lemma image_list_offset name off es e : Forall flashable es → 0 ≤ off → e ∈ image_list name off es →
  0 ≤ se_image_offset e ∧ se_image_offset e + se_size e ≤ off + total es * LP_SECTOR_SIZE.
Proof.
  intros Hes. revert off. induction Hes as [|[n d x|n] es He Hes IH]; intros off Ho; [by intros ?%not_elem_of_nil| |done].
  destruct He as (-> & Hn & Hx & Hb). pose proof (flashable_total _ Hes) as Ht. cbn [total num_sectors]. unfold LP_SECTOR_SIZE in *.
  intros [->|Hin]%elem_of_cons.
  - cbn [ImageExtent se_image_offset se_size]. unfold LP_SECTOR_SIZE. lia.
  - destruct (IH (off + n * 512) ltac:(lia) Hin). lia.
Qed.

(** ** Whole blocks *)

Lemma fill_gaps_whole bs t cur old L : Forall extent_wf old → 0 ≤ cur < 2 ^ 64 → Forall (whole bs) old → (bs | cur) →
  fill_gaps t cur old = Ret L → Forall (whole bs) L.
Proof.
  intros Hwf. revert cur L. induction Hwf as [|e old He _ IH]; intros cur L Hc Hw Hcur; cbn [fill_gaps]; [by intros [= <-]|].
  apply Forall_cons in Hw as [[Hwo Hwe] Hw]. intros ([] & Hle%require_Ret & H)%bind_Ret. apply bind_Ret in H as (rest & Hrest & [= <-]).
  destruct He as [H0 H1 H2]. rewrite (u64_small (se_offset e + se_size e)) in Hrest by lia.
  specialize (IH (se_end e) rest ltac:(unfold se_end; lia) Hw Hwe Hrest). apply Forall_app. split; [|by constructor].
  case_decide; [constructor|]. rewrite u64_small by lia. constructor; [|constructor]. split; [done|].
  unfold se_end. cbn [TypedExtent se_offset se_size]. by replace (cur + (se_offset e - cur)) with (se_offset e) by lia.
Qed.
Lemma AddGapExtents_whole bs t es L : Forall extent_wf es → Forall (whole bs) es → AddGapExtents es t = Ret L → Forall (whole bs) L.
Proof.
  intros Hwf Hw. apply fill_gaps_whole; [by rewrite merge_sort_Permutation|done|by rewrite merge_sort_Permutation|apply Z.divide_0_r].
Qed.

(** ** The layout of a session in blocks *)

Section Blocks.
Context (sha256 : bytes → bytes) (sha256_length : ∀ bs, length (sha256 bs) = 32%nat).
Context (s : SuperLayoutBuilder) (b : MetadataBuilder) (m : LpMetadata) (dv : LpMetadataBlockDevice).
Context (input : layout_input s b m dv).
Context (blob : bytes) (L : list SuperImageExtent) (last : Z) (made : layout_made sha256 s m dv blob L last).

Abbreviation bs := (logical_block_size (m_geometry m)).
(** Blocks that divide the pages of the metadata, its slots and the alignment of the
    device, and a device of less than 2^31 of them. *)
Record block_layout : Prop := {
  bl_page : (bs | 4096);
  bl_slot : (bs | metadata_max_size (m_geometry m));
  bl_aligned : bd_alignment dv ≠ 0;
  bl_device : bd_size dv < 2 ^ 31 * bs;
}.
Context (blocks : block_layout).

Lemma block_size : 0 < bs ≤ 4096 ∧ (4 | bs) ∧ lbs b = bs.
Proof using input blocks.
  destruct (Export_inv b m (li_export _ _ _ _ input)) as (_ & Hg & _).
  destruct (bok_lbs _ (li_builder _ _ _ _ input)) as (H1 & H2 & H3). unfold lbs in *. rewrite <- Hg in *.
  pose proof (Z.divide_pos_le bs 4096 ltac:(done) (bl_page blocks)). split; [lia|]. split; [|done].
  eapply Z.divide_trans; [|exact H3]. by exists 128.
Qed.
Lemma copies_whole e : copy_size m = zlen (copy_bytes m blob) → e ∈ copies m (copy_bytes m blob) → whole bs e.
Proof using blocks.
  intros Hsz He. unfold copies in He. destruct blocks as [Hp Hs _ _].
  assert (Hc : (bs | copy_size m)) by (eapply Z.divide_trans; [exact Hp|]; apply Z.divide_factor_r).
  assert (H12 : (bs | 12288)) by (eapply Z.divide_trans; [exact Hp|]; by exists 3).
  apply list_elem_of_In, in_concat in He as (l & Hl & He). apply list_elem_of_In in Hl, He.
  apply list_elem_of_fmap in Hl as (i & -> & Hi%elem_of_seqZ).
  apply elem_of_cons in He as [->|He]; [|apply list_elem_of_singleton in He as ->];
    unfold whole, se_end; cbn [BlobExtent se_offset se_size]; rewrite <- Hsz; unfold primary_at, backup_at;
    split; repeat apply Z.divide_add_r; try done; by apply Z.divide_mul_l.
Qed.
Lemma images_whole e : e ∈ concat (parts_of s m <$> m_partitions m) →
  whole bs e ∧ se_type e = PARTITION ∧ 0 ≤ se_image_offset e ∧ se_image_offset e + se_size e ≤ bd_size dv ∧
  ∃ p, lb_image_map s !! p = Some (se_image_name e).
Proof using input blocks.
  intros He. apply list_elem_of_In, in_concat in He as (l & Hl & He). apply list_elem_of_In in Hl, He.
  apply list_elem_of_fmap in Hl as (part & -> & Hpart). destruct (part_ok s b m dv input part Hpart) as (_ & Hfl & Hown & _).
  unfold parts_of in He. destruct (lb_image_map s !! GetPartitionName part) as [name|] eqn:En; [|by apply not_elem_of_nil in He].
  destruct (image_list_in name 0 _ e Hfl ltac:(done) He) as (_ & _ & Ht & n & x & Hin & Hoff & Hsz).
  destruct block_size as (_ & _ & Hlbs).
  pose proof (proj1 (Forall_forall _ _) (bok_blocks _ (li_builder _ _ _ _ input)) _ (Hown _ Hin)) as [Hn Hend].
  rewrite Hlbs in Hn, Hend. specialize (Hend dv). rewrite (li_device _ _ _ _ input) in Hend.
  specialize (Hend eq_refl (bl_aligned blocks)). cbn [num_sectors] in Hn.
  split; [|split; [done|]].
  { unfold whole, se_end. rewrite Hoff, Hsz. rewrite Z.mul_add_distr_r in Hend. split; [|done].
    replace (x * LP_SECTOR_SIZE) with (x * LP_SECTOR_SIZE + n * LP_SECTOR_SIZE - n * LP_SECTOR_SIZE) by lia.
    by apply Z.divide_sub_r. }
  destruct (image_list_offset name 0 _ e Hfl ltac:(done) He) as [H1 H2]. split; [done|]. split.
  - etrans; [exact H2|]. destruct (bok_layout _ (li_builder _ _ _ _ input)) as [Hd _ Hcov].
    rewrite (li_device _ _ _ _ input) in Hd. apply Forall_singleton in Hd as [Hf Hsize _].
    pose proof (Z.mul_div_le (bd_size dv) LP_SECTOR_SIZE ltac:(done)) as Hdiv. fold (sectors dv) in Hdiv.
    assert (Ht1 : total (extents_of m part) ≤ sectors dv).
    { rewrite (total_sum _ (Z.to_nat (sectors dv))).
      - rewrite <- (Z2Nat.id (sectors dv)) at 2 by lia. apply sum_upto_le. intros i. etrans; [|apply (Hcov 0 i)].
        rewrite <- (extents_exported s b m dv input). apply list_elem_of_split in Hpart as (pre & post & E). rewrite E.
        rewrite bind_app, bind_cons, !cover_app. pose proof (cover_nonneg (pre ≫= extents_of m) 0 i).
        pose proof (cover_nonneg (post ≫= extents_of m) 0 i). lia.
      - apply Forall_forall. intros e' He'. destruct (owned_ok s b m dv input e' (Hown e' He')) as [Hfl' Hr].
        destruct e' as [n' d' x'|n']; [|done]. destruct Hfl' as (-> & H3 & H4 & _). destruct Hr as [_ Hr].
        split_and!; try lia. rewrite Z2Nat.id by lia. unfold sectors, LP_SECTOR_SIZE in *. apply Z.div_le_lower_bound; lia. }
    unfold LP_SECTOR_SIZE in *. lia.
  - exists (GetPartitionName part). rewrite En. f_equal. symmetry. by eapply image_list_name.
Qed.

(** Everything that was collected is in whole blocks, so the gaps are too. *)
Lemma sources_whole : Forall (whole bs) (sources sha256 s m (copy_bytes m blob)).
Proof using input blocks made sha256_length.
  destruct (image_layout_sources sha256 sha256_length s b m dv input) as (blob' & Hb' & _ & Hlen & _).
  assert (blob' = blob) as -> by (pose proof (lm_blob _ _ _ _ _ _ _ made); congruence).
  apply Forall_forall. intros e [He|[He|He]%elem_of_app]%elem_of_app; [|by apply copies_whole|by apply images_whole].
  pose proof (length_SerializeGeometry sha256 sha256_length (m_geometry m) (gok_wf _ (li_geometry _ _ _ _ input))) as Hl.
  assert (Hk : ∀ k, (bs | k * 4096)) by (intros k; apply Z.divide_mul_r, (bl_page blocks)).
  unfold whole, se_end. unfold geometry_extents in He.
  apply elem_of_cons in He as [->|He]; [|apply elem_of_cons in He as [->|He]; [|apply list_elem_of_singleton in He as ->]];
    cbn [BlobExtent TypedExtent se_offset se_size]; rewrite ?Hl.
  - by split; [apply (Hk 0)|apply (Hk 1)].
  - by split; [apply (Hk 1)|apply (Hk 2)].
  - by split; [apply (Hk 2)|apply (Hk 3)].
Qed.
Lemma layout_whole : Forall (whole bs) L.
Proof using input blocks made sha256_length.
  destruct (image_layout_sources sha256 sha256_length s b m dv input) as (blob' & Hb' & _ & Hlen & Hpos).
  assert (blob' = blob) as -> by (pose proof (lm_blob _ _ _ _ _ _ _ made); congruence).
  eapply AddGapExtents_whole; [|exact sources_whole|exact (lm_made _ _ _ _ _ _ _ made)].
  apply Forall_forall. intros e He.
  by apply (proj1 (sources_ok sha256 sha256_length s b m dv input (copy_bytes m blob) Hlen ltac:(lia)) e He).
Qed.

(** All images that are in the layout are open. *)
Context (fds : gmap bytes Z) (opened : ∀ p name, lb_image_map s !! p = Some name → is_Some (fds !! name)).
Lemma layout_sparse : Forall (sparse_extent fds bs) L.
Proof using input blocks made opened sha256_length.
  destruct block_size as (Hbs & _ & _). pose proof (bl_device blocks) as Hdev.
  pose proof (lm_last _ _ _ _ _ _ _ made) as Hlast.
  apply Forall_forall. intros e He. destruct (proj1 (Forall_forall _ _) layout_whole e He) as [Hw _].
  destruct (tiles_in _ _ _ _ (lm_tiles _ _ _ _ _ _ _ made) He) as (H1 & H2 & H3).
  pose proof (proj1 (Forall_forall _ _) (lm_wf _ _ _ _ _ _ _ made) e He) as Hwf.
  assert (Ht : se_type e ≠ INVALID ∧ (se_type e = PARTITION → is_Some (fds !! se_image_name e) ∧ 0 ≤ se_image_offset e ∧
    se_image_offset e + se_size e < 2 ^ 63)).
  2:{ destruct Ht as [Ht Him]. split; [done|done| |done|done]. split; [lia|]. apply Z.div_lt_upper_bound; lia. }
  destruct (lm_gaps _ _ _ _ _ _ _ made e He) as [Hs|Hs]; [|by rewrite Hs].
  apply elem_of_app in Hs as [Hs|[Hs|Hs]%elem_of_app].
  - unfold geometry_extents in Hs. by repeat (apply elem_of_cons in Hs as [->|Hs]; [done|]); apply not_elem_of_nil in Hs.
  - unfold copies in Hs. apply list_elem_of_In, in_concat in Hs as (l & Hl & Hs). apply list_elem_of_In in Hl, Hs.
    apply list_elem_of_fmap in Hl as (i & -> & _). by repeat (apply elem_of_cons in Hs as [->|Hs]; [done|]); apply not_elem_of_nil in Hs.
  - destruct (images_whole e Hs) as (_ & Ht & Ho & Hend & p & Hp). rewrite Ht. split; [done|]. intros _.
    split; [by eapply opened|]. split; [done|]. lia.
Qed.
(** The layout is a whole number of blocks, and not empty. *)
Lemma layout_blocks : L ≠ [] → (bs | last) ∧ 0 < last / bs < 2 ^ 31.
Proof using input blocks made sha256_length.
  intros Hne. destruct block_size as (Hbs & _ & _). pose proof (bl_device blocks) as Hdev.
  pose proof (lm_last _ _ _ _ _ _ _ made) as Hlast. destruct (list.last L) as [e|] eqn:El; [|by apply last_None in El].
  pose proof (last_Some_elem_of _ _ El) as He. destruct (proj1 (Forall_forall _ _) layout_whole e He) as [_ Hw].
  pose proof (proj1 (Forall_forall _ _) (lm_wf _ _ _ _ _ _ _ made) e He) as [H1 H2 _].
  rewrite (tiles_last 0 L last e (lm_tiles _ _ _ _ _ _ _ made) El) in Hw.
  pose proof (tiles_last 0 L last e (lm_tiles _ _ _ _ _ _ _ made) El) as Hend. unfold se_end in Hend.
  split; [done|]. destruct Hw as [k ->]. rewrite Z.div_mul by lia. split; nia.
Qed.
End Blocks.

(** ** The helper *)

(** Its builder is a session, its base metadata has the same geometry, every image of the
    layout is open, no layout was made yet, and what it says it flashes has an image. *)
Record helper_session (sh : SuperFlashHelper) (b : MetadataBuilder) (dv : LpMetadataBlockDevice) : Prop := {
  hs_layout : layout_session (sh_builder sh) b dv;
  hs_base : ∃ m, sh_base_metadata sh = Some m ∧ m_geometry m = b_geometry b;
  hs_open p name : lb_image_map (sh_builder sh) !! p = Some name → is_Some (sh_image_fds sh !! name);
  hs_extents : sh_extents sh = [];
  hs_flash p : p ∈ sh_will_flash sh → is_Some (lb_image_map (sh_builder sh) !! p);
}.

Section Session.
Context (sha256 : bytes → bytes) (nothrow_new : Z → bool) (fetcher : IPropertyFetcher) (calloc_ok : heap → bool).
Context {F : Type} `{!Posix F} (OpenFile : bytes → option Z) (opened : Z → F) (stat_size : Z → option Z).

Lemma Open_metadata_images m s s' : Open_metadata m s = (Ret (), s') → lb_image_map s' = lb_image_map s.
Proof. unfold Open_metadata. intros E. inv_io. unfold assign_builder in E. by destruct (New_metadata m None); simplify_eq. Qed.

(** A new helper that opened a table without extents. *)
Lemma Helper_Open_session {D} `{!BlockIO D} (fd : D) m fd' dv sh : ReadFromImageFile_fd sha256 nothrow_new fd = (Ret m, fd') →
  bare_table m dv → Helper_Open sha256 nothrow_new fd NewSuperFlashHelper = (Ret (), sh) → ∃ b, helper_session sh b dv.
Proof.
  intros Hread Ht H. unfold Helper_Open in H. apply io_bind_Ret in H as ([] & s1 & E1 & H).
  unfold on_layout in E1. destruct (Open_fd _ _ fd _) as [r lb] eqn:E. injection E1 as -> <-.
  unfold Open_fd in E. rewrite Hread in E. rewrite (io_bind_eq _ _ _ m (sh_builder NewSuperFlashHelper)) in E by done.
  destruct (Open_metadata_session m dv _ _ Ht E) as (b & Hs). apply Open_metadata_images in E.
  apply io_bind_Ret in H as (s2 & s3 & E2 & H). injection E2 as <- <-.
  apply io_bind_Ret in H as (m0 & s4 & E3 & H). cbn [sh_builder] in E3. unfold Layout_Export in E3.
  rewrite (ls_open _ _ _ Hs) in E3. cbn [access mbind outcome_mbind] in E3.
  apply io_bind_Ret in H as ([] & s5 & E4 & H). apply modify_Ret in E4 as ->. apply lift_Ret in H as [H ->].
  apply require_Ret in H. unfold try_, lift in E3. destruct (Export b) as [m1| |] eqn:Ex; simplify_eq; try done.
  exists b. split; cbn [sh_builder sh_base_metadata sh_image_fds sh_extents sh_will_flash]; try done.
  - exists m1. split; [done|]. by apply Export_inv in Ex as (_ & -> & _).
  - intros p name. by rewrite E.
Qed.

(** Opening an image changes the descriptors only, and adds the one of the image. *)
Lemma open_image_ok image optional sh :
  match open_image calloc_ok OpenFile opened image optional sh with
  | (Ret (Some fd), sh') => ∃ fds, sh' = mkHelper (sh_builder sh) (sh_base_metadata sh) (sh_extents sh) fds (sh_will_flash sh) ∧
      fds !! image = Some fd ∧ ∀ name, is_Some (sh_image_fds sh !! name) → is_Some (fds !! name)
  | (Ret None, sh') => sh' = sh ∧ optional = true ∧ OpenFile image = None
  | (Reject, sh') => sh' = sh
  | (Crash, _) => ∃ fd, OpenFile image = Some fd ∧ is_sparse_file calloc_ok opened fd = Crash
  end.
Proof.
  unfold open_image. rewrite (io_bind_eq _ _ _ sh sh) by done.
  destruct (sh_image_fds sh !! image) as [fd|] eqn:Ei.
  { cbn. exists (sh_image_fds sh). by destruct sh. }
  destruct (OpenFile image) as [fd|] eqn:Eo; [|by destruct optional].
  unfold mbind at 1, io_mbind. destruct (is_sparse_file calloc_ok opened fd) as [[]| |] eqn:Es; cbn; [done| |done|by exists fd].
  exists (<[image := fd]> (sh_image_fds sh)). split; [done|]. rewrite lookup_insert_eq. split; [done|]. intros name Hn.
  destruct (decide (image = name)) as [->|Hne]; [by rewrite lookup_insert_eq|by rewrite lookup_insert_ne].
Qed.

(** A call keeps the session whether it succeeds or fails; what ends the process is an
    image that libsparse aborts on, or a descriptor without a size. *)
Lemma Helper_AddPartition_session partition image optional sh b dv : helper_session sh b dv →
  match Helper_AddPartition fetcher calloc_ok OpenFile opened stat_size partition image optional sh with
  | (Crash, _) => ∃ fd, is_sparse_file calloc_ok opened fd = Crash ∨ stat_size fd = None
  | (_, sh') => ∃ b', helper_session sh' b' dv ∧ b_geometry b' = b_geometry b
  end.
Proof.
  intros Hs. pose proof Hs as [Hl (m0 & Hm0 & Hg) Hopen Hext Hfl]. unfold Helper_AddPartition.
  rewrite (io_bind_eq _ _ _ sh sh) by done.
  rewrite (io_bind_eq _ _ _ (should_flash_in_userspace m0 partition) sh) by (unfold IncludeInSuper, lift; by rewrite Hm0).
  destruct (should_flash_in_userspace m0 partition); cbn [negb]; [|by exists b].
  unfold mbind at 1, io_mbind. pose proof (open_image_ok image optional sh) as Ho.
  destruct (open_image _ _ _ image optional sh) as [[[fd|]| |] s1]; [|destruct Ho as [-> _]; by exists b|subst s1; by exists b|].
  2:{ destruct Ho as (fd & _ & H). exists fd. by left. }
  destruct Ho as (fds & -> & Hfd & Hmore). set (s1 := mkHelper _ _ _ fds _).
  assert (H1 : helper_session s1 b dv) by (split; simpl; [done|by exists m0|intros p name Hp; by eapply Hmore, Hopen|done|done]).
  unfold mbind at 1, io_mbind. unfold get_file_size, lift.
  destruct (stat_size fd) as [size|] eqn:Est; cbn [access]; [|exists fd; by right].
  unfold mbind at 1, io_mbind, on_layout. cbn [sh_builder s1].
  pose proof (Layout_AddPartition_session fetcher partition image (u64 size) (sh_builder sh) b dv Hl ltac:(apply u64_range)) as Ha.
  destruct (Layout_AddPartition _ _ _ _ _) as [[[]| |] lb]; [|by subst lb; exists b|done].
  destruct Ha as (b' & Hl' & Hg' & Him). exists b'. split; [|done]. unfold modify.
  split; cbn [sh_builder sh_base_metadata sh_image_fds sh_extents sh_will_flash s1]; [done|exists m0; by rewrite Hg'| |done|].
  - intros p name. rewrite Him. unfold emplace. case_match; [by intros ?%Hopen%Hmore|].
    intros [[<- <-]|[_ Hp]]%lookup_insert_Some; [by exists fd|by eapply Hmore, Hopen].
  - intros p. rewrite Him. intros [->%elem_of_singleton|Hp]%elem_of_union; apply emplace_known; [by right|left; by apply Hfl].
Qed.
(** One call after the other, until one fails. *)
Definition add_calls (calls : list (bytes * bytes * bool)) : IO SuperFlashHelper unit :=
  for_each (λ '(partition, image, optional),
    Helper_AddPartition fetcher calloc_ok OpenFile opened stat_size partition image optional) calls.
Lemma add_calls_session calls sh b dv : helper_session sh b dv →
  match add_calls calls sh with
  | (Crash, _) => ∃ fd, is_sparse_file calloc_ok opened fd = Crash ∨ stat_size fd = None
  | (_, sh') => ∃ b', helper_session sh' b' dv
  end.
Proof.
  unfold add_calls. revert sh b. induction calls as [|[[p i] o] calls IH]; intros sh b Hs; [by exists b|].
  cbn [for_each]. unfold mbind, io_mbind. pose proof (Helper_AddPartition_session p i o sh b dv Hs) as H.
  destruct (Helper_AddPartition _ _ _ _ _ p i o sh) as [[[]| |] s1]; [|by destruct H as (b1 & H1 & _); exists b1|done].
  destruct H as (b1 & H1 & _). by apply (IH s1 b1).
Qed.
End Session.
