(* ===== verification/LayoutStore.v ===== *)
(** * What a stored layout means ([liblp/super_layout_builder.cpp], [liblp/reader.cpp])

    A device on which the layout was stored has the metadata in every slot and every image
    in the sectors of its partition: the reader and the device mapper find both. *)
From S2P Require Import Prelude Bytes LpFormat LpUtility Device LpReader LpWriter LpImage LpCrash LpExtent.
From S2P Require Import LpBuilder LpAlloc LpFree LpGrow LpInvariant LpExport LpRoundtrip DmTarget DeviceMapper.
From S2P Require Import DmLinear DmMap LpLayout LayoutTiles LayoutSuper LpReach LayoutSession.

Lemma sub_sub c o n k l : 0 ≤ o → 0 ≤ k → 0 ≤ l → k + l ≤ n → sub (sub c o n) k l = sub c (o + k) l.
Proof.
  intros. unfold sub. rewrite skipn_firstn_comm, take_take, drop_drop. f_equal; [lia|f_equal; lia].
Qed.
Lemma padded_sub c off n k l : 0 ≤ off → 0 ≤ k → 0 ≤ l → k + l ≤ n → sub (padded c off n) k l = padded c (off + k) l.
Proof.
  intros. unfold padded. rewrite sub_sub by lia. unfold sub, zero_extend.
  apply list_eq. intros i. destruct (decide (i < Z.to_nat l)%nat) as [Hi|Hi].
  2:{ rewrite !lookup_ge_None_2; [done|rewrite length_take; lia..]. }
  rewrite !lookup_take_lt, !lookup_drop by lia. set (j := (Z.to_nat (off + k) + i)%nat).
  destruct (decide (j < length c)%nat) as [Hj|Hj]; [by rewrite !lookup_app_l by lia|].
  rewrite !lookup_app_r by lia. unfold zeroes. rewrite !lookup_replicate_2 by lia. done.
Qed.
Lemma sub_prefix c o n bs more : 0 ≤ o → n = zlen (bs ++ more) → sub c o n = bs ++ more → sub c o (zlen bs) = bs.
Proof.
  intros Ho Hn Hs. apply (f_equal (take (length bs))) in Hs. rewrite take_app_length in Hs. rewrite <- Hs at 2.
  unfold sub. rewrite take_take. f_equal. rewrite to_nat_zlen. rewrite Hn, zlen_app. unfold zlen. lia.
Qed.

(** With its checksum, the geometry is the one the reader returns. *)
Definition with_geometry (m : LpMetadata) (g : LpMetadataGeometry) : LpMetadata :=
  mkMetadata g (m_header m) (m_partitions m) (m_extents m) (m_groups m) (m_block_devices m).
Lemma serializable_sealed sha256 m : serializable m → serializable (with_geometry m (sealed sha256 (m_geometry m))).
Proof. by intros [? ? ? ? ? ? ? [] ?]. Qed.

Section Reading.
Context (sha256 : bytes → bytes) (sha256_length : ∀ bs, length (sha256 bs) = 32%nat).
Context (nothrow_new : Z → bool).
Context {D : Type} `{BlockIOLive D}.

Lemma seek_to off (d : D) : 0 ≤ off ≤ zlen (contents d) →
  ∃ d', dev_seek off d = (Ret (), d') ∧ contents d' = contents d ∧ position d' = off.
Proof using Type*.
  intros Hoff. destruct (seek_live off d Hoff) as (d' & E). exists d'.
  destruct (seek_law _ _ _ _ E) as (Hc & _ & Hp). split; [done|]. split; [done|by apply Hp].
Qed.
Lemma read_geometry_stored g (d : D) : geometry_ok g →
  GetPrimaryGeometryOffset + LP_METADATA_GEOMETRY_SIZE ≤ zlen (contents d) →
  sub (contents d) GetPrimaryGeometryOffset LP_METADATA_GEOMETRY_SIZE = SerializeGeometry sha256 g →
  ∃ d', ReadLogicalPartitionGeometry sha256 d = (Ret (sealed sha256 g), d') ∧ contents d' = contents d.
Proof using sha256_length H0.
  intros Hg Hlen Hgeo. unfold GetPrimaryGeometryOffset, LP_METADATA_GEOMETRY_SIZE, LP_PARTITION_RESERVED_BYTES in Hlen.
  destruct (seek_to GetPrimaryGeometryOffset d) as (d1 & E1 & Hc1 & Hp1).
  { unfold GetPrimaryGeometryOffset, LP_PARTITION_RESERVED_BYTES. lia. }
  destruct (read_live LP_METADATA_GEOMETRY_SIZE d1) as (bs & d2 & E2);
    [rewrite Hp1; done|done|rewrite Hp1, Hc1; done|].
  destruct (read_law _ _ _ _ E2 ltac:(rewrite Hp1; done) ltac:(done)) as (Hc2 & _ & Hbs).
  destruct (Hbs bs eq_refl) as (-> & _ & _). exists d2. split; [|congruence].
  unfold ReadLogicalPartitionGeometry. rewrite (io_bind_eq _ _ _ (Some (sealed sha256 g)) d2); [done|].
  unfold try_, ReadPrimaryGeometry. rewrite (io_bind_eq _ _ _ _ _ E1), (io_bind_eq _ _ _ _ _ E2).
  unfold lift. rewrite Hp1, Hc1, Hgeo, <- (app_nil_r (SerializeGeometry _ _)).
  by rewrite (ParseGeometry_stored sha256 sha256_length g []) by done.
Qed.

(** Reading the metadata of a slot whose geometry and primary copy are stored. *)
Lemma ReadMetadata_stored m blob slot (d : D) : serializable m → geometry_ok (m_geometry m) →
  region_end m < 2 ^ 32 → region_end m ≤ zlen (contents d) < 2 ^ 63 →
  nothrow_new (zlen (serialize_tables m)) = true → 0 ≤ slot < metadata_slot_count (m_geometry m) →
  SerializeMetadata sha256 m = Ret blob →
  sub (contents d) GetPrimaryGeometryOffset LP_METADATA_GEOMETRY_SIZE = SerializeGeometry sha256 (m_geometry m) →
  sub (contents d) (primary_at m slot) (zlen blob) = blob → ∃ d',
  ReadMetadata_fd sha256 nothrow_new slot d =
    (AdjustMetadataForSlot (written sha256 (with_geometry m (sealed sha256 (m_geometry m)))) slot, d').
Proof using sha256_length H0.
  intros Hs Hg Hr Hlen Hnew Hslot Hblob Hgeo Hcopy. pose proof (geometry_numbers m Hg) as [Hsl Hmx].
  destruct (slots_bounds m slot) as (H1 & H2 & H3); [lia..|].
  destruct (read_geometry_stored (m_geometry m) d Hg) as (d1 & E1 & Hc1); [|done|].
  { unfold GetPrimaryGeometryOffset, LP_PARTITION_RESERVED_BYTES, LP_METADATA_GEOMETRY_SIZE. lia. }
  destruct (seek_to (primary_at m slot) d1) as (d2 & E2 & Hc2 & Hp2); [rewrite Hc1; lia|].
  set (m' := with_geometry m (sealed sha256 (m_geometry m))).
  destruct (ParseMetadata_written sha256 nothrow_new sha256_length m' blob d2
    (drop (length blob) (drop (Z.to_nat (primary_at m slot)) (contents d)))) as (d3 & E3 & _);
    [by apply serializable_sealed|done|done| | |].
  { simpl. rewrite Hc2, Hp2, Hc1. lia. }
  { simpl. rewrite Hc2, Hp2, Hc1. rewrite <- (take_drop (length blob) (drop _ _)) at 1. f_equal.
    rewrite <- Hcopy at 2. unfold sub. by rewrite to_nat_zlen. }
  exists d3. unfold ReadMetadata_fd. rewrite (io_bind_eq _ _ _ _ _ E1).
  rewrite io_require by (cbn [sealed geometry_set_checksum metadata_slot_count]; lia).
  change (GetPrimaryMetadataOffset (sealed sha256 (m_geometry m)) slot) with (GetPrimaryMetadataOffset (m_geometry m) slot).
  change (GetBackupMetadataOffset (sealed sha256 (m_geometry m)) slot) with (GetBackupMetadataOffset (m_geometry m) slot).
  rewrite GetPrimaryMetadataOffset_at, GetBackupMetadataOffset_at by (done || lia).
  rewrite (io_bind_eq _ _ _ (primary_at m slot) d1), (io_bind_eq _ _ _ (backup_at m slot) d1) by done.
  cbn [read_first_copy]. rewrite (io_bind_eq _ _ _ (written sha256 m') d3); [done|].
  rewrite (io_bind_eq _ _ _ (Some (written sha256 m')) d3); [done|].
  unfold try_. rewrite (io_bind_eq _ _ _ _ _ E2). change (sealed sha256 (m_geometry m)) with (m_geometry m').
  by rewrite E3.
Qed.
End Reading.

Section Stored.
Context (sha256 : bytes → bytes) (sha256_length : ∀ bs, length (sha256 bs) = 32%nat).
Context (nothrow_new : Z → bool).
Context (s : SuperLayoutBuilder) (b : MetadataBuilder) (m : LpMetadata) (dv : LpMetadataBlockDevice).
Context (input : layout_input s b m dv).
Context (blob : bytes) (L : list SuperImageExtent) (last : Z) (made : layout_made sha256 s m dv blob L last).
Context (images : bytes → bytes) (c : bytes) (room : bd_size dv ≤ zlen c < 2 ^ 63).

(** The device afterwards. *)
Definition stored_layout : bytes := flash images c L.

Lemma stored_extent e d : e ∈ sources sha256 s m (copy_bytes m blob) → extent_bytes images e = Some d →
  sub stored_layout (se_offset e) (se_size e) = d.
Proof using made room.
  intros He Hd. destruct made as [_ _ Ht Hw Hf Hs _ Hl].
  apply (flash_holds images 0 L last c e d Ht Hw Hf); [done|lia|by apply Hs|done].
Qed.
Lemma zlen_stored : zlen stored_layout = zlen c.
Proof using made room.
  destruct made as [_ _ Ht Hw Hf _ _ Hl]. pose proof (tiles_le _ _ _ Ht).
  apply (flash_outside images 0 L last c last 0 Ht Hw Hf); lia.
Qed.
(** Behind the layout nothing changes. *)
Lemma stored_behind o len : last ≤ o → 0 ≤ len → sub stored_layout o len = sub c o len.
Proof using made room.
  intros Ho Hlen. destruct made as [_ _ Ht Hw Hf _ _ Hl]. pose proof (tiles_le _ _ _ Ht).
  apply (flash_outside images 0 L last c o len Ht Hw Hf); lia.
Qed.

Lemma stored_geometry :
  sub stored_layout GetPrimaryGeometryOffset LP_METADATA_GEOMETRY_SIZE = SerializeGeometry sha256 (m_geometry m) ∧
  sub stored_layout GetBackupGeometryOffset LP_METADATA_GEOMETRY_SIZE = SerializeGeometry sha256 (m_geometry m).
Proof using input made room sha256_length.
  pose proof (length_SerializeGeometry sha256 sha256_length (m_geometry m) (gok_wf _ (li_geometry _ _ _ _ input))) as Hl.
  set (gb := SerializeGeometry sha256 (m_geometry m)) in *. rewrite <- Hl. split.
  - apply (stored_extent (BlobExtent GetPrimaryGeometryOffset gb) gb); [|done].
    apply elem_of_app. left. right. left.
  - apply (stored_extent (BlobExtent GetBackupGeometryOffset gb) gb); [|done].
    apply elem_of_app. left. right. right. left.
Qed.
(** Every slot has the metadata twice. *)
Lemma stored_copy slot : 0 ≤ slot < metadata_slot_count (m_geometry m) →
  sub stored_layout (primary_at m slot) (zlen blob) = blob ∧ sub stored_layout (backup_at m slot) (zlen blob) = blob.
Proof using input made room.
  intros Hslot. pose proof (geometry_numbers m (li_geometry _ _ _ _ input)) as [? ?].
  destruct (slots_bounds m slot) as (H1 & H2 & H3); [lia..|].
  destruct (copy_listed m (copy_bytes m blob) slot Hslot) as [Hp Hb].
  assert (Hat : ∀ o, 0 ≤ o → BlobExtent o (copy_bytes m blob) ∈ copies m (copy_bytes m blob) →
    sub stored_layout o (zlen blob) = blob).
  { intros o Ho Hin. eapply sub_prefix; [done|reflexivity|].
    apply (stored_extent (BlobExtent o (copy_bytes m blob)) (copy_bytes m blob)); [|done].
    apply elem_of_app. right. apply elem_of_app. by left. }
  split; apply Hat; try done; lia.
Qed.

(** The reader finds the metadata in every slot. *)
Lemma stored_read {D} `{BlockIOLive D} slot (d : D) : contents d = stored_layout →
  nothrow_new (zlen (serialize_tables m)) = true → 0 ≤ slot < metadata_slot_count (m_geometry m) → ∃ d',
  ReadMetadata_fd sha256 nothrow_new slot d =
    (AdjustMetadataForSlot (written sha256 (with_geometry m (sealed sha256 (m_geometry m)))) slot, d').
Proof using input made room sha256_length.
  intros Hd Hnew Hslot. destruct stored_geometry as [Hgeo _]. destruct (stored_copy slot Hslot) as [Hcopy _].
  pose proof (li_area _ _ _ _ input) as Ha.
  destruct (bok_layout _ (li_builder _ _ _ _ input)) as [Hdev _ _]. rewrite (li_device _ _ _ _ input) in Hdev.
  apply Forall_singleton in Hdev as [Hfirst _ _]. unfold sectors in Hfirst.
  pose proof (Z.mul_div_le (bd_size dv) LP_SECTOR_SIZE ltac:(done)) as Hdiv. unfold LP_SECTOR_SIZE in *.
  apply (ReadMetadata_stored sha256 sha256_length nothrow_new m blob slot d); try done.
  - apply (li_serializable _ _ _ _ input).
  - apply (li_geometry _ _ _ _ input).
  - apply (li_region _ _ _ _ input).
  - rewrite Hd, zlen_stored. lia.
  - apply (lm_blob _ _ _ _ _ _ _ made).
  - by rewrite Hd.
  - by rewrite Hd.
Qed.

(** Sector [i] of a partition is sector [i] of its image. *)
Lemma stored_image part name i d x : part ∈ m_partitions m → lb_image_map s !! GetPartitionName part = Some name →
  0 ≤ i → resolve (extents_of m part) i = Some (OnDevice d x) →
  d = 0 ∧ sub stored_layout (x * LP_SECTOR_SIZE) LP_SECTOR_SIZE = padded (images name) (i * LP_SECTOR_SIZE) LP_SECTOR_SIZE.
Proof using input made room.
  intros Hpart Hname Hi Hr. destruct (part_ok s b m dv input part Hpart) as (_ & Hfl & _ & _).
  assert (Hd : d = 0).
  { clear -Hfl Hr. revert i Hr. induction Hfl as [|[n d' y|n] es He _ IH]; intros i; [done| |done]. cbn [resolve].
    case_decide; [|apply IH]. destruct He as (-> & _). by intros [= <- _]. }
  subst d. split; [done|].
  destruct (image_list_sector name 0 _ i x Hfl Hi ltac:(done) Hr) as (e & He & Ht & Hn & H1 & H2 & H3 & H4).
  assert (Hin : e ∈ sources sha256 s m (copy_bytes m blob)).
  { apply elem_of_app. right. apply elem_of_app. right. apply list_elem_of_In, in_concat.
    exists (parts_of s m part). split; apply list_elem_of_In; [apply list_elem_of_fmap; by exists part|].
    unfold parts_of. by rewrite Hname. }
  pose proof (stored_extent e (padded (images name) (se_image_offset e) (se_size e)) Hin) as Hs.
  unfold extent_bytes in Hs. rewrite Ht, Hn in Hs. specialize (Hs eq_refl).
  destruct (image_list_in name 0 _ e Hfl ltac:(done) He) as ([Ho Hz _] & _). unfold se_end, LP_SECTOR_SIZE in *.
  replace (x * 512) with (se_offset e + (x * 512 - se_offset e)) by lia.
  rewrite <- (sub_sub _ _ (se_size e)) by lia. rewrite Hs, padded_sub by lia. f_equal. lia.
Qed.
End Stored.

(** ** Tables in image files ([liblp/images.cpp])

    What [WriteToImageFile] stores, [ReadFromImageFile] reads back; a table that a client
    made from scratch can be opened by the layout builder again. *)

(** The table that is read back: the offsets and the checksums are filled in. *)
Definition stored_table (sha256 : bytes → bytes) (m : LpMetadata) : LpMetadata :=
  written sha256 (with_geometry m (sealed sha256 (m_geometry m))).

Section Image.
Context (sha256 : bytes → bytes) (sha256_length : ∀ bs, length (sha256 bs) = 32%nat).
Context (nothrow_new : Z → bool).

Section Device.
Context {D : Type} `{BlockIOLive D}.

Lemma read_at_start len (d : D) : position d = 0 → 0 ≤ len ≤ zlen (contents d) →
  ∃ d', dev_read len d = (Ret (sub (contents d) 0 len), d') ∧ contents d' = contents d ∧ position d' = len.
Proof using H0.
  intros Hp [H1 H2]. destruct (read_live len d) as (bs & d' & E); [by rewrite Hp|done|by rewrite Hp|].
  destruct (read_law _ _ _ _ E ltac:(by rewrite Hp) H1) as (Hc & _ & Hbs).
  destruct (Hbs bs eq_refl) as (-> & _ & Hpos). exists d'. rewrite Hp in *. done.
Qed.
(** The geometry and the tables at the beginning of a file. *)
Lemma ReadFromImageFile_stored m blob more (d : D) : serializable m → geometry_ok (m_geometry m) →
  nothrow_new (zlen (serialize_tables m)) = true → SerializeMetadata sha256 m = Ret blob →
  contents d = (SerializeGeometry sha256 (m_geometry m) ++ blob) ++ more → zlen (contents d) < 2 ^ 63 →
  ∃ d', ReadFromImageFile_fd sha256 nothrow_new d = (Ret (stored_table sha256 m), d').
Proof using sha256_length H0.
  intros Hs Hg Hnew Hblob Hc Hlen. pose proof (length_SerializeGeometry sha256 sha256_length (m_geometry m) (gok_wf _ Hg)) as Hgl.
  rewrite <- (assoc_L (++)) in Hc. assert (Hroom : LP_METADATA_GEOMETRY_SIZE ≤ zlen (contents d)).
  { rewrite Hc, zlen_app, Hgl. pose proof (zlen_nonneg (blob ++ more)). unfold LP_METADATA_GEOMETRY_SIZE. lia. }
  destruct (seek_to 0 d) as (d1 & E1 & Hc1 & Hp1); [unfold LP_METADATA_GEOMETRY_SIZE in *; lia|].
  destruct (read_at_start LP_METADATA_GEOMETRY_SIZE d1 Hp1) as (d2 & E2 & Hc2 & Hp2); [by rewrite Hc1|].
  rewrite Hc1 in E2, Hc2. rewrite Hc in E2.
  assert (Hsub : sub (SerializeGeometry sha256 (m_geometry m) ++ blob ++ more) 0 LP_METADATA_GEOMETRY_SIZE =
    SerializeGeometry sha256 (m_geometry m)).
  { unfold sub. rewrite drop_0. rewrite take_app_length'; [done|]. unfold zlen in Hgl. unfold LP_METADATA_GEOMETRY_SIZE in *. lia. }
  rewrite Hsub in E2. set (m' := with_geometry m (sealed sha256 (m_geometry m))).
  destruct (ParseMetadata_written sha256 nothrow_new sha256_length m' blob d2 more) as (d3 & E3 & _);
    [by apply serializable_sealed|done|done| | |].
  { simpl. rewrite Hc2, Hp2. unfold LP_METADATA_GEOMETRY_SIZE in *. lia. }
  { simpl. rewrite Hc2, Hp2, Hc. rewrite drop_app_length'; [done|]. unfold zlen in Hgl. unfold LP_METADATA_GEOMETRY_SIZE in *. lia. }
  exists d3. unfold ReadFromImageFile_fd. rewrite (io_bind_eq _ _ _ _ _ E1), (io_bind_eq _ _ _ _ _ E2).
  rewrite (io_bind_eq _ _ _ (sealed sha256 (m_geometry m)) d2); [exact E3|].
  unfold lift. rewrite <- (app_nil_r (SerializeGeometry _ _)). by rewrite (ParseGeometry_stored sha256 sha256_length _ []).
Qed.

(** A successful write at the beginning of a file is read back. *)
Lemma image_file_ok m (d d' : D) : serializable m → geometry_ok (m_geometry m) → nothrow_new (zlen (serialize_tables m)) = true →
  position d = 0 → zlen (contents d) < 2 ^ 63 → WriteToImageFile_fd sha256 m d = (Ret (), d') →
  ∃ d'', ReadFromImageFile_fd sha256 nothrow_new d' = (Ret (stored_table sha256 m), d'').
Proof using sha256_length H0.
  intros Hs Hg Hnew Hp Hlen E. unfold WriteToImageFile_fd in E. apply io_bind_Ret in E as (blob & d1 & E1 & E).
  apply lift_Ret in E1 as [E1 ->]. destruct (write_law _ _ _ _ E ltac:(by rewrite Hp)) as (_ & st & _ & Hfit & Hc & Hst).
  specialize (Hst eq_refl) as ->. set (bs := SerializeGeometry sha256 (m_geometry m) ++ blob) in *.
  assert (Hroom : position d + zlen bs ≤ zlen (contents d)).
  { apply Hfit. intros Hn. apply (f_equal zlen) in Hn. pose proof (zlen_nonneg blob).
    pose proof (length_SerializeGeometry sha256 sha256_length (m_geometry m) (gok_wf _ Hg)) as Hgl.
    unfold bs in Hn. rewrite zlen_app, Hgl in Hn. unfold zlen at 2, LP_METADATA_GEOMETRY_SIZE in Hn. simpl in Hn. lia. }
  eapply (ReadFromImageFile_stored m blob); [done..| |].
  - rewrite Hc, Hp. unfold overwrite. by rewrite take_0.
  - rewrite Hc, length_overwrite; lia.
Qed.
End Device.

(** ** Tables made from scratch *)

Lemma exported_group_name g x : no_nul (pg_name g) → export_group false g = Ret x → GetPartitionGroupName x = pg_name g.
Proof using Type.
  intros Hn E. unfold export_group in E. inv_ret. apply name_roundtrip; [done|]. assumption.
Qed.
Lemma session_bare b m dv : session_ok b → Export b = Ret m → zlen (serialize_tables m) ≤ metadata_max_size (b_geometry b) →
  b_block_devices b = [dv] → bare_table (stored_table sha256 m) dv.
Proof using sha256_length.
  intros Hb Hx Hfits Hd. pose proof (exported_serializable b m Hb Hx Hfits) as Hs.
  destruct (exported_parts b m Hb Hx) as (Hg & Hdm & Hgs & Hf). pose proof Hb as [Hok Ht]. rewrite Hd in Hdm.
  assert (Hlbs : lbs b = logical_block_size (m_geometry m)) by (unfold lbs; by rewrite Hg).
  split.
  - pose proof (ser_tables _ (serializable_sealed sha256 m Hs)) as Hm. by destruct Hm.
  - exact (hok_wf _ _ (finish_header_ok sha256 sha256_length _ (serializable_sealed sha256 m Hs))).
  - destruct (bt_geometry _ Ht) as [H1 H2 H3 H4 H5]. rewrite <- Hg in *. split; try done.
    by apply (sealed_wf sha256 sha256_length).
  - change (blocks_ok (logical_block_size (m_geometry m))). rewrite <- Hlbs. apply (bok_lbs _ Hok).
  - done.
  - change (device_made (logical_block_size (m_geometry m)) dv). rewrite <- Hlbs.
    pose proof (lay_devices _ _ (bok_layout _ Hok)) as H1. pose proof (bok_whole _ Hok) as H2.
    pose proof (bok_aligned _ Hok) as H3. pose proof (bt_devices _ Ht) as H4. unfold device_blocks in H3.
    rewrite Hd in *. rewrite Forall_singleton in H1, H2, H3, H4. split; try done.
    destruct (decide (bd_alignment dv = 0)) as [->|Hne]; [apply Z.divide_0_r|].
    destruct (bok_lbs _ Hok) as (_ & _ & Hsec). eapply Z.divide_trans; [exact Hsec|]. by apply H3.
  - pose proof (flattened_names _ _ _ _ _ _ Hf (bt_names _ Ht)) as Hn. pose proof (bt_names _ Ht) as Hb'.
    change (Forall (λ p, no_nul (GetPartitionName p)) (m_partitions m)). clear -Hn Hb'. revert Hb'.
    induction Hn as [|p part ps parts [Hn _] _ IH]; [constructor|]. intros [[_ Hp] Hps]%Forall_cons.
    constructor; [by rewrite Hn|by apply IH].
  - pose proof (bt_groups _ Ht) as Hb'. change (Forall (λ g, no_nul (GetPartitionGroupName g)) (m_groups m)).
    clear -Hgs Hb'. revert Hb'. induction Hgs as [|g x gs xs Hx _ IH]; [constructor|]. intros [[Hn _] Hr]%Forall_cons.
    constructor; [by rewrite (exported_group_name g x)|by apply IH].
Qed.
End Image.
