(* ===== verification/LayoutBoot.v ===== *)
(** * From the flash helper to the devices of the partitions

    The sparse file of a helper session, stored on a super device, leaves there what the
    reader of the metadata and the tables of the partitions expect. *)
From S2P Require Import Prelude Bytes Device LpFormat LpUtility LpReader LpWriter LpImage LpCrash LpExtent.
From S2P Require Import LpBuilder LpAlloc LpFree LpGrow LpInvariant LpResize LpExport LpRoundtrip DmTarget.
From S2P Require Import DeviceMapper DmLinear DmMap LpReach LpLayout LayoutTiles LayoutSuper LayoutStore.
From S2P Require Import LayoutSession.
From S2P Require Import SparseFormat BackedBlock BlockList SparseOutput SparseFile SparseImage SparseRead.
From S2P Require Import SparseRoundtrip SparseWrite SuperFlash LayoutSparse LayoutHelper.
From coqutil Require Import Byte.

(** A session whose builder can be exported to blocks, with room for the metadata. *)
Record helper_ready (sh : SuperFlashHelper) (b : MetadataBuilder) (dv : LpMetadataBlockDevice) (m : LpMetadata) : Prop := {
  hr_session : helper_session sh b dv;
  hr_export : Export b = Ret m;
  hr_region : region_end m < 2 ^ 32;
  hr_copies : copy_size m ≤ metadata_max_size (m_geometry m);
  hr_blocks : block_layout m dv;
}.

(** ** The sparse file *)

Section Ready.
Context (sha256 : bytes → bytes) (sha256_length : ∀ bs, length (sha256 bs) = 32%nat).
Context (sh : SuperFlashHelper) (b : MetadataBuilder) (dv : LpMetadataBlockDevice) (m : LpMetadata).
Context (ready : helper_ready sh b dv m).

Lemma ready_input : layout_input (sh_builder sh) b m dv.
Proof using ready. destruct ready as [[Hl _ _ _ _] Hx Hr Hc _]. by apply session_input. Qed.
(** The layout and what is true of it. *)
Record layout_ready (L : list SuperImageExtent) (blob : bytes) (last : Z) : Prop := {
  lr_layout : GetImageLayout sha256 (sh_builder sh) = Ret L;
  lr_some : L ≠ [];
  lr_made : layout_made sha256 (sh_builder sh) m dv blob L last;
  lr_whole : Forall (whole (logical_block_size (m_geometry m))) L;
  lr_sparse : Forall (sparse_extent (sh_image_fds sh) (logical_block_size (m_geometry m))) L;
}.
Lemma ready_layout : ∃ L blob last, layout_ready L blob last.
Proof using ready sha256_length.
  pose proof ready_input as Hin. destruct ready as [[_ _ Hopen _ _] Hx Hr Hc Hb].
  destruct (GetImageLayout_made sha256 sha256_length _ b m dv Hin) as (L & blob & last & HL & Hne & Hm).
  exists L, blob, last. split; try done; [by eapply layout_whole|by eapply layout_sparse].
Qed.

Context (calloc_ok : heap → bool) (memory_left : ∀ h, calloc_ok h = true) (blob_at : bytes → Z).
Context (env : Env) (byte_of : source → byte) (memory : env_ok env byte_of).
Context {D : Type} `{!Posix D, !Gz D} (patience : nat) (gz : bool).
Context (at_end : D → Prop) (content_of : D → bytes).
Context (stores : appends at_end content_of (if gz then gz_file_ops patience else file_ops patience)).

(** Storing the file on a device gives the layout with the bytes of the images. *)
Lemma helper_flashes h fd images L blob last : layout_ready L blob last → at_end fd →
  memory_ok (sh_image_fds sh) blob_at images byte_of L →
  ∃ f sh' h', GetSparseLayout sha256 calloc_ok blob_at (sh, h) = (Ret f, (sh', h')) ∧
  ∃ h1 fd' img, sparse_file_write env calloc_ok patience f gz true false h' fd = (Ret (), h1, fd') ∧
    content_of fd' = content_of fd ++ img ∧
    ∀ start verbose h2, ∃ f' src h3 ls' l',
      sparse_file_import_buf calloc_ok start img verbose false h2 = (Ret f', (src, h3)) ∧
      sf_block_size f' = logical_block_size (m_geometry m) ∧ sf_len f' = last ∧ list_ok h3 (sf_list f') ls' l' ∧
      ∀ c, last ≤ zlen c →
        onto (λ pos, buffer_byte start img <$> content (sf_block_size f') l' pos) c (flash images c L).
Proof using ready sha256_length memory_left memory stores.
  intros [HL Hne Hmade Hw Hx] Hfd Hmem. set (bs := logical_block_size (m_geometry m)) in *.
  pose proof ready_input as Hin. destruct ready as [[Hl (m0 & Hm0 & Hg0) Hopen Hext _] Hexp _ _ Hb].
  destruct (block_size _ b m dv Hin Hb) as (Hbs & H4 & _). fold bs in Hbs, H4.
  assert (Hg : m_geometry m0 = m_geometry m) by (by apply Export_inv in Hexp as (_ & -> & _)).
  destruct (layout_blocks sha256 sha256_length _ b m dv Hin blob L last Hmade Hb Hne) as [Hk Hn]. fold bs in Hk, Hn.
  destruct (GetSparseLayout_ok sha256 calloc_ok memory_left blob_at sh h m0 L last) as (f & sh' & h' & l & E & _ & _ & Hso & Hlen);
    rewrite ?Hg; fold bs; try done; [by unfold helper_layout; rewrite Hext, decide_True|lia|apply Hmade|].
  exists f, sh', h'. split; [done|]. rewrite Hg in Hso. fold bs in Hso.
  pose proof (layout_file_ok blob_at (sh_image_fds sh) h' f bs L last l Hso Hlen) as Hfile.
  pose proof (sf_size _ _ _ _ _ _ _ _ Hso) as [_ Hsz].
  destruct (write_read_image env byte_of memory patience gz at_end content_of stores calloc_ok memory_left h' f (last / bs) l fd)
    as (h1 & fd' & img & E1 & E2 & Hread); [apply Hfile; try done; unfold MAX_BACKED_BLOCK_SIZE; lia|done|].
  exists h1, fd', img. split; [done|]. split; [done|]. intros start verbose h2.
  destruct (Hread start verbose h2) as (f' & src & h3 & ls' & l' & E3 & Hs1 & Hs2 & Hl' & Hc).
  exists f', src, h3, ls', l'. split; [done|]. rewrite Hs1, Hs2. split; [done|]. split; [done|]. split; [done|].
  intros c Hroom i. rewrite Hc, Hsz. by eapply layout_onto; try done; try lia; apply Hmade.
Qed.
End Ready.

(** The parts of a layout, and where its images come from. *)
Lemma layout_parts sha256 s m dv blob L last : layout_made sha256 s m dv blob L last →
  (∀ e, e ∈ geometry_extents sha256 (m_geometry m) → e ∈ L) ∧
  (∀ slot, 0 ≤ slot < metadata_slot_count (m_geometry m) →
     BlobExtent (primary_at m slot) (copy_bytes m blob) ∈ L ∧ BlobExtent (backup_at m slot) (copy_bytes m blob) ∈ L) ∧
  (∀ part image e, part ∈ m_partitions m → lb_image_map s !! GetPartitionName part = Some image →
     e ∈ image_list image 0 (extents_of m part) → e ∈ L) ∧
  ∀ e, e ∈ L → se_type e = PARTITION → ∃ part image,
     part ∈ m_partitions m ∧ lb_image_map s !! GetPartitionName part = Some image ∧ e ∈ image_list image 0 (extents_of m part).
Proof.
  intros [_ _ _ _ _ Hs Hg _].
  assert (Hparts : ∀ e, e ∈ concat (parts_of s m <$> m_partitions m) ↔ ∃ part image, part ∈ m_partitions m ∧
    lb_image_map s !! GetPartitionName part = Some image ∧ e ∈ image_list image 0 (extents_of m part)).
  { intros e. rewrite list_elem_of_In, in_concat. split.
    - intros (l & Hl & He). apply list_elem_of_In in Hl, He. apply list_elem_of_fmap in Hl as (part & -> & Hp).
      unfold parts_of in He. destruct (lb_image_map s !! _) as [image|] eqn:Ei; [by exists part, image|by apply not_elem_of_nil in He].
    - intros (part & image & Hp & Hi & He). exists (parts_of s m part). rewrite <- !list_elem_of_In.
      split; [apply list_elem_of_fmap; by exists part|]. unfold parts_of. by rewrite Hi. }
  split; [intros e He; apply Hs, elem_of_app; by left|]. split.
  { intros slot Hslot. destruct (copy_listed m (copy_bytes m blob) slot Hslot) as [H1 H2].
    split; apply Hs, elem_of_app; right; apply elem_of_app; by left. }
  split.
  - intros part image e Hp Hi He. apply Hs, elem_of_app. right. apply elem_of_app. right. apply Hparts. by exists part, image.
  - intros e He Ht. destruct (Hg e He) as [Hin|Hd]; [|congruence]. apply Hparts.
    apply elem_of_app in Hin as [Hin|[Hin|Hin]%elem_of_app]; [..|done]; exfalso.
    + unfold geometry_extents in Hin. by repeat (apply elem_of_cons in Hin as [->|Hin]; [done|]); apply not_elem_of_nil in Hin.
    + unfold copies in Hin. apply list_elem_of_In, in_concat in Hin as (l & Hl & Hin). apply list_elem_of_In in Hl, Hin.
      apply list_elem_of_fmap in Hl as (i & -> & _). by repeat (apply elem_of_cons in Hin as [->|Hin]; [done|]); apply not_elem_of_nil in Hin.
Qed.

(** ** Booting from it *)

(** The metadata of a slot has the partitions of the metadata, at most under other names. *)
Lemma adjusted_tables m m' slot : AdjustMetadataForSlot m slot = Ret m' →
  m_extents m' = m_extents m ∧ zlen (m_block_devices m') = zlen (m_block_devices m) ∧
  Forall2 (λ p p', p_first_extent_index p' = p_first_extent_index p ∧ p_num_extents p' = p_num_extents p)
    (m_partitions m) (m_partitions m').
Proof.
  unfold AdjustMetadataForSlot. intros (suffix & _ & H)%bind_Ret. apply bind_Ret in H as (ps & Hps & H).
  apply bind_Ret in H as (bs & Hbs & H). apply bind_Ret in H as (gs & _ & [= <-]). cbn.
  apply mapM_Ret in Hps, Hbs. split; [done|]. split; [unfold zlen; by rewrite (Forall2_length _ _ _ Hbs)|].
  eapply Forall2_impl; [exact Hps|]. intros p p'. unfold adjust_partition. case_decide; [by intros [= <-]|].
  by intros ([] & _ & [= <-])%bind_Ret.
Qed.
Lemma resolve_linear es i : Forall flashable es → 0 ≤ i < total es → ∃ x, resolve es i = Some (OnDevice 0 x).
Proof.
  intros Hes. revert i. induction Hes as [|[n d y|n] es He _ IH]; intros i; cbn [total num_sectors resolve]; [lia| |done].
  destruct He as (-> & _). intros Hi. case_decide; [by eexists|]. apply IH. lia.
Qed.

Section Boot.
Context (sha256 : bytes → bytes) (sha256_length : ∀ bs, length (sha256 bs) = 32%nat) (nothrow_new : Z → bool).
Context (s : SuperLayoutBuilder) (b : MetadataBuilder) (m : LpMetadata) (dv : LpMetadataBlockDevice).
Context (input : layout_input s b m dv).
Context (blob : bytes) (L : list SuperImageExtent) (last : Z) (made : layout_made sha256 s m dv blob L last).
Context (images : bytes → bytes) (c : bytes) (room : bd_size dv ≤ zlen c < 2 ^ 63).

(** The reader finds the metadata, and the table of a partition leads from each of its
    sectors to a sector that holds that of its image. *)
Lemma flashed_boots {D E} `{BlockIOLive D, !BlockIO E} slot (d : D) (opener : @IPartitionOpener E) (Realpath : bytes → option bytes)
    (super_device : bytes) (path : Z → bytes) : contents d = flash images c L →
  nothrow_new (zlen (serialize_tables m)) = true → 0 ≤ slot < metadata_slot_count (m_geometry m) → ∃ d',
  ReadMetadata_fd sha256 nothrow_new slot d =
    (AdjustMetadataForSlot (written sha256 (with_geometry m (sealed sha256 (m_geometry m)))) slot, d') ∧
  ∀ m', AdjustMetadataForSlot (written sha256 (with_geometry m (sealed sha256 (m_geometry m)))) slot = Ret m' →
    paths_resolve opener Realpath super_device m' path →
    ∀ i part part' image name force timeout dev_name, m_partitions m !! i = Some part → m_partitions m' !! i = Some part' →
      lb_image_map s !! GetPartitionName part = Some image → ∃ t,
      CreateDmTableInternal Realpath (mkFilled super_device m' part' name force timeout dev_name opener) empty_table = Ret t ∧
      table_num_sectors t = total (extents_of m part) ∧
      ∀ k, 0 ≤ k < total (extents_of m part) → ∃ x, table_map t k = Some (ToDevice (path 0) x) ∧
        sub (contents d) (x * LP_SECTOR_SIZE) LP_SECTOR_SIZE = padded (images image) (k * LP_SECTOR_SIZE) LP_SECTOR_SIZE.
Proof using input made room sha256_length.
  intros Hd Hnew Hslot.
  destruct (stored_read sha256 sha256_length nothrow_new s b m dv input blob L last made images c room slot d Hd Hnew Hslot) as [d' E1].
  exists d'. split; [done|]. intros m' Hm' Hpaths i part part' image name force timeout dev_name Hp Hp' Him.
  destruct (adjusted_tables _ _ _ Hm') as (Hx & Hb & Hps).
  destruct (Forall2_lookup_lr _ _ _ _ _ _ Hps Hp Hp') as [Hf Hn].
  assert (Hen : entries_of m' part' = entries_of m part) by (unfold entries_of; by rewrite Hx, Hf, Hn).
  assert (Hes : extents_of m' part' = extents_of m part) by (unfold extents_of; by rewrite Hen).
  apply list_elem_of_lookup_2 in Hp. destruct (part_ok s b m dv input part Hp) as ([H1 H2 H3 H4 H5] & Hfl & _).
  destruct (partition_table_ok opener Realpath super_device m' path Hpaths part' name force timeout dev_name)
    as (t & Ht & Hsize & _ & _ & Hmap).
  { split; rewrite ?Hes, ?Hen, ?Hx, ?Hb, ?Hf, ?Hn; done. }
  exists t. rewrite <- Hes. split; [done|]. split; [done|]. intros k Hk. rewrite Hes in Hmap, Hk.
  destruct (resolve_linear _ k Hfl Hk) as [x Hr]. exists x. rewrite Hmap, Hr, Hd by lia. split; [done|].
  by eapply (stored_image sha256 s b m dv input blob L last made images c room part image k 0 x Hp Him ltac:(lia)).
Qed.
End Boot.
