(* ===== verification/LayoutProps.v ===== *)
(** * Properties of building and flashing a super partition

    Builders of clients, tables in image files, layouts and their sparse files, with an
    instance of each on a small super partition. *)
From S2P Require Import Prelude Bytes Device LpFormat LpUtility LpReader LpWriter LpImage LpCrash LpExtent.
From S2P Require Import LpBuilder LpAlloc LpInvariant LpExport LpRoundtrip DmTarget DeviceMapper DmLinear DmMap.
From S2P Require Import LpReach LpLayout LayoutTiles LayoutSuper LayoutStore LayoutSession BuilderProps.
From S2P Require Import SparseFormat BackedBlock BlockList SparseOutput SparseFile SparseImage SparseRead.
From S2P Require Import SparseRoundtrip SparseWrite SuperFlash LayoutSparse LayoutHelper LayoutBoot SparseProps.
From S2P Require Import DmProps.
From coqutil Require Import Byte.
#[local] Existing Instance SDemo.no_gz.

(** ** A super partition for the instances *)

Module LDemo.
(** 4 MiB in blocks of 4 KiB, aligned to 1 MiB. *)
Definition info : BlockDeviceInfo := mkInfo 4194304 1048576 0 4096 (str "super").
Definition builder_of (r : outcome MetadataBuilder) : MetadataBuilder := match r with Ret b => b | _ => EmptyBuilder end.
Definition table_of (r : outcome LpMetadata) : LpMetadata :=
  match r with Ret m => m | _ => mkMetadata BDemo.geometry (b_header EmptyBuilder) [] [] [] [] end.
Definition new : MetadataBuilder := builder_of (New_devices [info] (str "super") 4096 1).
(** Two partitions, and what was tried on the way. *)
Definition ops : list builder_op :=
  [OpAddGroup (str "main") 2621440; OpAddPartition (str "system") (str "main") 1;
   OpAddPartition (str "scratch") (str "main") 1; OpResize (str "scratch") 70000; OpResize (str "gone") 1;
   OpAddPartition (str "vendor") (str "main") 1; OpRemovePartition (str "scratch")].
Definition builder : MetadataBuilder := snd (run_ops BDemo.fetcher ops new).
Definition table : LpMetadata := table_of (Export builder).
(** The file [super_empty.img], before and after the table was written. *)
Definition file : MemDisk := mkDisk (zeroes 4800) 0 4800.
Definition super_empty : MemDisk := snd (WriteToImageFile_fd BDemo.digest table file).
Definition dv : LpMetadataBlockDevice := mkBlockDevice 2048 1048576 0 4194304 (strncpy 36 (str "super")) 0.

(** The images: descriptors 3 and 4. *)
Definition OpenFile (name : bytes) : option Z :=
  if decide (name = str "system.img") then Some 3 else if decide (name = str "vendor.img") then Some 4 else None.
Definition image (fd : Z) : bytes :=
  if decide (fd = 3) then replicate (Z.to_nat 6000) Byte.x53 else if decide (fd = 4) then replicate 4096 Byte.x56 else [].
Definition images (name : bytes) : bytes := match OpenFile name with Some fd => image fd | None => [] end.
Definition opened (fd : Z) : MemFile := mkFile (image fd) 0.
Definition stat_size (fd : Z) : option Z := Some (zlen (image fd)).
Definition calls : list (bytes * bytes * bool) :=
  [(str "system", str "system.img", false); (str "vendor", str "vendor.img", false); (str "odm", str "odm.img", true)].
Definition opened_helper : SuperFlashHelper :=
  snd (Helper_Open BDemo.digest BDemo.allocates super_empty NewSuperFlashHelper).
Definition helper : SuperFlashHelper :=
  snd (add_calls BDemo.fetcher SDemo.calloc_ok OpenFile opened stat_size calls opened_helper).
Definition helper_builder : MetadataBuilder := default EmptyBuilder (lb_builder (sh_builder helper)).
Definition exported : LpMetadata := table_of (Export helper_builder).
Definition layout : list SuperImageExtent :=
  match GetImageLayout BDemo.digest (sh_builder helper) with Ret L => L | _ => [] end.

Lemma info_is_ok : Forall info_ok [info].
Proof. by repeat constructor. Qed.
Lemma info_is_regular : Forall regular [info].
Proof. constructor; [|constructor]. intros _. split; [by exists 4|by exists 256]. Qed.
Lemma ops_are_ok : Forall op_ok ops.
Proof. repeat (constructor; [try done; try (split; [|done]); by apply (bool_decide_unpack _)|]). constructor. Qed.
Lemma new_made : New_devices [info] (str "super") 4096 1 = Ret new.
Proof. by vm_compute. Qed.
Lemma builder_session : session_ok builder.
Proof.
  destruct (New_devices_ok [info] (str "super") 4096 1 new info_is_ok info_is_regular ltac:(done) ltac:(done) new_made) as (H1 & H2 & _).
  destruct (run_ops_ok BDemo.fetcher ops new (conj H1 H2) ops_are_ok) as (b & E & Hb). unfold builder. by rewrite E.
Qed.
Lemma table_exported : Export builder = Ret table.
Proof. by vm_compute. Qed.
Lemma table_fits : zlen (serialize_tables table) ≤ metadata_max_size (b_geometry builder).
Proof. by vm_compute. Qed.
Lemma builder_device : b_block_devices builder = [dv].
Proof. by vm_compute. Qed.
Lemma table_geometry : geometry_ok (m_geometry table).
Proof.
  destruct (exported_parts builder table builder_session table_exported) as (-> & _).
  apply (bt_geometry _ (proj2 builder_session)).
Qed.
Lemma table_serializable : serializable table.
Proof. exact (exported_serializable builder table builder_session table_exported table_fits). Qed.
Lemma table_bare : bare_table (stored_table BDemo.digest table) dv.
Proof. exact (session_bare BDemo.digest BDemo.digest_is_32 builder table dv builder_session table_exported table_fits builder_device). Qed.
Lemma file_written : WriteToImageFile_fd BDemo.digest table file = (Ret (), super_empty).
Proof.
  unfold super_empty. assert (H : fst (WriteToImageFile_fd BDemo.digest table file) = Ret ()) by (by vm_compute).
  by destruct (WriteToImageFile_fd _ _ _) as [r d]; simpl in *; rewrite H.
Qed.
Lemma file_read : ∃ d, ReadFromImageFile_fd BDemo.digest BDemo.allocates super_empty = (Ret (stored_table BDemo.digest table), d).
Proof.
  apply (image_file_ok BDemo.digest BDemo.digest_is_32 BDemo.allocates table file super_empty table_serializable table_geometry);
    [done|done|by vm_compute|exact file_written].
Qed.
Lemma helper_opened : Helper_Open BDemo.digest BDemo.allocates super_empty NewSuperFlashHelper = (Ret (), opened_helper).
Proof.
  unfold opened_helper. assert (H : fst (Helper_Open BDemo.digest BDemo.allocates super_empty NewSuperFlashHelper) = Ret ()) by (by vm_compute).
  by destruct (Helper_Open _ _ _ _) as [r d]; simpl in *; rewrite H.
Qed.
Lemma helper_called : add_calls BDemo.fetcher SDemo.calloc_ok OpenFile opened stat_size calls opened_helper = (Ret (), helper).
Proof.
  unfold helper. assert (H : fst (add_calls BDemo.fetcher SDemo.calloc_ok OpenFile opened stat_size calls opened_helper) = Ret ()) by (by vm_compute).
  by destruct (add_calls _ _ _ _ _ _ _) as [r d]; simpl in *; rewrite H.
Qed.
Lemma helper_exported : Export helper_builder = Ret exported.
Proof. by vm_compute. Qed.
Lemma is_session : helper_session helper helper_builder dv.
Proof.
  destruct file_read as [d Hd].
  destruct (Helper_Open_session BDemo.digest BDemo.allocates super_empty _ d dv opened_helper Hd table_bare helper_opened) as [b Hb].
  pose proof (add_calls_session BDemo.fetcher SDemo.calloc_ok OpenFile opened stat_size calls opened_helper b dv Hb) as H.
  rewrite helper_called in H. destruct H as [b' Hs]. pose proof (ls_open _ _ _ (hs_layout _ _ _ Hs)) as Ho.
  unfold helper_builder. rewrite Ho. exact Hs.
Qed.
Lemma helper_geometry : logical_block_size (m_geometry exported) = 4096 ∧ metadata_max_size (m_geometry exported) = 4096.
Proof. by vm_compute. Qed.
Lemma helper_is_ready : helper_ready helper helper_builder dv exported.
Proof.
  destruct helper_geometry as [Hb Hm].
  split; [exact is_session|exact helper_exported|by vm_compute|by vm_compute|].
  split; rewrite ?Hb, ?Hm; [apply Z.divide_refl|apply Z.divide_refl|by vm_compute|by vm_compute].
Qed.
Lemma layout_found : GetImageLayout BDemo.digest (sh_builder helper) = Ret layout.
Proof.
  unfold layout. destruct (ready_layout BDemo.digest BDemo.digest_is_32 helper helper_builder dv exported helper_is_ready)
    as (L & blob & last & [H _ _ _ _]). by rewrite H.
Qed.

(** Memory in which the address of a blob tells its bytes. *)
Definition blob_at (blob : bytes) : Z := Z.pos (encode blob) * 2 ^ 64.
Definition byte_of (s : source) : byte :=
  match s with
  | FromMemory a => default Byte.x00 (default [] (decode (Z.to_pos (a / 2 ^ 64))) !! Z.to_nat (a mod 2 ^ 64))
  | FromFile _ _ => Byte.x00
  | FromFd fd o => default Byte.x00 (image fd !! Z.to_nat o)
  | FromFill v i => word_byte v i
  end.
Definition env : Env :=
  mkEnv (λ a n, (λ i, byte_of (FromMemory (a + i))) <$> seqZ 0 n)
    (λ fd off n, Some ((λ i, byte_of (FromFd fd (off + i))) <$> seqZ 0 n)) (λ _, Some 0).
Lemma env_is_ok : env_ok env byte_of.
Proof. split; try done. intros f. exists 0. split; [done|]. done. Qed.
Lemma helper_images : sh_image_fds helper = <[str "vendor.img" := 4]> {[ str "system.img" := 3 ]}.
Proof. apply (bool_decide_unpack _). by vm_compute. Qed.
Lemma memory_holds L blob last : layout_ready BDemo.digest helper dv exported L blob last →
  memory_ok (sh_image_fds helper) blob_at images byte_of L.
Proof.
  intros [_ _ [_ _ _ Hw Hf _ _ _] _ _]. split.
  - intros e i He Ht Hi. destruct (proj1 (Forall_forall _ _) Hf e He) as [Hl _]. specialize (Hl Ht).
    destruct (proj1 (Forall_forall _ _) Hw e He) as [Ho _ Hend]. unfold byte_of, blob_at.
    rewrite Z.div_add_l, Z.div_small, Z.add_0_r by lia. rewrite Z.add_comm, Z.mod_add, Z.mod_small by lia.
    cbn [Z.to_pos]. rewrite decode_encode. cbn [from_option id].
    destruct (lookup_lt_is_Some_2 (se_blob e) (Z.to_nat i)) as [x ->]; [unfold zlen in Hl; lia|done].
  - intros name fd o Hfd Ho. rewrite helper_images in Hfd. apply lookup_insert_Some in Hfd as [[<- <-]|[_ [<- <-]%lookup_singleton_Some]]; done.
  - done.
Qed.
(** What was booted. *)
Definition booted : LpMetadata := table_of (AdjustMetadataForSlot (stored_table BDemo.digest exported) 0).
Definition system : LpMetadataPartition := mkPartition (strncpy 36 (str "system")) 1 0 1 1.
Definition vendor : LpMetadataPartition := mkPartition (strncpy 36 (str "vendor")) 1 1 1 1.
Lemma exported_partitions : m_partitions exported = [system; vendor].
Proof. by vm_compute. Qed.
Lemma vendor_found : ∃ part, part ∈ m_partitions exported ∧
  lb_image_map (sh_builder helper) !! GetPartitionName part = Some (str "vendor.img") ∧
  ImageExtent 2097152 4096 (str "vendor.img") 0 ∈ image_list (str "vendor.img") 0 (extents_of exported part).
Proof.
  exists vendor. split; [rewrite exported_partitions; right; left|]. split; [by vm_compute|].
  assert (E : extents_of exported vendor = [LinearExtent 8 0 4096]) by (by vm_compute). rewrite E. left.
Qed.
Lemma device_room : bd_size dv ≤ zlen (zeroes (Z.to_nat 4194304)) < 2 ^ 63.
Proof. unfold zlen, zeroes. rewrite length_replicate, Z2Nat.id by done. done. Qed.
Lemma one_slot : 0 ≤ 0 < metadata_slot_count (m_geometry exported).
Proof. by vm_compute. Qed.
Lemma booted_found : AdjustMetadataForSlot (stored_table BDemo.digest exported) 0 = Ret booted.
Proof. by vm_compute. Qed.
Lemma booted_devices : m_block_devices booted = [dv].
Proof. by vm_compute. Qed.
Lemma booted_paths : paths_resolve DmDemo.opener DmDemo.realpath (str "super") booted DmDemo.path.
Proof. intros i x Hx. rewrite booted_devices in Hx. apply list_lookup_singleton_Some in Hx as [-> <-]. by vm_compute. Qed.
Lemma system_first : m_partitions exported !! 0%nat = Some system.
Proof. by rewrite exported_partitions. Qed.
Lemma system_booted : m_partitions booted !! 0%nat = Some system.
Proof. by vm_compute. Qed.
Lemma system_image : lb_image_map (sh_builder helper) !! GetPartitionName system = Some (str "system.img").
Proof. by vm_compute. Qed.
Lemma contents_disk x : contents (mkDisk x 0 0) = x.
Proof. done. Qed.
Lemma system_size : total (extents_of exported system) = 16.
Proof. by vm_compute. Qed.
Lemma layout_memory L : GetImageLayout BDemo.digest (sh_builder helper) = Ret L →
  memory_ok (sh_image_fds helper) blob_at images byte_of L.
Proof.
  intros H. destruct (ready_layout BDemo.digest BDemo.digest_is_32 helper helper_builder dv exported helper_is_ready)
    as (L' & blob & last & Hr). rewrite (lr_layout _ _ _ _ _ _ _ Hr) in H. injection H as <-. exact (memory_holds _ _ _ Hr).
Qed.
(** Slots of 4608 bytes, two of them. *)
Definition odd : MetadataBuilder := builder_of (New_devices [info] (str "super") 4608 2).
Definition odd_table : LpMetadata := table_of (Export odd).
Definition odd_helper : SuperFlashHelper := mkHelper (mkLayoutBuilder (Some odd) ∅) (Some odd_table) [] ∅ ∅.
Definition odd_layout : list SuperImageExtent :=
  match GetImageLayout BDemo.digest (sh_builder odd_helper) with Ret L => L | _ => [] end.
Definition data_at (L : list SuperImageExtent) : list Z :=
  map se_offset (List.filter (λ e, bool_decide (se_type e = DATA)) L).
Definition blocks_at (r : outcome (list backed_block)) : outcome (list Z) :=
  match r with Ret blocks => Ret (map (λ x, bb_block x * 4096) blocks) | Reject => Reject | Crash => Crash end.
End LDemo.

(** ** Builders of clients *)

(** C14: Let [New] make a builder for block devices whose alignment, where there is one, divides
    the size of the device and is a multiple of its logical block size.  Whatever a client
    then does with it (adding, removing and resizing groups and partitions, moving partitions
    to other groups, by names without NUL and without hints for the regions), failing calls
    included, no operation aborts, and the builder keeps its invariant: no sector has two
    owners or lies outside its device, sizes, names and groups are consistent, and every
    number is in the range of its member.  What [Export] returns then can be serialised,
    provided that it fits a slot. *)
Theorem client_session (fetcher : IPropertyFetcher) (infos : list BlockDeviceInfo) (super_partition : bytes)
    (size slots : Z) (b : MetadataBuilder) (ops : list builder_op)
    (infos_ok : Forall info_ok infos) (infos_regular : Forall regular infos) (size_ok : is_u32 size) (slots_ok : is_u32 slots)
    (made : New_devices infos super_partition size slots = Ret b) (ops_ok : Forall op_ok ops) :
  ∃ b', run_ops fetcher ops b = (Ret (), b') ∧ builder_ok b' ∧ builder_typed b' ∧
    ∀ m, Export b' = Ret m → zlen (serialize_tables m) ≤ metadata_max_size (b_geometry b') → serializable m.
Proof.
  destruct (New_devices_ok infos super_partition size slots b) as (H1 & H2 & _); [done..|].
  destruct (run_ops_ok fetcher ops b (conj H1 H2) ops_ok) as (b' & E & Hb). exists b'.
  split; [done|]. split; [apply Hb|]. split; [apply Hb|]. intros m. by apply exported_serializable.
Qed.

Lemma client_session_witness : builder_typed LDemo.builder ∧ serializable LDemo.table.
Proof.
  destruct (client_session BDemo.fetcher [LDemo.info] (str "super") 4096 1 LDemo.new LDemo.ops LDemo.info_is_ok
    LDemo.info_is_regular ltac:(done) ltac:(done) LDemo.new_made LDemo.ops_are_ok) as (b & E & _ & Ht & Hx).
  assert (Hb : LDemo.builder = b) by (unfold LDemo.builder; by rewrite E).
  rewrite Hb. split; [exact Ht|]. apply Hx; [rewrite <- Hb; exact LDemo.table_exported|rewrite <- Hb; exact LDemo.table_fits].
Defined.

(** A table that [WriteToImageFile] stored at the beginning of a file is read back by
    [ReadFromImageFile], with the offsets of its tables and its checksums filled in. *)
Theorem image_file_roundtrip (sha256 : bytes → bytes) (nothrow_new : Z → bool) (sha256_length : ∀ bs, length (sha256 bs) = 32%nat)
    {D} `{BlockIOLive D} (m : LpMetadata) (d d' : D)
    (m_ok : serializable m) (g_ok : geometry_ok (m_geometry m)) (alloc_ok : nothrow_new (zlen (serialize_tables m)) = true)
    (at_start : position d = 0) (small : zlen (contents d) < 2 ^ 63)
    (stored : WriteToImageFile_fd sha256 m d = (Ret (), d')) :
  ∃ d'', ReadFromImageFile_fd sha256 nothrow_new d' = (Ret (stored_table sha256 m), d'').
Proof. by eapply image_file_ok. Qed.

Lemma image_file_roundtrip_witness :
  ∃ d, ReadFromImageFile_fd BDemo.digest BDemo.allocates LDemo.super_empty = (Ret (stored_table BDemo.digest LDemo.table), d).
Proof.
  apply (image_file_roundtrip BDemo.digest BDemo.allocates BDemo.digest_is_32 LDemo.table LDemo.file LDemo.super_empty
    LDemo.table_serializable LDemo.table_geometry); [reflexivity|reflexivity|by vm_compute|exact LDemo.file_written].
Defined.

(** ** Sessions of the flash helper *)

(** C22: a helper that opened a table without extents keeps its invariant through every
    sequence of [AddPartition] calls, failed ones included: the extents of its builder are
    disjoint and on the one device, every partition with extents has an image whose
    descriptor is open, and so has every partition that [WillFlash] reports.  The only ways
    to abort are an image on which the sparse reader aborts and a descriptor without size. *)
Theorem flash_helper_session {D F} `{!BlockIO D, !Posix F} (sha256 : bytes → bytes) (nothrow_new : Z → bool)
    (fetcher : IPropertyFetcher) (calloc_ok : heap → bool) (OpenFile : bytes → option Z) (opened : Z → F)
    (stat_size : Z → option Z) (fd fd' : D) (m : LpMetadata) (dv : LpMetadataBlockDevice) (sh : SuperFlashHelper)
    (calls : list (bytes * bytes * bool))
    (read : ReadFromImageFile_fd sha256 nothrow_new fd = (Ret m, fd')) (table : bare_table m dv)
    (opens : Helper_Open sha256 nothrow_new fd NewSuperFlashHelper = (Ret (), sh)) :
  match add_calls fetcher calloc_ok OpenFile opened stat_size calls sh with
  | (Crash, _) => ∃ i, is_sparse_file calloc_ok opened i = Crash ∨ stat_size i = None
  | (_, sh') => (∃ b, helper_session sh' b dv) ∧
      ∀ p, WillFlash p sh' = true → ∃ image i, lb_image_map (sh_builder sh') !! p = Some image ∧ sh_image_fds sh' !! image = Some i
  end.
Proof.
  destruct (Helper_Open_session sha256 nothrow_new fd m fd' dv sh read table opens) as [b Hb].
  pose proof (add_calls_session fetcher calloc_ok OpenFile opened stat_size calls sh b dv Hb) as H.
  destruct (add_calls _ _ _ _ _ _ _) as [[[]| |] sh']; [..|done]; (split; [done|]); destruct H as [b' Hs];
    intros p Hp; apply bool_decide_eq_true in Hp; destruct (hs_flash _ _ _ Hs p Hp) as [image Hi];
    destruct (hs_open _ _ _ Hs p image Hi) as [i Hf]; by exists image, i.
Qed.

Lemma flash_helper_session_witness :
  (∃ b, helper_session LDemo.helper b LDemo.dv) ∧
  ∃ image i, lb_image_map (sh_builder LDemo.helper) !! str "system" = Some image ∧ sh_image_fds LDemo.helper !! image = Some i.
Proof.
  destruct LDemo.file_read as [d Hd].
  pose proof (flash_helper_session BDemo.digest BDemo.allocates BDemo.fetcher SDemo.calloc_ok LDemo.OpenFile LDemo.opened
    LDemo.stat_size LDemo.super_empty d _ LDemo.dv LDemo.opened_helper LDemo.calls Hd LDemo.table_bare LDemo.helper_opened) as H.
  rewrite LDemo.helper_called in H. destruct H as [Hs Hf]. split; [exact Hs|]. apply (Hf (str "system")). by vm_compute.
Defined.

(** ** Layouts *)

(** A session has a layout.  Its extents tile the super partition from byte 0 on, inside
    the device; the reserved zeroes, both copies of the geometry, both copies of the metadata
    of every slot and every part of every image are among them, and everything else is a
    gap. *)
Theorem super_layout_complete (sha256 : bytes → bytes) (sha256_length : ∀ bs, length (sha256 bs) = 32%nat)
    (sh : SuperFlashHelper) (b : MetadataBuilder) (dv : LpMetadataBlockDevice) (m : LpMetadata)
    (ready : helper_ready sh b dv m) :
  ∃ L blob last, GetImageLayout sha256 (sh_builder sh) = Ret L ∧ SerializeMetadata sha256 m = Ret blob ∧
    tiles 0 L last ∧ 0 < last ≤ bd_size dv ∧
    (∀ e, e ∈ geometry_extents sha256 (m_geometry m) → e ∈ L) ∧
    (∀ slot, 0 ≤ slot < metadata_slot_count (m_geometry m) →
       BlobExtent (primary_at m slot) (copy_bytes m blob) ∈ L ∧ BlobExtent (backup_at m slot) (copy_bytes m blob) ∈ L) ∧
    (∀ part image e, part ∈ m_partitions m → lb_image_map (sh_builder sh) !! GetPartitionName part = Some image →
       e ∈ image_list image 0 (extents_of m part) → e ∈ L) ∧
    ∀ e, e ∈ L → se_type e = PARTITION → ∃ part image,
       part ∈ m_partitions m ∧ lb_image_map (sh_builder sh) !! GetPartitionName part = Some image ∧
       e ∈ image_list image 0 (extents_of m part).
Proof.
  destruct (ready_layout sha256 sha256_length sh b dv m ready) as (L & blob & last & [HL Hne Hm _ _]).
  exists L, blob, last. split; [done|]. split; [apply Hm|]. split; [apply Hm|]. split; [|by eapply layout_parts].
  split; [|apply Hm]. destruct L as [|e L]; [done|]. destruct (lm_tiles _ _ _ _ _ _ _ Hm) as (Ho & Hs & Ht).
  apply tiles_le in Ht. unfold se_end in Ht. lia.
Qed.

Lemma super_layout_complete_witness :
  ∃ L e, GetImageLayout BDemo.digest (sh_builder LDemo.helper) = Ret L ∧ e ∈ L ∧ se_image_name e = str "vendor.img" ∧
    se_offset e = 2097152.
Proof.
  destruct (super_layout_complete BDemo.digest BDemo.digest_is_32 LDemo.helper LDemo.helper_builder LDemo.dv LDemo.exported
    LDemo.helper_is_ready) as (L & blob & last & HL & _ & _ & _ & _ & _ & Hin & _).
  exists L, (ImageExtent 2097152 4096 (str "vendor.img") 0). split; [exact HL|]. split; [|by split].
  destruct LDemo.vendor_found as (part & Hp & Hi & He). exact (Hin part _ _ Hp Hi He).
Defined.

(** C2: a super partition that holds the layout of a session with the bytes of its images
    boots.  The reader of the metadata finds in every slot the table of the session; and for
    a partition with an image the device-mapper table has the size of the partition, and
    each of its sectors leads to a sector of the super partition that holds the sector of
    the image with that number, zeroes behind the end of the image. *)
Theorem flashed_super_boots {D E} `{BlockIOLive D, !BlockIO E} (sha256 : bytes → bytes) (sha256_length : ∀ bs, length (sha256 bs) = 32%nat)
    (nothrow_new : Z → bool) (sh : SuperFlashHelper) (b : MetadataBuilder) (dv : LpMetadataBlockDevice) (m : LpMetadata)
    (ready : helper_ready sh b dv m) (images : bytes → bytes) (c : bytes) (L : list SuperImageExtent) (d : D) (slot : Z)
    (opener : @IPartitionOpener E) (Realpath : bytes → option bytes) (super_device : bytes) (path : Z → bytes)
    (layout : GetImageLayout sha256 (sh_builder sh) = Ret L) (room : bd_size dv ≤ zlen c < 2 ^ 63)
    (flashed : contents d = flash images c L)
    (alloc_ok : nothrow_new (zlen (serialize_tables m)) = true) (slot_ok : 0 ≤ slot < metadata_slot_count (m_geometry m)) :
  ∃ d', ReadMetadata_fd sha256 nothrow_new slot d = (AdjustMetadataForSlot (stored_table sha256 m) slot, d') ∧
  ∀ m', AdjustMetadataForSlot (stored_table sha256 m) slot = Ret m' →
    paths_resolve opener Realpath super_device m' path →
    ∀ i part part' image name force timeout dev_name, m_partitions m !! i = Some part → m_partitions m' !! i = Some part' →
      lb_image_map (sh_builder sh) !! GetPartitionName part = Some image → ∃ t,
      CreateDmTableInternal Realpath (mkFilled super_device m' part' name force timeout dev_name opener) empty_table = Ret t ∧
      table_num_sectors t = total (extents_of m part) ∧
      ∀ k, 0 ≤ k < total (extents_of m part) → ∃ x, table_map t k = Some (ToDevice (path 0) x) ∧
        sub (contents d) (x * LP_SECTOR_SIZE) LP_SECTOR_SIZE = padded (images image) (k * LP_SECTOR_SIZE) LP_SECTOR_SIZE.
Proof.
  destruct (ready_layout sha256 sha256_length sh b dv m ready) as (L' & blob & last & [HL _ Hm _ _]).
  assert (L' = L) as -> by congruence.
  exact (flashed_boots sha256 sha256_length nothrow_new (sh_builder sh) b m dv (ready_input sh b dv m ready) blob L last Hm
    images c room slot d opener Realpath super_device path flashed alloc_ok slot_ok).
Qed.

Lemma flashed_super_boots_witness :
  ∃ t x, table_num_sectors t = 16 ∧ table_map t 3 = Some (ToDevice (str "/dev/block/by-name/super") x) ∧
    sub (flash LDemo.images (zeroes (Z.to_nat 4194304)) LDemo.layout) (x * 512) 512 =
    padded (LDemo.images (str "system.img")) (3 * 512) 512.
Proof.
  set (d := mkDisk (flash LDemo.images (zeroes (Z.to_nat 4194304)) LDemo.layout) 0 0).
  destruct (flashed_super_boots BDemo.digest BDemo.digest_is_32 BDemo.allocates LDemo.helper LDemo.helper_builder LDemo.dv LDemo.exported
    LDemo.helper_is_ready LDemo.images (zeroes (Z.to_nat 4194304)) LDemo.layout d 0 DmDemo.opener DmDemo.realpath (str "super") DmDemo.path
    LDemo.layout_found LDemo.device_room (LDemo.contents_disk _) eq_refl LDemo.one_slot) as (d' & _ & H).
  destruct (H LDemo.booted LDemo.booted_found LDemo.booted_paths 0%nat LDemo.system LDemo.system (str "system.img") [] false 0 []
    LDemo.system_first LDemo.system_booted LDemo.system_image) as (t & _ & Hn & Hk).
  rewrite LDemo.system_size in Hn, Hk. destruct (Hk 3 ltac:(lia)) as (x & Hx & Hs). exists t, x.
  rewrite (LDemo.contents_disk _ : contents d = _) in Hs. split; [exact Hn|]. split; [exact Hx|exact Hs].
Defined.

(** ** The sparse file of a layout *)

(** C21: Take a session whose tables can be exported, with room for them in their slots, where
    blocks divide 4096 and the size of a slot and the device has an alignment and fewer than
    2^31 blocks; memory suffices and the images can be read.  Then [GetSparseLayout]
    succeeds, its file can be written, and the sparse image that is written says of every byte of the super partition what the layout says: a
    device on which the bytes that [sparse_file_import_buf] finds in the image are put holds
    the geometry, the metadata, the bytes of the images and zeroes where the layout has
    them, and keeps its own bytes in the gaps and behind the end. *)
Theorem flash_file_roundtrip {D} `{!Posix D, !Gz D} (sha256 : bytes → bytes) (sha256_length : ∀ bs, length (sha256 bs) = 32%nat)
    (sh : SuperFlashHelper) (b : MetadataBuilder) (dv : LpMetadataBlockDevice) (m : LpMetadata) (ready : helper_ready sh b dv m)
    (calloc_ok : heap → bool) (alloc : ∀ h, calloc_ok h = true) (blob_at : bytes → Z) (env : Env) (byte_of : source → byte)
    (memory : env_ok env byte_of) (images : bytes → bytes)
    (layout_memory : ∀ L, GetImageLayout sha256 (sh_builder sh) = Ret L → memory_ok (sh_image_fds sh) blob_at images byte_of L)
    (patience : nat) (gz : bool) (at_end : D → Prop) (content_of : D → bytes)
    (stores : appends at_end content_of (if gz then gz_file_ops patience else file_ops patience))
    (h : heap) (fd : D) (ready_fd : at_end fd) :
  ∃ L f sh' h', GetImageLayout sha256 (sh_builder sh) = Ret L ∧
  GetSparseLayout sha256 calloc_ok blob_at (sh, h) = (Ret f, (sh', h')) ∧
  ∃ h1 fd' img, sparse_file_write env calloc_ok patience f gz true false h' fd = (Ret (), h1, fd') ∧
    content_of fd' = content_of fd ++ img ∧
    ∀ start verbose h2, ∃ f' src h3 ls' l',
      sparse_file_import_buf calloc_ok start img verbose false h2 = (Ret f', (src, h3)) ∧
      sf_block_size f' = logical_block_size (m_geometry m) ∧ list_ok h3 (sf_list f') ls' l' ∧
      ∀ c, bd_size dv ≤ zlen c →
        onto (λ pos, buffer_byte start img <$> content (sf_block_size f') l' pos) c (flash images c L).
Proof.
  destruct (ready_layout sha256 sha256_length sh b dv m ready) as (L & blob & last & Hr). pose proof (lr_layout _ _ _ _ _ _ _ Hr) as HL.
  destruct (helper_flashes sha256 sha256_length sh b dv m ready calloc_ok alloc blob_at env byte_of memory patience gz at_end
    content_of stores h fd images L blob last Hr ready_fd (layout_memory L HL)) as (f & sh' & h' & E & h1 & fd' & img & E1 & E2 & H).
  exists L, f, sh', h'. split; [done|]. split; [done|]. exists h1, fd', img. split; [done|]. split; [done|].
  intros start verbose h2. destruct (H start verbose h2) as (f' & src & h3 & ls' & l' & E3 & Hb & _ & Hl & Hc).
  exists f', src, h3, ls', l'. split; [done|]. split; [done|]. split; [done|]. intros c Hroom. apply Hc.
  pose proof (lm_last _ _ _ _ _ _ _ (lr_made _ _ _ _ _ _ _ Hr)). lia.
Qed.

Lemma flash_file_roundtrip_witness :
  ∃ L f sh' h' h1 fd', GetImageLayout BDemo.digest (sh_builder LDemo.helper) = Ret L ∧
    GetSparseLayout BDemo.digest SDemo.calloc_ok LDemo.blob_at (LDemo.helper, ∅) = (Ret f, (sh', h')) ∧
    sparse_file_write LDemo.env SDemo.calloc_ok 1 f false true false h' (mkFile [] 0) = (Ret (), h1, fd').
Proof.
  destruct (flash_file_roundtrip BDemo.digest BDemo.digest_is_32 LDemo.helper LDemo.helper_builder LDemo.dv LDemo.exported
    LDemo.helper_is_ready SDemo.calloc_ok (λ _, eq_refl) LDemo.blob_at LDemo.env LDemo.byte_of LDemo.env_is_ok LDemo.images
    LDemo.layout_memory 1 false (λ f : MemFile, mf_pos f = zlen (mf_bytes f)) mf_bytes (memfile_appends 1 ltac:(lia)) ∅
    (mkFile [] 0) eq_refl) as (L & f & sh' & h' & HL & E & h1 & fd' & img & E1 & _).
  exists L, f, sh', h', h1, fd'. split; [exact HL|]. split; [exact E|exact E1].
Defined.

(** Where the slots are not whole blocks the file is not the layout, and nothing reports
    it.  With slots of 4608 bytes in blocks of 4096 the second slot's copies belong at bytes
    16896 and 26112 and the first slot's backup at 21504; [GetSparseLayout] succeeds and puts
    them at 16384, 24576 and 20480. *)
Theorem sparse_layout_misplaced :
  LDemo.data_at LDemo.odd_layout = [4096; 8192; 12288; 16896; 21504; 26112] ∧
  match GetSparseLayout BDemo.digest SDemo.calloc_ok (λ _, 0) (LDemo.odd_helper, ∅) with
  | (Ret f, (_, h)) => LDemo.blocks_at (sf_blocks h f) = Ret [0; 4096; 8192; 12288; 16384; 20480; 24576]
  | _ => False
  end.
Proof. by vm_compute. Qed.
