(* ===== verification/SnapUpdate.v ===== *)
(** * Tables for an update ([libsnapshot/snapshot_metadata_updater.cpp])

    An update of a Virtual A/B device is written to the other slot.  Its manifest says
    which partitions and groups that slot has; [SnapshotMetadataUpdater] changes a builder
    accordingly. *)
From S2P Require Import Prelude Bytes LpFormat LpUtility Device LpReader LpExtent LpBuilder LpAlloc.

(** ** The manifest

    The messages are generated code; these are the fields that the updater and the creator
    of COW partitions read. *)

Record BlockRange := mkRange { br_start_block : Z; br_num_blocks : Z }.
Inductive OperationType := SOURCE_COPY | OtherOperation (type : Z).
Record InstallOperation := mkInstall {
  in_type : OperationType;
  in_src_extents : list BlockRange;
  in_dst_extents : list BlockRange;
}.
Record PartitionUpdate := mkPartitionUpdate {
  pu_partition_name : bytes;
  pu_new_size : Z;
  pu_estimate_cow_size : option Z;
  pu_operations : list InstallOperation;
  pu_hash_tree_extent : option BlockRange;
  pu_fec_extent : option BlockRange;
}.
Record DynamicPartitionGroup := mkDynamicGroup {
  dg_name : bytes;
  dg_size : Z;
  dg_partition_names : list bytes;
}.
(** The fields of [DynamicPartitionMetadata] about compression. *)
Record CompressionMetadata := mkCompression {
  dap_vabc_enabled : bool;
  dap_vabc_compression_param : bytes;
  dap_cow_version : Z;
  dap_threaded : option bool;
  dap_batch_writes : option bool;
}.
Record DeltaArchiveManifest := mkManifest {
  ma_partial_update : bool;
  ma_dynamic_groups : option (list DynamicPartitionGroup);
  ma_partitions : list PartitionUpdate;
  ma_compression : CompressionMetadata;
}.

(** ** The updater *)

(** A group or partition with its name in the target slot.
    [libsnapshot/snapshot_metadata_updater.h:63-67 SnapshotMetadataUpdater::Group] *)
Record GroupUpdate := mkGroupUpdate { gu_name : bytes; gu_size : Z }.
(** [libsnapshot/snapshot_metadata_updater.h:71-76 SnapshotMetadataUpdater::Partition] *)
Record SlotUpdate := mkSlotUpdate { su_name : bytes; su_group_name : bytes; su_size : Z }.
(** [libsnapshot/snapshot_metadata_updater.h:78-82 SnapshotMetadataUpdater, members] *)
Record SnapshotMetadataUpdater := mkUpdater {
  up_target_suffix : bytes;
  up_groups : list GroupUpdate;
  up_partitions : list SlotUpdate;
  up_partial : bool;
}.

(** A partition that several groups name is in the last of them.
    [libsnapshot/snapshot_metadata_updater.cpp:50-58 SnapshotMetadataUpdater, partition_group_map] *)
Definition partition_group_map (groups : list DynamicPartitionGroup) : gmap bytes bytes :=
  foldl (λ m g, foldl (λ m name, <[name := dg_name g]> m) m (dg_partition_names g)) ∅ groups.
(** [libsnapshot/snapshot_metadata_updater.cpp:39-68 SnapshotMetadataUpdater::SnapshotMetadataUpdater] *)
Definition NewUpdater (target_slot : Z) (manifest : DeltaArchiveManifest) : outcome SnapshotMetadataUpdater :=
  target_suffix ← SlotSuffixForSlotNumber target_slot;
  match ma_dynamic_groups manifest with
  | None => Ret (mkUpdater target_suffix [] [] (ma_partial_update manifest))
  | Some groups =>
      let group_of := partition_group_map groups in
      Ret (mkUpdater target_suffix
        ((λ g, mkGroupUpdate (dg_name g ++ target_suffix) (dg_size g)) <$> groups)
        (omap (λ p, (λ g, mkSlotUpdate (pu_partition_name p ++ target_suffix) (g ++ target_suffix) (pu_new_size p))
                    <$> group_of !! pu_partition_name p) (ma_partitions manifest))
        (ma_partial_update manifest))
  end.

(** [android::base::EndsWith] *)
Definition EndsWith (s suffix : bytes) : bool := bool_decide (suffix `suffix_of` s).
(** The names of the partitions.
    [libsnapshot/utility.cpp:80-92 ListPartitionsWithSuffix] *)
Definition ListPartitionsWithSuffix (b : MetadataBuilder) (suffix : bytes) : list bytes :=
  ListGroups b ≫= λ group, filter (λ name, EndsWith name suffix) (ListPartitionsInGroup b group).
(** [libsnapshot/include/libsnapshot/snapshot.h:77-77 kCowGroupName] *)
Definition kCowGroupName : bytes := str "cow".

Section Updater.
Context (fetcher : IPropertyFetcher) (u : SnapshotMetadataUpdater).

(** The loops skip what they do not find; [when_found] is their first test. *)
Definition when_found (name : bytes) (f : Partition → IO MetadataBuilder unit) : IO MetadataBuilder unit :=
  b ← get; match FindPartition b name with None => mret () | Some p => f p end.
Definition when_group (name : bytes) (f : PartitionGroup → IO MetadataBuilder unit) : IO MetadataBuilder unit :=
  b ← get; match FindGroup b name with None => mret () | Some g => f g end.

(** [libsnapshot/snapshot_metadata_updater.cpp:71-83 SnapshotMetadataUpdater::ShrinkPartitions, loop] *)
Definition shrink_partition (p : SlotUpdate) : IO MetadataBuilder unit :=
  when_found (su_name p) (λ existing_partition,
    if decide (pt_size existing_partition ≤ su_size p) then mret ()
    else ResizePartition fetcher (su_name p) (su_size p) []).
(** [libsnapshot/snapshot_metadata_updater.cpp:70-85 SnapshotMetadataUpdater::ShrinkPartitions] *)
Definition ShrinkPartitions : IO MetadataBuilder unit := for_each shrink_partition (up_partitions u).
(** [libsnapshot/snapshot_metadata_updater.cpp:87-120 SnapshotMetadataUpdater::DeletePartitions] *)
Definition DeletePartitions : IO MetadataBuilder unit :=
  if up_partial u then mret ()
  else
    b ← get;
    let partitions_to_delete :=
      filter (λ name, name ∉ (su_name <$> up_partitions u)) (ListPartitionsWithSuffix b (up_target_suffix u)) in
    modify (λ b, foldl (λ b name, RemovePartition name b) b partitions_to_delete).
(** [libsnapshot/snapshot_metadata_updater.cpp:123-136 SnapshotMetadataUpdater::MovePartitionsToDefault, loop] *)
Definition move_to_default (p : SlotUpdate) : IO MetadataBuilder unit :=
  when_found (su_name p) (λ existing_partition,
    if decide (pt_group_name existing_partition = su_group_name p) then mret ()
    else ChangePartitionGroup (su_name p) kDefaultGroup).
(** [libsnapshot/snapshot_metadata_updater.cpp:122-138 SnapshotMetadataUpdater::MovePartitionsToDefault] *)
Definition MovePartitionsToDefault : IO MetadataBuilder unit := for_each move_to_default (up_partitions u).
(** [libsnapshot/snapshot_metadata_updater.cpp:141-152 SnapshotMetadataUpdater::ShrinkGroups, loop] *)
Definition shrink_group (g : GroupUpdate) : IO MetadataBuilder unit :=
  when_group (gu_name g) (λ existing_group,
    if decide (pg_maximum_size existing_group ≤ gu_size g) then mret ()
    else ChangeGroupSize (pg_name existing_group) (gu_size g)).
(** [libsnapshot/snapshot_metadata_updater.cpp:140-154 SnapshotMetadataUpdater::ShrinkGroups] *)
Definition ShrinkGroups : IO MetadataBuilder unit := for_each shrink_group (up_groups u).
(** [libsnapshot/snapshot_metadata_updater.cpp:163-194 SnapshotMetadataUpdater::DeleteGroups, loop] *)
Definition delete_group (existing_group_name : bytes) : IO MetadataBuilder unit :=
  if negb (EndsWith existing_group_name (up_target_suffix u)) then mret ()
  else if decide (existing_group_name ∈ (gu_name <$> up_groups u)) then mret ()
  else
    b ← get;
    _ ← lift (require (ListPartitionsInGroup b existing_group_name = []));
    modify (RemoveGroupAndPartitions existing_group_name).
(** [libsnapshot/snapshot_metadata_updater.cpp:156-196 SnapshotMetadataUpdater::DeleteGroups] *)
Definition DeleteGroups : IO MetadataBuilder unit :=
  if up_partial u then mret () else b ← get; for_each delete_group (ListGroups b).
(** [libsnapshot/snapshot_metadata_updater.cpp:199-205 SnapshotMetadataUpdater::AddGroups, loop] *)
Definition add_group (g : GroupUpdate) : IO MetadataBuilder unit :=
  b ← get;
  match FindGroup b (gu_name g) with
  | None => AddGroup (gu_name g) (gu_size g)
  | Some _ => mret ()
  end.
(** [libsnapshot/snapshot_metadata_updater.cpp:198-207 SnapshotMetadataUpdater::AddGroups] *)
Definition AddGroups : IO MetadataBuilder unit := for_each add_group (up_groups u).
(** [libsnapshot/snapshot_metadata_updater.cpp:210-221 SnapshotMetadataUpdater::GrowGroups, loop] *)
Definition grow_group (g : GroupUpdate) : IO MetadataBuilder unit :=
  when_group (gu_name g) (λ existing_group,
    if decide (gu_size g ≤ pg_maximum_size existing_group) then mret ()
    else ChangeGroupSize (pg_name existing_group) (gu_size g)).
(** [libsnapshot/snapshot_metadata_updater.cpp:209-223 SnapshotMetadataUpdater::GrowGroups] *)
Definition GrowGroups : IO MetadataBuilder unit := for_each grow_group (up_groups u).
(** [libsnapshot/snapshot_metadata_updater.cpp:226-235 SnapshotMetadataUpdater::AddPartitions, loop] *)
Definition add_partition (p : SlotUpdate) : IO MetadataBuilder unit :=
  b ← get;
  match FindPartition b (su_name p) with
  | None => AddPartition (su_name p) (su_group_name p) (Z.lor LP_PARTITION_ATTR_READONLY LP_PARTITION_ATTR_UPDATED)
  | Some _ => mret ()
  end.
(** [libsnapshot/snapshot_metadata_updater.cpp:225-238 SnapshotMetadataUpdater::AddPartitions] *)
Definition AddPartitions : IO MetadataBuilder unit := for_each add_partition (up_partitions u).
(** [libsnapshot/snapshot_metadata_updater.cpp:241-253 SnapshotMetadataUpdater::GrowPartitions, loop] *)
Definition grow_partition (p : SlotUpdate) : IO MetadataBuilder unit :=
  when_found (su_name p) (λ existing_partition,
    if decide (su_size p ≤ pt_size existing_partition) then mret ()
    else ResizePartition fetcher (su_name p) (su_size p) []).
(** [libsnapshot/snapshot_metadata_updater.cpp:240-255 SnapshotMetadataUpdater::GrowPartitions] *)
Definition GrowPartitions : IO MetadataBuilder unit := for_each grow_partition (up_partitions u).
(** [libsnapshot/snapshot_metadata_updater.cpp:258-269 SnapshotMetadataUpdater::MovePartitionsToCorrectGroup, loop] *)
Definition move_to_group (p : SlotUpdate) : IO MetadataBuilder unit :=
  when_found (su_name p) (λ existing_partition,
    if decide (pt_group_name existing_partition = su_group_name p) then mret ()
    else ChangePartitionGroup (su_name p) (su_group_name p)).
(** [libsnapshot/snapshot_metadata_updater.cpp:257-271 SnapshotMetadataUpdater::MovePartitionsToCorrectGroup] *)
Definition MovePartitionsToCorrectGroup : IO MetadataBuilder unit := for_each move_to_group (up_partitions u).
(** [libsnapshot/snapshot_metadata_updater.cpp:273-291 SnapshotMetadataUpdater::Update] *)
Definition Update : IO MetadataBuilder unit :=
  _ ← modify (RemoveGroupAndPartitions kCowGroupName);
  _ ← ShrinkPartitions;
  _ ← DeletePartitions;
  _ ← MovePartitionsToDefault;
  _ ← ShrinkGroups;
  _ ← DeleteGroups;
  _ ← AddGroups;
  _ ← GrowGroups;
  _ ← AddPartitions;
  _ ← GrowPartitions;
  MovePartitionsToCorrectGroup.
End Updater.
