(* ===== verification/SnapTables.v ===== *)
(** * What an update makes of a table ([libsnapshot/snapshot_metadata_updater.cpp])

    [Update] keeps the invariant of the builder and leaves the partitions of the other slot
    alone; when it succeeds the target slot has exactly what the manifest says. *)
From S2P Require Import Prelude Bytes LpFormat LpUtility Device LpReader LpWriter LpImage LpExtent LpBuilder.
From S2P Require Import LpAlloc LpFree LpGrow LpInvariant LpResize LpExport LpRoundtrip DmMap LpReach.
From S2P Require Import SnapUpdate.

(** ** Finding after a change *)

Lemma find_other_partitions b b' ps : b_partitions b' = ps → b_partitions b = ps → ∀ n, FindPartition b' n = FindPartition b n.
Proof. intros H1 H2 n. unfold FindPartition. by rewrite H1, H2. Qed.
Lemma find_none_groups b n : FindGroup b n = None ↔ n ∉ pg_name <$> b_groups b.
Proof. rewrite <- FindGroup_in. destruct (FindGroup b n); [|tauto]. split; [done|]. intros H. by destruct H. Qed.
Lemma find_group_split b n g : FindGroup b n = Some g → ∃ pre post, b_groups b = pre ++ g :: post ∧ pg_name g = n ∧ Forall (λ x, pg_name x ≠ n) pre.
Proof.
  unfold FindGroup. intros ([i q] & [Hl [Hn Hpre]]%list_find_Some & ->)%fmap_Some. simpl in *.
  exists (take i (b_groups b)), (drop (S i) (b_groups b)). split; [by rewrite take_drop_middle|]. split; [done|].
  apply Forall_forall. intros x (j & Hj & Hlt)%elem_of_take. by eapply Hpre.
Qed.
Lemma find_group_cons g gs n : snd <$> list_find (λ g, pg_name g = n) (g :: gs) =
  if decide (pg_name g = n) then Some g else snd <$> list_find (λ g, pg_name g = n) gs.
Proof. simpl. case_decide; [done|]. by destruct (list_find _ gs) as [[]|]. Qed.
Lemma FindGroup_sized name size b n : FindGroup b name ≠ None →
  FindGroup (set_groups b (set_group_size name size (b_groups b))) n =
  if decide (n = name) then Some (mkPartitionGroup name size) else FindGroup b n.
Proof.
  unfold FindGroup. simpl. induction (b_groups b) as [|g gs IH]; [done|]. rewrite !(find_group_cons g gs). cbn [set_group_size].
  destruct (decide (pg_name g = name)) as [E|E]; intros Hn; rewrite find_group_cons; cbn [pg_name].
  - destruct (decide (name = n)) as [Hgn|Hgn]; [by rewrite decide_True|]. by rewrite !decide_False by congruence.
  - destruct (decide (pg_name g = n)) as [Hgn|Hgn]; [by rewrite decide_False by congruence|]. by apply IH.
Qed.
Lemma FindGroup_added name size b n : FindGroup b name = None →
  FindGroup (set_groups b (b_groups b ++ [mkPartitionGroup name size])) n =
  if decide (n = name) then Some (mkPartitionGroup name size) else FindGroup b n.
Proof.
  unfold FindGroup. simpl. induction (b_groups b) as [|g gs IH]; cbn [app].
  - intros _. rewrite find_group_cons. cbn [pg_name]. destruct (decide (name = n)) as [Hgn|Hgn]; [by rewrite decide_True|].
    by rewrite decide_False by congruence.
  - rewrite !(find_group_cons g). destruct (decide (pg_name g = name)) as [E|E]; [done|]. intros Hn.
    destruct (decide (pg_name g = n)) as [Hgn|Hgn]; [by rewrite decide_False by congruence|]. by apply IH.
Qed.
Lemma find_erased name gs n : NoDup (pg_name <$> gs) →
  snd <$> list_find (λ g, pg_name g = n) (erase_group name gs) =
  if decide (n = name) then None else snd <$> list_find (λ g, pg_name g = n) gs.
Proof.
  induction gs as [|g gs IH]; [by case_decide|]. rewrite (find_group_cons g gs). csimpl. intros [Hg Hnd]%NoDup_cons.
  destruct (decide (pg_name g = name)) as [E|E].
  - destruct (decide (n = name)) as [->|Hne]; [|by rewrite decide_False by congruence].
    rewrite fmap_None, list_find_None. apply Forall_forall. intros x Hx Hxn. apply Hg. rewrite E, <- Hxn. by apply list_elem_of_fmap_2.
  - rewrite find_group_cons. destruct (decide (pg_name g = n)) as [Hgn|Hgn]; [by rewrite decide_False by congruence|]. by apply IH.
Qed.

(** Removing a group removes its partitions only. *)
Lemma RemovePartitions_find names b n : builder_ok b → builder_typed b →
  FindPartition (foldl (λ b name, RemovePartition name b) b names) n = if decide (n ∈ names) then None else FindPartition b n.
Proof.
  revert b. induction names as [|m names IH]; intros b Hok Ht; [by rewrite decide_False by apply not_elem_of_nil|].
  simpl foldl. destruct (RemovePartition_ok m b Hok) as (Hok' & Hnone & Hother & _).
  rewrite IH by (done || by apply RemovePartition_typed). destruct (decide (n ∈ names)) as [Hin|Hin].
  - by rewrite decide_True by by right.
  - destruct (decide (n = m)) as [->|Hne]; [by rewrite decide_True by left|].
    rewrite decide_False by (intros [?|?]%elem_of_cons; done). by apply Hother.
Qed.
Lemma in_group b name n : builder_ok b → n ∈ ListPartitionsInGroup b name ↔ ∃ p, FindPartition b n = Some p ∧ pt_group_name p = name.
Proof.
  intros Hok. unfold ListPartitionsInGroup. rewrite list_elem_of_fmap. split.
  - intros (p & -> & [Hg Hp]%list_elem_of_filter). exists p. split; [|done].
    pose proof (bok_names _ Hok) as Hnd. apply list_elem_of_split in Hp as (pre & post & E). apply (FindPartition_found b pre p post E).
    rewrite E, fmap_app, fmap_cons in Hnd. apply NoDup_app in Hnd as (_ & Hd & _). apply Forall_forall. intros x Hx Heq.
    apply (Hd (pt_name x)); [by apply list_elem_of_fmap_2|]. rewrite Heq. left.
  - intros (p & (pre & post & E & Hn & _)%FindPartition_split & Hg). exists p. split; [done|]. apply list_elem_of_filter.
    split; [done|]. rewrite E. apply elem_of_app. right. left.
Qed.
Lemma RemoveGroup_find name b n : session_ok b → name ≠ kDefaultGroup →
  FindPartition (RemoveGroupAndPartitions name b) n =
    match FindPartition b n with Some p => if decide (pt_group_name p = name) then None else Some p | None => None end ∧
  FindGroup (RemoveGroupAndPartitions name b) n = if decide (n = name) then None else FindGroup b n.
Proof.
  intros [Hok Ht] Hname. unfold RemoveGroupAndPartitions. rewrite decide_False by done. cbv zeta.
  set (names := ListPartitionsInGroup b name). pose proof (RemovePartitions_find names b n Hok Ht) as Hf.
  destruct (RemovePartitions_ok names b Hok Ht) as (_ & _ & Hg & _). set (b' := foldl _ b names) in *. split.
  - change (FindPartition (set_groups b' _) n) with (FindPartition b' n). rewrite Hf. pose proof (in_group b name n Hok) as Hin.
    fold names in Hin. destruct (FindPartition b n) as [p|].
    + destruct (decide (pt_group_name p = name)) as [E|E].
      * rewrite decide_True; [done|]. apply Hin. by exists p.
      * rewrite decide_False; [done|]. intros H. apply Hin in H as (p' & [= <-] & ?). done.
    + by case_decide.
  - unfold FindGroup. simpl. rewrite Hg. apply find_erased, (bt_group_names _ Ht).
Qed.

(** ** One operation *)

(** The same devices, and the same partitions under every name outside [N]. *)
Record changes (N : bytes → Prop) (b b' : MetadataBuilder) : Prop := {
  ch_ok : session_ok b';
  ch_geometry : b_geometry b' = b_geometry b ∧ b_block_devices b' = b_block_devices b;
  ch_others n : ¬ N n → FindPartition b' n = FindPartition b n;
}.
Lemma changes_refl N b : session_ok b → changes N b b.
Proof. by split. Qed.
Lemma changes_trans N b1 b2 b3 : changes N b1 b2 → changes N b2 b3 → changes N b1 b3.
Proof.
  intros [H1 [H2 H3] H4] [H5 [H6 H7] H8]. split; [done|split; congruence|]. intros n Hn. by rewrite H8, H4.
Qed.
Lemma changes_more (N M : bytes → Prop) b b' : (∀ n, N n → M n) → changes N b b' → changes M b b'.
Proof. intros H [H1 H2 H3]. split; [done|done|]. intros n Hn. apply H3. intros ?. by apply Hn, H. Qed.
(** A call that does not abort and changes no other partition, whether it succeeds or not. *)
Definition framed (N : bytes → Prop) (m : IO MetadataBuilder unit) : Prop := ∀ b, session_ok b →
  match m b with (Crash, _) => False | (_, b') => changes N b b' end.
Lemma framed_ret N : framed N (mret ()).
Proof. intros b Hb. by apply changes_refl. Qed.
Lemma framed_bind N m k : framed N m → framed N k → framed N (_ ← m; k).
Proof.
  intros Hm Hk b Hb. unfold mbind, io_mbind. specialize (Hm b Hb). destruct (m b) as [[[]| |] b1]; [|done|done].
  specialize (Hk b1 (ch_ok _ _ _ Hm)). destruct (k b1) as [[[]| |] b2]; [by eapply changes_trans..|done].
Qed.
Lemma framed_for_each {A} N (f : A → IO MetadataBuilder unit) l : (∀ a, a ∈ l → framed N (f a)) → framed N (for_each f l).
Proof.
  induction l as [|a l IH]; intros Hf; cbn [for_each]; [apply framed_ret|].
  apply framed_bind; [apply Hf; left|apply IH; intros; apply Hf; by right].
Qed.
(** What follows a lookup is only ever run in the state of the lookup. *)
Definition outcome_of (N : bytes → Prop) (b : MetadataBuilder) (r : outcome unit * MetadataBuilder) : Prop :=
  match r with (Crash, _) => False | (_, b') => changes N b b' end.
Lemma framed_found N name f : (∀ b p, session_ok b → FindPartition b name = Some p → outcome_of N b (f p b)) → framed N (when_found name f).
Proof.
  intros Hf b Hb. unfold when_found. rewrite (io_bind_eq _ _ _ b b) by done.
  destruct (FindPartition b name) as [p|] eqn:E; [by apply Hf|by apply changes_refl].
Qed.
Lemma framed_group N name f : (∀ b g, session_ok b → FindGroup b name = Some g → outcome_of N b (f g b)) → framed N (when_group name f).
Proof.
  intros Hf b Hb. unfold when_group. rewrite (io_bind_eq _ _ _ b b) by done.
  destruct (FindGroup b name) as [g|] eqn:E; [by apply Hf|by apply changes_refl].
Qed.
Lemma outcome_op (M N : bytes → Prop) {P : MetadataBuilder → Prop} b (r : outcome unit * MetadataBuilder) : session_ok b → (∀ n, M n → N n) →
  match r with (Ret _, b') => changes M b b' ∧ P b' | (Reject, b') => b' = b | (Crash, _) => False end → outcome_of N b r.
Proof.
  intros Hb HMN. destruct r as [[[]| |] b']; [intros [H _]; by eapply changes_more|intros ->; by apply changes_refl|done].
Qed.

Section Ops.
Context (fetcher : IPropertyFetcher).

(** What the builder's operations do, when the partition is found. *)
Lemma resize_changes name size b p : session_ok b → is_u64 size → FindPartition b name = Some p →
  match ResizePartition fetcher name size [] b with
  | (Ret _, b') => changes (λ n, n = name) b b' ∧ b_groups b' = b_groups b ∧ ∃ q, FindPartition b' name = Some q ∧
      pt_group_name q = pt_group_name p ∧ pt_attributes q = pt_attributes p ∧
      (lbs b | pt_size q) ∧ size ≤ pt_size q < size + lbs b ∧
      ∀ i, 0 ≤ i < pt_size p `min` pt_size q / LP_SECTOR_SIZE → resolve (pt_extents q) i = resolve (pt_extents p) i
  | (Reject, b') => b' = b
  | (Crash, _) => False
  end.
Proof using Type.
  intros [Hok Ht] Hs Hfind. pose proof (Resize_typed fetcher name size b p Hok Ht Hfind Hs) as Hr.
  destruct (find_ok _ _ _ Hok Hfind) as (_ & Hn & Hin & _).
  destruct (FindGroup b (pt_group_name p)) as [g|] eqn:Hg.
  2:{ apply (proj2 (FindGroup_in b (pt_group_name p))) in Hg; [done|]. apply (proj1 (Forall_forall _ _) (bt_grouped _ Ht) p Hin). }
  assert (Hmax : is_u64 (pg_maximum_size g)).
  { apply find_group_split in Hg as (pre & post & E & _). pose proof (bt_groups _ Ht) as H. rewrite E in H.
    apply Forall_app in H as [_ [[_ H] _]%Forall_cons]. done. }
  pose proof (ResizePartition_ok fetcher b name p g size [] Hok Hfind Hg Hmax Hs ltac:(by split; try constructor)) as H.
  destruct (ResizePartition _ _ _ _ _) as [[u| |] b']; [|done..].
  destruct Hr as (Hok' & Ht' & _). destruct H as (aligned & q & Ha & [-> _ Hq Hsz [H1 H2] Hkept _ _]).
  destruct (bok_lbs _ Hok) as (Hl & Hl0 & _).
  destruct (AlignTo_Some 64 size (lbs b) aligned ltac:(lia) Ha Hs) as (H3 & _ & H4). destruct (H4 Hl0) as [H5 H6].
  split; [|split; [done|exists q; rewrite Hsz; split_and!; try done; lia]].
  split; [done|done|]. intros n Hne. apply FindPartition_other; [done|]. by apply FindPartition_split in Hq as (_ & _ & _ & -> & _).
Qed.
Lemma regroup_changes name group b p : session_ok b → FindPartition b name = Some p →
  match ChangePartitionGroup name group b with
  | (Ret _, b') => changes (λ n, n = name) b b' ∧ b_groups b' = b_groups b ∧
      FindPartition b' name = Some (mkLpPartition (pt_name p) group (pt_extents p) (pt_attributes p) (pt_size p))
  | (Reject, b') => b' = b
  | (Crash, _) => False
  end.
Proof using Type.
  intros [Hok Ht] Hfind. pose proof (ChangePartitionGroup_typed name group b p Hok Ht Hfind) as H.
  destruct (ChangePartitionGroup name group b) as [[[]| |] b'] eqn:E; [|done..]. destruct H as [Hok' Ht'].
  unfold ChangePartitionGroup in E. apply io_bind_Ret in E as (b1 & b2 & E1 & E). injection E1 as <- <-.
  apply io_bind_Ret in E as ([] & b2 & E1 & E). apply lift_Ret in E1 as [_ ->].
  rewrite (io_bind_eq _ _ _ p b) in E by (unfold deref, mbind, io_mbind, get, lift; by rewrite Hfind).
  apply modify_Ret in E. rewrite (replaced_eq b name p) in E by done. subst b'.
  destruct (find_ok _ _ _ Hok Hfind) as (_ & Hn & _).
  split; [split; [done|done|]|split; [done|]].
  - intros n Hne. by apply FindPartition_other.
  - by eapply FindPartition_replaced.
Qed.
Lemma add_changes name group attributes b : session_ok b → no_nul name →
  match AddPartition name group attributes b with
  | (Ret _, b') => changes (λ n, n = name) b b' ∧ b_groups b' = b_groups b ∧
      FindPartition b' name = Some (NewPartition name group attributes)
  | (Reject, b') => b' = b
  | (Crash, _) => False
  end.
Proof using fetcher.
  intros Hb Hn. pose proof (run_op_ok fetcher (OpAddPartition name group attributes) b Hb Hn) as Hr. cbn [run_op] in Hr.
  pose proof (AddPartition_ok name group attributes b (proj1 Hb)) as H.
  destruct (AddPartition name group attributes b) as [[[]| |] b'] eqn:E; [|done..].
  destruct H as (_ & _ & _ & _ & _ & Hf & Ho). unfold AddPartition in E. inv_state. split; [|done]. by split.
Qed.
Lemma sizing_changes name size b : session_ok b → is_u64 size →
  match ChangeGroupSize name size b with
  | (Ret _, b') => changes (λ _, False) b b' ∧ ∀ n, FindGroup b' n = if decide (n = name) then Some (mkPartitionGroup name size) else FindGroup b n
  | (Reject, b') => b' = b
  | (Crash, _) => False
  end.
Proof using fetcher.
  intros Hb Hs. pose proof (run_op_ok fetcher (OpChangeGroupSize name size) b Hb Hs) as Hr. cbn [run_op] in Hr.
  destruct (ChangeGroupSize name size b) as [[[]| |] b'] eqn:E; [|done..]. unfold ChangeGroupSize in E. inv_state.
  split; [by split|]. intros n. by apply FindGroup_sized.
Qed.
Lemma grouping_changes name size b : session_ok b → no_nul name → is_u64 size →
  match AddGroup name size b with
  | (Ret _, b') => changes (λ _, False) b b' ∧ ∀ n, FindGroup b' n = if decide (n = name) then Some (mkPartitionGroup name size) else FindGroup b n
  | (Reject, b') => b' = b
  | (Crash, _) => False
  end.
Proof using fetcher.
  intros Hb Hn Hs. pose proof (run_op_ok fetcher (OpAddGroup name size) b Hb (conj Hn Hs)) as Hr. cbn [run_op] in Hr.
  destruct (AddGroup name size b) as [[[]| |] b'] eqn:E; [|done..]. unfold AddGroup in E. inv_state.
  split; [by split|]. intros n. by apply FindGroup_added.
Qed.
End Ops.

(** ** The steps of the update *)

(** The names and sizes of an update; all names have the suffix of the target slot. *)
Record updater_ok (u : SnapshotMetadataUpdater) : Prop := {
  uo_suffix : up_target_suffix u = str "_a" ∨ up_target_suffix u = str "_b";
  uo_partitions : Forall (λ p, no_nul (su_name p) ∧ EndsWith (su_name p) (up_target_suffix u) = true ∧ is_u64 (su_size p)) (up_partitions u);
  uo_groups : Forall (λ g, no_nul (gu_name g) ∧ EndsWith (gu_name g) (up_target_suffix u) = true ∧ is_u64 (gu_size g)) (up_groups u);
}.

(** An operation behind a test. *)
Ltac one_op op :=
  first [case_decide; [by apply changes_refl|]|idtac];
  first [eapply (outcome_op (λ _, False)); [done|done|by eapply op]
        |eapply (outcome_op (λ n, n = _)); [done|by intros n ->|by eapply op]].
(** Calls one after the other, each of which changes what is seen under one name. *)
Lemma for_each_views {A X} (V : MetadataBuilder → bytes → option X) (key : A → bytes) (R : A → option X → option X → Prop)
    (J : MetadataBuilder → Prop) f l b b' :
  (∀ a b b', a ∈ l → J b → f a b = (Ret (), b') → J b' ∧ (∀ n, n ≠ key a → V b' n = V b n) ∧ R a (V b (key a)) (V b' (key a))) →
  NoDup (key <$> l) → J b → for_each f l b = (Ret (), b') →
  J b' ∧ (∀ n, n ∉ key <$> l → V b' n = V b n) ∧ ∀ a, a ∈ l → R a (V b (key a)) (V b' (key a)).
Proof.
  intros Hf. revert b. induction l as [|a l IH]; intros b; cbn [for_each]; csimpl.
  - intros _ Hb [= <-]. split; [done|]. split; [done|]. by intros a ?%not_elem_of_nil.
  - intros [Ha Hnd]%NoDup_cons Hb ([] & b1 & E1 & E2)%io_bind_Ret.
    destruct (Hf a b b1 (list_elem_of_here _ _) Hb E1) as (Hb1 & Ho & Hr).
    destruct (IH (λ x b b' Hx, Hf x b b' (list_elem_of_further _ _ _ Hx)) b1 Hnd Hb1 E2) as (Hb' & Ho' & Hr').
    split; [done|]. split.
    + intros n [Hna Hnl]%not_elem_of_cons. by rewrite Ho', Ho.
    + intros x [->|Hx]%elem_of_cons; [by rewrite (Ho' _ Ha)|]. rewrite <- (Ho (key x)); [by apply Hr'|].
      intros E. apply Ha. rewrite <- E. by apply list_elem_of_fmap_2.
Qed.

Section Steps.
Context (fetcher : IPropertyFetcher) (u : SnapshotMetadataUpdater) (u_ok : updater_ok u).
(** Names in the target slot. *)
Definition in_slot (n : bytes) : Prop := EndsWith n (up_target_suffix u) = true.
#[export] Instance in_slot_dec n : Decision (in_slot n) := bool_eq_dec _ _.

Lemma partition_named p : p ∈ up_partitions u → no_nul (su_name p) ∧ in_slot (su_name p) ∧ is_u64 (su_size p).
Proof using u_ok. apply (proj1 (Forall_forall _ _) (uo_partitions _ u_ok)). Qed.
Lemma group_named g : g ∈ up_groups u → no_nul (gu_name g) ∧ in_slot (gu_name g) ∧ is_u64 (gu_size g).
Proof using u_ok. apply (proj1 (Forall_forall _ _) (uo_groups _ u_ok)). Qed.
Lemma not_default : ¬ in_slot kDefaultGroup.
Proof using u_ok. unfold in_slot. destruct (uo_suffix _ u_ok) as [-> | ->]; by vm_compute. Qed.

Lemma shrink_framed p : p ∈ up_partitions u → framed in_slot (shrink_partition fetcher p).
Proof using u_ok.
  intros Hp. destruct (partition_named p Hp) as (_ & Hn & Hs). apply framed_found. intros b q Hb Hf.
  one_op resize_changes.
Qed.
Lemma grow_framed p : p ∈ up_partitions u → framed in_slot (grow_partition fetcher p).
Proof using u_ok.
  intros Hp. destruct (partition_named p Hp) as (_ & Hn & Hs). apply framed_found. intros b q Hb Hf.
  one_op resize_changes.
Qed.
Lemma to_default_framed p : p ∈ up_partitions u → framed in_slot (move_to_default p).
Proof using u_ok.
  intros Hp. destruct (partition_named p Hp) as (_ & Hn & Hs). apply framed_found. intros b q Hb Hf.
  one_op regroup_changes.
Qed.
Lemma to_group_framed p : p ∈ up_partitions u → framed in_slot (move_to_group p).
Proof using u_ok.
  intros Hp. destruct (partition_named p Hp) as (_ & Hn & Hs). apply framed_found. intros b q Hb Hf.
  one_op regroup_changes.
Qed.
Lemma add_partition_framed p : p ∈ up_partitions u → framed in_slot (add_partition p).
Proof using u_ok fetcher.
  intros Hp. destruct (partition_named p Hp) as (Hz & Hn & Hs). intros b Hb. unfold add_partition.
  rewrite (io_bind_eq _ _ _ b b) by done. destruct (FindPartition b (su_name p)); [by apply changes_refl|].
  one_op add_changes.
Qed.
Lemma sizing_framed g (Q : PartitionGroup → Prop) `{∀ x, Decision (Q x)} : g ∈ up_groups u →
  framed in_slot (when_group (gu_name g) (λ x, if decide (Q x) then mret () else ChangeGroupSize (pg_name x) (gu_size g))).
Proof using u_ok fetcher.
  intros Hg. destruct (group_named g Hg) as (_ & Hn & Hs). apply framed_group. intros b x Hb Hf.
  one_op sizing_changes.
Qed.
Lemma add_group_framed g : g ∈ up_groups u → framed in_slot (add_group g).
Proof using u_ok fetcher.
  intros Hg. destruct (group_named g Hg) as (Hz & Hn & Hs). intros b Hb. unfold add_group.
  rewrite (io_bind_eq _ _ _ b b) by done. destruct (FindGroup b (gu_name g)); [by apply changes_refl|].
  one_op grouping_changes.
Qed.

(** *** Deletion *)

Lemma listed_in_slot b n : session_ok b → n ∈ ListPartitionsWithSuffix b (up_target_suffix u) ↔ FindPartition b n ≠ None ∧ in_slot n.
Proof using Type.
  intros [Hok Ht]. unfold ListPartitionsWithSuffix, ListGroups. rewrite list_elem_of_bind. split.
  - intros (g & [Hs Hp]%list_elem_of_filter & _). apply in_group in Hp as (p & Hp & _); [|done].
    rewrite Hp. by split; [|apply Is_true_eq_true].
  - intros [Hp Hs]. destruct (FindPartition b n) as [p|] eqn:E; [|done]. exists (pt_group_name p).
    destruct (find_ok _ _ _ Hok E) as (_ & _ & Hin & _). split; [|apply (proj1 (Forall_forall _ _) (bt_grouped _ Ht) p Hin)].
    apply list_elem_of_filter. split; [by apply Is_true_eq_left|]. apply in_group; [done|]. by exists p.
Qed.
Lemma removed_ok names b : session_ok b → let b' := foldl (λ b name, RemovePartition name b) b names in
  session_ok b' ∧ b_groups b' = b_groups b ∧ b_geometry b' = b_geometry b ∧ b_block_devices b' = b_block_devices b.
Proof using Type.
  intros [Hok Ht]. destruct (RemovePartitions_ok names b Hok Ht) as (H1 & H2 & H3 & _). split; [done|]. split; [done|].
  clear. revert b. induction names as [|n names IH]; intros b; [done|]. apply (IH (RemovePartition n b)).
Qed.
(** What [DeletePartitions] leaves. *)
Lemma DeletePartitions_ok b : session_ok b → ∃ b', DeletePartitions u b = (Ret (), b') ∧ changes in_slot b b' ∧ b_groups b' = b_groups b ∧
  ∀ n, FindPartition b' n = if decide (up_partial u = false ∧ in_slot n ∧ n ∉ su_name <$> up_partitions u) then None else FindPartition b n.
Proof using Type.
  intros Hb. unfold DeletePartitions. destruct (up_partial u).
  { exists b. split; [done|]. split; [by apply changes_refl|]. split; [done|]. intros n. by rewrite decide_False by by intros [? _]. }
  rewrite (io_bind_eq _ _ _ b b) by done. cbv zeta. set (names := filter _ _). eexists. split; [done|].
  destruct (removed_ok names b Hb) as (H1 & H2 & H3 & H4).
  assert (Hf : ∀ n, FindPartition (foldl (λ b name, RemovePartition name b) b names) n =
    if decide (false = false ∧ in_slot n ∧ n ∉ su_name <$> up_partitions u) then None else FindPartition b n).
  { intros n. rewrite RemovePartitions_find by apply Hb. pose proof (listed_in_slot b n Hb) as Hl.
    assert (Hin : (n ∈ names) ↔ ((n ∉ su_name <$> up_partitions u) ∧ n ∈ ListPartitionsWithSuffix b (up_target_suffix u))).
    { unfold names. by rewrite list_elem_of_filter. }
    case_decide as Hd; case_decide as Hd'; [done|tauto| |done].
    destruct (FindPartition b n) eqn:E; [|done]. destruct Hd. apply Hin. split; [tauto|]. apply Hl. split; [done|tauto]. }
  split; [|done]. split; [done|done|]. intros n Hn. rewrite Hf. by rewrite decide_False by tauto.
Qed.

(** A group is only removed when it is empty. *)
Lemma delete_group_changes name b : session_ok b →
  match delete_group u name b with
  | (Ret _, b') => changes (λ _, False) b b' ∧
      ∀ n, FindGroup b' n = if decide (n = name ∧ in_slot name ∧ name ∉ gu_name <$> up_groups u) then None else FindGroup b n
  | (Reject, b') => b' = b
  | (Crash, _) => False
  end.
Proof using u_ok.
  intros Hb. unfold delete_group. destruct (EndsWith name (up_target_suffix u)) eqn:Es; cbn [negb].
  2:{ split; [by apply changes_refl|]. intros n. rewrite decide_False; [done|]. intros (_ & Hs & _). unfold in_slot in Hs. congruence. }
  case_decide as Hin; [split; [by apply changes_refl|]; intros n; by rewrite decide_False by tauto|].
  rewrite (io_bind_eq _ _ _ b b) by done.
  destruct (decide (ListPartitionsInGroup b name = [])) as [Hempty|Hempty];
    [|unfold mbind, io_mbind, lift; by rewrite require_False].
  rewrite io_require by done. cbn [modify].
  assert (Hname : name ≠ kDefaultGroup) by (intros ->; by apply not_default).
  destruct (RemoveGroupAndPartitions_ok name b (proj1 Hb) (proj2 Hb)) as [H1 H2]. split.
  - split; [done| |].
    + unfold RemoveGroupAndPartitions. by rewrite Hempty, decide_False.
    + intros n _. destruct (RemoveGroup_find name b n Hb Hname) as [-> _]. destruct (FindPartition b n) as [p|] eqn:E; [|done].
      rewrite decide_False; [done|]. intros Hg. pose proof (proj2 (in_group b name n (proj1 Hb))) as H.
      rewrite Hempty in H. by apply not_elem_of_nil in H; [|exists p].
  - intros n. destruct (RemoveGroup_find name b n Hb Hname) as [_ ->]. repeat case_decide; try done; tauto.
Qed.
Lemma delete_groups_found names b b' : session_ok b → for_each (delete_group u) names b = (Ret (), b') →
  ∀ n, FindGroup b' n = if decide (n ∈ names ∧ in_slot n ∧ n ∉ gu_name <$> up_groups u) then None else FindGroup b n.
Proof using u_ok.
  revert b. induction names as [|name names IH]; intros b Hb; cbn [for_each].
  { intros [= <-] n. rewrite decide_False; [done|]. by intros [?%not_elem_of_nil _]. }
  intros ([] & b1 & E1 & E2)%io_bind_Ret n. pose proof (delete_group_changes name b Hb) as H. rewrite E1 in H. destruct H as [H1 H2].
  rewrite (IH b1 (ch_ok _ _ _ H1) E2 n), H2. pose proof (elem_of_cons names n name) as Hc.
  destruct (decide (n = name)) as [->|Hne]; repeat case_decide; try done; tauto.
Qed.
Lemma DeleteGroups_framed : framed (λ _, False) (DeleteGroups u).
Proof using u_ok.
  unfold DeleteGroups. destruct (up_partial u); [apply framed_ret|]. intros b Hb. rewrite (io_bind_eq _ _ _ b b) by done.
  revert b Hb. generalize ListGroups. intros names b Hb.
  apply (framed_for_each (λ _, False) (delete_group u) (names b)); [|done]. intros a _ b1 Hb1.
  eapply (outcome_op (λ _, False)); [done|done|by apply delete_group_changes].
Qed.
Lemma DeleteGroups_found b b' : session_ok b → DeleteGroups u b = (Ret (), b') →
  ∀ n, FindGroup b' n = if decide (up_partial u = false ∧ in_slot n ∧ n ∉ gu_name <$> up_groups u) then None else FindGroup b n.
Proof using u_ok.
  intros Hb. unfold DeleteGroups. destruct (up_partial u).
  { intros [= <-] n. by rewrite decide_False by by intros [? _]. }
  rewrite (io_bind_eq _ _ _ b b) by done. intros E n. rewrite (delete_groups_found _ b b' Hb E).
  unfold ListGroups. pose proof (find_none_groups b n). repeat case_decide; try done; tauto.
Qed.

(** *** Success *)

(** The size of an update, in whole blocks. *)
Definition fits (bs size : Z) (q : Partition) : Prop := (bs | pt_size q) ∧ size ≤ pt_size q < size + bs.
(** The sectors that both sizes have stay where they were. *)
Definition kept (p q : Partition) : Prop :=
  ∀ i, 0 ≤ i < pt_size p `min` pt_size q / LP_SECTOR_SIZE → resolve (pt_extents q) i = resolve (pt_extents p) i.
(** A partition that is resized if [stay] does not hold of it. *)
Definition sized (bs : Z) (stay : SlotUpdate → Partition → Prop) (p : SlotUpdate) (o o' : option Partition) : Prop :=
  match o with
  | None => o' = None
  | Some x => ∃ y, o' = Some y ∧ pt_group_name y = pt_group_name x ∧ (stay p x ∧ y = x ∨ ¬ stay p x ∧ fits bs (su_size p) y ∧ kept x y)
  end.
Definition regrouped (target : SlotUpdate → bytes) (p : SlotUpdate) (o o' : option Partition) : Prop :=
  match o with
  | None => o' = None
  | Some x => ∃ y, o' = Some y ∧ pt_extents y = pt_extents x ∧ pt_size y = pt_size x ∧
      (pt_group_name x = su_group_name p ∧ pt_group_name y = su_group_name p ∨ pt_group_name x ≠ su_group_name p ∧ pt_group_name y = target p)
  end.
Definition added (p : SlotUpdate) (o o' : option Partition) : Prop :=
  match o with
  | None => ∃ a, o' = Some (NewPartition (su_name p) (su_group_name p) a)
  | Some x => o' = Some x
  end.

(** What the loops over partitions keep. *)
Record steady (b0 b : MetadataBuilder) : Prop := {
  st_ok : session_ok b;
  st_geometry : b_geometry b = b_geometry b0;
  st_groups : b_groups b = b_groups b0;
}.
Lemma steady_changes b0 b b' N : steady b0 b → changes N b b' → b_groups b' = b_groups b → steady b0 b'.
Proof using Type. intros [_ H1 H2] [H3 [H4 _] _] H5. split; [done|congruence|congruence]. Qed.
Context (names_differ : NoDup (su_name <$> up_partitions u)).

Lemma sizing_step (stay : SlotUpdate → Partition → Prop) `{∀ p x, Decision (stay p x)} b0 p b b' : p ∈ up_partitions u → steady b0 b →
  when_found (su_name p) (λ x, if decide (stay p x) then mret () else ResizePartition fetcher (su_name p) (su_size p) []) b = (Ret (), b') →
  steady b0 b' ∧ (∀ n, n ≠ su_name p → FindPartition b' n = FindPartition b n) ∧
  sized (lbs b0) stay p (FindPartition b (su_name p)) (FindPartition b' (su_name p)).
Proof using u_ok.
  intros Hp Hst E. pose proof Hst as [Hb Hg _]. destruct (partition_named p Hp) as (_ & _ & Hs). unfold when_found in E.
  rewrite (io_bind_eq _ _ _ b b) in E by done. assert (Hl : lbs b0 = lbs b) by (unfold lbs; by rewrite Hg).
  destruct (FindPartition b (su_name p)) as [x|] eqn:Ef.
  2:{ injection E as <-. split; [done|]. split; [done|]. by rewrite Ef. }
  destruct (decide (stay p x)) as [Hx|Hx].
  { injection E as <-. split; [done|]. split; [done|]. rewrite Ef. exists x. split; [done|]. split; [done|by left]. }
  pose proof (resize_changes fetcher (su_name p) (su_size p) b x Hb Hs Ef) as H'. rewrite E in H'.
  destruct H' as (H1 & H2 & y & H3 & H4 & _ & H5 & H6 & H7). split; [by eapply steady_changes|].
  split; [apply H1|]. exists y. split; [done|]. split; [done|]. right. split; [done|]. rewrite Hl. by split.
Qed.
Lemma regroup_step target b0 p b b' : p ∈ up_partitions u → steady b0 b →
  when_found (su_name p) (λ x, if decide (pt_group_name x = su_group_name p) then mret () else ChangePartitionGroup (su_name p) (target p)) b = (Ret (), b') →
  steady b0 b' ∧ (∀ n, n ≠ su_name p → FindPartition b' n = FindPartition b n) ∧
  regrouped target p (FindPartition b (su_name p)) (FindPartition b' (su_name p)).
Proof using Type.
  intros Hp Hst E. pose proof Hst as [Hb _ _]. unfold when_found in E. rewrite (io_bind_eq _ _ _ b b) in E by done.
  destruct (FindPartition b (su_name p)) as [x|] eqn:Ef.
  2:{ injection E as <-. split; [done|]. split; [done|]. by rewrite Ef. }
  destruct (decide (pt_group_name x = su_group_name p)) as [Hx|Hx].
  { injection E as <-. split; [done|]. split; [done|]. rewrite Ef. exists x. by split_and!; [..|left]. }
  pose proof (regroup_changes (su_name p) (target p) b x Hb Ef) as H'. rewrite E in H'.
  destruct H' as (H1 & H2 & H3). split; [by eapply steady_changes|]. split; [apply H1|]. rewrite H3.
  eexists. split; [done|]. split; [done|]. split; [done|by right].
Qed.
Lemma adding_step b0 p b b' : p ∈ up_partitions u → steady b0 b → add_partition p b = (Ret (), b') →
  steady b0 b' ∧ (∀ n, n ≠ su_name p → FindPartition b' n = FindPartition b n) ∧
  added p (FindPartition b (su_name p)) (FindPartition b' (su_name p)).
Proof using u_ok fetcher.
  intros Hp Hst E. pose proof Hst as [Hb _ _]. destruct (partition_named p Hp) as (Hz & _ & _). unfold add_partition in E.
  rewrite (io_bind_eq _ _ _ b b) in E by done. destruct (FindPartition b (su_name p)) as [x|] eqn:Ef.
  { injection E as <-. split; [done|]. split; [done|]. by rewrite Ef. }
  pose proof (add_changes fetcher (su_name p) (su_group_name p) (Z.lor LP_PARTITION_ATTR_READONLY LP_PARTITION_ATTR_UPDATED) b Hb Hz) as H'.
  rewrite E in H'. destruct H' as (H1 & H2 & H3). split; [by eapply steady_changes|]. split; [apply H1|]. rewrite H3. by eexists.
Qed.
(** A whole loop. *)
Lemma partition_loop (f : SlotUpdate → IO MetadataBuilder unit) (R : SlotUpdate → option Partition → option Partition → Prop) b b' :
  (∀ p b1 b2, p ∈ up_partitions u → steady b b1 → f p b1 = (Ret (), b2) →
    steady b b2 ∧ (∀ n, n ≠ su_name p → FindPartition b2 n = FindPartition b1 n) ∧ R p (FindPartition b1 (su_name p)) (FindPartition b2 (su_name p))) →
  session_ok b → for_each f (up_partitions u) b = (Ret (), b') →
  steady b b' ∧ (∀ n, n ∉ su_name <$> up_partitions u → FindPartition b' n = FindPartition b n) ∧
  ∀ p, p ∈ up_partitions u → R p (FindPartition b (su_name p)) (FindPartition b' (su_name p)).
Proof using names_differ.
  intros Hf Hb E. exact (for_each_views FindPartition su_name R (steady b) f (up_partitions u) b b' Hf names_differ ltac:(by split) E).
Qed.

(** The same for groups. *)
Definition group_sized (stay : GroupUpdate → PartitionGroup → Prop) (g : GroupUpdate) (o o' : option PartitionGroup) : Prop :=
  match o with
  | None => o' = None
  | Some x => pg_name x = gu_name g ∧ (stay g x ∧ o' = Some x ∨ ¬ stay g x ∧ o' = Some (mkPartitionGroup (gu_name g) (gu_size g)))
  end.
Definition group_added (g : GroupUpdate) (o o' : option PartitionGroup) : Prop :=
  o' = match o with None => Some (mkPartitionGroup (gu_name g) (gu_size g)) | Some x => Some x end.
Lemma changes_nothing b0 b1 b2 : changes (λ _, False) b0 b1 → changes (λ _, False) b1 b2 → changes (λ _, False) b0 b2.
Proof using Type. apply changes_trans. Qed.
Context (groups_differ : NoDup (gu_name <$> up_groups u)).
Lemma group_sizing_step (stay : GroupUpdate → PartitionGroup → Prop) `{∀ g x, Decision (stay g x)} b0 g b b' : g ∈ up_groups u →
  changes (λ _, False) b0 b →
  when_group (gu_name g) (λ x, if decide (stay g x) then mret () else ChangeGroupSize (pg_name x) (gu_size g)) b = (Ret (), b') →
  changes (λ _, False) b0 b' ∧ (∀ n, n ≠ gu_name g → FindGroup b' n = FindGroup b n) ∧
  group_sized stay g (FindGroup b (gu_name g)) (FindGroup b' (gu_name g)).
Proof using u_ok fetcher.
  intros Hg Hst E. destruct (group_named g Hg) as (_ & _ & Hs). unfold when_group in E. rewrite (io_bind_eq _ _ _ b b) in E by done.
  destruct (FindGroup b (gu_name g)) as [x|] eqn:Ef.
  2:{ injection E as <-. split; [done|]. split; [done|]. by rewrite Ef. }
  pose proof (find_group_split _ _ _ Ef) as (_ & _ & _ & Hn & _).
  destruct (decide (stay g x)) as [Hx|Hx].
  { injection E as <-. split; [done|]. split; [done|]. rewrite Ef. split; [done|by left]. }
  pose proof (sizing_changes fetcher (pg_name x) (gu_size g) b (ch_ok _ _ _ Hst) Hs) as H'. rewrite E in H'. destruct H' as [H1 H2].
  rewrite Hn in *. split; [by eapply changes_nothing|]. split; [intros n Hne; by rewrite H2, decide_False|].
  split; [done|]. right. by rewrite H2, decide_True.
Qed.
Lemma group_adding_step b0 g b b' : g ∈ up_groups u → changes (λ _, False) b0 b → add_group g b = (Ret (), b') →
  changes (λ _, False) b0 b' ∧ (∀ n, n ≠ gu_name g → FindGroup b' n = FindGroup b n) ∧
  group_added g (FindGroup b (gu_name g)) (FindGroup b' (gu_name g)).
Proof using u_ok fetcher.
  intros Hg Hst E. destruct (group_named g Hg) as (Hz & _ & Hs). unfold add_group in E. rewrite (io_bind_eq _ _ _ b b) in E by done.
  destruct (FindGroup b (gu_name g)) as [x|] eqn:Ef.
  { injection E as <-. split; [done|]. split; [done|]. by rewrite Ef. }
  pose proof (grouping_changes fetcher (gu_name g) (gu_size g) b (ch_ok _ _ _ Hst) Hz Hs) as H'. rewrite E in H'. destruct H' as [H1 H2].
  split; [by eapply changes_nothing|]. split; [intros n Hne; by rewrite H2, decide_False|]. unfold group_added. by rewrite H2, decide_True.
Qed.
Lemma group_loop (f : GroupUpdate → IO MetadataBuilder unit) (R : GroupUpdate → option PartitionGroup → option PartitionGroup → Prop) b b' :
  (∀ g b1 b2, g ∈ up_groups u → changes (λ _, False) b b1 → f g b1 = (Ret (), b2) →
    changes (λ _, False) b b2 ∧ (∀ n, n ≠ gu_name g → FindGroup b2 n = FindGroup b1 n) ∧ R g (FindGroup b1 (gu_name g)) (FindGroup b2 (gu_name g))) →
  session_ok b → for_each f (up_groups u) b = (Ret (), b') →
  changes (λ _, False) b b' ∧ (∀ n, n ∉ gu_name <$> up_groups u → FindGroup b' n = FindGroup b n) ∧
  ∀ g, g ∈ up_groups u → R g (FindGroup b (gu_name g)) (FindGroup b' (gu_name g)).
Proof using groups_differ.
  intros Hf Hb E. exact (for_each_views FindGroup gu_name R (changes (λ _, False) b) f (up_groups u) b b' Hf groups_differ (changes_refl _ b Hb) E).
Qed.

(** *** The whole update *)

(** Everything after the removal of the COW group. *)
Lemma rest_framed : framed in_slot
  (_ ← ShrinkPartitions fetcher u; _ ← DeletePartitions u; _ ← MovePartitionsToDefault u; _ ← ShrinkGroups u; _ ← DeleteGroups u;
   _ ← AddGroups u; _ ← GrowGroups u; _ ← AddPartitions u; _ ← GrowPartitions fetcher u; MovePartitionsToCorrectGroup u).
Proof using u_ok.
  assert (Hweak : ∀ m, framed (λ _, False) m → framed in_slot m).
  { intros m Hm b Hb. specialize (Hm b Hb). destruct (m b) as [[[]| |] b']; [by apply (changes_more (λ _, False))..|done]. }
  repeat apply framed_bind.
  - apply framed_for_each. apply shrink_framed.
  - intros b Hb. destruct (DeletePartitions_ok b Hb) as (b' & -> & H & _). exact H.
  - apply framed_for_each. apply to_default_framed.
  - apply framed_for_each. intros g Hg. by apply sizing_framed.
  - apply Hweak, DeleteGroups_framed.
  - apply framed_for_each. intros g Hg. by apply add_group_framed.
  - apply framed_for_each. intros g Hg. by apply sizing_framed.
  - apply framed_for_each. intros p Hp. by apply add_partition_framed.
  - apply framed_for_each. apply grow_framed.
  - apply framed_for_each. apply to_group_framed.
Qed.

(** What a successful update makes of the table [b] without COW partitions. *)
Record updated (b b' : MetadataBuilder) : Prop := {
  ud_partitions p : p ∈ up_partitions u → ∃ q, FindPartition b' (su_name p) = Some q ∧ pt_group_name q = su_group_name p ∧
    fits (lbs b) (su_size p) q ∧ ∀ x, FindPartition b (su_name p) = Some x → kept x q;
  ud_rest n : in_slot n → n ∉ su_name <$> up_partitions u →
    FindPartition b' n = if up_partial u then FindPartition b n else None;
  ud_groups g : g ∈ up_groups u → FindGroup b' (gu_name g) = Some (mkPartitionGroup (gu_name g) (gu_size g));
  ud_rest_groups n : n ∉ gu_name <$> up_groups u →
    FindGroup b' n = if decide (up_partial u = false ∧ in_slot n) then None else FindGroup b n;
}.

(** The tests of the loops. *)
Definition small_enough (p : SlotUpdate) (x : Partition) : Prop := pt_size x ≤ su_size p.
Definition large_enough (p : SlotUpdate) (x : Partition) : Prop := su_size p ≤ pt_size x.
Definition group_small_enough (g : GroupUpdate) (x : PartitionGroup) : Prop := pg_maximum_size x ≤ gu_size g.
Definition group_large_enough (g : GroupUpdate) (x : PartitionGroup) : Prop := gu_size g ≤ pg_maximum_size x.
#[local] Instance small_dec p x : Decision (small_enough p x) := Z_le_dec _ _.
#[local] Instance large_dec p x : Decision (large_enough p x) := Z_le_dec _ _.
#[local] Instance group_small_dec g x : Decision (group_small_enough g x) := Z_le_dec _ _.
#[local] Instance group_large_dec g x : Decision (group_large_enough g x) := Z_le_dec _ _.

(** The steps between the changes of the groups. *)
Lemma groups_updated b b' : session_ok b →
  (_ ← ShrinkGroups u; _ ← DeleteGroups u; _ ← AddGroups u; GrowGroups u) b = (Ret (), b') →
  changes (λ _, False) b b' ∧
  (∀ g, g ∈ up_groups u → FindGroup b' (gu_name g) = Some (mkPartitionGroup (gu_name g) (gu_size g))) ∧
  ∀ n, n ∉ gu_name <$> up_groups u → FindGroup b' n = if decide (up_partial u = false ∧ in_slot n) then None else FindGroup b n.
Proof using u_ok fetcher groups_differ.
  intros Hb ([] & b1 & E1 & ([] & b2 & E2 & ([] & b3 & E3 & E4)%io_bind_Ret)%io_bind_Ret)%io_bind_Ret.
  destruct (group_loop shrink_group (group_sized group_small_enough) b b1 (λ g c d, group_sizing_step group_small_enough b g c d) Hb E1)
    as (H1 & H2 & H3).
  pose proof (DeleteGroups_framed b1 (ch_ok _ _ _ H1)) as H4. rewrite E2 in H4.
  pose proof (DeleteGroups_found b1 b2 (ch_ok _ _ _ H1) E2) as H5.
  destruct (group_loop add_group group_added b2 b3 (λ g c d, group_adding_step b2 g c d) (ch_ok _ _ _ H4) E3) as (H6 & H7 & H8).
  destruct (group_loop grow_group (group_sized group_large_enough) b3 b' (λ g c d, group_sizing_step group_large_enough b3 g c d) (ch_ok _ _ _ H6) E4)
    as (H9 & H10 & H11).
  split; [by eapply changes_nothing; [eapply changes_nothing; [eapply changes_nothing|]|]|]. split.
  - intros g Hg. specialize (H3 g Hg). specialize (H8 g Hg). specialize (H11 g Hg). unfold group_added in H8.
    rewrite H5, decide_False in H8 by (intros (_ & _ & Hn); by apply Hn, list_elem_of_fmap_2). rewrite H8 in H11.
    destruct (FindGroup b (gu_name g)) as [x|]; cbn [group_sized] in H3.
    + destruct H3 as (Hx & [[Hle E]|[Hle E]]); rewrite E in H11; cbn [group_sized] in H11.
      * destruct H11 as (_ & [[Hge ->]|[_ ->]]); [|done]. destruct x as [n m]; unfold group_small_enough, group_large_enough in *. simpl in *. subst n. do 2 f_equal. lia.
      * destruct H11 as (_ & [[_ ->]|[_ ->]]); done.
    + rewrite H3 in H11. cbn [group_sized] in H11. destruct H11 as (_ & [[_ ->]|[_ ->]]); done.
  - intros n Hn. rewrite H10, H7, H5, H2 by done. repeat case_decide; try done; tauto.
Qed.

(** One partition through all steps. *)
Lemma partition_updated bs p o1 o2 o3 o4 o5 o6 : 0 < bs → 0 ≤ su_size p → (∀ x, o1 = Some x → (bs | pt_size x)) →
  sized bs small_enough p o1 o2 → regrouped (λ _, kDefaultGroup) p o2 o3 → added p o3 o4 →
  sized bs large_enough p o4 o5 → regrouped su_group_name p o5 o6 →
  ∃ q, o6 = Some q ∧ pt_group_name q = su_group_name p ∧ fits bs (su_size p) q ∧ ∀ x, o1 = Some x → kept x q.
Proof using Type.
  intros Hbs Hs0 Hdiv Hshrink Hdefault Hadd Hgrow Hmove.
  assert (Hlast : ∀ z, o5 = Some z → ∃ q, o6 = Some q ∧ pt_group_name q = su_group_name p ∧ pt_extents q = pt_extents z ∧ pt_size q = pt_size z).
  { intros z ->. destruct Hmove as (q & -> & H1 & H2 & [[_ H3]|[_ H3]]); by exists q. }
  destruct o1 as [x|]; cbn [sized] in Hshrink.
  - specialize (Hdiv x eq_refl). destruct Hshrink as (y & -> & _ & Hy).
    destruct Hdefault as (y' & -> & Hye & Hys & _). cbn [added] in Hadd. subst o4.
    destruct Hgrow as (z & Hz & _ & Hzy). destruct (Hlast z Hz) as (q & -> & Hq & Hqe & Hqs). exists q. split; [done|]. split; [done|].
    unfold fits, kept, small_enough, large_enough in *. rewrite Hqe, Hqs. rewrite Hys, Hye in *.
    destruct Hy as [[Hle ->]|(Hle & (Hy1 & Hy2) & Hyk)], Hzy as [[Hge ->]|(Hge & (Hz1 & Hz2) & Hzk)]; rewrite ?Hys, ?Hye in *; try lia.
    + split; [split; [done|lia]|]. by intros x' [= ->].
    + split; [by split|]. by intros x' [= ->].
    + split; [by split|]. by intros x' [= ->].
  - subst o2. cbn [regrouped] in Hdefault. subst o3. destruct Hadd as (a & ->).
    destruct Hgrow as (z & Hz & _ & Hzy). destruct (Hlast z Hz) as (q & -> & Hq & Hqe & Hqs). exists q. split; [done|]. split; [done|].
    split; [|done]. unfold fits, large_enough in *. rewrite Hqs. destruct Hzy as [[Hge ->]|(_ & H & _)]; [|done]. cbn [NewPartition pt_size] in *.
    split; [apply Z.divide_0_r|lia].
Qed.

Lemma rest_updated b b' : session_ok b →
  (_ ← ShrinkPartitions fetcher u; _ ← DeletePartitions u; _ ← MovePartitionsToDefault u; _ ← ShrinkGroups u; _ ← DeleteGroups u;
   _ ← AddGroups u; _ ← GrowGroups u; _ ← AddPartitions u; _ ← GrowPartitions fetcher u; MovePartitionsToCorrectGroup u) b = (Ret (), b') →
  updated b b'.
Proof using u_ok names_differ groups_differ.
  intros Hb ([] & b1 & E1 & E)%io_bind_Ret. apply io_bind_Ret in E as ([] & b2 & E2 & E). apply io_bind_Ret in E as ([] & b3 & E3 & E).
  assert (E' : ∃ b4, (_ ← ShrinkGroups u; _ ← DeleteGroups u; _ ← AddGroups u; GrowGroups u) b3 = (Ret (), b4) ∧
    (_ ← AddPartitions u; _ ← GrowPartitions fetcher u; MovePartitionsToCorrectGroup u) b4 = (Ret (), b')).
  { apply io_bind_Ret in E as ([] & c1 & F1 & E). apply io_bind_Ret in E as ([] & c2 & F2 & E).
    apply io_bind_Ret in E as ([] & c3 & F3 & E). apply io_bind_Ret in E as ([] & c4 & F4 & E). exists c4. split; [|done].
    by rewrite (io_bind_eq _ _ _ _ _ F1), (io_bind_eq _ _ _ _ _ F2), (io_bind_eq _ _ _ _ _ F3). }
  destruct E' as (b4 & E4 & E5). clear E. apply io_bind_Ret in E5 as ([] & b5 & E5 & E). apply io_bind_Ret in E as ([] & b6 & E6 & E7).
  destruct (partition_loop (shrink_partition fetcher) (sized (lbs b) small_enough) b b1 (λ p c d, sizing_step small_enough b p c d) Hb E1)
    as ([H1 G1 K1] & O1 & R1).
  destruct (DeletePartitions_ok b1 H1) as (b2' & E2' & H2 & K2 & D2). rewrite E2 in E2'. injection E2' as <-.
  destruct H2 as [H2 [G2 _] _].
  destruct (partition_loop move_to_default (regrouped (λ _, kDefaultGroup)) b2 b3 (λ p c d, regroup_step (λ _, kDefaultGroup) b2 p c d) H2 E3)
    as ([H3 G3 K3] & O3 & R3).
  destruct (groups_updated b3 b4 H3 E4) as ([H4 [G4 _] O4] & Hg & Hg').
  destruct (partition_loop add_partition added b4 b5 (λ p c d, adding_step b4 p c d) H4 E5) as ([H5 G5 K5] & O5 & R5).
  destruct (partition_loop (grow_partition fetcher) (sized (lbs b5) large_enough) b5 b6 (λ p c d, sizing_step large_enough b5 p c d) H5 E6)
    as ([H6 G6 K6] & O6 & R6).
  destruct (partition_loop move_to_group (regrouped su_group_name) b6 b' (λ p c d, regroup_step su_group_name b6 p c d) H6 E7)
    as ([H7 G7 K7] & O7 & R7).
  assert (HF : ∀ x y n, b_groups x = b_groups y → FindGroup x n = FindGroup y n) by (intros x y n Hxy; unfold FindGroup; by rewrite Hxy).
  split.
  - intros p Hp. destruct (partition_named p Hp) as (_ & _ & Hs).
    assert (Hl : lbs b5 = lbs b) by (unfold lbs; congruence). specialize (R6 p Hp). rewrite Hl in R6.
    pose proof (list_elem_of_fmap_2 su_name _ _ Hp) as Hin.
    specialize (R3 p Hp). rewrite D2, decide_False in R3 by tauto. specialize (R5 p Hp). rewrite O4 in R5 by tauto.
    destruct (bok_lbs _ (proj1 Hb)) as (Hl1 & Hl2 & _).
    eapply (partition_updated (lbs b) p); [lia|lia| |exact (R1 p Hp)|exact R3|exact R5|exact R6|exact (R7 p Hp)].
    intros x Hx. by destruct (find_ok _ _ _ (proj1 Hb) Hx) as (_ & _ & _ & _ & _ & _ & ?).
  - intros n Hs Hn. rewrite O7, O6, O5, O4, O3, D2, O1 by tauto. destruct (up_partial u); [by rewrite decide_False by (intros [? _]; done)|].
    by rewrite decide_True.
  - intros g Hgu. rewrite (HF b' b6), (HF b6 b5), (HF b5 b4) by done. by apply Hg.
  - intros n Hn. rewrite (HF b' b6), (HF b6 b5), (HF b5 b4), Hg' by done. by rewrite (HF b3 b2), (HF b2 b1), (HF b1 b) by done.
Qed.

(** [Update] never aborts and keeps the invariant; partitions of the other slot stay as
    they are unless they are in the COW group. *)
Lemma Update_ok b : session_ok b →
  let cleared := RemoveGroupAndPartitions kCowGroupName b in
  match Update fetcher u b with
  | (Crash, _) => False
  | (r, b') => changes in_slot cleared b' ∧ (r = Ret () → updated cleared b')
  end.
Proof using u_ok names_differ groups_differ.
  intros Hb cleared. assert (Hc : session_ok cleared) by (destruct (RemoveGroupAndPartitions_ok kCowGroupName b (proj1 Hb) (proj2 Hb)); done).
  unfold Update. rewrite (io_bind_eq _ _ _ () cleared) by done. pose proof (rest_framed cleared Hc) as H.
  destruct ((_ ← ShrinkPartitions fetcher u; _) cleared) as [[[]| |] b'] eqn:E; [|done..].
  split; [done|]. intros _. by apply rest_updated.
Qed.
End Steps.

(** ** The updater of a manifest *)

(** Names without NUL and of one group or partition each, sizes of 64 bits. *)
Record manifest_ok (manifest : DeltaArchiveManifest) : Prop := {
  mf_partitions : Forall (λ p, no_nul (pu_partition_name p) ∧ is_u64 (pu_new_size p)) (ma_partitions manifest);
  mf_names : NoDup (pu_partition_name <$> ma_partitions manifest);
  mf_groups gs : ma_dynamic_groups manifest = Some gs →
    Forall (λ g, no_nul (dg_name g) ∧ is_u64 (dg_size g)) gs ∧ NoDup (dg_name <$> gs);
}.
Lemma suffix_no_nul slot suffix : SlotSuffixForSlotNumber slot = Ret suffix → (suffix = str "_a" ∨ suffix = str "_b") ∧ no_nul suffix.
Proof.
  intros (_ & _ & [= <-])%bind_Ret. case_decide; (split; [by (left + right)|]); by apply (bool_decide_unpack _).
Qed.
Lemma with_suffix name suffix : no_nul name → no_nul suffix → no_nul (name ++ suffix) ∧ EndsWith (name ++ suffix) suffix = true.
Proof.
  intros H1 H2. split; [by intros [?|?]%elem_of_app|]. apply bool_decide_eq_true. by exists name.
Qed.
Lemma NewUpdater_ok slot manifest u : NewUpdater slot manifest = Ret u → manifest_ok manifest →
  updater_ok u ∧ NoDup (su_name <$> up_partitions u) ∧ NoDup (gu_name <$> up_groups u) ∧ SlotSuffixForSlotNumber slot = Ret (up_target_suffix u).
Proof.
  unfold NewUpdater. intros (suffix & Hsuf & H)%bind_Ret [Hps Hnd Hgs]. destruct (suffix_no_nul _ _ Hsuf) as [Hs Hz].
  destruct (ma_dynamic_groups manifest) as [gs|]; injection H as <-; cbn [up_partitions up_groups up_target_suffix].
  2:{ split; [by split; [|constructor|constructor]|]. by split; [constructor|split; [constructor|]]. }
  destruct (Hgs gs eq_refl) as [Hg Hgnd]. set (m := partition_group_map gs).
  assert (Hsub : su_name <$> omap (λ p, (λ g, mkSlotUpdate (pu_partition_name p ++ suffix) (g ++ suffix) (pu_new_size p)) <$> m !! pu_partition_name p)
      (ma_partitions manifest) `sublist_of` (λ n, n ++ suffix) <$> (pu_partition_name <$> ma_partitions manifest)).
  { clear. induction (ma_partitions manifest) as [|p ps IH]; [done|]. csimpl. destruct (m !! pu_partition_name p); csimpl;
      [by apply sublist_skip|by apply sublist_cons]. }
  split; [split; cbn [up_partitions up_groups up_target_suffix]; [done| |]|split; [|split; [|done]]].
  - apply Forall_forall. intros p (q & Hq & (g & _ & ->)%fmap_Some)%list_elem_of_omap. cbn [su_name su_size].
    destruct (proj1 (Forall_forall _ _) Hps q Hq) as [Hn Hu]. destruct (with_suffix _ _ Hn Hz). done.
  - apply Forall_fmap. eapply Forall_impl; [exact Hg|]. intros g [Hn Hu]. cbn. destruct (with_suffix _ _ Hn Hz). done.
  - eapply sublist_NoDup; [|exact Hsub]. apply NoDup_fmap_2; [|done]. intros x y. apply app_inj_2. done.
  - rewrite <- list_fmap_compose. rewrite (list_fmap_compose dg_name (λ n, n ++ suffix)). apply NoDup_fmap_2; [|done].
    intros x y. apply app_inj_2. done.
Qed.
