(* ===== verification/SnapCow.v ===== *)
(** * Room for copy-on-write data ([libsnapshot/partition_cow_creator.cpp])

    How much space the old blocks of a partition need during an update and where it is: in
    regions that are free in the tables of both slots, and in a file for the rest. *)
From stdpp Require Import gmap.
From S2P Require Import Prelude Bytes LpFormat LpUtility Device LpReader LpExtent LpBuilder LpAlloc SnapUpdate.

(** ** Extents of two tables *)

(** [None] is the null pointer.
    [libsnapshot/partition_cow_creator.cpp:43-55 Intersect] *)
Definition intersect_extents (target_extent existing_extent : Extent) : option Extent :=
  existing ← AsInterval existing_extent;
  target ← AsInterval target_extent;
  Some (AsExtent (Intersect target existing)).
(** [libsnapshot/partition_cow_creator.cpp:60-68 PartitionCowCreator::HasExtent] *)
Definition HasExtent (p : Partition) (e : Extent) : bool :=
  existsb (λ partition_extent, match intersect_extents partition_extent e with
                               | Some intersection => bool_decide (num_sectors intersection = num_sectors e)
                               | None => false
                               end) (pt_extents p).

(** ** Copies that stay in place *)

(** The next block joins the last extent if it follows it.
    [libsnapshot/utility.cpp:208-221 AppendExtent] *)
Definition AppendExtent (extents : list BlockRange) (start_block num_blocks : Z) : list BlockRange :=
  match list.last extents with
  | Some e =>
      if decide (start_block = u64 (br_start_block e + br_num_blocks e))
      then removelast extents ++ [mkRange (br_start_block e) (u64 (br_num_blocks e + num_blocks))]
      else extents ++ [mkRange start_block num_blocks]
  | None => extents ++ [mkRange start_block num_blocks]
  end.
(** To the next extent that is not empty.
    [libsnapshot/partition_cow_creator.cpp:122-129 OptimizeSourceCopyOperation, next extent] *)
Fixpoint skip_depleted (extents : list BlockRange) (offset : Z) : list BlockRange * Z :=
  match extents with
  | [] => ([], offset)
  | e :: rest => if decide (br_num_blocks e ≤ offset) then skip_depleted rest 0 else (extents, offset)
  end.
Definition add_copy (o : InstallOperation) (s_block d_block step : Z) : InstallOperation :=
  mkInstall (in_type o) (AppendExtent (in_src_extents o) s_block step) (AppendExtent (in_dst_extents o) d_block step).
(** The extents not yet passed and the offsets in the first of them.
    [libsnapshot/partition_cow_creator.cpp:92-131 OptimizeSourceCopyOperation, loop] *)
Fixpoint copy_loop (fuel : nat) (s d : list BlockRange) (s_offset d_offset : Z) (is_optimized : bool)
    (optimized : InstallOperation) : outcome (bool * InstallOperation) :=
  match fuel with
  | O => Crash
  | S fuel =>
      match s, d with
      | [], [] => Ret (is_optimized, optimized)
      | [], _ :: _ | _ :: _, [] => Ret (false, optimized)
      | s_it :: _, d_it :: _ =>
          if decide (br_num_blocks s_it ≤ s_offset ∨ br_num_blocks d_it ≤ d_offset) then Ret (false, optimized)
          else
            let step := u64 (br_num_blocks s_it - s_offset) `min` u64 (br_num_blocks d_it - d_offset) in
            let s_block := u64 (br_start_block s_it + s_offset) in
            let d_block := u64 (br_start_block d_it + d_offset) in
            let moved := bool_decide (s_block ≠ d_block) in
            let s' := skip_depleted s (u64 (s_offset + step)) in
            let d' := skip_depleted d (u64 (d_offset + step)) in
            copy_loop fuel s'.1 d'.1 s'.2 d'.2 (is_optimized || negb moved)
              (if moved then add_copy optimized s_block d_block step else optimized)
      end
  end.
#[export] Instance OperationType_eq_dec : EqDecision OperationType.
Proof. solve_decision. Defined.
(** Whether blocks were left out, and what is left in [optimized].
    [libsnapshot/partition_cow_creator.cpp:70-132 OptimizeSourceCopyOperation] *)
Definition OptimizeSourceCopyOperation (operation optimized : InstallOperation) : outcome (bool * InstallOperation) :=
  if decide (in_type operation ≠ SOURCE_COPY) then Ret (false, optimized)
  else
    let optimized := mkInstall SOURCE_COPY [] [] in
    let src_extents := in_src_extents operation in
    let dst_extents := in_dst_extents operation in
    if decide (src_extents = [] ∧ dst_extents = []) then Ret (true, optimized)
    else copy_loop (S (length src_extents + length dst_extents)) src_extents dst_extents 0 0 false optimized.

(** ** The size of a dm-snapshot exception store *)

(** [libsnapshot/dm_snapshot_internals.h:104-144 DmSnapCowSizeCalculator, members] *)
Record DmSnapCowSizeCalculator := mkCalculator {
  sector_bytes : Z;
  chunk_sectors : Z;
  sc_valid : bool;
  modified_chunks : gset Z;
}.
(** [libsnapshot/dm_snapshot_internals.h:130-130 DmSnapCowSizeCalculator::exception_size_bytes] *)
Definition exception_size_bytes : Z := 64 * 2 / 8.
(** [libsnapshot/dm_snapshot_internals.h:29-32 DmSnapCowSizeCalculator::DmSnapCowSizeCalculator] *)
Definition NewCalculator (bytes sectors : Z) : DmSnapCowSizeCalculator := mkCalculator bytes sectors true ∅.
(** The member is constant.
    [libsnapshot/dm_snapshot_internals.h:32-32 DmSnapCowSizeCalculator::exceptions_per_chunk] *)
Definition exceptions_per_chunk (sc : DmSnapCowSizeCalculator) : Z :=
  u64 (chunk_sectors sc * sector_bytes sc) / exception_size_bytes.
(** [libsnapshot/dm_snapshot_internals.h:36-51 DmSnapCowSizeCalculator::WriteChunk] *)
Definition WriteChunk (chunk_id : Z) (sc : DmSnapCowSizeCalculator) : DmSnapCowSizeCalculator :=
  if sc_valid sc then
    if decide (2 ^ 32 - 1 < chunk_id) then mkCalculator (sector_bytes sc) (chunk_sectors sc) false (modified_chunks sc)
    else if decide (chunk_id ∈ modified_chunks sc) then sc
    else mkCalculator (sector_bytes sc) (chunk_sectors sc) true ({[chunk_id]} ∪ modified_chunks sc)
  else sc.
(** [libsnapshot/dm_snapshot_internals.h:35-35 DmSnapCowSizeCalculator::WriteSector] *)
Definition WriteSector (sector : Z) (sc : DmSnapCowSizeCalculator) : outcome DmSnapCowSizeCalculator :=
  _ ← CHECK (chunk_sectors sc ≠ 0); Ret (WriteChunk (sector / chunk_sectors sc) sc).
(** [libsnapshot/dm_snapshot_internals.h:34-34 DmSnapCowSizeCalculator::WriteByte] *)
Definition WriteByte (address : Z) (sc : DmSnapCowSizeCalculator) : outcome DmSnapCowSizeCalculator :=
  _ ← CHECK (sector_bytes sc ≠ 0); WriteSector (address / sector_bytes sc) sc.
(** [libsnapshot/dm_snapshot_internals.h:84-102 DmSnapCowSizeCalculator::cow_size_chunks] *)
Definition cow_size_chunks (sc : DmSnapCowSizeCalculator) : outcome Z :=
  _ ← require (sc_valid sc = true);
  let modified := Z.of_nat (size (modified_chunks sc)) in
  _ ← CHECK (exceptions_per_chunk sc ≠ 0);
  Ret (u64 (1 + modified + u64 (1 + modified / exceptions_per_chunk sc))).
(** [libsnapshot/dm_snapshot_internals.h:60-66 DmSnapCowSizeCalculator::cow_size_sectors] *)
Definition cow_size_sectors (sc : DmSnapCowSizeCalculator) : outcome Z :=
  chunks ← cow_size_chunks sc; Ret (u64 (chunks * chunk_sectors sc)).
(** [libsnapshot/dm_snapshot_internals.h:53-59 DmSnapCowSizeCalculator::cow_size_bytes] *)
Definition cow_size_bytes (sc : DmSnapCowSizeCalculator) : outcome Z :=
  sectors ← cow_size_sectors sc; Ret (u64 (sectors * sector_bytes sc)).

(** ** The size of a COW *)

Definition fold_outcome {A S} (f : A → S → outcome S) (l : list A) (s : S) : outcome S :=
  foldl (λ r a, r ≫= f a) (Ret s) l.
(** [libsnapshot/partition_cow_creator.cpp:134-143 WriteExtent] *)
Definition WriteExtent (de : BlockRange) (sectors_per_block : Z) (sc : DmSnapCowSizeCalculator)
    : outcome DmSnapCowSizeCalculator :=
  let block_boundary := u64 (br_start_block de + br_num_blocks de) in
  fold_outcome (λ b, fold_outcome (λ s, WriteSector (u64 (b * sectors_per_block + s))) (seqZ 0 sectors_per_block))
    (seqZ (br_start_block de) (block_boundary - br_start_block de)) sc.
(** [libsnapshot/partition_cow_creator.cpp:38-38 kBlockSize] *)
Definition kBlockSize : Z := 4096.
(** [libdm/include/libdm/dm.h:53-53 kSectorSize] *)
Definition kSectorSize : Z := 512.
(** [libsnapshot/utility.h:36-36 kSnapshotChunkSize] *)
Definition kSnapshotChunkSize : Z := 8.

(** The members that [Run] reads; the partition and the tables are pointers.
    [libsnapshot/partition_cow_creator.h:43-67 PartitionCowCreator, members] *)
Record PartitionCowCreator := mkCreator {
  cc_target_metadata : MetadataBuilder;
  cc_target_partition : Partition;
  cc_current_metadata : MetadataBuilder;
  cc_update : option PartitionUpdate;
  cc_extra_extents : list BlockRange;
  cc_using_snapuserd : bool;
}.
(** The fields of the message that [Run] sets. *)
Record SnapshotStatus := mkStatus {
  ss_name : bytes;
  ss_device_size : Z;
  ss_snapshot_size : Z;
  ss_estimated_cow_size : option Z;
  ss_cow_partition_size : Z;
  ss_cow_file_size : Z;
}.
(** [libsnapshot/partition_cow_creator.h:69-72 PartitionCowCreator::Return] *)
Record CowReturn := mkCowReturn { snapshot_status : SnapshotStatus; cow_partition_usable_regions : list Interval }.

(** The operation whose target is counted.
    [libsnapshot/partition_cow_creator.cpp:176-182 PartitionCowCreator::GetCowSize, written_op] *)
Definition written_op (iop : InstallOperation) : outcome InstallOperation :=
  '(is_optimized, buf) ← OptimizeSourceCopyOperation iop (mkInstall SOURCE_COPY [] []);
  Ret (if decide (in_type iop = SOURCE_COPY ∧ is_optimized = true) then buf else iop).
(** [Reject] is [nullopt].
    [libsnapshot/partition_cow_creator.cpp:145-190 PartitionCowCreator::GetCowSize] *)
Definition GetCowSize (c : PartitionCowCreator) : outcome Z :=
  if cc_using_snapuserd c then
    update ← found (cc_update c);
    estimate ← found (pu_estimate_cow_size update);
    let size := u64 (estimate + 2 * 2 ^ 20) in
    let size := u64 (size + (kBlockSize - 1)) in
    Ret (Z.land size (Z.lnot (kBlockSize - 1)))
  else
    let sectors_per_block := u32 (logical_block_size (b_geometry (cc_current_metadata c)) / kSectorSize) in
    sc ← fold_outcome (λ de, WriteExtent de sectors_per_block) (cc_extra_extents c) (NewCalculator kSectorSize kSnapshotChunkSize);
    match cc_update c with
    | None => cow_size_bytes sc
    | Some update =>
        sc ← fold_outcome (λ iop sc,
               written ← written_op iop;
               fold_outcome (λ de, WriteExtent de sectors_per_block) (in_dst_extents written) sc) (pu_operations update) sc;
        cow_size_bytes sc
    end.
(** Regions free in both tables, and their bytes.
    [libsnapshot/partition_cow_creator.cpp:230-237 PartitionCowCreator::Run, free regions] *)
Definition common_free_regions (c : PartitionCowCreator) : outcome (list Interval * Z) :=
  target_free_regions ← GetFreeRegions (cc_target_metadata c);
  current_free_regions ← GetFreeRegions (cc_current_metadata c);
  let free_regions := Intersect_list target_free_regions current_free_regions in
  let free_region_length := foldl (λ n interval, u64 (n + iv_length interval)) 0 free_regions in
  Ret (free_regions, u64 (free_region_length * kSectorSize)).
(** [libsnapshot/partition_cow_creator.cpp:192-261 PartitionCowCreator::Run] *)
Definition Run (c : PartitionCowCreator) : outcome CowReturn :=
  _ ← CHECK (builder_device_name (cc_current_metadata c) 0 = LP_METADATA_DEFAULT_PARTITION_NAME ∧
             builder_device_name (cc_target_metadata c) 0 = LP_METADATA_DEFAULT_PARTITION_NAME);
  let logical_block_size := logical_block_size (b_geometry (cc_current_metadata c)) in
  _ ← CHECK (logical_block_size ≠ 0 ∧ Z.land logical_block_size (u64 (logical_block_size - 1)) = 0);
  let p := cc_target_partition c in
  let status := mkStatus (pt_name p) (pt_size p) (pt_size p) (cc_update c ≫= pu_estimate_cow_size) in
  if decide (pt_size p = 0) then Ret (mkCowReturn (status 0 0) [])
  else
    '(free_regions, free_region_length) ← common_free_regions c;
    cow_size ← GetCowSize c;
    let cow_partition_size := cow_size `min` free_region_length in
    let cow_partition_size := Z.land cow_partition_size (Z.lnot (logical_block_size - 1)) in
    let cow_file_size := u64 (cow_size - cow_partition_size) in
    let cow_file_size := u64 (cow_file_size + (kSectorSize - 1)) in
    let cow_file_size := Z.land cow_file_size (Z.lnot (kSectorSize - 1)) in
    Ret (mkCowReturn (status cow_partition_size cow_file_size) free_regions).

(** ** The COW partition *)

(** [libsnapshot/snapshot.cpp:125-127 GetCowName] *)
Definition GetCowName (snapshot_name : bytes) : bytes := snapshot_name ++ str "-cow".
(** The COW partition of one snapshot in the table of the target slot.
    [libsnapshot/snapshot.cpp:3465-3485 SnapshotManager::CreateUpdateSnapshotsInternal, COW partition] *)
Definition CreateCowPartition (fetcher : IPropertyFetcher) (name : bytes) (ret : CowReturn) : IO MetadataBuilder unit :=
  let size := ss_cow_partition_size (snapshot_status ret) in
  if decide (0 < size) then
    _ ← lift (CHECK (size mod kSectorSize = 0));
    _ ← AddPartition (GetCowName name) kCowGroupName 0;
    ResizePartition fetcher (GetCowName name) size (cow_partition_usable_regions ret)
  else mret ().
