(* ===== verification/SnapSpace.v ===== *)
(** * The space of copy-on-write data ([libsnapshot/partition_cow_creator.cpp])

    [OptimizeSourceCopyOperation] leaves out the blocks that a copy does not move: it ends
    on every operation, keeps the others in order, and the device looks the same with it.
    The size of a COW is that of the chunks an update writes, and a COW partition takes
    regions that are free in both slots. *)
From stdpp Require Import gmap.
From S2P Require Import Prelude Bytes LpFormat LpUtility Device LpReader LpWriter LpImage LpExtent LpBuilder.
From S2P Require Import LpAlloc LpFree LpGrow LpInvariant LpResize LpExport LpReach SnapUpdate SnapTables.
From S2P Require Import SnapCow.

(** ** The blocks of extents *)

Definition range_blocks (e : BlockRange) : list Z := seqZ (br_start_block e) (br_num_blocks e).
Definition blocks (es : list BlockRange) : list Z := es ≫= range_blocks.
Definition range_ok (e : BlockRange) : Prop :=
  0 ≤ br_start_block e ∧ 0 ≤ br_num_blocks e ∧ br_start_block e + br_num_blocks e < 2 ^ 64.
(** Which block goes where. *)
Definition copies (o : InstallOperation) : list (Z * Z) := zip (blocks (in_src_extents o)) (blocks (in_dst_extents o)).
Definition moves (p : Z * Z) : Prop := p.1 ≠ p.2.
#[export] Instance moves_dec p : Decision (moves p) := not_dec _.
Definition install_ok (o : InstallOperation) : Prop := Forall range_ok (in_src_extents o) ∧ Forall range_ok (in_dst_extents o).

Lemma blocks_app l k : blocks (l ++ k) = blocks l ++ blocks k.
Proof. apply list.bind_app. Qed.
Lemma seqZ_split a n m : 0 ≤ n → 0 ≤ m → seqZ a (n + m) = seqZ a n ++ seqZ (a + n) m.
Proof. intros. by apply seqZ_app. Qed.
Lemma AppendExtent_ok es s n : Forall range_ok es → range_ok (mkRange s n) →
  Forall range_ok (AppendExtent es s n) ∧ blocks (AppendExtent es s n) = blocks es ++ seqZ s n.
Proof.
  intros Hes Hn. unfold AppendExtent.
  assert (Hnew : Forall range_ok (es ++ [mkRange s n]) ∧ blocks (es ++ [mkRange s n]) = blocks es ++ seqZ s n).
  { split; [by apply Forall_app; split; [|constructor]|]. rewrite blocks_app. unfold blocks at 2. csimpl. by rewrite app_nil_r. }
  destruct (list.last es) as [e|] eqn:El; [|done]. case_decide as Hs; [|done].
  apply last_Some in El as [pre ->]. rewrite removelast_last. apply Forall_app in Hes as [Hpre [He _]%Forall_cons].
  destruct He as (H1 & H2 & H3), Hn as (H4 & H5 & H6). cbn in *. rewrite u64_small in Hs by lia. subst s. rewrite u64_small by lia.
  split.
  - apply Forall_app. split; [done|]. constructor; [|done]. unfold range_ok. cbn. lia.
  - rewrite !blocks_app. unfold blocks at 2 4. csimpl. unfold range_blocks. cbn [br_start_block br_num_blocks].
    by rewrite !app_nil_r, <- (assoc_L (++)), seqZ_split.
Qed.

(** ** The loop *)

(** What is left to copy from an offset in the first extent on. *)
Definition left_over (es : list BlockRange) (offset : Z) : list Z := drop (Z.to_nat offset) (blocks es).
Definition cursor_ok (es : list BlockRange) (offset : Z) : Prop :=
  match es with [] => True | e :: _ => 0 ≤ offset < br_num_blocks e end.

Lemma skip_depleted_ok es offset : Forall range_ok es → 0 ≤ offset → (es ≠ [] → match es with [] => True | e :: _ => offset ≤ br_num_blocks e end) →
  let r := skip_depleted es offset in
  Forall range_ok r.1 ∧ cursor_ok r.1 r.2 ∧ (length r.1 ≤ length es)%nat ∧ left_over r.1 r.2 = left_over es offset ∧
  match es with e :: _ => br_num_blocks e = offset → (length r.1 < length es)%nat | [] => True end.
Proof.
  intros Hes. revert offset. induction Hes as [|e es (H1 & H2 & H3) Hes IH]; intros offset Ho Hle; [done|]. cbn [skip_depleted].
  specialize (Hle ltac:(done)). cbn in Hle. case_decide as Hd.
  - assert (offset = br_num_blocks e) as -> by lia.
    destruct (IH 0) as (I1 & I2 & I3 & I4 & _); [lia| |].
    { intros _. destruct es as [|x es]; [done|]. apply Forall_cons in Hes as [(_ & Hx & _) _]. done. }
    split; [done|]. split; [done|]. split; [cbn; lia|]. split; [|cbn; lia]. rewrite I4. unfold left_over, blocks. csimpl.
    rewrite drop_app_ge by (unfold range_blocks; rewrite length_seqZ; lia). unfold range_blocks at 2. rewrite length_seqZ.
    f_equal. lia.
  - split; [by constructor|]. split; [cbn; lia|]. split; [done|]. split; [done|]. lia.
Qed.
Lemma left_over_cons e es offset : range_ok e → 0 ≤ offset < br_num_blocks e →
  left_over (e :: es) offset = seqZ (br_start_block e + offset) (br_num_blocks e - offset) ++ blocks es.
Proof.
  intros (H1 & H2 & H3) Ho. unfold left_over, blocks. csimpl. rewrite drop_app_le by (unfold range_blocks; rewrite length_seqZ; lia).
  f_equal. unfold range_blocks. replace (br_num_blocks e) with (offset + (br_num_blocks e - offset)) at 1 by lia.
  rewrite seqZ_split by lia. by rewrite drop_app_length' by (by rewrite length_seqZ).
Qed.
(** The next [step] blocks and what is behind them. *)
Lemma left_over_step e es offset step : range_ok e → 0 ≤ offset → 0 < step → offset + step ≤ br_num_blocks e →
  left_over (e :: es) offset = seqZ (br_start_block e + offset) step ++ left_over (e :: es) (offset + step).
Proof.
  intros He Ho Hs Hle. rewrite left_over_cons by (done || lia).
  replace (br_num_blocks e - offset) with (step + (br_num_blocks e - offset - step)) by lia.
  rewrite seqZ_split by lia. rewrite <- (assoc_L (++)). f_equal. unfold left_over.
  rewrite Z2Nat.inj_add, <- drop_drop by lia. fold (left_over (e :: es) offset). rewrite left_over_cons by (done || lia).
  replace (br_num_blocks e - offset) with (step + (br_num_blocks e - offset - step)) by lia.
  rewrite seqZ_split by lia. rewrite <- (assoc_L (++)), drop_app_length' by (by rewrite length_seqZ). do 2 f_equal. lia.
Qed.

(** A run of copies moves all of its blocks or none. *)
Lemma filter_same {A} (P : A → Prop) `{∀ x, Decision (P x)} l : Forall P l → filter P l = l.
Proof. induction 1 as [|x l Hx _ IH]; [done|]. by rewrite filter_cons_True, IH. Qed.
Lemma filter_none {A} (P : A → Prop) `{∀ x, Decision (P x)} l : Forall (λ x, ¬ P x) l → filter P l = [].
Proof. induction 1 as [|x l Hx _ IH]; [done|]. by rewrite filter_cons_False. Qed.
Lemma run_distance a b n : Forall (λ p, p.1 - p.2 = a - b) (zip (seqZ a n) (seqZ b n)).
Proof.
  apply Forall_lookup. intros i [x y] (x' & y' & [= <- <-] & [-> _]%lookup_seqZ & [-> _]%lookup_seqZ)%lookup_zip_with_Some. cbn. lia.
Qed.
Lemma filter_run a b n : filter moves (zip (seqZ a n) (seqZ b n)) = if decide (a = b) then [] else zip (seqZ a n) (seqZ b n).
Proof.
  pose proof (run_distance a b n) as H. case_decide as E; [apply filter_none|apply filter_same];
    (eapply Forall_impl; [exact H|]); intros [x y] Hd; unfold moves; cbn in *; lia.
Qed.

(** The invariant of the result. *)
Definition paired (o : InstallOperation) : Prop :=
  install_ok o ∧ length (blocks (in_src_extents o)) = length (blocks (in_dst_extents o)).
Lemma add_copy_ok o a b n : paired o → range_ok (mkRange a n) → range_ok (mkRange b n) →
  paired (add_copy o a b n) ∧ copies (add_copy o a b n) = copies o ++ zip (seqZ a n) (seqZ b n) ∧ in_type (add_copy o a b n) = in_type o.
Proof.
  intros [[Hs Hd] Hl] Ha Hb. destruct (AppendExtent_ok _ a n Hs Ha) as [H1 H2], (AppendExtent_ok _ b n Hd Hb) as [H3 H4].
  unfold paired, install_ok, copies, add_copy. cbn [in_src_extents in_dst_extents in_type]. rewrite H2, H4.
  split; [split; [done|by rewrite !length_app, !length_seqZ, Hl]|]. split; [|done]. by apply zip_with_app.
Qed.

(** The loop on what is left: it ends, and when both sides have as many blocks it keeps
    the moves. *)
Lemma copy_loop_ok fuel s d s_offset d_offset flag o : (length s + length d < fuel)%nat →
  Forall range_ok s → Forall range_ok d → cursor_ok s s_offset → cursor_ok d d_offset → paired o →
  let pairs := zip (left_over s s_offset) (left_over d d_offset) in
  ∃ flag' o', copy_loop fuel s d s_offset d_offset flag o = Ret (flag', o') ∧ in_type o' = in_type o ∧ install_ok o' ∧
    (length (left_over s s_offset) = length (left_over d d_offset) →
       copies o' = copies o ++ filter moves pairs ∧ (flag' = true ↔ flag = true ∨ ∃ p, p ∈ pairs ∧ ¬ moves p)) ∧
    (length (left_over s s_offset) ≠ length (left_over d d_offset) → flag' = false).
Proof.
  revert s d s_offset d_offset flag o. induction fuel as [|fuel IH]; intros s d so do flag o Hf Hs Hd Hcs Hcd Ho; [lia|].
  assert (Hstop : ∀ n, left_over [] n = []) by (intros n; apply drop_nil).
  cbn [copy_loop]. destruct s as [|se s], d as [|de d].
  { exists flag, o. rewrite !Hstop. split; [done|]. split; [done|]. split; [apply Ho|]. split; [|done]. intros _.
    rewrite app_nil_r. split; [done|]. split; [by left|]. intros [?|(p & ?%not_elem_of_nil & _)]; done. }
  1,2: exists false, o; (split; [done|]); (split; [done|]); (split; [apply Ho|]);
    (split; [|done]); rewrite Hstop, left_over_cons by (try apply Hs; try apply Hd; done || lia || by inversion Hs || by inversion Hd);
    rewrite length_app, length_seqZ; cbn in Hcs, Hcd; intros HL; cbn in HL; lia.
  cbn in Hcs, Hcd. pose proof Hs as Hs'. pose proof Hd as Hd'. apply Forall_cons in Hs' as [Hse _], Hd' as [Hde _].
  destruct Hse as (S1 & S2 & S3) eqn:ES, Hde as (D1 & D2 & D3) eqn:ED. rewrite decide_False by lia.
  rewrite (u64_small (br_num_blocks se - so)), (u64_small (br_num_blocks de - do)), (u64_small (br_start_block se + so)),
    (u64_small (br_start_block de + do)) by lia.
  set (step := _ `min` _). assert (Hstep : 0 < step ∧ so + step ≤ br_num_blocks se ∧ do + step ≤ br_num_blocks de ∧
    (so + step = br_num_blocks se ∨ do + step = br_num_blocks de)) by (subst step; lia).
  clearbody step. destruct Hstep as (T1 & T2 & T3 & T4). rewrite (u64_small (so + step)), (u64_small (do + step)) by lia.
  destruct (skip_depleted_ok (se :: s) (so + step) Hs ltac:(lia) ltac:(done)) as (P1 & P2 & P3 & P4 & P5).
  destruct (skip_depleted_ok (de :: d) (do + step) Hd ltac:(lia) ltac:(done)) as (Q1 & Q2 & Q3 & Q4 & Q5).
  rewrite (left_over_step se s so step), (left_over_step de d do step) by (done || lia).
  set (a := br_start_block se + so). set (b := br_start_block de + do).
  set (o1 := if bool_decide (a ≠ b) then add_copy o a b step else o).
  assert (Ho1 : paired o1 ∧ copies o1 = copies o ++ filter moves (zip (seqZ a step) (seqZ b step)) ∧ in_type o1 = in_type o).
  { subst o1. rewrite filter_run. destruct (decide (a = b)) as [E|E].
    - rewrite bool_decide_false by tauto. by rewrite app_nil_r.
    - rewrite bool_decide_true by done. apply add_copy_ok; [done|unfold range_ok; cbn; lia..]. }
  destruct Ho1 as (O1 & O2 & O3).
  destruct (IH (skip_depleted (se :: s) (so + step)).1 (skip_depleted (de :: d) (do + step)).1 (skip_depleted (se :: s) (so + step)).2
    (skip_depleted (de :: d) (do + step)).2 (flag || negb (bool_decide (a ≠ b))) o1 ltac:(cbn in *; lia) P1 Q1 P2 Q2 O1)
    as (flag' & o' & E & E1 & E2 & E3 & E4). rewrite P4, Q4 in E3, E4.
  exists flag', o'. split; [exact E|]. split; [congruence|]. split; [done|]. rewrite !length_app, !length_seqZ. split.
  - intros Hl. destruct E3 as [E3 E5]; [lia|]. rewrite zip_with_app by (by rewrite !length_seqZ). rewrite filter_app, (assoc_L (++)), <- O2.
    split; [done|]. rewrite E5, orb_true_iff, negb_true_iff, bool_decide_eq_false. setoid_rewrite elem_of_app.
    pose proof (run_distance a b step) as Hrun. rewrite Forall_forall in Hrun. split.
    + intros [[H|H]|(p & H & Hm)]; [by left| |right; exists p; by split; [right|]]. right. exists (a, b). split.
      * left. assert (Hz : seqZ a step = a :: seqZ (Z.succ a) (Z.pred step)) by (apply seqZ_cons; lia).
        assert (Hz' : seqZ b step = b :: seqZ (Z.succ b) (Z.pred step)) by (apply seqZ_cons; lia).
        rewrite Hz, Hz'. left.
      * unfold moves. cbn. tauto.
    + intros [H|(p & [H|H] & Hm)]; [by left; left| |by right; exists p]. left. right. specialize (Hrun p H). unfold moves in Hm.
      destruct p as [x y]. cbn in *. intros Hab. apply Hm. lia.
  - intros Hl. apply E4. lia.
Qed.

(** An operation whose lists do not start with an empty extent. *)
Definition starts_full (es : list BlockRange) : Prop := match es with [] => True | e :: _ => 0 < br_num_blocks e end.
Definition same_blocks (o : InstallOperation) : Prop :=
  length (blocks (in_src_extents o)) = length (blocks (in_dst_extents o)).
#[export] Instance starts_full_dec es : Decision (starts_full es).
Proof. destruct es; apply _. Defined.
(** An operation without extents counts as optimised. *)
Definition no_extents (o : InstallOperation) : Prop := in_src_extents o = [] ∧ in_dst_extents o = [].

(** [OptimizeSourceCopyOperation] ends on every operation; when it says that it optimised
    one, the result has the copies that move a block, in their order. *)
Lemma Optimize_ok op o : install_ok op →
  ∃ flag o', OptimizeSourceCopyOperation op o = Ret (flag, o') ∧
    (flag = true → in_type op = SOURCE_COPY ∧ in_type o' = SOURCE_COPY ∧ install_ok o' ∧ same_blocks op ∧
       copies o' = filter moves (copies op)) ∧
    (in_type op = SOURCE_COPY → starts_full (in_src_extents op) → starts_full (in_dst_extents op) → same_blocks op →
       flag = true ↔ no_extents op ∨ ∃ p, p ∈ copies op ∧ ¬ moves p).
Proof.
  intros [Hs Hd]. unfold OptimizeSourceCopyOperation. case_decide as Ht.
  { exists false, o. split; [done|]. split; [done|]. by intros ?. }
  assert (Htype : in_type op = SOURCE_COPY) by (destruct (decide (in_type op = SOURCE_COPY)); tauto). clear Ht.
  case_decide as Hnil.
  { exists true, (mkInstall SOURCE_COPY [] []). split; [done|]. destruct Hnil as [E1 E2]. unfold same_blocks, copies. rewrite E1, E2.
    split; [by repeat split|]. intros _ _ _ _. split; [|done]. intros _. by left. }
  destruct (decide (starts_full (in_src_extents op) ∧ starts_full (in_dst_extents op))) as [[F1 F2]|Hnf].
  - assert (Hc : ∀ es, starts_full es → cursor_ok es 0) by (intros [|e es] ?; cbn in *; lia).
    destruct (copy_loop_ok (S (length (in_src_extents op) + length (in_dst_extents op))) (in_src_extents op) (in_dst_extents op) 0 0
      false (mkInstall SOURCE_COPY [] [])) as (flag & o' & E & E1 & E2 & E3 & E4); [lia|done|done|by apply Hc..|by repeat split; constructor|].
    unfold left_over in E3, E4. cbn [Z.to_nat drop] in E3, E4. fold (same_blocks op) in E3, E4. fold (copies op) in E3.
    exists flag, o'. split; [exact E|]. split.
    + intros ->. destruct (decide (same_blocks op)) as [Hb|Hb]; [|by discriminate (E4 Hb)].
      destruct (E3 Hb) as [E5 _]. done.
    + intros _ _ _ Hb. destruct (E3 Hb) as [_ E6]. rewrite E6. split; [intros [?|?]; [done|by right]|].
      intros [[G1 G2]|?]; [by destruct Hnil|by right].
  - exists false, (mkInstall SOURCE_COPY [] []). split; [|split; [done|tauto]].
    cbn [copy_loop]. destruct (in_src_extents op) as [|se s], (in_dst_extents op) as [|de d]; [by destruct Hnil|done|done|].
    rewrite decide_True; [done|]. cbn in Hnf. lia.
Qed.

(** ** What the device looks like *)

Section View.
Context {B : Type} (old : Z → B).
(** Blocks that were written, over the old ones. *)
Definition copy_blocks (pairs : list (Z * Z)) (written : gmap Z B) : gmap Z B :=
  foldl (λ m p, <[p.2 := old p.1]> m) written pairs.
Definition view (written : gmap Z B) (n : Z) : B := default (old n) (written !! n).

Lemma copy_blocks_other pairs written n : n ∉ pairs.*2 → copy_blocks pairs written !! n = written !! n.
Proof.
  revert written. induction pairs as [|[a b] pairs IH]; intros w; [done|]. csimpl. intros [Hn Hr]%not_elem_of_cons.
  rewrite IH by done. by rewrite lookup_insert_ne.
Qed.
Lemma copy_blocks_at pairs written a n : NoDup pairs.*2 → (a, n) ∈ pairs → copy_blocks pairs written !! n = Some (old a).
Proof.
  revert written. induction pairs as [|[x y] pairs IH]; intros w; [by intros _ ?%not_elem_of_nil|]. csimpl.
  intros [Hn Hnd]%NoDup_cons [[= -> ->]|H]%elem_of_cons; [|by apply IH].
  rewrite copy_blocks_other by done. by rewrite lookup_insert_eq.
Qed.
(** Blocks that stay where they are need not be copied. *)
Lemma view_moves pairs written n : NoDup pairs.*2 → (∀ m, m ∈ pairs.*2 → written !! m = None) →
  view (copy_blocks (filter moves pairs) written) n = view (copy_blocks pairs written) n.
Proof.
  intros Hnd Hw. unfold view.
  assert (Hnd' : NoDup (filter moves pairs).*2).
  { eapply sublist_NoDup; [exact Hnd|]. apply fmap_sublist, sublist_filter. }
  destruct (decide (n ∈ pairs.*2)) as [Hn|Hn].
  - pose proof (Hw n Hn) as Hnone. apply list_elem_of_fmap in Hn as ([a n'] & Heq & Hp). cbn in Heq. subst n'.
    rewrite (copy_blocks_at pairs _ a n Hnd Hp). destruct (decide (a = n)) as [->|Hne].
    + rewrite copy_blocks_other; [by rewrite Hnone|]. intros ([x y] & -> & [Hm Hxy]%list_elem_of_filter)%list_elem_of_fmap.
      cbn in *. assert (x = y) as ->; [|by apply Hm].
      clear -Hnd Hp Hxy.
      apply list_elem_of_lookup in Hp as [i Hi]. apply list_elem_of_lookup in Hxy as [j Hj].
      assert (i = j) as <-; [|by rewrite Hi in Hj; injection Hj].
      eapply NoDup_lookup; [exact Hnd|by rewrite list_lookup_fmap, Hi|by rewrite list_lookup_fmap, Hj].
    + by rewrite (copy_blocks_at _ _ a n Hnd') by (apply list_elem_of_filter; split; [by unfold moves|done]).
  - rewrite !copy_blocks_other; [done|done|]. intros (p & -> & [_ Hp]%list_elem_of_filter)%list_elem_of_fmap.
    by apply Hn, list_elem_of_fmap_2.
Qed.
End View.

(** ** The size of a COW ([libsnapshot/dm_snapshot_internals.h], [libsnapshot/partition_cow_creator.cpp])

    The calculator counts each chunk once; the size it gives holds the exceptions of all of
    them in the layout of a dm-snapshot device. *)

(** ** Folds that may fail *)

Lemma fold_outcome_app {A S} (f : A → S → outcome S) l k s :
  fold_outcome f (l ++ k) s = fold_outcome f l s ≫= fold_outcome f k.
Proof.
  unfold fold_outcome. rewrite foldl_app. destruct (foldl _ (Ret s) l) as [s'| |]; [done| |]; cbn; induction k as [|a k IH]; by simpl.
Qed.
Lemma fold_outcome_cons {A S} (f : A → S → outcome S) a l s : fold_outcome f (a :: l) s = f a s ≫= fold_outcome f l.
Proof. exact (fold_outcome_app f [a] l s). Qed.
(** What each step adds to a list, the fold adds in order. *)
Lemma fold_counts {A S X} (I : S → list X → Prop) (f : A → S → outcome S) (g : A → list X) l s xs :
  (∀ a s xs, a ∈ l → I s xs → ∃ s', f a s = Ret s' ∧ I s' (xs ++ g a)) → I s xs →
  ∃ s', fold_outcome f l s = Ret s' ∧ I s' (xs ++ (l ≫= g)).
Proof.
  revert s xs. induction l as [|a l IH]; intros s xs Hf Hs; [exists s; csimpl; by rewrite app_nil_r|].
  rewrite fold_outcome_cons. destruct (Hf a s xs (list_elem_of_here _ _) Hs) as (s1 & -> & H1).
  destruct (IH s1 (xs ++ g a)) as (s' & E & H'); [intros x t ys Hx; by apply Hf, list_elem_of_further|done|].
  exists s'. split; [exact E|]. csimpl. by rewrite (assoc_L (++)).
Qed.

(** ** What the calculator has counted *)

Definition in_range (chunk : Z) : Prop := 0 ≤ chunk < 2 ^ 32.
#[export] Instance in_range_dec c : Decision (in_range c).
Proof. unfold in_range. apply _. Defined.
(** The calculator of [GetCowSize] after the chunks [l]. *)
Record counts (sc : DmSnapCowSizeCalculator) (l : list Z) : Prop := {
  cn_units : sector_bytes sc = kSectorSize ∧ chunk_sectors sc = kSnapshotChunkSize;
  cn_valid : sc_valid sc = true ↔ Forall in_range l;
  cn_chunks : sc_valid sc = true → modified_chunks sc = list_to_set l;
}.
Lemma counts_new : counts (NewCalculator kSectorSize kSnapshotChunkSize) [].
Proof. split; [done| |done]. split; [by constructor|done]. Qed.
Lemma WriteChunk_counts c sc l : 0 ≤ c → counts sc l → counts (WriteChunk c sc) (l ++ [c]).
Proof.
  intros Hc [H1 H2 H3]. unfold WriteChunk. assert (Hbig : ¬ in_range c → ¬ Forall in_range (l ++ [c])).
  { intros Hn [_ [Hr _]%Forall_cons]%Forall_app. done. }
  destruct (sc_valid sc) eqn:Ev.
  2:{ split; [done| |by rewrite Ev]. rewrite Ev. split; [done|]. intros [Hl _]%Forall_app. by apply H2. }
  pose proof (proj1 H2 eq_refl) as Hl. specialize (H3 eq_refl). case_decide as Hr.
  { split; [done| |done]. cbn. split; [done|]. intros HF. exfalso. revert HF. apply Hbig. unfold in_range. lia. }
  assert (Hall : Forall in_range (l ++ [c])) by (apply Forall_app; split; [done|constructor; [unfold in_range; lia|done]]).
  assert (Hset : list_to_set (l ++ [c]) = ({[c]} ∪ modified_chunks sc : gset Z)).
  { rewrite H3, list_to_set_app_L. cbn. by rewrite (right_id_L ∅ (∪)), (comm_L (∪)). }
  case_decide as Hm; (split; [done| |]); cbn; rewrite ?Ev; [done| |done|done]. intros _. rewrite Hset.
  symmetry. apply subseteq_union_1_L. by apply singleton_subseteq_l.
Qed.
Lemma WriteSector_counts sector sc l : 0 ≤ sector → counts sc l →
  ∃ sc', WriteSector sector sc = Ret sc' ∧ counts sc' (l ++ [sector / kSnapshotChunkSize]).
Proof.
  intros Hs Hc. pose proof (cn_units _ _ Hc) as [_ Hu]. unfold WriteSector. rewrite CHECK_True by (by rewrite Hu). cbn [mbind outcome_mbind].
  eexists. split; [done|]. rewrite Hu. apply WriteChunk_counts; [|done]. unfold kSnapshotChunkSize. apply Z.div_pos; lia.
Qed.
(** The chunks that an extent touches. *)
Definition extent_chunks (spb : Z) (de : BlockRange) : list Z :=
  seqZ (br_start_block de) (u64 (br_start_block de + br_num_blocks de) - br_start_block de) ≫= λ b,
    seqZ 0 spb ≫= λ s, [u64 (b * spb + s) / kSnapshotChunkSize].
Lemma WriteExtent_counts spb de sc l : counts sc l →
  ∃ sc', WriteExtent de spb sc = Ret sc' ∧ counts sc' (l ++ extent_chunks spb de).
Proof.
  intros Hc. unfold WriteExtent, extent_chunks. apply fold_counts; [|done]. intros b s xs _ Hs. apply fold_counts; [|done].
  intros x s' ys _ Hs'. apply WriteSector_counts; [|done]. apply u64_range.
Qed.
Lemma WriteExtents_counts spb des sc l : counts sc l →
  ∃ sc', fold_outcome (λ de, WriteExtent de spb) des sc = Ret sc' ∧ counts sc' (l ++ (des ≫= extent_chunks spb)).
Proof. intros Hc. apply fold_counts; [|done]. intros de s xs _. apply WriteExtent_counts. Qed.

(** ** The size *)

(** The bytes of a store for [n] chunks. *)
Definition store_bytes (n : Z) : Z := (2 + n + n / 256) * 4096.
Lemma distinct_bound (l : list Z) N : 0 ≤ N → Forall (λ c, 0 ≤ c < N) l → Z.of_nat (size (list_to_set l : gset Z)) ≤ N.
Proof.
  intros HN Hl. assert (Hsub : (list_to_set l : gset Z) ⊆ list_to_set (seqZ 0 N)).
  { intros c. rewrite !elem_of_list_to_set, elem_of_seqZ. intros Hc. rewrite Forall_forall in Hl. specialize (Hl c Hc). lia. }
  apply subseteq_size in Hsub. rewrite (size_list_to_set (seqZ 0 N)) in Hsub by apply NoDup_seqZ.
  rewrite length_seqZ in Hsub. lia.
Qed.
(** The number of different chunks. *)
Definition distinct (l : list Z) : Z := Z.of_nat (size (list_to_set l : gset Z)).
Lemma distinct_range l : Forall in_range l → 0 ≤ distinct l ≤ 2 ^ 32.
Proof. intros H. split; [unfold distinct; lia|]. by apply distinct_bound. Qed.
Lemma store_bound n : 0 ≤ n ≤ 2 ^ 32 → 8192 ≤ store_bytes n < 2 ^ 48.
Proof. intros Hn. unfold store_bytes. pose proof (Z.div_mod n 256 ltac:(lia)). pose proof (Z.mod_pos_bound n 256 ltac:(lia)). lia. Qed.
Lemma cow_size_bytes_counts sc l : counts sc l →
  cow_size_bytes sc = if decide (Forall in_range l) then Ret (store_bytes (distinct l)) else Reject.
Proof.
  intros [[H1 H1'] H2 H3]. unfold cow_size_bytes, cow_size_sectors, cow_size_chunks. case_decide as Hl.
  - pose proof (proj2 H2 Hl) as Hv. rewrite require_True by done. rewrite H3 by done. unfold exceptions_per_chunk. rewrite H1, H1'.
    change (u64 (kSnapshotChunkSize * kSectorSize) / exception_size_bytes) with 256. fold (distinct l).
    pose proof (distinct_range l Hl) as Hn. pose proof (store_bound _ Hn) as Hb. unfold store_bytes in Hb. set (n := distinct l) in *.
    pose proof (Z.div_pos n 256 ltac:(lia) ltac:(lia)).
    rewrite CHECK_True by done. cbn [mbind outcome_mbind]. unfold store_bytes, kSnapshotChunkSize, kSectorSize.
    rewrite (u64_small (1 + n / 256)), (u64_small (1 + n + (1 + n / 256))) by lia. rewrite (u64_small (_ * 8)), u64_small by lia.
    f_equal. lia.
  - rewrite require_False; [done|]. intros Hv. by apply Hl, H2.
Qed.

(** ** The layout of the store *)

(** The chunk of the map of area [a], and the chunk of exception [k]. *)
Definition area_map (a : Z) : Z := 1 + a * 257.
Definition exception_chunk (k : Z) : Z := area_map (k / 256) + 1 + k mod 256.
Definition store_chunks (n : Z) : Z := store_bytes n / 4096.
(** All exceptions, their maps and the map after the last full area are in the store; none
    shares a chunk with another, with a map or with the header. *)
Lemma store_room n k : 0 ≤ k < n →
  0 < exception_chunk k < store_chunks n ∧ (∀ a, 0 ≤ a ≤ n / 256 → 0 < area_map a < store_chunks n) ∧
  (∀ a, exception_chunk k ≠ area_map a) ∧ ∀ j, exception_chunk j = exception_chunk k → j = k.
Proof.
  intros Hk. unfold store_chunks, store_bytes. rewrite Z.div_mul by lia. unfold exception_chunk, area_map.
  pose proof (Z.div_mod k 256 ltac:(lia)). pose proof (Z.mod_pos_bound k 256 ltac:(lia)).
  pose proof (Z.div_mod n 256 ltac:(lia)). pose proof (Z.mod_pos_bound n 256 ltac:(lia)).
  pose proof (Z.div_le_mono k n 256 ltac:(lia) ltac:(lia)). pose proof (Z.div_pos k 256 ltac:(lia) ltac:(lia)).
  split; [lia|]. split; [intros a Ha; lia|]. split; [intros a; lia|]. intros j.
  pose proof (Z.div_mod j 256 ltac:(lia)). pose proof (Z.mod_pos_bound j 256 ltac:(lia)). lia.
Qed.

(** ** Rounding with masks *)

Lemma power_of_two n : 0 < n → Z.land n (n - 1) = 0 → ∃ k, 0 ≤ k ∧ n = 2 ^ k.
Proof.
  intros Hn Hl. exists (Z.log2 n). pose proof (Z.log2_nonneg n). split; [done|]. pose proof (Z.log2_spec n Hn) as [H1 H2].
  destruct (decide (n = 2 ^ Z.log2 n)) as [E|E]; [done|]. exfalso.
  assert (Hlog : Z.log2 (n - 1) = Z.log2 n) by (apply Z.log2_unique; lia).
  assert (Hb : Z.testbit (Z.land n (n - 1)) (Z.log2 n) = true).
  { rewrite Z.land_spec, Z.bit_log2 by done. rewrite <- Hlog. apply Z.bit_log2. pose proof (Z.pow_pos_nonneg 2 (Z.log2 n)). lia. }
  rewrite Hl, Z.bits_0 in Hb. done.
Qed.
Lemma mask_down x k : 0 ≤ k → Z.land x (Z.lnot (2 ^ k - 1)) = x / 2 ^ k * 2 ^ k.
Proof.
  intros Hk. replace (2 ^ k - 1) with (Z.ones k) by (rewrite Z.ones_equiv; lia). rewrite <- Z.ldiff_land, Z.ldiff_ones_r by done.
  by rewrite Z.shiftl_mul_pow2, Z.shiftr_div_pow2.
Qed.

(** ** [GetCowSize] *)

(** The operation of which the target is counted. *)
Definition written (op : InstallOperation) : InstallOperation :=
  match written_op op with Ret w => w | _ => op end.
Lemma written_op_ok op : install_ok op → written_op op = Ret (written op) ∧ install_ok (written op) ∧
  (written op = op ∨ in_type op = SOURCE_COPY ∧ same_blocks op ∧ copies (written op) = filter moves (copies op)).
Proof.
  intros Hop. destruct (Optimize_ok op (mkInstall SOURCE_COPY [] []) Hop) as (flag & o' & E & Hflag & _).
  unfold written, written_op. rewrite E. cbn [mbind outcome_mbind]. case_decide as Hc; [|by split; [|split; [|left]]].
  destruct Hc as [Ht ->]. destruct (Hflag eq_refl) as (_ & _ & H1 & H2 & H3). split; [done|]. split; [done|]. by right.
Qed.
Definition sectors_per_block (c : PartitionCowCreator) : Z :=
  u32 (logical_block_size (b_geometry (cc_current_metadata c)) / kSectorSize).
(** The chunks that the update writes to. *)
Definition cow_chunks (c : PartitionCowCreator) : list Z :=
  (cc_extra_extents c ≫= extent_chunks (sectors_per_block c)) ++
  match cc_update c with
  | None => []
  | Some update => pu_operations update ≫= λ op, in_dst_extents (written op) ≫= extent_chunks (sectors_per_block c)
  end.
(** Messages with extents of 64-bit blocks, and an estimate that leaves room for rounding. *)
Record creator_ok (c : PartitionCowCreator) : Prop := {
  co_operations u : cc_update c = Some u → Forall install_ok (pu_operations u);
  co_estimate u e : cc_update c = Some u → pu_estimate_cow_size u = Some e → 0 ≤ e ∧ e + 2 * 2 ^ 20 + kBlockSize ≤ 2 ^ 64;
}.
Lemma snapshot_size_eq c : creator_ok c → cc_using_snapuserd c = false →
  GetCowSize c = if decide (Forall in_range (cow_chunks c)) then Ret (store_bytes (distinct (cow_chunks c))) else Reject.
Proof.
  intros [Hops _] Hu. unfold GetCowSize. rewrite Hu. cbv zeta. fold (sectors_per_block c). unfold cow_chunks.
  destruct (WriteExtents_counts (sectors_per_block c) (cc_extra_extents c) _ [] counts_new) as (sc & -> & Hsc). cbn [mbind outcome_mbind app] in *.
  destruct (cc_update c) as [update|]; [|rewrite app_nil_r; by apply cow_size_bytes_counts]. specialize (Hops update eq_refl).
  match goal with |- context [fold_outcome ?f (pu_operations update) sc] =>
    destruct (fold_counts counts f (λ op, in_dst_extents (written op) ≫= extent_chunks (sectors_per_block c)) (pu_operations update) sc
      (cc_extra_extents c ≫= extent_chunks (sectors_per_block c))) as (sc' & -> & Hsc') end; [|done|by apply cow_size_bytes_counts].
  intros op s xs Hop Hs. destruct (written_op_ok op) as [E _]; [by apply (proj1 (Forall_forall _ _) Hops)|]. rewrite E.
  by apply WriteExtents_counts.
Qed.
Lemma snapuserd_size_eq c u e : creator_ok c → cc_using_snapuserd c = true → cc_update c = Some u → pu_estimate_cow_size u = Some e →
  GetCowSize c = Ret ((e + 2 * 2 ^ 20 + (kBlockSize - 1)) / kBlockSize * kBlockSize).
Proof.
  intros [_ He] Hu Hup Hest. specialize (He u e Hup Hest). unfold GetCowSize. rewrite Hu, Hup. cbn [found mbind outcome_mbind].
  rewrite Hest. cbn [found mbind outcome_mbind]. unfold kBlockSize in *. rewrite !u64_small by (rewrite ?u64_small; lia).
  exact (f_equal Ret (mask_down (e + 2 * 2 ^ 20 + (4096 - 1)) 12 ltac:(lia))).
Qed.
(** [GetCowSize] does not abort; a size is positive and can be rounded up to sectors. *)
Lemma GetCowSize_ok c : creator_ok c →
  match GetCowSize c with Crash => False | Reject => True | Ret n => 0 < n ∧ n + (kSectorSize - 1) < 2 ^ 64 end.
Proof.
  intros Hc. destruct (cc_using_snapuserd c) eqn:Eu.
  - destruct (cc_update c) as [u|] eqn:Eup; [|by unfold GetCowSize; rewrite Eu, Eup].
    destruct (pu_estimate_cow_size u) as [e|] eqn:Ee; [|by unfold GetCowSize; rewrite Eu, Eup; cbn; rewrite Ee].
    rewrite (snapuserd_size_eq c u e) by done. pose proof (co_estimate _ Hc u e Eup Ee). unfold kBlockSize, kSectorSize in *.
    pose proof (Z.div_mod (e + 2 * 2 ^ 20 + (4096 - 1)) 4096 ltac:(lia)). pose proof (Z.mod_pos_bound (e + 2 * 2 ^ 20 + (4096 - 1)) 4096 ltac:(lia)).
    lia.
  - rewrite snapshot_size_eq by done. case_decide as H; [|done]. pose proof (store_bound _ (distinct_range _ H)). unfold kSectorSize. lia.
Qed.

(** ** The COW partition ([libsnapshot/partition_cow_creator.cpp], [libsnapshot/snapshot.cpp])

    The regions that [Run] finds are free in the tables of both slots; on aligned devices
    they are whole blocks, so the COW partition of the size it computes always fits. *)

(** ** Regions of whole blocks *)

Definition whole_region (bs : Z) (r : Interval) : Prop :=
  (bs | iv_start r * LP_SECTOR_SIZE) ∧ (bs | iv_end r * LP_SECTOR_SIZE).
Definition aligned_devices (devices : list LpMetadataBlockDevice) : Prop := Forall (λ d, bd_alignment d ≠ 0) devices.

Lemma gaps_ends dv l : Forall (λ g, ∃ x, x ∈ l ∧ iv_end g = iv_start x) (ExtentsToFreeList dv l).
Proof.
  induction l as [|a l IH]; [constructor|]. destruct l as [|b l]; [constructor|]. rewrite gaps_cons.
  assert (H : Forall (λ g, ∃ x, x ∈ a :: b :: l ∧ iv_end g = iv_start x) (ExtentsToFreeList dv (b :: l))).
  { eapply Forall_impl; [exact IH|]. intros g (x & Hx & E). exists x. by split; [right|]. }
  destruct (AlignSector dv (iv_end a)); [|done]. case_decide; [done|]. constructor; [|done]. exists b. split; [right; left|done].
Qed.
Lemma collected n es used x : collect_extents n es = Ret used → x ∈ used →
  ∃ k d s, LinearExtent k d s ∈ es ∧ device_index x = d ∧ iv_start x = s.
Proof.
  revert used. induction es as [|[k d s|k] es IH]; intros used; cbn [collect_extents].
  - by intros [= <-] ?%not_elem_of_nil.
  - intros (_ & _ & (l & El & [= <-])%bind_Ret)%bind_Ret [->|Hx]%elem_of_cons; [exists k, d, s; split; [left|done]|].
    destruct (IH l El Hx) as (k' & d' & s' & Hin & H). exists k', d', s'. by split; [right|].
  - intros E Hx. destruct (IH used E Hx) as (k' & d' & s' & Hin & H). exists k', d', s'. by split; [right|].
Qed.
Lemma device_end bs d : whole_device d → device_ok d → bd_alignment d ≠ 0 → (bs | bd_alignment d) → (bs | sectors d * LP_SECTOR_SIZE).
Proof.
  intros [H1 H2] _ Hal Hd. unfold sectors. destruct H1 as [k Hk]. rewrite Hk, Z.div_mul, <- Hk by done.
  by eapply Z.divide_trans, H2.
Qed.
(** On aligned devices a free region has whole blocks. *)
Lemma free_regions_whole b free : builder_ok b → aligned_devices (b_block_devices b) → GetFreeRegions b = Ret free →
  Forall (whole_region (lbs b)) free.
Proof.
  intros Hok Hal Hfree. pose proof Hok as [Hlay _ _ Hblk Hwhole Hdb (_ & _ & H512)].
  destruct (GetFreeRegions_ok b Hlay) as (free' & E & [Hin _] & Hst). rewrite Hfree in E. injection E as <-.
  unfold GetFreeRegions in Hfree. apply bind_Ret in Hfree as (used & Hu & [= <-]). apply Forall_forall. intros g Hg.
  pose proof (proj1 (Forall_forall _ _) Hin g Hg) as (_ & dv & Hdv & Hfirst & Hlt).
  pose proof (Forall_lookup_1 _ _ _ _ Hal Hdv) as Hne. pose proof (Forall_lookup_1 _ _ _ _ Hdb Hdv Hne) as Hdiv.
  pose proof (Forall_lookup_1 _ _ _ _ (lay_devices _ _ Hlay) Hdv) as Hdok. split.
  - destruct (proj1 (Forall_forall _ _) Hst g Hg) as (dv' & s & Hdv' & _ & Ha). rewrite Hdv in Hdv'. injection Hdv' as <-.
    eapply AlignSector_on_block; [|exact Ha|done|done|done]. pose proof (dok_alignment _ Hdok). lia.
  - apply list_elem_of_In, in_concat in Hg as (l & Hl%list_elem_of_In & Hg%list_elem_of_In).
    apply list_elem_of_lookup in Hl as [j Hj]. rewrite list_lookup_imap in Hj. apply fmap_Some in Hj as (dv' & Hj & ->).
    destruct (proj1 (Forall_forall _ _) (gaps_ends _ _) g Hg) as (x & Hx & Hend).
    unfold device_intervals in Hx. rewrite merge_sort_Permutation in Hx. apply elem_of_app in Hx as [[Hdx Hx]%list_elem_of_filter|Hx].
    + destruct (collected _ _ _ _ Hu Hx) as (k & d & s & He & Hd & Hs). rewrite Hend, Hs. clear Hend.
      destruct (proj1 (Forall_forall _ _) Hblk _ He) as [Hn Hes]. rewrite <- Hd, Hdx, Nat2Z.id in Hes.
      assert (Hne' : bd_alignment dv' ≠ 0) by exact (Forall_lookup_1 _ _ _ _ Hal Hj).
      specialize (Hes dv' Hj Hne'). cbn in Hn. replace (s * LP_SECTOR_SIZE) with ((s + k) * LP_SECTOR_SIZE - k * LP_SECTOR_SIZE) by lia.
      by apply Z.divide_sub_r.
    + assert (Hdev : device_index g = Z.of_nat j).
      { assert (Hx' : ∀ e, e ∈ ExtentsToFreeList dv' (device_intervals used j dv') → device_index e = Z.of_nat j).
        { destruct (collect_extents_ok _ _ (lay_devices _ _ Hlay) (lay_inside _ _ Hlay)) as (used' & Hu' & Hui & Huc).
          unfold owners in Hu'. rewrite Hu in Hu'. injection Hu' as <-. intros e He.
          pose proof (device_gaps_ok (b_block_devices b) used j dv' (Forall_lookup_1 _ _ _ _ (lay_devices _ _ Hlay) Hj) Hj Hui) as [Hg' _].
          { intros s. rewrite Huc. apply Hlay. }
          by destruct (proj1 (Forall_forall _ _) Hg' e He). }
        by apply Hx'. }
      rewrite Hdev, Nat2Z.id, Hj in Hdv. injection Hdv as ->. rewrite Hend.
      apply elem_of_cons in Hx as [->|Hx%list_elem_of_singleton]; [cbn in Hend; lia|subst x]. cbn. fold (sectors dv).
      by apply device_end; [by apply (Forall_lookup_1 _ _ _ _ Hwhole Hj)|..].
Qed.

(** ** How much is free *)

Fixpoint region_total (l : list Interval) : Z :=
  match l with [] => 0 | r :: l => iv_end r - iv_start r + region_total l end.
Definition region_u64_ok (r : Interval) : Prop := is_u64 (iv_start r) ∧ is_u64 (iv_end r).
Definition forward (r : Interval) : Prop := iv_start r < iv_end r.

Lemma region_total_app l k : region_total (l ++ k) = region_total l + region_total k.
Proof. induction l as [|r l IH]; simpl; lia. Qed.
Lemma region_total_nonneg l : Forall forward l → 0 ≤ region_total l.
Proof. unfold forward. induction 1; simpl; lia. Qed.
Lemma region_total_perm l k : l ≡ₚ k → region_total l = region_total k.
Proof. induction 1; simpl; lia. Qed.
Lemma usable_whole spb l : 0 < spb → Forall (whole_region (spb * LP_SECTOR_SIZE)) l → usable spb l = region_total l.
Proof.
  intros Hs. induction 1 as [|r l [Ha Hb] _ IH]; [done|]. cbn [usable region_total]. rewrite IH. f_equal.
  apply Z.mul_divide_cancel_r in Ha, Hb; [|done..]. destruct (Z.divide_sub_r _ _ _ Hb Ha) as [k ->]. by rewrite Z.div_mul by lia.
Qed.
(** The sum that [Run] computes. *)
Lemma free_length_le l n : Forall forward l → Forall region_u64_ok l → 0 ≤ n →
  0 ≤ foldl (λ n interval, u64 (n + iv_length interval)) n l ≤ n + region_total l.
Proof.
  intros Hf Hu. revert n. induction Hf as [|r l Hr Hf IH]; intros n Hn; simpl; [lia|].
  apply Forall_cons in Hu as [[H1 H2] Hu]. unfold forward in Hr.
  assert (iv_length r = iv_end r - iv_start r) as -> by (unfold iv_length; apply u64_small; lia).
  set (m := n + _). pose proof (Z.mod_le m (2 ^ 64) ltac:(lia) ltac:(lia)). pose proof (u64_range m). unfold u64 in *.
  specialize (IH Hu (m mod 2 ^ 64) ltac:(lia)). lia.
Qed.

(** ** Intersections *)

(** A region inside one of the list. *)
Definition within (a : list Interval) (r : Interval) : Prop :=
  ∃ x, x ∈ a ∧ device_index r = device_index x ∧ iv_start x ≤ iv_start r ∧ iv_end r ≤ iv_end x.
Lemma in_intersection a b r : r ∈ Intersect_list a b → ∃ x y, x ∈ a ∧ y ∈ b ∧ r = Intersect x y ∧ 0 < iv_length r.
Proof.
  unfold Intersect_list. intros (x & (y & Hr & Hy)%list_elem_of_bind & Hx)%list_elem_of_bind.
  case_decide as Hl; [|by apply not_elem_of_nil in Hr]. apply list_elem_of_singleton in Hr as ->. by exists x, y.
Qed.
Lemma intersection_regions a b : Forall region_u64_ok a → Forall region_u64_ok b →
  Forall (λ r, forward r ∧ region_u64_ok r ∧ within a r ∧ within b r) (Intersect_list a b).
Proof.
  rewrite !Forall_forall. intros Ha Hb r (x & y & Hx & Hy & -> & Hl)%in_intersection.
  destruct (Ha x Hx) as [X1 X2], (Hb y Hy) as [Y1 Y2]. apply Intersect_length in Hl; [|done..]. unfold forward, region_u64_ok, within.
  unfold Intersect in *. case_decide as Hd; cbn in *; [|lia].
  split; [lia|]. split; [lia|]. split; [exists x|exists y]; (split; [done|]); (split; [done|lia]).
Qed.
Lemma intersection_cons_r a h b :
  region_total (Intersect_list a (h :: b)) = region_total (Intersect_list a [h]) + region_total (Intersect_list a b).
Proof.
  unfold Intersect_list. induction a as [|x a IH]; [done|]. csimpl in *. rewrite !region_total_app in *. cbn [region_total] in *. lia.
Qed.
Lemma intersection_nonneg a b : Forall region_u64_ok a → Forall region_u64_ok b → 0 ≤ region_total (Intersect_list a b).
Proof.
  intros Ha Hb. apply region_total_nonneg. eapply Forall_impl; [by apply intersection_regions|]. by intros r (H & _).
Qed.
(** Regions within those of [a] keep their size in an intersection with [a]. *)
Lemma intersection_total a b : Forall region_u64_ok a → Forall (λ r, forward r ∧ region_u64_ok r ∧ within a r) b →
  region_total b ≤ region_total (Intersect_list a b).
Proof.
  intros Ha. induction 1 as [|h b (Hf & Hu & x & Hx & Hd & Hs & He) Hb IH]; [by apply intersection_nonneg|].
  rewrite intersection_cons_r. cbn [region_total]. cut (iv_end h - iv_start h ≤ region_total (Intersect_list a [h])); [lia|].
  apply list_elem_of_split in Hx as (pre & post & ->). unfold Intersect_list. rewrite list.bind_app, bind_cons, !region_total_app.
  fold (Intersect_list pre [h]). fold (Intersect_list post [h]). apply Forall_app in Ha as [Hp [Hx Hq]%Forall_cons].
  pose proof (intersection_nonneg pre [h] Hp ltac:(by constructor)). pose proof (intersection_nonneg post [h] Hq ltac:(by constructor)).
  cut (iv_end h - iv_start h ≤ region_total ([h] ≫= λ y, if decide (0 < iv_length (Intersect x y)) then [Intersect x y] else [])); [lia|].
  csimpl. unfold forward in Hf. destruct Hx as [X1 X2], Hu as [U1 U2].
  assert (E : Intersect x h = mkInterval (device_index x) (iv_start h) (iv_end h)).
  { unfold Intersect. rewrite decide_True by done. f_equal; lia. }
  rewrite E, decide_True; [cbn; lia|]. unfold iv_length. cbn. rewrite u64_small; lia.
Qed.
Lemma intersection_whole bs a b : Forall (whole_region bs) a → Forall (whole_region bs) b → Forall region_u64_ok a → Forall region_u64_ok b →
  Forall (whole_region bs) (Intersect_list a b).
Proof.
  rewrite !Forall_forall. intros Ha Hb Hua Hub r (x & y & Hx & Hy & -> & Hl)%in_intersection.
  destruct (Hua x Hx), (Hub y Hy). apply Intersect_length in Hl; [|done..].
  destruct (Ha x Hx) as [X1 X2], (Hb y Hy) as [Y1 Y2]. unfold Intersect, whole_region in *. case_decide; [|by split]. cbn in *. split.
  - by destruct (Z.max_spec (iv_start x) (iv_start y)) as [[_ ->]|[_ ->]].
  - rewrite Z.max_r by lia. by destruct (Z.min_spec (iv_end x) (iv_end y)) as [[_ ->]|[_ ->]].
Qed.

(** ** The second half first *)

Lemma split_halves_total bs midpoint l : (bs | midpoint * LP_SECTOR_SIZE) → Forall (whole_region bs) l →
  let '(first, second) := split_halves midpoint l in
  region_total (second ++ first) = region_total l ∧ Forall (whole_region bs) (second ++ first).
Proof.
  intros Hm. induction 1 as [|r l [Ha Hb] Hl IH]; [done|]. cbn [split_halves]. destruct (split_halves midpoint l) as [f s].
  destruct IH as [IH1 [IHs IHf]%Forall_app]. rewrite region_total_app in IH1.
  case_decide as H1; [|case_decide as H2]; rewrite ?Forall_app, region_total_app; cbn [region_total iv_start iv_end device_index];
    (split; [lia|]); split; repeat constructor; done.
Qed.
Lemma prioritized bs b l l' : bs ≠ 0 → (LP_SECTOR_SIZE | bs) → aligned_devices (b_block_devices b) → device_blocks (b_block_devices b) bs →
  Forall device_ok (b_block_devices b) →
  Forall (whole_region bs) l → PrioritizeSecondHalfOfSuper b l = Ret l' → region_total l' = region_total l ∧ Forall (whole_region bs) l'.
Proof.
  intros Hbs H512 Hal Hdb Hdok Hl. unfold PrioritizeSecondHalfOfSuper. intros (d & Hd%access_Ret & H)%bind_Ret.
  pose proof (Forall_lookup_1 _ _ _ _ Hal Hd) as Hne.
  destruct (AlignSector d _) as [m|] eqn:Em; [|by injection H as <-].
  assert (Hm : (bs | m * LP_SECTOR_SIZE)).
  { pose proof (dok_alignment _ (Forall_lookup_1 _ _ _ _ Hdok Hd)). eapply AlignSector_on_block; [|exact Em|done| |done]; [lia|].
    by apply (Forall_lookup_1 _ _ _ _ Hdb Hd). }
  pose proof (split_halves_total bs m l Hm Hl) as Hs. destruct (split_halves m l) as [f s]. by injection H as <-.
Qed.

(** ** The regions of [Run] *)

(** The tables of the two slots, of the same devices. *)
Record tables_ok (t current : MetadataBuilder) : Prop := {
  to_target : builder_ok t;
  to_current : builder_ok current;
  to_devices : b_block_devices t = b_block_devices current;
  to_blocks : lbs t = lbs current;
  to_power : Z.land (lbs current) (lbs current - 1) = 0;
  to_super : builder_device_name current 0 = LP_METADATA_DEFAULT_PARTITION_NAME;
}.
(** What is known of the regions. *)
Record usable_ok (t current : MetadataBuilder) (regions : list Interval) : Prop := {
  us_hint : hint_ok (b_block_devices t) (lbs t) regions;
  us_target : free_list_ok (b_block_devices t) (owners t) regions;
  us_current : free_list_ok (b_block_devices t) (owners current) regions;
  us_forward : Forall (λ r, forward r ∧ region_u64_ok r) regions;
  us_within free : GetFreeRegions t = Ret free → Forall (within free) regions;
  us_whole : aligned_devices (b_block_devices t) → Forall (whole_region (lbs t)) regions;
}.
Lemma common_ok c : tables_ok (cc_target_metadata c) (cc_current_metadata c) →
  ∃ regions bytes, common_free_regions c = Ret (regions, bytes) ∧
    usable_ok (cc_target_metadata c) (cc_current_metadata c) regions ∧ 0 ≤ bytes ≤ region_total regions * LP_SECTOR_SIZE.
Proof.
  set (t := cc_target_metadata c). set (cur := cc_current_metadata c). intros [Ht Hc Hd Hl _ _].
  destruct (GetFreeRegions_ok t (bok_layout _ Ht)) as (tf & Et & Hft & _), (GetFreeRegions_ok cur (bok_layout _ Hc)) as (cf & Ec & Hfc & _).
  pose proof (free_list_u64 _ _ _ (bok_layout _ Ht) Hft) as Hut. pose proof (free_list_u64 _ _ _ (bok_layout _ Hc) Hfc) as Huc.
  pose proof (free_starts_on_block t tf Ht Et) as Hst. pose proof (free_starts_on_block cur cf Hc Ec) as Hsc. rewrite <- Hd, <- Hl in Hsc.
  pose proof (intersection_regions tf cf Hut Huc) as Hr. unfold common_free_regions. fold t cur. rewrite Et, Ec. cbn [mbind outcome_mbind].
  set (regions := Intersect_list tf cf) in *. eexists regions, _. split; [done|].
  assert (Hcov : ∀ d s, iv_cover regions d s = iv_cover tf d s * iv_cover cf d s) by (intros; by apply Intersect_list_cover).
  assert (Hin : Forall (region_inside (b_block_devices t)) regions) by (apply Intersect_list_inside; [done..|apply Hft]).
  assert (H01 : ∀ d s, 0 ≤ iv_cover tf d s ≤ 1 ∧ 0 ≤ iv_cover cf d s ≤ 1 ∧ iv_cover tf d s + cover (owners t) d s ≤ 1 ∧
      iv_cover cf d s + cover (owners cur) d s ≤ 1 ∧ 0 ≤ cover (owners t) d s ∧ 0 ≤ cover (owners cur) d s).
  { intros d s. pose proof (fl_disjoint _ _ _ Hft d s). pose proof (fl_disjoint _ _ _ Hfc d s). unfold owners.
    pose proof (iv_cover_nonneg tf d s). pose proof (iv_cover_nonneg cf d s).
    pose proof (cover_nonneg (all_extents (b_partitions t)) d s). pose proof (cover_nonneg (all_extents (b_partitions cur)) d s). lia. }
  split; [split|].
  - split; [eapply Forall_impl; [exact Hr|]; by intros r (_ & H & _)|intros d s; rewrite Hcov; specialize (H01 d s); nia|].
    by apply Intersect_list_blocks.
  - split; [done|]. intros d s. rewrite Hcov. specialize (H01 d s). nia.
  - split; [done|]. intros d s. rewrite Hcov. specialize (H01 d s). nia.
  - eapply Forall_impl; [exact Hr|]. by intros r (H1 & H2 & _).
  - intros free E. rewrite Et in E. injection E as <-. eapply Forall_impl; [exact Hr|]. by intros r (_ & _ & H & _).
  - intros Hal. pose proof (free_regions_whole t tf Ht Hal Et) as Hwt. rewrite Hd in Hal. pose proof (free_regions_whole cur cf Hc Hal Ec) as Hwc.
    rewrite <- Hl in Hwc. by apply intersection_whole.
  - pose proof (free_length_le regions 0) as Hlen. destruct Hlen as [H1 H2]; [..|lia|].
    1,2: eapply Forall_impl; [exact Hr|]; by intros r (? & ? & _).
    set (x := foldl _ 0 regions) in *. unfold kSectorSize. pose proof (Z.mod_le (x * 512) (2 ^ 64) ltac:(lia) ltac:(lia)).
    pose proof (u64_range (x * 512)). unfold u64, LP_SECTOR_SIZE in *. lia.
Qed.

(** ** [Run] *)

(** The sizes for a COW of [n] bytes: all of it is in the partition and the file, the
    partition has whole blocks and takes what is free before the file takes anything. *)
Record room_for (bs n bytes : Z) (status : SnapshotStatus) : Prop := {
  rf_partition : 0 ≤ ss_cow_partition_size status ≤ bytes ∧ ss_cow_partition_size status ≤ n;
  rf_blocks : (bs | ss_cow_partition_size status);
  rf_sectors : (kSectorSize | ss_cow_file_size status);
  rf_all : n ≤ ss_cow_partition_size status + ss_cow_file_size status < n + kSectorSize;
  rf_first : 0 < ss_cow_file_size status → n `min` bytes < ss_cow_partition_size status + bs;
}.
Definition status_of (c : PartitionCowCreator) (status : SnapshotStatus) : Prop :=
  let p := cc_target_partition c in
  ss_name status = pt_name p ∧ ss_device_size status = pt_size p ∧ ss_snapshot_size status = pt_size p ∧
  ss_estimated_cow_size status = cc_update c ≫= pu_estimate_cow_size.
Lemma super_target t cur : tables_ok t cur → builder_device_name t 0 = LP_METADATA_DEFAULT_PARTITION_NAME.
Proof. intros [_ _ Hd _ _ Hs]. unfold builder_device_name in *. by rewrite Hd. Qed.
Lemma block_power t cur : tables_ok t cur → ∃ k, 0 ≤ k < 32 ∧ lbs cur = 2 ^ k.
Proof.
  intros H. destruct (bok_lbs _ (to_current _ _ H)) as (H1 & H2 & _).
  destruct (power_of_two (lbs cur)) as (k & Hk & E); [lia|apply (to_power _ _ H)|]. exists k. split; [|done]. split; [done|].
  apply (Z.pow_lt_mono_r_iff 2); lia.
Qed.

Lemma Run_ok c : tables_ok (cc_target_metadata c) (cc_current_metadata c) → creator_ok c →
  match Run c with
  | Ret ret => status_of c (snapshot_status ret) ∧
      if decide (pt_size (cc_target_partition c) = 0)
      then ss_cow_partition_size (snapshot_status ret) = 0 ∧ ss_cow_file_size (snapshot_status ret) = 0
      else ∃ n bytes, GetCowSize c = Ret n ∧ common_free_regions c = Ret (cow_partition_usable_regions ret, bytes) ∧ 0 < n ∧
        room_for (lbs (cc_current_metadata c)) n bytes (snapshot_status ret)
  | Reject => pt_size (cc_target_partition c) ≠ 0 ∧ GetCowSize c = Reject
  | Crash => False
  end.
Proof.
  intros Ht Hc. destruct (common_ok c Ht) as (regions & bytes & Er & Hr & Hb). pose proof (GetCowSize_ok c Hc) as Hn.
  destruct (block_power _ _ Ht) as (k & Hk & Ek). unfold Run.
  rewrite (CHECK_True (builder_device_name _ 0 = _ ∧ _)) by (split; [apply Ht|by eapply super_target]).
  cbn [mbind outcome_mbind]. fold (lbs (cc_current_metadata c)).
  pose proof (bok_lbs _ (to_current _ _ Ht)) as (L1 & L2 & _). rewrite u64_small by lia.
  rewrite CHECK_True by (split; [done|apply Ht]). cbn [mbind outcome_mbind].
  case_decide as Hz; [done|]. rewrite Er. cbn [mbind outcome_mbind].
  destruct (GetCowSize c) as [n| |]; [|done|done]. cbn [mbind outcome_mbind]. split; [done|].
  exists n, bytes. split; [done|]. split; [done|]. split; [lia|]. rewrite Ek, mask_down by lia.
  change (Z.lnot (kSectorSize - 1)) with (Z.lnot (2 ^ 9 - 1)). rewrite mask_down by done. change (2 ^ 9) with kSectorSize.
  set (p := n `min` bytes / 2 ^ k * 2 ^ k). pose proof (Z.pow_pos_nonneg 2 k ltac:(lia) ltac:(lia)) as Hp0.
  assert (Hp : 0 ≤ p ≤ n `min` bytes ∧ n `min` bytes < p + 2 ^ k).
  { subst p. pose proof (Z.div_mod (n `min` bytes) (2 ^ k) ltac:(lia)). pose proof (Z.mod_pos_bound (n `min` bytes) (2 ^ k) Hp0).
    pose proof (Z.div_pos (n `min` bytes) (2 ^ k) ltac:(lia) Hp0). nia. }
  rewrite (u64_small (n - p)), u64_small by (unfold kSectorSize in *; lia).
  set (f := (n - p + (kSectorSize - 1)) / kSectorSize * kSectorSize).
  assert (Hf : 0 ≤ f ∧ n - p ≤ f < n - p + kSectorSize).
  { subst f. unfold kSectorSize. pose proof (Z.div_mod (n - p + (512 - 1)) 512 ltac:(lia)).
    pose proof (Z.mod_pos_bound (n - p + (512 - 1)) 512 ltac:(lia)). lia. }
  split; cbn; [lia|by apply Z.divide_factor_r|by apply Z.divide_factor_r|lia|lia].
Qed.

(** ** The partition *)


(** What an empty partition of a group without a limit may get. *)
Lemma resize_empty fetcher b name p g size hint : builder_ok b → FindPartition b name = Some p → pt_extents p = [] →
  FindGroup b (pt_group_name p) = Some g → pg_maximum_size g = 0 → 0 < size < 2 ^ 64 → (lbs b | size) →
  hint_ok (b_block_devices b) (lbs b) hint →
  ∃ free, candidates fetcher b p hint = Ret free ∧
    ((∃ new, addition b p size new ∧ (∀ d s, cover new d s ≤ iv_cover free d s) ∧
        ResizePartition fetcher name size hint b = (Ret (), replaced name (foldl AddExtent p new) b)) ∨
     (ResizePartition fetcher name size hint b = (Reject, b) ∧ usable (lbs b / LP_SECTOR_SIZE) free * LP_SECTOR_SIZE < size)).
Proof.
  intros Hok Hfind Hnil Hg Hg0 Hs Hdiv Hhint. destruct (find_ok _ _ _ Hok Hfind) as (Hp & _).
  assert (Hp0 : pt_size p = 0) by (rewrite (pok_size _ Hp), Hnil; done).
  destruct (GrowPartition_regions fetcher b name p size hint Hok Hfind ltac:(lia) Hdiv Hhint) as (free & Hc & H).
  exists free. split; [done|]. destruct (bok_lbs _ Hok) as (Hl & Hl0 & _).
  assert (E : ResizePartition fetcher name size hint b = GrowPartition fetcher name size hint b).
  { unfold ResizePartition, deref. erewrite io_bind_eq by done.
    erewrite io_bind_eq by (unfold mbind, io_mbind, get, lift; by rewrite Hfind). fold (lbs b).
    assert (Ha : AlignTo 64 size (lbs b) = Some size) by (apply AlignTo_aligned; done). rewrite Ha.
    erewrite io_bind_eq by done.
    assert (Hv : ValidatePartitionSizeChange b p (pt_size p) size false = Ret ()).
    { unfold ValidatePartitionSizeChange. rewrite Hg, Hg0. case_decide; done. }
    erewrite io_bind_eq by (unfold lift; by rewrite Hv). by rewrite decide_True by lia. }
  rewrite E. destruct H as [(new & H1 & H2 & H3)|[H1 H2]]; [left; exists new; split; [done|split; [by apply H2|done]]|right].
  split; [done|lia].
Qed.
(** The regions that the hint leaves hold at least what is in the hint. *)
Lemma candidates_total fetcher b p hint free : builder_ok b → aligned_devices (b_block_devices b) → hint ≠ [] →
  candidates fetcher b p hint = Ret free → Forall (whole_region (lbs b)) hint →
  (∀ free0, GetFreeRegions b = Ret free0 → Forall (λ r, forward r ∧ region_u64_ok r ∧ within free0 r) hint) →
  region_total hint * LP_SECTOR_SIZE ≤ usable (lbs b / LP_SECTOR_SIZE) free * LP_SECTOR_SIZE.
Proof.
  intros Hok Hal Hne Hc Hw Hin. unfold candidates in Hc. apply bind_Ret in Hc as (free0 & Eg & Hc). rewrite decide_False in Hc by done.
  specialize (Hin free0 Eg). destruct (bok_lbs _ Hok) as (L1 & L2 & H512).
  destruct (GetFreeRegions_ok b (bok_layout _ Hok)) as (free1 & Eg1 & Hf & _). rewrite Eg in Eg1. injection Eg1 as <-.
  pose proof (free_list_u64 _ _ _ (bok_layout _ Hok) Hf) as Hu. pose proof (free_regions_whole b free0 Hok Hal Eg) as Hw0.
  assert (Hu' : Forall region_u64_ok hint) by (eapply Forall_impl; [exact Hin|]; by intros r (_ & ? & _)).
  pose proof (intersection_total free0 hint Hu Hin) as Hle. pose proof (intersection_whole _ _ _ Hw0 Hw Hu Hu') as Hwi.
  assert (H : region_total free = region_total (Intersect_list free0 hint) ∧ Forall (whole_region (lbs b)) free).
  { destruct (_ && _); [|by injection Hc as <-].
    eapply (prioritized (lbs b)); [done|done|done|apply Hok|apply Hok|done|exact Hc]. }
  destruct H as [H1 H2]. pose proof H512 as [spb Hspb]. rewrite Hspb in H2. rewrite Hspb, Z.div_mul by done.
  rewrite usable_whole; [|unfold LP_SECTOR_SIZE in *; lia|done]. rewrite H1. unfold LP_SECTOR_SIZE. lia.
Qed.

(** The table with an empty COW partition. *)
Definition with_empty (name group : bytes) (b : MetadataBuilder) : MetadataBuilder :=
  set_partitions b (b_partitions b ++ [NewPartition name group 0]).
Lemma with_empty_ok (fetcher : IPropertyFetcher) name group b : session_ok b → no_nul name → name ≠ [] → FindPartition b name = None → FindGroup b group ≠ None →
  AddPartition name group 0 b = (Ret (), with_empty name group b) ∧ changes (λ n, n = name) b (with_empty name group b) ∧
  FindPartition (with_empty name group b) name = Some (NewPartition name group 0) ∧
  owners (with_empty name group b) = owners b ∧ GetFreeRegions (with_empty name group b) = GetFreeRegions b.
Proof.
  intros Hb Hz Hne Hn Hg.
  assert (E : AddPartition name group 0 b = (Ret (), with_empty name group b)).
  { unfold AddPartition. rewrite (io_bind_eq _ _ _ b b) by done. by rewrite !io_require. }
  pose proof (add_changes fetcher name group 0 b Hb Hz) as H. rewrite E in H. destruct H as (H1 & _ & H2).
  assert (Ho : owners (with_empty name group b) = owners b).
  { unfold owners, all_extents. cbn. rewrite list.bind_app. csimpl. by rewrite app_nil_r. }
  split; [done|]. split; [done|]. split; [done|]. split; [done|]. unfold GetFreeRegions. fold (owners (with_empty name group b)). by rewrite Ho.
Qed.

(** What the COW partition is. *)
Record cow_partition (t current b' : MetadataBuilder) (name : bytes) (size : Z) (q : Partition) : Prop := {
  cp_found : FindPartition b' (GetCowName name) = Some q;
  cp_group : pt_group_name q = kCowGroupName;
  cp_size : pt_size q = size;
  cp_own d s : cover (pt_extents q) d s + cover (owners t) d s ≤ 1;
  cp_current d s : cover (pt_extents q) d s + cover (owners current) d s ≤ 1;
}.
Lemma grow_cow fetcher t current name size regions : session_ok t → tables_ok t current → no_nul name →
  FindGroup t kCowGroupName = Some (mkPartitionGroup kCowGroupName 0) → FindPartition t (GetCowName name) = None →
  0 < size < 2 ^ 64 → (lbs t | size) → usable_ok t current regions → regions ≠ [] →
  match (_ ← AddPartition (GetCowName name) kCowGroupName 0; ResizePartition fetcher (GetCowName name) size regions) t with
  | (Ret _, b') => changes (λ n, n = GetCowName name) t b' ∧ b_groups b' = b_groups t ∧ ∃ q, cow_partition t current b' name size q
  | (Reject, _) => aligned_devices (b_block_devices t) → region_total regions * LP_SECTOR_SIZE < size
  | (Crash, _) => False
  end.
Proof.
  intros Ht Htab Hz Hg Hn Hs Hdiv [U1 U2 U3 U4 U5 U6] Hnil.
  assert (Hcz : no_nul (GetCowName name)) by (intros [?|H]%elem_of_app; [done|revert H; by apply (bool_decide_unpack _)]).
  assert (Hne : GetCowName name ≠ []) by (by destruct name).
  destruct (with_empty_ok fetcher (GetCowName name) kCowGroupName t Ht Hcz Hne Hn ltac:(by rewrite Hg)) as (Ea & Hch & Hfind & Ho & Hfree).
  set (b := with_empty (GetCowName name) kCowGroupName t) in *. rewrite (io_bind_eq _ _ _ () b) by exact Ea.
  set (p := NewPartition (GetCowName name) kCowGroupName 0) in *. set (g := mkPartitionGroup kCowGroupName 0).
  pose proof (ch_ok _ _ _ Hch) as [Hok Hty].
  destruct (resize_empty fetcher b _ p g size regions Hok Hfind eq_refl Hg eq_refl Hs Hdiv U1) as (free & Hcand & [(new & Hadd & Hnew & E)|[E Hus]]).
  - pose proof (Resize_typed_hint fetcher (GetCowName name) size regions b p U1 Hok Hty Hfind ltac:(lia)) as Hr. rewrite E in *.
    destruct Hr as (Hok' & Hty' & _). destruct (grown_ok b _ p size new Hok Hfind Hadd ltac:(lia)) as (_ & Hqs & Hqn & Hqg & _ & Hqc & _).
    set (q := foldl AddExtent p new) in *. split; [|split; [done|exists q]].
    + eapply changes_trans; [exact Hch|]. split; [done|done|]. intros n Hne'. by apply FindPartition_other.
    + destruct (candidates_ok fetcher b p regions Hok U1) as (free0 & free' & Eg & Hc' & Hfok & _ & Hcov). rewrite Hcand in Hc'. injection Hc' as <-.
      assert (Hle : ∀ d s, cover new d s ≤ iv_cover regions d s).
      { intros d s. specialize (Hnew d s). rewrite Hcov in Hnew. destruct (GetFreeRegions_ok b (bok_layout _ Hok)) as (f & Ef & Hf & _).
        rewrite Eg in Ef. injection Ef as <-. pose proof (fl_disjoint _ _ _ Hf d s) as H1. pose proof (iv_cover_nonneg free0 d s).
        fold (owners b) in H1. pose proof (cover_nonneg (owners b) d s). pose proof (iv_cover_nonneg regions d s).
        rewrite decide_False in Hnew by done. nia. }
      split; [by eapply FindPartition_replaced|done|done| |]; intros d s; rewrite Hqc; cbn [NewPartition pt_extents cover p];
        specialize (Hle d s); [pose proof (fl_disjoint _ _ _ U2 d s)|pose proof (fl_disjoint _ _ _ U3 d s)]; unfold owners in *; lia.
  - rewrite E. intros Hal. pose proof (candidates_total fetcher b p regions free Hok Hal Hnil Hcand (U6 Hal)) as H. specialize (H ltac:(intros free0 Ef;
      rewrite Hfree in Ef; specialize (U5 free0 Ef); rewrite Forall_forall in *; intros r Hr; destruct (U4 r Hr); split; [done|split; [done|by apply U5]])). lia.
Qed.

(** The COW partition of a snapshot.  Nothing but it changes; no partition of either slot
    owns its sectors; on aligned devices there is always room for it. *)
Lemma CreateCowPartition_ok fetcher c ret name : let t := cc_target_metadata c in
  session_ok t → tables_ok t (cc_current_metadata c) → creator_ok c → Run c = Ret ret → no_nul name →
  FindGroup t kCowGroupName = Some (mkPartitionGroup kCowGroupName 0) → FindPartition t (GetCowName name) = None →
  let size := ss_cow_partition_size (snapshot_status ret) in
  match CreateCowPartition fetcher name ret t with
  | (Ret _, b') => changes (λ n, n = GetCowName name) t b' ∧ b_groups b' = b_groups t ∧
      if decide (size = 0) then b' = t else ∃ q, cow_partition t (cc_current_metadata c) b' name size q
  | (Reject, _) => ¬ aligned_devices (b_block_devices t)
  | (Crash, _) => False
  end.
Proof.
  intros t Ht Htab Hc Hrun Hz Hg Hn size. pose proof (Run_ok c Htab Hc) as H. rewrite Hrun in H. destruct H as [_ H].
  unfold CreateCowPartition. fold size.
  assert (Hzero : size = 0 → match (mret () : IO MetadataBuilder unit) t with
    | (Ret _, b') => changes (λ n, n = GetCowName name) t b' ∧ b_groups b' = b_groups t ∧
        if decide (size = 0) then b' = t else ∃ q, cow_partition t (cc_current_metadata c) b' name size q
    | (Reject, _) => ¬ aligned_devices (b_block_devices t) | (Crash, _) => False end).
  { intros Hs. cbn. rewrite decide_True by done. by split; [apply changes_refl|]. }
  destruct (decide (pt_size (cc_target_partition c) = 0)) as [Hp0|Hp0];
    [destruct H as [H _]; fold size in H; rewrite decide_False by lia; by apply Hzero|].
  destruct H as (n & bytes & Hn' & Er & Hpos & [R1 R2 _ _ _]). fold size in R1, R2. fold t in Htab.
  destruct (common_ok c Htab) as (regions & bytes' & Er' & Hr & Hb). rewrite Er in Er'. injection Er' as <- <-. fold t in Hr.
  pose proof (GetCowSize_ok c Hc) as Hsz. rewrite Hn' in Hsz. rewrite <- (to_blocks _ _ Htab) in R2.
  destruct (decide (0 < size)) as [Hlt|Hlt]; [|apply Hzero; lia]. clear Hzero.
  destruct (bok_lbs _ (to_target _ _ Htab)) as (_ & _ & H512). pose proof (Z.divide_trans _ _ _ H512 R2) as H512'.
  rewrite (io_bind_eq _ _ t () t) by (unfold lift; rewrite CHECK_True by (by apply Z.mod_divide); done).
  assert (Hne : cow_partition_usable_regions ret ≠ []) by (intros E; rewrite E in Hb; cbn in Hb; lia).
  pose proof (grow_cow fetcher t _ name size _ Ht Htab Hz Hg Hn ltac:(unfold kSectorSize in Hsz; lia) R2 Hr Hne) as H.
  destruct ((_ ← AddPartition _ _ _; _) t) as [[u| |] b']; [|intros Hal; specialize (H Hal); lia|done].
  rewrite decide_False by lia. exact H.
Qed.
