(* ===== verification/SnapProps.v ===== *)
(** * Properties of an update of a Virtual A/B device

    The tables of the target slot, the room for copy-on-write data and the copies that an
    update leaves out, with an instance of each on a small device. *)
From stdpp Require Import gmap.
From S2P Require Import Prelude Bytes Device LpFormat LpUtility LpReader LpWriter LpImage LpExtent LpBuilder.
From S2P Require Import LpAlloc LpInvariant LpExport LpReach BuilderProps SnapUpdate SnapTables SnapCow.
From S2P Require Import SnapSpace.
From coqutil Require Import Byte.

(** ** A device for the instances *)

Module UDemo.
(** 4 MiB in blocks of 4 KiB. *)
Definition info : BlockDeviceInfo := mkInfo 4194304 4096 0 4096 (str "super").
Definition builder_of (r : outcome MetadataBuilder) : MetadataBuilder := match r with Ret b => b | _ => EmptyBuilder end.
Definition new : MetadataBuilder := builder_of (New_devices [info] (str "super") 4096 2).
(** The table of a slot before the update. *)
Definition ops (suffix : bytes) : list builder_op :=
  [OpAddGroup (str "main" ++ suffix) 3145728; OpAddPartition (str "system" ++ suffix) (str "main" ++ suffix) 1;
   OpResize (str "system" ++ suffix) 409600; OpAddPartition (str "odm" ++ suffix) (str "main" ++ suffix) 1;
   OpResize (str "odm" ++ suffix) 40960].
Definition slot (suffix : bytes) : MetadataBuilder := snd (run_ops BDemo.fetcher (ops suffix) new).
Definition current : MetadataBuilder := slot (str "_a").
Definition target : MetadataBuilder := slot (str "_b").
(** Blocks 0 to 4 stay, 5 to 9 move to 20. *)
Definition copy : InstallOperation := mkInstall SOURCE_COPY [mkRange 0 10] [mkRange 0 5; mkRange 20 5].
Definition replace : InstallOperation := mkInstall (OtherOperation 0) [] [mkRange 30 3].
Definition system : PartitionUpdate := mkPartitionUpdate (str "system") 450560 None [copy; replace] None None.
Definition product : PartitionUpdate := mkPartitionUpdate (str "product") 16384 (Some 100000) [] None None.
Definition manifest : DeltaArchiveManifest :=
  mkManifest false (Some [mkDynamicGroup (str "main") 2097152 [str "system"; str "product"]]) [system; product] (mkCompression false [] 2 None None).
Definition updater_of (r : outcome SnapshotMetadataUpdater) : SnapshotMetadataUpdater :=
  match r with Ret u => u | _ => mkUpdater [] [] [] false end.
Definition updater : SnapshotMetadataUpdater := updater_of (NewUpdater 1 manifest).
Definition updated_target : MetadataBuilder := snd (Update BDemo.fetcher updater target).
(** The table with the group of COW partitions, and the creator for [system_b]. *)
Definition with_group : MetadataBuilder := snd (AddGroup kCowGroupName 0 updated_target).
Definition system_b : Partition := default (NewPartition [] [] 0) (FindPartition with_group (str "system_b")).
Definition creator : PartitionCowCreator := mkCreator with_group system_b current (Some system) [mkRange 100 2] false.
Definition ret_of (r : outcome CowReturn) : CowReturn := match r with Ret x => x | _ => mkCowReturn (mkStatus [] 0 0 None 0 0) [] end.
Definition ret : CowReturn := ret_of (Run creator).

Lemma device_info_ok : Forall info_ok [info].
Proof. by repeat constructor. Qed.
Lemma device_info_regular : Forall regular [info].
Proof. constructor; [|constructor]. intros _. split; [by exists 1024|by exists 1]. Qed.
Lemma device_made_new : New_devices [info] (str "super") 4096 2 = Ret new.
Proof. by vm_compute. Qed.
Lemma slot_session suffix : Forall op_ok (ops suffix) → session_ok (slot suffix).
Proof.
  intros Hops. destruct (New_devices_ok [info] (str "super") 4096 2 new device_info_ok device_info_regular ltac:(done) ltac:(done) device_made_new) as (H1 & H2 & _).
  destruct (run_ops_ok BDemo.fetcher (ops suffix) new (conj H1 H2) Hops) as (b & E & Hb). unfold slot. by rewrite E.
Qed.
Ltac solve_ops := repeat (constructor; [try done; try (split; [|done]); by apply (bool_decide_unpack _)|]); constructor.
Lemma current_session : session_ok current.
Proof. apply slot_session. solve_ops. Qed.
Lemma target_session : session_ok target.
Proof. apply slot_session. solve_ops. Qed.
Lemma manifest_is_ok : manifest_ok manifest.
Proof.
  split.
  - repeat (constructor; [split; [by apply (bool_decide_unpack _)|done]|]). constructor.
  - by apply (bool_decide_unpack _).
  - intros gs [= <-]. split; [repeat (constructor; [split; [by apply (bool_decide_unpack _)|done]|]); constructor|by apply (bool_decide_unpack _)].
Qed.
Lemma updater_made : NewUpdater 1 manifest = Ret updater.
Proof. by vm_compute. Qed.
Lemma target_updated : Update BDemo.fetcher updater target = (Ret (), updated_target).
Proof.
  unfold updated_target. assert (H : fst (Update BDemo.fetcher updater target) = Ret ()) by (by vm_compute).
  by destruct (Update BDemo.fetcher updater target) as [r b]; simpl in *; rewrite H.
Qed.
Lemma group_added : AddGroup kCowGroupName 0 updated_target = (Ret (), with_group).
Proof.
  unfold with_group. assert (H : fst (AddGroup kCowGroupName 0 updated_target) = Ret ()) by (by vm_compute).
  by destruct (AddGroup kCowGroupName 0 updated_target) as [r b]; simpl in *; rewrite H.
Qed.
Lemma updated_session : session_ok updated_target.
Proof.
  destruct (NewUpdater_ok 1 manifest updater updater_made manifest_is_ok) as (H1 & H2 & H3 & _).
  pose proof (Update_ok BDemo.fetcher updater H1 H2 H3 target target_session) as H. rewrite target_updated in H.
  destruct H as [[Hs _ _] _]. exact Hs.
Qed.
Lemma with_group_session : session_ok with_group.
Proof.
  assert (Hc : no_nul kCowGroupName) by (by apply (bool_decide_unpack _)). assert (H0 : is_u64 0) by done.
  pose proof (grouping_changes BDemo.fetcher kCowGroupName 0 updated_target updated_session Hc H0) as H.
  rewrite group_added in H. destruct H as [[Hs _ _] _]. exact Hs.
Qed.
Lemma slots_ok : tables_ok with_group current.
Proof.
  split; [apply with_group_session|apply current_session|..]; by vm_compute.
Qed.
Lemma creator_is_ok : creator_ok creator.
Proof.
  split; [|by intros u e [= <-]]. intros u [= <-].
  repeat (constructor; [split; repeat (constructor; [by vm_compute|]); constructor|]). constructor.
Qed.
Lemma creator_ran : Run creator = Ret ret.
Proof. by vm_compute. Qed.
Lemma cow_created : ∃ b', CreateCowPartition BDemo.fetcher (str "system_b") ret with_group = (Ret (), b').
Proof.
  assert (H : fst (CreateCowPartition BDemo.fetcher (str "system_b") ret with_group) = Ret ()) by (by vm_compute).
  destruct (CreateCowPartition _ _ _ _) as [r b']. simpl in H. subst r. by exists b'.
Qed.
End UDemo.

(** ** Tables *)

(** C16: An update of the tables for a manifest with different names never aborts; whether it
    succeeds or not, the builder keeps its invariant and every partition outside the target
    slot that is not a COW partition stays as it is.  When it succeeds, the slot has the
    partitions of the manifest in their groups and sizes, with the contents they kept, groups
    of the sizes of the manifest, and unless the update is partial nothing else. *)
Theorem update_tables (fetcher : IPropertyFetcher) (slot : Z) (manifest : DeltaArchiveManifest) (u : SnapshotMetadataUpdater) (b : MetadataBuilder)
    (made : NewUpdater slot manifest = Ret u) (manifest_is_ok : manifest_ok manifest) (b_ok : session_ok b) :
  let cleared := RemoveGroupAndPartitions kCowGroupName b in
  match Update fetcher u b with
  | (Crash, _) => False
  | (r, b') => changes (in_slot u) cleared b' ∧ (r = Ret () → updated u cleared b')
  end.
Proof.
  destruct (NewUpdater_ok slot manifest u made manifest_is_ok) as (H1 & H2 & H3 & _). exact (Update_ok fetcher u H1 H2 H3 b b_ok).
Qed.

Lemma update_tables_witness :
  let cleared := RemoveGroupAndPartitions kCowGroupName UDemo.target in
  ∃ b', Update BDemo.fetcher UDemo.updater UDemo.target = (Ret (), b') ∧ changes (in_slot UDemo.updater) cleared b' ∧ updated UDemo.updater cleared b'.
Proof.
  pose proof (update_tables BDemo.fetcher 1 UDemo.manifest UDemo.updater UDemo.target UDemo.updater_made UDemo.manifest_is_ok UDemo.target_session) as H.
  cbv zeta in *. rewrite UDemo.target_updated in H. destruct H as [H1 H2].
  exists UDemo.updated_target. split; [exact UDemo.target_updated|]. split; [exact H1|exact (H2 eq_refl)].
Defined.

(** ** Copy-on-write space *)

(** C17: The COW partition that is created for a snapshot owns no sector that a partition of
    the target or of the current slot owns, has the size that was computed, and nothing else
    changes in the table.  On devices with an alignment its creation never fails. *)
Theorem cow_partition_safe (fetcher : IPropertyFetcher) (c : PartitionCowCreator) (ret : CowReturn) (name : bytes)
    (target_ok : session_ok (cc_target_metadata c)) (slots_ok : tables_ok (cc_target_metadata c) (cc_current_metadata c))
    (c_ok : creator_ok c) (ran : Run c = Ret ret) (name_ok : no_nul name)
    (group : FindGroup (cc_target_metadata c) kCowGroupName = Some (mkPartitionGroup kCowGroupName 0))
    (fresh : FindPartition (cc_target_metadata c) (GetCowName name) = None) :
  let t := cc_target_metadata c in
  let size := ss_cow_partition_size (snapshot_status ret) in
  match CreateCowPartition fetcher name ret t with
  | (Ret _, b') => changes (λ n, n = GetCowName name) t b' ∧ b_groups b' = b_groups t ∧
      if decide (size = 0) then b' = t else ∃ q, cow_partition t (cc_current_metadata c) b' name size q
  | (Reject, _) => ¬ aligned_devices (b_block_devices t)
  | (Crash, _) => False
  end.
Proof. exact (CreateCowPartition_ok fetcher c ret name target_ok slots_ok c_ok ran name_ok group fresh). Qed.

Lemma cow_partition_safe_witness :
  ∃ b' q, CreateCowPartition BDemo.fetcher (str "system_b") UDemo.ret UDemo.with_group = (Ret (), b') ∧
    cow_partition UDemo.with_group UDemo.current b' (str "system_b") 49152 q.
Proof.
  assert (Hn : no_nul (str "system_b")) by (by apply (bool_decide_unpack _)).
  assert (Hg : FindGroup (cc_target_metadata UDemo.creator) kCowGroupName = Some (mkPartitionGroup kCowGroupName 0)) by (vm_compute; reflexivity).
  assert (Hf : FindPartition (cc_target_metadata UDemo.creator) (GetCowName (str "system_b")) = None) by (vm_compute; reflexivity).
  pose proof (cow_partition_safe BDemo.fetcher UDemo.creator UDemo.ret (str "system_b") UDemo.with_group_session UDemo.slots_ok UDemo.creator_is_ok
    UDemo.creator_ran Hn Hg Hf) as H. cbv zeta in H.
  change (cc_target_metadata UDemo.creator) with UDemo.with_group in H. change (cc_current_metadata UDemo.creator) with UDemo.current in H.
  destruct UDemo.cow_created as [b' E]. rewrite E in H. destruct H as (_ & _ & H).
  assert (Hs : ss_cow_partition_size (snapshot_status UDemo.ret) = 49152) by (vm_compute; reflexivity).
  rewrite Hs in H. destruct (decide (49152 = 0)) as [H0|_]; [discriminate H0|]. destruct H as [q Hq]. exists b', q. split; [exact E|exact Hq].
Defined.

(** C19: [Run] never aborts on two tables of the same devices.  It finds space for the whole
    COW: whole blocks of the regions that are free in both tables, and whole sectors of a file
    for what does not fit there. *)
Theorem cow_sizes_suffice (c : PartitionCowCreator)
    (slots_ok : tables_ok (cc_target_metadata c) (cc_current_metadata c)) (c_ok : creator_ok c) :
  match Run c with
  | Ret ret => status_of c (snapshot_status ret) ∧
      if decide (pt_size (cc_target_partition c) = 0)
      then ss_cow_partition_size (snapshot_status ret) = 0 ∧ ss_cow_file_size (snapshot_status ret) = 0
      else ∃ n bytes, GetCowSize c = Ret n ∧ common_free_regions c = Ret (cow_partition_usable_regions ret, bytes) ∧ 0 < n ∧
        room_for (lbs (cc_current_metadata c)) n bytes (snapshot_status ret)
  | Reject => pt_size (cc_target_partition c) ≠ 0 ∧ GetCowSize c = Reject
  | Crash => False
  end.
Proof. exact (Run_ok c slots_ok c_ok). Qed.

Lemma cow_sizes_suffice_witness :
  ∃ n bytes, GetCowSize UDemo.creator = Ret n ∧ room_for 4096 n bytes (snapshot_status UDemo.ret).
Proof.
  pose proof (cow_sizes_suffice UDemo.creator UDemo.slots_ok UDemo.creator_is_ok) as H. rewrite UDemo.creator_ran in H. destruct H as [_ H].
  assert (Hs : pt_size (cc_target_partition UDemo.creator) = 450560) by (vm_compute; reflexivity). rewrite Hs in H.
  destruct (decide (450560 = 0)) as [H0|_]; [discriminate H0|]. destruct H as (n & bytes & H1 & _ & _ & H2). exists n, bytes. split; [exact H1|].
  assert (Hb : lbs (cc_current_metadata UDemo.creator) = 4096) by (vm_compute; reflexivity). rewrite Hb in H2. exact H2.
Defined.

(** C20: The size for dm-snapshot is that of a store for the chunks the update writes, each
    counted once: every one of them has a chunk of its own in it, beside the header, the maps
    of all areas and the map that ends the list.  It is refused only for chunks whose number
    has more than 32 bits. *)
Theorem cow_size_exact (c : PartitionCowCreator) (c_ok : creator_ok c) (kernel : cc_using_snapuserd c = false) :
  let n := distinct (cow_chunks c) in
  GetCowSize c = (if decide (Forall in_range (cow_chunks c)) then Ret (store_bytes n) else Reject) ∧
  ∀ k, 0 ≤ k < n →
    0 < exception_chunk k < store_chunks n ∧ (∀ a, 0 ≤ a ≤ n / 256 → 0 < area_map a < store_chunks n) ∧
    (∀ a, exception_chunk k ≠ area_map a) ∧ ∀ j, exception_chunk j = exception_chunk k → j = k.
Proof. split; [by apply snapshot_size_eq|]. intros k. apply store_room. Qed.

Lemma cow_size_exact_witness : distinct (cow_chunks UDemo.creator) = 10 ∧ GetCowSize UDemo.creator = Ret 49152.
Proof.
  assert (Hd : distinct (cow_chunks UDemo.creator) = 10) by (vm_compute; reflexivity). split; [exact Hd|].
  destruct (cow_size_exact UDemo.creator UDemo.creator_is_ok eq_refl) as [H _]. rewrite H, Hd. vm_compute. reflexivity.
Defined.

(** C18: [OptimizeSourceCopyOperation] ends on every operation.  When it reports that it left
    out blocks, the copies that remain are those that move a block, in order, and the
    partition looks the same through the snapshot as after the whole operation. *)
Theorem optimized_copy_same_view (op o : InstallOperation) (op_ok : install_ok op) :
  ∃ flag o', OptimizeSourceCopyOperation op o = Ret (flag, o') ∧
    (flag = true → in_type op = SOURCE_COPY ∧ same_blocks op ∧ copies o' = filter moves (copies op) ∧
       ∀ (B : Type) (old : Z → B) (written : gmap Z B) (n : Z), NoDup (copies op).*2 → (∀ m, m ∈ (copies op).*2 → written !! m = None) →
         view old (copy_blocks old (copies o') written) n = view old (copy_blocks old (copies op) written) n) ∧
    (in_type op = SOURCE_COPY → starts_full (in_src_extents op) → starts_full (in_dst_extents op) → same_blocks op →
       flag = true ↔ no_extents op ∨ ∃ p, p ∈ copies op ∧ ¬ moves p).
Proof.
  destruct (Optimize_ok op o op_ok) as (flag & o' & E & H1 & H2). exists flag, o'. split; [exact E|]. split; [|exact H2].
  intros Hf. destruct (H1 Hf) as (H3 & _ & _ & H4 & H5). split; [done|]. split; [done|]. split; [done|].
  intros B old w n. rewrite H5. apply view_moves.
Qed.

Lemma optimized_copy_same_view_witness :
  ∃ o', OptimizeSourceCopyOperation UDemo.copy UDemo.replace = Ret (true, o') ∧ copies o' = zip [5; 6; 7; 8; 9] [20; 21; 22; 23; 24] ∧
    view (λ b : Z, b) (copy_blocks (λ b, b) (copies o') ∅) 22 = 7.
Proof.
  assert (Hok : install_ok UDemo.copy) by (split; repeat (constructor; [vm_compute; done|]); constructor).
  destruct (optimized_copy_same_view UDemo.copy UDemo.replace Hok) as (flag & o' & E & H & _).
  assert (Ef : flag = true) by (vm_compute in E; congruence). subst flag.
  destruct (H eq_refl) as (_ & _ & Hc & Hv). exists o'. split; [exact E|]. split; [rewrite Hc; vm_compute; reflexivity|].
  rewrite (Hv Z (λ b, b) ∅ 22); [vm_compute; reflexivity|by apply (bool_decide_unpack _); vm_compute|done].
Defined.
