(* ===== verification/SnapWorld.v ===== *)
(** * What the snapshot manager works on ([libsnapshot/snapshot.proto] and its interfaces)

    The messages that describe an update, and the interfaces the manager calls: the files
    of the metadata directory, device-mapper, the image manager, the [snapuserd] daemon
    and the boot HAL.  [SnapWorldLaws] states what the calls do to the files. *)
From S2P Require Import Prelude Bytes Device DmTarget DeviceMapper.

(** ** Messages *)

Module UpdateState.
(** [libsnapshot/android/snapshot/snapshot.proto:120-146 UpdateState] *)
Inductive UpdateState :=
| None | Initiated | Unverified | Merging | MergeNeedsReboot | MergeCompleted | MergeFailed | Cancelled.
End UpdateState.
Export UpdateState (UpdateState).
Module SnapshotState.
(** [libsnapshot/android/snapshot/snapshot.proto:21-35 SnapshotState] *)
Inductive SnapshotState := NONE | CREATED | MERGING | MERGE_COMPLETED.
End SnapshotState.
Export SnapshotState (SnapshotState).
(** [libsnapshot/android/snapshot/snapshot.proto:38-47 MergePhase] *)
Inductive MergePhase := NO_MERGE | FIRST_PHASE | SECOND_PHASE.
Module MergeFailureCode.
(** [libsnapshot/android/snapshot/snapshot.proto:152-174 MergeFailureCode] *)
Inductive MergeFailureCode :=
| Ok | ReadStatus | GetTableInfo | UnknownTable | GetTableParams | ActivateNewTable
| AcquireLock | ListSnapshots | WriteStatus | UnknownTargetType | QuerySnapshotStatus
| ExpectedMergeTarget | UnmergedSectorsAfterCompletion | UnexpectedMergeState
| GetCowPathConsistencyCheck | OpenCowConsistencyCheck | ParseCowConsistencyCheck
| OpenCowDirectConsistencyCheck | MemAlignConsistencyCheck | DirectReadConsistencyCheck
| WrongMergeCountConsistencyCheck.
End MergeFailureCode.
Export MergeFailureCode (MergeFailureCode).

#[export] Instance update_state_eq_dec : EqDecision UpdateState.
Proof. solve_decision. Defined.
#[export] Instance snapshot_state_eq_dec : EqDecision SnapshotState.
Proof. solve_decision. Defined.
#[export] Instance merge_phase_eq_dec : EqDecision MergePhase.
Proof. solve_decision. Defined.
#[export] Instance failure_code_eq_dec : EqDecision MergeFailureCode.
Proof. solve_decision. Defined.

(** [libsnapshot/android/snapshot/snapshot.proto:50-117 SnapshotStatus] *)
Record SnapshotStatus := mkSnapshotStatus {
  st_name : bytes;
  st_state : SnapshotState;
  st_device_size : Z;
  st_snapshot_size : Z;
  st_cow_partition_size : Z;
  st_cow_file_size : Z;
  st_sectors_allocated : Z;
  st_metadata_sectors : Z;
  st_using_snapuserd : bool;
  st_old_partition_size : Z;
  st_compression_algorithm : bytes;
  st_estimated_cow_size : Z;
  st_enable_threading : bool;
  st_batched_writes : bool;
}.
(** [libsnapshot/android/snapshot/snapshot.proto:177-209 SnapshotUpdateStatus] *)
Record SnapshotUpdateStatus := mkUpdateStatus {
  us_state : UpdateState;
  us_sectors_allocated : Z;
  us_total_sectors : Z;
  us_metadata_sectors : Z;
  us_using_snapuserd : bool;
  us_merge_phase : MergePhase;
  us_merge_failure_code : MergeFailureCode;
  us_source_build_fingerprint : bytes;
  us_userspace_snapshots : bool;
  us_io_uring_enabled : bool;
}.
#[export] Instance snapshot_status_eq_dec : EqDecision SnapshotStatus.
Proof. solve_decision. Defined.
#[export] Instance update_status_eq_dec : EqDecision SnapshotUpdateStatus.
Proof. solve_decision. Defined.

(** Messages with every field at its default. *)
Definition empty_status : SnapshotStatus :=
  mkSnapshotStatus [] SnapshotState.NONE 0 0 0 0 0 0 false 0 [] 0 false false.
Definition empty_update_status : SnapshotUpdateStatus :=
  mkUpdateStatus UpdateState.None 0 0 0 false NO_MERGE MergeFailureCode.Ok [] false false.
(** The setters of the generated classes that the manager calls. *)
Definition set_name (name : bytes) (s : SnapshotStatus) : SnapshotStatus :=
  mkSnapshotStatus name (st_state s) (st_device_size s) (st_snapshot_size s) (st_cow_partition_size s)
    (st_cow_file_size s) (st_sectors_allocated s) (st_metadata_sectors s) (st_using_snapuserd s)
    (st_old_partition_size s) (st_compression_algorithm s) (st_estimated_cow_size s)
    (st_enable_threading s) (st_batched_writes s).
Definition set_snapshot_state (state : SnapshotState) (s : SnapshotStatus) : SnapshotStatus :=
  mkSnapshotStatus (st_name s) state (st_device_size s) (st_snapshot_size s) (st_cow_partition_size s)
    (st_cow_file_size s) (st_sectors_allocated s) (st_metadata_sectors s) (st_using_snapuserd s)
    (st_old_partition_size s) (st_compression_algorithm s) (st_estimated_cow_size s)
    (st_enable_threading s) (st_batched_writes s).
Definition set_sectors (allocated metadata : Z) (s : SnapshotStatus) : SnapshotStatus :=
  mkSnapshotStatus (st_name s) (st_state s) (st_device_size s) (st_snapshot_size s) (st_cow_partition_size s)
    (st_cow_file_size s) allocated metadata (st_using_snapuserd s)
    (st_old_partition_size s) (st_compression_algorithm s) (st_estimated_cow_size s)
    (st_enable_threading s) (st_batched_writes s).
Definition set_update_state (state : UpdateState) (u : SnapshotUpdateStatus) : SnapshotUpdateStatus :=
  mkUpdateStatus state (us_sectors_allocated u) (us_total_sectors u) (us_metadata_sectors u)
    (us_using_snapuserd u) (us_merge_phase u) (us_merge_failure_code u) (us_source_build_fingerprint u)
    (us_userspace_snapshots u) (us_io_uring_enabled u).
Definition set_using_snapuserd (b : bool) (u : SnapshotUpdateStatus) : SnapshotUpdateStatus :=
  mkUpdateStatus (us_state u) (us_sectors_allocated u) (us_total_sectors u) (us_metadata_sectors u)
    b (us_merge_phase u) (us_merge_failure_code u) (us_source_build_fingerprint u)
    (us_userspace_snapshots u) (us_io_uring_enabled u).
Definition set_update_sectors (allocated total metadata : Z) (u : SnapshotUpdateStatus) : SnapshotUpdateStatus :=
  mkUpdateStatus (us_state u) allocated total metadata
    (us_using_snapuserd u) (us_merge_phase u) (us_merge_failure_code u) (us_source_build_fingerprint u)
    (us_userspace_snapshots u) (us_io_uring_enabled u).
Definition set_merge_phase (phase : MergePhase) (u : SnapshotUpdateStatus) : SnapshotUpdateStatus :=
  mkUpdateStatus (us_state u) (us_sectors_allocated u) (us_total_sectors u) (us_metadata_sectors u)
    (us_using_snapuserd u) phase (us_merge_failure_code u) (us_source_build_fingerprint u)
    (us_userspace_snapshots u) (us_io_uring_enabled u).

(** The encoding that protobuf generates for the two messages.  What was serialised is
    parsed back; other bytes may be an error or some message.  After an error
    [ParseFromString] leaves a message with what it could parse. *)
Class SnapProto := {
  serialize_status : SnapshotStatus → option bytes;
  parse_status : bytes → option SnapshotStatus;
  serialize_update_status : SnapshotUpdateStatus → option bytes;
  parse_update_status : bytes → bool * SnapshotUpdateStatus;
  status_roundtrip s b : serialize_status s = Some b → parse_status b = Some s;
  update_status_roundtrip u b : serialize_update_status u = Some b → parse_update_status b = (true, u);
}.

(** ** Interfaces *)

(** [libfiemap/include/libfiemap/fiemap_status.h] *)
Inductive FiemapStatus := FiemapOk | FiemapError | FiemapNoSpace.
(** [fsync] of a directory; some file systems do not support it ([EROFS], [EINVAL]). *)
Inductive FsyncResult := FsyncDone | FsyncUnsupported | FsyncFailed.
(** System calls, and helpers of libbase, on paths.  A descriptor is named by the path it
    was opened with; every descriptor here is used right after it is opened. *)
Class IFiles (W : Type) := {
  (** [open(path, O_RDONLY)]; [flock(fd, LOCK_EX)], or [LOCK_SH]. *)
  open_directory : bytes → IO W unit;
  flock : bytes → bool → IO W unit;
  ReadFileToString : bytes → IO W bytes;
  open_trunc : bytes → IO W unit;
  WriteStringToFd : bytes → bytes → IO W unit;
  fsync_file : bytes → IO W unit;
  rename : bytes → bytes → IO W unit;
  fsync_directory : bytes → IO W FsyncResult;
  WriteStringToFile : bytes → bytes → IO W unit;
  (** Succeeds when the file is not there. *)
  RemoveFileIfExists : bytes → IO W unit;
  access_F_OK : bytes → IO W bool;
  (** The names in a directory, and which of them are regular files. *)
  read_dir : bytes → IO W (list (bytes * bool));
  (** [WaitForFileDeleted] of fs_mgr. *)
  WaitForFileDeleted_10s : bytes → IO W unit;
  (** [std::chrono::steady_clock::now()] in milliseconds, and [std::this_thread::sleep_for]. *)
  clock_now : IO W Z;
  sleep_ms : Z → IO W unit;
  (** [open(path, O_RDONLY)] and [get_block_device_size]; 0 when the size is not known. *)
  block_device_size : bytes → IO W Z;
  (** [open(path, O_WRONLY)] and [WriteFully]; what [errno] says when one of them fails. *)
  write_device : bytes → bytes → IO W FiemapStatus;
  (** [WaitForFile] of fs_mgr, and the callback that init sets. *)
  WaitForFile_ : bytes → Z → IO W unit;
  uevent_regen_callback : bytes → IO W unit;
  (** [AutoUnmountDevice::New]: whether something was mounted; and its end. *)
  mount_metadata : bytes → IO W bool;
  unmount_metadata : bytes → IO W unit;
}.
(** [libdm/include/libdm/dm.h:60-84 IDeviceMapper] *)
Class IDeviceMapper (W : Type) := {
  dm_CreateDevice : bytes → DmTable → Z → IO W bytes;
  dm_GetState : bytes → IO W DmDeviceState;
  dm_LoadTableAndActivate : bytes → DmTable → IO W unit;
  dm_GetTableInfo : bytes → IO W (list TargetInfo);
  dm_GetTableStatus : bytes → IO W (list TargetInfo);
  dm_GetDmDevicePathByName : bytes → IO W bytes;
  dm_GetDeviceString : bytes → IO W bytes;
  dm_DeleteDeviceIfExists : bytes → IO W unit;
}.
(** The members of [IImageManager] (libfiemap) that the manager calls, and [OpenImageManager]. *)
Class IImageManager (W : Type) := {
  OpenImageManager : IO W unit;
  im_CreateBackingImage : bytes → Z → IO W FiemapStatus;
  im_BackingImageExists : bytes → IO W bool;
  im_DeleteBackingImage : bytes → IO W unit;
  im_UnmapImageIfExists : bytes → IO W unit;
  im_IsImageMapped : bytes → IO W bool;
  im_RemoveAllImages : IO W unit;
  (** The path of the device; [Reject] when the image is mapped already. *)
  im_MapImageDevice : bytes → Z → IO W bytes;
  im_MapImageWithDeviceMapper : bytes → IO W bytes;
  im_GetMappedImageDevice : bytes → IO W bytes;
}.
(** The daemon, through its client. *)
Class ISnapuserd (W : Type) := {
  EnsureSnapuserdStarted : IO W unit;
  SnapuserdClient_Connect : IO W unit;
  client_InitiateMerge : bytes → IO W unit;
  (** An empty answer when the daemon does not reply. *)
  client_QuerySnapshotStatus : bytes → IO W bytes;
  client_WaitForDeviceDelete : bytes → IO W unit;
  client_DetachSnapuserd : IO W unit;
  client_RemoveTransitionedDaemonIndicator : IO W unit;
  (** The number of sectors of the base device, 0 on failure; the last argument, the path for
      the merge, is empty for dm-snapshot. *)
  client_InitDmUserCow : bytes → bytes → bytes → bytes → IO W Z;
  client_AttachDmUser : bytes → IO W unit;
}.
(** [libsnapshot/snapuserd/snapuserd_client.cpp:301-303 SnapuserdClient::GetDaemonAliveIndicatorPath] *)
Definition GetDaemonAliveIndicatorPath : bytes := str "/metadata/ota/" ++ str "daemon-alive-indicator".
Inductive MergeStatus := MergeStatus_NONE | MergeStatus_UNKNOWN | MergeStatus_SNAPSHOTTED | MergeStatus_MERGING.
#[export] Instance merge_status_eq_dec : EqDecision MergeStatus.
Proof. solve_decision. Defined.
Class IBootControl (W : Type) := {
  SetBootControlMergeStatus : MergeStatus → IO W unit;
  SetSlotAsUnbootable : Z → IO W unit;
}.
(** A COW device opened for reading, with [O_DIRECT] or without. *)
Class ICowDevices (W F : Type) := {
  open_cow : bytes → bool → IO W F;
}.
Class SnapWorld (W : Type) := {
  #[global] world_files :: IFiles W;
  #[global] world_dm :: IDeviceMapper W;
  #[global] world_images :: IImageManager W;
  #[global] world_snapuserd :: ISnapuserd W;
  #[global] world_boot :: IBootControl W;
}.
(** The constants of [IDeviceInfo], whether init set its callback, the build flag for the boot HAL and
    [ro.build.fingerprint].
    [libsnapshot/include/libsnapshot/snapshot.h:92-114 ISnapshotManager::IDeviceInfo] *)
Record DeviceInfo := mkDeviceInfo {
  GetMetadataDir : bytes;
  GetSlotSuffix : bytes;
  GetOtherSlotSuffix : bytes;
  GetSuperDevice : Z → bytes;
  IsRecovery : bool;
  IsTestDevice : bool;
  IsFirstStageInit : bool;
  IsOverlayfsSetup : bool;
  use_first_stage_snapuserd_ : bool;
  uevent_regen_callback_ : bool;
  LIBSNAPSHOT_USE_HAL : bool;
  build_fingerprint : bytes;
}.

(** ** What the calls do to the files

    A read succeeds when the file is there.  A call that writes changes no other file; a
    call that fails may have had no effect, which is also how a loss of power looks to
    the files: from then on no call changes them.  Reads are the exception
    ([read_result]): a file that is there can be read.  The code takes a state file or a boot
    indicator that it cannot read for a missing one, so what is proved of its calls is proved
    for as long as such reads succeed. *)
Section Quiet.
Context {W : Type} (file : W → bytes → option bytes) (later : W → W → Prop).
(** No file changes. *)
Definition quiet {A} (m : IO W A) : Prop := ∀ w,
  (m w).1 ≠ Crash ∧ file (m w).2 = file w ∧ later w (m w).2.
(** Only the file at [path] changes. *)
Definition touches {A} (path : bytes) (m : IO W A) : Prop := ∀ w,
  (m w).1 ≠ Crash ∧ (∀ p, p ≠ path → file (m w).2 p = file w p) ∧ later w (m w).2.
End Quiet.

Class SnapWorldLaws (W : Type) `{!SnapWorld W} := {
  file : W → bytes → option bytes;
  time : W → Z;
  (** No call undoes what happened before it. *)
  later : W → W → Prop;
  #[global] later_preorder :: PreOrder later;
  later_time w w' : later w w' → time w ≤ time w';
  lock_law p exclusive : quiet file later (flock p exclusive);
  read_law p : quiet file later (ReadFileToString p);
  read_result p w : (ReadFileToString p w).1 = found (file w p);
  trunc_law p : touches file later p (open_trunc p);
  write_law p content : touches file later p (WriteStringToFd content p);
  write_result p content w : (WriteStringToFd content p w).1 = Ret () →
    file (WriteStringToFd content p w).2 p = Some content;
  fsync_law p : quiet file later (fsync_file p);
  rename_law from to w :
    (rename from to w).1 ≠ Crash ∧ later w (rename from to w).2 ∧
    (∀ p, p ≠ from → p ≠ to → file (rename from to w).2 p = file w p) ∧
    (file (rename from to w).2 to = file w to ∨ file (rename from to w).2 to = file w from) ∧
    ((rename from to w).1 = Ret () → file (rename from to w).2 to = file w from);
  open_directory_law p : quiet file later (open_directory p);
  fsync_directory_law p : quiet file later (fsync_directory p);
  write_file_law p content : touches file later p (WriteStringToFile content p);
  remove_law p : touches file later p (RemoveFileIfExists p);
  remove_result p w :
    (file (RemoveFileIfExists p w).2 p = None ∨ file (RemoveFileIfExists p w).2 p = file w p) ∧
    ((RemoveFileIfExists p w).1 = Ret () → file (RemoveFileIfExists p w).2 p = None);
  access_law p : quiet file later (access_F_OK p);
  access_result p w : (access_F_OK p w).1 = Ret (bool_decide (is_Some (file w p)));
  read_dir_law p : quiet file later (read_dir p);
  read_dir_result p w l : (read_dir p w).1 = Ret l →
    NoDup l.*1 ∧ ∀ name, (name, true) ∈ l → is_Some (file w (p ++ str "/" ++ name)) ∧ name ≠ [];
  read_dir_complete p w l name : (read_dir p w).1 = Ret l →
    is_Some (file w (p ++ str "/" ++ name)) → Byte.x2f ∉ name → name ≠ [] → (name, true) ∈ l;
  wait_deleted_law p : quiet file later (WaitForFileDeleted_10s p);
  clock_law : quiet file later clock_now;
  clock_result w : (clock_now w).1 = Ret (time (clock_now w).2);
  sleep_law ms : quiet file later (sleep_ms ms);
  device_size_law p : quiet file later (block_device_size p);
  write_device_law p content : quiet file later (write_device p content);
  wait_file_law p ms : quiet file later (WaitForFile_ p ms);
  uevent_law p : quiet file later (uevent_regen_callback p);
  mount_law p : quiet file later (mount_metadata p);
  unmount_law p : quiet file later (unmount_metadata p);
  sleep_result ms w : (sleep_ms ms w).1 = Ret () ∧ time w + ms ≤ time (sleep_ms ms w).2;
  create_device_law name table ms : quiet file later (dm_CreateDevice name table ms);
  get_state_law name : quiet file later (dm_GetState name);
  load_table_law name table : quiet file later (dm_LoadTableAndActivate name table);
  table_info_law name : quiet file later (dm_GetTableInfo name);
  table_status_law name : quiet file later (dm_GetTableStatus name);
  device_path_law name : quiet file later (dm_GetDmDevicePathByName name);
  device_string_law name : quiet file later (dm_GetDeviceString name);
  delete_device_law name : quiet file later (dm_DeleteDeviceIfExists name);
  open_images_law : quiet file later OpenImageManager;
  create_image_law name size : quiet file later (im_CreateBackingImage name size);
  image_exists_law name : quiet file later (im_BackingImageExists name);
  delete_image_law name : quiet file later (im_DeleteBackingImage name);
  unmap_image_law name : quiet file later (im_UnmapImageIfExists name);
  image_mapped_law name : quiet file later (im_IsImageMapped name);
  remove_images_law : quiet file later im_RemoveAllImages;
  map_image_law name ms : quiet file later (im_MapImageDevice name ms);
  map_image_dm_law name : quiet file later (im_MapImageWithDeviceMapper name);
  mapped_image_law name : quiet file later (im_GetMappedImageDevice name);
  start_law : touches file later GetDaemonAliveIndicatorPath EnsureSnapuserdStarted;
  connect_law : quiet file later SnapuserdClient_Connect;
  initiate_law name : quiet file later (client_InitiateMerge name);
  query_law name : quiet file later (client_QuerySnapshotStatus name);
  wait_law name : quiet file later (client_WaitForDeviceDelete name);
  detach_law : quiet file later client_DetachSnapuserd;
  init_dm_user_law a b c d : quiet file later (client_InitDmUserCow a b c d);
  attach_law name : quiet file later (client_AttachDmUser name);
  indicator_law : touches file later GetDaemonAliveIndicatorPath client_RemoveTransitionedDaemonIndicator;
  boot_status_law status : quiet file later (SetBootControlMergeStatus status);
  unbootable_law slot : quiet file later (SetSlotAsUnbootable slot);
}.
Class CowDevicesLaws (W F : Type) `{SnapWorldLaws W, !ICowDevices W F} := {
  open_cow_law path direct : quiet file later (open_cow path direct);
}.
