(* ===== verification/SnapState.v ===== *)
(** * The state of the snapshot manager ([libsnapshot/snapshot.cpp], [libsnapshot/utility.cpp])

    What the manager keeps in memory, and the files it keeps in the metadata directory:
    [state] with the status of the update and one file in [snapshots] for each snapshot. *)
From S2P Require Import Prelude Bytes LpFormat Device SnapWorld.

(** ** The manager *)

(** [images_] and [snapuserd_client_] are pointers: whether they are set.
    [libsnapshot/include/libsnapshot/snapshot.h:831-841 SnapshotManager, members] *)
Record SnapshotManager (W : Type) := mkManager {
  sm_world : W;
  images_ : bool;
  snapuserd_client_ : bool;
  old_partition_metadata_ : option LpMetadata;
  is_snapshot_userspace_ : option bool;
}.
Arguments mkManager {W} _ _ _ _ _.
Arguments sm_world {W} _.
Arguments images_ {W} _.
Arguments snapuserd_client_ {W} _.
Arguments old_partition_metadata_ {W} _.
Arguments is_snapshot_userspace_ {W} _.

Section Members.
Context {W : Type}.
Implicit Types s : SnapshotManager W.
Definition with_world (w : W) s : SnapshotManager W :=
  mkManager w (images_ s) (snapuserd_client_ s) (old_partition_metadata_ s) (is_snapshot_userspace_ s).
Definition with_images (b : bool) s : SnapshotManager W :=
  mkManager (sm_world s) b (snapuserd_client_ s) (old_partition_metadata_ s) (is_snapshot_userspace_ s).
Definition with_client (b : bool) s : SnapshotManager W :=
  mkManager (sm_world s) (images_ s) b (old_partition_metadata_ s) (is_snapshot_userspace_ s).
Definition with_old_metadata (m : option LpMetadata) s : SnapshotManager W :=
  mkManager (sm_world s) (images_ s) (snapuserd_client_ s) m (is_snapshot_userspace_ s).
Definition with_userspace (b : option bool) s : SnapshotManager W :=
  mkManager (sm_world s) (images_ s) (snapuserd_client_ s) (old_partition_metadata_ s) b.
(** The constructor. [libsnapshot/snapshot.cpp:120-123 SnapshotManager::SnapshotManager] *)
Definition NewSnapshotManager (w : W) : SnapshotManager W := mkManager w false false None None.

Definition get : IO (SnapshotManager W) (SnapshotManager W) := λ s, (Ret s, s).
Definition modify (f : SnapshotManager W → SnapshotManager W) : IO (SnapshotManager W) unit := λ s, (Ret (), f s).
(** A call to the outside. *)
Definition on_world {A} (m : IO W A) : IO (SnapshotManager W) A := λ s,
  let r := m (sm_world s) in (r.1, with_world r.2 s).
(** A call through a pointer that must not be null. *)
Definition on_images {A} (m : IO W A) : IO (SnapshotManager W) A :=
  s ← get; _ ← lift (CHECK (images_ s = true)); on_world m.
Definition on_client {A} (m : IO W A) : IO (SnapshotManager W) A :=
  s ← get; _ ← lift (CHECK (snapuserd_client_ s = true)); on_world m.
End Members.
(** A call whose failure the caller looks at, without the result. *)
Definition succeeds {S A} (m : IO S A) : IO S bool :=
  r ← try_ m; mret (match r with Some _ => true | None => false end).
(** A call whose result the caller ignores. *)
Definition ignore {S A} (m : IO S A) : IO S unit := _ ← try_ m; mret ().
Fixpoint io_each {S A} (f : A → IO S unit) (l : list A) : IO S unit :=
  match l with [] => mret () | a :: l => _ ← f a; io_each f l end.
Fixpoint io_fold {S A B} (f : A → B → IO S B) (l : list A) (b : B) : IO S B :=
  match l with [] => mret b | a :: l => b ← f a b; io_fold f l b end.

(** ** Paths *)

Section Paths.
Context (info : DeviceInfo).
Let metadata_dir_ : bytes := GetMetadataDir info.
(** [libsnapshot/snapshot.cpp:2832-2834 SnapshotManager::GetStateFilePath] *)
Definition GetStateFilePath : bytes := metadata_dir_ ++ str "/state".
(** [libsnapshot/snapshot.cpp:2840-2842 SnapshotManager::GetLockPath] *)
Definition GetLockPath : bytes := metadata_dir_.
(** [libsnapshot/snapshot.cpp:1476-1478 SnapshotManager::GetSnapshotBootIndicatorPath] *)
Definition GetSnapshotBootIndicatorPath : bytes := metadata_dir_ ++ str "/" ++ str "snapshot-boot".
(** [libsnapshot/snapshot.cpp:1480-1482 SnapshotManager::GetRollbackIndicatorPath] *)
Definition GetRollbackIndicatorPath : bytes := metadata_dir_ ++ str "/" ++ str "rollback-indicator".
(** [libsnapshot/snapshot.cpp:1484-1486 SnapshotManager::GetForwardMergeIndicatorPath] *)
Definition GetForwardMergeIndicatorPath : bytes := metadata_dir_ ++ str "/allow-forward-merge".
(** [libsnapshot/snapshot.cpp:1488-1490 SnapshotManager::GetOldPartitionMetadataPath] *)
Definition GetOldPartitionMetadataPath : bytes := metadata_dir_ ++ str "/old-partition-metadata".
(** [libsnapshot/snapshot.cpp:3033-3036 SnapshotManager::GetSnapshotStatusFilePath] *)
Definition GetSnapshotStatusFilePath (name : bytes) : bytes := metadata_dir_ ++ str "/snapshots/" ++ name.
End Paths.

(** [std::filesystem::path::parent_path]: up to the last slash. *)
Definition parent_path (path : bytes) : bytes :=
  match list_find (λ b, b = Byte.x2f) (rev path) with
  | Some (i, _) => let d := take (length path - S i) path in if decide (d = []) then str "/" else d
  | None => []
  end.

(** ** Writing a file *)

Section Files.
Context `{!SnapProto} {W : Type} `{!SnapWorld W} (info : DeviceInfo).
Local Abbreviation M := (SnapshotManager W).

(** [libsnapshot/utility.cpp:157-173 FsyncDirectory] *)
Definition FsyncDirectory (dirname : bytes) : IO M unit :=
  _ ← on_world (open_directory dirname);
  result ← on_world (fsync_directory dirname);
  match result with
  | FsyncDone | FsyncUnsupported => mret ()
  | FsyncFailed => lift Reject
  end.
(** A failed [fsync] of the file is only logged.
    [libsnapshot/utility.cpp:175-199 WriteStringToFileAtomic] *)
Definition WriteStringToFileAtomic (content path : bytes) : IO M unit :=
  let tmp_path := path ++ str ".tmp" in
  _ ← on_world (open_trunc tmp_path);
  _ ← on_world (WriteStringToFd content tmp_path);
  _ ← ignore (on_world (fsync_file tmp_path));
  _ ← on_world (rename tmp_path path);
  FsyncDirectory (parent_path path).

(** The lock is released when the caller returns.
    [libsnapshot/snapshot.cpp:2809-2824 SnapshotManager::OpenFile] *)
Definition OpenFile (file : bytes) (exclusive : bool) : IO M unit :=
  _ ← on_world (open_directory file); on_world (flock file exclusive).
(** [libsnapshot/snapshot.cpp:2844-2847 SnapshotManager::OpenLock] *)
Definition OpenLock (exclusive : bool) : IO M unit := OpenFile (GetLockPath info) exclusive.
(** [libsnapshot/snapshot.cpp:2849-2851 SnapshotManager::LockShared] *)
Definition LockShared : IO M unit := OpenLock false.
(** [libsnapshot/snapshot.cpp:2853-2855 SnapshotManager::LockExclusive] *)
Definition LockExclusive : IO M unit := OpenLock true.

(** ** The state file *)

(** The old format of the file; the inverse is [UpdateState_to_string].
    [libsnapshot/snapshot.cpp:2857-2878 UpdateStateFromString] *)
Definition UpdateStateFromString (contents : bytes) : UpdateState :=
  if decide (contents = [] ∨ contents = str "none") then UpdateState.None
  else if decide (contents = str "initiated") then UpdateState.Initiated
  else if decide (contents = str "unverified") then UpdateState.Unverified
  else if decide (contents = str "merging") then UpdateState.Merging
  else if decide (contents = str "merge-completed") then UpdateState.MergeCompleted
  else if decide (contents = str "merge-needs-reboot") then UpdateState.MergeNeedsReboot
  else if decide (contents = str "merge-failed") then UpdateState.MergeFailed
  else if decide (contents = str "cancelled") then UpdateState.Cancelled
  else UpdateState.None.
(** [libsnapshot/snapshot.cpp:2880-2902 operator<<(std::ostream, UpdateState)] *)
Definition UpdateState_to_string (state : UpdateState) : bytes :=
  match state with
  | UpdateState.None => str "none"
  | UpdateState.Initiated => str "initiated"
  | UpdateState.Unverified => str "unverified"
  | UpdateState.Merging => str "merging"
  | UpdateState.MergeCompleted => str "merge-completed"
  | UpdateState.MergeNeedsReboot => str "merge-needs-reboot"
  | UpdateState.MergeFailed => str "merge-failed"
  | UpdateState.Cancelled => str "cancelled"
  end.

(** What a state file says.
    [libsnapshot/snapshot.cpp:2934-2943 SnapshotManager::ReadSnapshotUpdateStatus, contents] *)
Definition parse_state_file (contents : bytes) : SnapshotUpdateStatus :=
  let '(ok, status) := parse_update_status contents in
  if ok : bool then status else set_update_state (UpdateStateFromString contents) status.
(** A file that cannot be read counts as no update.
    [libsnapshot/snapshot.cpp:2923-2944 SnapshotManager::ReadSnapshotUpdateStatus] *)
Definition ReadSnapshotUpdateStatus : IO M SnapshotUpdateStatus :=
  contents ← try_ (on_world (ReadFileToString (GetStateFilePath info)));
  mret (match contents with
        | None => set_update_state UpdateState.None empty_update_status
        | Some contents => parse_state_file contents
        end).
(** [libsnapshot/snapshot.cpp:2918-2921 SnapshotManager::ReadUpdateState] *)
Definition ReadUpdateState : IO M UpdateState :=
  status ← ReadSnapshotUpdateStatus; mret (us_state status).

(** What the boot HAL is told.
    [libsnapshot/snapshot.cpp:2989-3011 SnapshotManager::WriteSnapshotUpdateStatus, merge_status] *)
Definition hal_status (state : UpdateState) : MergeStatus :=
  match state with
  | UpdateState.None | UpdateState.MergeNeedsReboot | UpdateState.MergeCompleted
  | UpdateState.Initiated => MergeStatus_NONE
  | UpdateState.Unverified => MergeStatus_SNAPSHOTTED
  | UpdateState.Merging | UpdateState.MergeFailed => MergeStatus_MERGING
  | UpdateState.Cancelled => MergeStatus_UNKNOWN
  end.
(** [libsnapshot/snapshot.cpp:2977-3031 SnapshotManager::WriteSnapshotUpdateStatus] *)
Definition WriteSnapshotUpdateStatus (status : SnapshotUpdateStatus) : IO M unit :=
  contents ← lift (found (serialize_update_status status));
  let merge_status := hal_status (us_state status) in
  let set_before_write :=
    bool_decide (merge_status = MergeStatus_SNAPSHOTTED ∨ merge_status = MergeStatus_MERGING) in
  _ ← (if LIBSNAPSHOT_USE_HAL info && set_before_write
       then on_world (SetBootControlMergeStatus merge_status) else mret ());
  _ ← WriteStringToFileAtomic contents (GetStateFilePath info);
  if LIBSNAPSHOT_USE_HAL info && negb set_before_write
  then on_world (SetBootControlMergeStatus merge_status) else mret ().
(** [libsnapshot/snapshot.cpp:2948-2961 SnapshotManager::WriteUpdateState, new status] *)
Definition new_update_status (state : UpdateState) (failure_code : MergeFailureCode) : SnapshotUpdateStatus :=
  match state with
  | UpdateState.MergeFailed => mkUpdateStatus state 0 0 0 false NO_MERGE failure_code [] false false
  | UpdateState.Initiated =>
      mkUpdateStatus state 0 0 0 false NO_MERGE MergeFailureCode.Ok (build_fingerprint info) false false
  | _ => set_update_state state empty_update_status
  end.
(** What the next states of the same update keep.
    [libsnapshot/snapshot.cpp:2963-2973 SnapshotManager::WriteUpdateState, propagation] *)
Definition propagate (old_status status : SnapshotUpdateStatus) : SnapshotUpdateStatus :=
  mkUpdateStatus (us_state status) (us_sectors_allocated status) (us_total_sectors status)
    (us_metadata_sectors status) (us_using_snapuserd old_status) (us_merge_phase old_status)
    (us_merge_failure_code status) (us_source_build_fingerprint old_status)
    (us_userspace_snapshots old_status) (us_io_uring_enabled old_status).
(** [libsnapshot/snapshot.cpp:2946-2975 SnapshotManager::WriteUpdateState] *)
Definition WriteUpdateState (state : UpdateState) (failure_code : MergeFailureCode) : IO M unit :=
  let status := new_update_status state failure_code in
  if decide (state = UpdateState.Initiated ∨ state = UpdateState.None)
  then WriteSnapshotUpdateStatus status
  else
    old_status ← ReadSnapshotUpdateStatus;
    WriteSnapshotUpdateStatus (propagate old_status status).

(** ** The files of the snapshots *)

(** The name in the message gives way to the name of the file.
    [libsnapshot/snapshot.cpp:3038-3060 SnapshotManager::ReadSnapshotStatus] *)
Definition ReadSnapshotStatus (name : bytes) : IO M SnapshotStatus :=
  contents ← on_world (ReadFileToString (GetSnapshotStatusFilePath info name));
  status ← lift (found (parse_status contents));
  mret (if decide (st_name status ≠ name) then set_name name status else status).
(** [libsnapshot/snapshot.cpp:3062-3082 SnapshotManager::WriteSnapshotStatus] *)
Definition WriteSnapshotStatus (status : SnapshotStatus) : IO M unit :=
  _ ← lift (CHECK (st_name status ≠ []));
  content ← lift (found (serialize_status status));
  WriteStringToFileAtomic content (GetSnapshotStatusFilePath info (st_name status)).

(** [libsnapshot/snapshot.cpp:2189-2190 SnapshotManager::ListSnapshots, first partitions] *)
Definition merged_first (name : bytes) : bool :=
  bool_decide (name = str "system_a" ∨ name = str "system_b" ∨ name = str "product_a" ∨ name = str "product_b").
(** [libsnapshot/snapshot.cpp:2179-2195 SnapshotManager::ListSnapshots, loop] *)
Definition list_entry (suffix : bytes) (snapshots : list bytes) (entry : bytes * bool) : list bytes :=
  let '(name, is_regular) := entry in
  if negb is_regular then snapshots
  else if decide (suffix ≠ [] ∧ ¬ suffix `suffix_of` name) then snapshots
  else if merged_first name then name :: snapshots else snapshots ++ [name].
(** Every regular file of the directory is the status of a snapshot.
    [libsnapshot/snapshot.cpp:2167-2198 SnapshotManager::ListSnapshots] *)
Definition ListSnapshots (suffix : bytes) : IO M (list bytes) :=
  entries ← on_world (read_dir (GetMetadataDir info ++ str "/snapshots"));
  mret (foldl (list_entry suffix) [] entries).

(** ** Features of the update *)

(** [libsnapshot/snapshot.cpp:2123-2128 SnapshotManager::UpdateUsesCompression] *)
Definition UpdateUsesCompression : IO M bool :=
  update_status ← ReadSnapshotUpdateStatus; mret (us_using_snapuserd update_status).
(** The answer is kept in memory.
    [libsnapshot/snapshot.cpp:2156-2165 SnapshotManager::UpdateUsesUserSnapshots] *)
Definition UpdateUsesUserSnapshots : IO M bool :=
  s ← get;
  match is_snapshot_userspace_ s with
  | Some b => mret b
  | None =>
      update_status ← ReadSnapshotUpdateStatus;
      _ ← modify (with_userspace (Some (us_userspace_snapshots update_status)));
      mret (us_userspace_snapshots update_status)
  end.
(** [libsnapshot/snapshot.cpp:4265-4270 SnapshotManager::DecideMergePhase] *)
Definition DecideMergePhase (status : SnapshotStatus) : MergePhase :=
  if st_using_snapuserd status && bool_decide (st_device_size status < st_old_partition_size status)
  then FIRST_PHASE else SECOND_PHASE.

(** ** Slots *)

(** [libsnapshot/include/libsnapshot/snapshot.h:765-765 SnapshotManager::Slot] *)
Inductive Slot := Unknown | Source | Target.
(** [libsnapshot/snapshot.cpp:243-251 SnapshotManager::ReadUpdateSourceSlotSuffix] *)
Definition ReadUpdateSourceSlotSuffix : IO M bytes :=
  contents ← try_ (on_world (ReadFileToString (GetSnapshotBootIndicatorPath info)));
  mret (default [] contents).
(** [libsnapshot/snapshot.cpp:253-262 SnapshotManager::GetCurrentSlot] *)
Definition GetCurrentSlot : IO M Slot :=
  contents ← ReadUpdateSourceSlotSuffix;
  mret (if decide (contents = []) then Unknown
        else if decide (GetSlotSuffix info = contents) then Source else Target).
(** [libsnapshot/snapshot.cpp:264-271 SnapshotManager::GetSnapshotSlotSuffix] *)
Definition GetSnapshotSlotSuffix : IO M bytes :=
  slot ← GetCurrentSlot;
  mret (match slot with Target => GetSlotSuffix info | _ => GetOtherSlotSuffix info end).
End Files.
#[export] Instance slot_eq_dec : EqDecision Slot.
Proof. solve_decision. Defined.
