(* ===== verification/SnapDevices.v ===== *)
(** * The devices of a snapshot ([libsnapshot/snapshot.cpp], [libdm/dm_target.cpp])

    What the snapshot manager asks device-mapper, the image manager and the daemon, and how
    it takes the devices of a snapshot away. *)
From coqutil Require Import Byte.
From S2P Require Import Prelude Bytes LpFormat LpUtility Device LpReader DmTarget DeviceMapper DmLinear SnapCow.
From S2P Require Import SnapWorld SnapState.

(** ** Status lines of dm-snapshot *)

(** [libdm/include/libdm/dm_target.h:216-221 DmTargetSnapshot::Status] *)
Record DmSnapshotStatus := mkDmStatus {
  sectors_allocated : Z;
  total_sectors : Z;
  metadata_sectors : Z;
  ds_error : bytes;
}.
Definition is_space (b : byte) : bool :=
  let n := Z.of_N (Byte.to_N b) in bool_decide (n = 32 ∨ 9 ≤ n ≤ 13).
Definition digit_value (b : byte) : option Z :=
  let n := Z.of_N (Byte.to_N b) in if decide (48 ≤ n ≤ 57) then Some (n - 48) else None.
Fixpoint skip_spaces (s : bytes) : bytes :=
  match s with b :: s' => if is_space b then skip_spaces s' else s | [] => [] end.
Fixpoint scan_digits (acc : Z) (s : bytes) : Z * bytes :=
  match s with
  | b :: s' => match digit_value b with Some d => scan_digits (acc * 10 + d) s' | None => (acc, s) end
  | [] => (acc, [])
  end.
(** The conversion [%lu] of [sscanf]: spaces, a sign, digits; a number out of range is
    [ULONG_MAX]. *)
Definition scan_u64 (s : bytes) : option (Z * bytes) :=
  let s := skip_spaces s in
  let '(negative, s) :=
    match s with
    | Byte.x2d :: s' => (true, s')
    | Byte.x2b :: s' => (false, s')
    | _ => (false, s)
    end in
  match s with
  | b :: _ =>
      match digit_value b with
      | Some _ =>
          let '(n, rest) := scan_digits 0 s in
          let n := n `min` (2 ^ 64 - 1) in
          Some (if negative : bool then u64 (- n) else n, rest)
      | None => None
      end
  | [] => None
  end.
(** [sscanf(text, "%lu/%lu %lu")] with three conversions.
    [libdm/dm_target.cpp:200-204 DmTargetSnapshot::ParseStatusText, sscanf] *)
Definition scan_status (text : bytes) : option DmSnapshotStatus :=
  '(s, rest) ← scan_u64 text;
  match rest with
  | Byte.x2f :: rest =>
      '(t, rest) ← scan_u64 rest;
      '(m, _) ← scan_u64 (skip_spaces rest);
      Some (mkDmStatus s t m [])
  | _ => None
  end.
(** [android::base::Split] at one character: the pieces, at least one. *)
Fixpoint Split (s : bytes) (delimiter : byte) : list bytes :=
  match s with
  | [] => [[]]
  | b :: s =>
      let pieces := Split s delimiter in
      if decide (b = delimiter) then [] :: pieces
      else match pieces with p :: ps => (b :: p) :: ps | [] => [[b]] end
  end.
(** [garbage] is what the fields hold when the line is one of the errors.
    [libdm/dm_target.cpp:198-222 DmTargetSnapshot::ParseStatusText] *)
Definition ParseStatusText (garbage : DmSnapshotStatus) (text : bytes) : option DmSnapshotStatus :=
  let failed := mkDmStatus (sectors_allocated garbage) (total_sectors garbage) (metadata_sectors garbage) text in
  match scan_status text with
  | Some status => Some status
  | None =>
      let sections := length (Split text Byte.x20) in
      if decide (sections = 1%nat) then
        if decide (text = str "Invalid" ∨ text = str "Overflow") then Some failed else None
      else if decide (sections = 2%nat ∧ text = str "Merge failed") then Some failed
      else None
  end.
(** [libdm/dm_target.cpp:224-234 DmTargetSnapshot::GetDevicesFromParams] *)
Definition GetDevicesFromParams (params : bytes) : option (bytes * bytes) :=
  match Split params Byte.x20 with
  | base_device :: cow_device :: _ => Some (base_device, cow_device)
  | _ => None
  end.

(** ** Names of the devices *)

(** [libsnapshot/include/libsnapshot/snapshot.h:402-405 SnapshotManager::SnapshotDriver] *)
Inductive SnapshotDriver := DM_SNAPSHOT | DM_USER.
(** [libsnapshot/snapshot.cpp:125-127 GetCowName] *)
Definition GetCowName (snapshot_name : bytes) : bytes := snapshot_name ++ str "-cow".
(** [libsnapshot/snapshot.cpp:137-157 GetDmUserCowName] *)
Definition GetDmUserCowName (snapshot_name : bytes) (driver : SnapshotDriver) : bytes :=
  match driver with DM_USER => snapshot_name | DM_SNAPSHOT => snapshot_name ++ str "-user-cow" end.
(** [libsnapshot/snapshot.cpp:159-161 GetCowImageDeviceName] *)
Definition GetCowImageDeviceName (snapshot_name : bytes) : bytes := snapshot_name ++ str "-cow-img".
(** [libsnapshot/snapshot.cpp:163-165 GetBaseDeviceName] *)
Definition GetBaseDeviceName (partition_name : bytes) : bytes := partition_name ++ str "-base".
(** [libsnapshot/snapshot.cpp:167-169 GetSourceDeviceName] *)
Definition GetSourceDeviceName (partition_name : bytes) : bytes := partition_name ++ str "-src".

Section Devices.
Context `{!SnapProto} {W : Type} `{!SnapWorld W} (info : DeviceInfo).
Local Abbreviation M := (SnapshotManager W).

(** [libsnapshot/snapshot.cpp:129-135 SnapshotManager::GetSnapshotDriver] *)
Definition GetSnapshotDriver : IO M SnapshotDriver :=
  uses ← UpdateUsesUserSnapshots info; mret (if uses : bool then DM_USER else DM_SNAPSHOT).
(** [libsnapshot/snapshot.cpp:3084-3093 SnapshotManager::EnsureImageManager] *)
Definition EnsureImageManager : IO M unit :=
  s ← get;
  if images_ s then mret ()
  else _ ← on_world OpenImageManager; modify (with_images true).
(** [libsnapshot/snapshot.cpp:3095-3110 SnapshotManager::EnsureSnapuserdConnected] *)
Definition EnsureSnapuserdConnected : IO M unit :=
  s ← get;
  if snapuserd_client_ s then mret ()
  else
    _ ← (if use_first_stage_snapuserd_ info then mret () else on_world EnsureSnapuserdStarted);
    _ ← on_world SnapuserdClient_Connect;
    modify (with_client true).

(** ** Deleting a device *)

(** [libsnapshot/snapshot.cpp:4314-4324 SnapshotManager::DeleteDeviceIfExists, loop] *)
Fixpoint delete_loop (fuel : nat) (name : bytes) (timeout_ms start : Z) : IO M bool :=
  match fuel with
  | O => lift Crash
  | S fuel =>
      deleted ← succeeds (on_world (dm_DeleteDeviceIfExists name));
      if deleted : bool then mret true
      else
        now ← on_world clock_now;
        if decide (timeout_ms ≤ now - start) then mret false
        else _ ← on_world (sleep_ms 400); delete_loop fuel name timeout_ms start
  end.
(** Every turn takes 400 milliseconds.  What follows a failure only explains it in the log.
    [libsnapshot/snapshot.cpp:4311-4374 SnapshotManager::DeleteDeviceIfExists] *)
Definition DeleteDeviceIfExists (name : bytes) (timeout_ms : Z) : IO M unit :=
  start ← on_world clock_now;
  deleted ← delete_loop (S (S (Z.to_nat (timeout_ms / 400)))) name timeout_ms start;
  if deleted : bool then mret ()
  else _ ← ignore (on_world (dm_GetDmDevicePathByName name)); lift Reject.

(** ** Asking device-mapper *)

(** [libsnapshot/include/libsnapshot/snapshot.h:653-656 SnapshotManager::TableQuery] *)
Inductive TableQuery := Table | Status.
(** [libsnapshot/snapshot.cpp:951-974 SnapshotManager::GetSingleTarget] *)
Definition GetSingleTarget (dm_name : bytes) (query : TableQuery) : IO M TargetInfo :=
  state ← on_world (dm_GetState dm_name);
  _ ← lift (require (state ≠ INVALID));
  targets ← (match query with
             | Status => on_world (dm_GetTableStatus dm_name)
             | Table => on_world (dm_GetTableInfo dm_name)
             end);
  match targets with [target] => mret target | _ => lift Reject end.
(** [Reject] is [false]; the result is [*target].
    [libsnapshot/snapshot.cpp:976-995 SnapshotManager::IsSnapshotDevice] *)
Definition IsSnapshotDevice (dm_name : bytes) : IO M TargetInfo :=
  snap_target ← GetSingleTarget dm_name Status;
  let type := GetTargetType (tinfo_spec snap_target) in
  _ ← lift (require (type = str "user" ∨ type = str "snapshot" ∨ type = str "snapshot-merge"));
  mret snap_target.
(** The contents of a [Status] that was not initialised. *)
Context (garbage : DmSnapshotStatus).
(** The type of the target and its status.
    [libsnapshot/snapshot.cpp:1020-1039 SnapshotManager::QuerySnapshotStatus] *)
Definition QuerySnapshotStatus (dm_name : bytes) : IO M (bytes * DmSnapshotStatus) :=
  target ← IsSnapshotDevice dm_name;
  status ← lift (found (ParseStatusText garbage (tinfo_data target)));
  _ ← lift (require (ds_error status = []));
  mret (GetTargetType (tinfo_spec target), status).

(** ** Unmapping *)

(** [libsnapshot/snapshot.cpp:2656-2680 SnapshotManager::UnmapDmUserDevice] *)
Definition UnmapDmUserDevice (dm_user_name : bytes) : IO M unit :=
  state ← on_world (dm_GetState dm_user_name);
  if decide (state = INVALID) then mret ()
  else
    _ ← DeleteDeviceIfExists dm_user_name 0;
    connected ← succeeds EnsureSnapuserdConnected;
    _ ← (if connected : bool then on_client (client_WaitForDeviceDelete dm_user_name) else mret ());
    on_world (WaitForFileDeleted_10s (str "/dev/dm-user/" ++ dm_user_name)).
(** The device of a merged snapshot stays: its table was switched.
    [libsnapshot/snapshot.cpp:2682-2720 SnapshotManager::UnmapUserspaceSnapshotDevice] *)
Definition UnmapUserspaceSnapshotDevice (snapshot_name : bytes) : IO M unit :=
  driver ← GetSnapshotDriver;
  let dm_user_name := GetDmUserCowName snapshot_name driver in
  state ← on_world (dm_GetState dm_user_name);
  if decide (state = INVALID) then mret ()
  else
    snapshot_status ← ReadSnapshotStatus info snapshot_name;
    _ ← (if decide (st_state snapshot_status ≠ SnapshotState.MERGE_COMPLETED)
         then DeleteDeviceIfExists dm_user_name 0 else mret ());
    connected ← succeeds EnsureSnapuserdConnected;
    _ ← (if connected : bool then on_client (client_WaitForDeviceDelete dm_user_name) else mret ());
    on_world (WaitForFileDeleted_10s (str "/dev/dm-user/" ++ dm_user_name)).
(** [libsnapshot/snapshot.cpp:681-695 SnapshotManager::UnmapSnapshot] *)
Definition UnmapSnapshot (name : bytes) : IO M unit :=
  uses ← UpdateUsesUserSnapshots info;
  if uses : bool then UnmapUserspaceSnapshotDevice name else DeleteDeviceIfExists name 0.
(** [libsnapshot/snapshot.cpp:697-700 SnapshotManager::UnmapCowImage] *)
Definition UnmapCowImage (name : bytes) : IO M unit :=
  _ ← EnsureImageManager; on_images (im_UnmapImageIfExists (GetCowImageDeviceName name)).
(** [libsnapshot/snapshot.cpp:2632-2654 SnapshotManager::UnmapCowDevices] *)
Definition UnmapCowDevices (name : bytes) : IO M unit :=
  _ ← EnsureImageManager;
  compression ← UpdateUsesCompression info;
  in_kernel ← (if compression : bool
               then uses ← UpdateUsesUserSnapshots info; mret (negb uses) else mret false);
  _ ← (if in_kernel : bool
       then driver ← GetSnapshotDriver; UnmapDmUserDevice (GetDmUserCowName name driver)
       else mret ());
  _ ← DeleteDeviceIfExists (GetCowName name) 4000;
  on_images (im_UnmapImageIfExists (GetCowImageDeviceName name)).
(** [libsnapshot/snapshot.cpp:2533-2560 SnapshotManager::UnmapPartitionWithSnapshot] *)
Definition UnmapPartitionWithSnapshot (target_partition_name : bytes) : IO M unit :=
  _ ← UnmapSnapshot target_partition_name;
  _ ← UnmapCowDevices target_partition_name;
  _ ← DeleteDeviceIfExists (GetBaseDeviceName target_partition_name) 0;
  DeleteDeviceIfExists (GetSourceDeviceName target_partition_name) 0.

(** ** Deleting a snapshot *)

(** In recovery the file stays.
    [libsnapshot/snapshot.cpp:702-733 SnapshotManager::DeleteSnapshot] *)
Definition DeleteSnapshot (name : bytes) : IO M unit :=
  _ ← EnsureImageManager;
  _ ← UnmapCowDevices name;
  if IsRecovery info then mret ()
  else
    let cow_image_name := GetCowImageDeviceName name in
    exists_ ← on_images (im_BackingImageExists cow_image_name);
    _ ← (if exists_ : bool then on_images (im_DeleteBackingImage cow_image_name) else mret ());
    on_world (RemoveFileIfExists (GetSnapshotStatusFilePath info name)).

(** ** Switching tables *)

(** [libsnapshot/snapshot.cpp:923-949 SnapshotManager::RewriteSnapshotDeviceTable] *)
Definition RewriteSnapshotDeviceTable (name : bytes) : IO M MergeFailureCode :=
  old_targets ← try_ (on_world (dm_GetTableInfo name));
  match old_targets with
  | None => mret MergeFailureCode.GetTableInfo
  | Some [old_target] =>
      if decide (GetTargetType (tinfo_spec old_target) ≠ str "snapshot")
      then mret MergeFailureCode.UnknownTable
      else
        match GetDevicesFromParams (tinfo_data old_target) with
        | None => mret MergeFailureCode.GetTableParams
        | Some (base_device, cow_device) =>
            table ← lift (AddTarget (mkTarget 0 (spec_length (tinfo_spec old_target))
                       (DmTargetSnapshot base_device cow_device Merge kSnapshotChunkSize)) empty_table);
            activated ← succeeds (on_world (dm_LoadTableAndActivate name table));
            mret (if activated : bool then MergeFailureCode.Ok else MergeFailureCode.ActivateNewTable)
        end
  | Some _ => mret MergeFailureCode.UnknownTable
  end.
End Devices.
