(* ===== verification/SnapManager.v ===== *)
(** * Beginning, finishing and cancelling an update ([libsnapshot/snapshot.cpp])

    The calls of [SnapshotManager] up to the reboot, and the removal of an update: which
    snapshots are deleted, and when. *)
From stdpp Require Import gmap.
From S2P Require Import Prelude Bytes LpFormat LpUtility Device LpReader DmTarget DeviceMapper SnapUpdate.
From S2P Require Import SnapCow SnapWorld SnapState SnapDevices.

Module MetadataPartitionState.
(** [libsnapshot/include/libsnapshot/snapshot.h:607-614 SnapshotManager::MetadataPartitionState] *)
Inductive MetadataPartitionState := None | Flashed | Updated.
End MetadataPartitionState.
Export MetadataPartitionState (MetadataPartitionState).
#[export] Instance metadata_partition_state_eq_dec : EqDecision MetadataPartitionState.
Proof. solve_decision. Defined.

(** [libsnapshot/snapshot.cpp:1860-1868 SnapshotManager::GetMetadataPartitionState] *)
Definition GetMetadataPartitionState (m : LpMetadata) (name : bytes) : MetadataPartitionState :=
  match FindLpPartition m name with
  | None => MetadataPartitionState.None
  | Some partition =>
      if decide (Z.land (p_attributes partition) LP_PARTITION_ATTR_UPDATED ≠ 0)
      then MetadataPartitionState.Updated else MetadataPartitionState.Flashed
  end.

(** The error code, with the size that is required.
    [libsnapshot/include/libsnapshot/return.h:31-42 Return] *)
Inductive Return := Return_Ok | Return_Error | Return_NoSpace (required_size : Z).
#[export] Instance return_eq_dec : EqDecision Return.
Proof. solve_decision. Defined.

Section Manager.
Context `{!SnapProto} {W : Type} `{!SnapWorld W} (info : DeviceInfo).
(** The super partition, as liblp reads it. *)
Context (sha256 : bytes → bytes) (nothrow_new : Z → bool) {D : Type} `{!BlockIO D}.
Context (opener : @IPartitionOpener D) (garbage : DmSnapshotStatus).
Local Abbreviation M := (SnapshotManager W).

(** [libsnapshot/snapshot.cpp:1848-1858 SnapshotManager::ReadCurrentMetadata] *)
Definition ReadCurrentMetadata : IO M LpMetadata :=
  let slot := SlotNumberForSlotSuffix (GetSlotSuffix info) in
  lift (ReadMetadata sha256 nothrow_new opener (GetSuperDevice info slot) slot).

(** ** What was flashed after the update *)

(** [libsnapshot/snapshot.cpp:1926-1935 SnapshotManager::GetSnapshotFlashingStatus, loop] *)
Definition flashing_status (m : LpMetadata) (snapshots : list bytes) : gmap bytes bool :=
  list_to_map ((λ name, (name, bool_decide (GetMetadataPartitionState m name ≠ MetadataPartitionState.Updated)))
                 <$> snapshots).
(** The metadata of the slot that was updated.
    [libsnapshot/snapshot.cpp:1896-1937 SnapshotManager::GetSnapshotFlashingStatus] *)
Definition GetSnapshotFlashingStatus (snapshots : list bytes) : IO M (gmap bytes bool) :=
  source_slot_suffix ← ReadUpdateSourceSlotSuffix info;
  _ ← lift (require (source_slot_suffix ≠ []));
  let source_slot := SlotNumberForSlotSuffix source_slot_suffix in
  let target_slot := if decide (source_slot = 0) then 1 else 0 in
  m ← lift (ReadMetadata sha256 nothrow_new opener (GetSuperDevice info target_slot) target_slot);
  mret (flashing_status m snapshots).
(** [libsnapshot/snapshot.cpp:1870-1894 SnapshotManager::AreAllSnapshotsCancelled] *)
Definition AreAllSnapshotsCancelled : IO M bool :=
  snapshots ← try_ (ListSnapshots info []);
  match snapshots with
  | None => mret true
  | Some snapshots =>
      status ← try_ (GetSnapshotFlashingStatus snapshots);
      match status with
      | None => mret false
      | Some status => mret (forallb snd (map_to_list status))
      end
  end.

(** ** Removing snapshots *)

(** [libsnapshot/snapshot.cpp:1955-1963 SnapshotManager::RemoveInvalidSnapshots, loop] *)
Definition remove_invalid (name : bytes) : IO M unit :=
  state ← on_world (dm_GetState name);
  if decide (state = ACTIVE) then
    is_snapshot ← succeeds (IsSnapshotDevice name);
    if is_snapshot : bool then mret () else ignore (DeleteSnapshot info name)
  else mret ().
(** [libsnapshot/snapshot.cpp:1939-1964 SnapshotManager::RemoveInvalidSnapshots] *)
Definition RemoveInvalidSnapshots : IO M unit :=
  snapshots ← try_ (ListSnapshots info (GetSlotSuffix info));
  match snapshots with
  | None => mret ()
  | Some snapshots => io_each remove_invalid snapshots
  end.
(** [libsnapshot/snapshot.cpp:2039-2054 SnapshotManager::ShouldDeleteSnapshot] *)
Definition ShouldDeleteSnapshot (status : gmap bytes bool) (current_slot : Slot) (name : bytes) : IO M bool :=
  if decide (current_slot ≠ Target) then mret true
  else
    match status !! name with
    | None => mret true
    | Some true => mret true
    | Some false => is_snapshot ← succeeds (IsSnapshotDevice name); mret (negb is_snapshot)
    end.
(** [libsnapshot/snapshot.cpp:1993-2005 SnapshotManager::RemoveAllSnapshots, should_unmap] *)
Definition should_unmap (current_slot : Slot) (name : bytes) : IO M bool :=
  if decide (current_slot = Target) then mret false
  else if EndsWith name (GetSlotSuffix info) then
    state ← on_world (dm_GetState name);
    if decide (state = INVALID) then mret false else succeeds (IsSnapshotDevice name)
  else mret true.
(** The state of the loop is [ok] and [has_mapped_cow_images].
    [libsnapshot/snapshot.cpp:1981-2023 SnapshotManager::RemoveAllSnapshots, loop] *)
Definition remove_snapshot (status : gmap bytes bool) (current_slot : Slot) (name : bytes)
    (s : bool * bool) : IO M (bool * bool) :=
  let '(ok, has_mapped_cow_images) := s in
  should_delete ← ShouldDeleteSnapshot status current_slot name;
  unmap ← should_unmap current_slot name;
  partition_ok ← (if unmap : bool then succeeds (UnmapPartitionWithSnapshot info name) else mret true);
  partition_ok ← (if partition_ok && should_delete then succeeds (DeleteSnapshot info name)
                  else mret partition_ok);
  if partition_ok : bool then mret (ok, has_mapped_cow_images)
  else
    opened ← succeeds EnsureImageManager;
    mapped ← (if opened : bool then on_images (im_IsImageMapped (GetCowImageDeviceName name)) else mret false);
    mret (false, has_mapped_cow_images || mapped).
(** [libsnapshot/snapshot.cpp:1966-2036 SnapshotManager::RemoveAllSnapshots] *)
Definition RemoveAllSnapshots : IO M unit :=
  snapshots ← ListSnapshots info [];
  status ← try_ (GetSnapshotFlashingStatus snapshots);
  current_slot ← GetCurrentSlot info;
  '(ok, has_mapped_cow_images) ← io_fold (remove_snapshot (default ∅ status) current_slot) snapshots (true, false);
  _ ← (if (ok : bool) || negb has_mapped_cow_images
       then _ ← EnsureImageManager; on_images im_RemoveAllImages else mret ());
  lift (require (ok = true)).
(** The callback may be absent.
    [libsnapshot/snapshot.cpp:282-314 SnapshotManager::RemoveAllUpdateState] *)
Definition RemoveAllUpdateState (prolog : option (IO W bool)) : IO M unit :=
  proceed ← (match prolog with Some prolog => on_world prolog | None => mret true end);
  _ ← lift (require (proceed = true));
  _ ← RemoveAllSnapshots;
  _ ← io_each (λ file, ignore (on_world (RemoveFileIfExists file)))
        [GetSnapshotBootIndicatorPath info; GetRollbackIndicatorPath info;
         GetForwardMergeIndicatorPath info; GetOldPartitionMetadataPath info];
  WriteUpdateState info UpdateState.None MergeFailureCode.Ok.

(** ** Cancelling *)

(** The result is [*needs_merge].
    [libsnapshot/snapshot.cpp:214-241 SnapshotManager::TryCancelUpdate] *)
Definition TryCancelUpdate : IO M bool :=
  _ ← LockExclusive info;
  state ← ReadUpdateState info;
  match state with
  | UpdateState.None => _ ← RemoveInvalidSnapshots; mret false
  | UpdateState.Initiated => _ ← RemoveAllUpdateState None; mret false
  | UpdateState.Unverified =>
      slot ← GetCurrentSlot info;
      if decide (slot ≠ Target) then _ ← RemoveAllUpdateState None; mret false else mret true
  | _ => mret true
  end.
(** [libsnapshot/snapshot.cpp:203-212 SnapshotManager::CancelUpdate] *)
Definition CancelUpdate : IO M unit :=
  needs_merge ← TryCancelUpdate; lift (require (needs_merge = false)).

(** ** Snapshots *)

(** The members of the creator that are written to the status.
    [libsnapshot/snapshot.cpp:359-415 SnapshotManager::CreateSnapshot] *)
Definition CreateSnapshot (using_snapuserd enable_threading batched_writes : bool)
    (compression_algorithm : bytes) (status : SnapshotStatus) : IO M SnapshotStatus :=
  _ ← lift (require (st_name status ≠ []));
  _ ← lift (require (st_device_size status mod kSectorSize = 0));
  _ ← lift (require (st_snapshot_size status mod kSectorSize = 0));
  _ ← lift (require (st_cow_partition_size status mod kSectorSize = 0));
  _ ← lift (require (st_cow_file_size status mod kSectorSize = 0));
  let status :=
    mkSnapshotStatus (st_name status) SnapshotState.CREATED (st_device_size status) (st_snapshot_size status)
      (st_cow_partition_size status) (st_cow_file_size status) 0 0 using_snapuserd
      (st_old_partition_size status) compression_algorithm (st_estimated_cow_size status)
      (if enable_threading then enable_threading else st_enable_threading status)
      (if batched_writes then batched_writes else st_batched_writes status) in
  _ ← WriteSnapshotStatus info status;
  mret status.
(** [Return(FiemapStatus)]; the required size is added later.
    [libsnapshot/include/libsnapshot/return.h:44-45 Return::Return] *)
Definition Return_of (status : FiemapStatus) : Return :=
  match status with FiemapOk => Return_Ok | FiemapError => Return_Error | FiemapNoSpace => Return_NoSpace 0 end.
(** [Reject] is [Return::Error()].
    [libsnapshot/snapshot.cpp:417-437 SnapshotManager::CreateCowImage] *)
Definition CreateCowImage (name : bytes) : IO M Return :=
  _ ← EnsureImageManager;
  status ← ReadSnapshotStatus info name;
  _ ← lift (require (st_cow_file_size status mod kSectorSize = 0));
  status ← on_images (im_CreateBackingImage (GetCowImageDeviceName name) (st_cow_file_size status));
  mret (Return_of status).

(** ** The end of the writes *)

(** [libsnapshot/snapshot.cpp:4010-4034 SnapshotManager::EnsureNoOverflowSnapshot, loop] *)
Definition ensure_no_overflow (snapshot : bytes) : IO M unit :=
  status ← ReadSnapshotStatus info snapshot;
  if st_using_snapuserd status then mret ()
  else
    targets ← on_world (dm_GetTableStatus snapshot);
    match targets with
    | [target] => lift (require (IsOverflowSnapshot target = false))
    | _ => lift Reject
    end.
(** [libsnapshot/snapshot.cpp:4001-4037 SnapshotManager::EnsureNoOverflowSnapshot] *)
Definition EnsureNoOverflowSnapshot : IO M unit :=
  snapshots ← ListSnapshots info []; io_each ensure_no_overflow snapshots.
(** [libsnapshot/snapshot.cpp:4085-4102 SnapshotManager::UpdateForwardMergeIndicator] *)
Definition UpdateForwardMergeIndicator (wipe : bool) : IO M unit :=
  let path := GetForwardMergeIndicatorPath info in
  if wipe then on_world (WriteStringToFile (str "1") path) else on_world (RemoveFileIfExists path).
(** [libsnapshot/snapshot.cpp:316-357 SnapshotManager::FinishedSnapshotWrites] *)
Definition FinishedSnapshotWrites (wipe : bool) : IO M unit :=
  _ ← LockExclusive info;
  update_state ← ReadUpdateState info;
  match update_state with
  | UpdateState.Unverified => mret ()
  | UpdateState.Initiated =>
      _ ← EnsureNoOverflowSnapshot;
      _ ← UpdateForwardMergeIndicator wipe;
      _ ← on_world (RemoveFileIfExists (GetRollbackIndicatorPath info));
      _ ← WriteStringToFileAtomic (GetSlotSuffix info) (GetSnapshotBootIndicatorPath info);
      WriteUpdateState info UpdateState.Unverified MergeFailureCode.Ok
  | _ => lift Reject
  end.

(** ** Booting *)

(** Whether the snapshots are mapped before the partitions are mounted; a boot of the old
    slot is recorded as a rollback.  Without the lock the process aborts.
    [libsnapshot/snapshot.cpp:2208-2248 SnapshotManager::NeedSnapshotsInFirstStageMount] *)
Definition NeedSnapshotsInFirstStageMount : IO M bool :=
  slot ← GetCurrentSlot info;
  match slot with
  | Target =>
      lock ← succeeds (LockShared info);
      _ ← lift (CHECK (lock = true));
      state ← ReadUpdateState info;
      mret (match state with
            | UpdateState.Unverified | UpdateState.Merging | UpdateState.MergeFailed => true
            | _ => false
            end)
  | Source =>
      _ ← ignore (on_world (WriteStringToFile (str "1") (GetRollbackIndicatorPath info)));
      mret false
  | Unknown => mret false
  end.
End Manager.
