(* ===== verification/SnapMerge.v ===== *)
(** * Merging an update ([libsnapshot/snapshot.cpp])

    The calls of [SnapshotManager] after the reboot into the updated slot: the start of the
    merge, the poll of every snapshot, the second phase, and what follows success, failure
    and a rollback. *)
From stdpp Require Import gmap.
From S2P Require Import Prelude Bytes LpFormat LpUtility Device LpReader DmTarget DeviceMapper DmLinear.
From S2P Require Import CowFormat CowReader SnapUpdate SnapCow SnapWorld SnapState SnapDevices SnapManager.

(** [libsnapshot/include/libsnapshot/snapshot.h:631-637 SnapshotManager::MergeResult] *)
Record MergeResult := mkResult { mr_state : UpdateState; mr_failure_code : MergeFailureCode }.
Definition merge_result (state : UpdateState) : MergeResult := mkResult state MergeFailureCode.Ok.
Definition merge_failed (code : MergeFailureCode) : MergeResult := mkResult UpdateState.MergeFailed code.
#[export] Instance merge_result_eq_dec : EqDecision MergeResult.
Proof. solve_decision. Defined.

Section Merge.
Context `{!SnapProto} {W : Type} `{!SnapWorld W} (info : DeviceInfo).
Context (sha256 : bytes → bytes) (nothrow_new : Z → bool) {D : Type} `{!BlockIO D}.
Context (opener default_opener : @IPartitionOpener D) (Realpath : bytes → option bytes).
Context (garbage : DmSnapshotStatus).
(** The COW devices, fuel for parsing them, and the size of a page. *)
Context {F : Type} `{!CowFile F, !ICowDevices W F} (cow_fuel : nat) (page_size : Z).
Local Abbreviation M := (SnapshotManager W).
Local Abbreviation ReadCurrentMetadata := (ReadCurrentMetadata (W := W) info sha256 nothrow_new opener).
Local Abbreviation RemoveAllUpdateState := (RemoveAllUpdateState info sha256 nothrow_new opener).
Local Abbreviation QuerySnapshotStatus := (QuerySnapshotStatus garbage).

(** ** Starting a merge *)

(** [libsnapshot/snapshot.cpp:877-921 SnapshotManager::SwitchSnapshotToMerge] *)
Definition SwitchSnapshotToMerge (name : bytes) : IO M MergeFailureCode :=
  status ← try_ (ReadSnapshotStatus info name);
  match status with
  | None => mret MergeFailureCode.ReadStatus
  | Some status =>
      uses ← UpdateUsesUserSnapshots info;
      code ← (if uses : bool then
                connected ← succeeds (EnsureSnapuserdConnected info);
                if connected : bool then
                  ok ← succeeds (on_client (client_InitiateMerge name));
                  mret (if ok : bool then MergeFailureCode.Ok else MergeFailureCode.UnknownTable)
                else mret MergeFailureCode.UnknownTable
              else RewriteSnapshotDeviceTable name);
      if decide (code ≠ MergeFailureCode.Ok) then mret code
      else
        let status := set_snapshot_state SnapshotState.MERGING status in
        uses ← UpdateUsesUserSnapshots info;
        status ← (if uses : bool then mret status
                  else
                    result ← try_ (QuerySnapshotStatus name);
                    let dm_status := match result with Some (_, s) => s | None => garbage end in
                    mret (set_sectors (sectors_allocated dm_status) (metadata_sectors dm_status) status));
        _ ← ignore (WriteSnapshotStatus info status);
        mret MergeFailureCode.Ok
  end.
(** Every snapshot of a group is switched; the first failure is reported.
    [libsnapshot/snapshot.cpp:852-864 SnapshotManager::InitiateMerge, switch] *)
Fixpoint switch_all (group : list bytes) (reported_code : MergeFailureCode) : IO M MergeFailureCode :=
  match group with
  | [] => mret reported_code
  | snapshot :: group =>
      code ← SwitchSnapshotToMerge snapshot;
      switch_all group (if decide (reported_code = MergeFailureCode.Ok) then code else reported_code)
  end.
(** [libsnapshot/snapshot.cpp:759-774 SnapshotManager::InitiateMerge, mapped] *)
Definition check_mapped (snapshot : bytes) : IO M unit :=
  if EndsWith snapshot (GetOtherSlotSuffix info) then mret ()
  else state ← on_world (dm_GetState snapshot); lift (require (state ≠ INVALID)).
(** The metadata is read through a pointer that nobody checks.
    [libsnapshot/snapshot.cpp:777-795 SnapshotManager::InitiateMerge, flashed] *)
Definition drop_flashed (m : option LpMetadata) (snapshot : bytes) (kept : list bytes) : IO M (list bytes) :=
  m ← lift (access m);
  match GetMetadataPartitionState m snapshot with
  | MetadataPartitionState.Updated => mret (kept ++ [snapshot])
  | _ => _ ← ignore (DeleteSnapshot info snapshot); mret kept
  end.
Record MergeGroups := mkGroups {
  mg_using_snapuserd : bool;
  mg_first_merge_group : list bytes;
  mg_values : DmSnapshotStatus;
}.
Definition add_values (a b : DmSnapshotStatus) : DmSnapshotStatus :=
  mkDmStatus (u64 (sectors_allocated a + sectors_allocated b)) (u64 (total_sectors a + total_sectors b))
    (u64 (metadata_sectors a + metadata_sectors b)) (ds_error a).
(** [libsnapshot/snapshot.cpp:801-822 SnapshotManager::InitiateMerge, groups] *)
Definition group_snapshot (snapshot : bytes) (g : MergeGroups) : IO M MergeGroups :=
  uses ← UpdateUsesUserSnapshots info;
  values ← (if uses : bool then mret (mg_values g)
            else '(_, current_status) ← QuerySnapshotStatus snapshot;
                 mret (add_values (mg_values g) current_status));
  snapshot_status ← ReadSnapshotStatus info snapshot;
  mret (mkGroups (mg_using_snapuserd g || st_using_snapuserd snapshot_status)
          (if decide (DecideMergePhase snapshot_status = FIRST_PHASE)
           then mg_first_merge_group g ++ [snapshot] else mg_first_merge_group g) values).
(** [libsnapshot/snapshot.cpp:735-875 SnapshotManager::InitiateMerge] *)
Definition InitiateMerge : IO M unit :=
  _ ← LockExclusive info;
  state ← ReadUpdateState info;
  _ ← lift (require (state = UpdateState.Unverified));
  slot ← GetCurrentSlot info;
  _ ← lift (require (slot = Target));
  snapshots ← ListSnapshots info [];
  _ ← io_each check_mapped snapshots;
  m ← try_ ReadCurrentMetadata;
  snapshots ← io_fold (drop_flashed m) snapshots [];
  g ← io_fold group_snapshot snapshots (mkGroups false [] (mkDmStatus 0 0 0 []));
  initial_status ← ReadSnapshotUpdateStatus info;
  let initial_status :=
    set_using_snapuserd (mg_using_snapuserd g) (set_update_state UpdateState.Merging initial_status) in
  uses ← UpdateUsesUserSnapshots info;
  let initial_status :=
    if uses : bool then initial_status
    else set_update_sectors (sectors_allocated (mg_values g)) (total_sectors (mg_values g))
           (metadata_sectors (mg_values g)) initial_status in
  let '(merge_group, phase) :=
    if decide (mg_first_merge_group g = []) then (snapshots, SECOND_PHASE)
    else (mg_first_merge_group g, FIRST_PHASE) in
  _ ← WriteSnapshotUpdateStatus info (set_merge_phase phase initial_status);
  reported_code ← switch_all merge_group MergeFailureCode.Ok;
  if decide (reported_code ≠ MergeFailureCode.Ok)
  then ignore (WriteUpdateState info UpdateState.MergeFailed reported_code) else mret ().

(** ** The second phase *)

(** [libsnapshot/snapshot.cpp:1456-1473 SnapshotManager::MergeSecondPhaseSnapshots, loop] *)
Fixpoint switch_second (snapshots : list bytes) (result : MergeFailureCode) : IO M MergeFailureCode :=
  match snapshots with
  | [] => mret result
  | snapshot :: snapshots =>
      snapshot_status ← try_ (ReadSnapshotStatus info snapshot);
      match snapshot_status with
      | None => mret MergeFailureCode.ReadStatus
      | Some snapshot_status =>
          if decide (DecideMergePhase snapshot_status ≠ SECOND_PHASE) then switch_second snapshots result
          else
            code ← SwitchSnapshotToMerge snapshot;
            switch_second snapshots (if decide (result = MergeFailureCode.Ok) then code else result)
      end
  end.
(** [libsnapshot/snapshot.cpp:1439-1474 SnapshotManager::MergeSecondPhaseSnapshots] *)
Definition MergeSecondPhaseSnapshots : IO M MergeFailureCode :=
  snapshots ← try_ (ListSnapshots info []);
  match snapshots with
  | None => mret MergeFailureCode.ListSnapshots
  | Some snapshots =>
      update_status ← ReadSnapshotUpdateStatus info;
      _ ← lift (CHECK (us_state update_status = UpdateState.Merging ∨ us_state update_status = UpdateState.MergeFailed));
      _ ← lift (CHECK (us_merge_phase update_status = FIRST_PHASE));
      written ← succeeds (WriteSnapshotUpdateStatus info
                            (set_merge_phase SECOND_PHASE (set_update_state UpdateState.Merging update_status)));
      if written : bool then switch_second snapshots MergeFailureCode.Ok
      else mret MergeFailureCode.WriteStatus
  end.

(** ** Cleaning up after a snapshot *)

(** [libsnapshot/snapshot.cpp:1578-1596 SnapshotManager::CollapseSnapshotDevice, checks] *)
Definition check_merge_device (name : bytes) : IO M unit :=
  target ← GetSingleTarget name Table;
  _ ← lift (require (GetTargetType (tinfo_spec target) = str "snapshot-merge"));
  _ ← lift (found (GetDevicesFromParams (tinfo_data target)));
  mret ().
(** [libsnapshot/snapshot.cpp:1576-1659 SnapshotManager::CollapseSnapshotDevice] *)
Definition CollapseSnapshotDevice (name : bytes) (status : SnapshotStatus) : IO M unit :=
  uses ← UpdateUsesUserSnapshots info;
  _ ← (if uses : bool then mret () else check_merge_device name);
  let snapshot_sectors := st_snapshot_size status / kSectorSize in
  _ ← lift (require (u64 (snapshot_sectors * kSectorSize) = st_snapshot_size status));
  let slot := SlotNumberForSlotSuffix (GetSlotSuffix info) in
  table ← lift (CreateDmTable sha256 nothrow_new default_opener Realpath
                  (mkParams (GetSuperDevice info slot) None (Some slot) None name false 0 [] (Some opener))
                  empty_table);
  _ ← on_world (dm_LoadTableAndActivate name table);
  uses ← UpdateUsesUserSnapshots info;
  _ ← (if negb uses && st_using_snapuserd status
       then driver ← GetSnapshotDriver info; ignore (UnmapDmUserDevice info (GetDmUserCowName name driver))
       else mret ());
  uses ← UpdateUsesUserSnapshots info;
  connected ← (if uses : bool then succeeds (EnsureSnapuserdConnected info) else mret false);
  _ ← (if connected : bool then ignore (on_client (client_WaitForDeviceDelete name)) else mret ());
  _ ← ignore (DeleteDeviceIfExists (GetBaseDeviceName name) 0);
  ignore (DeleteDeviceIfExists (GetSourceDeviceName name) 4000).
(** [libsnapshot/snapshot.cpp:1535-1556 SnapshotManager::OnSnapshotMergeComplete, dm-snapshot] *)
Definition collapse_in_kernel (name : bytes) (status : SnapshotStatus) : IO M unit :=
  is_snapshot ← succeeds (IsSnapshotDevice name);
  if is_snapshot : bool then
    '(target_type, dm_status) ← QuerySnapshotStatus name;
    _ ← lift (require (target_type = str "snapshot-merge"));
    _ ← lift (require (sectors_allocated dm_status = metadata_sectors dm_status));
    CollapseSnapshotDevice name status
  else mret ().
(** [libsnapshot/snapshot.cpp:1533-1574 SnapshotManager::OnSnapshotMergeComplete] *)
Definition OnSnapshotMergeComplete (name : bytes) (status : SnapshotStatus) : IO M unit :=
  uses ← UpdateUsesUserSnapshots info;
  _ ← (if uses : bool then CollapseSnapshotDevice name status else collapse_in_kernel name status);
  DeleteSnapshot info name.

(** ** Is a merge complete? *)

(** [libsnapshot/snapshot.cpp:1355-1363 GetMappedCowDeviceName] *)
Definition GetMappedCowDeviceName (snapshot : bytes) (status : SnapshotStatus) : bytes :=
  if decide (st_cow_partition_size status = 0) then GetCowImageDeviceName snapshot else GetCowName snapshot.
(** A call on a descriptor of its own. *)
Definition on_cow {A} (m : IO F A) (fd : F) : outcome A := (m fd).1.
(** [posix_memalign] does not fail here.
    [libsnapshot/snapshot.cpp:1372-1437 CheckMergeConsistency] *)
Definition CheckMergeConsistency (name : bytes) (status : SnapshotStatus) : IO M MergeFailureCode :=
  if negb (st_using_snapuserd status) then mret MergeFailureCode.Ok
  else
    cow_image_path ← try_ (on_world (dm_GetDmDevicePathByName (GetMappedCowDeviceName name status)));
    match cow_image_path with
    | None => mret MergeFailureCode.GetCowPathConsistencyCheck
    | Some cow_image_path =>
        fd ← try_ (on_world (open_cow cow_image_path false));
        match fd with
        | None => mret MergeFailureCode.OpenCowConsistencyCheck
        | Some fd =>
            reader ← try_ (lift (on_cow (Parse cow_fuel None (NewCowReader false false)) fd));
            match reader with
            | None => mret MergeFailureCode.ParseCowConsistencyCheck
            | Some reader =>
                let num_ops := rd_num_total_data_ops reader in
                fd ← try_ (on_world (open_cow cow_image_path true));
                match fd with
                | None => mret MergeFailureCode.OpenCowDirectConsistencyCheck
                | Some fd =>
                    buffer ← try_ (lift (on_cow (read_fully page_size) fd));
                    mret (match buffer with
                          | None => MergeFailureCode.DirectReadConsistencyCheck
                          | Some buffer =>
                              let header := c_dec header_codec (take (c_size header_codec) buffer) in
                              if decide (ch_num_merge_ops header ≠ num_ops)
                              then MergeFailureCode.WrongMergeCountConsistencyCheck
                              else MergeFailureCode.Ok
                          end)
                end
            end
        end
    end.

(** The device is not a snapshot.
    [libsnapshot/snapshot.cpp:1218-1244 SnapshotManager::CheckTargetMergeState, no snapshot] *)
Definition check_plain_device (name : bytes) (snapshot_status : SnapshotStatus) : IO M MergeResult :=
  current_metadata ← try_ ReadCurrentMetadata;
  if decide ((λ m, GetMetadataPartitionState m name) <$> current_metadata = Some MetadataPartitionState.Updated) then
    if decide (st_state snapshot_status = SnapshotState.MERGE_COMPLETED) then
      _ ← ignore (OnSnapshotMergeComplete name snapshot_status);
      mret (merge_result UpdateState.MergeCompleted)
    else mret (merge_failed MergeFailureCode.UnknownTargetType)
  else
    _ ← ignore (DeleteSnapshot info name);
    mret (merge_result UpdateState.Cancelled).
(** What the daemon says; [None] when it says that the merge is complete.  A failure to
    connect leaves the answer empty.
    [libsnapshot/snapshot.cpp:1250-1295 SnapshotManager::CheckTargetMergeState, dm-user] *)
Definition check_user_snapshot (name : bytes) (snapshot_status : SnapshotStatus) (update_status : SnapshotUpdateStatus)
    : IO M (option MergeResult) :=
  connected ← succeeds (EnsureSnapuserdConnected info);
  merge_status ← (if connected : bool then on_client (client_QuerySnapshotStatus name) else mret []);
  if decide (merge_status = str "snapshot-merge-failed") then
    mret (Some (merge_failed MergeFailureCode.UnknownTargetType))
  else if decide (merge_status = str "snapshot" ∧ st_state snapshot_status = SnapshotState.MERGING) then
    ok ← succeeds (on_client (client_InitiateMerge name));
    mret (Some (if ok : bool then merge_result UpdateState.Merging
                else merge_failed MergeFailureCode.UnknownTargetType))
  else if decide (merge_status = str "snapshot" ∧ DecideMergePhase snapshot_status = SECOND_PHASE ∧
                  us_merge_phase update_status = FIRST_PHASE) then
    mret (Some (merge_result UpdateState.None))
  else if decide (merge_status = str "snapshot-merge") then
    mret (Some (if decide (st_state snapshot_status = SnapshotState.MERGE_COMPLETED)
                then merge_failed MergeFailureCode.UnmergedSectorsAfterCompletion
                else merge_result UpdateState.Merging))
  else if decide (merge_status ≠ str "snapshot-merge-complete") then
    mret (Some (merge_failed MergeFailureCode.ExpectedMergeTarget))
  else mret None.
(** What the kernel says.
    [libsnapshot/snapshot.cpp:1296-1327 SnapshotManager::CheckTargetMergeState, dm-snapshot] *)
Definition check_kernel_snapshot (name : bytes) (snapshot_status : SnapshotStatus) (update_status : SnapshotUpdateStatus)
    : IO M (option MergeResult) :=
  result ← try_ (QuerySnapshotStatus name);
  mret (match result with
        | None => Some (merge_failed MergeFailureCode.QuerySnapshotStatus)
        | Some (target_type, status) =>
            if decide (target_type = str "snapshot" ∧ DecideMergePhase snapshot_status = SECOND_PHASE ∧
                       us_merge_phase update_status = FIRST_PHASE)
            then Some (merge_result UpdateState.None)
            else if decide (target_type ≠ str "snapshot-merge")
            then Some (merge_failed MergeFailureCode.ExpectedMergeTarget)
            else if decide (sectors_allocated status ≠ metadata_sectors status) then
              Some (if decide (st_state snapshot_status = SnapshotState.MERGE_COMPLETED)
                    then merge_failed MergeFailureCode.UnmergedSectorsAfterCompletion
                    else merge_result UpdateState.Merging)
            else None
        end).
(** [libsnapshot/snapshot.cpp:1331-1352 SnapshotManager::CheckTargetMergeState, complete] *)
Definition finish_snapshot (name : bytes) (snapshot_status : SnapshotStatus) : IO M MergeResult :=
  code ← CheckMergeConsistency name snapshot_status;
  if decide (code ≠ MergeFailureCode.Ok) then mret (merge_failed code)
  else
    let snapshot_status := set_snapshot_state SnapshotState.MERGE_COMPLETED snapshot_status in
    written ← succeeds (WriteSnapshotStatus info snapshot_status);
    if written : bool then
      cleaned ← succeeds (OnSnapshotMergeComplete name snapshot_status);
      mret (merge_result (if cleaned : bool then UpdateState.MergeCompleted else UpdateState.MergeNeedsReboot))
    else mret (merge_failed MergeFailureCode.WriteStatus).
(** [libsnapshot/snapshot.cpp:1210-1352 SnapshotManager::CheckTargetMergeState] *)
Definition CheckTargetMergeState (name : bytes) (update_status : SnapshotUpdateStatus) : IO M MergeResult :=
  snapshot_status ← try_ (ReadSnapshotStatus info name);
  match snapshot_status with
  | None => mret (merge_failed MergeFailureCode.ReadStatus)
  | Some snapshot_status =>
      is_snapshot ← succeeds (IsSnapshotDevice name);
      if is_snapshot : bool then
        uses ← UpdateUsesUserSnapshots info;
        result ← (if uses : bool then check_user_snapshot name snapshot_status update_status
                  else check_kernel_snapshot name snapshot_status update_status);
        match result with
        | Some result => mret result
        | None => finish_snapshot name snapshot_status
        end
      else check_plain_device name snapshot_status
  end.

(** ** The state of the update *)

(** [libsnapshot/snapshot.cpp:1128-1132 SnapshotManager::CheckMergeState, flags] *)
Record MergeFlags := mkFlags {
  fl_cancelled : bool;
  fl_merging : bool;
  fl_needs_reboot : bool;
  fl_wrong_phase : bool;
  fl_failure_code : MergeFailureCode;
}.
Definition first_failure (f : MergeFlags) (code : MergeFailureCode) : MergeFlags :=
  mkFlags (fl_cancelled f) (fl_merging f) (fl_needs_reboot f) (fl_wrong_phase f)
    (if decide (fl_failure_code f = MergeFailureCode.Ok) then code else fl_failure_code f).
(** [libsnapshot/snapshot.cpp:1144-1172 SnapshotManager::CheckMergeState, switch] *)
Definition add_result (result : MergeResult) (f : MergeFlags) : MergeFlags :=
  match mr_state result with
  | UpdateState.MergeFailed => first_failure f (mr_failure_code result)
  | UpdateState.Merging =>
      mkFlags (fl_cancelled f) true (fl_needs_reboot f) (fl_wrong_phase f) (fl_failure_code f)
  | UpdateState.MergeNeedsReboot =>
      mkFlags (fl_cancelled f) (fl_merging f) true (fl_wrong_phase f) (fl_failure_code f)
  | UpdateState.MergeCompleted => f
  | UpdateState.Cancelled =>
      mkFlags true (fl_merging f) (fl_needs_reboot f) (fl_wrong_phase f) (fl_failure_code f)
  | UpdateState.None =>
      mkFlags (fl_cancelled f) (fl_merging f) (fl_needs_reboot f) true (fl_failure_code f)
  | _ => first_failure f MergeFailureCode.UnexpectedMergeState
  end.
(** [libsnapshot/snapshot.cpp:1133-1173 SnapshotManager::CheckMergeState, poll] *)
Definition poll_snapshot (update_status : SnapshotUpdateStatus) (snapshot : bytes) (f : MergeFlags) : IO M MergeFlags :=
  if EndsWith snapshot (GetOtherSlotSuffix info) then mret f
  else result ← CheckTargetMergeState snapshot update_status; mret (add_result result f).
(** [libsnapshot/snapshot.cpp:1175-1207 SnapshotManager::CheckMergeState, result] *)
Definition merge_outcome (f : MergeFlags) : IO M MergeResult :=
  if fl_merging f then mret (merge_result UpdateState.Merging)
  else if decide (fl_failure_code f ≠ MergeFailureCode.Ok) then mret (merge_failed (fl_failure_code f))
  else if fl_wrong_phase f then
    code ← MergeSecondPhaseSnapshots;
    mret (if decide (code ≠ MergeFailureCode.Ok) then merge_failed code else merge_result UpdateState.Merging)
  else if fl_needs_reboot f then
    _ ← ignore (WriteUpdateState info UpdateState.MergeNeedsReboot MergeFailureCode.Ok);
    mret (merge_result UpdateState.MergeNeedsReboot)
  else if fl_cancelled f then mret (merge_result UpdateState.Cancelled)
  else mret (merge_result UpdateState.MergeCompleted).
(** [libsnapshot/snapshot.cpp:1661-1694 SnapshotManager::HandleCancelledUpdate] *)
Definition HandleCancelledUpdate (before_cancel : option (IO W bool)) : IO M unit :=
  slot ← GetCurrentSlot info;
  _ ← lift (require (slot ≠ Unknown));
  all_cancelled ← AreAllSnapshotsCancelled info sha256 nothrow_new opener;
  if all_cancelled : bool then RemoveAllUpdateState before_cancel
  else
    current_slot ← GetCurrentSlot info;
    _ ← lift (require (current_slot = Source));
    rolled_back ← on_world (access_F_OK (GetRollbackIndicatorPath info));
    _ ← lift (require (rolled_back = true));
    RemoveAllUpdateState before_cancel.
(** With the lock held.
    [libsnapshot/snapshot.cpp:1090-1208 SnapshotManager::CheckMergeState(lock)] *)
Definition CheckMergeState_locked (before_cancel : option (IO W bool)) : IO M MergeResult :=
  update_status ← ReadSnapshotUpdateStatus info;
  match us_state update_status with
  | UpdateState.Merging | UpdateState.MergeNeedsReboot | UpdateState.MergeFailed =>
      snapshots ← try_ (ListSnapshots info []);
      match snapshots with
      | None => mret (merge_failed MergeFailureCode.ListSnapshots)
      | Some snapshots =>
          f ← io_fold (poll_snapshot update_status) snapshots
                (mkFlags false false false false MergeFailureCode.Ok);
          merge_outcome f
      end
  | UpdateState.Unverified =>
      cancelled ← succeeds (HandleCancelledUpdate before_cancel);
      mret (merge_result (if cancelled : bool then UpdateState.Cancelled else UpdateState.Unverified))
  | state => mret (merge_result state)
  end.
(** [libsnapshot/snapshot.cpp:1492-1511 SnapshotManager::AcknowledgeMergeSuccess] *)
Definition AcknowledgeMergeSuccess : IO M unit :=
  if IsRecovery info then ignore (WriteUpdateState info UpdateState.MergeCompleted MergeFailureCode.Ok)
  else
    _ ← ignore (RemoveAllUpdateState None);
    uses ← UpdateUsesUserSnapshots info;
    s ← get;
    if (uses : bool) && negb (IsTestDevice info) && snapuserd_client_ s then
      _ ← ignore (on_client client_DetachSnapuserd);
      _ ← ignore (on_client client_RemoveTransitionedDaemonIndicator);
      modify (with_client false)
    else mret ().
(** [libsnapshot/snapshot.cpp:1069-1088 SnapshotManager::CheckMergeState] *)
Definition CheckMergeState (before_cancel : option (IO W bool)) : IO M MergeResult :=
  lock ← succeeds (LockExclusive info);
  if lock : bool then
    result ← CheckMergeState_locked before_cancel;
    _ ← match mr_state result with
        | UpdateState.MergeCompleted => AcknowledgeMergeSuccess
        | UpdateState.Cancelled =>
            if IsRecovery info then mret () else ignore (RemoveAllUpdateState before_cancel)
        | _ => mret ()
        end;
    mret result
  else mret (merge_failed MergeFailureCode.AcquireLock).
(** The lock was released since the merge was checked.
    [libsnapshot/snapshot.cpp:1513-1531 SnapshotManager::AcknowledgeMergeFailure] *)
Definition AcknowledgeMergeFailure (failure_code : MergeFailureCode) : IO M unit :=
  lock ← succeeds (LockExclusive info);
  if lock : bool then
    state ← ReadUpdateState info;
    if decide (state = UpdateState.Merging ∨ state = UpdateState.MergeNeedsReboot)
    then ignore (WriteUpdateState info UpdateState.MergeFailed failure_code) else mret ()
  else mret ().
(** Polls until nothing is merging or the callback refuses; [None] when the fuel is not
    enough for that.
    [libsnapshot/snapshot.cpp:1044-1067 SnapshotManager::ProcessUpdateState] *)
Fixpoint ProcessUpdateState (fuel : nat) (callback before_cancel : option (IO W bool)) : IO M (option UpdateState) :=
  match fuel with
  | O => mret None
  | S fuel =>
      result ← CheckMergeState before_cancel;
      _ ← (if decide (mr_state result = UpdateState.MergeFailed)
           then AcknowledgeMergeFailure (mr_failure_code result) else mret ());
      if decide (mr_state result ≠ UpdateState.Merging) then mret (Some (mr_state result))
      else
        proceed ← (match callback with Some callback => on_world callback | None => mret true end);
        if proceed : bool then _ ← on_world (sleep_ms 2000); ProcessUpdateState fuel callback before_cancel
        else mret (Some (mr_state result))
  end.
(** An earlier update is cancelled, or its merge waited for.
    [libsnapshot/snapshot.cpp:171-180 SnapshotManager::BeginUpdate, earlier update] *)
Definition end_previous (fuel : nat) : IO M unit :=
  needs_merge ← TryCancelUpdate info sha256 nothrow_new opener;
  if needs_merge : bool then
    state ← ProcessUpdateState fuel None None;
    match state with Some _ => mret () | None => lift Crash end
  else mret ().
(** [fuel] is for the merge that the call may have to wait for.
    [libsnapshot/snapshot.cpp:171-201 SnapshotManager::BeginUpdate] *)
Definition BeginUpdate (fuel : nat) : IO M unit :=
  _ ← end_previous fuel;
  _ ← LockExclusive info;
  opened ← succeeds EnsureImageManager;
  _ ← (if opened : bool then ignore (on_images im_RemoveAllImages) else mret ());
  _ ← modify (with_old_metadata None);
  state ← ReadUpdateState info;
  _ ← lift (require (state = UpdateState.None));
  WriteUpdateState info UpdateState.Initiated MergeFailureCode.Ok.

(** ** Other calls *)

(** Without [progress].
    [libsnapshot/snapshot.cpp:2056-2072 SnapshotManager::GetUpdateState] *)
Definition GetUpdateState : IO M UpdateState :=
  there ← on_world (access_F_OK (GetStateFilePath info));
  if there : bool then
    lock ← succeeds (LockShared info);
    if lock : bool then update_status ← ReadSnapshotUpdateStatus info; mret (us_state update_status)
    else mret UpdateState.None
  else mret UpdateState.None.
(** [libsnapshot/snapshot.cpp:4376-4385 SnapshotManager::ReadMergeFailureCode] *)
Definition ReadMergeFailureCode : IO M MergeFailureCode :=
  lock ← succeeds (LockExclusive info);
  if lock : bool then
    status ← ReadSnapshotUpdateStatus info;
    mret (if decide (us_state status ≠ UpdateState.MergeFailed) then MergeFailureCode.Ok
          else us_merge_failure_code status)
  else mret MergeFailureCode.AcquireLock.
(** [libsnapshot/snapshot.cpp:4387-4393 SnapshotManager::ReadSourceBuildFingerprint] *)
Definition ReadSourceBuildFingerprint : IO M bytes :=
  lock ← succeeds (LockExclusive info);
  if lock : bool then
    status ← ReadSnapshotUpdateStatus info; mret (us_source_build_fingerprint status)
  else mret [].
(** [libsnapshot/snapshot.cpp:3730-3734 SnapshotManager::UnmapUpdateSnapshot] *)
Definition UnmapUpdateSnapshot (target_partition_name : bytes) : IO M unit :=
  _ ← LockShared info; UnmapPartitionWithSnapshot info target_partition_name.
(** [libsnapshot/snapshot.cpp:2777-2807 SnapshotManager::UnmapAllSnapshots] *)
Definition UnmapAllSnapshots : IO M unit :=
  _ ← LockExclusive info;
  snapshots ← ListSnapshots info [];
  _ ← io_each (UnmapPartitionWithSnapshot info) snapshots;
  s ← get;
  if snapuserd_client_ s then
    _ ← ignore (on_client client_DetachSnapuserd);
    modify (with_client false)
  else mret ().
(** A merge is finished, or the updated slot given up, before the user's data is wiped; [None]
    when the fuel is not enough for the merge.
    [libsnapshot/snapshot.cpp:3947-3999 SnapshotManager::ProcessUpdateStateOnDataWipe] *)
Definition ProcessUpdateStateOnDataWipe (fuel : nat) (callback : option (IO W bool)) : bool → IO M (option UpdateState) :=
  let process := ProcessUpdateState fuel callback None in
  let slot_number := SlotNumberForSlotSuffix (GetSlotSuffix info) in
  let wipe (forward : IO M (option UpdateState)) : IO M (option UpdateState) :=
    state ← process;
    match state with
    | Some UpdateState.Unverified =>
        slot ← GetCurrentSlot info;
        if decide (slot = Target) then forward else mret state
    | _ => mret state
    end in
  let revert := _ ← ignore (on_world (SetSlotAsUnbootable slot_number)); mret (Some UpdateState.Unverified) in
  λ allow_forward_merge : bool,
    wipe (if allow_forward_merge then
            allowed ← on_world (access_F_OK (GetForwardMergeIndicatorPath info));
            if allowed : bool then
              initiated ← succeeds InitiateMerge;
              if initiated : bool then wipe revert else mret (Some UpdateState.MergeFailed)
            else revert
          else revert).
End Merge.
