(* ===== verification/SnapMap.v ===== *)
(** * Mapping the devices of an update ([libsnapshot/snapshot.cpp])

    How a partition with a snapshot becomes devices: its blocks, the image and the partition
    that hold its copy-on-write data, the device of the daemon and the snapshot on top.  What
    a call mapped before it failed is taken away again ([libsnapshot/utility.cpp]). *)
From S2P Require Import Prelude Bytes LpFormat LpUtility Device LpReader LpLayout DmTarget DeviceMapper.
From S2P Require Import DmLinear.
From S2P Require Import SnapUpdate SnapCow SnapWorld SnapState SnapDevices SnapManager SnapMerge.

(** ** What is taken away on failure *)

(** Devices whose name was cleared are no longer in the list.
    [libsnapshot/utility.h:53-84 AutoUnmapDevice, AutoUnmapImage, AutoDeleteSnapshot] *)
Inductive AutoDevice :=
| AutoUnmapDevice (name : bytes)
| AutoUnmapImage (name : bytes)
| AutoDeleteSnapshot (name : bytes).

Section Lists.
Context `{HSP : !SnapProto} {W : Type} `{!SnapWorld W} (info : DeviceInfo).
Local Abbreviation M := (SnapshotManager W).
(** A program with a list of the devices it made. *)
Definition WithDevices : Type := M * list AutoDevice.
Local Abbreviation C := WithDevices.
Definition on_manager {A} (m : IO M A) : IO C A := λ s, let r := m s.1 in (r.1, (r.2, s.2)).
(** [libsnapshot/utility.h:45-48 AutoDeviceList::EmplaceBack] *)
Definition EmplaceBack (d : AutoDevice) : IO C unit := λ s, (Ret (), (s.1, s.2 ++ [d])).
(** [libsnapshot/utility.cpp:57-61 AutoDeviceList::Release] *)
Definition Release : IO C unit := λ s, (Ret (), (s.1, [])).
(** [libsnapshot/utility.cpp:63-75 AutoUnmapDevice, AutoUnmapImage, destructors] *)
Definition destroy (d : AutoDevice) : IO M unit :=
  match d with
  | AutoUnmapDevice name =>
      if decide (name = []) then mret () else ignore (on_world (dm_DeleteDeviceIfExists name))
  | AutoUnmapImage name =>
      if decide (name = []) then mret () else ignore (on_images (im_UnmapImageIfExists name))
  | AutoDeleteSnapshot name =>
      if decide (name = []) then mret () else ignore (DeleteSnapshot info name)
  end.
(** In the reverse order, because newer devices may use older ones.
    [libsnapshot/utility.cpp:49-55 AutoDeviceList::~AutoDeviceList] *)
Definition destroy_all (devices : list AutoDevice) : IO M unit := io_each destroy (rev devices).
(** A list that lives as long as [m] runs. *)
Definition with_devices {A} (m : IO C A) : IO M A := λ s,
  let '(r, (s1, devices)) := m (s, []) in
  match r with
  | Crash => (Crash, s1)
  | _ => let '(d, s2) := destroy_all devices s1 in (match d with Crash => Crash | _ => r end, s2)
  end.
End Lists.
#[global] Arguments WithDevices W : clear implicits.

(** [libsnapshot/utility.cpp:270-276 GetOtherPartitionName] *)
Definition GetOtherPartitionName (name : bytes) : outcome bytes :=
  let suffix := GetPartitionSlotSuffix name in
  _ ← CHECK (suffix = str "_a" ∨ suffix = str "_b");
  Ret (take (length name - length suffix) name ++ (if decide (suffix = str "_a") then str "_b" else str "_a")).

Section Map.
Context `{HSP : !SnapProto} {W : Type} `{!SnapWorld W} (info : DeviceInfo).
Context (sha256 : bytes → bytes) (nothrow_new : Z → bool) {D : Type} `{!BlockIO D}.
Context (opener default_opener : @IPartitionOpener D) (Realpath : bytes → option bytes).
Local Abbreviation M := (SnapshotManager W).
Local Abbreviation C := (WithDevices W).
Local Abbreviation Params := (@CreateLogicalPartitionParams D).

(** ** Time *)

(** [std::chrono::milliseconds::min()] *)
Definition milliseconds_min : Z := - 2 ^ 63.
(** [libsnapshot/snapshot.cpp:2297-2312 GetRemainingTime] *)
Definition GetRemainingTime (timeout begin_ : Z) : IO M Z :=
  if decide (timeout = 0) then mret 0
  else
    now ← on_world clock_now;
    let remaining_time := timeout - (now - begin_) in
    mret (if decide (remaining_time ≤ 0) then milliseconds_min else remaining_time).
(** The call and the test that follows it. *)
Definition time_left (timeout begin_ : Z) : IO M Z :=
  remaining_time ← GetRemainingTime timeout begin_;
  _ ← lift (require (¬ remaining_time < 0));
  mret remaining_time.
(** [libsnapshot/snapshot.cpp:4140-4172 SnapshotManager::WaitForDevice] *)
Definition WaitForDevice (device : bytes) (timeout_ms : Z) : IO M unit :=
  if negb (StartsWith device (str "/")) then mret ()
  else if uevent_regen_callback_ info then on_world (uevent_regen_callback device)
  else if negb (StartsWith device (str "/dev/dm-user/")) then mret ()
  else
    _ ← lift (require (timeout_ms ≠ 0));
    on_world (WaitForFile_ device timeout_ms).

(** ** Devices by name *)

(** [libsnapshot/snapshot.cpp:4111-4120 SnapshotManager::GetMappedImageDevicePath] *)
Definition GetMappedImageDevicePath (device_name : bytes) : IO M bytes :=
  state ← on_world (dm_GetState device_name);
  if decide (state ≠ INVALID) then on_world (dm_GetDmDevicePathByName device_name)
  else on_images (im_GetMappedImageDevice device_name).
(** [libsnapshot/snapshot.cpp:4122-4138 SnapshotManager::GetMappedImageDeviceStringOrPath] *)
Definition GetMappedImageDeviceStringOrPath (device_name : bytes) : IO M bytes :=
  state ← on_world (dm_GetState device_name);
  if decide (state ≠ INVALID) then on_world (dm_GetDeviceString device_name)
  else on_images (im_GetMappedImageDevice device_name).
(** [CreateLogicalPartition] over the manager's device-mapper.
    [fs_mgr/fs_mgr_dm_linear.cpp:234-249 CreateLogicalPartition] *)
Definition MapLogicalPartition (p : Params) : IO M bytes :=
  p ← lift (InitDefaults sha256 nothrow_new default_opener p);
  table ← lift (CreateDmTableInternal Realpath p empty_table);
  on_world (dm_CreateDevice (fp_device_name p) table (fp_timeout_ms p)).
(** Parameters with everything filled in. *)
Definition of_filled (p : @FilledParams D) : Params :=
  mkParams (fp_block_device p) (Some (fp_metadata p)) None (Some (fp_partition p)) (fp_partition_name p)
    (fp_force_writable p) (fp_timeout_ms p) (fp_device_name p) (Some (fp_opener p)).

(** ** The old partition *)

(** A file that was opened for reading. *)
Definition opened (contents : bytes) : MemDisk := mkDisk contents 0 0.
(** The metadata is kept in memory.
    [libsnapshot/snapshot.cpp:4251-4263 SnapshotManager::ReadOldPartitionMetadata] *)
Definition ReadOldPartitionMetadata : IO M LpMetadata :=
  s ← get;
  match old_partition_metadata_ s with
  | Some metadata => mret metadata
  | None =>
      contents ← on_world (ReadFileToString (GetOldPartitionMetadataPath info));
      metadata ← lift (fst (ReadFromImageFile_fd sha256 nothrow_new (opened contents)));
      _ ← modify (with_old_metadata (Some metadata));
      mret metadata
  end.
(** [libsnapshot/snapshot.cpp:651-679 SnapshotManager::MapSourceDevice] *)
Definition MapSourceDevice (name : bytes) (timeout_ms : Z) : IO M bytes :=
  metadata ← ReadOldPartitionMetadata;
  old_name ← lift (GetOtherPartitionName name);
  let slot := SlotNumberForSlotSuffix (GetSlotSuffix info) in
  MapLogicalPartition (mkParams (GetSuperDevice info slot) (Some metadata) None None old_name false timeout_ms
                         (GetSourceDeviceName name) (Some opener)).

(** ** Copy-on-write devices *)

(** [libsnapshot/snapshot.cpp:629-649 SnapshotManager::MapCowImage] *)
Definition MapCowImage (name : bytes) (timeout_ms : Z) : IO M bytes :=
  _ ← EnsureImageManager;
  let cow_image_name := GetCowImageDeviceName name in
  if IsRecovery info || IsFirstStageInit info
  then on_images (im_MapImageWithDeviceMapper cow_image_name)
  else on_images (im_MapImageDevice cow_image_name timeout_ms).
(** The table of the COW partition with the image as its last extent.
    [libsnapshot/snapshot.cpp:2598-2618 SnapshotManager::MapCowDevices, table] *)
Definition cow_table (params : Params) (cow_name cow_image_name : bytes) (status : SnapshotStatus) : IO M DmTable :=
  let cow_partition_params :=
    mkParams (block_device params) (metadata params) (metadata_slot params) None cow_name (force_writable params)
      (timeout_ms params) [] (partition_opener params) in
  table ← lift (CreateDmTable sha256 nothrow_new default_opener Realpath cow_partition_params empty_table);
  if decide (0 < st_cow_file_size status) then
    cow_image_device ← GetMappedImageDeviceStringOrPath cow_image_name;
    let cow_partition_sectors := st_cow_partition_size status / kSectorSize in
    let cow_image_sectors := st_cow_file_size status / kSectorSize in
    lift (AddTarget (mkTarget cow_partition_sectors cow_image_sectors (DmTargetLinear cow_image_device 0)) table)
  else mret table.
(** The image is mapped, if there is one.
    [libsnapshot/snapshot.cpp:2573-2592 SnapshotManager::MapCowDevices, image] *)
Definition map_cow_image (partition_name : bytes) (timeout begin_ : Z) (status : SnapshotStatus) : IO C unit :=
  if decide (0 < st_cow_file_size status) then
    _ ← on_manager EnsureImageManager;
    remaining_time ← on_manager (time_left timeout begin_);
    _ ← on_manager (MapCowImage partition_name remaining_time);
    EmplaceBack (AutoUnmapImage (GetCowImageDeviceName partition_name))
  else mret ().
(** The name of the device that holds the copy-on-write data.
    [libsnapshot/snapshot.cpp:2562-2630 SnapshotManager::MapCowDevices] *)
Definition MapCowDevices (params : Params) (status : SnapshotStatus) : IO C bytes :=
  _ ← lift (CHECK (0 < u64 (st_cow_partition_size status + st_cow_file_size status)));
  begin_ ← on_manager (on_world clock_now);
  let partition_name := params_GetPartitionName params in
  let cow_image_name := GetCowImageDeviceName partition_name in
  let cow_name := GetCowName partition_name in
  _ ← map_cow_image partition_name (timeout_ms params) begin_ status;
  if decide (0 < st_cow_file_size status ∧ st_cow_partition_size status = 0) then mret cow_image_name
  else
    remaining_time ← on_manager (time_left (timeout_ms params) begin_);
    _ ← lift (CHECK (0 < st_cow_partition_size status));
    table ← on_manager (cow_table params cow_name cow_image_name status);
    _ ← on_manager (on_world (dm_CreateDevice cow_name table remaining_time));
    _ ← EmplaceBack (AutoUnmapDevice cow_name);
    mret cow_name.

(** ** The device of the daemon *)

(** The number of sectors: the daemon's answer, or the size of the base device.
    [libsnapshot/snapshot.cpp:481-504 SnapshotManager::MapDmUserCow, base_sectors] *)
Definition dm_user_sectors (uses : bool) (misc_name cow_file base_device base_path_merge : bytes) : IO M Z :=
  if uses then
    dev_sz ← on_world (block_device_size base_path_merge);
    _ ← lift (require (dev_sz ≠ 0));
    mret (Z.shiftr dev_sz 9)
  else
    base_sectors ← on_client (client_InitDmUserCow misc_name cow_file base_device []);
    _ ← lift (require (base_sectors ≠ 0));
    mret base_sectors.
(** A snapshot is not mapped once it was merged.
    [libsnapshot/snapshot.cpp:445-465 SnapshotManager::MapDmUserCow, checks] *)
Definition check_unmerged (name : bytes) : IO M unit :=
  status ← ReadSnapshotStatus info name;
  _ ← lift (require (st_state status ≠ SnapshotState.NONE ∧ st_state status ≠ SnapshotState.MERGE_COMPLETED));
  update_status ← ReadSnapshotUpdateStatus info;
  lift (require (us_state update_status ≠ UpdateState.MergeCompleted ∧
                 us_state update_status ≠ UpdateState.MergeNeedsReboot)).
(** The daemon takes the device over.
    [libsnapshot/snapshot.cpp:512-531 SnapshotManager::MapDmUserCow, attach] *)
Definition attach_dm_user (path misc_name cow_file base_device base_path_merge : bytes) (timeout_ms : Z) : IO M unit :=
  _ ← WaitForDevice path timeout_ms;
  _ ← WaitForDevice (str "/dev/dm-user/" ++ misc_name) timeout_ms;
  uses ← UpdateUsesUserSnapshots info;
  _ ← (if uses : bool
       then sectors ← on_client (client_InitDmUserCow misc_name cow_file base_device base_path_merge);
            lift (require (sectors ≠ 0))
       else mret ());
  on_client (client_AttachDmUser misc_name).
(** [libsnapshot/snapshot.cpp:439-532 SnapshotManager::MapDmUserCow] *)
Definition MapDmUserCow (name cow_file base_device base_path_merge : bytes) (timeout_ms : Z) : IO M bytes :=
  uses ← UpdateUsesUserSnapshots info;
  _ ← (if uses : bool then check_unmerged name else mret ());
  let misc_name := if use_first_stage_snapuserd_ info then name ++ str "-init" else name in
  _ ← EnsureSnapuserdConnected info;
  uses ← UpdateUsesUserSnapshots info;
  base_sectors ← dm_user_sectors uses misc_name cow_file base_device base_path_merge;
  table ← lift (AddTarget (mkTarget 0 base_sectors (DmTargetUser misc_name)) empty_table);
  path ← on_world (dm_CreateDevice name table timeout_ms);
  _ ← attach_dm_user path misc_name cow_file base_device base_path_merge timeout_ms;
  mret path.

(** ** The snapshot *)

(** [libsnapshot/snapshot.cpp:549-590 SnapshotManager::MapSnapshot, sizes] *)
Definition check_sizes (status : SnapshotStatus) (base_device : bytes) : IO M unit :=
  _ ← (if StartsWith base_device (str "/") then
         dev_size ← on_world (block_device_size base_device);
         _ ← lift (require (dev_size ≠ 0));
         lift (require (st_device_size status = dev_size))
       else mret ());
  _ ← lift (require (st_device_size status mod kSectorSize = 0));
  _ ← lift (require (st_snapshot_size status mod kSectorSize = 0 ∧ st_snapshot_size status ≤ st_device_size status));
  lift (require (st_device_size status = st_snapshot_size status)).
(** Whether the kernel merges the snapshot; [Reject] after the update was merged.
    [libsnapshot/snapshot.cpp:595-626 SnapshotManager::MapSnapshot, mode] *)
Definition snapshot_mode (status : SnapshotStatus) (update_status : SnapshotUpdateStatus) : outcome SnapshotStorageMode :=
  mode ← match us_state update_status with
         | UpdateState.MergeCompleted | UpdateState.MergeNeedsReboot => Reject
         | UpdateState.Merging | UpdateState.MergeFailed =>
             Ret (if decide (DecideMergePhase status = us_merge_phase update_status) then Merge else Persistent)
         | _ => Ret Persistent
         end;
  Ret (match mode with
       | Persistent => if decide (st_state status = SnapshotState.MERGING) then Merge else Persistent
       | _ => mode
       end).
(** [libsnapshot/snapshot.cpp:534-627 SnapshotManager::MapSnapshot] *)
Definition MapSnapshot (name base_device cow_device : bytes) (timeout_ms : Z) : IO M bytes :=
  status ← ReadSnapshotStatus info name;
  _ ← lift (require (st_state status ≠ SnapshotState.NONE ∧ st_state status ≠ SnapshotState.MERGE_COMPLETED));
  _ ← check_sizes status base_device;
  let snapshot_sectors := st_snapshot_size status / kSectorSize in
  update_status ← ReadSnapshotUpdateStatus info;
  mode ← lift (snapshot_mode status update_status);
  table ← lift (AddTarget (mkTarget 0 snapshot_sectors
                  (DmTargetSnapshot base_device cow_device mode kSnapshotChunkSize)) empty_table);
  on_world (dm_CreateDevice name table timeout_ms).

(** ** A partition *)

(** [libsnapshot/include/libsnapshot/snapshot.h:688-694 SnapshotManager::SnapshotContext] *)
Inductive SnapshotContext := Mount | Update.
#[export] Instance snapshot_context_eq_dec : EqDecision SnapshotContext.
Proof. solve_decision. Defined.
(** [libsnapshot/include/libsnapshot/snapshot.h:696-702 SnapshotManager::SnapshotPaths] *)
Record SnapshotPaths := mkPaths { target_device : bytes; cow_device_name : bytes; snapshot_device : bytes }.

(** The status of a snapshot that has to be mapped.  The status of a merged snapshot is reset
    and then looked at.
    [libsnapshot/snapshot.cpp:2341-2378 SnapshotManager::MapPartitionWithSnapshot, live_snapshot_status] *)
Definition live_snapshot (part : LpMetadataPartition) (partition_name : bytes) : IO M (option SnapshotStatus) :=
  if decide (Z.land (p_attributes part) LP_PARTITION_ATTR_UPDATED = 0) then mret None
  else
    exists_ ← on_world (access_F_OK (GetSnapshotStatusFilePath info partition_name));
    if negb exists_ then mret None
    else
      status ← ReadSnapshotStatus info partition_name;
      let live := if decide (st_state status = SnapshotState.MERGE_COMPLETED) then None else Some status in
      status ← lift (access live);
      mret (if decide (st_state status = SnapshotState.NONE ∨
                       u64 (st_cow_partition_size status + st_cow_file_size status) = 0)
            then None else Some status).
(** The device of the daemon for a snapshot of snapuserd, on the old partition or, when
    there was none, on the new one.
    [libsnapshot/snapshot.cpp:2447-2489 SnapshotManager::MapPartitionWithSnapshot, dm-user] *)
Definition map_dm_user (partition_name base_path cow_name : bytes) (status : SnapshotStatus)
    (timeout begin_ remaining_time : Z) : IO C (bytes * Z) :=
  source_device_path ←
    (if decide (0 < st_old_partition_size status) then
       path ← on_manager (MapSourceDevice partition_name remaining_time);
       _ ← EmplaceBack (AutoUnmapDevice (GetSourceDeviceName partition_name));
       mret path
     else mret base_path);
  _ ← on_manager (WaitForDevice source_device_path remaining_time);
  cow_path ← on_manager (GetMappedImageDevicePath cow_name);
  _ ← on_manager (WaitForDevice cow_path remaining_time);
  driver ← on_manager (GetSnapshotDriver info);
  let name := GetDmUserCowName partition_name driver in
  new_cow_device ← on_manager (MapDmUserCow name cow_path source_device_path base_path remaining_time);
  _ ← EmplaceBack (AutoUnmapDevice name);
  remaining_time ← on_manager (time_left timeout begin_);
  mret (new_cow_device, remaining_time).
(** What is mapped above the base device.
    [libsnapshot/snapshot.cpp:2416-2527 SnapshotManager::MapPartitionWithSnapshot, snapshot] *)
Definition map_live_snapshot (params : Params) (partition_name base_path : bytes) (context : SnapshotContext)
    (status : SnapshotStatus) (begin_ : Z) : IO C SnapshotPaths :=
  let timeout := timeout_ms params in
  base_device ← on_manager (on_world (dm_GetDeviceString (params_GetDeviceName params)));
  remaining_time ← on_manager (time_left timeout begin_);
  let cow_params :=
    mkParams (block_device params) (metadata params) (metadata_slot params) (partition params)
      (DmLinear.partition_name params) (force_writable params) remaining_time (device_name params)
      (partition_opener params) in
  cow_name ← MapCowDevices cow_params status;
  cow_device ← on_manager (GetMappedImageDeviceStringOrPath cow_name);
  remaining_time ← on_manager (time_left timeout begin_);
  if decide (context = Update ∧ st_using_snapuserd status = true)
  then _ ← Release; mret (mkPaths base_path cow_name [])
  else
    '(cow_device, remaining_time) ←
      (if st_using_snapuserd status
       then map_dm_user partition_name base_path cow_name status timeout begin_ remaining_time
       else mret (cow_device, remaining_time));
    uses ← on_manager (UpdateUsesUserSnapshots info);
    path ← (if negb uses
            then on_manager (MapSnapshot partition_name base_device cow_device remaining_time)
            else mret []);
    _ ← Release;
    mret (mkPaths base_path cow_name path).
(** The base device is writable and has a name of its own if there is a snapshot.
    [libsnapshot/snapshot.cpp:2380-2385 SnapshotManager::MapPartitionWithSnapshot, base device] *)
Definition base_params (p : @FilledParams D) (live : option SnapshotStatus) : Params :=
  match live with
  | None => of_filled p
  | Some _ => mkParams (fp_block_device p) (Some (fp_metadata p)) None (Some (fp_partition p)) (fp_partition_name p)
                true (fp_timeout_ms p) (GetBaseDeviceName (fp_partition_name p)) (Some (fp_opener p))
  end.
(** [libsnapshot/snapshot.cpp:2387-2531 SnapshotManager::MapPartitionWithSnapshot, devices] *)
Definition map_partition (params : Params) (partition_name : bytes) (context : SnapshotContext)
    (live : option SnapshotStatus) (begin_ : Z) : IO C SnapshotPaths :=
  base_path ← on_manager (MapLogicalPartition params);
  _ ← EmplaceBack (AutoUnmapDevice (params_GetDeviceName params));
  remaining_time ← on_manager (time_left (timeout_ms params) begin_);
  _ ← on_manager (WaitForDevice base_path remaining_time);
  match live with
  | None => _ ← Release; mret (mkPaths base_path [] [])
  | Some status => map_live_snapshot params partition_name base_path context status begin_
  end.
(** [libsnapshot/snapshot.cpp:2314-2531 SnapshotManager::MapPartitionWithSnapshot] *)
Definition MapPartitionWithSnapshot (p : Params) (context : SnapshotContext) : IO M SnapshotPaths :=
  begin_ ← on_world clock_now;
  _ ← lift (require (params_GetPartitionName p = params_GetDeviceName p));
  p ← lift (InitDefaults sha256 nothrow_new default_opener p);
  if decide (p_num_extents (fp_partition p) = 0) then mret (mkPaths [] [] [])
  else
    live ← live_snapshot (fp_partition p) (fp_partition_name p);
    with_devices info (map_partition (base_params p live) (fp_partition_name p) context live begin_).

(** ** All partitions *)

(** Partitions of the group of COW partitions are left out.
    [libsnapshot/snapshot.cpp:2274-2292 SnapshotManager::MapAllPartitions, loop] *)
Definition map_table_partition (super_device : bytes) (m : LpMetadata) (timeout : Z) (part : LpMetadataPartition)
    : IO M unit :=
  g ← lift (access (m_groups m !! Z.to_nat (p_group_index part)));
  if decide (GetPartitionGroupName g = kCowGroupName) then mret ()
  else
    _ ← MapPartitionWithSnapshot (mkParams super_device (Some m) None (Some part) [] false timeout [] (Some opener)) Mount;
    mret ().
(** [libsnapshot/snapshot.cpp:2261-2295 SnapshotManager::MapAllPartitions] *)
Definition MapAllPartitions (super_device : bytes) (slot timeout : Z) : IO M unit :=
  m ← lift (ReadMetadata sha256 nothrow_new opener super_device slot);
  _ ← EnsureImageManager;
  io_each (map_table_partition super_device m timeout) (m_partitions m).
(** [libsnapshot/snapshot.cpp:2250-2259 SnapshotManager::CreateLogicalAndSnapshotPartitions] *)
Definition CreateLogicalAndSnapshotPartitions (super_device : bytes) (timeout : Z) : IO M unit :=
  _ ← LockExclusive info;
  MapAllPartitions super_device (SlotNumberForSlotSuffix (GetSlotSuffix info)) timeout.
(** [libsnapshot/snapshot.cpp:2751-2771 SnapshotManager::MapAllSnapshots, loop] *)
Definition remap_snapshot (super_device : bytes) (m : LpMetadata) (timeout : Z) (snapshot : bytes) : IO M unit :=
  _ ← UnmapPartitionWithSnapshot info snapshot;
  _ ← MapPartitionWithSnapshot (mkParams super_device (Some m) None None snapshot false timeout [] (Some opener)) Mount;
  mret ().
(** [libsnapshot/snapshot.cpp:2722-2775 SnapshotManager::MapAllSnapshots] *)
Definition MapAllSnapshots (timeout : Z) : IO M unit :=
  _ ← LockExclusive info;
  state ← ReadUpdateState info;
  _ ← (match state with
       | UpdateState.Unverified => slot ← GetCurrentSlot info; lift (require (slot ≠ Target))
       | UpdateState.Initiated => mret ()
       | _ => lift Reject
       end);
  snapshots ← ListSnapshots info [];
  let slot_number := SlotNumberForSlotSuffix (GetOtherSlotSuffix info) in
  let super_device := GetSuperDevice info slot_number in
  m ← lift (ReadMetadata sha256 nothrow_new opener super_device slot_number);
  io_each (remap_snapshot super_device m timeout) snapshots.
(** [libsnapshot/snapshot.cpp:3575-3606 SnapshotManager::MapUpdateSnapshot] *)
Definition MapUpdateSnapshot (params : Params) : IO M bytes :=
  _ ← LockShared info;
  _ ← UnmapPartitionWithSnapshot info (params_GetPartitionName params);
  status ← ReadSnapshotStatus info (params_GetPartitionName params);
  _ ← lift (require (st_using_snapuserd status = false));
  paths ← MapPartitionWithSnapshot params Update;
  mret (if decide (snapshot_device paths ≠ []) then snapshot_device paths else target_device paths).
(** Every partition is tried.
    [libsnapshot/snapshot.cpp:3736-3755 SnapshotManager::UnmapAllPartitionsInRecovery] *)
Definition UnmapAllPartitionsInRecovery : IO M unit :=
  _ ← LockExclusive info;
  let slot := SlotNumberForSlotSuffix (GetSlotSuffix info) in
  m ← lift (ReadMetadata sha256 nothrow_new opener (GetSuperDevice info slot) slot);
  ok ← io_fold (λ part ok, unmapped ← succeeds (UnmapPartitionWithSnapshot info (GetPartitionName part));
                           mret (ok && unmapped)) (m_partitions m) true;
  lift (require (ok = true)).
End Map.
