(* ===== verification/SnapRecovery.v ===== *)
(** * The daemon during boot, and recovery ([libsnapshot/snapshot.cpp])

    How init hands the snapshots from the daemon of the first stage to the one of the
    second, and the calls that are made in recovery: before the user's data is wiped, to
    finish a merge, and to map the snapshots. *)
From S2P Require Import Prelude Bytes LpFormat LpUtility Device LpReader LpLayout DmTarget DeviceMapper.
From S2P Require Import DmLinear.
From S2P Require Import CowFormat CowReader SnapUpdate SnapCow SnapWorld SnapState SnapDevices SnapManager.
From S2P Require Import SnapMerge.
From S2P Require Import SnapMap.

Section Recovery.
Context `{HSP : !SnapProto} {W : Type} `{!SnapWorld W} (info : DeviceInfo).
Context (sha256 : bytes → bytes) (nothrow_new : Z → bool) {D : Type} `{!BlockIO D}.
Context (opener default_opener : @IPartitionOpener D) (Realpath : bytes → option bytes).
Context (garbage : DmSnapshotStatus).
Context {F : Type} `{!CowFile F, !ICowDevices W F} (cow_fuel : nat) (page_size : Z).
Local Abbreviation M := (SnapshotManager W).

(** ** Questions about the update *)

(** [libsnapshot/snapshot.cpp:2117-2121 SnapshotManager::UpdateUsesCompression] *)
Definition AskUsesCompression : IO M bool :=
  lock ← succeeds (LockShared info);
  if lock : bool then UpdateUsesCompression info else mret false.
(** [libsnapshot/snapshot.cpp:2130-2133 SnapshotManager::UpdateUsesIouring] *)
Definition UpdateUsesIouring : IO M bool :=
  update_status ← ReadSnapshotUpdateStatus info; mret (us_io_uring_enabled update_status).
(** The lock is only taken when the answer is not in memory.
    [libsnapshot/snapshot.cpp:2135-2154 SnapshotManager::UpdateUsesUserSnapshots] *)
Definition AskUsesUserSnapshots : IO M bool :=
  s ← get;
  match is_snapshot_userspace_ s with
  | Some b => mret b
  | None =>
      lock ← succeeds (LockShared info);
      if lock : bool then UpdateUsesUserSnapshots info else mret false
  end.
(** [libsnapshot/snapshot.cpp:4174-4180 SnapshotManager::IsSnapuserdRequired] *)
Definition IsSnapuserdRequired : IO M bool :=
  lock ← succeeds (LockExclusive info);
  if lock : bool then
    status ← ReadSnapshotUpdateStatus info;
    mret (bool_decide (us_state status ≠ UpdateState.None) && us_using_snapuserd status)
  else mret false.
(** [libsnapshot/snapshot.cpp:4395-4404 SnapshotManager::IsUserspaceSnapshotUpdateInProgress] *)
Definition IsUserspaceSnapshotUpdateInProgress : IO M bool :=
  slot ← GetCurrentSlot info;
  if decide (slot = Target) then IsSnapuserdRequired else mret false.

(** ** From one daemon to the next *)

(** [libsnapshot/include/libsnapshot/snapshot.h:803 SnapshotManager::InitTransition] *)
Inductive InitTransition := SELINUX_DETACH | SECOND_STAGE.
#[export] Instance init_transition_eq_dec : EqDecision InitTransition.
Proof. solve_decision. Defined.
(** The device of the daemon for a snapshot, with its table; [None] when there is none.
    [libsnapshot/snapshot.cpp:1726-1741 SnapshotManager::PerformInitTransition, target] *)
Definition user_target (snapshot : bytes) : IO M (option (bytes * TargetInfo)) :=
  driver ← GetSnapshotDriver info;
  let user_cow_name := GetDmUserCowName snapshot driver in
  state ← on_world (dm_GetState user_cow_name);
  if decide (state = INVALID) then mret None
  else
    target ← try_ (GetSingleTarget user_cow_name Table);
    mret (match target with
          | Some target =>
              if decide (GetTargetType (tinfo_spec target) = str "user") then Some (user_cow_name, target) else None
          | None => None
          end).
(** The source device, the base device and the COW device.
    [libsnapshot/snapshot.cpp:1745-1777 SnapshotManager::PerformInitTransition, devices] *)
Definition transition_devices (snapshot : bytes) : IO M (bytes * bytes * bytes) :=
  status ← ReadSnapshotStatus info snapshot;
  let source_device_name :=
    if decide (0 < st_old_partition_size status) then GetSourceDeviceName snapshot else GetBaseDeviceName snapshot in
  source_device ← on_world (dm_GetDmDevicePathByName source_device_name);
  base_path_merge ← on_world (dm_GetDmDevicePathByName (GetBaseDeviceName snapshot));
  cow_image_device ← on_world (dm_GetDmDevicePathByName (GetMappedCowDeviceName snapshot status));
  mret (source_device, base_path_merge, cow_image_device).
(** The requests of the old table go to the control device of the new daemon.
    [libsnapshot/snapshot.cpp:1797-1809 SnapshotManager::PerformInitTransition, tables] *)
Definition swap_tables (misc_name : bytes) (target : TargetInfo) : IO M unit :=
  table ← lift (AddTarget (mkTarget 0 (spec_length (tinfo_spec target)) (DmTargetUser misc_name)) empty_table);
  _ ← on_world (dm_LoadTableAndActivate misc_name table);
  WaitForDevice info (str "/dev/dm-user/" ++ misc_name) 10000.
(** Without the daemon the device cannot be read: the process ends.
    [libsnapshot/snapshot.cpp:1811-1834 SnapshotManager::PerformInitTransition, attach] *)
Definition attach_new_daemon (misc_name cow_image_device source_device base_path_merge : bytes) (target : TargetInfo)
    : IO M unit :=
  uses ← UpdateUsesUserSnapshots info;
  base_sectors ← on_client (client_InitDmUserCow misc_name cow_image_device source_device
                              (if uses : bool then base_path_merge else []));
  _ ← lift (CHECK (base_sectors ≠ 0));
  _ ← lift (CHECK (base_sectors ≤ spec_length (tinfo_spec target)));
  attached ← succeeds (on_client (client_AttachDmUser misc_name));
  lift (CHECK (attached = true)).
(** A message for the command line of the new daemon.
    [libsnapshot/snapshot.cpp:1779-1795 SnapshotManager::PerformInitTransition, message] *)
Definition daemon_argument (misc_name cow_image_device source_device base_path_merge : bytes) : IO M bytes :=
  uses ← UpdateUsesUserSnapshots info;
  mret (misc_name ++ str "," ++ cow_image_device ++ str "," ++ source_device ++
        (if uses : bool then str "," ++ base_path_merge else [])).
(** The arguments, how many devices there are and how many were handed over.
    [libsnapshot/snapshot.cpp:1725-1837 SnapshotManager::PerformInitTransition, loop] *)
Definition transition_snapshot (transition : InitTransition) (snapshot : bytes) (acc : list bytes * nat * nat)
    : IO M (list bytes * nat * nat) :=
  let '(snapuserd_argv, num_cows, ok_cows) := acc in
  device ← user_target snapshot;
  match device with
  | None => mret acc
  | Some (misc_name, target) =>
      arguments ← try_ (
        '(source_device, base_path_merge, cow_image_device) ← transition_devices snapshot;
        if decide (transition = SELINUX_DETACH) then
          argument ← daemon_argument misc_name cow_image_device source_device base_path_merge; mret [argument]
        else
          _ ← swap_tables misc_name target;
          _ ← attach_new_daemon misc_name cow_image_device source_device base_path_merge target;
          mret []);
      mret (match arguments with
            | Some arguments => (snapuserd_argv ++ arguments, S num_cows, S ok_cows)
            | None => (snapuserd_argv, S num_cows, ok_cows)
            end)
  end.
(** [libsnapshot/snapshot.cpp:1716-1721 SnapshotManager::PerformInitTransition, options] *)
Definition daemon_options (transition : InitTransition) : IO M (list bytes) :=
  uses ← UpdateUsesUserSnapshots info;
  if uses && bool_decide (transition = SELINUX_DETACH) then
    io_uring ← UpdateUsesIouring;
    mret (str "-user_snapshot" :: (if io_uring : bool then [str "-io_uring"] else []))
  else mret [].
(** The result is what is appended to the arguments of the daemon.
    [libsnapshot/snapshot.cpp:1696-1846 SnapshotManager::PerformInitTransition] *)
Definition PerformInitTransition (transition : InitTransition) : IO M (list bytes) :=
  s ← get;
  _ ← (if negb (snapuserd_client_ s) && bool_decide (transition ≠ SELINUX_DETACH)
       then _ ← on_world SnapuserdClient_Connect; modify (with_client true) else mret ());
  _ ← LockExclusive info;
  snapshots ← ListSnapshots info [];
  options ← daemon_options transition;
  '(snapuserd_argv, num_cows, ok_cows) ← io_fold (transition_snapshot transition) snapshots (options, 0%nat, 0%nat);
  _ ← lift (require (ok_cows = num_cows));
  mret snapuserd_argv.
(** [libsnapshot/snapshot.cpp:4182-4184 SnapshotManager::PrepareSnapuserdArgsForSelinux] *)
Definition PrepareSnapuserdArgsForSelinux : IO M (list bytes) := PerformInitTransition SELINUX_DETACH.
(** [libsnapshot/snapshot.cpp:4247-4249 SnapshotManager::PerformSecondStageInitTransition] *)
Definition PerformSecondStageInitTransition : IO M (list bytes) := PerformInitTransition SECOND_STAGE.
(** [libsnapshot/snapshot.cpp:4200-4237 SnapshotManager::DetachFirstStageSnapuserdForSelinux, loop] *)
Definition detach_snapshot (snapshot : bytes) (acc : nat * nat) : IO M (nat * nat) :=
  device ← user_target snapshot;
  match device with
  | None => mret acc
  | Some (misc_name, target) =>
      swapped ← succeeds (swap_tables misc_name target);
      mret (S acc.1, if swapped : bool then S acc.2 else acc.2)
  end.
(** [libsnapshot/snapshot.cpp:4186-4245 SnapshotManager::DetachFirstStageSnapuserdForSelinux] *)
Definition DetachFirstStageSnapuserdForSelinux : IO M unit :=
  _ ← LockExclusive info;
  snapshots ← ListSnapshots info [];
  '(num_cows, ok_cows) ← io_fold detach_snapshot snapshots (0%nat, 0%nat);
  lift (require (ok_cows = num_cows)).

(** ** The metadata partition *)

(** [libsnapshot/utility.cpp:150-155 AutoUnmountDevice::~AutoUnmountDevice] *)
Definition unmount (has_device : bool) : IO M unit :=
  if has_device then ignore (on_world (unmount_metadata (GetMetadataDir info))) else mret ().
(** Whether there is a device to unmount; [Reject] is [nullptr].
    [libsnapshot/snapshot.cpp:3832-3851 SnapshotManager::EnsureMetadataMounted] *)
Definition EnsureMetadataMounted : IO M bool :=
  if negb (IsRecovery info) then mret false
  else
    has_device ← on_world (mount_metadata (GetMetadataDir info));
    lock ← succeeds (LockShared info);
    if lock : bool then mret has_device else _ ← unmount has_device; lift Reject.
(** [m] until the end of the scope of a device that is mounted. *)
Definition while_mounted {A} (m : IO M A) : IO M A := λ s,
  let '(r, s1) := m s in
  match r with
  | Crash => (Crash, s1)
  | _ => let '(u, s2) := unmount true s1 in (match u with Crash => Crash | _ => r end, s2)
  end.

(** ** Recovery *)

(** The merge is finished, or the new slot given up; then nothing must use the partitions.
    The flag [in_factory_data_reset_] is left out: nothing reads it.
    [libsnapshot/snapshot.cpp:3867-3914 SnapshotManager::HandleImminentDataWipe, mounted] *)
Definition prepare_wipe (fuel : nat) (callback : option (IO W unit)) : IO M (option unit) :=
  exists_ ← on_world (access_F_OK (GetStateFilePath info));
  if negb exists_ then mret (Some ())
  else
    let slot_number := SlotNumberForSlotSuffix (GetSlotSuffix info) in
    _ ← CreateLogicalAndSnapshotPartitions info sha256 nothrow_new opener default_opener Realpath
          (GetSuperDevice info slot_number) 20000;
    let process_callback := _ ← default (mret ()) callback; mret true in
    state ← ProcessUpdateStateOnDataWipe info sha256 nothrow_new opener default_opener Realpath garbage cow_fuel page_size
              fuel (Some process_callback) true;
    match state with
    | None => mret None
    | Some state =>
        _ ← lift (require (state ≠ UpdateState.MergeFailed));
        _ ← ignore (UnmapAllPartitionsInRecovery info sha256 nothrow_new opener);
        _ ← (if decide (state ≠ UpdateState.None) then
               _ ← LockExclusive info;
               ignore (WriteUpdateState info UpdateState.None MergeFailureCode.Ok)
             else mret ());
        mret (Some ())
    end.
(** Without the metadata there is no update; [Some] unless the fuel was not enough for the merge.
    [libsnapshot/snapshot.cpp:3853-3914 SnapshotManager::HandleImminentDataWipe] *)
Definition HandleImminentDataWipe (fuel : nat) (callback : option (IO W unit)) : IO M (option unit) :=
  _ ← lift (require (IsRecovery info = true));
  mount ← try_ EnsureMetadataMounted;
  match mount with
  | Some true => while_mounted (prepare_wipe fuel callback)
  | _ => mret (Some ())
  end.
(** [libsnapshot/snapshot.cpp:3927-3944 SnapshotManager::FinishMergeInRecovery, mounted] *)
Definition finish_merge (fuel : nat) : IO M (option unit) :=
  let slot_number := SlotNumberForSlotSuffix (GetSlotSuffix info) in
  _ ← CreateLogicalAndSnapshotPartitions info sha256 nothrow_new opener default_opener Realpath
        (GetSuperDevice info slot_number) 20000;
  state ← ProcessUpdateState info sha256 nothrow_new opener default_opener Realpath garbage cow_fuel page_size fuel None None;
  match state with
  | None => mret None
  | Some state =>
      _ ← lift (require (state = UpdateState.MergeCompleted));
      _ ← ignore (UnmapAllPartitionsInRecovery info sha256 nothrow_new opener);
      mret (Some ())
  end.
(** [libsnapshot/snapshot.cpp:3916-3945 SnapshotManager::FinishMergeInRecovery] *)
Definition FinishMergeInRecovery (fuel : nat) : IO M (option unit) :=
  _ ← lift (require (IsRecovery info = true));
  mount ← EnsureMetadataMounted;
  if mount : bool then while_mounted (finish_merge fuel) else lift Reject.
(** [libsnapshot/include/libsnapshot/snapshot.h:83-87 CreateResult] *)
Inductive CreateResult := CREATE_ERROR | CREATED | NOT_CREATED.
(** [libsnapshot/snapshot.cpp:4053-4083 SnapshotManager::RecoveryCreateSnapshotDevices] *)
Definition RecoveryCreateSnapshotDevices_with (has_device : bool) : IO M CreateResult :=
  if negb (IsRecovery info && has_device) then mret NOT_CREATED
  else
    exists_ ← on_world (access_F_OK (GetStateFilePath info));
    if negb exists_ then mret NOT_CREATED
    else
      need ← NeedSnapshotsInFirstStageMount info;
      if negb need then mret NOT_CREATED
      else
        let slot_number := SlotNumberForSlotSuffix (GetOtherSlotSuffix info) in
        created ← succeeds (CreateLogicalAndSnapshotPartitions info sha256 nothrow_new opener default_opener Realpath
                              (GetSuperDevice info slot_number) 20000);
        mret (if created : bool then CREATED else CREATE_ERROR).
(** [libsnapshot/snapshot.cpp:4039-4051 SnapshotManager::RecoveryCreateSnapshotDevices] *)
Definition RecoveryCreateSnapshotDevices : IO M CreateResult :=
  if negb (IsRecovery info) then mret NOT_CREATED
  else
    mount ← try_ EnsureMetadataMounted;
    match mount with
    | Some true => while_mounted (RecoveryCreateSnapshotDevices_with true)
    | _ => mret NOT_CREATED
    end.
End Recovery.
