(* ===== verification/SnapCreate.v ===== *)
(** * Creating the snapshots of an update ([libsnapshot/snapshot.cpp])

    [CreateUpdateSnapshots] turns a manifest into the table of the target slot with its COW
    partitions, the status files of the snapshots, their images and empty COWs; on failure
    it deletes the snapshots it made. *)
From coqutil Require Import Byte.
From stdpp Require Import gmap.
From S2P Require Import Prelude Bytes LpFormat LpUtility Device LpReader LpWriter LpExtent LpBuilder LpAlloc.
From S2P Require Import LpExport.
From S2P Require Import LpLayout DmTarget DeviceMapper DmLinear CowFormat CowReader CowWriter SnapUpdate.
From S2P Require Import SnapCow.
From S2P Require Import SnapWorld SnapState SnapDevices SnapManager SnapMerge SnapMap.

(** ** Interfaces *)

(** The super partition opened for writing; [m] runs on the descriptor. *)
Class ISuperDevice (W D : Type) := {
  super_update : bytes → IO D unit → IO W unit;
}.
(** A COW device opened for writing, with the kind of the descriptor. *)
Class ICowStore (W F : Type) := {
  cow_update : bytes → (FdKind → IO F unit) → IO W unit;
}.
(** Neither touches the files. *)
Definition untouched {W A} `{SnapWorldLaws W} (m : IO W A) : Prop := ∀ w, file (m w).2 = file w ∧ later w (m w).2.
Class StoreLaws (W D F : Type) `{SnapWorldLaws W, !ISuperDevice W D, !ICowStore W F} := {
  super_update_law path m : untouched (super_update path m);
  cow_update_law path m : untouched (cow_update path m);
}.

(** ** Features *)

Section Features.
Context (fetcher : IPropertyFetcher) (KernelSupportsCompressedSnapshots : bool).
(** [std::string::find] finds something. *)
Definition contains (s piece : bytes) : bool := existsb (λ k, StartsWith (drop k s) piece) (seq 0 (S (length s))).
(** [libsnapshot/utility.cpp:223-226 GetLegacyCompressionEnabledProperty] *)
Definition GetLegacyCompressionEnabledProperty : bool :=
  GetBoolProperty fetcher (str "ro.virtual_ab.compression.enabled") false.
(** [libsnapshot/utility.cpp:228-231 GetUserspaceSnapshotsEnabledProperty] *)
Definition GetUserspaceSnapshotsEnabledProperty : bool :=
  GetBoolProperty fetcher (str "ro.virtual_ab.userspace.snapshots.enabled") false.
(** [libsnapshot/utility.cpp:278-281 IsDmSnapshotTestingEnabled] *)
Definition IsDmSnapshotTestingEnabled : bool := GetBoolProperty fetcher (str "snapuserd.test.dm.snapshots") false.
(** [libsnapshot/utility.cpp:260-263 GetIouringEnabledProperty] *)
Definition GetIouringEnabledProperty : bool := GetBoolProperty fetcher (str "ro.virtual_ab.io_uring.enabled") false.
(** [libsnapshot/utility.cpp:233-258 CanUseUserspaceSnapshots] *)
Definition CanUseUserspaceSnapshots : bool :=
  let vendor_release := GetProperty fetcher (str "ro.vendor.build.version.release_or_codename") (str "unknown") in
  GetUserspaceSnapshotsEnabledProperty && negb (contains vendor_release (str "12")) &&
  negb IsDmSnapshotTestingEnabled && KernelSupportsCompressedSnapshots.
(** Nothing speaks against compressed snapshots.  The version is that of a new [CowWriter].
    [libsnapshot/snapshot.cpp:3217-3236 SnapshotManager::CreateUpdateSnapshots, vabc_disable_reason] *)
Definition vabc_allowed (recovery : bool) (dap : CompressionMetadata) : bool :=
  dap_vabc_enabled dap && negb recovery && negb (bool_decide (dap_cow_version dap < kCowVersionMajor)) &&
  KernelSupportsCompressedSnapshots.
(** [libsnapshot/snapshot.cpp:3238-3257 SnapshotManager::CreateUpdateSnapshots, features] *)
Record Features := mkFeatures {
  ft_userspace_snapshots : bool;
  ft_using_snapuserd : bool;
  ft_compression_algorithm : bytes;
  ft_enable_threading : bool;
  ft_batched_writes : bool;
}.
(** [libsnapshot/snapshot.cpp:3205-3279 SnapshotManager::CreateUpdateSnapshots, features] *)
Definition features (recovery : bool) (dap : CompressionMetadata) : Features :=
  let allowed := vabc_allowed recovery dap in
  let userspace_snapshots := CanUseUserspaceSnapshots && allowed in
  let using_snapuserd := userspace_snapshots || GetLegacyCompressionEnabledProperty && allowed in
  let param := dap_vabc_compression_param dap in
  mkFeatures userspace_snapshots using_snapuserd
    (if using_snapuserd then if decide (param = []) then str "gz" else param else [])
    (default false (dap_threaded dap)) (default false (dap_batch_writes dap)).
End Features.

(** ** Tables of partitions *)

(** [std::map<std::string, _>]: in the order of the bytes of the keys. *)
Fixpoint bytes_ltb (a b : bytes) : bool :=
  match a, b with
  | _, [] => false
  | [], _ :: _ => true
  | x :: a, y :: b =>
      let m := Byte.to_N x in let n := Byte.to_N y in
      (m <? n)%N || (m =? n)%N && bytes_ltb a b
  end.
(** [map::emplace]: a key that is there keeps its value. *)
Fixpoint map_emplace {A} (k : bytes) (a : A) (m : list (bytes * A)) : list (bytes * A) :=
  match m with
  | [] => [(k, a)]
  | (k', a') :: m' =>
      if decide (k = k') then m
      else if bytes_ltb k k' then (k, a) :: m else (k', a') :: map_emplace k a m'
  end.
Definition map_find {A} (k : bytes) (m : list (bytes * A)) : option A := snd <$> (list_find (λ p, p.1 = k) m ≫= λ r, Some r.2).
(** [Reject] when the manifest names a partition twice.
    [libsnapshot/snapshot.cpp:3378-3386 SnapshotManager::CreateUpdateSnapshotsInternal, partition_map] *)
Fixpoint partition_map (target_suffix : bytes) (updates : list PartitionUpdate) (m : gmap bytes PartitionUpdate)
    : outcome (gmap bytes PartitionUpdate) :=
  match updates with
  | [] => Ret m
  | update :: updates =>
      let suffixed_name := pu_partition_name update ++ target_suffix in
      _ ← require (m !! suffixed_name = None);
      partition_map target_suffix updates (<[suffixed_name := update]> m)
  end.
(** [libsnapshot/snapshot.cpp:3388-3394 SnapshotManager::CreateUpdateSnapshotsInternal, extra_extents] *)
Definition extra_extents (update : PartitionUpdate) : list BlockRange :=
  option_list (pu_hash_tree_extent update) ++ option_list (pu_fec_extent update).
(** The sum of the sizes of all COW images.
    [libsnapshot/snapshot.cpp:3128-3137 AddRequiredSpace] *)
Definition AddRequiredSpace (orig : Return) (all_snapshot_status : list (bytes * SnapshotStatus)) : Return :=
  match orig with
  | Return_NoSpace _ => Return_NoSpace (foldl (λ sum p, u64 (sum + st_cow_file_size p.2)) 0 all_snapshot_status)
  | _ => orig
  end.
(** The message with what [Run] set and the size of the old partition. *)
Definition message_of (s : SnapCow.SnapshotStatus) (old_partition_size : Z) : SnapshotStatus :=
  mkSnapshotStatus (ss_name s) SnapshotState.NONE (ss_device_size s) (ss_snapshot_size s) (ss_cow_partition_size s)
    (ss_cow_file_size s) 0 0 false old_partition_size [] (default 0 (ss_estimated_cow_size s)) false false.

Section Create.
Context `{HSP : !SnapProto} {W : Type} `{!SnapWorld W} (info : DeviceInfo).
Context (sha256 : bytes → bytes) (nothrow_new : Z → bool) {D : Type} `{!BlockIO D, !ISuperDevice W D}.
Context (opener default_opener : @IPartitionOpener D) (Realpath : bytes → option bytes).
Context (fetcher : IPropertyFetcher) (KernelSupportsCompressedSnapshots : bool).
Context {F : Type} `{!CowFile F, !ICowStore W F} (compression_threads batch_writes : bool).
Local Abbreviation M := (SnapshotManager W).
Local Abbreviation C := (WithDevices W).

(** A call on the builder of the target slot, which a failure throws away. *)
Definition on_builder {S} (m : IO MetadataBuilder unit) (b : MetadataBuilder) : IO S MetadataBuilder :=
  let '(r, b') := m b in lift (_ ← r; Ret b').

(** ** Snapshots *)

(** [libsnapshot/snapshot.cpp:3112-3126 SnapshotManager::UnmapAndDeleteCowPartition] *)
Definition UnmapAndDeleteCowPartition (current_metadata : MetadataBuilder) : IO M MetadataBuilder :=
  to_delete ← io_fold (λ name to_delete,
      deleted ← succeeds (DeleteDeviceIfExists name 0);
      mret (if deleted : bool then to_delete ++ [name] else to_delete))
    (ListPartitionsInGroup current_metadata kCowGroupName) [];
  mret (foldl (λ b name, RemovePartition name b) current_metadata to_delete).

(** The table with the COW partition, and the snapshots made so far. *)
Definition Created : Type := MetadataBuilder * list (bytes * SnapshotStatus).
(** The name and the size of the partition before the update.
    [libsnapshot/snapshot.cpp:3447-3454 SnapshotManager::CreateUpdateSnapshotsInternal, old partition] *)
Definition old_partition_size (current : MetadataBuilder) (name target_suffix current_suffix : bytes) : Z :=
  let old_partition_name := take (length name - length target_suffix) name ++ current_suffix in
  match FindPartition current old_partition_name with Some old_partition => pt_size old_partition | None => 0 end.
(** The snapshot of a partition of the manifest.
    [libsnapshot/snapshot.cpp:3413-3491 SnapshotManager::CreateUpdateSnapshotsInternal, snapshot] *)
Definition create_snapshot (ft : Features) (current : MetadataBuilder) (name : bytes) (update : PartitionUpdate)
    (created : Created) : IO C Created :=
  let '(target, all_snapshot_status) := created in
  target_partition ← lift (access (FindPartition target name));
  let c := mkCreator target target_partition current (Some update) (extra_extents update) (ft_using_snapuserd ft) in
  ret ← lift (Run c);
  _ ← on_manager (DeleteSnapshot info name);
  let status := snapshot_status ret in
  let needs_snapshot := bool_decide (0 < ss_snapshot_size status) in
  let needs_cow := bool_decide (0 < u64 (ss_cow_partition_size status + ss_cow_file_size status)) in
  _ ← lift (CHECK (needs_snapshot = needs_cow));
  if negb needs_snapshot then mret created
  else
    let old_size := old_partition_size current name (GetOtherSlotSuffix info) (GetSlotSuffix info) in
    status ← on_manager (CreateSnapshot info (ft_using_snapuserd ft) (ft_enable_threading ft) (ft_batched_writes ft)
                           (ft_compression_algorithm ft) (message_of status old_size));
    _ ← EmplaceBack (AutoDeleteSnapshot name);
    target ← on_builder (CreateCowPartition fetcher name ret) target;
    mret (target, map_emplace name status all_snapshot_status).
(** A partition that the payload does not have gets no snapshot.
    [libsnapshot/snapshot.cpp:3397-3492 SnapshotManager::CreateUpdateSnapshotsInternal, loop] *)
Definition create_if_updated (ft : Features) (current : MetadataBuilder) (updates : gmap bytes PartitionUpdate)
    (name : bytes) (created : Created) : IO C Created :=
  match updates !! name with
  | None => mret created
  | Some update => create_snapshot ft current name update created
  end.
(** The first image that cannot be made ends the loop.
    [libsnapshot/snapshot.cpp:3496-3504 SnapshotManager::CreateUpdateSnapshotsInternal, images] *)
Fixpoint create_images (todo all_snapshot_status : list (bytes * SnapshotStatus)) : IO M Return :=
  match todo with
  | [] => mret Return_Ok
  | (name, status) :: todo =>
      ret ← (if decide (0 < st_cow_file_size status) then CreateCowImage info name else mret Return_Ok);
      match ret with
      | Return_Ok => create_images todo all_snapshot_status
      | _ => mret (AddRequiredSpace ret all_snapshot_status)
      end
  end.
(** [Reject] is [Return::Error()].
    [libsnapshot/snapshot.cpp:3362-3506 SnapshotManager::CreateUpdateSnapshotsInternal] *)
Definition CreateUpdateSnapshotsInternal (manifest : DeltaArchiveManifest) (ft : Features)
    (current target : MetadataBuilder) : IO C (Return * Created) :=
  target ← on_builder (AddGroup kCowGroupName 0) target;
  updates ← lift (partition_map (GetOtherSlotSuffix info) (ma_partitions manifest) ∅);
  created ← io_fold (create_if_updated ft current updates)
              (ListPartitionsWithSuffix target (GetOtherSlotSuffix info)) (target, []);
  ret ← on_manager (create_images created.2 created.2);
  mret (ret, created).

(** ** Empty COWs *)

(** The first chunk is cleared: a new snapshot for the kernel.
    [libsnapshot/utility.cpp:100-132 InitializeKernelCow] *)
Definition InitializeKernelCow (device : bytes) : IO M Return :=
  let kDmSnapZeroFillSize := kSectorSize * kSnapshotChunkSize in
  status ← on_world (write_device device (zeroes (Z.to_nat kDmSnapZeroFillSize)));
  mret (Return_of status).
(** A COW without operations.
    [libsnapshot/snapshot.cpp:3541-3563 SnapshotManager::InitializeUpdateSnapshots, COW of snapuserd] *)
Definition init_user_cow (compression : bytes) (kind : FdKind) : IO F unit := λ d,
  let options := mkOptions 4096 compression None 200 (negb (IsTestDevice info)) 0 0 false in
  let '(r, w) := (_ ← Initialize; Finalize) (NewCowWriter compression_threads batch_writes options kind d) in
  (r, w_fd w).
(** [libsnapshot/snapshot.cpp:3519-3571 SnapshotManager::InitializeUpdateSnapshots, loop] *)
Definition initialize_snapshot (exported : LpMetadata) (all_snapshot_status : list (bytes * SnapshotStatus))
    (name : bytes) : IO M Return :=
  with_devices info (
    _ ← on_manager (UnmapPartitionWithSnapshot info name);
    match map_find name all_snapshot_status with
    | None => mret Return_Ok
    | Some status =>
        let cow_params := mkParams LP_METADATA_DEFAULT_PARTITION_NAME (Some exported) None None name false
                            (2 ^ 63 - 1) [] (Some opener) in
        cow_name ← MapCowDevices info sha256 nothrow_new default_opener Realpath cow_params status;
        cow_path ← on_manager (on_images (im_GetMappedImageDevice cow_name));
        if st_using_snapuserd status then
          _ ← on_manager (on_world (cow_update cow_path (init_user_cow (st_compression_algorithm status))));
          mret Return_Ok
        else
          ret ← on_manager (InitializeKernelCow cow_path);
          mret (AddRequiredSpace ret all_snapshot_status)
    end).
Fixpoint initialize_all (exported : LpMetadata) (all_snapshot_status : list (bytes * SnapshotStatus))
    (names : list bytes) : IO M Return :=
  match names with
  | [] => mret Return_Ok
  | name :: names =>
      ret ← initialize_snapshot exported all_snapshot_status name;
      match ret with Return_Ok => initialize_all exported all_snapshot_status names | _ => mret ret end
  end.
(** [libsnapshot/snapshot.cpp:3508-3573 SnapshotManager::InitializeUpdateSnapshots] *)
Definition InitializeUpdateSnapshots (target : MetadataBuilder) (exported : LpMetadata)
    (all_snapshot_status : list (bytes * SnapshotStatus)) : IO M Return :=
  initialize_all exported all_snapshot_status (ListPartitionsWithSuffix target (GetOtherSlotSuffix info)).

(** ** The call *)

(** What [WriteToImageFile] does with a path.
    [liblp/images.cpp:126-133 WriteToImageFile(file)] *)
Definition write_image_file (path : bytes) (m : LpMetadata) : IO M unit :=
  _ ← on_world (open_trunc path);
  blob ← lift (SerializeMetadata sha256 m);
  on_world (WriteStringToFd (SerializeGeometry sha256 (m_geometry m) ++ blob) path).
(** [libsnapshot/snapshot.cpp:3334-3345 SnapshotManager::CreateUpdateSnapshots, stale daemon] *)
Definition detach_stale_daemon : IO M unit :=
  s ← get;
  _ ← modify (with_client false);
  connected ← (if snapuserd_client_ s then mret true else succeeds (on_world SnapuserdClient_Connect));
  if connected : bool then ignore (on_world client_DetachSnapuserd) else mret ().
(** [libsnapshot/snapshot.cpp:3311-3323 SnapshotManager::CreateUpdateSnapshots, status] *)
Definition featured_status (ft : Features) (status : SnapshotUpdateStatus) : SnapshotUpdateStatus :=
  mkUpdateStatus UpdateState.Initiated (us_sectors_allocated status) (us_total_sectors status)
    (us_metadata_sectors status) (ft_using_snapuserd ft) (us_merge_phase status) (us_merge_failure_code status)
    (us_source_build_fingerprint status) (ft_userspace_snapshots ft || us_userspace_snapshots status)
    (ft_userspace_snapshots ft && GetIouringEnabledProperty fetcher || us_io_uring_enabled status).
(** The tables are stored and the state records the features of the update.
    [libsnapshot/snapshot.cpp:3291-3350 SnapshotManager::CreateUpdateSnapshots, stored] *)
Definition store_update (ft : Features) (current : MetadataBuilder) (exported : LpMetadata) : IO M unit :=
  let target_slot := SlotNumberForSlotSuffix (GetOtherSlotSuffix info) in
  _ ← on_world (super_update (GetSuperDevice info target_slot)
        (UpdatePartitionTable_fd sha256 nothrow_new true
           opener exported target_slot DefaultWriter));
  _ ← (if ft_using_snapuserd ft then
         metadata ← lift (Export current);
         write_image_file (GetOldPartitionMetadataPath info) metadata
       else mret ());
  status ← ReadSnapshotUpdateStatus info;
  _ ← modify (with_userspace (Some (ft_userspace_snapshots ft)));
  _ ← (if negb (IsTestDevice info) && ft_using_snapuserd ft then detach_stale_daemon else mret ());
  WriteSnapshotUpdateStatus info (featured_status ft status).
(** The builders of both slots.
    [libsnapshot/snapshot.cpp:3157-3203 SnapshotManager::CreateUpdateSnapshots, metadata] *)
Definition update_builders (manifest : DeltaArchiveManifest) : IO M (MetadataBuilder * MetadataBuilder) :=
  let current_slot := SlotNumberForSlotSuffix (GetSlotSuffix info) in
  let target_suffix := GetOtherSlotSuffix info in
  let target_slot := SlotNumberForSlotSuffix target_suffix in
  let current_super := GetSuperDevice info current_slot in
  current ← lift (New_opener sha256 nothrow_new opener current_super current_slot);
  target ← lift (NewForUpdate sha256 nothrow_new fetcher opener current_super current_slot target_slot false);
  let current := foldl (λ b group_name, if EndsWith group_name target_suffix then RemoveGroupAndPartitions group_name b else b)
                   current (ListGroups current) in
  updater ← lift (NewUpdater target_slot manifest);
  target ← on_builder (SnapUpdate.Update fetcher updater) target;
  current ← UnmapAndDeleteCowPartition current;
  _ ← lift (CHECK (builder_device_name current 0 = LP_METADATA_DEFAULT_PARTITION_NAME ∧
                   builder_device_name target 0 = LP_METADATA_DEFAULT_PARTITION_NAME));
  mret (current, target).
(** [libsnapshot/snapshot.cpp:3281-3352 SnapshotManager::CreateUpdateSnapshots, snapshots] *)
Definition create_snapshots (manifest : DeltaArchiveManifest) (ft : Features) (current target : MetadataBuilder)
    : IO C Return :=
  '(ret, (target, all_snapshot_status)) ← CreateUpdateSnapshotsInternal manifest ft current target;
  match ret with
  | Return_Ok =>
      exported ← lift (Export target);
      ret ← on_manager (InitializeUpdateSnapshots target exported all_snapshot_status);
      match ret with
      | Return_Ok => _ ← on_manager (store_update ft current exported); _ ← Release; mret Return_Ok
      | _ => mret ret
      end
  | _ => mret ret
  end.
(** [libsnapshot/snapshot.cpp:3139-3360 SnapshotManager::CreateUpdateSnapshots] *)
Definition CreateUpdateSnapshots (manifest : DeltaArchiveManifest) : IO M Return :=
  _ ← LockExclusive info;
  update_state ← ReadUpdateState info;
  _ ← lift (require (update_state = UpdateState.Initiated));
  _ ← lift (require (IsOverlayfsSetup info = false));
  '(current, target) ← update_builders manifest;
  let ft := features fetcher KernelSupportsCompressedSnapshots (IsRecovery info) (ma_compression manifest) in
  with_devices info (create_snapshots manifest ft current target).
End Create.
