(* ===== verification/SnapFrame.v ===== *)
(** * What the calls of the snapshot manager leave alone

    [keeps R m]: whatever the outcome of [m], the states before and after are related by
    [R].  A relation that does not look at the files in [P] ([Frame R P]) is kept by every
    call that only changes those: one lemma per operation, in the hint database [keeps].
    The state of the update and the status of a snapshot are such files. *)
From S2P Require Import Prelude Bytes LpFormat LpUtility Device LpReader DmTarget DeviceMapper DmLinear.
From S2P Require Import CowFormat CowReader SnapUpdate SnapCow SnapWorld SnapState SnapDevices SnapManager.
From S2P Require Import SnapMerge.

Create HintDb keeps.

(** ** Paths *)

(** No path in a metadata directory with this middle is [other]. *)
Lemma path_elsewhere (middle other dir rest : bytes) :
  forallb (λ k, negb (StartsWith (drop k other) middle)) (seq 0 (S (length other))) = true →
  dir ++ middle ++ rest ≠ other.
Proof.
  intros H He. rewrite forallb_forall in H. specialize (H (length dir)).
  rewrite <-He in H. rewrite negb_true_iff in H. unfold StartsWith in H.
  rewrite drop_app_length in H. rewrite take_app_length in H. rewrite bool_decide_eq_true_2 in H by done.
  discriminate H. apply in_seq. rewrite length_app. lia.
Qed.

Section Paths.
Context (info : DeviceInfo).
(** Two paths in the metadata directory. *)
Lemma metadata_path_neq (a b : bytes) : a ≠ b → GetMetadataDir info ++ a ≠ GetMetadataDir info ++ b.
Proof. intros H ?%(inj (app _)). done. Qed.
Definition tmp (path : bytes) : bytes := path ++ str ".tmp".
Lemma state_not_status name : GetStateFilePath info ≠ GetSnapshotStatusFilePath info name.
Proof. apply metadata_path_neq. done. Qed.
Lemma state_not_status_tmp name : GetStateFilePath info ≠ tmp (GetSnapshotStatusFilePath info name).
Proof. unfold tmp, GetSnapshotStatusFilePath. rewrite <-!(assoc_L (++)). by apply metadata_path_neq. Qed.
Lemma tmp_neq path : tmp path ≠ path.
Proof. unfold tmp. intros H%(f_equal length). rewrite length_app in H. simpl in H. lia. Qed.
Lemma state_tmp_not_status name : tmp (GetStateFilePath info) ≠ GetSnapshotStatusFilePath info name.
Proof. unfold tmp, GetStateFilePath. rewrite <-!(assoc_L (++)). by apply metadata_path_neq. Qed.
Lemma state_not_indicator : GetStateFilePath info ≠ GetDaemonAliveIndicatorPath.
Proof.
  unfold GetStateFilePath. rewrite <-(app_nil_r (str "/state")). apply path_elsewhere. by vm_compute.
Qed.
Lemma status_not_indicator name : GetSnapshotStatusFilePath info name ≠ GetDaemonAliveIndicatorPath.
Proof. apply path_elsewhere. by vm_compute. Qed.
Lemma boot_not_indicator : GetSnapshotBootIndicatorPath info ≠ GetDaemonAliveIndicatorPath.
Proof.
  unfold GetSnapshotBootIndicatorPath. rewrite <-(app_nil_r (str "/" ++ str "snapshot-boot")). apply path_elsewhere.
  by vm_compute.
Qed.
Lemma rollback_not_indicator : GetRollbackIndicatorPath info ≠ GetDaemonAliveIndicatorPath.
Proof.
  unfold GetRollbackIndicatorPath. rewrite <-(app_nil_r (str "/" ++ str "rollback-indicator")). apply path_elsewhere.
  by vm_compute.
Qed.
Lemma status_inj a b : GetSnapshotStatusFilePath info a = GetSnapshotStatusFilePath info b → a = b.
Proof. by intros ?%(inj (app _))%(inj (app _)). Qed.
End Paths.

Lemma bind_reject {S A B} (m : IO S A) (f : A → IO S B) s s' : m s = (Reject, s') → (m ≫= f) s = (Reject, s').
Proof. unfold mbind, io_mbind. by intros ->. Qed.
Lemma bind_crash {S A B} (m : IO S A) (f : A → IO S B) s s' : m s = (Crash, s') → (m ≫= f) s = (Crash, s').
Proof. unfold mbind, io_mbind. by intros ->. Qed.

(** ** Relations between states *)

Section Keeps.
Context {W : Type} `{HW : SnapWorldLaws W}.
Local Abbreviation M := (SnapshotManager W).

Definition disk (s : M) : bytes → option bytes := file (sm_world s).
(** [s'] is a later state of the same world. *)
Definition after (s s' : M) : Prop := later (sm_world s) (sm_world s').
#[export] Instance after_preorder : PreOrder after.
Proof. unfold after. split; [by intros s|]. intros s1 s2 s3 ??. by etrans. Qed.

Definition keeps (R : relation M) {A} (m : IO M A) : Prop := ∀ s, R s (m s).2.
(** Only files in [P] change. *)
Definition only (P : bytes → Prop) : relation M := λ s s',
  (∀ p, ¬ P p → disk s' p = disk s p) ∧ after s s'.
#[export] Instance only_preorder P : PreOrder (only P).
Proof.
  split; [by intros s; split|]. intros s1 s2 s3 [H1 ?] [H2 ?]. split; [|by etrans].
  intros p Hp. by rewrite H2, H1.
Qed.
Class Frame (R : relation M) (P : bytes → Prop) := {
  #[global] frame_preorder :: PreOrder R;
  frame_only s s' : only P s s' → R s s';
  frame_indicator : P GetDaemonAliveIndicatorPath;
}.
Lemma only_frame P : P GetDaemonAliveIndicatorPath → Frame (only P) P.
Proof. intros. by split; [apply _| |]. Qed.
Lemma only_weaken P Q s s' : (∀ p, P p → Q p) → only P s s' → only Q s s'.
Proof. intros HPQ [H ?]. split; [|done]. intros p Hp. apply H. naive_solver. Qed.
Lemma only_disk P s s' p : only P s s' → ¬ P p → disk s' p = disk s p.
Proof. intros [H _]. apply H. Qed.
Lemma keeps_weaken (R R' : relation M) {A} (m : IO M A) :
  keeps R m → (∀ s s', R s s' → R' s s') → keeps R' m.
Proof. intros Hm HR s. apply HR, Hm. Qed.

(** ** Programs *)

Section Generic.
Context {R : relation M} `{!PreOrder R}.
Lemma keeps_ret {A} (a : A) : keeps R (mret a).
Proof. intros s. reflexivity. Qed.
Lemma keeps_lift {A} (m : outcome A) : keeps R (lift m).
Proof. intros s. reflexivity. Qed.
Lemma keeps_get : keeps R get.
Proof. intros s. reflexivity. Qed.
Lemma keeps_bind {A B} (m : IO M A) (f : A → IO M B) :
  keeps R m → (∀ a, keeps R (f a)) → keeps R (m ≫= f).
Proof.
  intros Hm Hf s. specialize (Hm s). unfold mbind, io_mbind. destruct (m s) as [[a| |] s1]; simpl in *; [|done..].
  etrans; [exact Hm|apply Hf].
Qed.
Lemma keeps_try {A} (m : IO M A) : keeps R m → keeps R (try_ m).
Proof. intros Hm s. specialize (Hm s). unfold try_. by destruct (m s) as [[a| |] s1]. Qed.
Lemma keeps_succeeds {A} (m : IO M A) : keeps R m → keeps R (succeeds m).
Proof. intros. apply keeps_bind; [by apply keeps_try|]. intros []; apply keeps_ret. Qed.
Lemma keeps_ignore {A} (m : IO M A) : keeps R m → keeps R (ignore m).
Proof. intros. apply keeps_bind; [by apply keeps_try|]. intros ?; apply keeps_ret. Qed.
Lemma keeps_each {A} (f : A → IO M unit) l : (∀ a, a ∈ l → keeps R (f a)) → keeps R (io_each f l).
Proof.
  induction l as [|a l IH]; simpl; intros H; [apply keeps_ret|].
  apply keeps_bind; [apply H; left|]. intros _. apply IH. intros b Hb. apply H. by right.
Qed.
Lemma keeps_fold {A B} (f : A → B → IO M B) l b :
  (∀ a b, a ∈ l → keeps R (f a b)) → keeps R (io_fold f l b).
Proof.
  revert b. induction l as [|a l IH]; simpl; intros b H; [apply keeps_ret|].
  apply keeps_bind; [apply H; left|]. intros b'. apply IH. intros c d Hc. apply H. by right.
Qed.
End Generic.

Section Framed.
Context {R : relation M} {P : bytes → Prop} `{!Frame R P}.
Lemma keeps_modify f : (∀ s, sm_world (f s) = sm_world s) → keeps R (modify f).
Proof. intros H s. simpl. apply frame_only. split; [intros; unfold disk|unfold after]; by rewrite H. Qed.
Lemma keeps_quiet {A} (m : IO W A) : quiet file later m → keeps R (on_world m).
Proof. intros H s. apply frame_only. destruct (H (sm_world s)) as (_ & Hf & Ht). split; [intros; unfold disk; simpl; by rewrite Hf|done]. Qed.
Lemma keeps_touches {A} p (m : IO W A) : touches file later p m → P p → keeps R (on_world m).
Proof.
  intros H Hp s. apply frame_only. destruct (H (sm_world s)) as (_ & Hf & Ht). split; [|done].
  intros q Hq. apply Hf. naive_solver.
Qed.
Lemma keeps_images {A} (m : IO W A) : keeps R (on_world m) → keeps R (on_images m).
Proof. intros. repeat (apply keeps_bind; [apply keeps_get || apply keeps_lift|intros ?]). done. Qed.
Lemma keeps_client {A} (m : IO W A) : keeps R (on_world m) → keeps R (on_client m).
Proof. intros. repeat (apply keeps_bind; [apply keeps_get || apply keeps_lift|intros ?]). done. Qed.
Lemma keeps_rename from to : P from → P to → keeps R (on_world (rename from to)).
Proof.
  intros Hf Ht s. apply frame_only. destruct (rename_law from to (sm_world s)) as (_ & Hc & Hr & _).
  split; [|done]. intros p Hp. apply Hr; naive_solver.
Qed.
End Framed.
End Keeps.
#[export] Hint Extern 1 (quiet _ _ _) => first
  [ apply lock_law | apply read_law | apply fsync_law | apply open_directory_law | apply fsync_directory_law
  | apply access_law | apply read_dir_law | apply wait_deleted_law | apply clock_law | apply sleep_law
  | apply create_device_law | apply get_state_law | apply load_table_law | apply table_info_law
  | apply table_status_law | apply device_path_law | apply device_string_law | apply delete_device_law
  | apply open_images_law | apply create_image_law | apply image_exists_law | apply delete_image_law
  | apply unmap_image_law | apply image_mapped_law | apply remove_images_law | apply connect_law
  | apply initiate_law | apply query_law | apply wait_law | apply detach_law | apply boot_status_law
  | apply device_size_law | apply write_device_law | apply wait_file_law | apply uevent_law | apply mount_law
  | apply unmount_law | apply map_image_law | apply map_image_dm_law | apply mapped_image_law
  | apply init_dm_user_law | apply attach_law | apply unbootable_law | apply open_cow_law | eassumption ] : keeps.

(** Follow a program; what is left are the writes. *)
Ltac keeps_step :=
  match goal with
  | |- keeps _ (_ ≫= _) => apply keeps_bind; [|intros ?]
  | |- keeps _ (mret _) => apply keeps_ret
  | |- keeps _ (lift _) => apply keeps_lift
  | |- keeps _ get => apply keeps_get
  | |- keeps _ (try_ _) => apply keeps_try
  | |- keeps _ (succeeds _) => apply keeps_succeeds
  | |- keeps _ (ignore _) => apply keeps_ignore
  | |- keeps _ (modify _) => apply keeps_modify; done
  | |- keeps _ (io_each _ _) => apply keeps_each; intros
  | |- keeps _ (io_fold _ _ _) => apply keeps_fold; intros
  | |- keeps _ (on_images _) => apply keeps_images
  | |- keeps _ (on_client _) => apply keeps_client
  | |- keeps _ (on_world _) => apply keeps_quiet; solve [eauto with keeps nocore]
  | |- keeps _ (let '(_, _) := ?x in _) => destruct x
  | |- keeps _ (match ?x with _ => _ end) => destruct x
  | |- keeps _ (if ?x then _ else _) => destruct x
  | |- keeps _ _ => solve [eauto with keeps nocore]
  end.
Ltac keeps := repeat keeps_step.

(** ** What each operation of the snapshot manager leaves alone

    One lemma for every operation of [SnapState], [SnapDevices], [SnapManager] and [SnapMerge]
    that does not write the state file, for any relation that ignores the files it writes. *)

Section Operations.
Context `{HSP : !SnapProto} {W : Type} `{HW : SnapWorldLaws W} (info : DeviceInfo).
Context (sha256 : bytes → bytes) (nothrow_new : Z → bool) {D : Type} `{!BlockIO D}.
Context (opener default_opener : @IPartitionOpener D) (Realpath : bytes → option bytes).
Context (garbage : DmSnapshotStatus).
Context {F : Type} `{!CowFile F, !ICowDevices W F, HC : !CowDevicesLaws W F} (cow_fuel : nat) (page_size : Z).
Context {R : relation (SnapshotManager W)} {P : bytes → Prop} `{!Frame R P}.
Local Abbreviation status_path := (GetSnapshotStatusFilePath info).

(** ** Files *)

Lemma keeps_fsync dir : keeps R (FsyncDirectory dir).
Proof. unfold FsyncDirectory. keeps. Qed.
Hint Resolve keeps_fsync : keeps.
Lemma keeps_write content path : P path → P (tmp path) → keeps R (WriteStringToFileAtomic content path).
Proof.
  intros Hp Ht. unfold WriteStringToFileAtomic. apply keeps_bind; [|intros _].
  { eapply keeps_touches; [apply trunc_law|done]. }
  apply keeps_bind; [eapply keeps_touches; [apply write_law|done]|intros _].
  keeps_step; [keeps|]. keeps_step; [|keeps]. by apply keeps_rename.
Qed.
Lemma keeps_lock : keeps R (LockExclusive info).
Proof. unfold LockExclusive, OpenLock, OpenFile. keeps. Qed.
Lemma keeps_lock_shared : keeps R (LockShared info).
Proof. unfold LockShared, OpenLock, OpenFile. keeps. Qed.
Lemma keeps_read_status : keeps R (ReadSnapshotUpdateStatus info).
Proof. unfold ReadSnapshotUpdateStatus. keeps. Qed.
Hint Resolve keeps_lock keeps_lock_shared keeps_read_status : keeps.
Lemma keeps_read_state : keeps R (ReadUpdateState info).
Proof. unfold ReadUpdateState. keeps. Qed.
Lemma keeps_write_update status :
  P (GetStateFilePath info) → P (tmp (GetStateFilePath info)) → keeps R (WriteSnapshotUpdateStatus info status).
Proof. intros. unfold WriteSnapshotUpdateStatus. keeps_step; [keeps|]. keeps_step; [keeps|]. keeps_step; [|keeps]. by apply keeps_write. Qed.
Lemma keeps_read_snapshot name : keeps R (ReadSnapshotStatus info name).
Proof. unfold ReadSnapshotStatus. keeps. Qed.
Lemma keeps_write_snapshot status :
  P (status_path (st_name status)) → P (tmp (status_path (st_name status))) → keeps R (WriteSnapshotStatus info status).
Proof. intros. unfold WriteSnapshotStatus. do 2 (keeps_step; [keeps|]). by apply keeps_write. Qed.
Lemma keeps_list suffix : keeps R (ListSnapshots info suffix).
Proof. unfold ListSnapshots. keeps. Qed.
Lemma keeps_compression : keeps R (UpdateUsesCompression info).
Proof. unfold UpdateUsesCompression. keeps. Qed.
Lemma keeps_userspace : keeps R (UpdateUsesUserSnapshots info).
Proof. unfold UpdateUsesUserSnapshots. keeps. Qed.
Lemma keeps_source_suffix : keeps R (ReadUpdateSourceSlotSuffix info).
Proof. unfold ReadUpdateSourceSlotSuffix. keeps. Qed.
Hint Resolve keeps_read_state keeps_read_snapshot keeps_list keeps_compression keeps_userspace keeps_source_suffix : keeps.
Lemma keeps_slot : keeps R (GetCurrentSlot info).
Proof. unfold GetCurrentSlot. keeps. Qed.
Hint Resolve keeps_slot : keeps.

(** ** Devices *)

Lemma keeps_driver : keeps R (GetSnapshotDriver info).
Proof. unfold GetSnapshotDriver. keeps. Qed.
Lemma keeps_ensure_images : keeps R EnsureImageManager.
Proof. unfold EnsureImageManager. keeps. Qed.
Lemma keeps_ensure_client : keeps R (EnsureSnapuserdConnected info).
Proof.
  unfold EnsureSnapuserdConnected. keeps_step; [keeps|]. keeps_step; [keeps|]. keeps_step; [|keeps].
  keeps_step; [keeps|]. eapply keeps_touches; [apply start_law|]. apply (frame_indicator (R := R)).
Qed.
Lemma keeps_delete_loop fuel name timeout_ms start : keeps R (delete_loop fuel name timeout_ms start).
Proof. induction fuel as [|fuel IH]; simpl; keeps. Qed.
Hint Resolve keeps_driver keeps_ensure_images keeps_ensure_client keeps_delete_loop : keeps.
Lemma keeps_delete_device name timeout_ms : keeps R (DeleteDeviceIfExists name timeout_ms).
Proof. unfold DeleteDeviceIfExists. keeps. Qed.
Lemma keeps_single_target name query : keeps R (GetSingleTarget name query).
Proof. unfold GetSingleTarget. keeps. Qed.
Hint Resolve keeps_delete_device keeps_single_target : keeps.
Lemma keeps_is_snapshot name : keeps R (IsSnapshotDevice name).
Proof. unfold IsSnapshotDevice. keeps. Qed.
Hint Resolve keeps_is_snapshot : keeps.
Lemma keeps_query name : keeps R (QuerySnapshotStatus garbage name).
Proof. unfold QuerySnapshotStatus. keeps. Qed.
Lemma keeps_unmap_user name : keeps R (UnmapDmUserDevice info name).
Proof. unfold UnmapDmUserDevice. keeps. Qed.
Lemma keeps_unmap_userspace name : keeps R (UnmapUserspaceSnapshotDevice info name).
Proof. unfold UnmapUserspaceSnapshotDevice. keeps. Qed.
Hint Resolve keeps_query keeps_unmap_user keeps_unmap_userspace : keeps.
Lemma keeps_unmap_snapshot name : keeps R (UnmapSnapshot info name).
Proof. unfold UnmapSnapshot. keeps. Qed.
Lemma keeps_unmap_cow name : keeps R (UnmapCowDevices info name).
Proof. unfold UnmapCowDevices. keeps. Qed.
Hint Resolve keeps_unmap_snapshot keeps_unmap_cow : keeps.
Lemma keeps_unmap_partition name : keeps R (UnmapPartitionWithSnapshot info name).
Proof. unfold UnmapPartitionWithSnapshot. keeps. Qed.
Hint Resolve keeps_unmap_partition : keeps.
Lemma keeps_delete_snapshot name : P (status_path name) → keeps R (DeleteSnapshot info name).
Proof.
  intros. unfold DeleteSnapshot. do 2 (keeps_step; [keeps|]). keeps_step; [keeps|]. do 2 (keeps_step; [keeps|]).
  by eapply keeps_touches; [apply remove_law|].
Qed.
Lemma keeps_rewrite name : keeps R (RewriteSnapshotDeviceTable name).
Proof. unfold RewriteSnapshotDeviceTable. keeps. Qed.

(** ** Removal *)

Lemma keeps_current_metadata : keeps R (ReadCurrentMetadata info sha256 nothrow_new opener).
Proof. unfold ReadCurrentMetadata. keeps. Qed.
Lemma keeps_flashing snapshots : keeps R (GetSnapshotFlashingStatus info sha256 nothrow_new opener snapshots).
Proof. unfold GetSnapshotFlashingStatus. keeps. Qed.
Hint Resolve keeps_rewrite keeps_current_metadata keeps_flashing : keeps.
Lemma keeps_all_cancelled : keeps R (AreAllSnapshotsCancelled info sha256 nothrow_new opener).
Proof. unfold AreAllSnapshotsCancelled. keeps. Qed.
Lemma keeps_should_delete status slot name : keeps R (ShouldDeleteSnapshot status slot name).
Proof. unfold ShouldDeleteSnapshot. keeps. Qed.
Lemma keeps_should_unmap slot name : keeps R (should_unmap info slot name).
Proof. unfold should_unmap. keeps. Qed.
Hint Resolve keeps_all_cancelled keeps_should_delete keeps_should_unmap keeps_delete_snapshot : keeps.
Lemma keeps_remove_invalid : (∀ name, P (status_path name)) → keeps R (RemoveInvalidSnapshots info).
Proof. intros. unfold RemoveInvalidSnapshots, remove_invalid. keeps. Qed.
Lemma keeps_remove_snapshot status slot name st :
  P (status_path name) → keeps R (remove_snapshot info status slot name st).
Proof. intros. unfold remove_snapshot. keeps. Qed.
Hint Resolve keeps_remove_snapshot : keeps.
Lemma keeps_remove_all : (∀ name, P (status_path name)) → keeps R (RemoveAllSnapshots info sha256 nothrow_new opener).
Proof. intros. unfold RemoveAllSnapshots. keeps. Qed.
Hint Resolve keeps_remove_invalid keeps_remove_all : keeps.
(** The callbacks of the clients do not touch the files. *)
Definition harmless {A} (callback : option (IO W A)) : Prop :=
  match callback with Some callback => quiet file later callback | None => True end.
(** Everything but the new state. *)
Definition remove_files (prolog : option (IO W bool)) : IO (SnapshotManager W) unit :=
  proceed ← (match prolog with Some prolog => on_world prolog | None => mret true end);
  _ ← lift (require (proceed = true));
  _ ← RemoveAllSnapshots info sha256 nothrow_new opener;
  io_each (λ file, ignore (on_world (RemoveFileIfExists file)))
    [GetSnapshotBootIndicatorPath info; GetRollbackIndicatorPath info;
     GetForwardMergeIndicatorPath info; GetOldPartitionMetadataPath info].
Lemma keeps_remove_files prolog :
  harmless prolog → (∀ p, p ≠ GetStateFilePath info → P p) → keeps R (remove_files prolog).
Proof.
  intros Hpro HP. unfold remove_files. keeps_step; [destruct prolog; keeps|]. keeps_step; [keeps|].
  keeps_step. { apply keeps_remove_all. intros name. apply HP. apply not_eq_sym, state_not_status. }
  apply keeps_each. intros p Hp. apply keeps_ignore. eapply keeps_touches; [apply remove_law|].
  apply HP. repeat (apply elem_of_cons in Hp; destruct Hp as [->|Hp]); [by apply metadata_path_neq..|].
  by apply not_elem_of_nil in Hp.
Qed.
Lemma keeps_no_overflow : keeps R (EnsureNoOverflowSnapshot info).
Proof. unfold EnsureNoOverflowSnapshot, ensure_no_overflow. keeps. Qed.
Lemma keeps_forward wipe : P (GetForwardMergeIndicatorPath info) → keeps R (UpdateForwardMergeIndicator info wipe).
Proof.
  intros. unfold UpdateForwardMergeIndicator. destruct wipe.
  - by eapply keeps_touches; [apply write_file_law|].
  - by eapply keeps_touches; [apply remove_law|].
Qed.

(** ** Merging *)

Lemma keeps_switch name :
  (∀ n, P (status_path n)) → (∀ n, P (tmp (status_path n))) → keeps R (SwitchSnapshotToMerge info garbage name).
Proof.
  intros. unfold SwitchSnapshotToMerge. keeps. by apply keeps_write_snapshot.
Qed.
Lemma keeps_check_mapped name : keeps R (check_mapped info name).
Proof. unfold check_mapped. keeps. Qed.
Lemma keeps_drop_flashed m name kept : P (status_path name) → keeps R (drop_flashed info m name kept).
Proof. intros. unfold drop_flashed. keeps. Qed.
Lemma keeps_group name g : keeps R (group_snapshot info garbage name g).
Proof. unfold group_snapshot. keeps. Qed.
Lemma keeps_check_merge_device name : keeps R (check_merge_device name).
Proof. unfold check_merge_device. keeps. Qed.
Hint Resolve keeps_switch keeps_check_mapped keeps_drop_flashed keeps_group keeps_check_merge_device : keeps.
Lemma keeps_switch_all group code :
  (∀ n, P (status_path n)) → (∀ n, P (tmp (status_path n))) → keeps R (switch_all info garbage group code).
Proof. intros ??. revert code. induction group as [|name group IH]; intros code; simpl; keeps. Qed.
Lemma keeps_switch_second snapshots code :
  (∀ n, P (status_path n)) → (∀ n, P (tmp (status_path n))) → keeps R (switch_second info garbage snapshots code).
Proof.
  intros ??. revert code. induction snapshots as [|name snapshots IH]; intros code; simpl; [keeps|].
  keeps_step; [keeps|]. repeat (keeps_step; [keeps|..]); try apply IH; keeps; apply IH.
Qed.
Lemma keeps_collapse name status :
  keeps R (CollapseSnapshotDevice info sha256 nothrow_new opener default_opener Realpath name status).
Proof. unfold CollapseSnapshotDevice. keeps. Qed.
Hint Resolve keeps_collapse : keeps.
Lemma keeps_merge_complete name status : P (status_path name) →
  keeps R (OnSnapshotMergeComplete info sha256 nothrow_new opener default_opener Realpath garbage name status).
Proof. intros. unfold OnSnapshotMergeComplete, collapse_in_kernel. keeps. Qed.
Lemma keeps_consistency name status : keeps R (CheckMergeConsistency (W := W) cow_fuel page_size name status).
Proof. unfold CheckMergeConsistency. keeps. Qed.
Lemma keeps_check_user name status update : keeps R (check_user_snapshot info name status update).
Proof. unfold check_user_snapshot. keeps. Qed.
Lemma keeps_check_kernel name status update : keeps R (check_kernel_snapshot garbage name status update).
Proof. unfold check_kernel_snapshot. keeps. Qed.
Hint Resolve keeps_merge_complete keeps_consistency keeps_check_user keeps_check_kernel : keeps.
Lemma keeps_plain name status : P (status_path name) →
  keeps R (check_plain_device info sha256 nothrow_new opener default_opener Realpath garbage name status).
Proof. intros. unfold check_plain_device. keeps. Qed.
Lemma keeps_finish name status :
  P (status_path (st_name status)) → P (tmp (status_path (st_name status))) → P (status_path name) →
  keeps R (finish_snapshot info sha256 nothrow_new opener default_opener Realpath garbage cow_fuel page_size name status).
Proof. intros. unfold finish_snapshot. keeps. by apply keeps_write_snapshot. Qed.
End Operations.
#[export] Hint Resolve
  keeps_fsync keeps_write keeps_lock keeps_lock_shared keeps_read_status keeps_read_state
  keeps_write_update keeps_read_snapshot keeps_write_snapshot keeps_list keeps_compression
  keeps_userspace keeps_source_suffix keeps_slot keeps_driver keeps_ensure_images
  keeps_ensure_client keeps_delete_loop keeps_delete_device keeps_single_target keeps_is_snapshot
  keeps_query keeps_unmap_user keeps_unmap_userspace keeps_unmap_snapshot keeps_unmap_cow
  keeps_unmap_partition keeps_delete_snapshot keeps_rewrite keeps_current_metadata keeps_flashing
  keeps_all_cancelled keeps_should_delete keeps_should_unmap keeps_remove_invalid
  keeps_remove_snapshot keeps_remove_all keeps_remove_files keeps_no_overflow keeps_forward
  keeps_switch keeps_check_mapped keeps_drop_flashed keeps_group keeps_check_merge_device
  keeps_switch_all keeps_switch_second keeps_collapse keeps_merge_complete keeps_consistency
  keeps_check_user keeps_check_kernel keeps_plain keeps_finish : keeps.
#[export] Hint Extern 0 (Frame _ _) => typeclasses eauto : keeps.
#[export] Hint Extern 0 (CowDevicesLaws _ _) => typeclasses eauto : keeps.

(** ** The states of an update

    What the state file says before and after every call of the manager.  [spec] is the
    state machine that a client of the library sees. *)

Section States.
Context `{HSP : !SnapProto} {W : Type} `{HW : SnapWorldLaws W} (info : DeviceInfo).
Local Abbreviation M := (SnapshotManager W).
Local Abbreviation state_path := (GetStateFilePath info).

(** ** What the files say *)

Definition update_status (s : M) : SnapshotUpdateStatus :=
  match disk s state_path with
  | None => set_update_state UpdateState.None empty_update_status
  | Some contents => parse_state_file contents
  end.
Definition update_state (s : M) : UpdateState := us_state (update_status s).
Definition slot_of (s : M) : Slot :=
  let suffix := default [] (disk s (GetSnapshotBootIndicatorPath info)) in
  if decide (suffix = []) then Unknown
  else if decide (GetSlotSuffix info = suffix) then Source else Target.
Definition snapshot_of (s : M) (name : bytes) : option SnapshotStatus :=
  contents ← disk s (GetSnapshotStatusFilePath info name);
  status ← parse_status contents;
  Some (if decide (st_name status ≠ name) then set_name name status else status).

(** The files are as they were. *)
Definition same_disk : relation M := λ s s', disk s' = disk s ∧ after s s'.
#[export] Instance same_disk_preorder : PreOrder same_disk.
Proof.
  split; [by intros s; split|]. intros ??? [??] [??]. split; [congruence|by etrans].
Qed.
Lemma same_disk_only P s s' : same_disk s s' → only P s s'.
Proof. intros [Hd ?]. split; [|done]. intros. by rewrite Hd. Qed.

Lemma read_file p s : ∃ s', (on_world (ReadFileToString p) : IO M bytes) s = (found (disk s p), s') ∧ same_disk s s'.
Proof.
  eexists. split; [unfold on_world; by rewrite read_result|].
  destruct (read_law p (sm_world s)) as (_ & Hf & Ht). split; [done|exact Ht].
Qed.
Lemma read_access p s :
  ∃ s', (on_world (access_F_OK p) : IO M bool) s = (Ret (bool_decide (is_Some (disk s p))), s') ∧ same_disk s s'.
Proof.
  eexists. split; [unfold on_world; by rewrite access_result|].
  destruct (access_law p (sm_world s)) as (_ & Hf & Ht). split; [done|exact Ht].
Qed.
Lemma read_update_status s : ∃ s', ReadSnapshotUpdateStatus info s = (Ret (update_status s), s') ∧ same_disk s s'.
Proof.
  destruct (read_file state_path s) as (s' & Hr & Hd). exists s'. split; [|done].
  unfold ReadSnapshotUpdateStatus, update_status, try_, mbind, io_mbind. rewrite Hr.
  by destruct (disk s state_path).
Qed.
Lemma read_update_state s : ∃ s', ReadUpdateState info s = (Ret (update_state s), s') ∧ same_disk s s'.
Proof.
  destruct (read_update_status s) as (s' & Hr & Hd). exists s'. split; [|done].
  unfold ReadUpdateState. by rewrite (io_bind_eq _ _ _ _ _ Hr).
Qed.
Lemma read_slot s : ∃ s', GetCurrentSlot info s = (Ret (slot_of s), s') ∧ same_disk s s'.
Proof.
  destruct (read_file (GetSnapshotBootIndicatorPath info) s) as (s' & Hr & Hd). exists s'. split; [|done].
  unfold GetCurrentSlot, ReadUpdateSourceSlotSuffix, slot_of, try_, mbind, io_mbind. rewrite Hr.
  by destruct (disk s (GetSnapshotBootIndicatorPath info)).
Qed.
Lemma read_snapshot name s : ∃ s', ReadSnapshotStatus info name s = (found (snapshot_of s name), s') ∧ same_disk s s'.
Proof.
  destruct (read_file (GetSnapshotStatusFilePath info name) s) as (s' & Hr & Hd). exists s'. split; [|done].
  unfold ReadSnapshotStatus, snapshot_of, mbind, io_mbind, option_bind. rewrite Hr.
  destruct (disk s _) as [c|]; simpl; [|done]. by destruct (parse_status c).
Qed.

(** ** Writing a file *)

Lemma fsync_directory_keeps dir s : (FsyncDirectory dir s).1 ≠ Crash ∧ same_disk s (FsyncDirectory dir s).2.
Proof.
  unfold FsyncDirectory, on_world, mbind, io_mbind.
  destruct (open_directory_law dir (sm_world s)) as (Hc & Hf & Ht).
  destruct (open_directory dir (sm_world s)) as [[[]| |] w1]; simpl in *; [|by repeat split..].
  destruct (fsync_directory_law dir w1) as (Hc' & Hf' & Ht').
  destruct (fsync_directory dir w1) as [[x| |] w2]; simpl in *; try by repeat split.
  2: { repeat split; [done|unfold disk; simpl; congruence|unfold after; simpl; by repeat (etrans; [eassumption|])]. }
  assert (same_disk s (with_world w2 (with_world w1 s))).
  { split; [unfold disk; simpl; congruence|unfold after; simpl; by repeat (etrans; [eassumption|])]. }
  by destruct x.
Qed.
(** The file is the old one or the new one, whatever fails. *)
Lemma write_atomic content path s (r := WriteStringToFileAtomic content path s) :
  (disk r.2 path = disk s path ∨ disk r.2 path = Some content) ∧
  (r.1 = Ret () → disk r.2 path = Some content) ∧ r.1 ≠ Crash ∧ only (λ p, p = path ∨ p = tmp path) s r.2.
Proof.
  subst r. unfold WriteStringToFileAtomic, ignore, try_, on_world, mbind, io_mbind.
  change (path ++ str ".tmp") with (tmp path). pose proof (tmp_neq path) as Hn.
  destruct (trunc_law (tmp path) (sm_world s)) as (Hc1 & Hf1 & Ht1).
  destruct (open_trunc (tmp path) (sm_world s)) as [[[]| |] w1]; simpl in *; [|by (split_and!; [left; apply Hf1; auto|..|split; [intros p Hp; apply Hf1; naive_solver|exact Ht1]])|done].
  destruct (write_law (tmp path) content w1) as (Hc2 & Hf2 & Ht2). pose proof (write_result (tmp path) content w1) as Hw2.
  destruct (WriteStringToFd content (tmp path) w1) as [[[]| |] w2]; simpl in *; [|split_and!; try done|done].
  2: { left. unfold disk; simpl. rewrite Hf2, Hf1 by auto. done. }
  2: { split; [|unfold after; simpl; by repeat (etrans; [eassumption|])]. intros p Hp. unfold disk; simpl. rewrite Hf2, Hf1 by naive_solver. done. }
  specialize (Hw2 eq_refl).
  destruct (fsync_law (tmp path) w2) as (Hc3 & Hf3 & Ht3).
  destruct (fsync_file (tmp path) w2) as [r3 w3]; simpl in *.
  assert (∃ o : option unit, (match r3 with Ret a => (Ret (Some a), with_world w3 (with_world w2 (with_world w1 s)))
     | Reject => (Ret None, with_world w3 (with_world w2 (with_world w1 s)))
     | Crash => (Crash, with_world w3 (with_world w2 (with_world w1 s))) end)
     = (Ret o, with_world w3 (with_world w2 (with_world w1 s)))) as [o ->] by (destruct r3; eauto; done).
  simpl. destruct (rename_law (tmp path) path w3) as (Hc4 & Ht4 & Hf4 & Hor & Hret).
  assert (Hpath : file w3 path = file (sm_world s) path) by (rewrite Hf3, Hf2, Hf1 by auto; done).
  rewrite Hpath, Hf3, Hw2 in Hor. rewrite Hf3, Hw2 in Hret.
  assert (Ho : only (λ p, p = path ∨ p = tmp path) s (with_world (rename (tmp path) path w3).2 s)).
  { split; [|unfold after; simpl; by repeat (etrans; [eassumption|])]. intros p Hp. unfold disk; simpl.
    rewrite Hf4, Hf3, Hf2, Hf1 by tauto. done. }
  destruct (rename (tmp path) path w3) as [[[]| |] w4]; simpl in *; [|by split_and!|done].
  set (s4 := with_world w4 _). destruct (fsync_directory_keeps (parent_path path) s4) as (Hc5 & Hd & Ht5).
  rewrite Hd. split_and!; [destruct Hor as [E|E]; [left|right]; exact E|intros; by apply Hret|done|].
  destruct Ho as [Ho1 Ho2]. split; [intros p Hp; rewrite Hd; by apply Ho1|].
  unfold after in *. simpl in *. by etrans.
Qed.
Lemma parse_serialized u c : serialize_update_status u = Some c → parse_state_file c = u.
Proof. intros H. unfold parse_state_file. by rewrite (update_status_roundtrip u c H). Qed.
Lemma same_update_status s s' : disk s' state_path = disk s state_path → update_status s' = update_status s.
Proof. unfold update_status. by intros ->. Qed.

Lemma hal_quiet (b : bool) st (s : M) (r := (if b then on_world (SetBootControlMergeStatus st) else mret ()) s) :
  r.1 ≠ Crash ∧ same_disk s r.2.
Proof.
  subst r. destruct b; [|by repeat split]. destruct (boot_status_law st (sm_world s)) as (? & ? & ?). by repeat split.
Qed.
Lemma write_update u s (r := WriteSnapshotUpdateStatus info u s) :
  (update_status r.2 = update_status s ∨ update_status r.2 = u) ∧ (r.1 = Ret () → update_status r.2 = u) ∧
  r.1 ≠ Crash ∧ only (λ p, p = state_path ∨ p = tmp state_path) s r.2.
Proof.
  subst r. unfold WriteSnapshotUpdateStatus.
  destruct (serialize_update_status u) as [c|] eqn:Hc; [|by repeat split; auto].
  rewrite (io_bind_eq _ _ _ c s) by done. set (st := hal_status (us_state u)).
  set (before := LIBSNAPSHOT_USE_HAL info && bool_decide (st = MergeStatus_SNAPSHOTTED ∨ st = MergeStatus_MERGING)).
  destruct (hal_quiet before st s) as [Hh Hd].
  set (tell := if before then on_world (SetBootControlMergeStatus st) else mret ()) in *.
  destruct (tell s) as [[[]| |] s1] eqn:E1; simpl in Hh, Hd; [|clear Hh|done].
  2: { rewrite (bind_reject _ _ _ _ E1). simpl. refine (conj _ (conj _ (conj _ _))); [left|done|done|by apply same_disk_only].
       apply same_update_status. by rewrite (proj1 Hd). }
  rewrite (io_bind_eq _ _ _ () s1) by done.
  destruct (write_atomic c state_path s1) as (Hor & Hret & Hn & Ho).
  destruct (WriteStringToFileAtomic c state_path s1) as [[[]| |] s2] eqn:E2; simpl in *; [| |done].
  2: { rewrite (bind_reject _ _ _ _ E2). simpl. refine (conj _ (conj _ (conj _ _))); [|done|done|].
       - rewrite (proj1 Hd) in Hor. destruct Hor as [E|E]; [left; by apply same_update_status|right].
         unfold update_status. rewrite E. by apply parse_serialized.
       - etrans; [by apply same_disk_only|done]. }
  rewrite (io_bind_eq _ _ _ () s2) by done. specialize (Hret eq_refl).
  set (after := LIBSNAPSHOT_USE_HAL info && negb _).
  destruct (hal_quiet after st s2) as [Hh2 Hd2].
  set (tell_after := if after then on_world (SetBootControlMergeStatus st) else mret ()) in *.
  destruct (tell_after s2) as [r3 s3]; simpl in *.
  assert (update_status s3 = u).
  { unfold update_status. rewrite (proj1 Hd2), Hret. by apply parse_serialized. }
  refine (conj _ (conj _ (conj _ _))); [by right|done|done|]. etrans; [by apply same_disk_only|]. etrans; [done|by apply same_disk_only].
Qed.
(** What [WriteUpdateState] writes. *)
Definition next_status (s : M) (state : UpdateState) (code : MergeFailureCode) : SnapshotUpdateStatus :=
  let status := new_update_status info state code in
  if decide (state = UpdateState.Initiated ∨ state = UpdateState.None) then status
  else propagate (update_status s) status.
Lemma next_status_state s state code : us_state (next_status s state code) = state.
Proof. unfold next_status. case_decide; by destruct state. Qed.
Lemma write_state state code s (r := WriteUpdateState info state code s) :
  (update_status r.2 = update_status s ∨ update_status r.2 = next_status s state code) ∧
  (r.1 = Ret () → update_status r.2 = next_status s state code) ∧
  r.1 ≠ Crash ∧ only (λ p, p = state_path ∨ p = tmp state_path) s r.2.
Proof.
  subst r. unfold WriteUpdateState, next_status. case_decide; [apply write_update|].
  destruct (read_update_status s) as (s1 & Hr & Hd). rewrite (io_bind_eq _ _ _ _ _ Hr).
  destruct (write_update (propagate (update_status s) (new_update_status info state code)) s1) as (Hor & Hret & Hn & Ho).
  rewrite (same_update_status s s1) in Hor by (by rewrite (proj1 Hd)).
  refine (conj _ (conj _ (conj _ _))); [done|done|done|]. etrans; [by apply same_disk_only|done].
Qed.
Lemma parse_serialized_status u c name : serialize_status u = Some c → st_name u = name →
  (status ← parse_status c; Some (if decide (st_name status ≠ name) then set_name name status else status)) = Some u.
Proof. intros H <-. rewrite (status_roundtrip u c H). simpl. by rewrite decide_False by naive_solver. Qed.
Lemma write_snapshot u s (name := st_name u) (r := WriteSnapshotStatus info u s) :
  st_name u ≠ [] →
  (snapshot_of r.2 name = snapshot_of s name ∨ snapshot_of r.2 name = Some u) ∧ (r.1 = Ret () → snapshot_of r.2 name = Some u) ∧
  r.1 ≠ Crash ∧ only (λ p, p = GetSnapshotStatusFilePath info name ∨ p = tmp (GetSnapshotStatusFilePath info name)) s r.2.
Proof.
  intros Hne. subst r. unfold WriteSnapshotStatus. rewrite (io_bind_eq _ _ _ () s) by (unfold lift; by rewrite CHECK_True).
  destruct (serialize_status u) as [c|] eqn:Hc; [|by repeat split; auto].
  rewrite (io_bind_eq _ _ _ c s) by done. fold name.
  destruct (write_atomic c (GetSnapshotStatusFilePath info name) s) as (Hor & Hret & Hn & Ho).
  assert (Hs : ∀ s', disk s' (GetSnapshotStatusFilePath info name) = Some c → snapshot_of s' name = Some u).
  { intros s' E. unfold snapshot_of. rewrite E. simpl. by apply parse_serialized_status. }
  refine (conj _ (conj _ (conj _ _))); [|auto|done|done].
  destruct Hor as [E|E]; [left; unfold snapshot_of; by rewrite E|right; by apply Hs].
Qed.
Lemma write_snapshot_file u s (path := GetSnapshotStatusFilePath info (st_name u)) :
  is_Some (disk s path) → is_Some (disk (WriteSnapshotStatus info u s).2 path).
Proof.
  intros Hs. unfold WriteSnapshotStatus. destruct (decide (st_name u = [])) as [E|Hne].
  { rewrite (bind_crash _ _ s s); [done|]. unfold lift, CHECK. by rewrite decide_False by auto. }
  rewrite (io_bind_eq _ _ _ () s) by (unfold lift; by rewrite CHECK_True).
  destruct (serialize_status u) as [c|]; [|done]. rewrite (io_bind_eq _ _ _ c s) by done.
  fold path. destruct (write_atomic c path s) as ([E|E] & _); rewrite E; [exact Hs|by eexists].
Qed.
End States.
