(* ===== verification/SnapMapped.v ===== *)
(** * What mapping and creating leave alone

    The calls of [SnapMap] and [SnapCreate] only change the files that they say; a mapping
    that fails leaves no device behind, but for one of the daemon. *)
From stdpp Require Import gmap.
From S2P Require Import Prelude Bytes LpFormat LpUtility Device LpReader LpWriter LpExtent LpBuilder LpAlloc.
From S2P Require Import LpExport.
From S2P Require Import LpLayout DmTarget DeviceMapper DmLinear CowFormat CowReader CowWriter SnapUpdate.
From S2P Require Import SnapCow.
From S2P Require Import SnapWorld SnapState SnapDevices SnapManager SnapMerge SnapMap SnapRecovery SnapCreate.
From S2P Require Import SnapFrame.

(** ** Programs with a list of devices *)

Section Lists.
Context `{HSP : !SnapProto} {W : Type} `{HW : SnapWorldLaws W} (info : DeviceInfo).
Local Abbreviation M := (SnapshotManager W).
Local Abbreviation C := (WithDevices W).
Definition keepsC (R : relation M) {A} (m : IO C A) : Prop := ∀ s, R s.1 (m s).2.1.

Section Generic.
Context {R : relation M} `{!PreOrder R}.
Lemma keepsC_ret {A} (a : A) : keepsC R (mret a).
Proof. intros s. reflexivity. Qed.
Lemma keepsC_lift {A} (m : outcome A) : keepsC R (lift m).
Proof. intros s. reflexivity. Qed.
Lemma keepsC_emplace d : keepsC R (EmplaceBack d).
Proof. intros s. reflexivity. Qed.
Lemma keepsC_release : keepsC R Release.
Proof. intros s. reflexivity. Qed.
Lemma keepsC_on_manager {A} (m : IO M A) : keeps R m → keepsC R (on_manager m).
Proof. intros H s. apply H. Qed.
Lemma keepsC_bind {A B} (m : IO C A) (f : A → IO C B) :
  keepsC R m → (∀ a, keepsC R (f a)) → keepsC R (m ≫= f).
Proof.
  intros Hm Hf s. specialize (Hm s). unfold mbind, io_mbind. destruct (m s) as [[a| |] s1]; simpl in *; [|done..].
  etrans; [exact Hm|apply Hf].
Qed.
Lemma keepsC_fold {A B} (f : A → B → IO C B) l b :
  (∀ a b, a ∈ l → keepsC R (f a b)) → keepsC R (io_fold f l b).
Proof.
  revert b. induction l as [|a l IH]; simpl; intros b H; [apply keepsC_ret|].
  apply keepsC_bind; [apply H; left|]. intros b'. apply IH. intros c d Hc. apply H. by right.
Qed.
Lemma keepsC_builder (m : IO MetadataBuilder unit) b : keepsC R (on_builder m b).
Proof. unfold on_builder. destruct (m b). apply keepsC_lift. Qed.
Lemma keeps_with_devices {A} (m : IO C A) :
  keepsC R m → (∀ devices, keeps R (destroy_all info devices)) → keeps R (with_devices info m).
Proof.
  intros Hm Hd s. specialize (Hm (s, [])). unfold with_devices. destruct (m (s, [])) as [r [s1 devices]]. simpl in Hm.
  specialize (Hd devices s1). destruct (destroy_all info devices s1) as [d s2].
  destruct r; simpl in *; [by etrans|by etrans|done].
Qed.
End Generic.
End Lists.

Ltac keepsC_step :=
  match goal with
  | |- keepsC _ (_ ≫= _) => apply keepsC_bind; [|intros ?]
  | |- keepsC _ (mret _) => apply keepsC_ret
  | |- keepsC _ (lift _) => apply keepsC_lift
  | |- keepsC _ (EmplaceBack _) => apply keepsC_emplace
  | |- keepsC _ Release => apply keepsC_release
  | |- keepsC _ (on_manager _) => apply keepsC_on_manager
  | |- keepsC _ (on_builder _ _) => apply keepsC_builder
  | |- keepsC _ (io_fold _ _ _) => apply keepsC_fold; intros
  | |- keepsC _ (let '(_, _) := ?x in _) => destruct x
  | |- keepsC _ (match ?x with _ => _ end) => destruct x
  | |- keepsC _ (if ?x then _ else _) => destruct x
  | |- keepsC _ _ => solve [eauto with keeps nocore]
  end.
Ltac keepsC := repeat (keepsC_step || keeps_step).

(** ** Operations *)

Section Operations.
Context `{HSP : !SnapProto} {W : Type} `{HW : SnapWorldLaws W} (info : DeviceInfo).
Context (sha256 : bytes → bytes) (nothrow_new : Z → bool) {D : Type} `{!BlockIO D}.
Context (opener default_opener : @IPartitionOpener D) (Realpath : bytes → option bytes).
Context {R : relation (SnapshotManager W)} {P : bytes → Prop} `{!Frame R P}.
Context (P_status : ∀ name, P (GetSnapshotStatusFilePath info name)).
Local Abbreviation M := (SnapshotManager W).
Local Hint Resolve keeps_lock keeps_lock_shared keeps_read_status keeps_read_state keeps_read_snapshot keeps_list
  keeps_compression keeps_userspace keeps_slot keeps_driver keeps_ensure_images keeps_ensure_client
  keeps_delete_device keeps_unmap_partition keeps_delete_snapshot : keeps.

Lemma keeps_destroy d : keeps R (destroy info d).
Proof using P_status Frame0. unfold destroy. destruct d; keeps. Qed.
Hint Resolve keeps_destroy : keeps.
Lemma keeps_destroy_all devices : keeps R (destroy_all info devices).
Proof using P_status Frame0. unfold destroy_all. keeps. Qed.
Lemma keeps_time_left timeout begin_ : keeps R (time_left timeout begin_).
Proof. unfold time_left, GetRemainingTime. keeps. Qed.
Lemma keeps_wait device timeout : keeps R (WaitForDevice info device timeout).
Proof. unfold WaitForDevice. keeps. Qed.
Lemma keeps_image_path name : keeps R (GetMappedImageDevicePath name).
Proof. unfold GetMappedImageDevicePath. keeps. Qed.
Lemma keeps_image_string name : keeps R (GetMappedImageDeviceStringOrPath name).
Proof. unfold GetMappedImageDeviceStringOrPath. keeps. Qed.
Lemma keeps_logical p : keeps R (MapLogicalPartition sha256 nothrow_new default_opener Realpath p).
Proof. unfold MapLogicalPartition. keeps. Qed.
Lemma keeps_old_metadata : keeps R (ReadOldPartitionMetadata info sha256 nothrow_new).
Proof. unfold ReadOldPartitionMetadata. keeps. Qed.
Hint Resolve keeps_time_left keeps_wait keeps_image_path keeps_image_string keeps_logical keeps_old_metadata : keeps.
Lemma keeps_source name timeout :
  keeps R (MapSourceDevice info sha256 nothrow_new opener default_opener Realpath name timeout).
Proof. unfold MapSourceDevice. keeps. Qed.
Lemma keeps_cow_image name timeout : keeps R (MapCowImage info name timeout).
Proof. unfold MapCowImage. keeps. Qed.
Lemma keeps_cow_table params cow image status :
  keeps R (cow_table sha256 nothrow_new default_opener Realpath params cow image status).
Proof. unfold cow_table. keeps. Qed.
Hint Resolve keeps_source keeps_cow_image keeps_cow_table : keeps.
Lemma keepsC_cow_image name timeout begin_ status : keepsC R (map_cow_image info name timeout begin_ status).
Proof. unfold map_cow_image. keepsC. Qed.
Hint Resolve keepsC_cow_image : keeps.
Lemma keepsC_cow_devices params status :
  keepsC R (MapCowDevices info sha256 nothrow_new default_opener Realpath params status).
Proof. unfold MapCowDevices. keepsC. Qed.
Lemma keeps_dm_user name cow base merge timeout : keeps R (MapDmUserCow info name cow base merge timeout).
Proof. unfold MapDmUserCow, check_unmerged, dm_user_sectors, attach_dm_user. keeps. Qed.
Lemma keeps_map_snapshot name base cow timeout : keeps R (MapSnapshot info name base cow timeout).
Proof. unfold MapSnapshot, check_sizes. keeps. Qed.
Lemma keeps_live part name : keeps R (live_snapshot info part name).
Proof. unfold live_snapshot. keeps. Qed.
Hint Resolve keepsC_cow_devices keeps_dm_user keeps_map_snapshot keeps_live : keeps.
Lemma keepsC_dm_user name base cow status timeout begin_ remaining :
  keepsC R (map_dm_user info sha256 nothrow_new opener default_opener Realpath name base cow status timeout begin_ remaining).
Proof. unfold map_dm_user. keepsC. Qed.
Hint Resolve keepsC_dm_user : keeps.
Lemma keepsC_live params name base context status begin_ :
  keepsC R (map_live_snapshot info sha256 nothrow_new opener default_opener Realpath params name base context status begin_).
Proof. unfold map_live_snapshot. keepsC. Qed.
Hint Resolve keepsC_live : keeps.
Lemma keepsC_partition params name context live begin_ :
  keepsC R (map_partition info sha256 nothrow_new opener default_opener Realpath params name context live begin_).
Proof. unfold map_partition. keepsC. Qed.
Lemma keeps_map_partition p context :
  keeps R (MapPartitionWithSnapshot info sha256 nothrow_new opener default_opener Realpath p context).
Proof using P_status Frame0.
  unfold MapPartitionWithSnapshot. keeps. apply keeps_with_devices; [typeclasses eauto|apply keepsC_partition|apply keeps_destroy_all].
Qed.
Hint Resolve keeps_map_partition : keeps.
Lemma keeps_map_table super m timeout part :
  keeps R (map_table_partition info sha256 nothrow_new opener default_opener Realpath super m timeout part).
Proof using P_status Frame0. unfold map_table_partition. keeps. Qed.
Hint Resolve keeps_map_table : keeps.
Lemma keeps_create_logical super timeout :
  keeps R (CreateLogicalAndSnapshotPartitions info sha256 nothrow_new opener default_opener Realpath super timeout).
Proof using P_status Frame0. unfold CreateLogicalAndSnapshotPartitions, MapAllPartitions. keeps. Qed.
Lemma keeps_map_all timeout : keeps R (MapAllSnapshots info sha256 nothrow_new opener default_opener Realpath timeout).
Proof using P_status Frame0. unfold MapAllSnapshots, remap_snapshot. keeps. Qed.
Lemma keeps_map_update params :
  keeps R (MapUpdateSnapshot info sha256 nothrow_new opener default_opener Realpath params).
Proof using P_status Frame0. unfold MapUpdateSnapshot. keeps. Qed.
Lemma keeps_unmap_recovery : keeps R (UnmapAllPartitionsInRecovery info sha256 nothrow_new opener).
Proof. unfold UnmapAllPartitionsInRecovery. keeps. Qed.

(** ** Init and recovery *)

Lemma keeps_uses_uring : keeps R (UpdateUsesIouring info).
Proof. unfold UpdateUsesIouring. keeps. Qed.
Lemma keeps_required : keeps R (IsSnapuserdRequired info).
Proof. unfold IsSnapuserdRequired. keeps. Qed.
Lemma keeps_ask_compression : keeps R (AskUsesCompression info).
Proof. unfold AskUsesCompression. keeps. Qed.
Lemma keeps_ask_user : keeps R (AskUsesUserSnapshots info).
Proof. unfold AskUsesUserSnapshots. keeps. Qed.
Lemma keeps_user_target snapshot : keeps R (user_target info snapshot).
Proof. unfold user_target. keeps. Qed.
Lemma keeps_transition_devices snapshot : keeps R (transition_devices info snapshot).
Proof. unfold transition_devices. keeps. Qed.
Lemma keeps_swap name target : keeps R (swap_tables info name target).
Proof. unfold swap_tables. keeps. Qed.
Lemma keeps_attach_new name cow source base target : keeps R (attach_new_daemon info name cow source base target).
Proof. unfold attach_new_daemon. keeps. Qed.
Hint Resolve keeps_uses_uring keeps_required keeps_user_target keeps_transition_devices keeps_swap keeps_attach_new : keeps.
Lemma keeps_in_progress : keeps R (IsUserspaceSnapshotUpdateInProgress info).
Proof. unfold IsUserspaceSnapshotUpdateInProgress. keeps. Qed.
Lemma keeps_transition transition : keeps R (PerformInitTransition info transition).
Proof. unfold PerformInitTransition, daemon_options, transition_snapshot, daemon_argument. keeps. Qed.
Lemma keeps_detach_first_stage : keeps R (DetachFirstStageSnapuserdForSelinux info).
Proof. unfold DetachFirstStageSnapuserdForSelinux, detach_snapshot. keeps. Qed.
Lemma keeps_unmount has_device : keeps R (unmount info has_device).
Proof. unfold unmount. keeps. Qed.
Hint Resolve keeps_unmount : keeps.
Lemma keeps_mounted : keeps R (EnsureMetadataMounted info).
Proof. unfold EnsureMetadataMounted. keeps. Qed.

Lemma keeps_while_mounted {A} (m : IO M A) : keeps R m → keeps R (while_mounted info m).
Proof.
  intros Hm s. specialize (Hm s). unfold while_mounted. destruct (m s) as [r s1]. simpl in Hm.
  assert (Hu := keeps_unmount true s1). destruct (unmount info true s1) as [u s2]. destruct r; simpl in *; [by etrans|by etrans|done].
Qed.
Context (garbage : DmSnapshotStatus).
Lemma keeps_recovery_create : P (GetRollbackIndicatorPath info) →
  keeps R (RecoveryCreateSnapshotDevices info sha256 nothrow_new opener default_opener Realpath).
Proof using P_status Frame0.
  intros HP. unfold RecoveryCreateSnapshotDevices. destruct (negb _); [keeps|]. keeps_step; [apply keeps_try, keeps_mounted|].
  match goal with |- keeps _ (match ?x with _ => _ end) => destruct x as [[|]|] end; [|keeps..].
  apply keeps_while_mounted. unfold RecoveryCreateSnapshotDevices_with. destruct (negb _); [keeps|]. keeps_step; [keeps|].
  destruct (negb _); [keeps|]. keeps_step.
  { unfold NeedSnapshotsInFirstStageMount. keeps_step; [keeps|]. match goal with a : Slot |- _ => destruct a end; [keeps| |keeps].
    keeps_step; [|keeps]. apply keeps_ignore. by eapply keeps_touches; [apply write_file_law|]. }
  destruct (negb _); [keeps|]. keeps_step; [apply keeps_succeeds, keeps_create_logical|keeps].
Qed.

(** ** Creating snapshots *)

Context `{!ISuperDevice W D} {F : Type} `{!CowFile F, !ICowStore W F, HSt : !StoreLaws W D F}.
Context (fetcher : IPropertyFetcher) (compression_threads batch_writes : bool).
Context (P_status_tmp : ∀ name, P (tmp (GetSnapshotStatusFilePath info name))).
Lemma keeps_untouched {A} (m : IO W A) : untouched m → keeps R (on_world m).
Proof using Frame0.
  intros H s. apply frame_only. destruct (H (sm_world s)) as [Hf Ht].
  split; [intros; unfold disk; simpl; by rewrite Hf|done].
Qed.
Lemma keeps_unmap_delete b : keeps R (UnmapAndDeleteCowPartition b).
Proof. unfold UnmapAndDeleteCowPartition. keeps. Qed.
Lemma keeps_builder (m : IO MetadataBuilder unit) b : keeps R (on_builder m b).
Proof. unfold on_builder. destruct (m b). apply keeps_lift. Qed.
Hint Resolve keeps_unmap_delete keeps_builder : keeps.
Lemma keeps_builders manifest :
  keeps R (update_builders info sha256 nothrow_new opener fetcher manifest).
Proof. unfold update_builders. keeps. Qed.
Lemma keeps_create_snapshot a b c d status : keeps R (CreateSnapshot info a b c d status).
Proof using P_status P_status_tmp Frame0.
  unfold CreateSnapshot. keeps.
Qed.
Lemma keeps_create_image name : keeps R (CreateCowImage info name).
Proof. unfold CreateCowImage. keeps. Qed.
Hint Resolve keeps_create_snapshot keeps_create_image : keeps.
Lemma keepsC_create_snapshot ft current name update created :
  keepsC R (create_snapshot info fetcher ft current name update created).
Proof using P_status P_status_tmp Frame0. unfold create_snapshot. keepsC. Qed.
Hint Resolve keepsC_create_snapshot : keeps.
Lemma keeps_create_images todo all : keeps R (create_images info todo all).
Proof. induction todo as [|[name status] todo IH]; simpl; keeps. Qed.
Hint Resolve keeps_create_images : keeps.
Lemma keepsC_create_internal manifest ft current target :
  keepsC R (CreateUpdateSnapshotsInternal info fetcher manifest ft current target).
Proof using P_status P_status_tmp Frame0. unfold CreateUpdateSnapshotsInternal, create_if_updated. keepsC. Qed.
Lemma keeps_initialize exported all name :
  keeps R (initialize_snapshot info sha256 nothrow_new opener default_opener Realpath compression_threads batch_writes
             exported all name).
Proof using P_status Frame0 HSt.
  unfold initialize_snapshot, InitializeKernelCow. apply keeps_with_devices; [typeclasses eauto| |apply keeps_destroy_all].
  keepsC. apply keeps_untouched. eapply cow_update_law.
Qed.
Hint Resolve keepsC_create_internal keeps_initialize : keeps.
Lemma keeps_initialize_all exported all names :
  keeps R (initialize_all info sha256 nothrow_new opener default_opener Realpath compression_threads batch_writes
             exported all names).
Proof using P_status Frame0 HSt. induction names as [|name names IH]; simpl; keeps. Qed.
Lemma keeps_detach : keeps R detach_stale_daemon.
Proof. unfold detach_stale_daemon. keeps. Qed.
End Operations.

(** ** Devices that stay *)

(** What the calls do to the devices that device-mapper made, and to the images that are
    mapped.  A name that is in use is refused, and so is a device without a name; what
    fails has no effect. *)
Class DeviceLaws (W : Type) `{!SnapWorld W} := {
  devices : W → gset bytes;
  images : W → gset bytes;
  idle {A} (m : IO W A) : Prop := ∀ w, devices (m w).2 = devices w ∧ images (m w).2 = images w;
  create_device_effect name table ms w (r := dm_CreateDevice name table ms w) : images r.2 = images w ∧
    match r.1 with
    | Ret _ => name ∉ devices w ∧ name ≠ [] ∧ devices r.2 = {[name]} ∪ devices w
    | _ => devices r.2 = devices w
    end;
  delete_device_effect name w (r := dm_DeleteDeviceIfExists name w) : images r.2 = images w ∧
    match r.1 with Ret _ => devices r.2 = devices w ∖ {[name]} | _ => devices r.2 = devices w end;
  map_image_effect name ms w (r := im_MapImageDevice name ms w) : devices r.2 = devices w ∧
    match r.1 with
    | Ret _ => name ∉ images w ∧ images r.2 = {[name]} ∪ images w
    | _ => images r.2 = images w
    end;
  map_image_dm_effect name w (r := im_MapImageWithDeviceMapper name w) : devices r.2 = devices w ∧
    match r.1 with
    | Ret _ => name ∉ images w ∧ images r.2 = {[name]} ∪ images w
    | _ => images r.2 = images w
    end;
  unmap_image_effect name w (r := im_UnmapImageIfExists name w) : devices r.2 = devices w ∧
    match r.1 with Ret _ => images r.2 = images w ∖ {[name]} | _ => images r.2 = images w end;
  read_idle p : idle (ReadFileToString p);
  access_idle p : idle (access_F_OK p);
  clock_idle : idle clock_now;
  size_idle p : idle (block_device_size p);
  wait_idle p ms : idle (WaitForFile_ p ms);
  uevent_idle p : idle (uevent_regen_callback p);
  state_idle name : idle (dm_GetState name);
  path_idle name : idle (dm_GetDmDevicePathByName name);
  string_idle name : idle (dm_GetDeviceString name);
  open_images_idle : idle OpenImageManager;
  mapped_idle name : idle (im_GetMappedImageDevice name);
  start_idle : idle EnsureSnapuserdStarted;
  connect_idle : idle SnapuserdClient_Connect;
  init_idle a b c d : idle (client_InitDmUserCow a b c d);
  attach_idle name : idle (client_AttachDmUser name);
}.
Create HintDb idle.
#[export] Hint Resolve read_idle access_idle clock_idle size_idle wait_idle uevent_idle state_idle path_idle string_idle
  open_images_idle mapped_idle start_idle connect_idle init_idle attach_idle : idle.

Section Tracking.
Context `{HSP : !SnapProto} {W : Type} `{!SnapWorld W, HDL : !DeviceLaws W} (info : DeviceInfo).
Local Abbreviation M := (SnapshotManager W).
Local Abbreviation C := (WithDevices W).
Definition dv (s : M) : gset bytes := devices (sm_world s).
Definition iv (s : M) : gset bytes := images (sm_world s).
(** Nothing is mapped or taken away, and the image manager stays open. *)
Definition still (s s' : M) : Prop := dv s' = dv s ∧ iv s' = iv s ∧ (images_ s = true → images_ s' = true).
#[export] Instance still_preorder : PreOrder still.
Proof.
  split; [by intros s|]. intros s1 s2 s3 (H1 & H2 & H3) (H4 & H5 & H6). split_and!; [congruence..|auto].
Qed.
Definition keepsI {A} (m : IO M A) : Prop := ∀ s, still s (m s).2.
Lemma idle_still {A} (m : IO W A) : idle m → keepsI (on_world m).
Proof. intros H s. destruct (H (sm_world s)). by split_and!. Qed.
Lemma idle_bind {A B} (m : IO M A) (f : A → IO M B) : keepsI m → (∀ a, keepsI (f a)) → keepsI (m ≫= f).
Proof.
  intros Hm Hf s. specialize (Hm s). unfold mbind, io_mbind. destruct (m s) as [[a| |] s1]; simpl in *; [|done..].
  etrans; [exact Hm|apply Hf].
Qed.
Lemma idle_lift {A} (m : outcome A) : keepsI (lift m).
Proof. by intros s. Qed.
Lemma idle_ret {A} (a : A) : keepsI (mret a).
Proof. by intros s. Qed.
Lemma idle_modify f : (∀ s, still s (f s)) → keepsI (modify f).
Proof. intros H s. apply H. Qed.
Lemma idle_get : keepsI get.
Proof. by intros s. Qed.

(** [m] makes a device, or an image, of this name, or nothing; it may [leak] the device when
    it fails. *)
Definition makes (leak : bool) (name : bytes) {A} (m : IO M A) : Prop := ∀ s,
  let r := m s in iv r.2 = iv s ∧ (images_ s = true → images_ r.2 = true) ∧
  match r.1 with
  | Ret _ => name ∉ dv s ∧ name ≠ [] ∧ dv r.2 = {[name]} ∪ dv s
  | Reject => dv r.2 = dv s ∨ leak = true ∧ name ∉ dv s ∧ dv r.2 = {[name]} ∪ dv s
  | Crash => True
  end.
Definition makes_image (name : bytes) {A} (m : IO M A) : Prop := ∀ s,
  let r := m s in dv r.2 = dv s ∧ (images_ s = true → images_ r.2 = true) ∧
  match r.1 with
  | Ret _ => name ∉ iv s ∧ name ≠ [] ∧ iv r.2 = {[name]} ∪ iv s ∧ images_ r.2 = true
  | Reject => iv r.2 = iv s
  | Crash => True
  end.
Lemma makes_create leak name table ms : makes leak name (on_world (dm_CreateDevice name table ms)).
Proof.
  intros s. destruct (create_device_effect name table ms (sm_world s)) as [Hi Hd]. simpl. split_and!; [done|done|].
  destruct (dm_CreateDevice name table ms (sm_world s)) as [[| |] w]; simpl in *; [done|by left|done].
Qed.
Lemma makes_after leak name {A B} (m : IO M A) (f : A → IO M B) :
  keepsI m → (∀ a, makes leak name (f a)) → makes leak name (m ≫= f).
Proof.
  intros Hm Hf s. specialize (Hm s). unfold mbind, io_mbind. destruct (m s) as [[a| |] s1]; simpl in *;
    destruct Hm as (H1 & H2 & H3); [|by split_and!; [..|left]|by split_and!].
  destruct (Hf a s1) as (H4 & H5 & H6). unfold dv, iv in *. rewrite H1, H2 in *. split_and!; auto.
Qed.
Lemma makes_lift leak name {A B} (m : outcome A) (f : A → IO M B) :
  (∀ a, m = Ret a → makes leak name (f a)) → makes leak name (lift m ≫= f).
Proof. intros Hf s. unfold mbind, io_mbind, lift. destruct m as [a| |]; [by apply Hf|by split_and!; [..|left]|by split_and!]. Qed.
(** What comes after the device was made may fail. *)
Lemma makes_then name {A B} (m : IO M A) (f : A → IO M B) :
  makes true name m → (∀ a, keepsI (f a)) → makes true name (m ≫= f).
Proof.
  intros Hm Hf s. specialize (Hm s). unfold mbind, io_mbind. destruct (m s) as [[a| |] s1]; simpl in *;
    destruct Hm as (H1 & H2 & H3); [|by split_and!|by split_and!].
  specialize (Hf a s1). destruct Hf as (H4 & H5 & H6). destruct H3 as (H7 & H8 & H9).
  destruct (f a s1) as [[| |] s2]; simpl in *; rewrite ?H4, ?H5; split_and!; auto; try (right; by split_and!).
Qed.

(** ** The list of what was made *)

Definition names (l : list AutoDevice) : gset bytes :=
  list_to_set (omap (λ d, match d with AutoUnmapDevice name => Some name | _ => None end) l).
Definition image_names (l : list AutoDevice) : gset bytes :=
  list_to_set (omap (λ d, match d with AutoUnmapImage name => Some name | _ => None end) l).
Definition no_snapshots (l : list AutoDevice) : Prop :=
  Forall (λ d, match d with AutoDeleteSnapshot _ => False | _ => True end) l.
Context (s0 : M).
(** The devices are those of [s0], those in the list and some of [E]. *)
Definition tracked (E : gset bytes) (c : C) : Prop :=
  no_snapshots c.2 ∧ [] ∉ names c.2 ∧ [] ∉ image_names c.2 ∧
  (∃ e, e ⊆ E ∧ dv c.1 = dv s0 ∪ names c.2 ∪ e ∧ names c.2 ## dv s0 ∧ e ## dv s0 ∪ names c.2) ∧
  iv c.1 = iv s0 ∪ image_names c.2 ∧ image_names c.2 ## iv s0 ∧ (image_names c.2 ≠ ∅ → images_ c.1 = true).
Definition tracks (E : gset bytes) {A} (m : IO C A) : Prop := ∀ c, tracked ∅ c →
  match (m c).1 with Ret _ => tracked ∅ (m c).2 | Reject => tracked E (m c).2 | Crash => True end.
Definition ends (E : gset bytes) {A} (m : IO C A) : Prop := ∀ c, tracked ∅ c →
  match (m c).1 with Reject => tracked E (m c).2 | _ => True end.
Lemma tracked_weaken E E' c : E ⊆ E' → tracked E c → tracked E' c.
Proof. intros HE (H1 & H2 & H3 & (e & He & H4) & H5). split_and!; try done; [|tauto..]. exists e. split; [set_solver|done]. Qed.
Lemma tracked_still E c s : tracked E c → still c.1 s → tracked E (s, c.2).
Proof.
  intros (H1 & H2 & H3 & (e & He & H4 & H5 & H6) & H7 & H8 & H9) (Hd & Hi & Ho). unfold tracked. simpl. rewrite Hd, Hi.
  split_and!; try done; [|auto]. by exists e.
Qed.
Lemma tracks_ends E {A} (m : IO C A) : tracks E m → ends E m.
Proof. intros H c Hc. specialize (H c Hc). by destruct (m c) as [[]]. Qed.
Lemma ends_bind E {A B} (m : IO C A) (f : A → IO C B) : tracks E m → (∀ a, ends E (f a)) → ends E (m ≫= f).
Proof.
  intros Hm Hf c Hc. specialize (Hm c Hc). unfold mbind, io_mbind. destruct (m c) as [[a| |] c1]; simpl in *; [|done..].
  by apply Hf.
Qed.
Lemma tracks_bind E {A B} (m : IO C A) (f : A → IO C B) : tracks E m → (∀ a, tracks E (f a)) → tracks E (m ≫= f).
Proof.
  intros Hm Hf c Hc. specialize (Hm c Hc). unfold mbind, io_mbind. destruct (m c) as [[a| |] c1]; simpl in *; [|done..].
  by apply Hf.
Qed.
Lemma tracks_ret E {A} (a : A) : tracks E (mret a).
Proof. by intros c Hc. Qed.
Lemma tracks_lift E {A} (m : outcome A) : tracks E (lift m).
Proof. intros c Hc. destruct m; [done| |done]. by apply (tracked_weaken ∅); [set_solver|]. Qed.
Lemma tracks_still E {A} (m : IO M A) : keepsI m → tracks E (on_manager m).
Proof.
  intros H c Hc. specialize (H c.1). unfold on_manager. destruct (m c.1) as [[a| |] s1]; simpl in *; [| |done].
  - by apply tracked_still.
  - apply (tracked_weaken ∅); [set_solver|]. by apply tracked_still.
Qed.
Lemma device_snoc l name : names (l ++ [AutoUnmapDevice name]) = names l ∪ {[name]} ∧
  image_names (l ++ [AutoUnmapDevice name]) = image_names l.
Proof. unfold names, image_names. rewrite !omap_app, !list_to_set_app_L. simpl. set_solver. Qed.
Lemma image_snoc l name : names (l ++ [AutoUnmapImage name]) = names l ∧
  image_names (l ++ [AutoUnmapImage name]) = image_names l ∪ {[name]}.
Proof. unfold names, image_names. rewrite !omap_app, !list_to_set_app_L. simpl. set_solver. Qed.
Lemma tracks_makes E leak name {A B} (m : IO M A) (f : A → IO C B) :
  makes leak name m → (leak = true → name ∈ E) → (∀ a, tracks E (f a)) →
  tracks E (a ← on_manager m; _ ← EmplaceBack (AutoUnmapDevice name); f a).
Proof.
  intros Hm HE Hf c Hc. specialize (Hm c.1). unfold on_manager, EmplaceBack, mbind, io_mbind.
  destruct (m c.1) as [[a| |] s1]; simpl in *; destruct Hm as (Hi & Ho & Hd); [| |done].
  - apply Hf. destruct Hd as (Hn & Hne & Hd), Hc as (H1 & H2 & H3 & (e & He & H4 & H5 & H6) & H7 & H8 & H9).
    assert (e = ∅) as -> by set_solver.
    destruct (device_snoc c.2 name) as [Hs1 Hs2].
    unfold tracked. simpl. rewrite Hs1, Hs2, Hd, Hi. rewrite H4 in *.
    split_and!; [apply Forall_app; split; [done|by constructor]|set_solver|done| |done|done|auto].
    exists ∅. split_and!; set_solver.
  - destruct Hc as (H1 & H2 & H3 & (e & He & H4 & H5 & H6) & H7 & H8 & H9). assert (e = ∅) as -> by set_solver.
    unfold tracked. simpl. rewrite Hi. split_and!; [done..| |done|done|auto].
    destruct Hd as [Hd|(Hl & Hn & Hd)]; rewrite Hd, H4 in *.
    + exists ∅. by split_and!; [set_solver|..].
    + exists {[name]}. split_and!; [set_solver|set_solver|done|set_solver].
Qed.
Lemma tracks_makes_image E name {A} (m : IO M A) : makes_image name m →
  tracks E (_ ← on_manager m; EmplaceBack (AutoUnmapImage name)).
Proof.
  intros Hm c Hc. specialize (Hm c.1). unfold on_manager, EmplaceBack, mbind, io_mbind.
  destruct (m c.1) as [[a| |] s1]; simpl in *; destruct Hm as (Hd & Ho & Hi); [| |done].
  - destruct Hi as (Hn & Hne & Hi & Hon), Hc as (H1 & H2 & H3 & (e & He & H4 & H5 & H6) & H7 & H8 & H9).
    assert (e = ∅) as -> by set_solver.
    destruct (image_snoc c.2 name) as [Hs1 Hs2].
    unfold tracked. simpl. rewrite Hs1, Hs2, Hd, Hi. rewrite H7 in *.
    split_and!; [apply Forall_app; split; [done|by constructor]|done|set_solver| |set_solver|set_solver|done].
    by exists ∅.
  - apply (tracked_weaken ∅); [set_solver|]. apply tracked_still; [done|]. by split_and!.
Qed.

(** ** Taking it all away *)

Context (delete_works : ∀ name w, (dm_DeleteDeviceIfExists name w).1 = Ret ()).
Context (unmap_works : ∀ name w, (im_UnmapImageIfExists name w).1 = Ret ()).
Lemma destroyed l (s : M) : no_snapshots l → [] ∉ names l → [] ∉ image_names l →
  (image_names l ≠ ∅ → images_ s = true) →
  ∃ s', io_each (destroy info) l s = (Ret (), s') ∧ dv s' = dv s ∖ names l ∧ iv s' = iv s ∖ image_names l.
Proof using delete_works unmap_works HDL.
  revert s. induction l as [|d l IH]; intros s Hl Hn Hin Ho.
  { exists s. split; [done|]. unfold names, image_names. simpl. set_solver. }
  apply Forall_cons in Hl as [Hd Hl]. destruct d as [name|name|name]; [| |done].
  - change (names (AutoUnmapDevice name :: l)) with ({[name]} ∪ names l) in *.
    change (image_names (AutoUnmapDevice name :: l)) with (image_names l) in *.
    destruct (delete_device_effect name (sm_world s)) as [Hi Hdv]. pose proof (delete_works name (sm_world s)) as Hr.
    destruct (dm_DeleteDeviceIfExists name (sm_world s)) as [r w] eqn:E; simpl in *; subst r.
    destruct (IH (with_world w s)) as (s' & Hs & H1 & H2); [done|set_solver|done|done|].
    exists s'. assert (Hs' : destroy info (AutoUnmapDevice name) s = (Ret (), with_world w s)).
    { unfold destroy. rewrite decide_False by set_solver. unfold ignore, try_, on_world, mbind, io_mbind. by rewrite E. }
    rewrite (io_bind_eq _ _ _ _ _ Hs'). split; [done|]. unfold dv, iv in *. simpl in *. rewrite H1, H2, Hdv, Hi.
    split; [set_solver|done].
  - change (names (AutoUnmapImage name :: l)) with (names l) in *.
    change (image_names (AutoUnmapImage name :: l)) with ({[name]} ∪ image_names l) in *.
    destruct (unmap_image_effect name (sm_world s)) as [Hi Hdv]. pose proof (unmap_works name (sm_world s)) as Hr.
    destruct (im_UnmapImageIfExists name (sm_world s)) as [r w] eqn:E; simpl in *; subst r.
    assert (Hon : images_ s = true) by (apply Ho; set_solver).
    destruct (IH (with_world w s)) as (s' & Hs & H1 & H2); [done|done|set_solver|done|].
    exists s'. assert (Hs' : destroy info (AutoUnmapImage name) s = (Ret (), with_world w s)).
    { unfold destroy. rewrite decide_False by set_solver.
      unfold ignore, try_, on_images, get, lift, CHECK, on_world, mbind, io_mbind. rewrite decide_True by done. by rewrite E. }
    rewrite (io_bind_eq _ _ _ _ _ Hs'). split; [done|]. unfold dv, iv in *. simpl in *. rewrite H1, H2, Hdv, Hi.
    split; [done|set_solver].
Qed.
Lemma elem_of_rev {A} (x : A) l : x ∈ rev l ↔ x ∈ l.
Proof. rewrite !list_elem_of_In. symmetry. apply in_rev. Qed.
Lemma names_rev l : names (rev l) = names l.
Proof. unfold names. apply set_eq. intros x. rewrite !elem_of_list_to_set, !list_elem_of_omap. by setoid_rewrite elem_of_rev. Qed.
Lemma image_names_rev l : image_names (rev l) = image_names l.
Proof. unfold image_names. apply set_eq. intros x. rewrite !elem_of_list_to_set, !list_elem_of_omap. by setoid_rewrite elem_of_rev. Qed.
Lemma tracked_start : tracked ∅ (s0, []).
Proof. unfold tracked, names, image_names. simpl. split_and!; [constructor|set_solver|set_solver|exists ∅; set_solver|set_solver|set_solver|done]. Qed.
(** A program that fails has mapped nothing, but for [E]. *)
Lemma with_devices_fails E {A} (m : IO C A) (r := with_devices info m s0) :
  ends E m → r.1 = Reject → (∃ e, e ⊆ E ∧ e ## dv s0 ∧ dv r.2 = dv s0 ∪ e) ∧ iv r.2 = iv s0.
Proof using delete_works unmap_works HDL.
  intros Hm. subst r. specialize (Hm _ tracked_start). unfold with_devices.
  destruct (m (s0, [])) as [r [s1 l]]. simpl in Hm. destruct r; [| |done].
  { destruct (destroy_all info l s1) as [[] s2]; done. }
  destruct Hm as (H1 & H2 & H3 & (e & He & H4 & H5 & H6) & H7 & H8 & H9). simpl in *.
  destruct (destroyed (rev l) s1) as (s2 & Hs & Hd & Hi).
  { unfold no_snapshots. by apply Forall_rev. }
  { by rewrite names_rev. }
  { by rewrite image_names_rev. }
  { by rewrite image_names_rev. }
  unfold destroy_all. rewrite Hs. intros _. simpl. rewrite names_rev, image_names_rev in *. split.
  - exists e. split_and!; [done|set_solver|]. rewrite Hd, H4. set_solver.
  - rewrite Hi, H7. set_solver.
Qed.
End Tracking.

(** ** Mapping a partition *)

Section Mapping.
Context `{HSP : !SnapProto} {W : Type} `{!SnapWorld W, HDL : !DeviceLaws W} (info : DeviceInfo).
Context (sha256 : bytes → bytes) (nothrow_new : Z → bool) {D : Type} `{!BlockIO D}.
Context (opener default_opener : @IPartitionOpener D) (Realpath : bytes → option bytes).
Local Abbreviation M := (SnapshotManager W).
Local Abbreviation C := (WithDevices W).

Lemma idle_try {A} (m : IO M A) : keepsI m → keepsI (try_ m).
Proof. intros Hm s. specialize (Hm s). unfold try_. by destruct (m s) as [[a| |] s1]. Qed.
Lemma idle_images {A} (m : IO W A) : idle m → keepsI (on_images m).
Proof. intros. apply idle_bind; [apply idle_get|intros]. apply idle_bind; [apply idle_lift|intros]. by apply idle_still. Qed.
Lemma idle_client {A} (m : IO W A) : idle m → keepsI (on_client m).
Proof. intros. apply idle_bind; [apply idle_get|intros]. apply idle_bind; [apply idle_lift|intros]. by apply idle_still. Qed.
Ltac idles := repeat match goal with
  | |- keepsI (_ ≫= _) => apply idle_bind; [|intros ?]
  | |- keepsI (mret _) => apply idle_ret
  | |- keepsI (lift _) => apply idle_lift
  | |- keepsI get => apply idle_get
  | |- keepsI (try_ _) => apply idle_try
  | |- keepsI (modify _) => apply idle_modify; intros ?; by split_and!
  | |- keepsI (on_images _) => apply idle_images; auto with idle nocore
  | |- keepsI (on_client _) => apply idle_client; auto with idle nocore
  | |- keepsI (on_world _) => apply idle_still; auto with idle nocore
  | |- keepsI (match ?x with _ => _ end) => destruct x
  | |- keepsI (if ?x then _ else _) => destruct x
  | |- keepsI _ => solve [auto with idle nocore]
  end.
Lemma idle_time_left timeout begin_ : keepsI (W := W) (time_left timeout begin_).
Proof. unfold time_left, GetRemainingTime. idles. Qed.
Lemma idle_wait_device device timeout : keepsI (W := W) (WaitForDevice info device timeout).
Proof. unfold WaitForDevice. idles. Qed.
Lemma idle_image_path name : keepsI (W := W) (GetMappedImageDevicePath name).
Proof. unfold GetMappedImageDevicePath. idles. Qed.
Lemma idle_image_string name : keepsI (W := W) (GetMappedImageDeviceStringOrPath name).
Proof. unfold GetMappedImageDeviceStringOrPath. idles. Qed.
Lemma idle_read_status name : keepsI (W := W) (ReadSnapshotStatus info name).
Proof. unfold ReadSnapshotStatus. idles. Qed.
Lemma idle_read_update : keepsI (W := W) (ReadSnapshotUpdateStatus info).
Proof. unfold ReadSnapshotUpdateStatus. idles. Qed.
Lemma idle_ensure_images : keepsI (W := W) EnsureImageManager.
Proof. unfold EnsureImageManager. idles. Qed.
Lemma idle_ensure_client : keepsI (W := W) (EnsureSnapuserdConnected info).
Proof. unfold EnsureSnapuserdConnected. idles. Qed.
Hint Resolve idle_time_left idle_wait_device idle_image_path idle_image_string idle_read_status idle_read_update
  idle_ensure_images idle_ensure_client : idle.
Lemma idle_uses : keepsI (W := W) (UpdateUsesUserSnapshots info).
Proof. unfold UpdateUsesUserSnapshots. idles. Qed.
Hint Resolve idle_uses : idle.
Lemma idle_driver : keepsI (W := W) (GetSnapshotDriver info).
Proof. unfold GetSnapshotDriver. idles. Qed.
Lemma idle_old_metadata : keepsI (W := W) (ReadOldPartitionMetadata info sha256 nothrow_new).
Proof. unfold ReadOldPartitionMetadata. idles. Qed.
Lemma idle_live part name : keepsI (W := W) (live_snapshot info part name).
Proof. unfold live_snapshot. idles. Qed.
Lemma idle_cow_table params cow image status :
  keepsI (W := W) (cow_table sha256 nothrow_new default_opener Realpath params cow image status).
Proof. unfold cow_table. idles. Qed.
Lemma idle_check_sizes status base : keepsI (W := W) (check_sizes status base).
Proof. unfold check_sizes. idles. Qed.
Lemma idle_check_unmerged name : keepsI (W := W) (check_unmerged info name).
Proof. unfold check_unmerged. idles. Qed.
Lemma idle_sectors uses a b c d : keepsI (W := W) (dm_user_sectors uses a b c d).
Proof. unfold dm_user_sectors. idles. Qed.
Lemma idle_attach a b c d e timeout : keepsI (W := W) (attach_dm_user info a b c d e timeout).
Proof. unfold attach_dm_user. idles. Qed.
Hint Resolve idle_driver idle_old_metadata idle_live idle_cow_table idle_check_sizes idle_check_unmerged idle_sectors
  idle_attach : idle.

(** ** What makes a device *)

Lemma makes_logical name p :
  (∀ q, InitDefaults sha256 nothrow_new default_opener p = Ret q → fp_device_name q = name) →
  makes false name (MapLogicalPartition (W := W) sha256 nothrow_new default_opener Realpath p).
Proof.
  intros Hn. unfold MapLogicalPartition. apply makes_lift. intros q Hq. apply makes_lift. intros table _.
  rewrite <-(Hn q Hq). apply makes_create.
Qed.
Lemma makes_source name timeout :
  makes false (GetSourceDeviceName name)
    (MapSourceDevice (W := W) info sha256 nothrow_new opener default_opener Realpath name timeout).
Proof.
  unfold MapSourceDevice. apply makes_after; [idles|intros m]. apply makes_lift. intros old _. apply makes_logical.
  intros q Hq. unfold InitDefaults in Hq. inv_ret. simpl. rewrite decide_False; [done|].
  unfold GetSourceDeviceName. by destruct name.
Qed.
Lemma makes_snapshot name base cow timeout : makes false name (MapSnapshot (W := W) info name base cow timeout).
Proof.
  unfold MapSnapshot. apply makes_after; [idles|intros status]. apply makes_lift. intros _ _.
  apply makes_after; [idles|intros _]. apply makes_after; [idles|intros u]. do 2 (apply makes_lift; intros ? _).
  apply makes_create.
Qed.
(** A failure after the device was made leaves it. *)
Lemma makes_dm_user name cow base merge timeout : makes true name (MapDmUserCow (W := W) info name cow base merge timeout).
Proof.
  unfold MapDmUserCow. apply makes_after; [idles|intros uses]. apply makes_after; [idles|intros _].
  apply makes_after; [idles|intros _]. apply makes_after; [idles|intros uses']. apply makes_after; [idles|intros sectors].
  apply makes_lift. intros table _. apply makes_then; [apply makes_create|intros path]. idles.
Qed.
Lemma makes_cow_image name timeout : makes_image (GetCowImageDeviceName name) (MapCowImage (W := W) info name timeout).
Proof.
  intros s. unfold MapCowImage. assert (He := idle_ensure_images s). unfold mbind, io_mbind.
  assert (Hon : (EnsureImageManager s).1 = Ret () → images_ (EnsureImageManager s).2 = true).
  { unfold EnsureImageManager, get, mbind, io_mbind, on_world, modify. destruct (images_ s) eqn:E; [done|].
    by destruct (OpenImageManager (sm_world s)) as [[]]. }
  destruct (EnsureImageManager s) as [[[]| |] s1]; simpl in *; destruct He as (Hd & Hi & Ho); [|by split_and!|by split_and!].
  specialize (Hon eq_refl).
  assert (H : ∀ m : IO W bytes, (∀ w, let r := m w in devices r.2 = devices w ∧ match r.1 with
      | Ret _ => GetCowImageDeviceName name ∉ images w ∧ images r.2 = {[GetCowImageDeviceName name]} ∪ images w
      | _ => images r.2 = images w end) →
    let r := on_images m s1 in dv r.2 = dv s ∧ (images_ s = true → images_ r.2 = true) ∧ match r.1 with
      | Ret _ => GetCowImageDeviceName name ∉ iv s ∧ GetCowImageDeviceName name ≠ [] ∧
                 iv r.2 = {[GetCowImageDeviceName name]} ∪ iv s ∧ images_ r.2 = true
      | Reject => iv r.2 = iv s
      | Crash => True end).
  { intros m Hm. specialize (Hm (sm_world s1)). unfold on_images, get, lift, CHECK, on_world, mbind, io_mbind.
    rewrite decide_True by done. unfold dv, iv in *. destruct (m (sm_world s1)) as [[]]; simpl in *; rewrite ?Hd, ?Hi in Hm;
      destruct Hm as [H1 H2]; split_and!; try done; try tauto. by destruct name. }
  destruct (IsRecovery info || IsFirstStageInit info); apply H; intros w; [apply map_image_dm_effect|apply map_image_effect].
Qed.

(** ** The devices of a partition *)

Context (s0 : M).
Local Abbreviation tracks := (tracks s0).
Local Abbreviation ends := (ends s0).
Local Abbreviation MapCowDevices := (MapCowDevices info sha256 nothrow_new default_opener Realpath).
Local Abbreviation map_dm_user := (map_dm_user info sha256 nothrow_new opener default_opener Realpath).
Local Abbreviation map_live_snapshot := (map_live_snapshot info sha256 nothrow_new opener default_opener Realpath).
Local Abbreviation map_partition := (map_partition info sha256 nothrow_new opener default_opener Realpath).
Lemma tracks_cow_image E name timeout begin_ status : tracks E (map_cow_image info name timeout begin_ status).
Proof using All.
  unfold map_cow_image. case_decide; [|apply tracks_ret]. do 2 (apply tracks_bind; [apply tracks_still; idles|intros ?]).
  apply tracks_makes_image, makes_cow_image.
Qed.
Lemma tracks_cow_devices E params status : tracks E (MapCowDevices params status).
Proof using All.
  unfold SnapMap.MapCowDevices. apply tracks_bind; [apply tracks_lift|intros _].
  apply tracks_bind; [apply tracks_still; idles|intros begin_]. apply tracks_bind; [apply tracks_cow_image|intros _].
  case_decide; [apply tracks_ret|]. apply tracks_bind; [apply tracks_still; idles|intros remaining].
  apply tracks_bind; [apply tracks_lift|intros _]. apply tracks_bind; [apply tracks_still; idles|intros table].
  eapply tracks_makes; [apply (makes_create false)|done|intros _; apply tracks_ret].
Qed.
(** The names of the device of the daemon. *)
Definition dm_user_names (name : bytes) : gset bytes := {[GetDmUserCowName name DM_SNAPSHOT; GetDmUserCowName name DM_USER]}.
Lemma tracks_dm_user name base cow status timeout begin_ remaining :
  tracks (dm_user_names name) (map_dm_user name base cow status timeout begin_ remaining).
Proof using All.
  unfold SnapMap.map_dm_user. apply tracks_bind; [|intros source].
  { case_decide; [|apply tracks_ret]. eapply tracks_makes; [apply makes_source|done|intros; apply tracks_ret]. }
  do 3 (apply tracks_bind; [apply tracks_still; idles|intros ?]). apply tracks_bind; [apply tracks_still; idles|intros driver].
  eapply tracks_makes; [apply makes_dm_user|intros _; unfold dm_user_names; destruct driver; set_solver|intros path].
  apply tracks_bind; [apply tracks_still; idles|intros; apply tracks_ret].
Qed.
Lemma ends_last E {A B} (m : IO C A) (f : A → IO C B) : ends E m → (∀ a c, (f a c).1 ≠ Reject) → ends E (m ≫= f).
Proof.
  intros Hm Hf c Hc. specialize (Hm c Hc). unfold mbind, io_mbind. destruct (m c) as [[a| |] c1]; simpl in *; [|done..].
  specialize (Hf a c1). by destruct (f a c1) as [[]].
Qed.
Lemma ends_makes E name {A} (m : IO M A) : makes false name m → ends E (on_manager m).
Proof.
  intros Hm c Hc. specialize (Hm c.1). unfold on_manager. destruct (m c.1) as [[a| |] s1]; simpl in *; [done| |done].
  destruct Hm as (Hi & Ho & [Hd|[? _]]); [|done]. apply (tracked_weaken s0 ∅); [set_solver|].
  by apply tracked_still.
Qed.
Lemma ends_makes_then E name {A B} (m : IO M A) (f : A → IO C B) :
  makes false name m → (∀ a, ends E (f a)) → ends E (a ← on_manager m; _ ← EmplaceBack (AutoUnmapDevice name); f a).
Proof.
  intros Hm Hf c Hc.
  assert (Ht : tracks E (a ← on_manager m; _ ← EmplaceBack (AutoUnmapDevice name); mret a)).
  { eapply tracks_makes; [exact Hm|done|intros; apply tracks_ret]. }
  specialize (Ht c Hc). unfold on_manager, EmplaceBack, mret, io_mret, mbind, io_mbind in *.
  destruct (m c.1) as [[a| |] s1]; simpl in *; [by apply Hf|done..].
Qed.
(** Whether the leaked device of the daemon is possible. *)
Definition leak_of (name : bytes) (status : SnapshotStatus) : gset bytes :=
  if st_using_snapuserd status then dm_user_names name else ∅.
Lemma ends_live params name base context status begin_ :
  ends (leak_of name status) (map_live_snapshot params name base context status begin_).
Proof using All.
  unfold SnapMap.map_live_snapshot, leak_of. do 2 (apply ends_bind; [apply tracks_still; idles|intros ?]).
  apply ends_bind; [apply tracks_cow_devices|intros cow]. do 2 (apply ends_bind; [apply tracks_still; idles|intros ?]).
  case_decide; [intros c _; done|]. apply ends_bind; [|intros [cow_device remaining]].
  { destruct (st_using_snapuserd status); [apply tracks_dm_user|apply tracks_ret]. }
  apply ends_bind; [apply tracks_still; idles|intros uses]. apply ends_last; [|done].
  destruct uses; simpl; [apply tracks_ends, tracks_ret|]. eapply ends_makes, makes_snapshot.
Qed.
Definition leaks (name : bytes) (live : option SnapshotStatus) : gset bytes :=
  match live with Some status => leak_of name status | None => ∅ end.
Lemma base_device_name p q live : InitDefaults sha256 nothrow_new default_opener (base_params p live) = Ret q →
  fp_device_name q = params_GetDeviceName (base_params p live).
Proof.
  intros H. unfold InitDefaults in H. inv_ret. simpl. unfold params_GetDeviceName, params_GetPartitionName.
  destruct live; simpl in *.
  - inv_ret. case_decide as Hd; case_decide as Hd'; try done. case_decide; [|done].
    match goal with H : _ ∨ _ |- _ => destruct H as [H|H] end; congruence.
  - inv_ret. case_decide as Hd; case_decide as Hd'; try done. case_decide; [|done].
    match goal with H : _ ∨ _ |- _ => destruct H as [H|H] end; congruence.
Qed.
Lemma ends_partition p name context live begin_ :
  ends (leaks name live) (map_partition (base_params p live) name context live begin_).
Proof using All.
  unfold SnapMap.map_partition. intros c Hc.
  assert (H : ∀ base, ends (leaks name live) (
    remaining_time ← on_manager (time_left (timeout_ms (base_params p live)) begin_);
    _ ← on_manager (WaitForDevice info base remaining_time);
    match live with
    | None => _ ← Release; mret (mkPaths base [] [])
    | Some status => map_live_snapshot (base_params p live) name base context status begin_
    end)).
  { intros base. do 2 (apply ends_bind; [apply tracks_still; idles|intros ?]).
    destruct live; [apply ends_live|intros c' _; done]. }
  exact (ends_makes_then _ (params_GetDeviceName (base_params p live)) _ _
    (makes_logical _ _ (λ q, base_device_name p q live)) H c Hc).
Qed.
End Mapping.

(** ** A mapping that fails *)

Section Failure.
Context `{HSP : !SnapProto} {W : Type} `{HW : SnapWorldLaws W, HDL : !DeviceLaws W} (info : DeviceInfo).
Context (sha256 : bytes → bytes) (nothrow_new : Z → bool) {D : Type} `{!BlockIO D}.
Context (opener default_opener : @IPartitionOpener D) (Realpath : bytes → option bytes).
Local Abbreviation M := (SnapshotManager W).

Lemma live_is_stored part name status (s : M) :
  (live_snapshot info part name s).1 = Ret (Some status) → snapshot_of info s name = Some status.
Proof using HW.
  unfold live_snapshot. case_decide; [done|]. unfold on_world, mbind at 1, io_mbind at 1.
  destruct (access_law (GetSnapshotStatusFilePath info name) (sm_world s)) as (_ & Hf & _).
  destruct (access_F_OK _ _) as [[[]| |] w]; simpl in *; try done.
  destruct (read_snapshot info name (with_world w s)) as (s' & Hr & _).
  assert (snapshot_of info (with_world w s) name = snapshot_of info s name) as E.
  { unfold snapshot_of, disk. simpl. by rewrite Hf. }
  unfold mbind, io_mbind. rewrite Hr, E. destruct (snapshot_of info s name) as [st|]; simpl; [|done].
  unfold lift. case_decide; simpl; [done|]. case_decide; simpl; [done|]. by intros [= ->].
Qed.
(** What a failed mapping leaves. *)
Definition left_behind (p : @CreateLogicalPartitionParams D) (s s' : M) : Prop :=
  iv s' = iv s ∧ ∃ kept, dv s' = dv s ∪ kept ∧ kept ## dv s ∧
    (kept ≠ ∅ → ∃ q status, InitDefaults sha256 nothrow_new default_opener p = Ret q ∧
      snapshot_of info s (fp_partition_name q) = Some status ∧ st_using_snapuserd status = true ∧
      kept ⊆ dm_user_names (fp_partition_name q)).
Lemma still_left p s s' : still s s' → left_behind p s s'.
Proof. intros (Hd & Hi & _). split; [done|]. exists ∅. split_and!; [set_solver|set_solver|done]. Qed.
(** Nothing but a device of the daemon stays. *)
Lemma mapping_fails (p : @CreateLogicalPartitionParams D) (context : SnapshotContext) (s : M)
    (delete_works : ∀ name w, (dm_DeleteDeviceIfExists name w).1 = Ret ())
    (unmap_works : ∀ name w, (im_UnmapImageIfExists name w).1 = Ret ()) :
  let r := MapPartitionWithSnapshot info sha256 nothrow_new opener default_opener Realpath p context s in
  r.1 = Reject → left_behind p s r.2.
Proof using HDL HW.
  unfold MapPartitionWithSnapshot, on_world, lift, mbind, io_mbind. cbv zeta.
  assert (Hw : still s (with_world (clock_now (sm_world s)).2 s)) by (destruct (clock_idle (sm_world s)); by split_and!).
  destruct (clock_law (sm_world s)) as (_ & Hf & _).
  destruct (clock_now (sm_world s)) as [[begin_| |] w]; simpl in *; [|intros _; apply still_left; exact Hw|done].
  destruct (require _) as [[]| |]; simpl; [|intros _; apply still_left; exact Hw|done].
  destruct (InitDefaults _ _ _ p) as [q| |] eqn:Eq; simpl; [|intros _; apply still_left; exact Hw|done].
  case_decide; [done|]. pose proof (live_is_stored (fp_partition q) (fp_partition_name q)) as Hl.
  pose proof (idle_live info (fp_partition q) (fp_partition_name q) (with_world w s)) as Hi.
  specialize (λ st, Hl st (with_world w s)).
  destruct (live_snapshot info _ _ (with_world w s)) as [[live| |] s1]; simpl in *;
    [|intros _; apply still_left; by etrans|done].
  assert (Hs : still s s1) by by etrans. destruct Hs as (Hd1 & Hi1 & _). intros Hr.
  apply (with_devices_fails info s1 delete_works unmap_works (leaks (fp_partition_name q) live)) in Hr as ((e & He & Hn & Hd) & Hv).
  2: { apply ends_partition. }
  unfold left_behind. rewrite Hv, Hd, Hd1, Hi1 in *. split; [done|]. exists e. split_and!; [done|done|].
  intros Hne. unfold leaks, leak_of in He. destruct live as [status|]; [|set_solver].
  destruct (st_using_snapuserd status) eqn:Eu; [|set_solver]. exists q, status. split_and!; try done.
  rewrite <-(Hl status eq_refl). unfold snapshot_of, disk. simpl. by rewrite Hf.
Qed.
End Failure.
