(* ===== verification/SnapSpec.v ===== *)
(** * The state machine that the manager implements

    [allowed] says which states of the update a call may leave behind, given the slot that
    runs and whether the update was [given_up]; every call stays within it in any world in
    which files that are there can be read, whatever else fails, and so does every sequence
    of calls. *)
From S2P Require Import Prelude Bytes LpFormat LpUtility Device LpReader LpBuilder DmTarget DeviceMapper.
From S2P Require Import DmLinear.
From S2P Require Import CowFormat CowReader SnapUpdate SnapCow SnapWorld SnapState SnapDevices SnapManager.
From S2P Require Import SnapMerge SnapMap SnapRecovery SnapCreate SnapFrame SnapMapped.

(** ** The machine *)

(** A merge is under way, has failed or waits for the clean-up. *)
Definition merging (x : UpdateState) : bool :=
  match x with UpdateState.Merging | UpdateState.MergeNeedsReboot | UpdateState.MergeFailed => true | _ => false end.
Definition is_state (y x : UpdateState) : bool := bool_decide (x = y).
(** While it is merged an update may end; before that it stays [Unverified], unless it was
    given up: [gu] says so. *)
Definition process_spec (gu : bool) (x y : UpdateState) : bool :=
  is_state x y ||
  is_state UpdateState.None y && negb (is_state UpdateState.Initiated x) &&
    (gu || negb (is_state UpdateState.Unverified x)) ||
  merging x && (merging y || is_state UpdateState.MergeCompleted y).
Definition cancel_spec (slot : Slot) (x y : UpdateState) : bool :=
  is_state x y || is_state UpdateState.None y &&
    match x with UpdateState.Initiated => true | UpdateState.Unverified => bool_decide (slot ≠ Target) | _ => false end.
Definition finish_spec (x y : UpdateState) : bool :=
  is_state x y || is_state UpdateState.Initiated x && is_state UpdateState.Unverified y.
Definition initiate_spec (slot : Slot) (x y : UpdateState) : bool :=
  is_state x y || bool_decide (slot = Target) && is_state UpdateState.Unverified x &&
    (is_state UpdateState.Merging y || is_state UpdateState.MergeFailed y).
(** The end of an earlier update. *)
Definition end_spec (slot : Slot) (gu : bool) (x y : UpdateState) : bool :=
  cancel_spec slot x y || process_spec gu x y.
(** An update begins only when there is none, or the earlier one could be ended. *)
Definition begin_spec (slot : Slot) (gu : bool) (x y : UpdateState) : bool :=
  end_spec slot gu x y || is_state UpdateState.Initiated y && end_spec slot gu x UpdateState.None.
(** On the slot that was updated, the merge may be started and even end. *)
Definition wipe_spec (slot : Slot) (gu : bool) (x y : UpdateState) : bool :=
  process_spec gu x y ||
  bool_decide (slot = Target) && is_state UpdateState.Unverified x &&
    (merging y || is_state UpdateState.MergeCompleted y || is_state UpdateState.None y).
(** When the data is wiped the update may be given up. *)
Definition data_wipe_spec (slot : Slot) (x y : UpdateState) : bool :=
  wipe_spec slot false x y || is_state UpdateState.None y.

(** Orders on states. *)
Definition transitions (T : UpdateState → UpdateState → bool) : relation UpdateState := λ x y, T x y = true.
Lemma transitions_preorder T :
  (∀ x, T x x = true) → (∀ x y z, T x y = true → T y z = true → T x z = true) → PreOrder (transitions T).
Proof. intros Hr Ht. by split; [intros x; apply Hr|intros x y z; apply Ht]. Qed.
#[export] Instance process_preorder : PreOrder (transitions (process_spec true)).
Proof. by apply transitions_preorder; [intros []|intros [] [] []]. Qed.
(** What a merge may do that was started on the way. *)
#[export] Instance wipe_preorder : PreOrder (transitions (wipe_spec Target true)).
Proof. by apply transitions_preorder; [intros []|intros [] [] []]. Qed.
#[export] Instance eq_preorder : PreOrder (@eq UpdateState).
Proof. split; apply _. Qed.

Section Spec.
Context `{HSP : !SnapProto} {W : Type} `{HW : SnapWorldLaws W} (info : DeviceInfo).
Context (sha256 : bytes → bytes) (nothrow_new : Z → bool) {D : Type} `{!BlockIO D}.
Context (opener default_opener : @IPartitionOpener D) (Realpath : bytes → option bytes).
Context (garbage : DmSnapshotStatus).
Context {F : Type} `{!CowFile F, !ICowDevices W F, HC : !CowDevicesLaws W F} (cow_fuel : nat) (page_size : Z).
Local Abbreviation M := (SnapshotManager W).
Local Abbreviation state_path := (GetStateFilePath info).
Local Abbreviation ustate := (update_state info).

(** ** Programs in a state *)

Definition moves (T : relation UpdateState) : relation M := λ s s', T (ustate s) (ustate s').
Definition elsewhere (p : bytes) : Prop := p ≠ state_path.
Lemma only_elsewhere s s' : only elsewhere s s' → ustate s' = ustate s.
Proof. intros [Hd _]. unfold update_state. by rewrite (same_update_status info s s') by (apply Hd; unfold elsewhere; intros Hn; by apply Hn). Qed.
#[export] Instance moves_preorder T : PreOrder T → PreOrder (moves T).
Proof. split; [intros s; unfold moves; reflexivity|intros s1 s2 s3; unfold moves; apply transitivity]. Qed.
#[local] Instance moves_frame T : PreOrder T → Frame (moves T) elsewhere.
Proof.
  intros HT. split.
  - apply _.
  - intros s s' E%only_elsewhere. unfold moves. by rewrite E.
  - apply not_eq_sym, state_not_indicator.
Qed.
#[local] Instance elsewhere_frame : Frame (only elsewhere) elsewhere.
Proof. apply only_frame. apply not_eq_sym, state_not_indicator. Qed.
Lemma elsewhere_status name : elsewhere (GetSnapshotStatusFilePath info name).
Proof. apply not_eq_sym, state_not_status. Qed.
Lemma elsewhere_status_tmp name : elsewhere (tmp (GetSnapshotStatusFilePath info name)).
Proof. apply not_eq_sym, state_not_status_tmp. Qed.
Lemma elsewhere_tmp : elsewhere (tmp state_path).
Proof. apply tmp_neq. Qed.
Hint Resolve elsewhere_status elsewhere_status_tmp elsewhere_tmp : keeps.

(** To one of the states in [Q], or nowhere. *)
Definition or_same (Q : UpdateState → Prop) : relation UpdateState := λ x y, y = x ∨ Q y.
#[local] Instance or_same_reflexive Q : Reflexive (or_same Q).
Proof. by left. Qed.
(** The program makes moves of [T] when it starts in [x]. *)
Definition from (x : UpdateState) (T : relation UpdateState) {A} (m : IO M A) : Prop :=
  ∀ s, ustate s = x → moves T s (m s).2.
Section From.
Context {T : relation UpdateState} `{!Reflexive T}.
Lemma from_same x {A} (m : IO M A) : keeps (only elsewhere) m → from x T m.
Proof. intros H s _. specialize (H s). apply only_elsewhere in H. unfold moves. by rewrite H. Qed.
Lemma from_keeps x {A} (m : IO M A) : keeps (moves T) m → from x T m.
Proof. by intros H s _. Qed.
Lemma keeps_from {A} (m : IO M A) : (∀ x, from x T m) → keeps (moves T) m.
Proof. intros H s. by apply (H (ustate s)). Qed.
(** Nothing is written to the state file before [f]. *)
Lemma from_bind x {A B} (m : IO M A) (f : A → IO M B) :
  keeps (only elsewhere) m → (∀ a, from x T (f a)) → from x T (m ≫= f).
Proof.
  intros Hm Hf s Hs. specialize (Hm s). unfold mbind, io_mbind.
  destruct (m s) as [[a| |] s1]; simpl in *; apply only_elsewhere in Hm; unfold moves; [|by rewrite Hm..].
  rewrite <-Hm. apply Hf. congruence.
Qed.
(** First moves of [T1], after which the program may be in [y]; [Q] is what it knows of the result. *)
Lemma from_then {A} (T1 : relation UpdateState) (Q : A → Prop) x {B} (m : IO M A) (f : A → IO M B) :
  from x T1 m → (∀ s a, ustate s = x → (m s).1 = Ret a → Q a) → (∀ y, T1 x y → T x y) →
  (∀ a y, Q a → T1 x y → from y (or_same (T x)) (f a)) → from x T (m ≫= f).
Proof.
  intros Hm HQ HT Hf s Hs. specialize (Hm s Hs). specialize (HQ s). unfold moves in *. rewrite Hs in *.
  unfold mbind, io_mbind. destruct (m s) as [[a| |] s1]; simpl in *; [|by apply HT..].
  destruct (Hf a (ustate s1) (HQ _ eq_refl eq_refl) Hm s1 eq_refl) as [->|]; auto.
Qed.
Lemma from_read_status x {B} (f : SnapshotUpdateStatus → IO M B) :
  (∀ u, us_state u = x → from x T (f u)) → from x T (ReadSnapshotUpdateStatus info ≫= f).
Proof.
  intros Hf s Hs. destruct (read_update_status info s) as (s1 & Hr & Hd). rewrite (io_bind_eq _ _ _ _ _ Hr).
  assert (E : ustate s1 = ustate s) by (apply only_elsewhere, same_disk_only, Hd).
  unfold moves. rewrite <-E. apply Hf; [done|congruence].
Qed.
Lemma from_read x {B} (f : UpdateState → IO M B) : from x T (f x) → from x T (ReadUpdateState info ≫= f).
Proof.
  intros Hf s Hs. destruct (read_update_state info s) as (s1 & Hr & Hd). rewrite (io_bind_eq _ _ _ _ _ Hr).
  assert (E : ustate s1 = ustate s) by (apply only_elsewhere, same_disk_only, Hd).
  specialize (Hf s1 (eq_trans E Hs)). unfold moves in *. rewrite E, Hs in Hf. by rewrite Hs.
Qed.
Lemma from_skip x {A B} (m : IO M A) (f : A → IO M B) : from x T m → (∀ a, keeps (only elsewhere) (f a)) →
  from x T (m ≫= f).
Proof.
  intros Hm Hf s Hs. specialize (Hm s Hs). unfold mbind, io_mbind. destruct (m s) as [[a| |] s1]; simpl in *; [|done..].
  specialize (Hf a s1). apply only_elsewhere in Hf. unfold moves in *. by rewrite Hf.
Qed.
Lemma from_slot x {B} (f : Slot → IO M B) :
  (∀ slot, from x T (f slot)) → from x T (GetCurrentSlot info ≫= f).
Proof. intros. apply from_bind; [keeps|done]. Qed.
Lemma from_ignore x {A} (m : IO M A) : from x T m → from x T (ignore m).
Proof. intros Hm s Hs. specialize (Hm s Hs). unfold ignore, try_, mbind, io_mbind. by destruct (m s) as [[a| |] s1]. Qed.
Lemma from_succeeds x {A} (m : IO M A) : from x T m → from x T (succeeds m).
Proof. intros Hm s Hs. specialize (Hm s Hs). unfold succeeds, try_, mbind, io_mbind. by destruct (m s) as [[a| |] s1]. Qed.
Lemma from_write x state code : T x state → from x T (WriteUpdateState info state code).
Proof.
  intros HT s Hs. destruct (write_state info state code s) as ([E|E] & _ & _ & _); unfold moves, update_state;
    rewrite E; [done|]. rewrite next_status_state. unfold update_state in Hs. by rewrite Hs.
Qed.
Lemma from_write_status x u : T x (us_state u) → from x T (WriteSnapshotUpdateStatus info u).
Proof.
  intros HT s Hs. destruct (write_update info u s) as ([E|E] & _ & _ & _); unfold moves, update_state;
    rewrite E; [done|]. unfold update_state in Hs. by rewrite Hs.
Qed.
End From.

(** ** Cancelling and finishing *)

Local Abbreviation remove_files := (remove_files info sha256 nothrow_new opener).
Local Abbreviation RemoveAllUpdateState := (RemoveAllUpdateState info sha256 nothrow_new opener).
Lemma keeps_elsewhere_remove prolog : harmless prolog → keeps (only elsewhere) (remove_files prolog).
Proof. intros. eapply keeps_remove_files; [typeclasses eauto|done|auto]. Qed.
Lemma remove_state_eq prolog s :
  RemoveAllUpdateState prolog s =
  (_ ← remove_files prolog; WriteUpdateState info UpdateState.None MergeFailureCode.Ok) s.
Proof.
  unfold SnapManager.RemoveAllUpdateState, SnapFrame.remove_files, mbind, io_mbind.
  repeat match goal with |- context [match ?x with _ => _ end] => destruct x as [[| |] ?] end; done.
Qed.
Lemma from_remove {T} `{!Reflexive T} x prolog :
  harmless prolog → T x UpdateState.None → from x T (RemoveAllUpdateState prolog).
Proof.
  intros Hp HT s Hs. rewrite remove_state_eq. revert s Hs.
  apply from_bind; [by apply keeps_elsewhere_remove|]. intros _. by apply from_write.
Qed.
Lemma from_try_cancel {T} `{!Reflexive T} x :
  (x = UpdateState.Initiated ∨ x = UpdateState.Unverified → T x UpdateState.None) →
  from x T (TryCancelUpdate info sha256 nothrow_new opener).
Proof.
  intros HT. unfold TryCancelUpdate. apply from_bind; [keeps|intros _]. apply from_read.
  destruct x; try (apply from_same; by keeps).
  - apply from_skip; [|intros; keeps]. apply from_remove; [done|auto].
  - apply from_slot. intros slot. case_decide; [|apply from_same; by keeps].
    apply from_skip; [|intros; keeps]. apply from_remove; [done|auto].
Qed.
Lemma elsewhere_metadata rest : rest ≠ str "/state" → elsewhere (GetMetadataDir info ++ rest).
Proof. apply metadata_path_neq. Qed.
Lemma from_finish {T} `{!Reflexive T} x wipe :
  (x = UpdateState.Initiated → T x UpdateState.Unverified) → from x T (FinishedSnapshotWrites info wipe).
Proof.
  intros HT. unfold FinishedSnapshotWrites. apply from_bind; [keeps|intros _]. apply from_read.
  destruct x; try (apply from_same; by keeps). specialize (HT eq_refl).
  apply from_bind; [keeps|intros _]. apply from_bind; [eapply keeps_forward; [typeclasses eauto|by apply elsewhere_metadata]|intros _].
  apply from_bind; [eapply keeps_touches; [apply remove_law|by apply elsewhere_metadata]|intros _].
  apply from_bind; [|intros _; by apply from_write].
  eapply keeps_write; [by apply elsewhere_metadata|].
  unfold tmp, GetSnapshotBootIndicatorPath. rewrite <-!(assoc_L (++)). by apply elsewhere_metadata.
Qed.

(** ** Merging *)

Local Abbreviation InitiateMerge := (InitiateMerge info sha256 nothrow_new opener garbage).
Local Abbreviation CheckMergeState_locked :=
  (CheckMergeState_locked info sha256 nothrow_new opener default_opener Realpath garbage cow_fuel page_size).
Local Abbreviation CheckMergeState :=
  (CheckMergeState info sha256 nothrow_new opener default_opener Realpath garbage cow_fuel page_size).
Local Abbreviation ProcessUpdateState :=
  (ProcessUpdateState info sha256 nothrow_new opener default_opener Realpath garbage cow_fuel page_size).
Lemma from_lift x {T} `{!Reflexive T} {A B} (m : outcome A) (f : A → IO M B) :
  (∀ a, m = Ret a → from x T (f a)) → from x T (lift m ≫= f).
Proof.
  intros Hf s Hs. unfold mbind, io_mbind, lift. destruct m as [a| |]; [by apply Hf|unfold moves; simpl; done..].
Qed.
Lemma from_initiate {T} `{!Reflexive T} x :
  (x = UpdateState.Unverified → T x UpdateState.Merging ∧ T x UpdateState.MergeFailed) → from x T InitiateMerge.
Proof.
  intros HT. unfold SnapMerge.InitiateMerge. apply from_bind; [keeps|intros _]. apply from_read.
  apply from_lift; [apply _|]. intros [] Hx%require_Ret. destruct (HT Hx) as [Hm Hf]. clear HT.
  do 5 (apply from_bind; [keeps|intros ?]).
  apply from_bind; [keeps|intros snapshots]. apply from_bind; [keeps|intros g].
  apply from_bind; [keeps|intros initial]. apply from_bind; [keeps|intros uses].
  set (groups := if decide (_ = []) then _ else _). destruct groups as [group phase].
  apply (from_then (or_same (eq UpdateState.Merging)) (λ _, True)); [|done|by intros y [->| <-]|].
  { apply from_write_status. right. by destruct uses. }
  intros [] y _ Hy. apply from_bind; [keeps|intros code]. case_decide; [|apply from_same; keeps].
  apply from_ignore, from_write. by right.
Qed.

(** *** Checking *)

Lemma keeps_target name update : keeps (only elsewhere)
  (CheckTargetMergeState info sha256 nothrow_new opener default_opener Realpath garbage cow_fuel page_size name update).
Proof.
  unfold CheckTargetMergeState. keeps; eapply keeps_finish || eapply keeps_plain; eauto with keeps nocore.
Qed.
Lemma keeps_poll update snapshots f : keeps (only elsewhere)
  (io_fold (poll_snapshot info sha256 nothrow_new opener default_opener Realpath garbage cow_fuel page_size update) snapshots f).
Proof. apply keeps_fold. intros. unfold poll_snapshot. keeps. apply keeps_target. Qed.
Definition within_merge : relation UpdateState := or_same (λ y, merging y = true).
#[local] Instance within_merge_reflexive : Reflexive within_merge.
Proof. by left. Qed.
Lemma from_second x : from x within_merge (MergeSecondPhaseSnapshots info garbage).
Proof.
  unfold MergeSecondPhaseSnapshots. apply from_bind; [keeps|intros [snapshots|]]; [|apply from_same; keeps].
  apply from_bind; [keeps|intros u]. do 2 (apply from_bind; [keeps|intros _]).
  apply (from_then within_merge (λ _, True)); [|done|done|].
  { apply from_succeeds, from_write_status. by right. }
  intros [] y _ Hy; apply from_same; keeps.
Qed.
Lemma from_outcome x f : from x within_merge (merge_outcome info garbage f).
Proof.
  unfold merge_outcome. destruct (fl_merging f); [apply from_same; keeps|]. case_decide; [apply from_same; keeps|].
  destruct (fl_wrong_phase f).
  { apply (from_then within_merge (λ _, True)); [apply from_second|done|done|]. intros a y _ Hy. apply from_same. keeps. }
  destruct (fl_needs_reboot f); [|destruct (fl_cancelled f); apply from_same; keeps].
  apply (from_then within_merge (λ _, True)); [|done|done|]; [|intros a y _ Hy; apply from_same; keeps].
  apply from_ignore, from_write. by right.
Qed.
(** What the check does while an update is merged. *)
Definition poll_all (update : SnapshotUpdateStatus) : IO M MergeResult :=
  snapshots ← try_ (ListSnapshots info []);
  match snapshots with
  | None => mret (merge_failed MergeFailureCode.ListSnapshots)
  | Some snapshots =>
      f ← io_fold (poll_snapshot info sha256 nothrow_new opener default_opener Realpath garbage cow_fuel page_size update)
            snapshots (mkFlags false false false false MergeFailureCode.Ok);
      merge_outcome info garbage f
  end.
Lemma locked_merging s before_cancel : merging (ustate s) = true →
  ∃ s1, same_disk s s1 ∧ CheckMergeState_locked before_cancel s = poll_all (update_status info s) s1.
Proof.
  intros Hm. destruct (read_update_status info s) as (s1 & Hr & Hd). exists s1. split; [done|].
  unfold SnapMerge.CheckMergeState_locked. rewrite (io_bind_eq _ _ _ _ _ Hr).
  unfold update_state in Hm. by destruct (us_state (update_status info s)).
Qed.
Lemma from_locked_merging x before_cancel : merging x = true → from x within_merge (CheckMergeState_locked before_cancel).
Proof.
  intros Hx s Hs. rewrite <-Hs in Hx. destruct (locked_merging s before_cancel Hx) as (s1 & Hd & ->).
  assert (E : ustate s1 = ustate s) by apply only_elsewhere, same_disk_only, Hd. unfold moves. rewrite <-E.
  revert s1 Hd E. intros s1 _ _. set (u := update_status info s). clearbody u. clear s Hs Hx.
  assert (from (ustate s1) within_merge (poll_all u)) as H; [|by apply H]. unfold poll_all.
  apply from_bind; [keeps|intros [snapshots|]]; [|apply from_same; keeps].
  apply from_bind; [apply keeps_poll|intros f]. apply from_outcome.
Qed.

Local Abbreviation HandleCancelledUpdate := (HandleCancelledUpdate info sha256 nothrow_new opener).
Local Abbreviation AcknowledgeMergeSuccess := (AcknowledgeMergeSuccess info sha256 nothrow_new opener).
Lemma from_handle {T} `{!Reflexive T} x before_cancel :
  harmless before_cancel → T x UpdateState.None → from x T (HandleCancelledUpdate before_cancel).
Proof.
  intros Hb HT. unfold SnapMerge.HandleCancelledUpdate. do 3 (apply from_bind; [keeps|intros ?]).
  case_match; [by apply from_remove|]. do 4 (apply from_bind; [keeps|intros ?]). by apply from_remove.
Qed.
Lemma keeps_forget : keeps (only elsewhere) (on_world client_RemoveTransitionedDaemonIndicator).
Proof. eapply keeps_touches; [apply indicator_law|]. apply not_eq_sym, state_not_indicator. Qed.
Lemma from_success {T} `{!Reflexive T} x :
  T x UpdateState.None → T x UpdateState.MergeCompleted → from x T AcknowledgeMergeSuccess.
Proof.
  intros HN HM. unfold SnapMerge.AcknowledgeMergeSuccess. destruct (IsRecovery info).
  { by apply from_ignore, from_write. }
  apply from_skip; [by apply from_ignore, from_remove|]. intros _. keeps. apply keeps_forget.
Qed.
Lemma locked_idle x s before_cancel : ustate s = x → merging x = false → x ≠ UpdateState.Unverified →
  ∃ s1, CheckMergeState_locked before_cancel s = (Ret (merge_result x), s1) ∧ same_disk s s1.
Proof.
  intros Hs Hm Hx. destruct (read_update_status info s) as (s1 & Hr & Hd). exists s1. split; [|done].
  unfold SnapMerge.CheckMergeState_locked. rewrite (io_bind_eq _ _ _ _ _ Hr).
  unfold update_state in Hs. rewrite Hs. by destruct x.
Qed.
Lemma locked_unverified s before_cancel : ustate s = UpdateState.Unverified →
  ∃ s1, same_disk s s1 ∧ CheckMergeState_locked before_cancel s =
    (cancelled ← succeeds (HandleCancelledUpdate before_cancel);
     mret (merge_result (if cancelled : bool then UpdateState.Cancelled else UpdateState.Unverified))) s1.
Proof.
  intros Hs. destruct (read_update_status info s) as (s1 & Hr & Hd). exists s1. split; [done|].
  unfold SnapMerge.CheckMergeState_locked. rewrite (io_bind_eq _ _ _ _ _ Hr).
  unfold update_state in Hs. by rewrite Hs.
Qed.
(** What follows the check, when both outcomes are allowed. *)
Lemma from_acknowledge {T} `{!Reflexive T} x before_cancel result :
  harmless before_cancel →
  (mr_state result = UpdateState.MergeCompleted ∨ mr_state result = UpdateState.Cancelled → T x UpdateState.None) →
  (mr_state result = UpdateState.MergeCompleted → T x UpdateState.MergeCompleted) →
  from x T (_ ← match mr_state result with
                | UpdateState.MergeCompleted => AcknowledgeMergeSuccess
                | UpdateState.Cancelled =>
                    if IsRecovery info then mret () else ignore (RemoveAllUpdateState before_cancel)
                | _ => mret ()
                end; mret result).
Proof.
  intros Hb HN HM. apply from_skip; [|intros; keeps].
  destruct (mr_state result); try (apply from_same; by keeps).
  - by apply from_success; auto.
  - case_match; [apply from_same; by keeps|]. apply from_ignore, from_remove; auto.
Qed.
Local Abbreviation process := (transitions (process_spec true)).
Lemma from_check x before_cancel : harmless before_cancel → from x process (CheckMergeState before_cancel).
Proof.
  intros Hb. unfold SnapMerge.CheckMergeState. apply from_bind; [keeps|intros [|]]; [|apply from_same; keeps].
  destruct (merging x) eqn:Hx; [|destruct (decide (x = UpdateState.Unverified)) as [->|Hu]].
  - apply (from_then within_merge (λ _, True)); [by apply from_locked_merging|done| |].
    { intros y [->|Hy]; [done|]. by destruct x, y. }
    intros a y _ Hy. apply from_acknowledge; [done|intros _; right..]; by destruct x.
  - apply (from_then (or_same (eq UpdateState.None))
      (λ a, mr_state a = UpdateState.Cancelled ∨ mr_state a = UpdateState.Unverified)).
    + unfold SnapMerge.CheckMergeState_locked. apply from_read_status. intros u ->.
      apply from_skip; [|intros; keeps]. apply from_succeeds, from_handle; [done|by right].
    + intros s a Hs. destruct (locked_unverified s before_cancel Hs) as (s1 & _ & ->).
      unfold mbind, io_mbind. destruct (succeeds _ s1) as [[[]| |] s2]; intros [= <-]; auto.
    + by intros y [->| <-].
    + intros a y Ha Hy. apply from_acknowledge; [done|by right|]. destruct Ha as [-> | ->]; done.
  - apply (from_then eq (λ a, a = merge_result x)); [| |by intros y <-|].
    + intros s Hs. destruct (locked_idle x s before_cancel Hs Hx Hu) as (s1 & -> & Hd).
      unfold moves. symmetry. apply only_elsewhere, same_disk_only, Hd.
    + intros s a Hs. destruct (locked_idle x s before_cancel Hs Hx Hu) as (s1 & -> & Hd). by intros [= <-].
    + intros a y -> <-. apply from_acknowledge; [done|intros Ha; right..]; destruct x; try done; by destruct Ha.
Qed.
Lemma from_failure x code : from x process (AcknowledgeMergeFailure info code).
Proof.
  unfold AcknowledgeMergeFailure. apply from_bind; [keeps|intros [|]]; [|apply from_same; keeps].
  apply from_read. case_decide as Hx; [|apply from_same; keeps].
  apply from_ignore, from_write. by destruct Hx as [-> | ->].
Qed.
Lemma keeps_process fuel callback before_cancel : harmless callback → harmless before_cancel →
  keeps (moves process) (ProcessUpdateState fuel callback before_cancel).
Proof.
  intros Hc Hb. induction fuel as [|fuel IH]; simpl; [keeps|].
  apply keeps_bind; [apply keeps_from; intros; by apply from_check|intros result].
  apply keeps_bind; [case_decide; [apply keeps_from; intros; by apply from_failure|keeps]|intros _].
  case_decide; [keeps|]. apply keeps_bind; [destruct callback; keeps|intros [|]]; keeps.
Qed.
(** A merge that is started only on the slot that was updated. *)
Lemma keeps_wipe fuel callback allow : harmless callback → keeps (moves (transitions (wipe_spec Target true)))
  (ProcessUpdateStateOnDataWipe info sha256 nothrow_new opener default_opener Realpath garbage cow_fuel page_size
     fuel callback allow).
Proof.
  intros Hc. unfold ProcessUpdateStateOnDataWipe. cbv zeta.
  assert (Hp : keeps (moves (transitions (wipe_spec Target true))) (ProcessUpdateState fuel callback None)).
  { eapply keeps_weaken; [by apply keeps_process|]. intros s s'. unfold moves, transitions, wipe_spec. by intros ->. }
  assert (Hi : keeps (moves (transitions (wipe_spec Target true))) InitiateMerge).
  { apply keeps_from. intros x. apply from_initiate. by intros ->. }
  keeps; exact Hp || exact Hi.
Qed.

(** *** Giving up an update that was not merged *)

Definition alive (p : bytes) : Prop := p = GetDaemonAliveIndicatorPath.
#[local] Instance alive_frame : Frame (only alive) alive.
Proof. by apply only_frame. Qed.
Lemma alive_elsewhere s s' : only alive s s' → ustate s' = ustate s.
Proof.
  intros H. apply only_elsewhere. eapply only_weaken, H. intros p ->. apply not_eq_sym, state_not_indicator.
Qed.
(** When files in [P] may have changed: the slot is known, and no snapshot is of a partition
    that was updated and not flashed since, or the listing fails; or the old slot was booted
    after a rollback. *)
Definition given_up (P : bytes → Prop) (s : M) : Prop :=
  ∃ s1, only P s s1 ∧ slot_of info s1 ≠ Unknown ∧
    ((AreAllSnapshotsCancelled info sha256 nothrow_new opener s1).1 = Ret true ∨
     slot_of info s1 = Source ∧ is_Some (disk s1 (GetRollbackIndicatorPath info))).
Lemma given_up_before (P Q : bytes → Prop) s s1 : (∀ p, Q p → P p) → only P s s1 → given_up Q s1 → given_up P s.
Proof.
  intros HP H (s2 & H2 & Hg). exists s2. split; [|done]. etrans; [exact H|]. by eapply only_weaken.
Qed.
Lemma given_up_earlier s s1 : only alive s s1 → given_up alive s1 → given_up alive s.
Proof. by apply given_up_before. Qed.
Lemma alive_slot s s' : only alive s s' → slot_of info s' = slot_of info s.
Proof. intros H. unfold slot_of. by rewrite (only_disk _ _ _ _ H) by apply boot_not_indicator. Qed.
Lemma handle_cancelled before_cancel s (r := HandleCancelledUpdate before_cancel s) :
  r.1 ≠ Ret () ∧ only alive s r.2 ∨ given_up alive s.
Proof.
  subst r. unfold SnapMerge.HandleCancelledUpdate.
  destruct (read_slot info s) as (s1 & Hr & Hd). rewrite (io_bind_eq _ _ _ _ _ Hr). clear Hr.
  assert (H1 : only alive s s1) by by apply same_disk_only.
  destruct (decide (slot_of info s = Unknown)) as [Hu|Hu].
  { left. rewrite (bind_reject _ _ s1 s1); [done|]. unfold lift. by rewrite require_False by tauto. }
  rewrite io_require by done.
  pose proof (keeps_all_cancelled (R := only alive) info sha256 nothrow_new opener s1) as H2.
  destruct (AreAllSnapshotsCancelled info sha256 nothrow_new opener s1) as [[[]| |] s2] eqn:E; simpl in H2.
  - right. exists s1. rewrite E, (alive_slot s s1) by done. split_and!; [done..|by left].
  - rewrite (io_bind_eq _ _ _ _ _ E). destruct (read_slot info s2) as (s3 & Hr & Hd3).
    rewrite (io_bind_eq _ _ _ _ _ Hr). clear Hr.
    assert (H3 : only alive s s3) by (etrans; [exact H1|]; etrans; [exact H2|by apply same_disk_only]).
    destruct (decide (slot_of info s2 = Source)) as [Hs|Hs].
    2: { left. rewrite (bind_reject _ _ s3 s3); [done|]. unfold lift. by rewrite require_False. }
    rewrite io_require by done. rewrite (alive_slot s1 s2), (alive_slot s s1) in Hs by done.
    destruct (decide (is_Some (disk s3 (GetRollbackIndicatorPath info)))) as [Hi|Hi].
    { right. exists s3. rewrite (alive_slot s s3) by done. split_and!; [done..|by right]. }
    left. destruct (read_access (GetRollbackIndicatorPath info) s3) as (s4 & Ha & Hd4).
    rewrite (io_bind_eq _ _ _ _ _ Ha), bool_decide_eq_false_2 by done.
    rewrite (bind_reject _ _ s4 s4) by done. split; [done|]. etrans; [exact H3|by apply same_disk_only].
  - left. rewrite (bind_reject _ _ _ _ E). split; [done|by etrans].
  - left. rewrite (bind_crash _ _ _ _ E). split; [done|by etrans].
Qed.
(** An update that was not merged is only dropped when it was given up. *)
Definition stays_unless_given_up (P : bytes → Prop) : relation M := λ s s',
  ustate s = UpdateState.Unverified → only P s s' ∨ given_up P s.
Section Stays.
Context {P : bytes → Prop} (P_elsewhere : ∀ p, P p → elsewhere p) (P_alive : P GetDaemonAliveIndicatorPath).
Lemma stays_preorder : PreOrder (stays_unless_given_up P).
Proof using P_elsewhere.
  split; [by intros s _; left|]. intros s1 s2 s3 H1 H2 Hu. destruct (H1 Hu) as [H|H]; [|by right].
  destruct H2 as [H2|H2]; [|left; by etrans|right; by eapply given_up_before].
  rewrite <-Hu. apply only_elsewhere. by eapply only_weaken.
Qed.
Lemma stays_frame : Frame (stays_unless_given_up P) P.
Proof using P_elsewhere P_alive. split; [apply stays_preorder|by intros s s' H _; left|done]. Qed.
End Stays.
#[local] Instance stays_alive : Frame (stays_unless_given_up alive) alive.
Proof. apply stays_frame; [|done]. intros p ->. apply not_eq_sym, state_not_indicator. Qed.
Lemma stays_check before_cancel : keeps (stays_unless_given_up alive) (CheckMergeState before_cancel).
Proof.
  intros s Hu. unfold SnapMerge.CheckMergeState.
  pose proof (keeps_succeeds _ (keeps_lock info (R := only alive)) s) as H1.
  destruct (succeeds (LockExclusive info) s) as [[[]| |] s1] eqn:E; simpl in H1;
    [rewrite (io_bind_eq _ _ _ _ _ E)|left; rewrite (io_bind_eq _ _ _ _ _ E); done
    |left; by rewrite (bind_reject _ _ _ _ E)|left; by rewrite (bind_crash _ _ _ _ E)].
  destruct (locked_unverified s1 before_cancel) as (s2 & Hd2 & Hl); [by rewrite (alive_elsewhere s s1)|].
  assert (H2 : only alive s s2) by (etrans; [exact H1|by apply same_disk_only]).
  destruct (handle_cancelled before_cancel s2) as [[Hr H3]|Hg]; [left|right; by eapply given_up_earlier].
  assert (Hc : CheckMergeState_locked before_cancel s1 = (Ret (merge_result UpdateState.Unverified), (HandleCancelledUpdate before_cancel s2).2)
    ∨ CheckMergeState_locked before_cancel s1 = (Crash, (HandleCancelledUpdate before_cancel s2).2)).
  { rewrite Hl. unfold succeeds, try_, mbind, io_mbind.
    destruct (HandleCancelledUpdate before_cancel s2) as [[[]| |] s3]; [done|by left|by right]. }
  destruct Hc as [Hc|Hc]; [rewrite (io_bind_eq _ _ _ _ _ Hc)|rewrite (bind_crash _ _ _ _ Hc)]; simpl; by etrans.
Qed.
Lemma stays_failure code : keeps (stays_unless_given_up alive) (AcknowledgeMergeFailure info code).
Proof.
  intros s Hu. left. unfold AcknowledgeMergeFailure.
  pose proof (keeps_succeeds _ (keeps_lock info (R := only alive)) s) as H1.
  destruct (succeeds (LockExclusive info) s) as [[[]| |] s1] eqn:E; simpl in H1;
    [rewrite (io_bind_eq _ _ _ _ _ E)|rewrite (io_bind_eq _ _ _ _ _ E); done
    |by rewrite (bind_reject _ _ _ _ E)|by rewrite (bind_crash _ _ _ _ E)].
  destruct (read_update_state info s1) as (s2 & Hr & Hd). rewrite (io_bind_eq _ _ _ _ _ Hr), (alive_elsewhere s s1), Hu by done.
  simpl. etrans; [exact H1|by apply same_disk_only].
Qed.
Lemma stays_process fuel callback before_cancel : harmless callback →
  keeps (stays_unless_given_up alive) (ProcessUpdateState fuel callback before_cancel).
Proof.
  intros Hc. induction fuel as [|fuel IH]; simpl; [keeps|].
  apply keeps_bind; [apply stays_check|intros result].
  apply keeps_bind; [case_decide; [apply stays_failure|keeps]|intros _].
  case_decide; [keeps|]. apply keeps_bind; [destruct callback; keeps|intros [|]]; keeps.
Qed.
Lemma follows_process P s s' : moves process s s' → stays_unless_given_up P s s' → (∀ p, P p → elsewhere p) →
  ∃ gu : bool, (gu = true → given_up P s) ∧ process_spec gu (ustate s) (ustate s') = true.
Proof.
  intros Hp Hs HP. unfold moves, transitions in Hp. destruct (decide (ustate s = UpdateState.Unverified)) as [Hu|Hu].
  - destruct (Hs Hu) as [H|H]; [|by exists true]. exists false. split; [done|].
    rewrite (only_elsewhere s s'), Hu; [done|]. by eapply only_weaken.
  - exists false. split; [done|]. revert Hp Hu. by destruct (ustate s), (ustate s').
Qed.
Lemma process_follows fuel callback before_cancel s : harmless callback → harmless before_cancel →
  ∃ gu : bool, (gu = true → given_up alive s) ∧
    process_spec gu (ustate s) (ustate (ProcessUpdateState fuel callback before_cancel s).2) = true.
Proof.
  intros Hc Hb. apply follows_process; [by apply keeps_process|by apply stays_process|].
  intros p ->. apply not_eq_sym, state_not_indicator.
Qed.

(** *** The slot *)

(** No call makes another slot the one that was updated. *)
Definition unbooted : relation M := λ s s', slot_of info s ≠ Target → slot_of info s' ≠ Target.
Definition no_boot (p : bytes) : Prop := p ≠ GetSnapshotBootIndicatorPath info.
Lemma same_boot s s' : disk s' (GetSnapshotBootIndicatorPath info) = disk s (GetSnapshotBootIndicatorPath info) →
  slot_of info s' = slot_of info s.
Proof. intros H. unfold slot_of. by rewrite H. Qed.
#[local] Instance unbooted_frame : Frame unbooted no_boot.
Proof.
  split.
  - split; [by intros s H|]. intros s1 s2 s3 H1 H2 H. by apply H2, H1.
  - intros s s' [Hd _] H. rewrite (same_boot s s'); [done|]. apply Hd. unfold no_boot. tauto.
  - apply not_eq_sym, boot_not_indicator.
Qed.
Lemma no_boot_metadata rest : rest ≠ str "/snapshot-boot" → no_boot (GetMetadataDir info ++ rest).
Proof. apply metadata_path_neq. Qed.
Lemma no_boot_status name : no_boot (GetSnapshotStatusFilePath info name).
Proof. by apply no_boot_metadata. Qed.
Lemma no_boot_status_tmp name : no_boot (tmp (GetSnapshotStatusFilePath info name)).
Proof. unfold tmp, GetSnapshotStatusFilePath. rewrite <-!(assoc_L (++)). by apply no_boot_metadata. Qed.
Lemma no_boot_state : no_boot state_path.
Proof. by apply no_boot_metadata. Qed.
Lemma no_boot_state_tmp : no_boot (tmp state_path).
Proof. unfold tmp, GetStateFilePath. rewrite <-(assoc_L (++)). by apply no_boot_metadata. Qed.
Hint Resolve no_boot_status no_boot_status_tmp no_boot_state no_boot_state_tmp : keeps.
Lemma unbooted_write state code : keeps unbooted (WriteUpdateState info state code).
Proof. unfold WriteUpdateState. keeps. Qed.
Hint Resolve unbooted_write : keeps.
Lemma unbooted_remove_file p : keeps unbooted (on_world (RemoveFileIfExists p)).
Proof.
  intros s H. destruct (remove_law p (sm_world s)) as (_ & Hf & _), (remove_result p (sm_world s)) as [Hr _].
  set (s' := (on_world (RemoveFileIfExists p) s).2). assert (Hw : disk s' = file (RemoveFileIfExists p (sm_world s)).2) by done.
  clearbody s'. destruct (decide (p = GetSnapshotBootIndicatorPath info)) as [->|Hp].
  - unfold slot_of. rewrite Hw. destruct Hr as [-> | ->]; [done|exact H].
  - rewrite (same_boot s s'); [done|]. rewrite Hw. by apply Hf, not_eq_sym.
Qed.
Hint Resolve unbooted_remove_file : keeps.
Lemma unbooted_remove prolog : harmless prolog → keeps unbooted (RemoveAllUpdateState prolog).
Proof.
  intros Hp. unfold SnapManager.RemoveAllUpdateState. keeps_step; [destruct prolog; keeps|]. keeps_step; [keeps|].
  keeps_step; [eapply keeps_remove_all; [typeclasses eauto|apply no_boot_status]|]. keeps.
Qed.
Hint Resolve unbooted_remove : keeps.
Lemma unbooted_process fuel callback before_cancel : harmless callback → harmless before_cancel →
  keeps unbooted (ProcessUpdateState fuel callback before_cancel).
Proof.
  intros Hc Hb. induction fuel as [|fuel IH]; simpl; [keeps|]. keeps_step.
  - unfold SnapMerge.CheckMergeState, SnapMerge.CheckMergeState_locked, poll_snapshot, CheckTargetMergeState, merge_outcome, MergeSecondPhaseSnapshots, SnapMerge.HandleCancelledUpdate, SnapMerge.AcknowledgeMergeSuccess.
    keeps; [by apply unbooted_remove|]. eapply keeps_touches; [apply indicator_law|]. apply not_eq_sym, boot_not_indicator.
  - unfold AcknowledgeMergeFailure. keeps.
Qed.
Local Abbreviation Wipe := (ProcessUpdateStateOnDataWipe info sha256 nothrow_new opener default_opener Realpath garbage
  cow_fuel page_size).
Lemma unbooted_wipe fuel callback allow : harmless callback → keeps unbooted (Wipe fuel callback allow).
Proof.
  intros Hc. pose proof (unbooted_process fuel callback None Hc I) as Hp.
  assert (Hi : keeps unbooted InitiateMerge).
  { unfold SnapMerge.InitiateMerge. keeps. }
  unfold ProcessUpdateStateOnDataWipe. cbv zeta. keeps; exact Hp || exact Hi.
Qed.
(** A merge is started only on the slot that was updated. *)
Lemma wipe_follows fuel callback allow s : harmless callback →
  ∃ gu : bool, (gu = true → given_up alive s) ∧
    wipe_spec (slot_of info s) gu (ustate s) (ustate (Wipe fuel callback allow s).2) = true.
Proof.
  intros Hc. pose proof (keeps_wipe fuel callback allow Hc s) as Hw. unfold moves, transitions in Hw.
  destruct (decide (slot_of info s = Target)) as [Ht|Ht].
  { exists false. split; [done|]. rewrite Ht. revert Hw. by destruct (ustate s), (ustate _). }
  destruct (decide (ustate s = UpdateState.Unverified)) as [Hu|Hu].
  2: { exists false. split; [done|]. revert Hw Hu. by destruct (slot_of info s), (ustate s), (ustate _). }
  clear Hw. destruct (process_follows fuel callback None s Hc I) as (gu & Hg & Hp). exists gu. split; [done|].
  unfold wipe_spec. rewrite (bool_decide_eq_false_2 (slot_of info s = Target)), orb_false_r by done.
  cut (ustate (Wipe fuel callback allow s).2 = ustate (ProcessUpdateState fuel callback None s).2); [by intros ->|].
  pose proof (unbooted_process fuel callback None Hc I s Ht) as H1. unfold ProcessUpdateStateOnDataWipe. cbv zeta.
  destruct (ProcessUpdateState fuel callback None s) as [[state| |] s1] eqn:E; simpl in H1;
    [rewrite (io_bind_eq _ _ _ _ _ E)|by rewrite (bind_reject _ _ _ _ E)|by rewrite (bind_crash _ _ _ _ E)].
  destruct state as [[]|]; try done. destruct (read_slot info s1) as (s2 & Hr & Hd).
  rewrite (io_bind_eq _ _ _ _ _ Hr), decide_False by done. simpl. apply only_elsewhere. by apply same_disk_only.
Qed.
(** ** Recovery *)

Lemma harmless_process (callback : option (IO W unit)) :
  harmless callback → harmless (Some (_ ← default (mret ()) callback; mret true)).
Proof.
  intros H w. destruct callback as [c|]; simpl; [|by split_and!].
  destruct (H w) as (Hc & Hf & Ht). unfold mbind, io_mbind. by destruct (c w) as [[[]| |] w']; simpl in *.
Qed.
(** The update is wiped, and merged only on the slot that was updated. *)
Definition wiped : relation M := λ s s',
  unbooted s s' ∧ data_wipe_spec (slot_of info s) (ustate s) (ustate s') = true.
#[local] Instance wiped_preorder : PreOrder wiped.
Proof.
  split; [by intros s; split; [intros H|destruct (ustate s)]|]. intros s1 s2 s3 [H1 T1] [H2 T2]. split; [by intros H%H1%H2|].
  revert T1 T2. unfold unbooted in H1. destruct (decide (slot_of info s1 = Target)) as [-> |Hn].
  - by destruct (slot_of info s2), (ustate s1), (ustate s2), (ustate s3).
  - specialize (H1 Hn). by destruct (slot_of info s1), (slot_of info s2), (ustate s1), (ustate s2), (ustate s3).
Qed.
Definition no_record (p : bytes) : Prop := elsewhere p ∧ no_boot p.
#[local] Instance wiped_frame : Frame wiped no_record.
Proof.
  split.
  - apply _.
  - intros s s' H. assert (He : only elsewhere s s') by (eapply only_weaken, H; by intros p []).
    assert (Hb : only no_boot s s') by (eapply only_weaken, H; by intros p []).
    split; [by apply (frame_only (R := unbooted))|]. rewrite (only_elsewhere s s') by done. by destruct (ustate s).
  - split; [apply not_eq_sym, state_not_indicator|apply not_eq_sym, boot_not_indicator].
Qed.
Lemma no_record_status name : no_record (GetSnapshotStatusFilePath info name).
Proof. split; auto with keeps. Qed.
Hint Resolve no_record_status : keeps.
Lemma keeps_data_wipe fuel callback : harmless callback → keeps wiped
  (HandleImminentDataWipe info sha256 nothrow_new opener default_opener Realpath garbage cow_fuel page_size fuel callback).
Proof.
  intros Hc. unfold HandleImminentDataWipe. keeps_step; [keeps|]. keeps_step; [apply keeps_try; eapply keeps_mounted; typeclasses eauto|].
  match goal with |- keeps _ (match ?x with _ => _ end) => destruct x as [[|]|] end; [|keeps..].
  eapply keeps_while_mounted; [typeclasses eauto|]. unfold prepare_wipe. keeps_step; [keeps|]. destruct (negb _); [keeps|].
  keeps_step; [eapply keeps_create_logical; [typeclasses eauto|apply no_record_status]|]. cbv zeta. apply keeps_bind.
  { intros s. split; [by apply unbooted_wipe, harmless_process|].
    destruct (wipe_follows fuel (Some (_ ← default (mret ()) callback; mret true)) true s) as (gu & _ & H); [by apply harmless_process|].
    revert H. by destruct gu, (slot_of info s), (ustate s), (ustate _). }
  intros [state|]; [|keeps]. keeps_step; [keeps|]. keeps_step; [apply keeps_ignore; eapply keeps_unmap_recovery; typeclasses eauto|].
  keeps_step; [|keeps]. case_decide; [|keeps]. keeps_step; [keeps|]. apply keeps_ignore. intros s. split; [apply unbooted_write|].
  assert (HT : Reflexive (λ x y, data_wipe_spec (slot_of info s) x y = true)) by (by intros []).
  apply (from_write (ustate s) UpdateState.None MergeFailureCode.Ok (T := λ x y, data_wipe_spec (slot_of info s) x y = true)); [|done].
  unfold data_wipe_spec. by rewrite orb_true_r.
Qed.
(** The files that mapping the partitions may change. *)
Definition mapping (p : bytes) : Prop := p = GetDaemonAliveIndicatorPath ∨ ∃ name, p = GetSnapshotStatusFilePath info name.
Lemma mapping_elsewhere p : mapping p → elsewhere p.
Proof. intros [->|[name ->]]; [apply not_eq_sym, state_not_indicator|apply elsewhere_status]. Qed.
Lemma mapping_status name : mapping (GetSnapshotStatusFilePath info name).
Proof. right. by exists name. Qed.
#[local] Instance mapping_frame : Frame (stays_unless_given_up mapping) mapping.
Proof. apply stays_frame; [apply mapping_elsewhere|by left]. Qed.
Lemma stays_finish_merge fuel : keeps (stays_unless_given_up mapping)
  (FinishMergeInRecovery info sha256 nothrow_new opener default_opener Realpath garbage cow_fuel page_size fuel).
Proof.
  unfold FinishMergeInRecovery. keeps_step; [keeps|]. apply keeps_bind; [eapply keeps_mounted; typeclasses eauto|intros [|]]; [|keeps].
  eapply keeps_while_mounted; [typeclasses eauto|]. unfold finish_merge. cbv zeta.
  keeps_step; [eapply keeps_create_logical; [typeclasses eauto|apply mapping_status]|].
  apply keeps_bind; [|intros [state|]]; [|keeps_step; [keeps|]|keeps].
  - intros s Hu. destruct (stays_process fuel None None I s Hu) as [H|H]; [left|right].
    + eapply only_weaken, H. by left.
    + eapply given_up_before, H; [by left|reflexivity].
  - keeps_step; [apply keeps_ignore; eapply keeps_unmap_recovery; typeclasses eauto|keeps].
Qed.
Lemma keeps_finish_merge fuel : keeps (moves process)
  (FinishMergeInRecovery info sha256 nothrow_new opener default_opener Realpath garbage cow_fuel page_size fuel).
Proof.
  unfold FinishMergeInRecovery. keeps_step; [keeps|]. apply keeps_bind; [eapply keeps_mounted; typeclasses eauto|intros [|]]; [|keeps].
  eapply keeps_while_mounted; [typeclasses eauto|]. unfold finish_merge. cbv zeta.
  keeps_step; [eapply keeps_create_logical; [typeclasses eauto|apply elsewhere_status]|].
  apply keeps_bind; [by apply keeps_process|intros [state|]]; [|keeps]. keeps_step; [keeps|].
  keeps_step; [apply keeps_ignore; eapply keeps_unmap_recovery; typeclasses eauto|keeps].
Qed.
Lemma finish_merge_follows fuel s :
  ∃ gu : bool, (gu = true → given_up mapping s) ∧
    process_spec gu (ustate s)
      (ustate (FinishMergeInRecovery info sha256 nothrow_new opener default_opener Realpath garbage cow_fuel page_size fuel s).2) = true.
Proof. apply follows_process; [apply keeps_finish_merge|apply stays_finish_merge|apply mapping_elsewhere]. Qed.
End Spec.

(** ** Sessions with the manager

    A session is a list of calls of the library, with reboots between them.  Every call
    follows the machine of [SnapSpec]; a merge is the end of a session in which the update
    was begun, finished and merged, in this order. *)

(** ** Creating the snapshots *)

Section Creating.
Context `{HSP : !SnapProto} {W : Type} `{HW : SnapWorldLaws W} (info : DeviceInfo).
Context (sha256 : bytes → bytes) (nothrow_new : Z → bool) {D : Type} `{!BlockIO D, !ISuperDevice W D}.
Context (opener default_opener : @IPartitionOpener D) (Realpath : bytes → option bytes).
Context {F : Type} `{!CowFile F, !ICowStore W F, HSt : !StoreLaws W D F}.
Context (fetcher : IPropertyFetcher) (kernel_support compression_threads batch_writes : bool).
Local Abbreviation M := (SnapshotManager W).
Local Abbreviation C := (WithDevices W).
Local Abbreviation ustate := (update_state info).
#[local] Existing Instance elsewhere_frame.
Hint Resolve elsewhere_status elsewhere_status_tmp elsewhere_tmp : keeps.
Definition fromC (x : UpdateState) (T : relation UpdateState) {A} (m : IO C A) : Prop :=
  ∀ s, ustate s.1 = x → moves info T s.1 (m s).2.1.
Context {T : relation UpdateState} `{!Reflexive T}.
Lemma fromC_bind x {A B} (m : IO C A) (f : A → IO C B) :
  keepsC (only (elsewhere info)) m → (∀ a, fromC x T (f a)) → fromC x T (m ≫= f).
Proof using Reflexive0.
  intros Hm Hf s Hs. specialize (Hm s). unfold mbind, io_mbind.
  destruct (m s) as [[a| |] s1]; simpl in *; apply only_elsewhere in Hm; unfold moves; [|by rewrite Hm..].
  rewrite <-Hm. apply Hf. congruence.
Qed.
Lemma fromC_same x {A} (m : IO C A) : keepsC (only (elsewhere info)) m → fromC x T m.
Proof using Reflexive0. intros H s _. specialize (H s). apply only_elsewhere in H. unfold moves. by rewrite H. Qed.
Lemma fromC_skip x {A B} (m : IO C A) (f : A → IO C B) :
  fromC x T m → (∀ a, keepsC (only (elsewhere info)) (f a)) → fromC x T (m ≫= f).
Proof.
  intros Hm Hf s Hs. specialize (Hm s Hs). unfold mbind, io_mbind. destruct (m s) as [[a| |] s1]; simpl in *; [|done..].
  specialize (Hf a s1). apply only_elsewhere in Hf. unfold moves in *. by rewrite Hf.
Qed.
Lemma from_with_devices x {A} (m : IO C A) : fromC x T m → from info x T (with_devices info m).
Proof.
  intros Hm s Hs. specialize (Hm (s, []) Hs). unfold with_devices. destruct (m (s, [])) as [r [s1 devices]]. simpl in Hm.
  assert (Hd : keeps (only (elsewhere info)) (destroy_all info devices)).
  { eapply keeps_destroy_all; [typeclasses eauto|]. intros. apply elsewhere_status. }
  specialize (Hd s1). destruct (destroy_all info devices s1) as [d s2]. apply only_elsewhere in Hd. simpl in Hd.
  unfold moves in *. destruct r; simpl in *; by rewrite ?Hd.
Qed.
Lemma from_store ft current exported :
  from info UpdateState.Initiated T (store_update info sha256 nothrow_new opener fetcher ft current exported).
Proof using Reflexive0 HSt.
  unfold store_update. apply from_bind; [done| |intros _].
  { eapply keeps_untouched. apply super_update_law. }
  apply from_bind; [done| |intros _].
  { keeps. unfold write_image_file. keeps; (eapply keeps_touches; [first [apply trunc_law|apply write_law]|by apply elsewhere_metadata]). }
  apply from_bind; [done|keeps|intros u]. apply from_bind; [done|keeps|intros _].
  apply from_bind; [done|unfold detach_stale_daemon; keeps|intros _]. by apply from_write_status.
Qed.
Lemma from_create x manifest :
  from info x T (CreateUpdateSnapshots info sha256 nothrow_new opener default_opener Realpath fetcher kernel_support
                   compression_threads batch_writes manifest).
Proof using Reflexive0 HSt.
  unfold CreateUpdateSnapshots. apply from_bind; [done|keeps|intros _]. apply from_read.
  apply from_lift; [done|]. intros [] ->%require_Ret. apply from_bind; [done|keeps|intros _].
  apply from_bind; [done|eapply keeps_builders; typeclasses eauto|intros [current target]].
  apply from_with_devices. unfold create_snapshots. apply fromC_bind; [|intros [ret [target' all]]].
  { eapply keepsC_create_internal; [typeclasses eauto|intros; apply elsewhere_status|intros; apply elsewhere_status_tmp]. }
  destruct ret; [|apply fromC_same; keepsC..]. apply fromC_bind; [keepsC|intros exported].
  apply fromC_bind; [|intros []; [|apply fromC_same; keepsC..]].
  { apply keepsC_on_manager. unfold InitializeUpdateSnapshots. eapply keeps_initialize_all; [apply elsewhere_frame|intros; apply elsewhere_status|eassumption]. }
  apply fromC_skip; [|intros; keepsC]. intros s Hs. by apply from_store.
Qed.
End Creating.

(** What a boot of the device fixes: the slot, the tables that are read and the properties. *)
Record Boot (D : Type) := mkBoot {
  b_info : DeviceInfo;
  b_opener : @IPartitionOpener D;
  b_default_opener : @IPartitionOpener D;
  b_fetcher : IPropertyFetcher;
  b_kernel_support : bool;
  b_compression_threads : bool;
  b_batch_writes : bool;
}.
Arguments mkBoot {D} _ _ _ _ _ _ _.
Arguments b_fetcher {D} _.
Arguments b_kernel_support {D} _.
Arguments b_compression_threads {D} _.
Arguments b_batch_writes {D} _.
Arguments b_info {D} _.
Arguments b_opener {D} _.
Arguments b_default_opener {D} _.
(** The calls of the library that read or change the state of the update. *)
Inductive call (W D : Type) :=
| Call_BeginUpdate (fuel : nat)
| Call_CancelUpdate
| Call_CreateSnapshot (using_snapuserd threading batched : bool) (compression : bytes) (status : SnapshotStatus)
| Call_FinishedSnapshotWrites (wipe : bool)
| Call_NeedSnapshotsInFirstStageMount
| Call_InitiateMerge
| Call_ProcessUpdateState (fuel : nat) (callback before_cancel : option (IO W bool))
| Call_ProcessUpdateStateOnDataWipe (fuel : nat) (callback : option (IO W bool))
| Call_GetUpdateState
| Call_UnmapUpdateSnapshot (name : bytes)
| Call_UnmapAllSnapshots
| Call_CreateUpdateSnapshots (manifest : DeltaArchiveManifest)
| Call_CreateLogicalAndSnapshotPartitions (super_device : bytes) (timeout : Z)
| Call_MapAllSnapshots (timeout : Z)
| Call_MapUpdateSnapshot (params : @CreateLogicalPartitionParams D)
| Call_UnmapAllPartitionsInRecovery
| Call_HandleImminentDataWipe (fuel : nat) (callback : option (IO W unit))
| Call_FinishMergeInRecovery (fuel : nat)
| Call_RecoveryCreateSnapshotDevices
| Call_PerformInitTransition (transition : InitTransition)
| Call_DetachFirstStageSnapuserdForSelinux.
Arguments Call_BeginUpdate {W D} _.
Arguments Call_CancelUpdate {W D}.
Arguments Call_CreateSnapshot {W D} _ _ _ _ _.
Arguments Call_FinishedSnapshotWrites {W D} _.
Arguments Call_NeedSnapshotsInFirstStageMount {W D}.
Arguments Call_InitiateMerge {W D}.
Arguments Call_ProcessUpdateState {W D} _ _ _.
Arguments Call_ProcessUpdateStateOnDataWipe {W D} _ _.
Arguments Call_GetUpdateState {W D}.
Arguments Call_UnmapUpdateSnapshot {W D} _.
Arguments Call_UnmapAllSnapshots {W D}.
Arguments Call_CreateUpdateSnapshots {W D} _.
Arguments Call_CreateLogicalAndSnapshotPartitions {W D} _ _.
Arguments Call_MapAllSnapshots {W D} _.
Arguments Call_MapUpdateSnapshot {W D} _.
Arguments Call_UnmapAllPartitionsInRecovery {W D}.
Arguments Call_HandleImminentDataWipe {W D} _ _.
Arguments Call_FinishMergeInRecovery {W D} _.
Arguments Call_RecoveryCreateSnapshotDevices {W D}.
Arguments Call_PerformInitTransition {W D} _.
Arguments Call_DetachFirstStageSnapuserdForSelinux {W D}.
(** Where a call may take the update on a slot; [gu] says that the update was given up. *)
Definition allowed {W D} (c : call W D) (slot : Slot) (gu : bool) (x y : UpdateState) : bool :=
  match c with
  | Call_BeginUpdate _ => begin_spec slot gu x y
  | Call_CancelUpdate => cancel_spec slot x y
  | Call_FinishedSnapshotWrites _ => finish_spec x y
  | Call_InitiateMerge => initiate_spec slot x y
  | Call_ProcessUpdateState _ _ _ => process_spec gu x y
  | Call_ProcessUpdateStateOnDataWipe _ _ => wipe_spec slot gu x y
  | Call_HandleImminentDataWipe _ _ => data_wipe_spec slot x y
  | Call_FinishMergeInRecovery _ => process_spec gu x y
  | _ => is_state x y
  end.
(** The files that a call may have changed when it gives up the update. *)
Definition changed_before {W D} (info : DeviceInfo) (c : call W D) : bytes → Prop :=
  match c with Call_FinishMergeInRecovery _ => mapping info | _ => alive end.

Section Session.
Context `{HSP : !SnapProto} {W : Type} `{HW : SnapWorldLaws W}.
Context (sha256 : bytes → bytes) (nothrow_new : Z → bool) {D : Type} `{!BlockIO D, !ISuperDevice W D}.
Context (Realpath : bytes → option bytes) (garbage : DmSnapshotStatus).
Context {F : Type} `{!CowFile F, !ICowDevices W F, HC : !CowDevicesLaws W F, !ICowStore W F, HSt : !StoreLaws W D F} (cow_fuel : nat) (page_size : Z).
Local Abbreviation M := (SnapshotManager W).

Definition run (b : Boot D) (c : call W D) : IO M unit :=
  let info := b_info b in let opener := b_opener b in let default_opener := b_default_opener b in
  match c with
  | Call_BeginUpdate fuel =>
      BeginUpdate info sha256 nothrow_new opener default_opener Realpath garbage cow_fuel page_size fuel
  | Call_CancelUpdate => CancelUpdate info sha256 nothrow_new opener
  | Call_CreateSnapshot snapuserd threading batched compression status =>
      ignore (CreateSnapshot info snapuserd threading batched compression status)
  | Call_FinishedSnapshotWrites wipe => FinishedSnapshotWrites info wipe
  | Call_NeedSnapshotsInFirstStageMount => ignore (NeedSnapshotsInFirstStageMount info)
  | Call_InitiateMerge => InitiateMerge info sha256 nothrow_new opener garbage
  | Call_ProcessUpdateState fuel callback before_cancel =>
      ignore (ProcessUpdateState info sha256 nothrow_new opener default_opener Realpath garbage cow_fuel page_size
                fuel callback before_cancel)
  | Call_ProcessUpdateStateOnDataWipe fuel callback =>
      ignore (ProcessUpdateStateOnDataWipe info sha256 nothrow_new opener default_opener Realpath garbage
                cow_fuel page_size fuel callback true)
  | Call_GetUpdateState => ignore (GetUpdateState info)
  | Call_UnmapUpdateSnapshot name => UnmapUpdateSnapshot info name
  | Call_UnmapAllSnapshots => UnmapAllSnapshots info
  | Call_CreateUpdateSnapshots manifest =>
      ignore (CreateUpdateSnapshots info sha256 nothrow_new opener default_opener Realpath (b_fetcher b)
                (b_kernel_support b) (b_compression_threads b) (b_batch_writes b) manifest)
  | Call_CreateLogicalAndSnapshotPartitions super_device timeout =>
      CreateLogicalAndSnapshotPartitions info sha256 nothrow_new opener default_opener Realpath super_device timeout
  | Call_MapAllSnapshots timeout => MapAllSnapshots info sha256 nothrow_new opener default_opener Realpath timeout
  | Call_MapUpdateSnapshot params =>
      ignore (MapUpdateSnapshot info sha256 nothrow_new opener default_opener Realpath params)
  | Call_UnmapAllPartitionsInRecovery => UnmapAllPartitionsInRecovery info sha256 nothrow_new opener
  | Call_HandleImminentDataWipe fuel callback =>
      ignore (HandleImminentDataWipe info sha256 nothrow_new opener default_opener Realpath garbage cow_fuel page_size fuel callback)
  | Call_FinishMergeInRecovery fuel =>
      ignore (FinishMergeInRecovery info sha256 nothrow_new opener default_opener Realpath garbage cow_fuel page_size fuel)
  | Call_RecoveryCreateSnapshotDevices =>
      ignore (RecoveryCreateSnapshotDevices info sha256 nothrow_new opener default_opener Realpath)
  | Call_PerformInitTransition transition => ignore (PerformInitTransition info transition)
  | Call_DetachFirstStageSnapuserdForSelinux => DetachFirstStageSnapuserdForSelinux info
  end.
(** The callbacks leave the files alone. *)
Definition harmless_call (c : call W D) : Prop :=
  match c with
  | Call_ProcessUpdateState _ callback before_cancel => harmless callback ∧ harmless before_cancel
  | Call_ProcessUpdateStateOnDataWipe _ callback => harmless callback
  | Call_HandleImminentDataWipe _ callback => harmless callback
  | _ => True
  end.

(** ** Calls that refuse *)

Section Refusals.
Context (info : DeviceInfo) (opener : @IPartitionOpener D).
Lemma lock_step (s : M) (r := LockExclusive info s) : r.1 ≠ Crash ∧ same_disk s r.2.
Proof.
  subst r. unfold LockExclusive, OpenLock, OpenFile, on_world, mbind, io_mbind.
  destruct (open_directory_law (GetLockPath info) (sm_world s)) as (Hc & Hf & Ht).
  destruct (open_directory (GetLockPath info) (sm_world s)) as [[[]| |] w1]; simpl in *; [|by repeat split..].
  destruct (lock_law (GetLockPath info) true w1) as (Hc' & Hf' & Ht'). unfold disk, after; simpl.
  split; [done|]. split; [unfold disk; simpl; congruence|unfold after; simpl; by etrans].
Qed.
Lemma same_state (s s' : M) : same_disk s s' → update_state info s' = update_state info s.
Proof. intros [Hd _]. unfold update_state, update_status. by rewrite Hd. Qed.
Lemma same_slot (s s' : M) : same_disk s s' → slot_of info s' = slot_of info s.
Proof. intros [Hd _]. unfold slot_of. by rewrite Hd. Qed.
(** Lock, state: what follows depends on the state. *)
Lemma lock_and_read {A} (f : UpdateState → IO M A) s :
  let m := (_ ← LockExclusive info; state ← ReadUpdateState info; f state) in
  (∃ s1, m s = (Reject, s1) ∧ same_disk s s1) ∨ (∃ s1, m s = f (update_state info s) s1 ∧ same_disk s s1).
Proof.
  intros m. subst m. destruct (lock_step s) as [Hn Hd]. destruct (LockExclusive info s) as [[[]| |] s1] eqn:E; simpl in *; [|by left; exists s1; rewrite (bind_reject _ _ _ _ E)|done].
  right. rewrite (io_bind_eq _ _ _ _ _ E). destruct (read_update_state info s1) as (s2 & Hr & Hd2).
  rewrite (io_bind_eq _ _ _ _ _ Hr). rewrite (same_state s s1) by done. exists s2. split; [done|by etrans].
Qed.
Lemma lock_read_slot {A} (f : Slot → IO M A) s :
  ∃ s1, (slot ← GetCurrentSlot info; f slot) s = f (slot_of info s) s1 ∧ same_disk s s1.
Proof. destruct (read_slot info s) as (s1 & Hr & Hd). exists s1. by rewrite (io_bind_eq _ _ _ _ _ Hr). Qed.

(** A merge starts only after the snapshots were finished, on the slot that was updated. *)
Lemma initiate_refuses s (r := InitiateMerge info sha256 nothrow_new opener garbage s) :
  update_state info s ≠ UpdateState.Unverified ∨ slot_of info s ≠ Target → r.1 = Reject ∧ same_disk s r.2.
Proof.
  intros H. subst r. unfold InitiateMerge.
  match goal with |- context [(_ ← LockExclusive info; state ← ReadUpdateState info; @?f state) s] =>
    destruct (lock_and_read f s) as [(s1 & -> & Hd)|(s1 & -> & Hd)] end; [done|]. simpl.
  destruct (decide (update_state info s = UpdateState.Unverified)) as [Hu|Hu].
  2: { rewrite (bind_reject _ _ s1 s1) by (unfold lift; by rewrite require_False). done. }
  rewrite io_require by done. destruct H as [H|H]; [done|].
  match goal with |- context [(slot ← GetCurrentSlot info; @?f slot) s1] =>
    destruct (lock_read_slot f s1) as (s2 & -> & Hd2) end.
  rewrite (bind_reject _ _ s2 s2); [split; [done|by etrans]|].
  unfold lift. rewrite require_False; [done|]. by rewrite (same_slot s s1).
Qed.
(** Nothing is cancelled after a boot into the updated slot. *)
Definition booted (s : M) : Prop :=
  match update_state info s with
  | UpdateState.None | UpdateState.Initiated => False
  | UpdateState.Unverified => slot_of info s = Target
  | _ => True
  end.
#[export] Instance booted_dec s : Decision (booted s).
Proof. unfold booted. destruct (update_state info s); apply _. Defined.
Lemma try_cancel_refuses s (r := TryCancelUpdate info sha256 nothrow_new opener s) :
  booted s → (r.1 = Reject ∨ r.1 = Ret true) ∧ same_disk s r.2.
Proof.
  intros H. subst r. unfold TryCancelUpdate, booted in *.
  match goal with |- context [(_ ← LockExclusive info; state ← ReadUpdateState info; @?f state) s] =>
    destruct (lock_and_read f s) as [(s1 & -> & Hd)|(s1 & -> & Hd)] end; [by split; [left|]|].
  destruct (update_state info s); try done; try (by split; [right|]). simpl.
  match goal with |- context [(slot ← GetCurrentSlot info; @?f slot) s1] =>
    destruct (lock_read_slot f s1) as (s2 & -> & Hd2) end.
  rewrite decide_False by (rewrite (same_slot s s1) by done; naive_solver).
  split; [by right|]. simpl. by etrans.
Qed.
Lemma cancel_refuses s (r := CancelUpdate info sha256 nothrow_new opener s) :
  booted s → r.1 = Reject ∧ same_disk s r.2.
Proof.
  intros [H Hd]%try_cancel_refuses. subst r. unfold CancelUpdate.
  destruct (TryCancelUpdate info sha256 nothrow_new opener s) as [r s1] eqn:E; simpl in *.
  destruct H as [-> | ->]; [by rewrite (bind_reject _ _ _ _ E)|].
  rewrite (io_bind_eq _ _ _ _ _ E). unfold lift. by rewrite require_False.
Qed.
End Refusals.

(** ** The machine *)

Section Follows.
Context (b : Boot D).
Local Abbreviation info := (b_info b).
#[local] Existing Instance elsewhere_frame.
Hint Resolve elsewhere_status elsewhere_status_tmp : keeps.
Lemma keeps_create snapuserd threading batched compression status :
  keeps (only (elsewhere info)) (CreateSnapshot info snapuserd threading batched compression status).
Proof.
  unfold CreateSnapshot. do 5 (apply keeps_bind; [keeps|intros _]). apply keeps_bind; [|intros; keeps].
  eapply keeps_write_snapshot; eauto with keeps nocore.
Qed.
Lemma keeps_need : keeps (only (elsewhere info)) (NeedSnapshotsInFirstStageMount info).
Proof.
  unfold NeedSnapshotsInFirstStageMount. apply keeps_bind; [keeps|intros []]; [keeps| |keeps].
  apply keeps_bind; [|intros; keeps]. apply keeps_ignore. eapply keeps_touches; [apply write_file_law|].
  by apply elsewhere_metadata.
Qed.
Lemma keeps_get_state : keeps (only (elsewhere info)) (GetUpdateState info).
Proof. unfold GetUpdateState. keeps. Qed.
Lemma keeps_unmap_update name : keeps (only (elsewhere info)) (UnmapUpdateSnapshot info name).
Proof. unfold UnmapUpdateSnapshot. keeps. Qed.
Lemma keeps_unmap_all : keeps (only (elsewhere info)) (UnmapAllSnapshots info).
Proof. unfold UnmapAllSnapshots. keeps. Qed.
Lemma is_state_refl x : is_state x x = true.
Proof. by destruct x. Qed.
Lemma stays {A} (m : IO M A) (s : M) : keeps (only (elsewhere info)) m →
  is_state (update_state info s) (update_state info (m s).2) = true.
Proof. intros H. rewrite (only_elsewhere info s (m s).2 (H s)). apply is_state_refl. Qed.
Local Abbreviation slot s := (slot_of info s).
Local Abbreviation ustate s := (update_state info s).
Local Abbreviation given_up := (given_up info sha256 nothrow_new (b_opener b)).
Local Abbreviation TryCancelUpdate := (TryCancelUpdate info sha256 nothrow_new (b_opener b)).
Local Abbreviation end_previous :=
  (end_previous info sha256 nothrow_new (b_opener b) (b_default_opener b) Realpath garbage cow_fuel page_size).
Local Abbreviation BeginUpdate :=
  (BeginUpdate info sha256 nothrow_new (b_opener b) (b_default_opener b) Realpath garbage cow_fuel page_size).
Lemma from_cancel (s : M) : ¬ booted info s →
  cancel_spec (slot s) (ustate s) (ustate (TryCancelUpdate s).2) = true.
Proof.
  intros Hb. set (T := or_same (λ y, cancel_spec (slot s) (ustate s) y = true)).
  assert (HT : Reflexive T) by by left.
  assert (H : from info (ustate s) T TryCancelUpdate).
  { apply from_try_cancel; [exact HT|]. intros Hx. right. unfold booted in Hb.
    destruct Hx as [Hx|Hx]; rewrite Hx in *; [done|]. unfold cancel_spec. simpl. by rewrite bool_decide_true. }
  destruct (H s eq_refl) as [->|]; [unfold cancel_spec; by rewrite is_state_refl|done].
Qed.
Lemma ignore_state {A} (m : IO M A) s : (ignore m s).2 = (m s).2.
Proof. unfold ignore, try_, mbind, io_mbind. by destruct (m s) as [[a| |] s1]. Qed.
Lemma then_false (m : IO M unit) s : ((_ ← m; mret false) s).1 ≠ Ret true.
Proof. unfold mbind, io_mbind. by destruct (m s) as [[| |] ?]. Qed.
Lemma try_cancel_true (s : M) : (TryCancelUpdate s).1 = Ret true → booted info s.
Proof.
  unfold SnapManager.TryCancelUpdate, booted.
  match goal with |- context [(_ ← LockExclusive info; state ← ReadUpdateState info; @?f state) s] =>
    destruct (lock_and_read info f s) as [(s1 & -> & Hd)|(s1 & -> & Hd)] end; [done|].
  destruct (ustate s); try done; try (by intros H%then_false). simpl.
  match goal with |- context [(slot ← GetCurrentSlot info; @?f slot) s1] =>
    destruct (lock_read_slot info f s1) as (s2 & -> & Hd2) end.
  rewrite (same_slot info s s1) by done. case_decide; [by intros H2%then_false|]. intros _.
  destruct (decide (slot s = Target)); tauto.
Qed.
(** What is left of the update when an earlier one has ended. *)
Lemma end_previous_follows fuel (s : M) :
  ∃ gu : bool, (gu = true → given_up alive s) ∧
    end_spec (slot s) gu (ustate s) (ustate (end_previous fuel s).2) = true.
Proof.
  unfold SnapMerge.end_previous. destruct (decide (booted info s)) as [Hb|Hb].
  - destruct (try_cancel_refuses info (b_opener b) s Hb) as [Hr Hd].
    destruct (TryCancelUpdate s) as [r s1] eqn:E. simpl in Hr, Hd. destruct Hr as [-> | ->].
    { exists false. rewrite (bind_reject _ _ _ _ E). cbn [snd]. rewrite (same_state info s s1) by done.
      unfold end_spec, cancel_spec. by rewrite is_state_refl. }
    rewrite (io_bind_eq _ _ _ _ _ E). cbn match.
    destruct (process_follows info sha256 nothrow_new (b_opener b) (b_default_opener b) Realpath garbage cow_fuel page_size
      fuel None None s1 I I) as (gu & Hg & Hp). exists gu. split.
    { intros H. eapply given_up_earlier; [by apply same_disk_only|auto]. }
    rewrite (same_state info s s1) in Hp by done. unfold end_spec. rewrite orb_true_iff. right. rewrite <-Hp. f_equal.
    unfold mbind, io_mbind. by destruct (ProcessUpdateState _ _ _ _ _ _ _ _ _ _ _ _ s1) as [[[]| |] s2].
  - exists false. split; [done|]. pose proof (from_cancel s Hb) as Hs. assert (Ht : (TryCancelUpdate s).1 ≠ Ret true) by (intros H; by apply Hb, try_cancel_true).
    unfold end_spec. rewrite orb_true_iff. left. rewrite <-Hs. f_equal.
    unfold mbind, io_mbind. by destruct (TryCancelUpdate s) as [[[]| |] s1].
Qed.
(** An update begins where there is none. *)
Lemma begin_after fuel (s : M) (x := ustate (end_previous fuel s).2) :
  ustate (BeginUpdate fuel s).2 = x ∨ x = UpdateState.None ∧ ustate (BeginUpdate fuel s).2 = UpdateState.Initiated.
Proof.
  subst x. unfold SnapMerge.BeginUpdate. destruct (end_previous fuel s) as [[[]| |] s1] eqn:E;
    [rewrite (io_bind_eq _ _ _ _ _ E)|rewrite (bind_reject _ _ _ _ E); by left|rewrite (bind_crash _ _ _ _ E); by left].
  simpl. clear E s. set (T := or_same (λ y, ustate s1 = UpdateState.None ∧ y = UpdateState.Initiated)).
  assert (HT : Reflexive T) by by left.
  match goal with |- context [(LockExclusive info ≫= ?f) s1] =>
    assert (H : from info (ustate s1) T (LockExclusive info ≫= f)); [|by apply H] end.
  do 4 (apply from_bind; [done|keeps|intros ?]). apply from_read.
  apply from_lift; [done|]. intros [] Hx%require_Ret. apply from_write; [done|]. by right.
Qed.
Lemma begin_follows fuel (s : M) :
  ∃ gu : bool, (gu = true → given_up alive s) ∧
    begin_spec (slot s) gu (ustate s) (ustate (BeginUpdate fuel s).2) = true.
Proof.
  destruct (end_previous_follows fuel s) as (gu & Hg & He). exists gu. split; [done|]. unfold begin_spec.
  destruct (begin_after fuel s) as [->|[Hx ->]]; [by rewrite He|]. rewrite Hx in He. by rewrite He, orb_true_r.
Qed.
Lemma begin_guard fuel (s : M) : ustate (BeginUpdate fuel s).2 = UpdateState.Initiated →
  ustate s = UpdateState.Initiated ∨ ustate (end_previous fuel s).2 = UpdateState.None.
Proof.
  intros Hi. destruct (begin_after fuel s) as [H|[H _]]; [left|by right]. rewrite Hi in H.
  destruct (end_previous_follows fuel s) as (gu & _ & He). rewrite <-H in He. revert He.
  by destruct gu, (slot s), (ustate s).
Qed.
(** Every call follows the machine. *)
Lemma run_follows c (s : M) : harmless_call c →
  ∃ gu : bool, (gu = true → given_up (changed_before info c) s) ∧
    allowed c (slot s) gu (ustate s) (ustate (run b c s).2) = true.
Proof.
  intros Hc. destruct c; simpl.
  1: apply begin_follows.
  6: destruct Hc as [Hc Hb]; destruct (process_follows info sha256 nothrow_new (b_opener b) (b_default_opener b) Realpath garbage
       cow_fuel page_size fuel callback before_cancel s Hc Hb) as (gu & Hg & H); exists gu; by rewrite ignore_state.
  6: destruct (wipe_follows info sha256 nothrow_new (b_opener b) (b_default_opener b) Realpath garbage
       cow_fuel page_size fuel callback true s Hc) as (gu & Hg & H); exists gu; by rewrite ignore_state.
  15: destruct (finish_merge_follows info sha256 nothrow_new (b_opener b) (b_default_opener b) Realpath garbage
       cow_fuel page_size fuel s) as (gu & Hg & H); exists gu; by rewrite ignore_state.
  all: exists false; split; [done|]; simpl in *.
  - destruct (decide (booted info s)) as [Hb|Hb].
    { destruct (cancel_refuses info (b_opener b) s Hb) as [_ Hd]. rewrite (same_state info _ _ Hd).
      unfold cancel_spec. by rewrite is_state_refl. }
    rewrite <-(from_cancel s Hb). f_equal. unfold CancelUpdate, mbind, io_mbind.
    by destruct (TryCancelUpdate s) as [[[]| |] s1].
  - apply stays, keeps_ignore, keeps_create.
  - assert (H : from info (update_state info s) (transitions finish_spec) (FinishedSnapshotWrites info wipe)).
    { assert (HT : Reflexive (transitions finish_spec)) by (by intros []). apply from_finish; [exact HT|]. by intros ->. }
    by apply H.
  - apply stays, keeps_ignore, keeps_need.
  - destruct (decide (update_state info s ≠ UpdateState.Unverified ∨ slot_of info s ≠ Target)) as [Hr|Hr].
    { destruct (initiate_refuses info (b_opener b) s Hr) as [_ Hd]. rewrite (same_state info _ _ Hd).
      unfold initiate_spec. by rewrite is_state_refl. }
    set (T := or_same (λ y, initiate_spec (slot_of info s) (update_state info s) y = true)).
    assert (HT : Reflexive T) by by left.
    assert (H : from info (update_state info s) T (InitiateMerge info sha256 nothrow_new (b_opener b) garbage)).
    { apply from_initiate; [exact HT|]. intros Hx. assert (Ht : slot_of info s = Target) by (destruct (decide (slot_of info s = Target)); naive_solver). unfold T, initiate_spec. rewrite Hx, Ht.
      by split; right. }
    destruct (H s eq_refl) as [->|]; [unfold initiate_spec; by rewrite is_state_refl|done].
  - apply stays, keeps_ignore, keeps_get_state.
  - apply stays, keeps_unmap_update.
  - apply stays, keeps_unmap_all.
  - assert (HT : Reflexive (λ x y, is_state x y = true)) by (intros x; apply is_state_refl).
    assert (H : from info (update_state info s) (λ x y, is_state x y = true)
      (CreateUpdateSnapshots info sha256 nothrow_new (b_opener b) (b_default_opener b) Realpath (b_fetcher b)
         (b_kernel_support b) (b_compression_threads b) (b_batch_writes b) manifest)) by by apply from_create.
    by apply (from_ignore info _ _ H).
  - apply stays. eapply keeps_create_logical; [typeclasses eauto|apply elsewhere_status].
  - apply stays. eapply keeps_map_all; [typeclasses eauto|apply elsewhere_status].
  - apply stays, keeps_ignore. eapply keeps_map_update; [typeclasses eauto|apply elsewhere_status].
  - apply stays. eapply keeps_unmap_recovery; typeclasses eauto.
  - rewrite ignore_state. by apply keeps_data_wipe.
  - apply stays, keeps_ignore. eapply keeps_recovery_create; [typeclasses eauto|apply elsewhere_status|by apply elsewhere_metadata].
  - apply stays, keeps_ignore. eapply keeps_transition; typeclasses eauto.
  - apply stays. eapply keeps_detach_first_stage; typeclasses eauto.
Qed.
End Follows.

(** ** Sessions *)

(** What the state file in a metadata directory says. *)
Definition state_in (dir : bytes) (s : M) : UpdateState :=
  match disk s (dir ++ str "/state") with
  | None => UpdateState.None
  | Some contents => us_state (parse_state_file contents)
  end.
Lemma state_in_info info (s : M) : state_in (GetMetadataDir info) s = update_state info s.
Proof. unfold state_in, update_state, update_status, GetStateFilePath. by destruct (disk s _). Qed.
Inductive session (dir : bytes) : list (call W D) → M → M → Prop :=
| session_nil s : session dir [] s s
| session_call cs s0 s b c :
    session dir cs s0 s → GetMetadataDir (b_info b) = dir → harmless_call c →
    session dir (cs ++ [c]) s0 (run b c s).2
| session_reboot cs s0 s w :
    session dir cs s0 s → file w = disk s → session dir cs s0 (NewSnapshotManager w).
Definition begins (c : call W D) : bool := match c with Call_BeginUpdate _ => true | _ => false end.
Definition finishes (c : call W D) : bool := match c with Call_FinishedSnapshotWrites _ => true | _ => false end.
Definition merges (c : call W D) : bool :=
  match c with
  | Call_InitiateMerge | Call_ProcessUpdateStateOnDataWipe _ _ | Call_HandleImminentDataWipe _ _ => true
  | _ => false
  end.
(** Calls with these properties were made in this order. *)
Definition in_order (ps : list (call W D → bool)) (cs : list (call W D)) : Prop :=
  ∃ ks, Forall2 (λ k p, p k = true) ks ps ∧ ks `sublist_of` cs.
Lemma in_order_more ps cs c : in_order ps cs → in_order ps (cs ++ [c]).
Proof. intros (ks & Hk & Hs). exists ks. split; [done|]. by apply sublist_inserts_r. Qed.
Lemma in_order_last ps p cs c : in_order ps cs → p c = true → in_order (ps ++ [p]) (cs ++ [c]).
Proof.
  intros (ks & Hk & Hs) Hp. exists (ks ++ [c]). split; [|by apply sublist_app].
  apply Forall2_app; [done|]. by constructor.
Qed.
Lemma in_order_nil cs : in_order [] cs.
Proof. exists []. split; [constructor|apply sublist_nil_l]. Qed.
(** What must have been called to get to a state. *)
Definition history (x : UpdateState) : list (call W D → bool) :=
  match x with
  | UpdateState.None | UpdateState.Cancelled => []
  | UpdateState.Initiated => [begins]
  | UpdateState.Unverified => [begins; finishes]
  | _ => [begins; finishes; merges]
  end.
Lemma history_step c slot gu x y cs : x ≠ UpdateState.Cancelled →
  allowed c slot gu x y = true → in_order (history x) cs → in_order (history y) (cs ++ [c]) ∧ y ≠ UpdateState.Cancelled.
Proof.
  intros Hx Ha H.
  assert (Hm : in_order (history x) (cs ++ [c])) by by apply in_order_more.
  assert (Hl : ∀ p, p c = true → in_order (history x ++ [p]) (cs ++ [c])) by (intros; by apply in_order_last).
  destruct (decide (y = x)) as [->|Hyx]; [done|].
  destruct c, x; try done; destruct y; try done; simpl in *; split; try done; try apply in_order_nil; try exact Hm;
    try (by apply (Hl begins)); try (by apply (Hl finishes)); try (by apply (Hl merges)).
  all: try (by destruct slot, gu). all: by apply (in_order_last [] begins); [apply in_order_nil|].
Qed.
(** An update gets where it is by the calls that lead there, in their order. *)
Lemma session_history dir cs s0 s : session dir cs s0 s → state_in dir s0 = UpdateState.None →
  in_order (history (state_in dir s)) cs ∧ state_in dir s ≠ UpdateState.Cancelled.
Proof.
  intros Hs H0. induction Hs as [s|cs s0 s b c Hs IH Hd Hc|cs s0 s w Hs IH Hw].
  - rewrite H0. split; [apply in_order_nil|done].
  - destruct (IH H0) as [Ho Hx]. subst dir. rewrite state_in_info in *.
    destruct (run_follows b c s Hc) as (gu & _ & Ha). by eapply history_step.
  - unfold state_in, disk in *. simpl. rewrite Hw. by apply IH.
Qed.
End Session.
