(* ===== verification/SnapEffects.v ===== *)
(** * What the calls of the manager achieve

    Deleting a device ends; the end of the writes reaches the disk in an order that a loss
    of power cannot break; a cancelled update leaves no snapshot behind. *)
From stdpp Require Import gmap.
From S2P Require Import Prelude Bytes LpFormat LpUtility Device LpReader DmTarget DeviceMapper DmLinear.
From S2P Require Import CowFormat CowReader SnapUpdate SnapCow SnapWorld SnapState SnapDevices SnapManager.
From S2P Require Import SnapMerge SnapFrame SnapSpec.

Section Effects.
Context `{HSP : !SnapProto} {W : Type} `{HW : SnapWorldLaws W} (info : DeviceInfo).
Local Abbreviation M := (SnapshotManager W).

(** ** Deleting a device *)

Definition now (s : M) : Z := time (sm_world s).
Lemma now_after (s s' : M) : after s s' → now s ≤ now s'.
Proof. apply later_time. Qed.
Lemma on_world_quiet {A} (m : IO W A) (s : M) : quiet file later m →
  (on_world m s).1 ≠ Crash ∧ after s (on_world m s).2.
Proof. intros H. destruct (H (sm_world s)) as (Hc & _ & Ha). by split. Qed.
Lemma succeeds_quiet {A} (m : IO W A) (s : M) : quiet file later m →
  ∃ b s1, succeeds (on_world m) s = (Ret b, s1) ∧ after s s1.
Proof.
  intros H. destruct (on_world_quiet m s H) as [Hc Ha]. unfold succeeds, try_, mbind, io_mbind.
  destruct (on_world m s) as [[a| |] s1]; [by exists true, s1|by exists false, s1|done].
Qed.
Lemma read_clock (s : M) : ∃ s1, on_world clock_now s = (Ret (now s1), s1) ∧ after s s1.
Proof.
  destruct (clock_law (sm_world s)) as (_ & _ & Ha). exists (with_world (clock_now (sm_world s)).2 s). split; [|exact Ha].
  unfold on_world. by rewrite clock_result.
Qed.
(** The loop sleeps often enough for the clock to get past the deadline. *)
Lemma delete_loop_ends fuel name timeout_ms start (s : M) :
  ((timeout_ms - (now s - start)) `max` 0 + 399) / 400 < Z.of_nat fuel →
  ∃ b, (delete_loop fuel name timeout_ms start s).1 = Ret b.
Proof.
  revert s. induction fuel as [|fuel IH]; intros s Hf.
  { assert (0 ≤ ((timeout_ms - (now s - start)) `max` 0 + 399) / 400) by (apply Z.div_pos; lia). lia. }
  simpl. destruct (succeeds_quiet (dm_DeleteDeviceIfExists name) s (delete_device_law name)) as (b & s1 & E & Ha).
  rewrite (io_bind_eq _ _ _ _ _ E). destruct b; [by exists true|].
  destruct (read_clock s1) as (s2 & E2 & Ha2). rewrite (io_bind_eq _ _ _ _ _ E2).
  case_decide as Ht; [by exists false|].
  destruct (sleep_result 400 (sm_world s2)) as [Es Hs].
  assert (E3 : on_world (sleep_ms 400) s2 = (Ret (), with_world (sleep_ms 400 (sm_world s2)).2 s2)) by (unfold on_world; by rewrite Es).
  rewrite (io_bind_eq _ _ _ _ _ E3). apply IH. unfold now at 1. simpl.
  pose proof (now_after _ _ Ha). pose proof (now_after _ _ Ha2). unfold now in *.
  set (x' := time (sleep_ms 400 (sm_world s2)).2) in *. set (x := time (sm_world s)) in *.
  assert (Hd : ((timeout_ms - (x' - start)) `max` 0 + 399) / 400 + 1 ≤ ((timeout_ms - (x - start)) `max` 0 + 399) / 400); [|lia].
  destruct (decide (x' - start ≤ timeout_ms)).
  - rewrite <-Z.div_add by lia. apply Z.div_le_mono; lia.
  - rewrite (Z.max_r (timeout_ms - (x' - start))) by lia. change ((0 + 399) / 400) with 0.
    apply Z.div_le_lower_bound; lia.
Qed.
Lemma delete_device_ends name timeout_ms (s : M) : 0 ≤ timeout_ms →
  (DeleteDeviceIfExists name timeout_ms s).1 ≠ Crash.
Proof.
  intros Ht. unfold DeleteDeviceIfExists. destruct (read_clock s) as (s1 & E & Ha). rewrite (io_bind_eq _ _ _ _ _ E).
  destruct (delete_loop_ends (S (S (Z.to_nat (timeout_ms / 400)))) name timeout_ms (now s1) s1) as [b Hb].
  { rewrite Z.sub_diag, Z.sub_0_r, Z.max_l by lia. pose proof (Z.div_pos timeout_ms 400 Ht ltac:(lia)).
    assert ((timeout_ms + 399) / 400 ≤ timeout_ms / 400 + 1); [|lia]. rewrite <-Z.div_add by lia. apply Z.div_le_mono; lia. }
  destruct (delete_loop _ name timeout_ms (now s1) s1) as [r s2] eqn:E2. simpl in Hb. subst r.
  rewrite (io_bind_eq _ _ _ _ _ E2). destruct b; [done|].
  destruct (on_world_quiet (dm_GetDmDevicePathByName name) s2 (device_path_law name)) as [Hc _].
  unfold ignore, try_, mbind, io_mbind. by destruct (on_world _ s2) as [[?| |] s3].
Qed.

(** ** The end of the writes *)

#[local] Existing Instance elsewhere_frame.
Definition indicators_ready (s : M) : Prop :=
  disk s (GetSnapshotBootIndicatorPath info) = Some (GetSlotSuffix info) ∧ disk s (GetRollbackIndicatorPath info) = None.
Lemma removed_file p (s : M) s1 : on_world (RemoveFileIfExists p) s = (Ret (), s1) → disk s1 p = None.
Proof. intros [= Hr <-]. destruct (remove_result p (sm_world s)) as [_ H]. unfold disk. simpl. by apply H. Qed.
(** Two names in the metadata directory, one of them perhaps of a temporary file. *)
Lemma tmp_path_neq (a b : bytes) : a ++ str ".tmp" ≠ b → GetMetadataDir info ++ b ≠ tmp (GetMetadataDir info ++ a).
Proof. intros H E. unfold tmp in E. rewrite <-(assoc_L (++)) in E. apply (inj (app _)) in E. by apply H. Qed.
Lemma ready_untouched (s s' : M) : only (λ p, p = GetStateFilePath info ∨ p = tmp (GetStateFilePath info)) s s' →
  indicators_ready s → indicators_ready s'.
Proof.
  intros Ho [Hb Hr]. split; rewrite (only_disk _ _ _ _ Ho); try done;
    (intros [E|E]; [by apply metadata_path_neq in E|by apply tmp_path_neq in E]).
Qed.
(** The state says that the writes are finished only when the indicators say so as well. *)
Definition finishing (r : outcome unit * M) : Prop :=
  (update_state info r.2 = UpdateState.Initiated ∨
   update_state info r.2 = UpdateState.Unverified ∧ indicators_ready r.2) ∧
  (r.1 = Ret () → update_state info r.2 = UpdateState.Unverified).
Lemma finishing_bind {A} (m : IO M A) (f : A → IO M unit) (s : M) :
  keeps (only (elsewhere info)) m → update_state info s = UpdateState.Initiated →
  (∀ a s1, m s = (Ret a, s1) → update_state info s1 = UpdateState.Initiated → finishing (f a s1)) →
  finishing ((m ≫= f) s).
Proof.
  intros Hm Hs Hf. specialize (Hm s). apply only_elsewhere in Hm. unfold mbind, io_mbind.
  destruct (m s) as [[a| |] s1]; simpl in Hm; [apply Hf; [done|congruence]|by split; [left; simpl; congruence|]..].
Qed.
Lemma boot_elsewhere : elsewhere info (GetSnapshotBootIndicatorPath info) ∧ elsewhere info (tmp (GetSnapshotBootIndicatorPath info)).
Proof.
  split; [by apply elsewhere_metadata|]. unfold tmp, GetSnapshotBootIndicatorPath. rewrite <-(assoc_L (++)).
  by apply elsewhere_metadata.
Qed.
Lemma finish_effect wipe (s : M) : update_state info s = UpdateState.Initiated →
  finishing (FinishedSnapshotWrites info wipe s).
Proof.
  intros Hs. unfold FinishedSnapshotWrites.
  match goal with |- context [(_ ← LockExclusive info; state ← ReadUpdateState info; @?f state) s] =>
    destruct (lock_and_read info f s) as [(s1 & -> & Hd)|(s1 & -> & Hd)] end.
  { split; [left; by rewrite (same_state info s s1)|done]. }
  rewrite Hs. cbn beta iota. assert (H1 : update_state info s1 = UpdateState.Initiated) by by rewrite (same_state info s s1).
  apply finishing_bind; [keeps|done|]. intros [] s2 _ H2.
  apply finishing_bind; [eapply keeps_forward; [apply _|by apply elsewhere_metadata]|done|]. intros [] s3 _ H3.
  apply finishing_bind; [eapply keeps_touches; [apply remove_law|by apply elsewhere_metadata]|done|].
  intros [] s4 Hrb%removed_file H4.
  apply finishing_bind; [by apply keeps_write; apply boot_elsewhere|done|]. intros [] s5 E5 H5.
  destruct (write_atomic (GetSlotSuffix info) (GetSnapshotBootIndicatorPath info) s4) as (_ & Hret & _ & Hw).
  rewrite E5 in Hret, Hw. simpl in Hret, Hw. specialize (Hret eq_refl).
  assert (Hr : indicators_ready s5).
  { split; [done|]. rewrite (only_disk _ _ _ _ Hw); [done|].
    intros [E|E]; [by apply metadata_path_neq in E|by apply tmp_path_neq in E]. }
  destruct (write_state info UpdateState.Unverified MergeFailureCode.Ok s5) as (Hor & Hok & _ & Ho).
  unfold finishing, update_state in *. split.
  - destruct Hor as [-> | ->]; [by left|right]. rewrite next_status_state. split; [done|]. by eapply ready_untouched.
  - intros Hres. rewrite (Hok Hres). apply next_status_state.
Qed.

(** ** Removing snapshots *)

Local Abbreviation status_path := (GetSnapshotStatusFilePath info).
(** Status files only go away. *)
Definition erases : relation M := λ s s', after s s' ∧
  ∀ name, disk s' (status_path name) = disk s (status_path name) ∨ disk s' (status_path name) = None.
#[export] Instance erases_preorder : PreOrder erases.
Proof.
  split; [by intros s; split; auto|]. intros s1 s2 s3 [Ha1 H1] [Ha2 H2]. split; [by etrans|].
  intros name. destruct (H2 name) as [->|]; auto.
Qed.
Definition no_status (p : bytes) : Prop := ∀ name, p ≠ status_path name.
#[export] Instance erases_frame : Frame erases no_status.
Proof.
  split; [apply _| |].
  - intros s s' [Hd Ha]. split; [done|]. intros name. left. apply Hd. intros Hn. by apply (Hn name).
  - intros name. apply not_eq_sym, status_not_indicator.
Qed.
Lemma erases_delete name : keeps erases (DeleteSnapshot info name).
Proof.
  unfold DeleteSnapshot. do 2 (keeps_step; [keeps|]). keeps_step; [keeps|]. do 2 (keeps_step; [keeps|]).
  intros s. destruct (remove_law (status_path name) (sm_world s)) as (_ & Hf & Ha).
  destruct (remove_result (status_path name) (sm_world s)) as [Hr _]. split; [exact Ha|].
  intros n. unfold disk, on_world; simpl. destruct (decide (n = name)) as [->|Hn]; [tauto|].
  left. apply Hf. by intros E%status_inj.
Qed.
Lemma erases_dir rest : (∀ name, rest ≠ str "/snapshots/" ++ name) → no_status (GetMetadataDir info ++ rest).
Proof. intros Hr name E%(inj (app _)). by apply (Hr name). Qed.
Context (sha256 : bytes → bytes) (nothrow_new : Z → bool) {D : Type} `{!BlockIO D}.
Context (opener : @IPartitionOpener D).
Lemma erases_remove prolog : harmless prolog →
  keeps erases (RemoveAllUpdateState info sha256 nothrow_new opener prolog).
Proof.
  intros Hb. unfold RemoveAllUpdateState. keeps_step; [destruct prolog; keeps|]. keeps_step; [keeps|].
  keeps_step. { unfold RemoveAllSnapshots, remove_snapshot. keeps; apply erases_delete. }
  keeps_step.
  { apply keeps_each. intros p Hp. apply keeps_ignore. eapply keeps_touches; [apply remove_law|].
    repeat (apply elem_of_cons in Hp; destruct Hp as [->|Hp]); [by apply erases_dir..|]. by apply not_elem_of_nil in Hp. }
  unfold WriteUpdateState. assert (∀ u, keeps erases (WriteSnapshotUpdateStatus info u)); [|keeps; auto].
  intros u. eapply keeps_write_update; [typeclasses eauto|by apply erases_dir|].
  unfold tmp, GetStateFilePath. rewrite <-(assoc_L (++)). by apply erases_dir.
Qed.
Lemma list_entry_here acc name : name ∈ list_entry [] acc (name, true).
Proof.
  unfold list_entry. simpl.
  destruct (merged_first name); [left|apply elem_of_app; right; left].
Qed.
Lemma list_entry_old acc e name : name ∈ acc → name ∈ list_entry [] acc e.
Proof.
  intros H. unfold list_entry. destruct e as [n [|]]; simpl; [|done].
  destruct (merged_first n); [by right|by apply elem_of_app; left].
Qed.
Lemma list_entries entries acc name : (name, true) ∈ entries ∨ name ∈ acc → name ∈ foldl (list_entry []) acc entries.
Proof.
  revert acc. induction entries as [|e entries IH]; intros acc; simpl.
  { by intros [?%not_elem_of_nil|]. }
  intros H. apply IH. destruct H as [[<-|H]%elem_of_cons|H]; [|by left|].
  - right. apply list_entry_here.
  - right. by apply list_entry_old.
Qed.
Lemma delete_removed name (s : M) s' : DeleteSnapshot info name s = (Ret (), s') → IsRecovery info = false →
  disk s' (status_path name) = None.
Proof.
  intros H Hrec. unfold DeleteSnapshot in H. rewrite Hrec in H.
  do 2 (apply io_bind_Ret in H as (? & ? & _ & H)). apply io_bind_Ret in H as (? & ? & _ & H).
  apply io_bind_Ret in H as (? & ? & _ & H). by apply removed_file in H.
Qed.
Lemma succeeds_true {A} (m : IO M A) (s : M) s' : succeeds m s = (Ret true, s') → ∃ a, m s = (Ret a, s').
Proof.
  unfold succeeds, try_, mbind, io_mbind. destruct (m s) as [[a| |] s1]; intros H; try discriminate H. injection H as <-. by exists a.
Qed.
(** Programs that only read. *)
Definition indicator (p : bytes) : Prop := p = GetDaemonAliveIndicatorPath.
#[export] Instance indicator_frame : Frame (only (W := W) indicator) indicator.
Proof. by apply only_frame. Qed.
Lemma indicator_slot (s s' : M) : only indicator s s' → slot_of info s' = slot_of info s.
Proof. intros H. unfold slot_of. by rewrite (only_disk _ _ _ _ H) by apply boot_not_indicator. Qed.
Section Cancelled.
Hypothesis not_recovery : IsRecovery info = false.
Lemma snapshot_removed status slot name ok mapped (s : M) mapped' s' : slot ≠ Target →
  remove_snapshot info status slot name (ok, mapped) s = (Ret (true, mapped'), s') →
  ok = true ∧ disk s' (status_path name) = None.
Proof.
  intros Hslot H. unfold remove_snapshot in H. apply io_bind_Ret in H as (should & s1 & Hd & H).
  unfold ShouldDeleteSnapshot in Hd. rewrite decide_True in Hd by done. injection Hd as <- <-.
  apply io_bind_Ret in H as (unmap & s2 & _ & H). apply io_bind_Ret in H as (unmapped & s3 & _ & H).
  rewrite andb_true_r in H. apply io_bind_Ret in H as (removed & s4 & Hr & H).
  destruct removed; [injection H as -> _ <-|].
  - split; [done|]. destruct unmapped; [|by injection Hr]. apply succeeds_true in Hr as [[] Hr]. by eapply delete_removed.
  - do 2 (apply io_bind_Ret in H as (? & ? & _ & H)). by injection H.
Qed.
Lemma erases_remove_snapshot status slot name st : keeps erases (remove_snapshot info status slot name st).
Proof. unfold remove_snapshot. keeps; apply erases_delete. Qed.
Lemma erases_None (s s' : M) name : erases s s' → disk s (status_path name) = None → disk s' (status_path name) = None.
Proof. intros [_ H] E. by destruct (H name) as [->|]. Qed.
Lemma snapshots_removed status slot names ok mapped (s : M) mapped' s' : slot ≠ Target →
  io_fold (remove_snapshot info status slot) names (ok, mapped) s = (Ret (true, mapped'), s') →
  ok = true ∧ ∀ name, name ∈ names → disk s' (status_path name) = None.
Proof.
  intros Hslot. revert ok mapped s. induction names as [|n names IH]; intros ok mapped s H; simpl in H.
  { injection H as -> _ _. split; [done|]. by intros name ?%not_elem_of_nil. }
  apply io_bind_Ret in H as ([ok1 mapped1] & s1 & H1 & H2). destruct (IH _ _ _ H2) as [-> Hn].
  apply snapshot_removed in H1 as [-> H1]; [|done]. split; [done|].
  intros name [->|Hin]%elem_of_cons; [|by apply Hn]. eapply erases_None; [|exact H1].
  assert (keeps erases (io_fold (remove_snapshot info status slot) names (true, mapped1))) as Hk
    by (apply keeps_fold; intros; apply erases_remove_snapshot).
  specialize (Hk s1). by rewrite H2 in Hk.
Qed.
Definition no_snapshots (s : M) : Prop := ∀ name, name ≠ [] → Byte.x2f ∉ name → disk s (status_path name) = None.
Lemma listed (s : M) names s1 name : ListSnapshots info [] s = (Ret names, s1) →
  name ≠ [] → Byte.x2f ∉ name → is_Some (disk s (status_path name)) → name ∈ names.
Proof.
  unfold ListSnapshots. intros (entries & s2 & He & Hr)%io_bind_Ret Hn Hs Hh. injection Hr as <- _.
  apply list_entries. left. unfold on_world in He. injection He as He _.
  apply (read_dir_complete (GetMetadataDir info ++ str "/snapshots") (sm_world s)); [done| |done|done].
  unfold disk, GetSnapshotStatusFilePath in Hh. by rewrite <-(assoc_L (++)).
Qed.
Lemma all_removed (s : M) s' : slot_of info s ≠ Target →
  RemoveAllSnapshots info sha256 nothrow_new opener s = (Ret (), s') → no_snapshots s'.
Proof.
  intros Hslot H name Hn Hs. assert (He : erases s s').
  { assert (keeps erases (RemoveAllSnapshots info sha256 nothrow_new opener)) as Hk.
    { unfold RemoveAllSnapshots. keeps. apply erases_remove_snapshot. } specialize (Hk s). by rewrite H in Hk. }
  destruct (disk s (status_path name)) as [b|] eqn:E; [|by eapply erases_None].
  unfold RemoveAllSnapshots in H. apply io_bind_Ret in H as (names & s1 & Hl & H).
  assert (Hin : name ∈ names) by (eapply listed; [exact Hl|done|done|by exists b]).
  apply io_bind_Ret in H as (status & s2 & Hf & H). apply io_bind_Ret in H as (slot & s3 & Hc & H).
  assert (Hk1 : only indicator s s1) by (assert (keeps (only indicator) (ListSnapshots (W := W) info [])) as Hk by keeps;
    specialize (Hk s); by rewrite Hl in Hk).
  assert (Hk2 : only indicator s1 s2) by (assert (keeps (W := W) (only indicator) (try_ (GetSnapshotFlashingStatus info sha256 nothrow_new opener names))) as Hk by keeps;
    specialize (Hk s1); by rewrite Hf in Hk).
  assert (slot = slot_of info s) as ->.
  { destruct (read_slot info s2) as (s2' & Er & _). rewrite Er in Hc. injection Hc as <- _.
    rewrite (indicator_slot s1 s2), (indicator_slot s s1); done. }
  apply io_bind_Ret in H as ([ok mapped] & s4 & Hr & H). apply io_bind_Ret in H as (u & s5 & Hi & H).
  unfold lift in H. injection H as Hok <-. apply require_Ret in Hok. subst ok.
  apply snapshots_removed in Hr as [_ Hr]; [|done]. eapply erases_None; [|by apply Hr].
  match type of Hi with ?m1 s4 = _ => assert (keeps erases m1) as Hk by (destruct (true || negb mapped); keeps) end.
  specialize (Hk s4). by rewrite Hi in Hk.
Qed.
Lemma no_snapshots_after (s s' : M) : erases s s' → no_snapshots s → no_snapshots s'.
Proof. intros He H name Hn Hs. eapply erases_None; [exact He|auto]. Qed.
Lemma remove_effect (s : M) s' : slot_of info s ≠ Target →
  RemoveAllUpdateState info sha256 nothrow_new opener None s = (Ret (), s') →
  update_state info s' = UpdateState.None ∧ no_snapshots s'.
Proof.
  intros Hslot H. unfold RemoveAllUpdateState in H. rewrite (io_bind_eq _ _ _ true s), io_require in H by done.
  apply io_bind_Ret in H as ([] & s1 & H1 & H). apply all_removed in H1; [|done].
  apply io_bind_Ret in H as ([] & s2 & H2 & H).
  match type of H2 with ?m1 s1 = _ => assert (keeps erases m1) as Hk end.
  { apply keeps_each. intros p Hp. apply keeps_ignore. eapply keeps_touches; [apply remove_law|].
    repeat (apply elem_of_cons in Hp; destruct Hp as [->|Hp]); [by apply erases_dir..|]. by apply not_elem_of_nil in Hp. }
  specialize (Hk s1). rewrite H2 in Hk. apply (no_snapshots_after _ _ Hk) in H1.
  destruct (write_state info UpdateState.None MergeFailureCode.Ok s2) as (_ & Hok & _ & Ho). rewrite H in Hok, Ho. simpl in Hok, Ho.
  split; [unfold update_state; rewrite Hok by done; apply next_status_state|].
  intros name Hn Hs. rewrite (only_disk _ _ _ _ Ho); [by apply H1|]. intros [E|E].
  - by apply eq_sym, state_not_status in E.
  - by apply eq_sym, state_tmp_not_status in E.
Qed.
Lemma cancel_effect (s : M) s' : CancelUpdate info sha256 nothrow_new opener s = (Ret (), s') →
  update_state info s ≠ UpdateState.None → slot_of info s ≠ Target →
  update_state info s' = UpdateState.None ∧ no_snapshots s'.
Proof.
  intros H Hn Hslot. unfold CancelUpdate in H. apply io_bind_Ret in H as (needs & s1 & H & H').
  unfold lift in H'. injection H' as H' ->. apply require_Ret in H'. subst needs. unfold TryCancelUpdate in H.
  match type of H with (_ ← LockExclusive info; state ← ReadUpdateState info; @?f state) s = _ =>
    destruct (lock_and_read info f s) as [(s2 & E & Hd)|(s2 & E & Hd)]; rewrite E in H; [discriminate H|]; clear E end.
  cbn beta in H. rewrite <-(same_slot info s s2 Hd) in Hslot.
  destruct (update_state info s); try discriminate H; try done.
  - apply io_bind_Ret in H as ([] & s3 & H & E). injection E as <-. by apply remove_effect in H.
  - destruct (read_slot info s2) as (s3 & Er & Hd3). rewrite (io_bind_eq _ _ _ _ _ Er) in H.
    rewrite decide_True in H by done. rewrite <-(same_slot info s2 s3 Hd3) in Hslot.
    apply io_bind_Ret in H as ([] & s4 & H & E). injection E as <-. by apply remove_effect in H.
Qed.
End Cancelled.
End Effects.
