(* ===== verification/SnapSafe.v ===== *)
(** * No snapshot is deleted before it is merged

    [merged] says that the data of a snapshot is in its partition: what the kernel or the
    daemon reports is a parameter of the world.  While an update is merged, the status file
    of a partition that was not flashed since stays until the partition is merged, and the
    partitions of the second phase wait for those of the first. *)
From S2P Require Import Prelude Bytes LpFormat LpUtility Device LpReader DmTarget DeviceMapper DmLinear.
From S2P Require Import CowFormat CowReader SnapUpdate SnapCow SnapWorld SnapState SnapDevices SnapManager.
From S2P Require Import SnapMerge SnapFrame SnapSpec SnapEffects.

(** What the answers of the daemon and of dm-snapshot mean, and that a merge is final. *)
Class MergeLaws (W : Type) `{SnapWorldLaws W} := {
  merged : W → bytes → Prop;
  merged_later w w' name : later w w' → merged w name → merged w' name;
  daemon_merged name w :
    (client_QuerySnapshotStatus name w).1 = Ret (str "snapshot-merge-complete") →
    merged (client_QuerySnapshotStatus name w).2 name;
  kernel_merged name w target status :
    (dm_GetTableStatus name w).1 = Ret [target] → GetTargetType (tinfo_spec target) = str "snapshot-merge" →
    scan_status (tinfo_data target) = Some status → sectors_allocated status = metadata_sectors status →
    merged (dm_GetTableStatus name w).2 name;
}.

Section Safe.
Context `{HSP : !SnapProto} {W : Type} `{HW : SnapWorldLaws W, HM : !MergeLaws W} (info : DeviceInfo).
Context (sha256 : bytes → bytes) (nothrow_new : Z → bool) {D : Type} `{!BlockIO D}.
Context (opener default_opener : @IPartitionOpener D) (Realpath : bytes → option bytes).
Context (garbage : DmSnapshotStatus).
Context {F : Type} `{!CowFile F, !ICowDevices W F, HC : !CowDevicesLaws W F} (cow_fuel : nat) (page_size : Z).
Local Abbreviation M := (SnapshotManager W).
Local Abbreviation status_path := (GetSnapshotStatusFilePath info).
Local Abbreviation erases := (erases info).
(** The metadata of the slot that is running. *)
Context (m : LpMetadata).
Hypothesis metadata_read :
  let slot := SlotNumberForSlotSuffix (GetSlotSuffix info) in
  ReadMetadata sha256 nothrow_new opener (GetSuperDevice info slot) slot = Ret m.

(** The partitions of this slot that were updated and not flashed since. *)
Definition pending (name : bytes) : Prop :=
  GetMetadataPartitionState m name = MetadataPartitionState.Updated ∧
  EndsWith name (GetOtherSlotSuffix info) = false ∧
  name ≠ [] ∧ (Byte.x2f ∉ name) ∧ ¬ (str ".tmp" `suffix_of` name).
Definition is_merged (s : M) (name : bytes) : Prop := merged (sm_world s) name.
Definition has_status (s : M) (name : bytes) : Prop := is_Some (disk s (status_path name)).
(** A status file that says so is right. *)
Definition truthful (s : M) : Prop := ∀ name status,
  pending name → snapshot_of info s name = Some status → st_state status = SnapshotState.MERGE_COMPLETED →
  is_merged s name.
Definition safe : relation M := λ s s', after s s' ∧ (truthful s →
  truthful s' ∧ ∀ name, pending name → has_status s name → has_status s' name ∨ is_merged s' name).
Definition elsewhere_pending (p : bytes) : Prop := ∀ name, pending name → p ≠ status_path name.

Lemma is_merged_after s s' name : after s s' → is_merged s name → is_merged s' name.
Proof. apply merged_later. Qed.
#[local] Instance safe_preorder : PreOrder safe.
Proof.
  split; [by intros s; split; [|auto]|].
  intros s1 s2 s3 [Ha1 H1] [Ha2 H2]. split; [by etrans|]. intros Ht. destruct (H1 Ht) as [Ht2 Hk1].
  destruct (H2 Ht2) as [Ht3 Hk2]. split; [done|]. intros name Hp Hs.
  destruct (Hk1 name Hp Hs) as [Hs2|Hg]; [by apply Hk2|right; by eapply is_merged_after].
Qed.
Lemma tmp_not_pending name : elsewhere_pending (tmp (status_path name)).
Proof.
  intros n (_ & _ & _ & _ & Ht) E. apply Ht. unfold tmp in E. unfold GetSnapshotStatusFilePath in E.
  rewrite <-!(assoc_L (++)) in E. apply (inj (app _)), (inj (app _)) in E. exists name. by rewrite E.
Qed.
#[local] Instance safe_frame : Frame safe elsewhere_pending.
Proof.
  split; [apply _| |].
  - intros s s' [Hd Ha]. split; [done|]. intros Ht.
    assert (E : ∀ name, pending name → disk s' (status_path name) = disk s (status_path name)).
    { intros name Hp. apply Hd. intros Hn. by apply (Hn name). }
    split; [|intros name Hp Hs; left; unfold has_status; by rewrite E].
    intros name st Hp Hs Hst. eapply is_merged_after; [done|]. apply (Ht name st); [done| |done].
    unfold snapshot_of in *. by rewrite <-E.
  - intros name Hp. apply not_eq_sym, status_not_indicator.
Qed.
Lemma elsewhere_other name : ¬ pending name → elsewhere_pending (status_path name).
Proof. intros Hn n Hp E%status_inj. by subst. Qed.
Lemma elsewhere_dir rest : (∀ name, rest ≠ str "/snapshots/" ++ name) → elsewhere_pending (GetMetadataDir info ++ rest).
Proof. intros Hr name _ E%(inj (app _)). by apply (Hr name). Qed.
Lemma elsewhere_state : elsewhere_pending (GetStateFilePath info).
Proof. by apply elsewhere_dir. Qed.
Lemma elsewhere_state_tmp : elsewhere_pending (tmp (GetStateFilePath info)).
Proof. unfold tmp, GetStateFilePath. rewrite <-(assoc_L (++)). by apply elsewhere_dir. Qed.
Hint Resolve elsewhere_state elsewhere_state_tmp : keeps.

(** ** Writing and deleting *)

Lemma safe_write u (s : M) :
  (pending (st_name u) → st_state u = SnapshotState.MERGE_COMPLETED → is_merged s (st_name u)) →
  safe s (WriteSnapshotStatus info u s).2.
Proof.
  intros Hu. destruct (decide (st_name u = [])) as [E|Hne].
  { unfold WriteSnapshotStatus. rewrite (bind_crash _ _ s s); [reflexivity|]. unfold lift, CHECK. by rewrite decide_False by auto. }
  destruct (write_snapshot info u s Hne) as (Hor & _ & _ & Ho). pose proof (write_snapshot_file info u s) as Hf.
  set (s' := (WriteSnapshotStatus info u s).2) in *.
  assert (Ha : after s s') by apply Ho. split; [done|]. intros Ht.
  assert (E : ∀ name, pending name → name ≠ st_name u → disk s' (status_path name) = disk s (status_path name)).
  { intros name Hp Hn. apply Ho. intros [E|E]; [by apply status_inj in E|]. by apply (tmp_not_pending (st_name u) name). }
  split.
  - intros name st Hp Hs Hst. eapply is_merged_after; [done|].
    destruct (decide (name = st_name u)) as [->|Hn].
    + destruct Hor as [E'|E']; rewrite E' in Hs; [by apply (Ht _ st)|]. injection Hs as <-. auto.
    + apply (Ht name st); [done| |done]. unfold snapshot_of in *. by rewrite <-E.
  - intros name Hp Hs. left. unfold has_status.
    destruct (decide (name = st_name u)) as [->|Hn]; [by apply Hf|by rewrite E].
Qed.
(** What is erased at the end was merged before. *)
Lemma erases_safe s s1 s2 : safe s s1 → erases s1 s2 →
  (truthful s → ∀ name, pending name → has_status s name → is_merged s1 name) → safe s s2.
Proof.
  intros [Ha1 Hs] [Ha Hd] Hm. split; [by etrans|]. intros Ht. destruct (Hs Ht) as [Ht1 _]. split.
  - intros name st Hp Hst Hc. eapply is_merged_after; [done|]. apply (Ht1 name st); [done| |done].
    unfold snapshot_of in *. destruct (Hd name) as [E|E]; rewrite E in Hst; [done|discriminate Hst].
  - intros name Hp Hh. right. eapply is_merged_after; [done|]. by apply Hm.
Qed.
(** A snapshot may be deleted when it is merged, or not pending. *)
Lemma safe_delete name (s : M) :
  (truthful s → pending name → is_merged s name) → safe s (DeleteSnapshot info name s).2.
Proof.
  intros Hn. set (s' := (DeleteSnapshot info name s).2).
  assert (He : erases s s') by apply erases_delete.
  assert (Ho : only (λ p, p = GetDaemonAliveIndicatorPath ∨ p = status_path name) s s').
  { assert (Frame (only (W := W) (λ p, p = GetDaemonAliveIndicatorPath ∨ p = status_path name)) (λ p, p = GetDaemonAliveIndicatorPath ∨ p = status_path name))
      by (apply only_frame; auto). unfold s'. eapply keeps_delete_snapshot; [eassumption|by right]. }
  destruct He as [Ha Hd]. split; [done|]. intros Ht. split.
  - intros n st Hp Hs Hst. eapply is_merged_after; [done|]. apply (Ht n st); [done| |done].
    unfold snapshot_of in *. destruct (Hd n) as [E|E]; rewrite E in Hs; [done|discriminate Hs].
  - intros n Hp Hs. destruct (decide (n = name)) as [->|Hne].
    + right. eapply is_merged_after; [done|]. auto.
    + left. unfold has_status. rewrite (only_disk _ _ _ _ Ho); [done|].
      intros [E|E]; [by apply status_not_indicator in E|by apply status_inj in E].
Qed.

(** ** Programs that read the status of a snapshot *)

Lemma read_snapshot_name name (s : M) status : snapshot_of info s name = Some status → st_name status = name.
Proof.
  unfold snapshot_of. destruct (disk s _) as [c|]; [|done]. simpl. destruct (parse_status c) as [st|]; [|done]. simpl.
  intros [= <-]. by case_decide.
Qed.
(** [m ≫= f], when [m] is known to end in [s1]. *)
Lemma keeping_bind {A B} (m1 : IO M A) (f : A → IO M B) (s : M) :
  safe s (m1 s).2 → (∀ a s1, m1 s = (Ret a, s1) → safe s1 (f a s1).2) → safe s ((m1 ≫= f) s).2.
Proof.
  intros Hm Hf. unfold mbind, io_mbind. destruct (m1 s) as [[a| |] s1]; [|done..].
  etrans; [exact Hm|]. by apply Hf.
Qed.
Lemma keeps_switch_safe name : keeps safe (SwitchSnapshotToMerge info garbage name).
Proof.
  unfold SwitchSnapshotToMerge. apply keeps_bind; [keeps|intros [status|]]; [|keeps].
  do 2 (apply keeps_bind; [keeps|intros ?]). case_decide; [keeps|]. apply keeps_bind; [keeps|intros uses].
  intros s1. apply keeping_bind.
  { destruct uses; [by apply keeps_ret|]. by apply keeps_bind; [keeps|intros; keeps]. }
  intros status' s2 E. assert (Hs : st_state status' = SnapshotState.MERGING).
  { destruct uses; [by injection E as <- _|]. apply io_bind_Ret in E as (? & ? & _ & E). by injection E as <- _. }
  apply keeps_bind; [|intros; keeps]. apply keeps_ignore. intros s3. apply safe_write. intros _ Hc. congruence.
Qed.
Lemma keeps_switch_all_safe group code : keeps safe (switch_all info garbage group code).
Proof.
  revert code. induction group as [|name group IH]; intros code; simpl; [keeps|].
  apply keeps_bind; [apply keeps_switch_safe|intros; apply IH].
Qed.
Lemma keeps_switch_second_safe names code : keeps safe (switch_second info garbage names code).
Proof.
  revert code. induction names as [|name names IH]; intros code; simpl; [keeps|].
  apply keeps_bind; [keeps|intros [status|]]; [|keeps]. case_decide; [apply IH|].
  apply keeps_bind; [apply keeps_switch_safe|intros; apply IH].
Qed.
Lemma metadata_known (s : M) :
  (try_ (ReadCurrentMetadata info sha256 nothrow_new opener)) s = (Ret (Some m), s).
Proof. unfold ReadCurrentMetadata, try_, lift. by rewrite metadata_read. Qed.
(** Starting a merge deletes the snapshots that were flashed, and no others. *)
Lemma keeps_initiate_safe : keeps safe (InitiateMerge info sha256 nothrow_new opener garbage).
Proof.
  unfold InitiateMerge. do 7 (apply keeps_bind; [keeps|intros ?]).
  intros s1. rewrite (io_bind_eq _ _ _ _ _ (metadata_known s1)).
  match goal with |- safe s1 (?rest s1).2 => assert (keeps safe rest) as Hk; [|apply Hk] end. clear s1.
  apply keeps_bind.
  { apply keeps_fold. intros name kept _ s1. unfold drop_flashed. rewrite (io_bind_eq _ _ _ m s1) by done.
    destruct (GetMetadataPartitionState m name) eqn:E; [|..|by apply keeps_ret].
    all: apply keeps_bind; [|intros; keeps]; apply keeps_ignore; eapply keeps_delete_snapshot; [typeclasses eauto|].
    all: apply elsewhere_other; intros (Hu & _); congruence. }
  intros snapshots. do 3 (apply keeps_bind; [keeps|intros ?]).
  set (groups := if decide (_ = []) then _ else _). destruct groups as [group phase].
  apply keeps_bind; [eapply keeps_write_update; eauto with keeps nocore|intros _].
  apply keeps_bind; [apply keeps_switch_all_safe|intros code]. case_decide; [|keeps].
  apply keeps_ignore. unfold WriteUpdateState. keeps.
Qed.

(** ** Checking one snapshot *)

(** The answer that a merge is complete is right. *)
Lemma user_merged name status update (s : M) s1 :
  check_user_snapshot info name status update s = (Ret None, s1) → is_merged s1 name.
Proof.
  unfold check_user_snapshot. intros (connected & s2 & _ & H)%io_bind_Ret.
  apply io_bind_Ret in H as (answer & s3 & Ha & H).
  repeat (case_decide; [by (repeat (apply io_bind_Ret in H as (? & ? & _ & H)); discriminate H)|]).
  injection H as <-. match goal with Hc : answer = _ |- _ => subst answer end.
  destruct connected; [|discriminate Ha]. unfold on_client in Ha.
  apply io_bind_Ret in Ha as (x & s4 & _ & Ha). apply io_bind_Ret in Ha as (y & s5 & _ & Ha).
  unfold on_world in Ha. injection Ha as Hr <-. apply daemon_merged. exact Hr.
Qed.
Lemma parsed_status text status : ParseStatusText garbage text = Some status → ds_error status = [] →
  scan_status text = Some status.
Proof.
  unfold ParseStatusText. destruct (scan_status text) as [st|] eqn:E; [done|].
  intros H He. repeat case_decide; try discriminate H; injection H as <-; simpl in He; subst; by destruct_or?.
Qed.
Lemma kernel_is_merged name status update (s : M) s1 :
  check_kernel_snapshot garbage name status update s = (Ret None, s1) → is_merged s1 name.
Proof.
  unfold check_kernel_snapshot. intros (result & s2 & Hr & H)%io_bind_Ret.
  destruct result as [[type st]|]; [|discriminate H]. repeat (case_decide; [discriminate H|]).
  injection H as <-. unfold try_ in Hr.
  destruct (QuerySnapshotStatus garbage name s) as [[[t st']| |] s3] eqn:E; [|discriminate Hr..].
  injection Hr as -> -> ->. unfold QuerySnapshotStatus in E. apply io_bind_Ret in E as (target & s4 & Ht & E).
  apply io_bind_Ret in E as (st' & s5 & [Hp%found_Ret ->]%lift_Ret & E).
  apply io_bind_Ret in E as (u & s6 & [He%require_Ret ->]%lift_Ret & E). injection E as Hty -> <-.
  unfold IsSnapshotDevice in Ht. apply io_bind_Ret in Ht as (target' & s7 & Ht & E).
  apply io_bind_Ret in E as (u' & s8 & [_ ->]%lift_Ret & E). injection E as -> <-.
  unfold GetSingleTarget in Ht. apply io_bind_Ret in Ht as (state & s9 & _ & Ht).
  apply io_bind_Ret in Ht as (u'' & s10 & [_ ->]%lift_Ret & Ht).
  apply io_bind_Ret in Ht as (targets & s11 & Hq & Ht). destruct targets as [|t0 [|]]; [discriminate Ht| |discriminate Ht].
  injection Ht as -> <-. unfold on_world in Hq. injection Hq as Hq <-. simpl.
  apply (kernel_merged name _ target st); [exact Hq|congruence|by apply parsed_status|done].
Qed.

(** A program that is safe once the snapshot is merged, if it matters. *)
Definition safe_merged (name : bytes) {A} (m1 : IO M A) : Prop := ∀ s,
  (pending name → is_merged s name) → safe s (m1 s).2.
Lemma safe_merged_keeps name {A} (m1 : IO M A) : keeps safe m1 → safe_merged name m1.
Proof. by intros Hk s _. Qed.
Lemma safe_merged_bind name {A B} (m1 : IO M A) (f : A → IO M B) :
  safe_merged name m1 → (∀ a, safe_merged name (f a)) → safe_merged name (m1 ≫= f).
Proof.
  intros Hm Hf s Hs. apply keeping_bind; [by apply Hm|]. intros a s1 E. apply Hf.
  specialize (Hm s Hs). rewrite E in Hm. intros Hp. eapply is_merged_after; [apply Hm|auto].
Qed.
Lemma safe_merged_succeeds name {A} (m1 : IO M A) : safe_merged name m1 → safe_merged name (succeeds m1).
Proof. intros Hm s Hs. specialize (Hm s Hs). unfold succeeds, try_, mbind, io_mbind. by destruct (m1 s) as [[a| |] s1]. Qed.
Lemma safe_merged_ignore name {A} (m1 : IO M A) : safe_merged name m1 → safe_merged name (ignore m1).
Proof. intros Hm s Hs. specialize (Hm s Hs). unfold ignore, try_, mbind, io_mbind. by destruct (m1 s) as [[a| |] s1]. Qed.
Lemma complete_merged name status : safe_merged name
  (OnSnapshotMergeComplete info sha256 nothrow_new opener default_opener Realpath garbage name status).
Proof.
  unfold OnSnapshotMergeComplete, collapse_in_kernel. apply safe_merged_bind; [apply safe_merged_keeps; keeps|intros uses].
  apply safe_merged_bind; [apply safe_merged_keeps; keeps|intros _]. intros s Hs. apply safe_delete. auto.
Qed.
Lemma finish_merged name status : st_name status = name → safe_merged name
  (finish_snapshot info sha256 nothrow_new opener default_opener Realpath garbage cow_fuel page_size name status).
Proof.
  intros Hn. unfold finish_snapshot. apply safe_merged_bind; [apply safe_merged_keeps; keeps|intros code].
  case_decide; [apply safe_merged_keeps; keeps|]. apply safe_merged_bind.
  { apply safe_merged_succeeds. intros s Hs. apply safe_write. simpl. rewrite Hn. auto. }
  intros [|]; [|apply safe_merged_keeps; keeps]. apply safe_merged_bind; [|intros; apply safe_merged_keeps; keeps].
  by apply safe_merged_succeeds, complete_merged.
Qed.
(** A poll of a device that is being merged does not end its update. *)
Definition ongoing (r : MergeResult) : Prop :=
  mr_state r = UpdateState.MergeFailed ∧ mr_failure_code r ≠ MergeFailureCode.Ok ∨
  mr_state r = UpdateState.Merging ∨ mr_state r = UpdateState.None.
(** The device is not a snapshot: it was flashed, or the merge was complete before. *)
Lemma plain_safe name status (s : M) (r := check_plain_device info sha256 nothrow_new opener default_opener Realpath
    garbage name status s) :
  snapshot_of info s name = Some status →
  safe s r.2 ∧ ∀ result, r.1 = Ret result → truthful s → pending name →
    ¬ ongoing result → is_merged r.2 name.
Proof.
  intros Hs. subst r. unfold check_plain_device. rewrite (io_bind_eq _ _ _ _ _ (metadata_known s)). simpl.
  case_decide as Hu; [case_decide as Hc|].
  - match goal with |- safe s ?x.2 ∧ _ => set (r := x) end.
    assert (Ha : after s r.2).
    { assert (Frame (W := W) after (λ _, True)) by (split; [apply _|intros ?? [_ ?]; done|done]).
      unfold r. apply (keeps_bind (R := after)); [|intros; by apply keeps_ret]. apply keeps_ignore. by eapply keeps_merge_complete. }
    split.
    + split; [done|]. intros Ht. assert (safe s r.2) as Hsafe; [|by apply Hsafe].
      unfold r. apply (safe_merged_bind name); [|intros; apply safe_merged_keeps; keeps|].
      { apply safe_merged_ignore, complete_merged. } intros Hp. by apply (Ht name status).
    + intros result Hr Ht Hp. assert (result = merge_result UpdateState.MergeCompleted) as ->.
      { unfold r, mbind, io_mbind in Hr. destruct (ignore _ s) as [[| |] s1]; simpl in Hr; congruence. }
      intros _. eapply is_merged_after; [done|]. by apply (Ht name status).
  - split; [reflexivity|]. intros result [= <-] _ _ Hn. exfalso. apply Hn. by left.
  - split.
    + apply keeping_bind; [|intros; by apply keeps_ret]. apply keeps_ignore. eapply keeps_delete_snapshot; [apply _|].
      apply elsewhere_other. intros (Hp & _). simpl in Hu. congruence.
    + intros result _ _ (Hp & _). simpl in Hu. congruence.
Qed.
Lemma user_ongoing name status update (s : M) result s1 :
  check_user_snapshot info name status update s = (Ret (Some result), s1) → ongoing result.
Proof.
  unfold check_user_snapshot, ongoing. intros (connected & s2 & _ & Hr)%io_bind_Ret.
  apply io_bind_Ret in Hr as (answer & s3 & _ & Hr).
  case_decide; [injection Hr as <- _; by left|]. case_decide.
  { apply io_bind_Ret in Hr as (ok & s4 & _ & Hr). injection Hr as <- _. destruct ok; simpl; auto. }
  case_decide; [injection Hr as <- _; auto|]. case_decide; [injection Hr as <- _; case_decide; simpl; auto|].
  case_decide; [injection Hr as <- _; auto|discriminate Hr].
Qed.
Lemma kernel_ongoing name status update (s : M) result s1 :
  check_kernel_snapshot garbage name status update s = (Ret (Some result), s1) → ongoing result.
Proof.
  unfold check_kernel_snapshot, ongoing. intros (answer & s2 & _ & Hr)%io_bind_Ret. injection Hr as Hr _.
  destruct answer as [[type st]|]; [|injection Hr as <-; simpl; auto].
  repeat case_decide; try discriminate Hr; injection Hr as <-; simpl; auto.
Qed.
(** What a poll of one snapshot says about it. *)
Definition answers (name : bytes) (s : M) (r : outcome MergeResult * M) : Prop :=
  safe s r.2 ∧ ∀ result, r.1 = Ret result → truthful s → pending name →
    ¬ ongoing result → is_merged r.2 name.
Lemma answers_after name s s1 r : safe s s1 → answers name s1 r → answers name s r.
Proof.
  intros Hs [Hr Ha]. split; [by etrans|]. intros result E Ht Hp. apply Ha; [done| |done]. by apply Hs.
Qed.
Lemma answers_bind name {A} (m1 : IO M A) (f : A → IO M MergeResult) s :
  keeps safe m1 → (∀ a s1, m1 s = (Ret a, s1) → answers name s1 (f a s1)) → answers name s ((m1 ≫= f) s).
Proof.
  intros Hm Hf. specialize (Hm s). unfold mbind, io_mbind. destruct (m1 s) as [[a| |] s1]; [|by split..].
  eapply answers_after; [exact Hm|by apply Hf].
Qed.
Lemma target_safe name update (s : M) : answers name s
  (CheckTargetMergeState info sha256 nothrow_new opener default_opener Realpath garbage cow_fuel page_size name update s).
Proof.
  unfold CheckTargetMergeState. destruct (read_snapshot info name s) as (s1 & Hr & Hd).
  assert (Htry : try_ (ReadSnapshotStatus info name) s = (Ret (snapshot_of info s name), s1)).
  { unfold try_. rewrite Hr. by destruct (snapshot_of info s name). }
  rewrite (io_bind_eq _ _ _ _ _ Htry).
  assert (Hs1 : safe s s1) by by apply (frame_only (R := safe) (P := elsewhere_pending)), same_disk_only.
  apply (answers_after _ _ s1); [done|].
  assert (E : snapshot_of info s1 name = snapshot_of info s name) by (unfold snapshot_of; by rewrite (proj1 Hd)).
  rewrite <-E. clear Htry Hr Hd E Hs1 s. destruct (snapshot_of info s1 name) as [status|] eqn:Hst.
  2: { split; [done|]. intros result [= <-] _ _ Hn. exfalso. apply Hn. by left. }
  apply answers_bind; [keeps|]. intros is_snapshot s2 Hi.
  assert (Hst2 : snapshot_of info s2 name = Some status).
  { assert (Frame (only (W := W) (λ p, p = GetDaemonAliveIndicatorPath)) (λ p, p = GetDaemonAliveIndicatorPath)) by by apply only_frame.
    assert (keeps (only (W := W) (λ p, p = GetDaemonAliveIndicatorPath)) (succeeds (IsSnapshotDevice name))) as Hk by keeps.
    specialize (Hk s1). rewrite Hi in Hk. rewrite <-Hst. unfold snapshot_of.
    by rewrite (only_disk _ _ _ _ Hk) by apply status_not_indicator. }
  destruct is_snapshot.
  2: { by apply plain_safe. }
  apply answers_bind; [keeps|]. intros uses s3 _. apply answers_bind; [destruct uses; keeps|].
  intros [result|] s4 Hc.
  - split; [done|]. intros result' [= <-] _ _ Hn. exfalso. apply Hn.
    destruct uses; [by eapply user_ongoing|by eapply kernel_ongoing].
  - assert (is_merged s4 name) as Hm by (destruct uses; [by eapply user_merged|by eapply kernel_is_merged]).
    pose proof (finish_merged name status (read_snapshot_name _ _ _ Hst) s4 (λ _, Hm)) as Hf.
    split; [exact Hf|]. intros result _ _ _ _. eapply is_merged_after; [apply Hf|done].
Qed.

(** ** Checking all of them *)

(** No snapshot is being merged, none failed and none waits for the second phase. *)
Definition quiet_flags (f : MergeFlags) : Prop :=
  fl_merging f = false ∧ fl_failure_code f = MergeFailureCode.Ok ∧ fl_wrong_phase f = false.
Lemma add_quiet result f : quiet_flags (add_result result f) → ¬ ongoing result ∧ quiet_flags f.
Proof.
  unfold quiet_flags, add_result, ongoing. destruct (mr_state result); simpl; try case_decide; intros (? & ? & ?);
    try done; (split; [intros [[? ?]|[?|?]]; congruence|done]).
Qed.
Lemma poll_safe update names f (s : M) (r := io_fold (poll_snapshot info sha256 nothrow_new opener default_opener
    Realpath garbage cow_fuel page_size update) names f s) :
  safe s r.2 ∧ ∀ g, r.1 = Ret g → truthful s → quiet_flags g →
    quiet_flags f ∧ ∀ name, name ∈ names → pending name → is_merged r.2 name.
Proof.
  subst r. revert f s. induction names as [|n names IH]; intros f s; simpl.
  { split; [done|]. intros g [= <-] _ Hq. split; [done|]. by intros name ?%not_elem_of_nil. }
  match goal with |- context [(?m1 ≫= _) s] => set (step := m1) end.
  destruct (EndsWith n (GetOtherSlotSuffix info)) eqn:He.
  { rewrite (io_bind_eq step _ s f s) by by unfold step, poll_snapshot; rewrite He. destruct (IH f s) as [Hs Hm]. split; [done|].
    intros g Hg Ht Hq. destruct (Hm g Hg Ht Hq) as [Hf Hn]. split; [done|]. intros name Hin Hp.
    apply elem_of_cons in Hin as [->|Hin]; [|by apply Hn]. destruct Hp as (_ & Hp & _). congruence. }
  destruct (target_safe n update s) as [Hs Ha].
  destruct (CheckTargetMergeState info _ _ _ _ _ _ _ _ n update s) as [[result| |] s1] eqn:E; simpl in Hs, Ha.
  2: { rewrite (bind_reject step _ s s1); [by split|]. unfold step, poll_snapshot. rewrite He. by apply bind_reject. }
  2: { rewrite (bind_crash step _ s s1); [by split|]. unfold step, poll_snapshot. rewrite He. by apply bind_crash. }
  rewrite (io_bind_eq step _ s (add_result result f) s1) by by unfold step, poll_snapshot; rewrite He, (io_bind_eq _ _ _ _ _ E).
  destruct (IH (add_result result f) s1) as [Hs1 Hm]. split; [by etrans|]. intros g Hg Ht Hq.
  destruct (Hm g Hg (proj1 (proj2 Hs Ht)) Hq) as [[Ho Hf]%add_quiet Hn]. split; [done|].
  intros name [->|Hin]%elem_of_cons Hp; [|by apply Hn].
  eapply is_merged_after; [apply Hs1|]. by apply (Ha result).
Qed.
Lemma list_complete (s : M) names s1 name : ListSnapshots info [] s = (Ret names, s1) →
  pending name → has_status s name → name ∈ names.
Proof.
  unfold ListSnapshots. intros (entries & s2 & He & Hr)%io_bind_Ret (_ & _ & Hn & Hs & _) Hh. injection Hr as <- _.
  apply list_entries. left. unfold on_world in He. injection He as He _.
  apply (read_dir_complete (GetMetadataDir info ++ str "/snapshots") (sm_world s)); [done| |done|done].
  unfold has_status, disk, GetSnapshotStatusFilePath in Hh. by rewrite <-(assoc_L (++)).
Qed.
Lemma keeps_second_safe : keeps safe (MergeSecondPhaseSnapshots info garbage).
Proof.
  unfold MergeSecondPhaseSnapshots. keeps. apply keeps_switch_second_safe.
Qed.
Lemma keeps_state_safe state code : keeps safe (WriteUpdateState info state code).
Proof. unfold WriteUpdateState. keeps. Qed.
Hint Resolve keeps_second_safe keeps_state_safe : keeps.
Lemma keeps_outcome_safe f : keeps safe (merge_outcome info garbage f).
Proof. unfold merge_outcome. keeps. Qed.
Definition ends (result : MergeResult) : Prop :=
  mr_state result = UpdateState.MergeCompleted ∨ mr_state result = UpdateState.Cancelled.
Lemma outcome_ends f (s : M) result s1 : merge_outcome info garbage f s = (Ret result, s1) → ends result → quiet_flags f.
Proof.
  unfold merge_outcome, quiet_flags, ends. intros H He. destruct (fl_merging f); [injection H as <- _; by destruct He|].
  case_decide as Hc; [injection H as <- _; by destruct He|]. destruct (fl_wrong_phase f); [|done].
  apply io_bind_Ret in H as (code & s2 & _ & H). injection H as <- _. case_decide; by destruct He.
Qed.
Local Abbreviation CheckMergeState_locked :=
  (CheckMergeState_locked info sha256 nothrow_new opener default_opener Realpath garbage cow_fuel page_size).
Local Abbreviation CheckMergeState :=
  (CheckMergeState info sha256 nothrow_new opener default_opener Realpath garbage cow_fuel page_size).
Local Abbreviation ProcessUpdateState :=
  (ProcessUpdateState info sha256 nothrow_new opener default_opener Realpath garbage cow_fuel page_size).
(** When the update ends, what was pending is merged. *)
Lemma locked_safe (s : M) before_cancel (r := CheckMergeState_locked before_cancel s) :
  merging (update_state info s) = true →
  safe s r.2 ∧ ∀ result, r.1 = Ret result → ends result → truthful s →
    ∀ name, pending name → has_status s name → is_merged r.2 name.
Proof.
  intros Hm. subst r. destruct (locked_merging info sha256 nothrow_new opener default_opener Realpath garbage cow_fuel page_size
    s before_cancel Hm) as (s1 & Hd & ->). set (update := update_status info s).
  assert (Hs1 : safe s s1) by by apply (frame_only (R := safe) (P := elsewhere_pending)), same_disk_only.
  assert (Hh : ∀ name, has_status s name → has_status s1 name) by (intros name; unfold has_status; by rewrite (proj1 Hd)).
  unfold poll_all. assert (Hl : keeps safe (ListSnapshots (W := W) info [])) by keeps. specialize (Hl s1).
  destruct (ListSnapshots info [] s1) as [[names| |] s2] eqn:E; simpl in Hl.
  2: { rewrite (io_bind_eq _ _ _ None s2) by (unfold try_; by rewrite E).
       split; [by etrans|]. intros result [= <-] He. by destruct He. }
  2: { rewrite (bind_crash _ _ _ s2) by (unfold try_; by rewrite E). split; [by etrans|done]. }
  rewrite (io_bind_eq _ _ _ (Some names) s2) by (unfold try_; by rewrite E).
  destruct (poll_safe update names (mkFlags false false false false MergeFailureCode.Ok) s2) as [Hp Ha].
  unfold mbind, io_mbind. destruct (io_fold _ names _ s2) as [[f| |] s3] eqn:Ef; simpl in Hp, Ha.
  2,3: split; [repeat (etrans; [eassumption|]); done|done].
  assert (Ho : safe s3 (merge_outcome info garbage f s3).2) by apply keeps_outcome_safe.
  split; [repeat (etrans; [eassumption|]); done|]. intros result Hr He Ht name Hn Hst.
  destruct (merge_outcome info garbage f s3) as [r s4] eqn:Eo; simpl in *; subst r.
  eapply is_merged_after; [apply Ho|]. assert (truthful s1) as Ht1 by by apply Hs1.
  apply (Ha f); [done|by apply Hl|by eapply outcome_ends| |done]. eapply list_complete; [exact E|done|auto].
Qed.
Lemma safe_then {A B} (m1 : IO M A) (f : A → IO M B) s0 s : safe s0 (m1 s).2 → (∀ a, keeps safe (f a)) →
  safe s0 ((m1 ≫= f) s).2.
Proof. intros Hs Hf. unfold mbind, io_mbind. destruct (m1 s) as [[a| |] s1]; [|done..]. etrans; [exact Hs|apply Hf]. Qed.
Lemma keeps_forget_safe : keeps safe (on_world client_RemoveTransitionedDaemonIndicator).
Proof. eapply keeps_touches; [apply indicator_law|]. apply (frame_indicator (R := safe)). Qed.
Hint Resolve keeps_forget_safe : keeps.
Lemma lock_succeeds (s : M) : ∃ b s1, succeeds (LockExclusive info) s = (Ret b, s1) ∧ same_disk s s1.
Proof.
  destruct (lock_step info s) as [Hc Hd]. unfold succeeds, try_, mbind, io_mbind.
  destruct (LockExclusive info s) as [[[]| |] s1]; [by exists true, s1|by exists false, s1|done].
Qed.
#[local] Existing Instance elsewhere_frame.
(** A check that does not end the merge leaves it under way. *)
Lemma check_safe before_cancel (s : M) (r := CheckMergeState before_cancel s) : harmless before_cancel →
  merging (update_state info s) = true →
  safe s r.2 ∧ ∀ result, r.1 = Ret result → mr_state result = UpdateState.Merging →
    merging (update_state info r.2) = true.
Proof.
  intros Hb Hm. subst r. unfold SnapMerge.CheckMergeState.
  destruct (lock_succeeds s) as (b & s1 & Hl & Hd). rewrite (io_bind_eq _ _ _ _ _ Hl).
  assert (Hs1 : safe s s1) by by apply (frame_only (R := safe) (P := elsewhere_pending)), same_disk_only.
  destruct b; [|by split; [|intros result [= <-]]].
  rewrite <-(same_state info s s1 Hd) in Hm. destruct (locked_safe s1 before_cancel Hm) as [Hs Ha].
  pose proof (from_locked_merging info sha256 nothrow_new opener default_opener Realpath garbage cow_fuel page_size _
    before_cancel Hm s1 eq_refl) as Hw.
  destruct (CheckMergeState_locked before_cancel s1) as [[result| |] s2] eqn:E; simpl in Hs, Ha, Hw.
  2: { rewrite (bind_reject _ _ _ _ E). split; [by etrans|done]. }
  2: { rewrite (bind_crash _ _ _ _ E). split; [by etrans|done]. }
  rewrite (io_bind_eq _ _ _ _ _ E).
  assert (Hr : ∀ prolog, ends result → harmless prolog →
    safe s1 (ignore (RemoveAllUpdateState info sha256 nothrow_new opener prolog) s2).2).
  { intros prolog He Hp. apply (erases_safe s1 s2); [done|by apply keeps_ignore, erases_remove|].
    intros Ht name Hn Hh. by apply (Ha result). }
  split.
  - etrans; [exact Hs1|]. apply safe_then; [|intros; keeps]. unfold ends in Hr.
    destruct (mr_state result); try exact Hs.
    + unfold AcknowledgeMergeSuccess. destruct (IsRecovery info); [etrans; [exact Hs|by apply keeps_ignore, keeps_state_safe]|].
      apply safe_then; [by apply Hr; [left|]|intros; keeps].
    + destruct (IsRecovery info); [exact Hs|by apply Hr; [right|]].
  - intros result' Hr' Hmr. unfold mbind, io_mbind in Hr' |- *.
    destruct (mr_state result) eqn:Es; simpl in Hr' |- *;
      try (injection Hr' as <-; destruct Hw as [->|]; [exact Hm|done]).
    all: match type of Hr' with context [match ?x with _ => _ end] => destruct x as [[| |] ?] end;
      simpl in Hr'; try discriminate Hr'; injection Hr' as <-; congruence.
Qed.
Lemma process_safe fuel callback before_cancel (s : M) : harmless callback → harmless before_cancel →
  merging (update_state info s) = true → safe s (ProcessUpdateState fuel callback before_cancel s).2.
Proof.
  intros Hc Hb. revert s. induction fuel as [|fuel IH]; intros s Hm; simpl; [done|].
  destruct (check_safe before_cancel s Hb Hm) as [Hs Ha].
  apply keeping_bind; [exact Hs|]. intros result s1 E. rewrite E in Ha. clear s Hm Hs E.
  destruct (decide (mr_state result = UpdateState.Merging)) as [Hr|Hr].
  2: { rewrite (decide_True (P := mr_state result ≠ UpdateState.Merging)) by done. revert s1 Ha. intros s1 _.
       assert (keeps safe (AcknowledgeMergeFailure info (mr_failure_code result))) by (unfold AcknowledgeMergeFailure; keeps).
       apply keeps_bind; [|intros; keeps]. by case_decide; keeps. }
  rewrite (decide_False (P := mr_state result = UpdateState.MergeFailed)) by (rewrite Hr; done).
  rewrite (io_bind_eq _ _ _ () s1) by done.
  rewrite (decide_False (P := mr_state result ≠ UpdateState.Merging)) by auto. specialize (Ha result eq_refl Hr). simpl in Ha.
  set (ask := match callback with Some callback => on_world callback | None => mret true end).
  assert (keeps safe ask ∧ keeps (only (elsewhere info)) ask) as [Hk He] by (unfold ask; destruct callback; split; keeps).
  apply keeping_bind; [apply Hk|]. intros [|] s2 E; [|done]. specialize (He s1). rewrite E in He.
  apply keeping_bind; [eapply keeps_quiet, sleep_law|]. intros [] s3 E3. apply IH.
  assert (keeps (W := W) (only (elsewhere info)) (on_world (sleep_ms 2000))) as Hk3 by keeps. specialize (Hk3 s2). rewrite E3 in Hk3.
  by rewrite (only_elsewhere info _ _ Hk3), (only_elsewhere info _ _ He).
Qed.
End Safe.

(** ** The second phase waits for the first

    Snapshots of partitions that shrink are merged first, so that the space they give up can
    be used by the others.  No check starts the second phase before all of them are merged. *)

Section Phase.
Context `{HSP : !SnapProto} {W : Type} `{HW : SnapWorldLaws W, HM : !MergeLaws W} (info : DeviceInfo).
Context (sha256 : bytes → bytes) (nothrow_new : Z → bool) {D : Type} `{!BlockIO D}.
Context (opener default_opener : @IPartitionOpener D) (Realpath : bytes → option bytes).
Context (garbage : DmSnapshotStatus).
Context {F : Type} `{!CowFile F, !ICowDevices W F, HC : !CowDevicesLaws W F} (cow_fuel : nat) (page_size : Z).
Local Abbreviation M := (SnapshotManager W).
Local Abbreviation status_path := (GetSnapshotStatusFilePath info).
Context (m : LpMetadata).
Hypothesis metadata_read :
  let slot := SlotNumberForSlotSuffix (GetSlotSuffix info) in
  ReadMetadata sha256 nothrow_new opener (GetSuperDevice info slot) slot = Ret m.
Local Abbreviation pending := (pending info m).
Local Abbreviation truthful := (truthful info m).
Local Abbreviation safe := (safe info m).
Local Abbreviation elsewhere_pending := (elsewhere_pending info m).
Local Abbreviation CheckTargetMergeState :=
  (CheckTargetMergeState info sha256 nothrow_new opener default_opener Realpath garbage cow_fuel page_size).
#[local] Existing Instance safe_preorder.
#[local] Existing Instance safe_frame.

(** A snapshot stays in its phase as long as it has a status. *)
Definition same_phase : relation M := λ s s', ∀ name st', pending name → snapshot_of info s' name = Some st' →
  ∃ st, snapshot_of info s name = Some st ∧ DecideMergePhase st = DecideMergePhase st'.
#[local] Instance same_phase_preorder : PreOrder same_phase.
Proof.
  split; [by intros s name st; exists st|]. intros s1 s2 s3 H1 H2 name st3 Hp H3.
  destruct (H2 name st3 Hp H3) as (st2 & E2 & P2). destruct (H1 name st2 Hp E2) as (st1 & E1 & P1).
  exists st1. split; [done|congruence].
Qed.
#[local] Instance same_phase_frame : Frame same_phase elsewhere_pending.
Proof.
  split; [apply _| |].
  - intros s s' Ho name st' Hp Hs. exists st'. split; [|done]. revert Hs. unfold snapshot_of.
    rewrite (only_disk _ _ _ _ Ho); [done|]. intros Hn. by apply (Hn name Hp).
  - intros name Hp. apply not_eq_sym, status_not_indicator.
Qed.
(** Deleted or not. *)
Lemma erases_same_phase (s s' : M) : erases info s s' → same_phase s s'.
Proof.
  intros [_ H] name st' Hp Hs. exists st'. split; [|done]. unfold snapshot_of in *.
  by destruct (H name) as [E|E]; rewrite E in Hs.
Qed.
Lemma keeps_delete_phase name : keeps same_phase (DeleteSnapshot info name).
Proof. intros s. by apply erases_same_phase, erases_delete. Qed.
Hint Resolve keeps_delete_phase : keeps.
Lemma keeps_complete_phase name status : keeps same_phase
  (OnSnapshotMergeComplete info sha256 nothrow_new opener default_opener Realpath garbage name status).
Proof. unfold OnSnapshotMergeComplete, collapse_in_kernel. keeps. Qed.
Hint Resolve keeps_complete_phase : keeps.
Lemma keeps_plain_phase name status : keeps same_phase
  (check_plain_device info sha256 nothrow_new opener default_opener Realpath garbage name status).
Proof. unfold check_plain_device. keeps. Qed.
Lemma phase_bind {A B} (m1 : IO M A) (f : A → IO M B) (s : M) :
  same_phase s (m1 s).2 → (∀ a s1, m1 s = (Ret a, s1) → same_phase s1 (f a s1).2) → same_phase s ((m1 ≫= f) s).2.
Proof.
  intros Hm Hf. unfold mbind, io_mbind. destruct (m1 s) as [[a| |] s1]; [|done..].
  etrans; [exact Hm|]. by apply Hf.
Qed.
Lemma write_phase status (s : M) : snapshot_of info s (st_name status) = Some status →
  same_phase s (WriteSnapshotStatus info (set_snapshot_state SnapshotState.MERGE_COMPLETED status) s).2.
Proof.
  intros Hs name st' Hp Hs'. set (u := set_snapshot_state _ status) in *.
  destruct (decide (st_name u = [])) as [E|Hne].
  { exists st'. split; [|done]. revert Hs'. unfold WriteSnapshotStatus. rewrite (bind_crash _ _ s s); [done|].
    unfold lift, CHECK. by rewrite decide_False by auto. }
  destruct (write_snapshot info u s Hne) as (Hor & _ & _ & Ho).
  destruct (decide (name = st_name status)) as [->|Hn].
  - exists status. split; [done|]. destruct Hor as [E|E]; change (st_name u) with (st_name status) in E; rewrite E in Hs'.
    + rewrite Hs in Hs'. by injection Hs' as <-.
    + by injection Hs' as <-.
  - exists st'. split; [|done]. revert Hs'. unfold snapshot_of. rewrite (only_disk _ _ _ _ Ho); [done|].
    intros [E|E]; [by apply status_inj in E|]. by apply (tmp_not_pending info m (st_name u) name Hp).
Qed.
Lemma finish_phase status (s : M) : snapshot_of info s (st_name status) = Some status →
  same_phase s (finish_snapshot info sha256 nothrow_new opener default_opener Realpath garbage cow_fuel page_size
    (st_name status) status s).2.
Proof.
  intros Hs. unfold finish_snapshot. assert (Hk : keeps (W := W) (only indicator) (CheckMergeConsistency cow_fuel page_size (st_name status) status)) by keeps.
  assert (Hk' : keeps same_phase (CheckMergeConsistency (W := W) cow_fuel page_size (st_name status) status)) by keeps.
  apply phase_bind; [apply Hk'|]. intros code s1 E. specialize (Hk s). rewrite E in Hk.
  case_decide; [done|]. apply phase_bind; [|intros [|] s2 _; [|done]].
  - assert (Hs1 : snapshot_of info s1 (st_name status) = Some status).
    { revert Hs. unfold snapshot_of. by rewrite (only_disk _ _ _ _ Hk) by apply status_not_indicator. }
    apply write_phase in Hs1. unfold succeeds, try_, mbind, io_mbind.
    by destruct (WriteSnapshotStatus info _ s1) as [[a| |] s2].
  - match goal with |- same_phase s2 (?p s2).2 => assert (keeps same_phase p) as Hk2 by keeps end. apply Hk2.
Qed.
Lemma target_same_phase name update (s : M) : same_phase s (CheckTargetMergeState name update s).2.
Proof.
  unfold SnapMerge.CheckTargetMergeState. destruct (read_snapshot info name s) as (s1 & Hr & Hd).
  assert (Htry : try_ (ReadSnapshotStatus info name) s = (Ret (snapshot_of info s name), s1)).
  { unfold try_. rewrite Hr. by destruct (snapshot_of info s name). }
  rewrite (io_bind_eq _ _ _ _ _ Htry).
  assert (E : snapshot_of info s1 name = snapshot_of info s name) by (unfold snapshot_of; by rewrite (proj1 Hd)).
  etrans; [apply (frame_only (R := same_phase) (P := elsewhere_pending)), same_disk_only, Hd|].
  destruct (snapshot_of info s name) as [status|] eqn:Hst; [|done]. clear s Htry Hr Hd Hst.
  pose proof (read_snapshot_name _ _ _ _ E) as Hn.
  assert (Hq : ∀ {A} (m1 : IO M A) (f : A → IO M MergeResult) (s : M), snapshot_of info s name = Some status →
    keeps (only indicator) m1 → keeps same_phase m1 →
    (∀ a s1, snapshot_of info s1 name = Some status → same_phase s1 (f a s1).2) → same_phase s ((m1 ≫= f) s).2).
  { intros A m1 f s Hs Hk Hk' Hf. apply phase_bind; [apply Hk'|]. intros a s2 E2. apply Hf. specialize (Hk s). rewrite E2 in Hk.
    revert Hs. unfold snapshot_of. by rewrite (only_disk _ _ _ _ Hk) by apply status_not_indicator. }
  apply Hq; [done|keeps|keeps|]. intros [|] s2 Hs2; [|apply keeps_plain_phase].
  apply Hq; [done|keeps|keeps|]. intros uses s3 Hs3. apply Hq; [done|destruct uses; keeps|destruct uses; keeps|].
  intros [result|] s4 Hs4; [done|]. rewrite <-Hn. apply finish_phase. by rewrite Hn.
Qed.

(** ** Waiting *)

(** Only snapshots of the second phase are told to wait. *)
Definition waits (s : M) (name : bytes) : Prop :=
  ∃ status, snapshot_of info s name = Some status ∧ DecideMergePhase status = SECOND_PHASE.
Lemma waits_before (s s' : M) name : same_phase s s' → pending name → waits s' name → waits s name.
Proof. intros H Hp (st' & Hs & Hd). destruct (H name st' Hp Hs) as (st & ? & ?). exists st. split; [done|congruence]. Qed.
Lemma user_waits name status update (s : M) result s1 :
  check_user_snapshot info name status update s = (Ret (Some result), s1) → mr_state result = UpdateState.None →
  DecideMergePhase status = SECOND_PHASE.
Proof.
  unfold check_user_snapshot. intros (connected & s2 & _ & H)%io_bind_Ret Hn.
  apply io_bind_Ret in H as (answer & s3 & _ & H).
  case_decide; [by injection H as <- _|]. case_decide.
  { apply io_bind_Ret in H as (ok & s4 & _ & H). injection H as <- _. by destruct ok. }
  case_decide as Hd; [by destruct Hd as (_ & ? & _)|]. case_decide; [injection H as <- _; by case_decide|].
  case_decide; [by injection H as <- _|discriminate H].
Qed.
Lemma kernel_waits name status update (s : M) result s1 :
  check_kernel_snapshot garbage name status update s = (Ret (Some result), s1) → mr_state result = UpdateState.None →
  DecideMergePhase status = SECOND_PHASE.
Proof.
  unfold check_kernel_snapshot. intros (answer & s2 & _ & H)%io_bind_Ret Hn. injection H as H _.
  destruct answer as [[type st]|]; [|by injection H as <-].
  repeat case_decide; try discriminate H; injection H as <-; try done. by destruct_and!.
Qed.
Lemma finish_never_waits name status (s : M) result s1 :
  finish_snapshot info sha256 nothrow_new opener default_opener Realpath garbage cow_fuel page_size name status s = (Ret result, s1) →
  mr_state result ≠ UpdateState.None.
Proof.
  unfold finish_snapshot. intros (code & s2 & _ & H)%io_bind_Ret. case_decide; [by injection H as <- _|].
  apply io_bind_Ret in H as ([|] & s3 & _ & H); [|by injection H as <- _].
  apply io_bind_Ret in H as ([|] & s4 & _ & H); by injection H as <- _.
Qed.
Lemma plain_never_waits name status (s : M) result s1 :
  check_plain_device info sha256 nothrow_new opener default_opener Realpath garbage name status s = (Ret result, s1) →
  mr_state result ≠ UpdateState.None.
Proof.
  unfold check_plain_device. intros (md & s2 & _ & H)%io_bind_Ret. case_decide; [case_decide|].
  - apply io_bind_Ret in H as (u & s3 & _ & H). by injection H as <- _.
  - by injection H as <- _.
  - apply io_bind_Ret in H as (u & s3 & _ & H). by injection H as <- _.
Qed.
Lemma target_waits name update (s : M) result s1 : CheckTargetMergeState name update s = (Ret result, s1) →
  mr_state result = UpdateState.None → waits s name.
Proof.
  unfold SnapMerge.CheckTargetMergeState. destruct (read_snapshot info name s) as (s0 & Hr & _).
  assert (Htry : try_ (ReadSnapshotStatus info name) s = (Ret (snapshot_of info s name), s0)).
  { unfold try_. rewrite Hr. by destruct (snapshot_of info s name). }
  rewrite (io_bind_eq _ _ _ _ _ Htry). unfold waits.
  destruct (snapshot_of info s name) as [status|]; [|intros H Hn; by injection H as <- _].
  intros (is_snapshot & s2 & _ & H)%io_bind_Ret Hn. exists status. split; [done|].
  destruct is_snapshot; [|by apply plain_never_waits in H].
  apply io_bind_Ret in H as (uses & s3 & _ & H). apply io_bind_Ret in H as ([result'|] & s4 & Hc & H).
  - injection H as -> _. destruct uses; [by eapply user_waits|by eapply kernel_waits].
  - by apply finish_never_waits in H.
Qed.

(** Nothing is being merged and nothing failed. *)
Definition calm (f : MergeFlags) : Prop := fl_merging f = false ∧ fl_failure_code f = MergeFailureCode.Ok.
Lemma add_calm result f : calm (add_result result f) →
  calm f ∧ (mr_state result = UpdateState.None ∨ ¬ ongoing result).
Proof.
  unfold calm, add_result, ongoing. destruct (mr_state result) eqn:E; simpl; try case_decide; intros (? & ?);
    try done; (split; [done|]); first [by left | right; intros [[? ?]|[?|?]]; congruence].
Qed.
Lemma poll_waits update names f (s : M) (r := io_fold (poll_snapshot info sha256 nothrow_new opener default_opener
    Realpath garbage cow_fuel page_size update) names f s) :
  ∀ g, r.1 = Ret g → truthful s → calm g →
    calm f ∧ ∀ name, name ∈ names → pending name → is_merged r.2 name ∨ waits s name.
Proof.
  subst r. revert f s. induction names as [|n names IH]; intros f s g; simpl.
  { intros [= <-] _ Hq. split; [done|]. by intros name ?%not_elem_of_nil. }
  match goal with |- context [(?m1 ≫= _) s] => set (step := m1) end.
  destruct (EndsWith n (GetOtherSlotSuffix info)) eqn:He.
  { rewrite (io_bind_eq step _ s f s) by by unfold step, poll_snapshot; rewrite He.
    intros Hg Ht Hq. destruct (IH f s g Hg Ht Hq) as [Hf Hn]. split; [done|]. intros name Hin Hp.
    apply elem_of_cons in Hin as [->|Hin]; [|by apply Hn]. destruct Hp as (_ & Hp & _). congruence. }
  pose proof (target_safe info sha256 nothrow_new opener default_opener Realpath garbage cow_fuel page_size m metadata_read n update s) as [Hs Ha].
  pose proof (target_same_phase n update s) as Hph. pose proof (target_waits n update s) as Hw.
  destruct (CheckTargetMergeState n update s) as [[result| |] s1] eqn:E; simpl in Hs, Ha, Hph.
  2: { rewrite (bind_reject step _ s s1); [done|]. unfold step, poll_snapshot. rewrite He. by apply bind_reject. }
  2: { rewrite (bind_crash step _ s s1); [done|]. unfold step, poll_snapshot. rewrite He. by apply bind_crash. }
  rewrite (io_bind_eq step _ s (add_result result f) s1) by by unfold step, poll_snapshot; rewrite He, (io_bind_eq _ _ _ _ _ E).
  intros Hg Ht Hq. destruct (IH _ _ g Hg (proj1 (proj2 Hs Ht)) Hq) as [[Hf Ho]%add_calm Hn]. split; [done|].
  pose proof (poll_safe info sha256 nothrow_new opener default_opener Realpath garbage cow_fuel page_size m metadata_read
    update names (add_result result f) s1) as [Hs1 _].
  intros name [->|Hin]%elem_of_cons Hp.
  - destruct Ho as [Ho|Ho]; [right; by eapply Hw|left]. eapply is_merged_after; [apply Hs1|]. by apply (Ha result).
  - destruct (Hn name Hin Hp) as [|Hwt]; [by left|right]. by eapply waits_before.
Qed.
Lemma update_status_elsewhere (s s' : M) : only (elsewhere info) s s' → update_status info s' = update_status info s.
Proof. intros H. apply same_update_status. by rewrite (only_disk _ _ _ _ H) by auto. Qed.
Lemma quiet_status (s s' : M) : only indicator s s' → update_status info s' = update_status info s.
Proof. intros H. apply update_status_elsewhere. eapply only_weaken; [|exact H]. intros p ->. apply not_eq_sym, state_not_indicator. Qed.
(** Only a calm poll can start the second phase. *)
Lemma outcome_second f (s : M) :
  us_merge_phase (update_status info (merge_outcome info garbage f s).2) ≠ us_merge_phase (update_status info s) → calm f.
Proof.
  unfold merge_outcome, calm. destruct (fl_merging f); [done|]. case_decide as Hc; [done|]. intros _. done.
Qed.
Lemma poll_all_waits update (s : M) (r := poll_all info sha256 nothrow_new opener default_opener Realpath garbage cow_fuel page_size update s) :
  truthful s → us_merge_phase (update_status info r.2) ≠ us_merge_phase (update_status info s) →
  ∀ name status, pending name → snapshot_of info s name = Some status → DecideMergePhase status = FIRST_PHASE →
    is_merged r.2 name.
Proof.
  intros Ht Hd name status Hp Hst Hfirst. revert Hd. subst r. unfold poll_all.
  assert (Hl : keeps (only indicator) (ListSnapshots (W := W) info [])) by keeps. specialize (Hl s).
  assert (Hls : keeps safe (ListSnapshots (W := W) info [])) by keeps. specialize (Hls s).
  destruct (ListSnapshots info [] s) as [[names| |] s1] eqn:E; simpl in Hl, Hls.
  2: { rewrite (io_bind_eq _ _ _ None s1) by (unfold try_; by rewrite E). simpl; by rewrite (quiet_status s s1). }
  2: { rewrite (bind_crash _ _ _ s1) by (unfold try_; by rewrite E). simpl; by rewrite (quiet_status s s1). }
  rewrite (io_bind_eq _ _ _ (Some names) s1) by (unfold try_; by rewrite E). rewrite <-(quiet_status s s1 Hl).
  set (flags := mkFlags false false false false MergeFailureCode.Ok).
  pose proof (poll_waits update names flags s1) as Ha.
  pose proof (keeps_poll info sha256 nothrow_new opener default_opener Realpath garbage cow_fuel page_size update names flags s1) as He.
  destruct (io_fold _ names flags s1) as [[f| |] s2] eqn:Ef; simpl in Ha, He.
  2: { rewrite (bind_reject _ _ _ _ Ef); simpl; by rewrite (update_status_elsewhere s1 s2). }
  2: { rewrite (bind_crash _ _ _ _ Ef); simpl; by rewrite (update_status_elsewhere s1 s2). }
  rewrite (io_bind_eq _ _ _ _ _ Ef). rewrite <-(update_status_elsewhere s1 s2 He). intros Hcalm%outcome_second.
  destruct (Ha f eq_refl) as [_ Hn]; [by apply Hls|done|].
  destruct (Hn name) as [Hg|(st & Hs & Hphase)]; [|done|..].
  - by eapply (list_complete info m s); [exact E|done|unfold has_status; unfold snapshot_of in Hst; destruct (disk s _)].
  - eapply is_merged_after; [|exact Hg]. apply (keeps_outcome_safe info garbage m f s2).
  - unfold snapshot_of in *. rewrite (only_disk _ _ _ _ Hl) in Hs by apply status_not_indicator. congruence.
Qed.
Lemma second_phase_waits before_cancel (s : M)
    (r := CheckMergeState_locked info sha256 nothrow_new opener default_opener Realpath garbage cow_fuel page_size before_cancel s) :
  truthful s → merging (update_state info s) = true →
  us_merge_phase (update_status info r.2) ≠ us_merge_phase (update_status info s) →
  ∀ name status, pending name → snapshot_of info s name = Some status → DecideMergePhase status = FIRST_PHASE →
    is_merged r.2 name.
Proof.
  intros Ht Hm. subst r. destruct (locked_merging info sha256 nothrow_new opener default_opener Realpath garbage cow_fuel page_size
    s before_cancel Hm) as (s1 & Hd & ->). rewrite <-(same_update_status info s s1) by by rewrite (proj1 Hd).
  intros Hph name status Hp Hst. apply (poll_all_waits _ s1); [|done|done|].
  - pose proof (frame_only (R := safe) (P := elsewhere_pending) s s1 (same_disk_only _ _ _ Hd)) as [_ H]. by apply H.
  - unfold snapshot_of in *. by rewrite (proj1 Hd).
Qed.
End Phase.
