(* ===== verification/MemUpdate.v ===== *)
(** * A device in memory for the snapshot manager

    An encoding of the two messages, and a world with files in a map, a budget of writes
    before the power fails, a fixed set of devices and a daemon that merges: the instances
    that show the interfaces of [SnapWorld] and the laws of [SnapSafe] can be met. *)
From stdpp Require Import gmap.
From S2P Require Import Prelude Bytes Device LpFormat LpUtility LpReader DmTarget DeviceMapper DmLinear.
From S2P Require Import CowFormat CowReader CowWriter SnapUpdate SnapCow SnapWorld SnapState SnapDevices.
From S2P Require Import SnapManager.
From S2P Require Import SnapMerge SnapMap SnapCreate SnapFrame SnapMapped SnapSafe.
From coqutil Require Import Byte Word.LittleEndianList.

(** ** The messages *)

Definition write_numbers (zs : list Z) : bytes := concat (le_split 8 <$> zs).
Lemma length_write_numbers zs : length (write_numbers zs) = (8 * length zs)%nat.
Proof. unfold write_numbers. induction zs as [|z zs IH]; [done|]. rewrite fmap_cons, concat_cons, length_app, IH, length_le_split. simpl. lia. Qed.
Fixpoint read_numbers (n : nat) (b : bytes) : list Z * bytes :=
  match n with
  | O => ([], b)
  | S n => let '(zs, rest) := read_numbers n (drop 8 b) in (le_combine (take 8 b) :: zs, rest)
  end.
Lemma read_write_numbers zs rest : Forall (λ z, is_u64 z) zs →
  read_numbers (length zs) (write_numbers zs ++ rest) = (zs, rest).
Proof.
  induction 1 as [|z zs Hz _ IH]; [done|].
  change (write_numbers (z :: zs)) with (le_split 8 z ++ write_numbers zs). cbn [length read_numbers].
  rewrite <-(assoc_L (++)), drop_app_length' by by rewrite length_le_split. rewrite IH.
  rewrite take_app_length' by by rewrite length_le_split. rewrite le_combine_split, Z.mod_small by done. done.
Qed.
Definition of_bool (b : bool) : Z := if b then 1 else 0.
Definition to_bool (z : Z) : bool := bool_decide (z ≠ 0).
Lemma to_of_bool b : to_bool (of_bool b) = b.
Proof. by destruct b. Qed.
(** The position of a value in the list of all of them. *)
Definition index {A} `{EqDecision A} (l : list A) (a : A) : Z := Z.of_nat (default O (fst <$> list_find (eq a) l)).
Definition at_index {A} (l : list A) (d : A) (z : Z) : A := default d (l !! Z.to_nat z).
Definition states : list UpdateState :=
  [UpdateState.None; UpdateState.Initiated; UpdateState.Unverified; UpdateState.Merging; UpdateState.MergeNeedsReboot;
   UpdateState.MergeCompleted; UpdateState.MergeFailed; UpdateState.Cancelled].
Definition snapshot_states : list SnapshotState :=
  [SnapshotState.NONE; SnapshotState.CREATED; SnapshotState.MERGING; SnapshotState.MERGE_COMPLETED].
Definition phases : list MergePhase := [NO_MERGE; FIRST_PHASE; SECOND_PHASE].
Definition codes : list MergeFailureCode :=
  [MergeFailureCode.Ok; MergeFailureCode.ReadStatus; MergeFailureCode.GetTableInfo; MergeFailureCode.UnknownTable;
   MergeFailureCode.GetTableParams; MergeFailureCode.ActivateNewTable; MergeFailureCode.AcquireLock;
   MergeFailureCode.ListSnapshots; MergeFailureCode.WriteStatus; MergeFailureCode.UnknownTargetType;
   MergeFailureCode.QuerySnapshotStatus; MergeFailureCode.ExpectedMergeTarget;
   MergeFailureCode.UnmergedSectorsAfterCompletion; MergeFailureCode.UnexpectedMergeState;
   MergeFailureCode.GetCowPathConsistencyCheck; MergeFailureCode.OpenCowConsistencyCheck;
   MergeFailureCode.ParseCowConsistencyCheck; MergeFailureCode.OpenCowDirectConsistencyCheck;
   MergeFailureCode.MemAlignConsistencyCheck; MergeFailureCode.DirectReadConsistencyCheck;
   MergeFailureCode.WrongMergeCountConsistencyCheck].

Definition status_numbers (s : SnapshotStatus) : list Z :=
  [index snapshot_states (st_state s); st_device_size s; st_snapshot_size s; st_cow_partition_size s; st_cow_file_size s;
   st_sectors_allocated s; st_metadata_sectors s; of_bool (st_using_snapuserd s); st_old_partition_size s;
   st_estimated_cow_size s; of_bool (st_enable_threading s); of_bool (st_batched_writes s); zlen (st_name s)].
Definition status_of_numbers (zs : list Z) (rest : bytes) : option SnapshotStatus :=
  match zs with
  | [state; device; size; cow; file; sectors; metadata; user; old; estimated; threads; batched; name] =>
      Some (mkSnapshotStatus (take (Z.to_nat name) rest) (at_index snapshot_states SnapshotState.NONE state) device size cow file
              sectors metadata (to_bool user) old (drop (Z.to_nat name) rest) estimated (to_bool threads) (to_bool batched))
  | _ => None
  end.
Definition update_numbers (u : SnapshotUpdateStatus) : list Z :=
  [index states (us_state u); us_sectors_allocated u; us_total_sectors u; us_metadata_sectors u;
   of_bool (us_using_snapuserd u); index phases (us_merge_phase u); index codes (us_merge_failure_code u);
   of_bool (us_userspace_snapshots u); of_bool (us_io_uring_enabled u)].
Definition update_of_numbers (zs : list Z) (rest : bytes) : option SnapshotUpdateStatus :=
  match zs with
  | [state; sectors; total; metadata; user; phase; code; userspace; uring] =>
      Some (mkUpdateStatus (at_index states UpdateState.None state) sectors total metadata (to_bool user)
              (at_index phases NO_MERGE phase) (at_index codes MergeFailureCode.Ok code) rest (to_bool userspace) (to_bool uring))
  | _ => None
  end.
Lemma numbered_status s : status_of_numbers (status_numbers s) (st_name s ++ st_compression_algorithm s) = Some s.
Proof.
  destruct s as [name state ??????? ? compression ? ? ?]. unfold status_of_numbers, status_numbers. simpl.
  rewrite !to_of_bool, to_nat_zlen, take_app_length, drop_app_length. by destruct state.
Qed.
Lemma numbered_update u : update_of_numbers (update_numbers u) (us_source_build_fingerprint u) = Some u.
Proof.
  destruct u as [state ??? ? phase code fingerprint ??]. unfold update_of_numbers, update_numbers. simpl.
  rewrite !to_of_bool. by destruct state, phase, code.
Qed.
(** Numbers of 64 bits, then the strings. *)
Definition serialize_numbers (zs : list Z) (rest : bytes) : option bytes :=
  if decide (Forall (λ z, is_u64 z) zs) then Some (write_numbers zs ++ rest) else None.
Lemma serialized_numbers zs rest b : serialize_numbers zs rest = Some b → read_numbers (length zs) b = (zs, rest).
Proof. unfold serialize_numbers. case_decide; [|done]. intros [= <-]. by apply read_write_numbers. Qed.
Lemma serialized_length zs rest b : serialize_numbers zs rest = Some b → length b = (8 * length zs + length rest)%nat.
Proof. unfold serialize_numbers. case_decide; [|done]. intros [= <-]. by rewrite length_app, length_write_numbers. Qed.
#[export, refine] Instance mem_proto : SnapProto := {|
  serialize_status s := serialize_numbers (status_numbers s) (st_name s ++ st_compression_algorithm s);
  parse_status b := let '(zs, rest) := read_numbers 13 b in status_of_numbers zs rest;
  serialize_update_status u := serialize_numbers (update_numbers u) (us_source_build_fingerprint u);
  parse_update_status b :=
    let '(zs, rest) := read_numbers 9 b in
    match update_of_numbers zs rest with Some u => (bool_decide (9 * 8 ≤ zlen b), u) | None => (false, empty_update_status) end;
|}.
Proof.
  - intros s b Hb%serialized_numbers. change 13%nat with (length (status_numbers s)). rewrite Hb. apply numbered_status.
  - intros u b Hb. pose proof (serialized_numbers _ _ _ Hb) as Hr. change 9%nat with (length (update_numbers u)).
    rewrite Hr, numbered_update. f_equal. apply bool_decide_true. apply serialized_length in Hb.
    unfold zlen. rewrite Hb. change (length (update_numbers u)) with 9%nat. lia.
Defined.

(** ** The world *)

(** The devices and images that were mapped, the size of every block device, the super
    partition. *)
Record MemMachine := mkMachine {
  mm_devices : gset bytes;
  mm_images : gset bytes;
  mm_device_size : Z;
  mm_super : MemDisk;
}.
(** [mw_writes]: how many writes there are before the power fails; [mw_devices]: devices of
    snapshots that stay. *)
Record MemWorld := mkMemWorld {
  mw_files : gmap bytes bytes;
  mw_writes : nat;
  mw_time : Z;
  mw_devices : gmap bytes TargetInfo;
  mw_answers : gmap bytes bytes;
  mw_machine : MemMachine;
}.
Definition machine_set (f : MemMachine → MemMachine) (w : MemWorld) : MemWorld :=
  mkMemWorld (mw_files w) (mw_writes w) (mw_time w) (mw_devices w) (mw_answers w) (f (mw_machine w)).
Definition devices_set (f : gset bytes → gset bytes) : MemWorld → MemWorld :=
  machine_set (λ m, mkMachine (f (mm_devices m)) (mm_images m) (mm_device_size m) (mm_super m)).
Definition images_set (f : gset bytes → gset bytes) : MemWorld → MemWorld :=
  machine_set (λ m, mkMachine (mm_devices m) (f (mm_images m)) (mm_device_size m) (mm_super m)).
Definition super_set (d : MemDisk) : MemWorld → MemWorld :=
  machine_set (λ m, mkMachine (mm_devices m) (mm_images m) (mm_device_size m) d).
Definition answers_set (f : gmap bytes bytes → gmap bytes bytes) (w : MemWorld) : MemWorld :=
  mkMemWorld (mw_files w) (mw_writes w) (mw_time w) (mw_devices w) (f (mw_answers w)) (mw_machine w).
Definition pass (ms : Z) (w : MemWorld) : MemWorld :=
  mkMemWorld (mw_files w) (mw_writes w) (mw_time w + ms `max` 0) (mw_devices w) (mw_answers w) (mw_machine w).
(** A change of the files, unless the power failed. *)
Definition write_files (f : gmap bytes bytes → gmap bytes bytes) : IO MemWorld unit := λ w,
  match mw_writes w with
  | O => (Reject, w)
  | S n => (Ret (), mkMemWorld (f (mw_files w)) n (mw_time w) (mw_devices w) (mw_answers w) (mw_machine w))
  end.
Definition look {A} (f : MemWorld → outcome A) : IO MemWorld A := λ w, (f w, w).
Definition done_ : IO MemWorld unit := look (λ _, Ret ()).
Definition rename_file (from to : bytes) (files : gmap bytes bytes) : gmap bytes bytes :=
  match files !! from with Some b => <[to := b]> (delete from files) | None => files end.
(** The names of the files in a directory. *)
Definition in_dir (p k : bytes) : Prop := take (length p + 1) k = p ++ str "/" ∧
  drop (length p + 1) k ≠ [] ∧ Byte.x2f ∉ drop (length p + 1) k.
#[export] Instance in_dir_dec p k : Decision (in_dir p k).
Proof. apply _. Defined.
Definition names_in (p : bytes) (files : gmap bytes bytes) : list (bytes * bool) :=
  (λ k, (drop (length p + 1) k, true)) <$> filter (in_dir p) (map_to_list files).*1.

#[export] Instance mem_files : IFiles MemWorld := {|
  open_directory _ := done_;
  flock _ _ := done_;
  ReadFileToString p := look (λ w, found (mw_files w !! p));
  open_trunc p := write_files <[p := []]>;
  WriteStringToFd content p := write_files <[p := content]>;
  fsync_file _ := done_;
  rename from to := λ w, if decide (is_Some (mw_files w !! from)) then write_files (rename_file from to) w else (Reject, w);
  fsync_directory _ := look (λ _, Ret FsyncDone);
  WriteStringToFile content p := write_files <[p := content]>;
  RemoveFileIfExists p := write_files (delete p);
  access_F_OK p := look (λ w, Ret (bool_decide (is_Some (mw_files w !! p))));
  read_dir p := look (λ w, Ret (names_in p (mw_files w)));
  WaitForFileDeleted_10s _ := done_;
  clock_now := look (λ w, Ret (mw_time w));
  sleep_ms ms := λ w, (Ret (), pass ms w);
  block_device_size _ := look (λ w, Ret (mm_device_size (mw_machine w)));
  write_device _ _ := look (λ _, Ret FiemapOk);
  WaitForFile_ p _ := look (λ w, if decide (is_Some (mw_files w !! p)) then Ret () else Reject);
  uevent_regen_callback _ := done_;
  mount_metadata _ := look (λ _, Ret true);
  unmount_metadata _ := done_;
|}.
Definition device_exists (w : MemWorld) (name : bytes) : Prop :=
  is_Some (mw_devices w !! name) ∨ name ∈ mm_devices (mw_machine w).
#[export] Instance device_exists_dec w name : Decision (device_exists w name).
Proof. apply _. Defined.
Definition device_path (name : bytes) : bytes := str "/dev/block/" ++ name.
(** What was mapped can always be taken away. *)
#[export] Instance mem_dm : IDeviceMapper MemWorld := {|
  dm_CreateDevice name _ _ := λ w,
    if decide (name = [] ∨ device_exists w name) then (Reject, w)
    else (Ret (device_path name), devices_set (λ l, {[name]} ∪ l) w);
  dm_GetState name := look (λ w, Ret (if decide (device_exists w name) then ACTIVE else INVALID));
  dm_LoadTableAndActivate _ _ := done_;
  dm_GetTableInfo name := look (λ w, Ret (option_list (mw_devices w !! name)));
  dm_GetTableStatus name := look (λ w, Ret (option_list (mw_devices w !! name)));
  dm_GetDmDevicePathByName name := look (λ _, Ret (device_path name));
  dm_GetDeviceString name := look (λ _, Ret name);
  dm_DeleteDeviceIfExists name := λ w, (Ret (), devices_set (λ l, l ∖ {[name]}) w);
|}.
Definition map_image (name : bytes) : IO MemWorld bytes := λ w,
  if decide (name ∈ mm_images (mw_machine w)) then (Reject, w)
  else (Ret (device_path name), images_set (λ l, {[name]} ∪ l) w).
#[export] Instance mem_images : IImageManager MemWorld := {|
  OpenImageManager := done_;
  im_CreateBackingImage _ _ := look (λ _, Ret FiemapOk);
  im_BackingImageExists _ := look (λ _, Ret false);
  im_DeleteBackingImage _ := done_;
  im_UnmapImageIfExists name := λ w, (Ret (), images_set (λ l, l ∖ {[name]}) w);
  im_IsImageMapped name := look (λ w, Ret (bool_decide (name ∈ mm_images (mw_machine w))));
  im_RemoveAllImages := done_;
  im_MapImageDevice name _ := map_image name;
  im_MapImageWithDeviceMapper name := map_image name;
  im_GetMappedImageDevice name := look (λ w,
    if decide (name ∈ mm_images (mw_machine w)) then Ret (device_path name) else Reject);
|}.
Definition merge_complete : bytes := str "snapshot-merge-complete".
(** The daemon is done at once; it has no power either. *)
Definition merge_in_daemon (name : bytes) (answers : gmap bytes bytes) : gmap bytes bytes :=
  if decide (is_Some (answers !! name)) then <[name := merge_complete]> answers else answers.
#[export] Instance mem_snapuserd : ISnapuserd MemWorld := {|
  EnsureSnapuserdStarted := done_;
  SnapuserdClient_Connect := done_;
  client_InitiateMerge name := λ w,
    if decide (mw_writes w = O) then (Reject, w) else (Ret (), answers_set (merge_in_daemon name) w);
  client_QuerySnapshotStatus name := look (λ w, Ret (default [] (mw_answers w !! name)));
  client_WaitForDeviceDelete _ := done_;
  client_DetachSnapuserd := done_;
  client_RemoveTransitionedDaemonIndicator := done_;
  client_InitDmUserCow _ _ _ _ := look (λ w, Ret (mm_device_size (mw_machine w) / 512));
  client_AttachDmUser _ := done_;
|}.
#[export] Instance mem_boot : IBootControl MemWorld := {|
  SetBootControlMergeStatus _ := done_;
  SetSlotAsUnbootable _ := done_;
|}.
#[export] Instance mem_world : SnapWorld MemWorld := Build_SnapWorld _ _ _ _ _ _.
#[export] Instance mem_cow : ICowDevices MemWorld MemFile := {|
  open_cow path _ := look (λ w, match mw_files w !! path with Some b => Ret (mkFile b 0) | None => Reject end);
|}.
(** A program on the super partition, and one on a COW whose content is not kept. *)
#[export] Instance mem_super : ISuperDevice MemWorld MemDisk := {|
  super_update _ m := λ w, let r := m (mm_super (mw_machine w)) in (r.1, super_set r.2 w);
|}.
#[export] Instance mem_store : ICowStore MemWorld MemFile := {|
  cow_update _ m := look (λ _, (m OtherFile (mkFile [] 0)).1);
|}.

(** ** Its laws *)

(** A device that dm-snapshot reports as merged. *)
Definition merged_status (t : TargetInfo) : bool :=
  bool_decide (GetTargetType (tinfo_spec t) = str "snapshot-merge") &&
  match scan_status (tinfo_data t) with
  | Some s => bool_decide (sectors_allocated s = metadata_sectors s)
  | None => false
  end.
Definition mem_merged (w : MemWorld) (name : bytes) : Prop :=
  mw_answers w !! name = Some merge_complete ∨ ∃ t, mw_devices w !! name = Some t ∧ merged_status t = true.
Definition mem_later (w w' : MemWorld) : Prop :=
  mw_time w ≤ mw_time w' ∧ ∀ name, mem_merged w name → mem_merged w' name.
Definition mem_file (w : MemWorld) (p : bytes) : option bytes := mw_files w !! p.
#[export] Instance mem_later_preorder : PreOrder mem_later.
Proof. split; [by intros w; split|]. intros w1 w2 w3 [Ht1 H1] [Ht2 H2]. split; [lia|auto]. Qed.
Lemma machine_quiet {A} (m : IO MemWorld A) :
  (∀ w, (m w).1 ≠ Crash ∧ ∃ f, (m w).2 = machine_set f w) → quiet mem_file mem_later m.
Proof. intros H w. destruct (H w) as [Hc [f ->]]. split; [done|]. split; [done|]. split; [simpl; lia|done]. Qed.
Lemma look_quiet {A} (f : MemWorld → outcome A) : (∀ w, f w ≠ Crash) → quiet mem_file mem_later (look f).
Proof. intros H w. split; [apply H|done]. Qed.
Lemma write_touches p f : (∀ files q, q ≠ p → f files !! q = files !! q) → touches mem_file mem_later p (write_files f).
Proof.
  intros Hf w. unfold write_files. destruct (mw_writes w); (split; [done|]); (split; [|done]).
  - done.
  - intros q Hq. by apply Hf.
Qed.
Lemma names_in_spec p files name :
  (name, true) ∈ names_in p files ↔
  is_Some (files !! (p ++ str "/" ++ name)) ∧ name ≠ [] ∧ Byte.x2f ∉ name.
Proof.
  unfold names_in. rewrite list_elem_of_fmap. split.
  - intros (k & [= ->] & [[Ht Hd] ([k' b] & -> & Hk%elem_of_map_to_list)%list_elem_of_fmap]%list_elem_of_filter).
    cbn [fst] in *. split; [|done]. rewrite (assoc_L (++)), <-Ht, take_drop. by exists b.
  - intros [[b Hb] [Hn Hs]]. exists (p ++ str "/" ++ name).
    assert (Hl : length (p ++ str "/") = (length p + 1)%nat) by (rewrite length_app; done).
    rewrite (assoc_L (++)), drop_app_length' by done. split; [done|].
    apply list_elem_of_filter. split; [split; [|split]|].
    + by rewrite take_app_length'.
    + by rewrite drop_app_length'.
    + by rewrite drop_app_length'.
    + apply list_elem_of_fmap. exists ((p ++ str "/") ++ name, b). split; [done|].
      apply elem_of_map_to_list. by rewrite <-(assoc_L (++)).
Qed.
Lemma names_in_NoDup p files : NoDup (names_in p files).*1.
Proof.
  unfold names_in. rewrite <-list_fmap_compose. apply NoDup_fmap_2_strong; [|apply NoDup_filter, NoDup_fst_map_to_list].
  intros k1 k2 [[H1 _] _]%list_elem_of_filter [[H2 _] _]%list_elem_of_filter. simpl. intros E.
  rewrite <-(take_drop (length p + 1) k1), <-(take_drop (length p + 1) k2). congruence.
Qed.
Lemma rename_spec from to files p :
  (p ≠ from → p ≠ to → rename_file from to files !! p = files !! p) ∧
  (is_Some (files !! from) → rename_file from to files !! to = files !! from).
Proof.
  unfold rename_file. destruct (files !! from) as [b|] eqn:E; [|by split; [|intros [??]]]. split.
  - intros. by rewrite lookup_insert_ne, lookup_delete_ne.
  - intros _. by rewrite lookup_insert_eq.
Qed.
Lemma answers_later f w : (∀ name, mw_answers w !! name = Some merge_complete → f (mw_answers w) !! name = Some merge_complete) →
  mem_later w (answers_set f w).
Proof. intros Hf. split; [simpl; lia|]. intros name [H|H]; [left; by apply Hf|by right]. Qed.
#[export, refine] Instance mem_laws : SnapWorldLaws MemWorld := {|
  file := mem_file; time := mw_time; later := mem_later; later_time w w' H := proj1 H;
|}.
Proof.
  all: try (intros; by apply look_quiet).
  all: try (intros; apply machine_quiet; intros w; split; [done|by eexists]).
  all: try (intros; apply look_quiet; intros w; by repeat case_decide).
  all: try (intros; apply machine_quiet; intros w; simpl; unfold map_image; case_decide; (split; [done|]);
    [by exists id; destruct w|by eexists]).
  all: try (intros; apply write_touches; intros; by rewrite ?lookup_insert_ne, ?lookup_delete_ne).
  all: try done.
  - intros p content w. simpl. unfold write_files, mem_file. destruct (mw_writes w); [done|]. intros _. apply lookup_insert_eq.
  - intros from to w. simpl. case_decide as Hf; simpl; [|by split_and!; [| |..|left|]].
    unfold write_files, mem_file. destruct (mw_writes w); simpl; [by split_and!; [| |..|left|]|].
    assert (E : rename_file from to (mw_files w) !! to = mw_files w !! from) by by apply (rename_spec from to (mw_files w) to).
    split_and!; [done|done| |by right|done]. intros p. by apply rename_spec.
  - intros p w. simpl. unfold write_files, mem_file. destruct (mw_writes w); simpl; [by split; [right|]|].
    rewrite lookup_delete_eq. by split; [left|].
  - intros p w l [= <-]. split; [apply names_in_NoDup|]. intros name Hn%names_in_spec. unfold mem_file. tauto.
  - intros p w l name [= <-] ???. by apply names_in_spec.
  - intros ms w. simpl. split; [done|]. split; [done|]. split; [simpl; lia|done].
  - intros ms w. simpl. split; [done|lia].
  - intros name w. simpl. case_decide; [done|]. split; [done|]. split; [done|]. apply answers_later. intros n Hn. unfold merge_in_daemon.
    case_decide; [|done]. destruct (decide (n = name)) as [->|]; [apply lookup_insert_eq|by rewrite lookup_insert_ne].
Defined.
#[export] Instance mem_store_laws : StoreLaws MemWorld MemDisk MemFile.
Proof. split; intros path m w; (split; [done|]); (split; [simpl; lia|done]). Qed.
#[export] Instance mem_cow_laws : CowDevicesLaws MemWorld MemFile.
Proof. split. intros path direct. apply look_quiet. intros w. by destruct (mw_files w !! path). Qed.
#[export, refine] Instance mem_merge_laws : MergeLaws MemWorld := {| merged := mem_merged |}.
Proof.
  - intros w w' name [_ H]. apply H.
  - intros name w H. left. simpl in *. destruct (mw_answers w !! name) as [a|]; [|done]. simpl in H. by injection H as ->.
  - intros name w target status Ht Hty Hs He. right. simpl in *. destruct (mw_devices w !! name) as [t|]; [|done].
    injection Ht as ->. exists target. split; [done|]. unfold merged_status. rewrite Hs. by rewrite !bool_decide_true.
Defined.
(** The devices and images of the machine. *)
Definition mem_idle {A} (m : IO MemWorld A) : Prop :=
  ∀ w, mm_devices (mw_machine (m w).2) = mm_devices (mw_machine w) ∧ mm_images (mw_machine (m w).2) = mm_images (mw_machine w).
Lemma look_idle {A} (f : MemWorld → outcome A) : mem_idle (look f).
Proof. done. Qed.
#[export, refine] Instance mem_device_laws : DeviceLaws MemWorld := {|
  devices w := mm_devices (mw_machine w); images w := mm_images (mw_machine w);
|}.
Proof.
  all: try (intros; apply look_idle).
  - intros name table ms w. simpl. case_decide as Hd; simpl; [done|]. split; [done|].
    apply Decidable.not_or in Hd as [Hne Hd]. split; [|done]. intros Hin. apply Hd. by right.
  - done.
  - intros name ms w. simpl. unfold map_image. by case_decide.
  - intros name w. simpl. unfold map_image. by case_decide.
  - done.
Defined.
