(* ===== verification/SnapManagerProps.v ===== *)
(** * Properties of the snapshot manager

    The machine that the calls of the library implement, what they achieve, and the safety
    of a merge, with an instance of each on the device in memory. *)
From stdpp Require Import gmap.
From S2P Require Import Prelude Bytes LpFormat LpUtility Device LpReader LpWriter LpImage LpCrash LpBuilder.
From S2P Require Import LpProps.
From S2P Require Import DmTarget DeviceMapper DmLinear CowFormat CowReader CowWriter CowProps SnapUpdate.
From S2P Require Import SnapCow SnapWorld SnapState SnapDevices SnapManager SnapMerge SnapMap SnapCreate.
From S2P Require Import SnapFrame SnapMapped SnapSpec.
From S2P Require Import SnapEffects SnapSafe MemUpdate.
From coqutil Require Import Byte.

(** ** A device for the instances *)

Module MDemo.
(** Both slots of the super partition hold two updated partitions. *)
Definition header : LpMetadataHeader :=
  mkHeader LP_METADATA_HEADER_MAGIC 10 1 128 (zeroes 32) 0 (zeroes 32)
    (mkTable 0 2 52) (mkTable 0 2 24) (mkTable 0 1 48) (mkTable 0 1 64) 0 (zeroes 124).
Definition metadata : LpMetadata :=
  mkMetadata Demo.geometry header
    [mkPartition (strncpy 36 (str "system_b")) 5 0 1 0; mkPartition (strncpy 36 (str "vendor_b")) 5 1 1 0]
    [mkExtent 16 LP_TARGET_TYPE_LINEAR 2048 0; mkExtent 16 LP_TARGET_TYPE_LINEAR 2064 0]
    [mkGroup (strncpy 36 (str "default")) 0 0]
    [mkBlockDevice 2048 0 0 2097152 (strncpy 36 (str "super")) 0].
Definition slot : bytes := Demo.blob metadata ++ zeroes (512 - length (Demo.blob metadata)).
Definition super : MemDisk :=
  mkDisk (zeroes 4096 ++ SerializeGeometry Demo.digest Demo.geometry ++ SerializeGeometry Demo.digest Demo.geometry ++
    slot ++ slot ++ slot ++ slot) 0 0.
Definition machine : MemMachine := mkMachine ∅ ∅ 8192 super.
Definition opener : @IPartitionOpener MemDisk := mkOpener (λ _, Some super) (λ _, None) (λ name, name).
Definition realpath (p : bytes) : option bytes := Some p.
Definition info (suffix other : bytes) : DeviceInfo :=
  mkDeviceInfo (str "/metadata/ota") suffix other (λ _, str "super") false false false false false false false (str "old-build").
Definition no_properties : IPropertyFetcher := mkFetcher (λ _ d, d) (λ _ d, d).
Definition boot_a : Boot MemDisk := mkBoot (info (str "_a") (str "_b")) opener opener no_properties false false false.
Definition boot_b : Boot MemDisk := mkBoot (info (str "_b") (str "_a")) opener opener no_properties false false false.
Definition garbage : DmSnapshotStatus := mkDmStatus 0 0 0 [].

Definition status (name : bytes) (state : SnapshotState) (old_size : Z) : SnapshotStatus :=
  mkSnapshotStatus name state 8192 8192 0 8192 0 0 true old_size [] 0 false false.
Definition update (state : UpdateState) (phase : MergePhase) : SnapshotUpdateStatus :=
  mkUpdateStatus state 0 0 0 true phase MergeFailureCode.Ok (str "old-build") true false.
Definition file (rest contents : bytes) (files : gmap bytes bytes) : gmap bytes bytes :=
  <[str "/metadata/ota" ++ rest := contents]> files.
Definition snapshot_file (st : SnapshotStatus) : gmap bytes bytes → gmap bytes bytes :=
  file (str "/snapshots/" ++ st_name st) (default [] (serialize_status st)).
Definition state_file (u : SnapshotUpdateStatus) : gmap bytes bytes → gmap bytes bytes :=
  file (str "/state") (default [] (serialize_update_status u)).
Definition boot_file (suffix : bytes) : gmap bytes bytes → gmap bytes bytes := file (str "/snapshot-boot") suffix.
(** A snapshot of the daemon. *)
Definition device : TargetInfo := mkTargetInfo (mkSpec 0 16 0 0 (str "user")) [].
Definition world (files : gmap bytes bytes) (writes : nat) (answers : gmap bytes bytes) : SnapshotManager MemWorld :=
  NewSnapshotManager (mkMemWorld files writes 0 (<[str "system_b" := device]> {[ str "vendor_b" := device ]}) answers machine).
Definition answered (system vendor : bytes) : gmap bytes bytes := <[str "system_b" := system]> {[ str "vendor_b" := vendor ]}.

(** An empty COW image, on the devices of both snapshots. *)
Definition cow_image : bytes := Eval vm_compute in
  (let image := mf_bytes (w_fd (Finalize CowDemo.opened_writer).2) in image ++ zeroes (4096 - length image)).
Definition cow_files : gmap bytes bytes :=
  <[str "/dev/block/system_b-cow-img" := cow_image]> {[ str "/dev/block/vendor_b-cow-img" := cow_image ]}.

(** The writes are finished; the device booted into the new slot. *)
Definition both (state : SnapshotState) : gmap bytes bytes :=
  snapshot_file (status (str "system_b") state 16384) (snapshot_file (status (str "vendor_b") state 8192) cow_files).
Definition booted_files : gmap bytes bytes :=
  state_file (update UpdateState.Unverified NO_MERGE) (boot_file (str "_a") (both SnapshotState.CREATED)).
Definition unmerged : gmap bytes bytes := answered (str "snapshot") (str "snapshot").
Definition booted : SnapshotManager MemWorld := world booted_files 1000 unmerged.
(** The first phase is under way: [system_b] shrinks and goes first. *)
Definition merging_files : gmap bytes bytes :=
  state_file (update UpdateState.Merging FIRST_PHASE) (boot_file (str "_a")
    (snapshot_file (status (str "system_b") SnapshotState.MERGING 16384)
       (snapshot_file (status (str "vendor_b") SnapshotState.CREATED 8192) cow_files))).
Definition m : LpMetadata := Eval vm_compute in
  default metadata (returned (ReadMetadata Demo.digest Demo.allocates opener (str "super") 1)).
Lemma metadata_read :
  let slot := SlotNumberForSlotSuffix (GetSlotSuffix (b_info boot_b)) in
  ReadMetadata Demo.digest Demo.allocates opener (GetSuperDevice (b_info boot_b) slot) slot = Ret m.
Proof. by vm_compute. Qed.
(** A later boot, with power. *)
Definition reboot (s : SnapshotManager MemWorld) : SnapshotManager MemWorld :=
  let w := sm_world s in
  NewSnapshotManager (mkMemWorld (mw_files w) 1000 (mw_time w) (mw_devices w) (mw_answers w) (mw_machine w)).
Definition call_on (b : Boot MemDisk) (c : call MemWorld MemDisk) (s : SnapshotManager MemWorld) : SnapshotManager MemWorld :=
  (run Demo.digest Demo.allocates realpath garbage 10 4096 b c s).2.
Definition merging_now : SnapshotManager MemWorld := world merging_files 1000 (answered merge_complete (str "snapshot")).
Definition polled : SnapshotManager MemWorld :=
  (ProcessUpdateState (b_info boot_b) Demo.digest Demo.allocates opener opener realpath garbage 10 4096 1 None None merging_now).2.
Definition checked : SnapshotManager MemWorld :=
  (CheckMergeState_locked (b_info boot_b) Demo.digest Demo.allocates opener opener realpath garbage 10 4096 None merging_now).2.
(** An update that was begun, before and after its writes are finished. *)
Definition initiated : SnapshotManager MemWorld :=
  world (state_file (update UpdateState.Initiated NO_MERGE) (both SnapshotState.CREATED)) 1000 unmerged.
Definition finished : SnapshotManager MemWorld := (FinishedSnapshotWrites (b_info boot_a) false initiated).2.
Definition cancelled : SnapshotManager MemWorld := (CancelUpdate (b_info boot_a) Demo.digest Demo.allocates opener initiated).2.
(** An update with dm-snapshot. *)
Definition in_kernel : TargetInfo := mkTargetInfo (mkSpec 0 16 0 0 (str "snapshot")) (str "8/16 8").
Definition idle : SnapshotManager MemWorld := NewSnapshotManager (mkMemWorld ∅ 1000 0 {[ str "system_b" := in_kernel ]} ∅ machine).
Definition begun : SnapshotManager MemWorld := call_on boot_a (Call_BeginUpdate 5) idle.
Definition create : call MemWorld MemDisk :=
  Call_CreateSnapshot false false false [] (mkSnapshotStatus (str "system_b") SnapshotState.NONE 8192 8192 0 8192 0 0 false 0 [] 0 false false).
Definition created : SnapshotManager MemWorld := call_on boot_a create begun.
Definition written : SnapshotManager MemWorld := call_on boot_a (Call_FinishedSnapshotWrites false) created.
Definition merge_begun : SnapshotManager MemWorld := call_on boot_b Call_InitiateMerge (reboot written).
(** The power fails when the state is written and before the merge is started. *)
Definition lost : SnapshotManager MemWorld := call_on boot_b Call_InitiateMerge (world booted_files 3 unmerged).
Definition process : call MemWorld MemDisk := Call_ProcessUpdateState 10 None None.

(** The state after the loss of power, and after the first poll of the next boot; in normal
    form, so that what follows need not compute them again. *)
Definition lost_now : SnapshotManager MemWorld := Eval vm_compute in reboot lost.
Definition failed_now : SnapshotManager MemWorld := Eval vm_compute in reboot (call_on boot_b process lost_now).
Lemma lost_normal : reboot lost = lost_now.
Proof. vm_cast_no_check (eq_refl lost_now). Qed.
Lemma failed_normal : reboot (call_on boot_b process (reboot lost)) = failed_now.
Proof. rewrite lost_normal. vm_cast_no_check (eq_refl failed_now). Qed.
Lemma failed_again c : c = process ∨ c = Call_InitiateMerge ∨ c = Call_CancelUpdate →
  reboot (call_on boot_b c failed_now) = failed_now.
Proof. intros [->|[->| ->]]; vm_cast_no_check (eq_refl failed_now). Qed.
Lemma merge_began : update_state (b_info boot_b) (call_on boot_b Call_InitiateMerge booted) = UpdateState.Merging.
Proof. by vm_compute. Qed.
Lemma booted_state : update_state (b_info boot_b) booted = UpdateState.Unverified.
Proof. by vm_compute. Qed.
Lemma booted_slot : slot_of (b_info boot_b) booted = Target.
Proof. by vm_compute. Qed.
Lemma is_booted : SnapSpec.booted (b_info boot_b) booted.
Proof. unfold SnapSpec.booted. rewrite booted_state. exact booted_slot. Qed.
Lemma initiated_state : update_state (b_info boot_a) initiated = UpdateState.Initiated.
Proof. by vm_compute. Qed.
Lemma initiated_slot : slot_of (b_info boot_a) initiated = Unknown.
Proof. by vm_compute. Qed.
Lemma was_cancelled : CancelUpdate (b_info boot_a) Demo.digest Demo.allocates opener initiated = (Ret (), cancelled).
Proof.
  assert (H : (CancelUpdate (b_info boot_a) Demo.digest Demo.allocates opener initiated).1 = Ret ()) by by vm_compute.
  unfold cancelled. by destruct (CancelUpdate _ _ _ _ initiated) as [r s']; simpl in *; subst r.
Qed.
Lemma writes_finished : (FinishedSnapshotWrites (b_info boot_a) false initiated).1 = Ret ().
Proof. by vm_compute. Qed.
Lemma merging_state : merging (update_state (b_info boot_b) merging_now) = true.
Proof. by vm_compute. Qed.
(** The names of the two partitions. *)
Lemma pending_names name : pending (b_info boot_b) m name → name = str "system_b" ∨ name = str "vendor_b".
Proof.
  intros (H & _). unfold GetMetadataPartitionState in H. destruct (FindLpPartition m name) as [p|] eqn:E; [|done].
  unfold FindLpPartition in E. destruct (list_find _ (m_partitions m)) as [[i q]|] eqn:El; [|done].
  apply list_find_Some in El as (Hq & Hn & _). simpl in Hn. subst name.
  apply list_elem_of_lookup_2 in Hq. repeat (apply elem_of_cons in Hq; destruct Hq as [->|Hq]; [by vm_compute; auto|]).
  by apply not_elem_of_nil in Hq.
Qed.
Lemma system_pending : pending (b_info boot_b) m (str "system_b").
Proof. split; [by vm_compute|]. split; [by vm_compute|]. split; [done|]. by split; apply (bool_decide_unpack _). Qed.
Lemma system_merging : st_state <$> snapshot_of (b_info boot_b) merging_now (str "system_b") = Some SnapshotState.MERGING.
Proof. by vm_compute. Qed.
Lemma vendor_created : st_state <$> snapshot_of (b_info boot_b) merging_now (str "vendor_b") = Some SnapshotState.CREATED.
Proof. by vm_compute. Qed.
Lemma merging_truthful : truthful (b_info boot_b) m merging_now.
Proof.
  intros name st Hp Hs Hc. exfalso. pose proof system_merging as H1. pose proof vendor_created as H2.
  apply pending_names in Hp as [-> | ->]; [rewrite Hs in H1|rewrite Hs in H2]; cbn [fmap option_fmap option_map] in *; congruence.
Qed.
Lemma system_polled : disk polled (GetSnapshotStatusFilePath (b_info boot_b) (str "system_b")) = None.
Proof. by vm_compute. Qed.
Lemma system_has_status : has_status (b_info boot_b) merging_now (str "system_b").
Proof. unfold has_status. by apply (bool_decide_unpack _). Qed.
Lemma idle_state : state_in (str "/metadata/ota") idle = UpdateState.None.
Proof. by vm_compute. Qed.
Lemma merge_begun_state : state_in (str "/metadata/ota") merge_begun = UpdateState.Merging.
Proof. by vm_compute. Qed.
Definition calls : list (call MemWorld MemDisk) := [Call_BeginUpdate 5; create; Call_FinishedSnapshotWrites false; Call_InitiateMerge].
Lemma update_session : session Demo.digest Demo.allocates realpath garbage 10 4096 (D := MemDisk) (str "/metadata/ota") calls idle merge_begun.
Proof.
  change calls with (((([] ++ [Call_BeginUpdate 5]) ++ [create]) ++ [Call_FinishedSnapshotWrites false]) ++ [Call_InitiateMerge]).
  apply (session_call _ _ _ _ _ _ _ _ _ _ boot_b); [|reflexivity|exact I].
  apply (session_reboot _ _ _ _ _ _ _ _ _ written); [|reflexivity].
  apply (session_call _ _ _ _ _ _ _ _ _ _ boot_a); [|reflexivity|exact I].
  apply (session_call _ _ _ _ _ _ _ _ _ _ boot_a); [|reflexivity|exact I].
  apply (session_call _ _ _ _ _ _ _ _ _ _ boot_a); [|reflexivity|exact I].
  apply session_nil.
Qed.
Lemma finished_state : update_state (b_info boot_a) finished = UpdateState.Unverified.
Proof. by vm_compute. Qed.
Lemma phase_before : us_merge_phase (update_status (b_info boot_b) merging_now) = FIRST_PHASE.
Proof. by vm_compute. Qed.
Lemma phase_after : us_merge_phase (update_status (b_info boot_b) checked) = SECOND_PHASE.
Proof. by vm_compute. Qed.
Lemma system_status : ∃ st, snapshot_of (b_info boot_b) merging_now (str "system_b") = Some st ∧ DecideMergePhase st = FIRST_PHASE.
Proof. eexists. split; [vm_compute; reflexivity|by vm_compute]. Qed.
(** A snapshot of the kernel under a name that is in use, and one of the daemon: there is no
    time to wait for its device. *)
Definition in_use : SnapshotManager MemWorld :=
  world (state_file (mkUpdateStatus UpdateState.Unverified 0 0 0 false NO_MERGE MergeFailureCode.Ok (str "old-build") false false)
    (boot_file (str "_a") (snapshot_file
      (mkSnapshotStatus (str "system_b") SnapshotState.CREATED 8192 8192 0 8192 0 0 false 0 [] 0 false false) cow_files))) 1000 unmerged.
Definition map_system : CreateLogicalPartitionParams := mkParams (str "super") (Some m) None None (str "system_b") false 0 [] (Some opener).
Definition mapped (s : SnapshotManager MemWorld) : outcome SnapshotPaths * SnapshotManager MemWorld :=
  MapPartitionWithSnapshot (b_info boot_b) Demo.digest Demo.allocates opener opener realpath map_system Mount s.
Lemma mapping_failed : (mapped in_use).1 = Reject.
Proof. by vm_compute. Qed.
Lemma kernel_snapshot q : InitDefaults Demo.digest Demo.allocates opener map_system = Ret q →
  st_using_snapuserd <$> snapshot_of (b_info boot_b) in_use (fp_partition_name q) = Some false.
Proof. intros H. vm_compute in H. apply Ret_inj in H. subst q. by vm_compute. Qed.
(** The device of the daemon is left. *)
Definition by_daemon : SnapshotManager MemWorld :=
  NewSnapshotManager (mkMemWorld (snapshot_file (status (str "system_b") SnapshotState.CREATED 0) booted_files) 1000 0 ∅ unmerged machine).
Lemma daemon_device_left :
  (mapped by_daemon).1 = Reject ∧ elements (dv by_daemon) = [] ∧ elements (dv (mapped by_daemon).2) = [str "system_b"].
Proof. split; [by vm_compute|]. split; by vm_compute. Qed.
End MDemo.

Section Props.
Context `{HSP : !SnapProto} {W : Type} `{HW : SnapWorldLaws W}.
Context (sha256 : bytes → bytes) (nothrow_new : Z → bool) {D : Type} `{!BlockIO D, !ISuperDevice W D}.
Context (Realpath : bytes → option bytes) (garbage : DmSnapshotStatus).
Context {F : Type} `{!CowFile F, !ICowDevices W F, HC : !CowDevicesLaws W F, !ICowStore W F, HSt : !StoreLaws W D F}.
Context (cow_fuel : nat) (page_size : Z).
Local Abbreviation M := (SnapshotManager W).
Local Abbreviation run := (run sha256 nothrow_new Realpath garbage cow_fuel page_size).

(** ** The machine *)

(** C4: Every call of the manager takes the state of the update along the machine [allowed],
    whatever fails, as long as a file that is there can be read.  An update begins only where
    there is none once the earlier one was ended; its writes are finished only then; it is
    merged only on the slot that was updated.  Before the merge it is dropped only by a cancel
    (also when another update begins), if its writes are not finished or the updated slot does
    not run; by a data wipe; or by a poll that finds it given up: no snapshot is of a partition that was updated and
    not flashed since, or the listing fails, or the old slot runs and recorded a rollback. *)
Theorem calls_follow_machine (b : Boot D) (c : call W D) (s : M) (callbacks_ok : harmless_call c) :
  let info := b_info b in
  let s' := (run b c s).2 in
  (∃ gu : bool,
     (gu = true → given_up info sha256 nothrow_new (b_opener b) (changed_before info c) s) ∧
     allowed c (slot_of info s) gu (update_state info s) (update_state info s') = true) ∧
  (∀ fuel, c = Call_BeginUpdate fuel → update_state info s' = UpdateState.Initiated →
     update_state info s = UpdateState.Initiated ∨
     update_state info (end_previous info sha256 nothrow_new (b_opener b) (b_default_opener b) Realpath garbage
                          cow_fuel page_size fuel s).2 = UpdateState.None).
Proof.
  intros info s'. split; [by apply run_follows|]. intros fuel ->. by apply begin_guard.
Qed.

(** C10: Whatever calls are made, with reboots and losses of power between them, and as long as
    the files that are there can be read, an update is only where the calls that lead there, in their order, have taken it: before a merge there
    was a call that began the update, then one that finished its writes, then one that
    started the merge.  The file never says that the update is cancelled. *)
Theorem update_history (dir : bytes) (cs : list (call W D)) (s0 s : M)
    (calls : session sha256 nothrow_new Realpath garbage cow_fuel page_size (D := D) dir cs s0 s)
    (fresh : state_in dir s0 = UpdateState.None) :
  in_order (history (state_in dir s)) cs ∧ state_in dir s ≠ UpdateState.Cancelled.
Proof. exact (session_history sha256 nothrow_new Realpath garbage cow_fuel page_size dir cs s0 s calls fresh). Qed.

(** C11: After a boot into the updated slot the update can no longer be cancelled: the call
    refuses and changes no file. *)
Theorem no_cancel_after_boot (info : DeviceInfo) (opener : @IPartitionOpener D) (s : M) (is_booted : booted info s) :
  let r := CancelUpdate info sha256 nothrow_new opener s in
  r.1 = Reject ∧ (∀ p, disk r.2 p = disk s p) ∧ update_state info r.2 = update_state info s.
Proof.
  intros r. subst r. destruct (cancel_refuses sha256 nothrow_new info opener s is_booted) as [H Hd].
  split; [done|]. split; [intros p; by rewrite (proj1 Hd)|by apply same_state].
Qed.

(** C12: A cancelled update is gone: when the call succeeds outside recovery, no file of a
    snapshot is left and the state says that there is no update. *)
Theorem cancel_removes_snapshots (info : DeviceInfo) (opener : @IPartitionOpener D) (s s' : M)
    (not_recovery : IsRecovery info = false) (an_update : update_state info s ≠ UpdateState.None)
    (not_booted : slot_of info s ≠ Target)
    (cancelled : CancelUpdate info sha256 nothrow_new opener s = (Ret (), s')) :
  update_state info s' = UpdateState.None ∧
  ∀ name, name ≠ [] → Byte.x2f ∉ name → disk s' (GetSnapshotStatusFilePath info name) = None.
Proof. by eapply cancel_effect. Qed.

(** C5: The end of the writes survives a loss of power.  If the state is [Unverified]
    afterwards, the boot indicator names the old slot and the rollback indicator is gone:
    this slot is the source, and any other slot of the device the target, of the update.
    Else the state is what it was. *)
Theorem finished_writes_in_order (info : DeviceInfo) (wipe : bool) (s : M)
    (initiated : update_state info s = UpdateState.Initiated) (has_suffix : GetSlotSuffix info ≠ []) :
  let r := FinishedSnapshotWrites info wipe s in
  (update_state info r.2 = UpdateState.Initiated ∨
   update_state info r.2 = UpdateState.Unverified ∧ disk r.2 (GetRollbackIndicatorPath info) = None ∧
   slot_of info r.2 = Source ∧
   ∀ other, GetMetadataDir other = GetMetadataDir info → GetSlotSuffix other ≠ GetSlotSuffix info → slot_of other r.2 = Target) ∧
  (r.1 = Ret () → update_state info r.2 = UpdateState.Unverified).
Proof.
  intros r. subst r. destruct (finish_effect info wipe s initiated) as [[H|(Hu & Hb & Hr)] Hok]; (split; [|done]); [by left|right].
  split; [done|]. split; [done|]. split; [unfold slot_of; rewrite Hb; simpl; by rewrite decide_False, decide_True by done|].
  intros other Hd Hs. unfold slot_of, GetSnapshotBootIndicatorPath. rewrite Hd. unfold GetSnapshotBootIndicatorPath in Hb.
  rewrite Hb. simpl. by rewrite decide_False, decide_False by done.
Qed.

(** C13: Deleting a device ends: the loop gives up when the clock passes the deadline, and
    the number of its turns is bounded by the timeout. *)
Theorem device_deletion_ends (name : bytes) (timeout_ms : Z) (s : M) (timeout_ok : 0 ≤ timeout_ms) :
  (DeleteDeviceIfExists name timeout_ms s).1 = Ret () ∨ (DeleteDeviceIfExists name timeout_ms s).1 = Reject.
Proof.
  pose proof (delete_device_ends name timeout_ms s timeout_ok) as H.
  destruct (DeleteDeviceIfExists name timeout_ms s).1 as [[]| |]; [by left|by right|done].
Qed.

(** ** Mapping *)

(** C15: A mapping that fails takes away what it mapped.  Afterwards the same devices and the
    same images are mapped as before, if those that it made can be removed; only for a snapshot
    of the daemon a device can stay behind, and it is the daemon's. *)
Theorem failed_mapping_takes_away `{!DeviceLaws W} (info : DeviceInfo)
    (opener default_opener : @IPartitionOpener D) (p : @CreateLogicalPartitionParams D) (context : SnapshotContext)
    (s : M)
    (delete_works : ∀ name (w : W), (dm_DeleteDeviceIfExists name w).1 = Ret ())
    (unmap_works : ∀ name (w : W), (im_UnmapImageIfExists name w).1 = Ret ()) :
  let r := MapPartitionWithSnapshot info sha256 nothrow_new opener default_opener Realpath p context s in
  r.1 = Reject →
  images (sm_world r.2) = images (sm_world s) ∧
  ∃ kept, devices (sm_world r.2) = devices (sm_world s) ∪ kept ∧ kept ## devices (sm_world s) ∧
    (kept ≠ ∅ → ∃ q status, InitDefaults sha256 nothrow_new default_opener p = Ret q ∧
      snapshot_of info s (fp_partition_name q) = Some status ∧ st_using_snapuserd status = true ∧
      kept ⊆ dm_user_names (fp_partition_name q)).
Proof.
  exact (mapping_fails info sha256 nothrow_new opener default_opener Realpath p context s delete_works unmap_works).
Qed.

(** ** Merging *)

Context `{HM : !MergeLaws W} (info : DeviceInfo) (opener default_opener : @IPartitionOpener D) (m : LpMetadata).
Hypothesis metadata_read :
  let slot := SlotNumberForSlotSuffix (GetSlotSuffix info) in
  ReadMetadata sha256 nothrow_new opener (GetSuperDevice info slot) slot = Ret m.

(** C3: No snapshot is deleted before it is merged.  Let an update be merged, let no status say
    that a partition is merged which is not, and let the partition table of the running slot
    and the files that are there be readable.  Then, whatever else fails and however often the
    merge is polled, the status of a partition of this slot that was updated and not flashed
    since (its name that of a file and not ending in [.tmp]) stays on the disk until the
    partition is merged; and still no status says that a partition is merged which is not.
    The callbacks of the poll leave the files alone. *)
Theorem merge_keeps_unmerged (fuel : nat) (callback before_cancel : option (IO W bool)) (s : M)
    (callback_ok : harmless callback) (before_cancel_ok : harmless before_cancel)
    (is_merging : merging (update_state info s) = true) (is_truthful : truthful info m s) :
  let r := ProcessUpdateState info sha256 nothrow_new opener default_opener Realpath garbage cow_fuel page_size
             fuel callback before_cancel s in
  truthful info m r.2 ∧
  ∀ name, pending info m name → has_status info s name → has_status info r.2 name ∨ is_merged r.2 name.
Proof.
  intros r. destruct (process_safe info sha256 nothrow_new opener default_opener Realpath garbage cow_fuel page_size m
    metadata_read fuel callback before_cancel s callback_ok before_cancel_ok is_merging) as [_ H]. by apply H.
Qed.

(** C6: The second phase waits for the first.  Let an update be merged, let no status say that
    a partition is merged which is not, and let the partition table of the running slot and
    the files that are there be readable.  When a check changes the phase of the merge, every
    partition of this slot in the first phase that was updated and not flashed since (its name
    that of a file and not ending in [.tmp]) is merged: the space that it gave up can be
    overwritten.  Snapshots of partitions that were flashed since are dropped instead. *)
Theorem second_phase_after_first (before_cancel : option (IO W bool)) (s : M)
    (is_truthful : truthful info m s) (is_merging : merging (update_state info s) = true) :
  let r := CheckMergeState_locked info sha256 nothrow_new opener default_opener Realpath garbage cow_fuel page_size before_cancel s in
  us_merge_phase (update_status info r.2) ≠ us_merge_phase (update_status info s) →
  ∀ name status, pending info m name → snapshot_of info s name = Some status → DecideMergePhase status = FIRST_PHASE →
    is_merged r.2 name.
Proof.
  exact (second_phase_waits info sha256 nothrow_new opener default_opener Realpath garbage cow_fuel page_size m metadata_read
    before_cancel s is_truthful is_merging).
Qed.
End Props.

(** ** A merge that is never resumed *)

(** An instance, with snapshots of the daemon, which serves their devices again after every
    boot: when the power fails after [InitiateMerge] wrote the state and before a snapshot is
    switched, the merge is not tried again.  The next poll fails, although nothing is wrong
    with the snapshot, and from then on neither another poll nor another [InitiateMerge] nor
    [CancelUpdate] changes anything, in any number of boots.  (A snapshot of the kernel is
    mapped again in merge mode, [MapSnapshot].) *)
Theorem interrupted_start_is_stuck :
  let info := b_info MDemo.boot_b in
  let failed := MDemo.reboot (MDemo.call_on MDemo.boot_b MDemo.process (MDemo.reboot MDemo.lost)) in
  update_state info (MDemo.reboot MDemo.lost) = UpdateState.Merging ∧
  update_state info failed = UpdateState.MergeFailed ∧
  us_merge_failure_code (update_status info failed) = MergeFailureCode.ExpectedMergeTarget ∧
  st_state <$> snapshot_of info failed (str "system_b") = Some SnapshotState.CREATED ∧
  ∀ cs, Forall (λ c, c = MDemo.process ∨ c = Call_InitiateMerge ∨ c = Call_CancelUpdate) cs →
    foldl (λ s c, MDemo.reboot (MDemo.call_on MDemo.boot_b c s)) failed cs = failed.
Proof.
  cbv zeta. rewrite MDemo.failed_normal, MDemo.lost_normal.
  split; [by vm_compute|]. split; [by vm_compute|]. split; [by vm_compute|]. split; [by vm_compute|].
  intros cs H. induction H as [|c cs Hc _ IH]; [done|]. cbn [foldl]. by rewrite (MDemo.failed_again c Hc).
Qed.

(** ** Instances *)

Lemma calls_follow_machine_witness :
  (∃ gu, allowed (W := MemWorld) (D := MemDisk) Call_InitiateMerge Target gu UpdateState.Unverified UpdateState.Merging = true) ∧
  allowed (W := MemWorld) (D := MemDisk) Call_InitiateMerge Source true UpdateState.Unverified UpdateState.Merging = false.
Proof.
  split; [|reflexivity].
  destruct (calls_follow_machine Demo.digest Demo.allocates MDemo.realpath MDemo.garbage 10 4096 MDemo.boot_b
    Call_InitiateMerge MDemo.booted I) as [(gu & _ & H) _]. exists gu.
  change (run _ _ _ _ _ _ MDemo.boot_b Call_InitiateMerge MDemo.booted).2 with (MDemo.call_on MDemo.boot_b Call_InitiateMerge MDemo.booted) in H.
  rewrite MDemo.booted_slot, MDemo.booted_state, MDemo.merge_began in H. exact H.
Defined.
Lemma update_history_witness :
  in_order (history UpdateState.Merging) MDemo.calls ∧ state_in (str "/metadata/ota") MDemo.merge_begun = UpdateState.Merging.
Proof.
  split; [|exact MDemo.merge_begun_state].
  pose proof (update_history Demo.digest Demo.allocates MDemo.realpath MDemo.garbage 10 4096 _ _ _ _ MDemo.update_session MDemo.idle_state) as [H _].
  rewrite MDemo.merge_begun_state in H. exact H.
Defined.
Lemma no_cancel_after_boot_witness :
  (CancelUpdate (b_info MDemo.boot_b) Demo.digest Demo.allocates MDemo.opener MDemo.booted).1 = Reject.
Proof. exact (proj1 (no_cancel_after_boot Demo.digest Demo.allocates (b_info MDemo.boot_b) MDemo.opener MDemo.booted MDemo.is_booted)). Defined.
Lemma cancel_removes_snapshots_witness :
  update_state (b_info MDemo.boot_a) MDemo.cancelled = UpdateState.None ∧
  disk MDemo.cancelled (GetSnapshotStatusFilePath (b_info MDemo.boot_a) (str "system_b")) = None.
Proof.
  destruct (cancel_removes_snapshots Demo.digest Demo.allocates (b_info MDemo.boot_a) MDemo.opener MDemo.initiated MDemo.cancelled
    eq_refl) as [H1 H2].
  - rewrite MDemo.initiated_state. discriminate.
  - rewrite MDemo.initiated_slot. discriminate.
  - exact MDemo.was_cancelled.
  - split; [exact H1|]. apply H2; [discriminate|by apply (bool_decide_unpack _)].
Defined.
Lemma finished_writes_in_order_witness :
  update_state (b_info MDemo.boot_a) MDemo.finished = UpdateState.Unverified ∧
  slot_of (b_info MDemo.boot_a) MDemo.finished = Source ∧ slot_of (b_info MDemo.boot_b) MDemo.finished = Target.
Proof.
  destruct (finished_writes_in_order (b_info MDemo.boot_a) false MDemo.initiated MDemo.initiated_state) as [H1 H2]; [discriminate|].
  split; [exact (H2 MDemo.writes_finished)|]. destruct H1 as [H1|(_ & _ & H1 & H3)].
  - pose proof MDemo.finished_state as H4. unfold MDemo.finished in H4. rewrite H1 in H4. discriminate H4.
  - split; [exact H1|]. apply H3; [reflexivity|]. discriminate.
Defined.
Lemma device_deletion_ends_witness : (DeleteDeviceIfExists (str "system_b-cow") 4000 MDemo.booted).1 ≠ Crash.
Proof. destruct (device_deletion_ends (str "system_b-cow") 4000 MDemo.booted) as [-> | ->]; [lia|discriminate|discriminate]. Defined.
(** The daemon merged [system_b] and its snapshot is deleted. *)
Lemma merge_keeps_unmerged_witness :
  disk MDemo.polled (GetSnapshotStatusFilePath (b_info MDemo.boot_b) (str "system_b")) = None ∧ is_merged MDemo.polled (str "system_b").
Proof.
  split; [exact MDemo.system_polled|].
  destruct (merge_keeps_unmerged Demo.digest Demo.allocates MDemo.realpath MDemo.garbage 10 4096 (b_info MDemo.boot_b) MDemo.opener MDemo.opener
    MDemo.m MDemo.metadata_read 1 None None MDemo.merging_now I I MDemo.merging_state MDemo.merging_truthful) as [_ H].
  destruct (H (str "system_b") MDemo.system_pending MDemo.system_has_status) as [Hs|Hm]; [|exact Hm].
  unfold has_status in Hs. fold MDemo.polled in Hs. rewrite MDemo.system_polled in Hs. destruct Hs as [x Hx]. discriminate Hx.
Defined.
Lemma second_phase_after_first_witness :
  us_merge_phase (update_status (b_info MDemo.boot_b) MDemo.checked) = SECOND_PHASE ∧ is_merged MDemo.checked (str "system_b").
Proof.
  split; [exact MDemo.phase_after|]. destruct MDemo.system_status as (st & Hs & Hf).
  apply (second_phase_after_first Demo.digest Demo.allocates MDemo.realpath MDemo.garbage 10 4096 (b_info MDemo.boot_b) MDemo.opener MDemo.opener
    MDemo.m MDemo.metadata_read None MDemo.merging_now MDemo.merging_truthful MDemo.merging_state) with st;
    [|exact MDemo.system_pending|exact Hs|exact Hf].
  fold MDemo.checked. rewrite MDemo.phase_after, MDemo.phase_before. discriminate.
Defined.
(** The base device and the image of [system_b] were mapped, and are gone. *)
Lemma failed_mapping_takes_away_witness :
  images (sm_world (MDemo.mapped MDemo.in_use).2) = images (sm_world MDemo.in_use) ∧
  devices (sm_world (MDemo.mapped MDemo.in_use).2) = devices (sm_world MDemo.in_use).
Proof.
  destruct (failed_mapping_takes_away Demo.digest Demo.allocates MDemo.realpath (b_info MDemo.boot_b) MDemo.opener MDemo.opener
    MDemo.map_system Mount MDemo.in_use) as (Hi & kept & Hd & _ & Hk); [reflexivity|reflexivity|exact MDemo.mapping_failed|].
  split; [exact Hi|]. unfold MDemo.mapped. rewrite Hd. destruct (decide (kept = ∅)) as [->|Hne]; [apply (right_id_L ∅ (∪))|].
  destruct (Hk Hne) as (q & st & Hq & Hs & Hu & _). pose proof (MDemo.kernel_snapshot q Hq) as H.
  rewrite Hs in H. cbn in H. congruence.
Defined.
